(* ===== verification/_CoqProject ===== *)
-Q . S2P
Prelude.v
SphTypes.v
Stream.v
Padding.v
Counter.v
Blake.v
Bmw.v
Keccak.v
Cubehash.v
Jh.v
Luffa.v
AesHelper.v
Ctaes.v
AesCbc.v
Sha256.v
Sha256Ni.v
Sha256X86.v
Sha256Arm.v
Sha256Select.v
Hashers.v
Hash160.v
Merkle.v
Shavite.v
Groestl.v
Skein.v
SimdFft.v
Simd.v
Echo.v
HashX11.v
Configurations.v
Serialize.v
Script.v
Interpreter.v
ScriptHashes.v
BitSet.v
Uint256.v
Block.v
Arith256.v
BlockIndex.v
Versionbits.v
Chain.v
Pow.v
