(* ===== verification/Prelude.v ===== *)
(** * Dash Core: hashes, block headers, the proof-of-work chain and scripts

    A verification development for Dash Core, of the code that decides which
    chain of block headers a node follows and which scripts unlock an output:
    the hash that identifies a header and carries its proof of work, the bytes
    of a header on the wire, the arithmetic of targets, the rules that check
    and choose targets, the tree and chain of headers that a node keeps, the
    deployments that miners signal, the other hashes and the cipher of
    [crypto/], Merkle roots, and the script interpreter.  Paths below are
    relative to [src/src/].

    ** The program's parts and the files that model them

    The hash, [crypto/x11/] and [hash_x11.h]:
    - [Prelude] (this file): words, bytes, memory writes, the generic lemmas on
      lists, the hint database [word] and the tactics the other files share;
    - [SphTypes]: [sph_types.h], the word macros and the encoders and decoders,
      portable and for a little-endian host;
    - [Stream], [Padding], [Counter]: what the hash files repeat: the update
      loop over a block buffer, the padding in that buffer, the 128-bit
      message counter;
    - [Blake], [Bmw], [Groestl], [Skein], [Jh], [Keccak], [Luffa], [Cubehash],
      [Shavite], [Simd] (with [SimdFft], its message expansion), [Echo], and
      [AesHelper] for the last three that use AES rounds: one file per
      [crypto/x11/*.c].  The context struct is a record, every macro and every
      function a definition of the same name, the entry points
      [sph_x512_init], [sph_x512], [sph_x512_addbits_and_close] on top;
    - [HashX11]: [hash_x11.h], the chain of the eleven hashes.  What one hash
      promises to the chain is the class [Promises]; the chain is proved from
      the class, the eleven instances discharge it;
    - [Configurations]: the tables of initial values, and the forms of the code
      that the configuration macros select, against each other.

    Other cryptography:
    - [Sha256]: [crypto/sha256.cpp] with the vector code of [sha256_sse41.cpp]
      and [sha256_avx2.cpp]: one text over the class [Word32], whose instances
      are the word and the vectors;
    - [Sha256Ni], [Sha256X86], [Sha256Arm]: the code on the SHA instructions of
      x86 and ARM, [crypto/sha256_x86_shani.cpp] and [sha256_arm_shani.cpp], as
      straight-line programs over registers.  An interpreter, over a class of
      lanes, gives them their meaning on words; run on names of the values of
      the standard it verifies them by computation;
    - [Sha256Select]: [SHA256AutoDetect], which chooses an implementation; the
      assembly of [sha256_sse4.cpp] is an argument;
    - [Hashers]: the streaming classes [CSHA256], [CHash256], [HashWriter] over
      any block function that keeps the promise [impl_ok];
    - [Hash160]: [crypto/sha1.cpp], [crypto/ripemd160.cpp], [CHash160];
    - [Merkle]: [consensus/merkle.cpp];
    - [Ctaes], [AesCbc]: [crypto/ctaes/] and [crypto/aes.cpp]; the chaining is
      proved against the classes [HasEncrypt] and [HasDecrypt].

    Headers as bytes:
    - [Serialize]: [streams.h] and [serialize.h].  The streams
      [CVectorWriter], [DataStream] and [SpanReader] implement the classes
      [Writer] and [Reader]; [WriterLaws] and [ReaderLaws] state what a format
      relies on, and every format is proved against the laws.  A parser returns
      a value of a sum type, its left side the exception;
    - [BitSet]: the bit-set formats and the message [CSigSharesInv] of
      [llmq/signing_shares.h];
    - [Uint256]: [uint256.cpp], hexadecimal text;
    - [Block]: [primitives/block.h], [primitives/block.cpp], the headers2
      messages of [net_processing.cpp], the genesis headers of
      [chainparams.cpp].

    Targets and chains:
    - [Arith256]: [arith_uint256.h] and [arith_uint256.cpp];
    - [BlockIndex]: [CBlockIndex] of [chain.h], its operations in [chain.cpp],
      and [BlockManager::AddToBlockIndex] of [node/blockstorage.cpp].  The
      entries live in a finite map, pointers are keys of it, so the entries
      share their predecessors as the code's do;
    - [Chain]: [CChain] of [chain.h] and [chain.cpp];
    - [Versionbits]: [versionbits.cpp], the state machine of deployments over
      the tree of headers, with its cache;
    - [Pow]: [pow.cpp].

    Scripts:
    - [Script]: [script/script.h] and [script/script.cpp]: numbers, building
      and parsing, standard forms, counts of signature operations;
    - [Interpreter]: [script/interpreter.cpp]: [EvalScript], one definition per
      case of its switch, and [VerifyScript], in a monad whose outcomes are a
      script error, an exception, a failed assertion, or a value.  The checker
      of signatures is the class [BaseSignatureChecker], the hash functions and
      the curve the record [Crypto] with the laws [crypto_ok];
    - [ScriptHashes]: the hashers of [Hashers] and [Hash160] as the hash
      functions of the interpreter, and the laws for them.

    ** How the code is modelled

    An unsigned integer of width [w] is a [Z] in [0, 2^w), with the truncation
    of the code written out ([SPH_T32], [SPH_T64], [u8], or a modulus); signed
    arithmetic is that of [Z], and the theorems' hypotheses keep it in range,
    or it is reduced to its width ([int32] in [Versionbits], where a hypothesis
    excludes the overflow).
    Arrays are lists, [l @@ i] reads one.  Uninitialised memory (contexts and
    local buffers on the stack) is an argument, and the theorems hold for every
    content.  Failed assertions, null pointers, divisions by zero and
    exceptions are [None] or the left side of a sum.  State is passed and
    returned; the trees of headers that can arise are the inductive predicate
    [reachable] over [AddToBlockIndex].

    ** What the theorems show

    - [HashX11_correct]: the chain of the eleven streaming interfaces computes
      the composition of the eleven hash functions, trimmed to 256 bits,
      whatever the stack holds; [sph_keccak512_correct], [sph_echo512_correct]
      and the lemmas of that form for the other nine say the same of each
      function, for every way of cutting the message into chunks and for extra
      bits at its end.  Groestl, Keccak, ECHO, the AES
      round and SIMD's expansion are refined to specifications on bytes,
      sponges and polynomials that do not share the code's structure; the
      other functions to the specification's formulas over the whole message;
    - [genesis_blocks]: the model computes the hashes that the program asserts
      for its genesis blocks;
    - [hashers_correct], [hash160_correct], [SHA256D64_correct]: SHA-256,
      SHA-1 and RIPEMD-160 over their streaming interfaces, and the batch of
      double hashes with every implementation that [SHA256AutoDetect] selects
      (given that the assembly computes the block function), are the standard
      functions;
    - [merkle_root_correct], [merkle_root_binds]: the loop in place computes the
      tree, and the root with the mutation flag determines the leaves, unless
      the two trees have different inputs of nodes with the same hash;
    - [AES_correct], [AES256CBC_correct], [AES256CBC_roundtrip]: the bit-sliced
      circuit is AES, and padding and chaining invert each other;
    - [GetHash_correct], [headers2_roundtrip], [CSigSharesInv_roundtrip],
      [varints_write_outside], and the lemmas on compact sizes and variable
      integers: round trips over any stream, canonical encodings, all error
      cases, and the one input class that writes out of bounds;
    - [GetStateFor_correct], [states_progress], [deployment_settles],
      [since_height_statistics], [ComputeBlockVersion_correct]: the cached walk
      computes the states of the deployments, which only progress and settle,
      and the version of a new block shows them as long as the thresholds'
      products fit an [int];
    - [interpreter_safe], [flags_are_soft_forks]: every script ends with an
      error or a stack in its limits, without a failed assertion or an access
      out of range, and adding flags only rejects more;
    - [pay_to_pubkey_hash_correct], [checkmultisig_correct],
      [unspendable_outputs], [script_hashes_correct]: what unlocks the usual
      output, the greedy matching of signatures to keys, outputs that nothing
      unlocks, the hash operations;
    - [script_roundtrip], [script_numbers], [condition_stack_refines]: scripts
      parse into what they were built from, numbers have one minimal form, and
      two integers refine the stack of conditions;
    - [arith_operations], [division_correct], [compact_target]: the limb
      arithmetic is arithmetic modulo 2^256, the division returns, the compact
      format rounds down and is idempotent;
    - [block_index_invariant], [ancestors_correct], [active_chain_correct]: the
      invariant of every tree that arises, and that skip list, fork search,
      locators, [SetTip] and the search by time refine their naive definitions
      (the search by the timestamps of the branch, not by the maxima it
      compares);
    - [CheckProofOfWork_correct], [DarkGravityWave_correct],
      [GetNextWorkRequired_valid]: what is accepted, what the next target is,
      and that the next target always exists and stays in range;
    - [FFT_no_overflow] and the lemmas of [Configurations]: signed arithmetic
      that stays in range, byte order, and the equivalence of configurations.

    ** Bounds and fuel

    The hash theorems bound the message so that the code's length counters do
    not wrap (the bound is in each statement; a header has 80 bytes).  Loops
    over data are structural recursions.  Loops with fuel: [ReadVarInt] (as many
    turns as the type has 7-bit groups, plus one), the bit-set reader (the
    size of the vector plus one), the walks over the tree (the height of the
    block they start from, also in the walks of the version bits), the binary
    search (the length of the vector), the Merkle loop (the number of hashes),
    the loops over batches of blocks (their number), the loops over a script
    (its bytes), the matching of signatures (the number of keys); that
    the fuel is enough is part of the theorems, which state results, not
    partial correctness.  The division has as many turns as its shift.  Heights
    are below 2^31 where the code computes with them in 64 bits
    ([GetNextWorkRequired_valid]).

    ** Not modelled

    BLAKE-224/256 and SHAvite-224/256 (in the same C files, not part of X11);
    the 32-bit configurations of JH, Keccak, Groestl and ECHO; the vendored
    libraries (secp256k1, BLS, LevelDB, univalue); SHA-256 in assembly
    ([crypto/sha256_sse4.cpp]); transactions with their signature hash, which the
    checker of the interpreter stands for; the set of coins and the chain
    state; sockets, threads and peer state; wallet storage, RPC and user
    interface.  The mathematical library's [pow] in [KimotoGravityWell] is an
    argument of the model, as are the curve in [Crypto] and the signals of the
    masternodes in [Versionbits].  The Merkle root of the genesis blocks is the
    value the program asserts. *)
From Stdlib Require Export ZArith Lia Btauto.
From stdpp Require Export base list numbers.

#[global] Open Scope Z_scope.

(** ** Words and bytes

    A C unsigned integer of width [w] is a [Z] in [0, 2^w); the predicate
    [word w] is that range.  Memory is a list of bytes. *)
Definition word (w x : Z) : Prop := 0 <= x < 2 ^ w.

#[export] Instance word_dec w x : Decision (word w x).
Proof. unfold word. apply _. Defined.

Abbreviation byte := (word 8).
Abbreviation bytes := (Forall (word 8)).
Abbreviation words w := (Forall (word w)).

(** C's [^] on words; [≪] and [≫] are the unbounded shifts. *)
Notation "x ^^ y" := (Z.lxor x y) (at level 48, left associativity) : Z_scope.

Create HintDb word discriminated.

(** [l @@ i]: the array read [l[i]]; an index outside the array, which the
    code never uses, reads 0. *)
Definition at_ (l : list Z) (i : nat) : Z := nth i l 0.
Notation "l @@ i" := (at_ l i) (at level 21, left associativity).

(** ** Bit-level reasoning *)

(** Two words of width [w] are equal when their low [w] bits are. *)
Lemma word_ext w x y :
  word w x → word w y →
  (∀ i, 0 <= i < w → Z.testbit x i = Z.testbit y i) → x = y.
Proof.
  intros Hx Hy H. apply Z.bits_inj'. intros i Hi.
  destruct (decide (i < w)) as [?|Hge]; [by apply H; lia|].
  destruct (decide (0 <= w)) as [Hw|Hw].
  - rewrite <-(Z.mod_small x (2 ^ w)), <-(Z.mod_small y (2 ^ w)) by done.
    rewrite !Z.mod_pow2_bits_high by lia. done.
  - unfold word in *. rewrite Z.pow_neg_r in * by lia. lia.
Qed.

Lemma word_testbit_high w x i : word w x → w <= i → Z.testbit x i = false.
Proof.
  intros [H0 H1] Hi. destruct (decide (0 <= w)).
  - rewrite <-(Z.mod_small x (2 ^ w)) by done.
    rewrite Z.mod_pow2_bits_high by lia. done.
  - rewrite Z.pow_neg_r in H1 by lia. lia.
Qed.

(** A non-negative integer with no bit at or above [w] is a word. *)
Lemma word_of_bits w x :
  0 <= w → 0 <= x → (∀ i, w <= i → Z.testbit x i = false) → word w x.
Proof.
  intros Hw H0 H. split; [done|].
  destruct (decide (x = 0)) as [->|Hx]; [lia|].
  apply Z.log2_lt_pow2; [lia|].
  destruct (decide (Z.log2 x < w)) as [?|Hge]; [done|].
  pose proof (Z.bit_log2 x ltac:(lia)) as Hb. rewrite H in Hb by lia. done.
Qed.

Lemma word_mono w w' x : 0 <= w <= w' → word w x → word w' x.
Proof.
  intros Hw [H0 H1]. split; [done|].
  apply (Z.lt_le_trans _ _ _ H1). apply Z.pow_le_mono_r; lia.
Qed.

Lemma word_lxor w x y : 0 <= w → word w x → word w y → word w (Z.lxor x y).
Proof.
  intros Hw Hx Hy. apply word_of_bits; [done| |].
  - apply Z.lxor_nonneg. unfold word in *. lia.
  - intros i Hi. by rewrite Z.lxor_spec, !(word_testbit_high w).
Qed.

Lemma word_lor w x y : 0 <= w → word w x → word w y → word w (Z.lor x y).
Proof.
  intros Hw Hx Hy. apply word_of_bits; [done| |].
  - apply Z.lor_nonneg. unfold word in *. lia.
  - intros i Hi. by rewrite Z.lor_spec, !(word_testbit_high w).
Qed.

Lemma word_land_l w x y : 0 <= w → word w x → word w (Z.land x y).
Proof.
  intros Hw Hx. apply word_of_bits; [done| |].
  - apply Z.land_nonneg. unfold word in *. lia.
  - intros i Hi. by rewrite Z.land_spec, (word_testbit_high w x).
Qed.

Lemma word_land_r w x y : 0 <= w → word w y → word w (Z.land x y).
Proof. rewrite Z.land_comm. apply word_land_l. Qed.

Lemma word_shiftr w x n : 0 <= w → 0 <= n → word w x → word w (Z.shiftr x n).
Proof.
  intros Hw Hn Hx. apply word_of_bits; [done| |].
  - apply Z.shiftr_nonneg. unfold word in *. lia.
  - intros i Hi. rewrite Z.shiftr_spec by lia.
    apply (word_testbit_high w); [done|lia].
Qed.

(** A word put below a shifted number. *)
Lemma lor_shiftl_add k a x : 0 <= k → 0 <= x < 2 ^ k → Z.lor (a ≪ k) x = a * 2 ^ k + x.
Proof.
  intros Hk Hx. assert (E : Z.land (a ≪ k) x = 0).
  { apply Z.bits_inj'. intros i Hi. rewrite Z.land_spec, Z.shiftl_spec, Z.bits_0 by lia.
    destruct (Z.lt_ge_cases i k) as [Hl|Hl]; [by rewrite Z.testbit_neg_r by lia|].
    rewrite (word_testbit_high k x i Hx Hl). apply andb_false_r. }
  rewrite <-Z.lxor_lor, <-Z.add_nocarry_lxor, Z.shiftl_mul_pow2 by done. done.
Qed.

Lemma word_mod w x : 0 <= w → word w (x mod 2 ^ w).
Proof. intros. apply Z.mod_pos_bound. lia. Qed.

Lemma word_0 w : 0 <= w → word w 0.
Proof. unfold word. lia. Qed.

#[export] Hint Resolve word_lxor word_lor word_land_l word_shiftr word_0 : word.
#[export] Hint Extern 1 (_ <= _) => lia : word.
#[export] Hint Extern 2 (word _ _) => assumption : word.

(** Closes a goal [word w e] from the words of the context. *)
Ltac word_solve := eauto 10 with word nocore.

(** Splits the hypotheses about explicit lists of words. *)
Ltac words_inv :=
  repeat match goal with
  | H : Forall (word _) (_ :: _) |- _ =>
    let H' := fresh in pose proof (Forall_cons_1 _ _ _ H) as [? H']; clear H
  end.

(** ** Lists *)

Lemma words_at w l i : 0 <= w → words w l → word w (l @@ i).
Proof.
  intros Hw Hl. unfold at_. destruct (decide (i < length l)%nat) as [Hi|Hi].
  - rewrite Forall_forall in Hl. apply Hl, nth_In, Hi.
  - rewrite nth_overflow by lia. by apply word_0.
Qed.
#[export] Hint Resolve words_at : word.

Lemma at_lookup (l : list Z) i x : l !! i = Some x → l @@ i = x.
Proof.
  intros H. unfold at_. revert i H.
  induction l as [|y l IH]; intros [|i] H; simpl in *; try congruence; auto.
Qed.

Lemma lookup_at (l : list Z) i : (i < length l)%nat → l !! i = Some (l @@ i).
Proof.
  intros Hi. destruct (lookup_lt_is_Some_2 l i Hi) as [x Hx].
  by rewrite (at_lookup _ _ _ Hx).
Qed.

(** Memory writes: [memcpy(dst + off, src, len src)] and
    [memset(dst + off, c, n)], for writes that stay inside [dst]. *)
Definition memcpy (dst : list Z) (off : nat) (src : list Z) : list Z :=
  take off dst ++ src ++ drop (off + length src) dst.

Definition memset (dst : list Z) (off : nat) (c : Z) (n : nat) : list Z :=
  memcpy dst off (replicate n c).

Lemma length_memcpy dst off src :
  (off + length src <= length dst)%nat → length (memcpy dst off src) = length dst.
Proof. intros. unfold memcpy. rewrite !length_app, length_take, length_drop. lia. Qed.

Lemma length_memset dst off c n :
  (off + n <= length dst)%nat → length (memset dst off c n) = length dst.
Proof. intros. apply length_memcpy. by rewrite length_replicate. Qed.

Lemma memcpy_nil dst off : memcpy dst off [] = dst.
Proof. unfold memcpy. simpl. by rewrite Nat.add_0_r, take_drop. Qed.

Lemma take_memcpy dst off src :
  (off <= length dst)%nat →
  take (off + length src) (memcpy dst off src) = take off dst ++ src.
Proof.
  intros. unfold memcpy. rewrite app_assoc, take_app_length'; [done|].
  rewrite length_app, length_take. lia.
Qed.

Lemma memcpy_full dst off src :
  (off + length src = length dst)%nat → memcpy dst off src = take off dst ++ src.
Proof. intros. unfold memcpy. rewrite drop_ge by lia. by rewrite app_nil_r. Qed.

Lemma Forall_memcpy P dst off src :
  Forall P dst → Forall P src → Forall P (memcpy dst off src).
Proof.
  intros. unfold memcpy. rewrite !Forall_app.
  auto using Forall_take, Forall_drop.
Qed.

(** Writing a non-empty range is writing its first byte, then the rest. *)
Lemma memcpy_cons dst off x src :
  (off + S (length src) <= length dst)%nat →
  memcpy dst off (x :: src) = memcpy (<[off:=x]> dst) (S off) src.
Proof.
  intros Hle. unfold memcpy.
  rewrite (take_S_r (<[off:=x]> dst) off x)
    by (apply list_lookup_insert_eq; lia).
  rewrite take_insert_ge, drop_insert_lt by lia.
  rewrite <-app_assoc. simpl. do 3 f_equal. by rewrite Nat.add_succ_r.
Qed.

Lemma memcpy_at (a b c d : list Z) k :
  k = length a → length b = length d → memcpy (a ++ b ++ c) k d = a ++ d ++ c.
Proof.
  intros -> Hl. unfold memcpy. rewrite take_app_length.
  by rewrite <-Hl, <-drop_drop, !drop_app_length.
Qed.

Lemma split_at (u : list Z) p m :
  (p + m <= length u)%nat →
  ∃ a b c, u = a ++ b ++ c ∧ length a = p ∧ length b = m ∧ length c = (length u - p - m)%nat.
Proof.
  intros Hl. exists (take p u), (take m (drop p u)), (drop m (drop p u)).
  rewrite !take_drop, !length_take, !length_drop. repeat split; lia.
Qed.

Lemma fold_left_ext_in {A B} (f g : A → B → A) l a :
  (∀ a x, In x l → f a x = g a x) → fold_left f l a = fold_left g l a.
Proof.
  revert a. induction l as [|x l IH]; intros a E; [done|].
  simpl. rewrite E by by left. apply IH. intros. apply E. by right.
Qed.

Lemma length_concat_map {A B} (f : A → list B) k l :
  (∀ x, length (f x) = k) → length (concat (f <$> l)) = (k * length l)%nat.
Proof.
  intros Hf. induction l as [|x l IH]; simpl; [lia|].
  rewrite length_app, Hf. unfold fmap in IH. rewrite IH. lia.
Qed.

(** Two folds in lockstep keep a relation between their states. *)
Lemma fold_left_sim {A B X} (R : A → B → Prop) (Q : X → Prop) (f : A → X → A) (g : B → X → B) l a b :
  (∀ a b x, Q x → R a b → R (f a x) (g b x)) → Forall Q l → R a b →
  R (fold_left f l a) (fold_left g l b).
Proof.
  intros Hstep Hl. revert a b. induction Hl as [|x l Hx Hl IH]; intros a b Hab; simpl; auto.
Qed.

Lemma at_app_l (l k : list Z) i : (i < length l)%nat → (l ++ k) @@ i = l @@ i.
Proof. intros. unfold at_. by apply app_nth1. Qed.

Lemma at_ext (l k : list Z) :
  length l = length k → (∀ i, (i < length l)%nat → l @@ i = k @@ i) → l = k.
Proof.
  intros Hl E. apply list_eq. intros i. destruct (decide (i < length l)%nat).
  - by rewrite !lookup_at, E by lia.
  - by rewrite !lookup_ge_None_2 by lia.
Qed.

Lemma at_insert (l : list Z) i j x :
  (i < length l)%nat → <[i := x]> l @@ j = if (j =? i)%nat then x else l @@ j.
Proof.
  intros Hi. destruct (Nat.eqb_spec j i) as [->|Hne].
  - apply at_lookup, list_lookup_insert_eq. done.
  - unfold at_. revert i j Hi Hne. induction l as [|y l IH]; intros [|i] [|j] Hi Hne;
      simpl in *; try done; apply IH; lia.
Qed.

Lemma at_fmap_seq (f : nat → Z) n i : (i < n)%nat → (f <$> seq 0 n) @@ i = f i.
Proof. intros. apply at_lookup. by rewrite list_lookup_fmap, lookup_seq_lt. Qed.

(** A loop that updates the entries [0..n) one by one. *)
Lemma length_update_loop (g : nat → Z → Z) n l :
  length (fold_left (λ l j, <[j := g j (l @@ j)]> l) (seq 0 n) l) = length l.
Proof.
  induction n as [|n IH]; [done|]. rewrite seq_S, fold_left_app. simpl. by rewrite length_insert.
Qed.

Lemma update_loop_at (g : nat → Z → Z) n l i :
  (n <= length l)%nat →
  fold_left (λ l j, <[j := g j (l @@ j)]> l) (seq 0 n) l @@ i =
  if (i <? n)%nat then g i (l @@ i) else l @@ i.
Proof.
  revert i. induction n as [|n IH]; intros i Hn; [done|]. rewrite seq_S, fold_left_app. cbn [fold_left Nat.add].
  rewrite at_insert by (rewrite (length_update_loop g); lia). rewrite !IH by lia.
  destruct (Nat.eqb_spec i n), (Nat.ltb_spec i n), (Nat.ltb_spec n n),
    (Nat.ltb_spec i (S n)); subst; done || lia.
Qed.

(** Consecutive writes of [k] bytes each. *)
Lemma write_loop (f : nat → list Z) k n tmp :
  (∀ j, length (f j) = k) → (k * n <= length tmp)%nat →
  length (fold_left (λ t j, memcpy t (k * j) (f j)) (seq 0 n) tmp) = length tmp ∧
  take (k * n) (fold_left (λ t j, memcpy t (k * j) (f j)) (seq 0 n) tmp) =
  concat (f <$> seq 0 n).
Proof.
  intros Hf. induction n as [|n IH]; intros Hn.
  { rewrite Nat.mul_0_r. done. }
  destruct IH as [Hl E]; [lia|]. rewrite seq_S, fold_left_app. cbn [fold_left Nat.add].
  split; [rewrite length_memcpy; rewrite ?Hf; lia|].
  rewrite fmap_app, concat_app, <-E. simpl. rewrite app_nil_r.
  replace (k * S n)%nat with (k * n + length (f n))%nat by (rewrite Hf; lia).
  apply take_memcpy. lia.
Qed.

(** [fold_left] on a cons, as a rewriting step. *)
Lemma fold_left_cons {A B} (f : A → B → A) x l a : fold_left f (x :: l) a = fold_left f l (f a x).
Proof. done. Qed.

(** Two adjacent writes are one. *)
Lemma memcpy_memcpy (d a b : list Z) off off' :
  off' = (off + length a)%nat → (off + length a + length b <= length d)%nat →
  memcpy (memcpy d off a) off' b = memcpy d off (a ++ b).
Proof.
  intros -> Hl. unfold memcpy at 1. rewrite take_memcpy by lia.
  unfold memcpy. rewrite length_app, !app_assoc.
  rewrite drop_app_ge by (rewrite length_app, length_take; lia).
  rewrite drop_drop. rewrite length_app, length_take. do 2 f_equal. lia.
Qed.

Lemma insert_memcpy (d a : list Z) off x :
  (off + S (length a) <= length d)%nat →
  memcpy (<[off := x]> d) (S off) a = memcpy d off (x :: a).
Proof. intros. by rewrite memcpy_cons. Qed.

(** [memcpy(dst, b + m, n)] reads the bytes [m, m + n). *)
Lemma take_drop_take {A} (b : list A) m n k :
  (m + n <= k)%nat → take n (drop m b) = take n (drop m (take k b)).
Proof.
  intros. rewrite !(firstn_skipn_comm n m), take_take. by rewrite Nat.min_l by lia.
Qed.

Lemma take_memcpy_0 dst src n : n = length src → take n (memcpy dst 0 src) = src.
Proof. intros ->. unfold memcpy. rewrite take_0, app_nil_l. apply take_app_length. Qed.

(** Equality of two xor expressions, by bits. *)
Ltac xor_ac := apply Z.bits_inj'; intros ? _; rewrite !Z.lxor_spec, ?Z.bits_0; btauto.
