(* ===== verification/SphTypes.v ===== *)
(** * Word macros and byte-order helpers: crypto/x11/sph_types.h

    The macros [SPH_T32], [SPH_ROTL64], ... on words kept at their width, the
    encoders and decoders between words and memory in both byte orders, in
    the two shapes the header has for them: the portable byte-by-byte code,
    and the code chosen on a little-endian host, a native store or load
    around [sph_bswap].  The theorems are the round trips and the equality of
    the two shapes. *)
From S2P Require Import Prelude.

(** ** Truncation and rotation *)

Definition SPH_T32 (x : Z) : Z := Z.land x 0xFFFFFFFF.
Definition SPH_T64 (x : Z) : Z := Z.land x 0xFFFFFFFFFFFFFFFF.

Definition SPH_ROTL32 (x n : Z) : Z :=
  SPH_T32 (Z.lor (Z.shiftl x n) (Z.shiftr x (32 - n))).
Definition SPH_ROTR32 (x n : Z) : Z := SPH_ROTL32 x (32 - n).
Definition SPH_ROTL64 (x n : Z) : Z :=
  SPH_T64 (Z.lor (Z.shiftl x n) (Z.shiftr x (64 - n))).
Definition SPH_ROTR64 (x n : Z) : Z := SPH_ROTL64 x (64 - n).

(** C's [~] on 32-bit and 64-bit words. *)
Definition not32 (x : Z) : Z := SPH_T32 (Z.lnot x).
Definition not64 (x : Z) : Z := SPH_T64 (Z.lnot x).

(** Conversion to [unsigned char]. *)
Definition u8 (x : Z) : Z := Z.land x 0xFF.

(** ** Byte swapping (the pure C version) *)

Definition sph_bswap32 (x : Z) : Z :=
  let x := SPH_T32 (Z.lor (Z.shiftl x 16) (Z.shiftr x 16)) in
  Z.lor (Z.shiftr (Z.land x 0xFF00FF00) 8) (Z.shiftl (Z.land x 0x00FF00FF) 8).

Definition sph_bswap64 (x : Z) : Z :=
  let x := SPH_T64 (Z.lor (Z.shiftl x 32) (Z.shiftr x 32)) in
  let x := Z.lor (Z.shiftr (Z.land x 0xFFFF0000FFFF0000) 16)
                 (Z.shiftl (Z.land x 0x0000FFFF0000FFFF) 16) in
  Z.lor (Z.shiftr (Z.land x 0xFF00FF00FF00FF00) 8)
        (Z.shiftl (Z.land x 0x00FF00FF00FF00FF) 8).

(** ** Encoders: the bytes written at [dst], in address order *)

Definition sph_enc16be (val : Z) : list Z := [u8 (Z.shiftr val 8); u8 val].
Definition sph_enc16le (val : Z) : list Z := [u8 val; u8 (Z.shiftr val 8)].

Definition sph_enc32be (val : Z) : list Z :=
  [u8 (Z.shiftr val 24); u8 (Z.shiftr val 16); u8 (Z.shiftr val 8); u8 val].
Definition sph_enc32le (val : Z) : list Z :=
  [u8 val; u8 (Z.shiftr val 8); u8 (Z.shiftr val 16); u8 (Z.shiftr val 24)].

Definition sph_enc64be (val : Z) : list Z :=
  [u8 (Z.shiftr val 56); u8 (Z.shiftr val 48); u8 (Z.shiftr val 40);
   u8 (Z.shiftr val 32); u8 (Z.shiftr val 24); u8 (Z.shiftr val 16);
   u8 (Z.shiftr val 8); u8 val].
Definition sph_enc64le (val : Z) : list Z :=
  [u8 val; u8 (Z.shiftr val 8); u8 (Z.shiftr val 16); u8 (Z.shiftr val 24);
   u8 (Z.shiftr val 32); u8 (Z.shiftr val 40); u8 (Z.shiftr val 48);
   u8 (Z.shiftr val 56)].

(** ** Decoders: [src] is the memory from the source address on *)

Definition sph_dec16be (src : list Z) : Z :=
  Z.lor (Z.shiftl (src @@ 0) 8) (src @@ 1).
Definition sph_dec16le (src : list Z) : Z :=
  Z.lor (src @@ 0) (Z.shiftl (src @@ 1) 8).

Definition sph_dec32be (src : list Z) : Z :=
  Z.lor (Z.lor (Z.lor (Z.shiftl (src @@ 0) 24) (Z.shiftl (src @@ 1) 16))
               (Z.shiftl (src @@ 2) 8)) (src @@ 3).
Definition sph_dec32le (src : list Z) : Z :=
  Z.lor (Z.lor (Z.lor (src @@ 0) (Z.shiftl (src @@ 1) 8))
               (Z.shiftl (src @@ 2) 16)) (Z.shiftl (src @@ 3) 24).

Definition sph_dec64be (src : list Z) : Z :=
  Z.lor (Z.lor (Z.lor (Z.lor (Z.lor (Z.lor (Z.lor
    (Z.shiftl (src @@ 0) 56) (Z.shiftl (src @@ 1) 48))
    (Z.shiftl (src @@ 2) 40)) (Z.shiftl (src @@ 3) 32))
    (Z.shiftl (src @@ 4) 24)) (Z.shiftl (src @@ 5) 16))
    (Z.shiftl (src @@ 6) 8)) (src @@ 7).
Definition sph_dec64le (src : list Z) : Z :=
  Z.lor (Z.lor (Z.lor (Z.lor (Z.lor (Z.lor (Z.lor
    (src @@ 0) (Z.shiftl (src @@ 1) 8))
    (Z.shiftl (src @@ 2) 16)) (Z.shiftl (src @@ 3) 24))
    (Z.shiftl (src @@ 4) 32)) (Z.shiftl (src @@ 5) 40))
    (Z.shiftl (src @@ 6) 48)) (Z.shiftl (src @@ 7) 56).

(** ** The little-endian host's versions

    A native store of a word at [dst] writes its bytes least significant
    first, a native load reads them so: the memory of a little-endian CPU. *)

Fixpoint le_split (n : nat) (v : Z) : list Z :=
  match n with
  | O => []
  | S n => u8 v :: le_split n (Z.shiftr v 8)
  end.

Fixpoint le_join (l : list Z) : Z :=
  match l with
  | [] => 0
  | b :: l => Z.lor b (Z.shiftl (le_join l) 8)
  end.

Definition sph_enc32be_aligned (val : Z) : list Z := le_split 4 (sph_bswap32 val).
Definition sph_enc32le_aligned (val : Z) : list Z := le_split 4 val.
Definition sph_enc64be_aligned (val : Z) : list Z := le_split 8 (sph_bswap64 val).
Definition sph_enc64le_aligned (val : Z) : list Z := le_split 8 val.

Definition sph_dec32be_aligned (src : list Z) : Z := sph_bswap32 (le_join (take 4 src)).
Definition sph_dec32le_aligned (src : list Z) : Z := le_join (take 4 src).
Definition sph_dec64be_aligned (src : list Z) : Z := sph_bswap64 (le_join (take 8 src)).
Definition sph_dec64le_aligned (src : list Z) : Z := le_join (take 8 src).

(** ** Words stay words *)

Lemma SPH_T32_mod x : SPH_T32 x = x mod 2 ^ 32.
Proof. apply (Z.land_ones x 32). lia. Qed.

Lemma SPH_T64_mod x : SPH_T64 x = x mod 2 ^ 64.
Proof. apply (Z.land_ones x 64). lia. Qed.

Lemma u8_mod x : u8 x = x mod 2 ^ 8.
Proof. apply (Z.land_ones x 8). lia. Qed.

Lemma word_T32 x : word 32 (SPH_T32 x).
Proof. rewrite SPH_T32_mod. by apply word_mod. Qed.

Lemma word_T64 x : word 64 (SPH_T64 x).
Proof. rewrite SPH_T64_mod. by apply word_mod. Qed.

Lemma byte_u8 x : byte (u8 x).
Proof. rewrite u8_mod. by apply word_mod. Qed.

Lemma SPH_T32_id x : word 32 x → SPH_T32 x = x.
Proof. rewrite SPH_T32_mod. apply Z.mod_small. Qed.

Lemma SPH_T64_id x : word 64 x → SPH_T64 x = x.
Proof. rewrite SPH_T64_mod. apply Z.mod_small. Qed.

Lemma u8_id x : byte x → u8 x = x.
Proof. rewrite u8_mod. apply Z.mod_small. Qed.

Lemma word_ROTL32 x n : word 32 (SPH_ROTL32 x n).
Proof. apply word_T32. Qed.
Lemma word_ROTR32 x n : word 32 (SPH_ROTR32 x n).
Proof. apply word_T32. Qed.
Lemma word_ROTL64 x n : word 64 (SPH_ROTL64 x n).
Proof. apply word_T64. Qed.
Lemma word_ROTR64 x n : word 64 (SPH_ROTR64 x n).
Proof. apply word_T64. Qed.

#[export] Hint Resolve word_T32 word_T64 byte_u8 word_ROTL32 word_ROTR32
  word_ROTL64 word_ROTR64 : word.

(** ** Splitting and joining *)

Lemma length_le_split n v : length (le_split n v) = n.
Proof. revert v. induction n; intros; simpl; congruence. Qed.

Lemma bytes_le_split n v : bytes (le_split n v).
Proof. revert v. induction n; intros v; simpl; constructor; auto using byte_u8. Qed.

Lemma word_le_join l : bytes l → word (8 * Z.of_nat (length l)) (le_join l).
Proof.
  induction 1 as [|b l Hb Hl IH]; [done|]. cbn [le_join length].
  apply word_lor; [lia| |].
  - apply (word_mono 8); [lia|done].
  - apply word_of_bits; [lia| |].
    + apply Z.shiftl_nonneg. unfold word in IH. lia.
    + intros i Hi. rewrite Z.shiftl_spec by lia.
      apply (word_testbit_high _ _ _ IH). lia.
Qed.

Lemma testbit_u8 v i : 0 <= i → Z.testbit (u8 v) i = (i <? 8) && Z.testbit v i.
Proof.
  intros. rewrite u8_mod.
  destruct (Z.ltb_spec i 8); [by rewrite Z.mod_pow2_bits_low by lia|].
  by rewrite Z.mod_pow2_bits_high by lia.
Qed.

Lemma le_join_split n v : le_join (le_split n v) = v mod 2 ^ (8 * Z.of_nat n).
Proof.
  revert v. induction n as [|n IH]; intros v.
  { simpl. by rewrite Z.mod_1_r. }
  cbn [le_join le_split]. rewrite IH. apply Z.bits_inj'. intros i Hi.
  rewrite Z.lor_spec, testbit_u8, Z.shiftl_spec by lia.
  destruct (Z.ltb_spec i 8).
  - rewrite (Z.testbit_neg_r _ (i - 8)), Z.mod_pow2_bits_low by lia. btauto.
  - simpl. destruct (decide (i < 8 * Z.of_nat (S n))).
    + rewrite !Z.mod_pow2_bits_low, Z.shiftr_spec by lia. f_equal; lia.
    + by rewrite !Z.mod_pow2_bits_high by lia.
Qed.

Lemma le_split_join l : bytes l → le_split (length l) (le_join l) = l.
Proof.
  induction 1 as [|b l Hb Hl IH]; [done|]. cbn [le_join le_split length]. f_equal.
  - apply (word_ext 8); [apply byte_u8|done|]. intros i Hi.
    rewrite testbit_u8, Z.lor_spec, Z.shiftl_spec, (Z.testbit_neg_r _ (i - 8)) by lia.
    destruct (Z.ltb_spec i 8); [btauto|lia].
  - etransitivity; [|exact IH]. f_equal. apply Z.bits_inj'. intros i Hi.
    rewrite Z.shiftr_spec, Z.lor_spec, Z.shiftl_spec by lia.
    rewrite (word_testbit_high 8 b) by (done || lia). simpl. f_equal; lia.
Qed.

Lemma le_split_app n m v : le_split (n + m) v = le_split n v ++ le_split m (Z.shiftr v (8 * Z.of_nat n)).
Proof.
  revert v. induction n as [|n IH]; intros v; [by rewrite Z.shiftr_0_r|].
  cbn [Nat.add le_split app]. rewrite IH, Z.shiftr_shiftr by lia.
  replace (8 + 8 * Z.of_nat n) with (8 * Z.of_nat (S n)) by lia. done.
Qed.

Lemma le_split_mod n v : le_split n (v mod 2 ^ (8 * Z.of_nat n)) = le_split n v.
Proof.
  revert v. induction n as [|n IH]; intros v; [done|]. cbn [le_split]. f_equal.
  - apply (word_ext 8); [apply byte_u8..|]. intros i Hi. rewrite !testbit_u8 by lia.
    by rewrite Z.mod_pow2_bits_low by lia.
  - rewrite <-(IH (Z.shiftr v 8)). f_equal. apply Z.bits_inj'. intros i Hi.
    rewrite Z.shiftr_spec by lia. destruct (decide (i < 8 * Z.of_nat n)).
    + by rewrite !Z.mod_pow2_bits_low, Z.shiftr_spec by lia.
    + by rewrite !Z.mod_pow2_bits_high by lia.
Qed.

Lemma le_split_inj n v v' :
  word (8 * Z.of_nat n) v → word (8 * Z.of_nat n) v' →
  le_split n v = le_split n v' → v = v'.
Proof.
  intros Hv Hv' H. apply (f_equal le_join) in H. rewrite !le_join_split in H.
  by rewrite !Z.mod_small in H.
Qed.

(** The code's encoders and decoders in terms of [le_split] and [le_join]. *)

Lemma enc32le_split v : sph_enc32le v = le_split 4 v.
Proof. unfold sph_enc32le. simpl. by rewrite !Z.shiftr_shiftr by lia. Qed.
Lemma enc32be_split v : sph_enc32be v = reverse (le_split 4 v).
Proof. rewrite <-enc32le_split. done. Qed.
Lemma enc64le_split v : sph_enc64le v = le_split 8 v.
Proof. unfold sph_enc64le. simpl. by rewrite !Z.shiftr_shiftr by lia. Qed.
Lemma enc64be_split v : sph_enc64be v = reverse (le_split 8 v).
Proof. rewrite <-enc64le_split. done. Qed.
Lemma enc16le_split v : sph_enc16le v = le_split 2 v.
Proof. done. Qed.

(** Equality of two [Z.lor] combinations of the same terms. *)
Ltac lor_ac := apply Z.bits_inj'; intros ??; rewrite !Z.lor_spec; btauto.

(** Evaluates the sums and differences of numerals in the goal. *)
Ltac zconst :=
  repeat match goal with
  | |- context [Z.add (Zpos ?a) (Zpos ?b)] =>
    let c := eval vm_compute in (Zpos a + Zpos b) in change (Zpos a + Zpos b) with c
  | |- context [Z.sub (Zpos ?a) (Zpos ?b)] =>
    let c := eval vm_compute in (Zpos a - Zpos b) in change (Zpos a - Zpos b) with c
  end.

Ltac join_norm :=
  unfold at_; simpl; rewrite ?Z.shiftl_0_l, ?Z.lor_0_r;
  repeat (rewrite Z.shiftl_lor || rewrite Z.shiftl_shiftl by lia);
  zconst; lor_ac.

Lemma dec32le_join src : (4 <= length src)%nat → sph_dec32le src = le_join (take 4 src).
Proof.
  intros H. do 4 (destruct src as [|? src]; [simpl in H; lia|]).
  unfold sph_dec32le. join_norm.
Qed.

Lemma dec32be_join src :
  (4 <= length src)%nat → sph_dec32be src = le_join (reverse (take 4 src)).
Proof.
  intros H. do 4 (destruct src as [|? src]; [simpl in H; lia|]).
  unfold sph_dec32be. join_norm.
Qed.

Lemma dec64le_join src : (8 <= length src)%nat → sph_dec64le src = le_join (take 8 src).
Proof.
  intros H. do 8 (destruct src as [|? src]; [simpl in H; lia|]).
  unfold sph_dec64le. join_norm.
Qed.

Lemma dec64be_join src :
  (8 <= length src)%nat → sph_dec64be src = le_join (reverse (take 8 src)).
Proof.
  intros H. do 8 (destruct src as [|? src]; [simpl in H; lia|]).
  unfold sph_dec64be. join_norm.
Qed.

(** ** Byte swapping reverses the bytes *)

(** The eight cases of a bit index of a byte. *)
Lemma byte_ext x y :
  byte x → byte y →
  Forall (λ i, Z.testbit x i = Z.testbit y i) [0; 1; 2; 3; 4; 5; 6; 7] → x = y.
Proof.
  intros Hx Hy H. apply (word_ext 8); [done..|]. intros i Hi.
  rewrite Forall_forall in H. apply H. simpl. lia.
Qed.

(** Pushes [Z.testbit] at numeral indices through the bit operations. *)
Ltac bits_eval :=
  repeat match goal with
  | |- context [Z.testbit (Z.land ?a ?b) ?n] => rewrite (Z.land_spec a b n)
  | |- context [Z.testbit (Z.lor ?a ?b) ?n] => rewrite (Z.lor_spec a b n)
  | |- context [Z.testbit (Z.lxor ?a ?b) ?n] => rewrite (Z.lxor_spec a b n)
  | |- context [Z.testbit (Z.shiftr ?a ?k) ?n] =>
    rewrite (Z.shiftr_spec a k n) by lia;
    let m := eval vm_compute in (n + k) in change (n + k) with m
  | |- context [Z.testbit (Z.shiftl ?a ?k) ?n] =>
    rewrite (Z.shiftl_spec a k n) by lia;
    let m := eval vm_compute in (n - k) in change (n - k) with m
  | |- context [Z.testbit ?x (Zneg ?n)] =>
    rewrite (Z.testbit_neg_r x (Zneg n)) by lia
  | |- context [Z.testbit (Zpos ?p) ?n] =>
    let b := eval vm_compute in (Z.testbit (Zpos p) n) in
    change (Z.testbit (Zpos p) n) with b
  end.

Ltac swap_byte H :=
  apply byte_ext; [apply byte_u8|apply byte_u8|];
  repeat apply Forall_cons_2; [..|apply Forall_nil_2];
  unfold u8, sph_bswap32, sph_bswap64, SPH_T32, SPH_T64; bits_eval;
  repeat match goal with
  | |- context [Z.testbit ?x ?n] => rewrite (word_testbit_high _ x n H) by lia
  end; btauto.

Lemma bswap32_split v : word 32 v → le_split 4 (sph_bswap32 v) = reverse (le_split 4 v).
Proof.
  intros Hv. rewrite <-(enc32le_split v), <-enc32le_split. unfold sph_enc32le, reverse. cbn [rev_append].
  repeat (apply (f_equal2 cons); [swap_byte Hv|]). reflexivity.
Qed.

Lemma bswap64_split v : word 64 v → le_split 8 (sph_bswap64 v) = reverse (le_split 8 v).
Proof.
  intros Hv. rewrite <-(enc64le_split v), <-enc64le_split. unfold sph_enc64le, reverse. cbn [rev_append].
  repeat (apply (f_equal2 cons); [swap_byte Hv|]). reflexivity.
Qed.

(** The join of the reversed bytes is the byte-swapped join. *)
Lemma bswap_join n swap l :
  (∀ v, word (8 * Z.of_nat n) v → le_split n (swap v) = reverse (le_split n v)) →
  (∀ v, word (8 * Z.of_nat n) v → word (8 * Z.of_nat n) (swap v)) →
  bytes l → length l = n → swap (le_join l) = le_join (reverse l).
Proof.
  intros Hswap Hw Hl Hn. pose proof (word_le_join l Hl) as Hj. rewrite Hn in Hj.
  assert (Hr : bytes (reverse l)) by by apply Forall_reverse.
  assert (Hln : length (reverse l) = n) by by rewrite length_reverse.
  pose proof (word_le_join _ Hr) as Hj'. rewrite Hln in Hj'.
  apply (le_split_inj n); [by apply Hw|done|].
  rewrite Hswap by done. rewrite <-Hn at 1. rewrite le_split_join by done.
  by rewrite <-Hln, le_split_join.
Qed.

Lemma word_bswap32 v : word 32 (sph_bswap32 v).
Proof.
  unfold sph_bswap32. apply word_lor; [lia| |].
  - apply word_shiftr, word_land_r; done || lia.
  - apply word_of_bits; [lia| |].
    + apply Z.shiftl_nonneg, Z.land_nonneg. lia.
    + intros i Hi. rewrite Z.shiftl_spec, Z.land_spec by lia.
      rewrite (word_testbit_high 24 0x00FF00FF) by (done || lia). btauto.
Qed.

Lemma word_bswap64 v : word 64 (sph_bswap64 v).
Proof.
  unfold sph_bswap64. apply word_lor; [lia| |].
  - apply word_shiftr, word_land_r; done || lia.
  - apply word_of_bits; [lia| |].
    + apply Z.shiftl_nonneg, Z.land_nonneg. lia.
    + intros i Hi. rewrite Z.shiftl_spec, Z.land_spec by lia.
      rewrite (word_testbit_high 56 0x00FF00FF00FF00FF) by (done || lia). btauto.
Qed.

(** ** The two shapes of the code agree *)

Lemma enc64be_aligned_eq v : word 64 v → sph_enc64be_aligned v = sph_enc64be v.
Proof. intros. by rewrite enc64be_split, <-bswap64_split. Qed.

Lemma enc64le_aligned_eq v : sph_enc64le_aligned v = sph_enc64le v.
Proof. by rewrite enc64le_split. Qed.

Lemma enc32be_aligned_eq v : word 32 v → sph_enc32be_aligned v = sph_enc32be v.
Proof. intros. by rewrite enc32be_split, <-bswap32_split. Qed.

Lemma enc32le_aligned_eq v : sph_enc32le_aligned v = sph_enc32le v.
Proof. by rewrite enc32le_split. Qed.

Lemma dec64be_aligned_eq src :
  bytes src → (8 <= length src)%nat → sph_dec64be_aligned src = sph_dec64be src.
Proof.
  intros Hb Hl. rewrite dec64be_join by done. unfold sph_dec64be_aligned.
  apply (bswap_join 8); [apply bswap64_split|intros; apply word_bswap64|
    by apply Forall_take|rewrite length_take; lia].
Qed.

Lemma dec64le_aligned_eq src :
  (8 <= length src)%nat → sph_dec64le_aligned src = sph_dec64le src.
Proof. intros. by rewrite dec64le_join. Qed.

Lemma dec32be_aligned_eq src :
  bytes src → (4 <= length src)%nat → sph_dec32be_aligned src = sph_dec32be src.
Proof.
  intros Hb Hl. rewrite dec32be_join by done. unfold sph_dec32be_aligned.
  apply (bswap_join 4); [apply bswap32_split|intros; apply word_bswap32|
    by apply Forall_take|rewrite length_take; lia].
Qed.

Lemma dec32le_aligned_eq src :
  (4 <= length src)%nat → sph_dec32le_aligned src = sph_dec32le src.
Proof. intros. by rewrite dec32le_join. Qed.

(** ** Round trips *)

Lemma dec_enc64be v : word 64 v → sph_dec64be (sph_enc64be v) = v.
Proof.
  intros. rewrite dec64be_join, enc64be_split by done.
  rewrite firstn_all2 by done. rewrite reverse_involutive, le_join_split.
  by apply Z.mod_small.
Qed.

Lemma dec_enc64le v : word 64 v → sph_dec64le (sph_enc64le v) = v.
Proof.
  intros. rewrite dec64le_join, enc64le_split by done.
  rewrite firstn_all2, le_join_split by done. by apply Z.mod_small.
Qed.

Lemma dec_enc32be v : word 32 v → sph_dec32be (sph_enc32be v) = v.
Proof.
  intros. rewrite dec32be_join, enc32be_split by done.
  rewrite firstn_all2 by done. rewrite reverse_involutive, le_join_split.
  by apply Z.mod_small.
Qed.

Lemma dec_enc32le v : word 32 v → sph_dec32le (sph_enc32le v) = v.
Proof.
  intros. rewrite dec32le_join, enc32le_split by done.
  rewrite firstn_all2, le_join_split by done. by apply Z.mod_small.
Qed.

Lemma bytes_enc64be v : bytes (sph_enc64be v).
Proof. rewrite enc64be_split. apply Forall_reverse, bytes_le_split. Qed.
Lemma bytes_enc64le v : bytes (sph_enc64le v).
Proof. rewrite enc64le_split. apply bytes_le_split. Qed.
Lemma bytes_enc32be v : bytes (sph_enc32be v).
Proof. rewrite enc32be_split. apply Forall_reverse, bytes_le_split. Qed.
Lemma bytes_enc32le v : bytes (sph_enc32le v).
Proof. rewrite enc32le_split. apply bytes_le_split. Qed.

Lemma word_dec64be src : bytes src → (8 <= length src)%nat → word 64 (sph_dec64be src).
Proof.
  intros Hb Hl. rewrite dec64be_join by done.
  assert (H : bytes (reverse (take 8 src))) by by apply Forall_reverse, Forall_take.
  apply word_le_join in H.
  by rewrite length_reverse, length_take, Nat.min_l in H by lia.
Qed.

Lemma word_dec64le src : bytes src → (8 <= length src)%nat → word 64 (sph_dec64le src).
Proof.
  intros Hb Hl. rewrite dec64le_join by done.
  assert (H : bytes (take 8 src)) by by apply Forall_take.
  apply word_le_join in H. by rewrite length_take, Nat.min_l in H by lia.
Qed.

Lemma word_dec32be src : bytes src → (4 <= length src)%nat → word 32 (sph_dec32be src).
Proof.
  intros Hb Hl. rewrite dec32be_join by done.
  assert (H : bytes (reverse (take 4 src))) by by apply Forall_reverse, Forall_take.
  apply word_le_join in H.
  by rewrite length_reverse, length_take, Nat.min_l in H by lia.
Qed.

Lemma word_dec32le src : bytes src → (4 <= length src)%nat → word 32 (sph_dec32le src).
Proof.
  intros Hb Hl. rewrite dec32le_join by done.
  assert (H : bytes (take 4 src)) by by apply Forall_take.
  apply word_le_join in H. by rewrite length_take, Nat.min_l in H by lia.
Qed.

#[export] Hint Resolve bytes_enc64be bytes_enc64le bytes_enc32be bytes_enc32le
  bytes_le_split : word.

(** ** Bits of rotations *)

Lemma testbit_T64 x i : 0 <= i < 64 → Z.testbit (SPH_T64 x) i = Z.testbit x i.
Proof. intros. rewrite SPH_T64_mod. apply Z.mod_pow2_bits_low. lia. Qed.

Lemma testbit_T32 x i : 0 <= i < 32 → Z.testbit (SPH_T32 x) i = Z.testbit x i.
Proof. intros. rewrite SPH_T32_mod. apply Z.mod_pow2_bits_low. lia. Qed.

Lemma testbit_rotate w x n i :
  word w x → 0 < n < w → 0 <= i < w →
  Z.testbit (Z.lor (Z.shiftl x n) (Z.shiftr x (w - n))) i = Z.testbit x ((i - n) mod w).
Proof.
  intros Hx Hn Hi. rewrite Z.lor_spec, Z.shiftl_spec, Z.shiftr_spec by lia.
  destruct (decide (n <= i)) as [Hle|Hgt].
  - rewrite (word_testbit_high w x (i + _)), orb_false_r by (done || lia).
    by rewrite Z.mod_small by lia.
  - rewrite Z.testbit_neg_r by lia. simpl.
    rewrite <-(Z_mod_plus_full (i - n) 1 w), Z.mod_small by lia. f_equal. lia.
Qed.

Lemma testbit_ROTL64 x n i :
  word 64 x → 0 < n < 64 → 0 <= i < 64 →
  Z.testbit (SPH_ROTL64 x n) i = Z.testbit x ((i - n) mod 64).
Proof. intros. unfold SPH_ROTL64. rewrite testbit_T64 by done. by apply testbit_rotate. Qed.

Lemma testbit_ROTL32 x n i :
  word 32 x → 0 < n < 32 → 0 <= i < 32 →
  Z.testbit (SPH_ROTL32 x n) i = Z.testbit x ((i - n) mod 32).
Proof. intros. unfold SPH_ROTL32. rewrite testbit_T32 by done. by apply testbit_rotate. Qed.

Lemma ROTL64_lxor x y n :
  word 64 x → word 64 y → 0 < n < 64 →
  SPH_ROTL64 (x ^^ y) n = SPH_ROTL64 x n ^^ SPH_ROTL64 y n.
Proof.
  intros. apply (word_ext 64); [word_solve..|]. intros i Hi.
  by rewrite Z.lxor_spec, !testbit_ROTL64, Z.lxor_spec by word_solve.
Qed.

Lemma not64_bit x i : 0 <= i < 64 → Z.testbit (not64 x) i = negb (Z.testbit x i).
Proof. intros. unfold not64. rewrite testbit_T64, Z.lnot_spec by lia. done. Qed.

Lemma not32_bit x i : 0 <= i < 32 → Z.testbit (not32 x) i = negb (Z.testbit x i).
Proof. intros. unfold not32. rewrite testbit_T32, Z.lnot_spec by lia. done. Qed.

Lemma word_not64 x : word 64 (not64 x).
Proof. apply word_T64. Qed.
Lemma word_not32 x : word 32 (not32 x).
Proof. apply word_T32. Qed.
#[export] Hint Resolve word_not64 word_not32 : word.

(** A 128-bit big-endian length field, as two 64-bit words. *)
Lemma enc128be l :
  0 <= l < 2 ^ 128 →
  sph_enc64be (l / 2 ^ 64) ++ sph_enc64be (l mod 2 ^ 64) = reverse (le_split 16 l).
Proof.
  intros Hl. rewrite !enc64be_split, <-reverse_app. f_equal.
  symmetry. etransitivity; [exact (le_split_app 8 8 l)|].
  f_equal; [exact (eq_sym (le_split_mod 8 l))|]. by rewrite Z.shiftr_div_pow2.
Qed.

(** Goal-directed form of [word_solve] for deep expressions. *)
Ltac word_tac :=
  repeat first
    [ assumption | apply word_T32 | apply word_T64 | apply word_not32 | apply word_not64
    | apply word_ROTL32 | apply word_ROTL64
    | apply word_lxor; [lia| |] | apply word_lor; [lia| |] | apply word_land_l; [lia|] ].

(** ** The round trips and the two shapes, together *)

Lemma le_join_cons b l : byte b → le_join (b :: l) = b + 256 * le_join l.
Proof.
  intros Hb. cbn [le_join]. rewrite Z.lor_comm, lor_shiftl_add by (done || lia). lia.
Qed.

Lemma le_join_app a b : bytes a → le_join (a ++ b) = le_join a + 2 ^ (8 * Z.of_nat (length a)) * le_join b.
Proof.
  induction 1 as [|x a Hx Ha IH]; [rewrite app_nil_l; cbn [length le_join Z.of_nat]; change (2 ^ (8 * 0)) with 1; lia|].
  rewrite <-app_comm_cons, !le_join_cons, IH by done. cbn [length].
  rewrite Nat2Z.inj_succ, Z.mul_succ_r, Z.pow_add_r by lia. change (2 ^ 8) with 256. lia.
Qed.

Lemma le_split_take l n : bytes l → length l = n → le_split n (le_join (take n l)) = l.
Proof. intros Hb <-. rewrite firstn_all. by apply le_split_join. Qed.

Lemma be_split_take l n :
  bytes l → length l = n → reverse (le_split n (le_join (reverse (take n l)))) = l.
Proof.
  intros Hb <-. rewrite firstn_all. rewrite <-(length_reverse l) at 1.
  rewrite le_split_join by by apply Forall_reverse. apply reverse_involutive.
Qed.

(** The portable encoders and decoders are inverse to each other. *)
Lemma enc_dec_roundtrip :
  (∀ v, word 64 v → sph_dec64be (sph_enc64be v) = v ∧ sph_dec64le (sph_enc64le v) = v) ∧
  (∀ v, word 32 v → sph_dec32be (sph_enc32be v) = v ∧ sph_dec32le (sph_enc32le v) = v) ∧
  (∀ src, bytes src → length src = 8%nat →
    sph_enc64be (sph_dec64be src) = src ∧ sph_enc64le (sph_dec64le src) = src) ∧
  (∀ src, bytes src → length src = 4%nat →
    sph_enc32be (sph_dec32be src) = src ∧ sph_enc32le (sph_dec32le src) = src).
Proof.
  split; [auto using dec_enc64be, dec_enc64le|]. split; [auto using dec_enc32be, dec_enc32le|].
  split; intros src Hb Hl; split.
  - rewrite (enc64be_split (sph_dec64be src)), dec64be_join by lia. by apply be_split_take.
  - rewrite (enc64le_split (sph_dec64le src)), dec64le_join by lia. by apply le_split_take.
  - rewrite (enc32be_split (sph_dec32be src)), dec32be_join by lia. by apply be_split_take.
  - rewrite (enc32le_split (sph_dec32le src)), dec32le_join by lia. by apply le_split_take.
Qed.

(** The forms for aligned memory agree with the portable ones. *)
Lemma aligned_forms :
  (∀ v, word 64 v →
    sph_enc64be_aligned v = sph_enc64be v ∧ sph_enc64le_aligned v = sph_enc64le v) ∧
  (∀ v, word 32 v →
    sph_enc32be_aligned v = sph_enc32be v ∧ sph_enc32le_aligned v = sph_enc32le v) ∧
  (∀ src, bytes src → (8 <= length src)%nat →
    sph_dec64be_aligned src = sph_dec64be src ∧ sph_dec64le_aligned src = sph_dec64le src) ∧
  (∀ src, bytes src → (4 <= length src)%nat →
    sph_dec32be_aligned src = sph_dec32be src ∧ sph_dec32le_aligned src = sph_dec32le src).
Proof.
  split; [auto using enc64be_aligned_eq, enc64le_aligned_eq|].
  split; [auto using enc32be_aligned_eq, enc32le_aligned_eq|].
  split; auto using dec64be_aligned_eq, dec64le_aligned_eq, dec32be_aligned_eq, dec32le_aligned_eq.
Qed.

Lemma and_assoc_4 {A B C D : Prop} : A ∧ B → C ∧ D → A ∧ B ∧ C ∧ D.
Proof. tauto. Qed.

(** The encoders and decoders of sph_types.h: decoding an encoded word
    gives the word back and encoding a decoded group of bytes gives the bytes
    back, for 32 and 64 bits in both byte orders; the forms a little-endian
    host uses on aligned memory, a native access around [sph_bswap32] or
    [sph_bswap64], agree with the portable byte-by-byte ones. *)
Theorem word_codecs :
  (∀ v, word 64 v →
    sph_dec64be (sph_enc64be v) = v ∧ sph_dec64le (sph_enc64le v) = v ∧
    sph_enc64be_aligned v = sph_enc64be v ∧ sph_enc64le_aligned v = sph_enc64le v) ∧
  (∀ v, word 32 v →
    sph_dec32be (sph_enc32be v) = v ∧ sph_dec32le (sph_enc32le v) = v ∧
    sph_enc32be_aligned v = sph_enc32be v ∧ sph_enc32le_aligned v = sph_enc32le v) ∧
  (∀ src, bytes src → length src = 8%nat →
    sph_enc64be (sph_dec64be src) = src ∧ sph_enc64le (sph_dec64le src) = src ∧
    sph_dec64be_aligned src = sph_dec64be src ∧ sph_dec64le_aligned src = sph_dec64le src) ∧
  (∀ src, bytes src → length src = 4%nat →
    sph_enc32be (sph_dec32be src) = src ∧ sph_enc32le (sph_dec32le src) = src ∧
    sph_dec32be_aligned src = sph_dec32be src ∧ sph_dec32le_aligned src = sph_dec32le src).
Proof.
  destruct enc_dec_roundtrip as (R1 & R2 & R3 & R4), aligned_forms as (A1 & A2 & A3 & A4).
  split; [|split; [|split]].
  - intros v Hv. exact (and_assoc_4 (R1 v Hv) (A1 v Hv)).
  - intros v Hv. exact (and_assoc_4 (R2 v Hv) (A2 v Hv)).
  - intros src Hb Hl. refine (and_assoc_4 (R3 src Hb Hl) (A3 src Hb _)). by rewrite Hl.
  - intros src Hb Hl. refine (and_assoc_4 (R4 src Hb Hl) (A4 src Hb _)). by rewrite Hl.
Qed.
