(* ===== verification/Stream.v ===== *)
(** * Block buffering: the streaming loop of the X11 hash functions

    Every hash of crypto/x11 keeps a block buffer [buf] and a fill pointer
    [ptr] in its context and feeds data through the same loop
    ([blake64], [bmw64], [jh_core], [luffa5], ...):
<<
      while (len > 0) {
          clen = (sizeof sc->buf) - ptr;
          if (clen > len) clen = len;
          memcpy(buf + ptr, data, clen);
          ptr += clen; data += clen; len -= clen;
          if (ptr == sizeof sc->buf) { <process buf>; ptr = 0; }
      }
>>
    [absorb_loop] is that loop over an abstract [block] step, [absorb_core]
    the variant with the early return that most functions have in front of
    it.  The lemmas relate it to the specification [absorb]: a pending prefix
    of a block and a state, one byte at a time.  From it come the equality
    with the fold over the full blocks of the message ([absorb_message]) and
    the independence of how the data is cut into calls. *)
From S2P Require Import Prelude.

Section Stream.
  Context {St : Type} (BUF : nat) (block : list Z → St → St).

(** ** The loop of the code *)

Fixpoint absorb_loop (fuel : nat) (buf : list Z) (ptr : nat) (data : list Z)
    (st : St) : list Z * nat * St :=
  match fuel, data with
  | O, _ | _, [] => (buf, ptr, st)
  | S fuel, _ =>
    let clen := Nat.min (BUF - ptr) (length data) in
    let buf := memcpy buf ptr (take clen data) in
    let ptr := (ptr + clen)%nat in
    let data := drop clen data in
    if (ptr =? BUF)%nat
    then absorb_loop fuel buf 0 data (block buf st)
    else absorb_loop fuel buf ptr data st
  end.

Definition absorb_core (buf : list Z) (ptr : nat) (data : list Z) (st : St)
    : list Z * nat * St :=
  if (length data <? BUF - ptr)%nat
  then (memcpy buf ptr data, (ptr + length data)%nat, st)
  else absorb_loop (length data) buf ptr data st.

(** ** The specification *)

(** The abstract view of a buffer: the bytes waiting for a full block. *)
Definition feed (v : list Z * St) (b : Z) : list Z * St :=
  let '(pend, st) := v in
  let pend := pend ++ [b] in
  if (length pend =? BUF)%nat then ([], block pend st) else (pend, st).

Definition absorb (v : list Z * St) (data : list Z) : list Z * St :=
  fold_left feed data v.

Definition view (r : list Z * nat * St) : list Z * St :=
  let '(buf, ptr, st) := r in (take ptr buf, st).

(** The buffer invariant: [buf] has its declared size, [ptr] is inside it. *)
Definition buf_ok (buf : list Z) (ptr : nat) : Prop :=
  length buf = BUF ∧ (ptr < BUF)%nat.

Definition result_ok (r : list Z * nat * St) : Prop :=
  let '(buf, ptr, _) := r in buf_ok buf ptr.

(** The full blocks of a message and the bytes left over. *)
Definition full_blocks (msg : list Z) : list (list Z) :=
  (λ i, take BUF (drop (i * BUF) msg)) <$> seq 0 (length msg / BUF).

Definition rest (msg : list Z) : list Z := drop (length msg / BUF * BUF) msg.

Definition run (bs : list (list Z)) (st : St) : St :=
  fold_left (λ st b, block b st) bs st.

Lemma absorb_app v d1 d2 : absorb v (d1 ++ d2) = absorb (absorb v d1) d2.
Proof. apply fold_left_app. Qed.

Lemma absorb_split n v data : absorb v data = absorb (absorb v (take n data)) (drop n data).
Proof. by rewrite <-absorb_app, take_drop. Qed.

Lemma absorb_small pend st data :
  (length pend + length data < BUF)%nat →
  absorb (pend, st) data = (pend ++ data, st).
Proof.
  revert pend. induction data as [|b data IH]; intros pend Hl; simpl in *.
  { by rewrite app_nil_r. }
  unfold absorb in *. simpl. rewrite length_app. simpl.
  destruct (Nat.eqb_spec (length pend + 1) BUF); [lia|].
  rewrite IH; [by rewrite <-app_assoc|]. rewrite length_app. simpl. lia.
Qed.

Lemma absorb_block pend st data :
  (length pend + length data = BUF)%nat → data ≠ [] →
  absorb (pend, st) data = ([], block (pend ++ data) st).
Proof.
  intros Hl Hne.
  destruct (exists_last Hne) as (d & b & ->). rewrite length_app in Hl. simpl in Hl.
  rewrite absorb_app, absorb_small by lia. unfold absorb. simpl.
  rewrite !length_app. simpl.
  destruct (Nat.eqb_spec (length pend + length d + 1) BUF); [|lia].
  by rewrite <-app_assoc.
Qed.

Lemma absorb_blocks bs st :
  (0 < BUF)%nat → Forall (λ b, length b = BUF) bs →
  absorb ([], st) (concat bs) = ([], run bs st).
Proof.
  intros Hb Hbs. revert st. induction Hbs as [|b bs Hlen Hbs IH]; intros st; [done|].
  simpl. rewrite absorb_app, absorb_block; [apply IH|done|].
  intros ->. simpl in Hlen. lia.
Qed.

Lemma absorb_chunk pend st data n :
  (length pend + n < BUF)%nat → (n <= length data)%nat →
  absorb (pend, st) data = absorb (pend ++ take n data, st) (drop n data).
Proof.
  intros Hl Hn. rewrite (absorb_split n), absorb_small; [done|].
  rewrite length_take. lia.
Qed.

(** ** The loop implements the specification *)

(** With fuel for every byte, the loop keeps the buffer invariant, consumes
    all the data and reaches the view [absorb] gives. *)
Lemma absorb_loop_spec fuel buf ptr data st :
  (length data <= fuel)%nat → buf_ok buf ptr →
  result_ok (absorb_loop fuel buf ptr data st) ∧
  view (absorb_loop fuel buf ptr data st) = absorb (take ptr buf, st) data.
Proof.
  revert buf ptr data st. induction fuel as [|fuel IH]; intros buf ptr data st Hf [Hb Hp].
  { destruct data; [done|simpl in Hf; lia]. }
  destruct data as [|b0 data0]; [done|]. set (data := b0 :: data0) in *.
  cbn [absorb_loop]. fold data.
  set (clen := Nat.min (BUF - ptr) (length data)).
  assert (Hlen : (length data = S (length data0))%nat) by done.
  assert (Hc : (1 <= clen <= length data)%nat) by lia.
  assert (Htk : length (take clen data) = clen) by (rewrite length_take; lia).
  assert (Hb' : length (memcpy buf ptr (take clen data)) = BUF)
    by (rewrite length_memcpy; lia).
  assert (Htp : length (take ptr buf) = ptr) by (rewrite length_take; lia).
  destruct (Nat.eqb_spec (ptr + clen) BUF) as [He|He].
  - destruct (IH (memcpy buf ptr (take clen data)) 0%nat (drop clen data)
      (block (memcpy buf ptr (take clen data)) st)) as [Hok Hv].
    { rewrite length_drop. lia. } { split; [done|lia]. }
    split; [exact Hok|]. etransitivity; [exact Hv|].
    rewrite (absorb_split clen _ data).
    rewrite (absorb_block (take ptr buf) st (take clen data)) by (lia || (intros E; rewrite E in Htk; simpl in Htk; lia)).
    by rewrite memcpy_full by lia.
  - destruct (IH (memcpy buf ptr (take clen data)) (ptr + clen)%nat (drop clen data) st)
      as [Hok Hv].
    { rewrite length_drop. lia. } { split; [done|lia]. }
    split; [exact Hok|]. etransitivity; [exact Hv|].
    rewrite (absorb_chunk _ _ data clen) by lia.
    rewrite <-Htk at 1. by rewrite take_memcpy by lia.
Qed.

Lemma absorb_core_spec buf ptr data st :
  buf_ok buf ptr →
  result_ok (absorb_core buf ptr data st) ∧
  view (absorb_core buf ptr data st) = absorb (take ptr buf, st) data.
Proof.
  intros Hok. unfold absorb_core.
  destruct (Nat.ltb_spec (length data) (BUF - ptr)) as [Hlt|Hge].
  - destruct Hok as [Hb Hp]. split.
    + split; [rewrite length_memcpy; lia|lia].
    + simpl. rewrite take_memcpy by lia.
      rewrite absorb_small; [done|]. rewrite length_take. lia.
  - by apply absorb_loop_spec.
Qed.

(** ** A message is its full blocks and a rest *)

Lemma concat_slices (l : list Z) n k :
  (k * n <= length l)%nat →
  concat ((λ i, take n (drop (i * n) l)) <$> seq 0 k) = take (k * n) l.
Proof.
  induction k as [|k IH]; intros Hk; [done|].
  rewrite seq_S, fmap_app, concat_app, IH by lia. simpl. rewrite app_nil_r.
  rewrite take_take_drop. f_equal. lia.
Qed.

Lemma concat_full_blocks msg : (0 < BUF)%nat → concat (full_blocks msg) ++ rest msg = msg.
Proof.
  intros. unfold full_blocks, rest. rewrite concat_slices; [apply take_drop|].
  rewrite Nat.mul_comm. apply Nat.Div0.mul_div_le.
Qed.

Lemma length_full_blocks msg : length (full_blocks msg) = (length msg / BUF)%nat.
Proof. unfold full_blocks. by rewrite length_fmap, length_seq. Qed.

Lemma full_blocks_len msg : (0 < BUF)%nat → Forall (λ b, length b = BUF) (full_blocks msg).
Proof.
  intros Hb. unfold full_blocks. apply Forall_fmap, Forall_forall.
  intros i Hi%in_seq. simpl. rewrite length_take, length_drop.
  pose proof (Nat.Div0.mul_div_le (length msg) BUF). nia.
Qed.

Lemma length_rest msg : (0 < BUF)%nat → length (rest msg) = (length msg mod BUF)%nat.
Proof.
  intros. unfold rest. rewrite length_drop. pose proof (Nat.div_mod_eq (length msg) BUF). lia.
Qed.

Lemma length_rest_lt msg : (0 < BUF)%nat → (length (rest msg) < BUF)%nat.
Proof. intros. rewrite length_rest by done. apply Nat.mod_upper_bound. lia. Qed.

(** Absorbing a message from an empty buffer runs the block function over
    its full blocks and leaves the rest pending. *)
Lemma absorb_message msg st :
  (0 < BUF)%nat → absorb ([], st) msg = (rest msg, run (full_blocks msg) st).
Proof.
  intros Hb. rewrite <-(concat_full_blocks msg) at 1 by done.
  rewrite absorb_app, absorb_blocks by (done || by apply full_blocks_len).
  rewrite absorb_small; [done|]. simpl. by apply length_rest_lt.
Qed.

(** Blocks of the right length are the first full blocks. *)
Lemma full_blocks_cons b m :
  (0 < BUF)%nat → length b = BUF → full_blocks (b ++ m) = b :: full_blocks m.
Proof.
  intros Hb Hlen. unfold full_blocks. rewrite length_app, Hlen.
  replace (BUF + length m)%nat with (1 * BUF + length m)%nat by lia.
  rewrite Nat.div_add_l by lia. cbn [Nat.add seq fmap list_fmap]. f_equal.
  - simpl. rewrite <-Hlen at 1. apply take_app_length.
  - rewrite <-fmap_S_seq, <-list_fmap_compose. apply list_fmap_ext.
    intros i x _. simpl. rewrite <-Hlen at 2. by rewrite <-drop_drop, drop_app_length.
Qed.

Lemma full_blocks_app bs m :
  (0 < BUF)%nat → Forall (λ b, length b = BUF) bs →
  full_blocks (concat bs ++ m) = bs ++ full_blocks m.
Proof.
  intros Hb Hbs. induction Hbs as [|b bs Hlen Hbs IH]; [done|].
  simpl. rewrite <-app_assoc, full_blocks_cons by done. by rewrite IH.
Qed.

(** The blocks of a padded message: those of the message, then those of its
    rest with the padding. *)
Lemma full_blocks_pad msg pad :
  (0 < BUF)%nat →
  full_blocks (msg ++ pad) = full_blocks msg ++ full_blocks (rest msg ++ pad).
Proof.
  intros Hb. rewrite <-(concat_full_blocks msg) at 1 by done.
  rewrite <-app_assoc. rewrite full_blocks_app; [done..|by apply full_blocks_len].
Qed.

Lemma full_blocks_one b : (0 < BUF)%nat → length b = BUF → full_blocks b = [b].
Proof.
  intros Hb Hl. rewrite <-(app_nil_r b) at 1. rewrite full_blocks_cons by done.
  unfold full_blocks. simpl. by rewrite Nat.Div0.div_0_l.
Qed.

Lemma full_blocks_two b c :
  (0 < BUF)%nat → length b = BUF → length c = BUF → full_blocks (b ++ c) = [b; c].
Proof. intros. by rewrite full_blocks_cons, full_blocks_one. Qed.

Lemma run_app bs cs st : run (bs ++ cs) st = run cs (run bs st).
Proof. apply fold_left_app. Qed.

Lemma run_cons b bs st : run (b :: bs) st = run bs (block b st).
Proof. done. Qed.

(** ** Invariants of the state *)

Lemma run_inv (P : St → Prop) (Q : list Z → Prop) bs st :
  (∀ b st, Q b → P st → P (block b st)) → Forall Q bs → P st → P (run bs st).
Proof.
  intros Hstep Hbs. revert st. induction Hbs; intros st Hst; [done|]. simpl. auto.
Qed.

Lemma full_blocks_Forall (P : Z → Prop) msg :
  Forall P msg → Forall (Forall P) (full_blocks msg).
Proof.
  intros H. unfold full_blocks. apply Forall_fmap, Forall_forall. intros i _. simpl.
  by apply Forall_take, Forall_drop.
Qed.

Lemma rest_Forall (P : Z → Prop) msg : Forall P msg → Forall P (rest msg).
Proof. intros. by apply Forall_drop. Qed.

(** A sequence of update calls absorbs the concatenation of their data. *)
Lemma updates_view {C} (upd : C → list Z → C) (ok : C → Prop) (cv : C → list Z * St)
    chunks c :
  (∀ c d, ok c → ok (upd c d) ∧ cv (upd c d) = absorb (cv c) d) →
  ok c →
  ok (fold_left upd chunks c) ∧ cv (fold_left upd chunks c) = absorb (cv c) (concat chunks).
Proof.
  intros Hupd. revert c. induction chunks as [|d chunks IH]; intros c Hok; [done|].
  simpl. destruct (Hupd c d Hok) as [Ho Hv]. destruct (IH _ Ho) as [Ho' Hv'].
  split; [done|]. by rewrite Hv', Hv, absorb_app.
Qed.

(** ** A buffer longer than the block

    When the buffer array is longer than the block (Keccak shares one array
    between its rates), the bytes after the block stay what they are. *)
Lemma memcpy_app_l (buf t d : list Z) p :
  (p + length d <= length buf)%nat → memcpy (buf ++ t) p d = memcpy buf p d ++ t.
Proof.
  intros. unfold memcpy. rewrite take_app_le, drop_app_le by lia. by rewrite <-!app_assoc.
Qed.

Lemma absorb_loop_tail fuel buf t ptr data st :
  (∀ b s, length b = BUF → block (b ++ t) s = block b s) → buf_ok buf ptr →
  absorb_loop fuel (buf ++ t) ptr data st =
  let '(b, p, s) := absorb_loop fuel buf ptr data st in (b ++ t, p, s).
Proof.
  intros Hblk. revert buf ptr data st.
  induction fuel as [|fuel IH]; intros buf ptr data st [Hb Hp]; [done|].
  destruct data as [|b0 data0]; [done|]. set (data := b0 :: data0) in *.
  cbn [absorb_loop]. fold data.
  set (clen := Nat.min (BUF - ptr) (length data)).
  assert (Htk : length (take clen data) = clen) by (rewrite length_take; lia).
  rewrite memcpy_app_l by lia.
  assert (Hl : length (memcpy buf ptr (take clen data)) = BUF) by (rewrite length_memcpy; lia).
  destruct (Nat.eqb_spec (ptr + clen) BUF).
  - rewrite Hblk by done. apply IH. split; lia.
  - apply IH. split; lia.
Qed.

Lemma absorb_core_tail buf t ptr data st :
  (∀ b s, length b = BUF → block (b ++ t) s = block b s) → buf_ok buf ptr →
  absorb_core (buf ++ t) ptr data st =
  let '(b, p, s) := absorb_core buf ptr data st in (b ++ t, p, s).
Proof.
  intros Hblk Hok. unfold absorb_core. destruct (Nat.ltb_spec (length data) (BUF - ptr)).
  - destruct Hok. by rewrite memcpy_app_l by lia.
  - by apply absorb_loop_tail.
Qed.
End Stream.

(** ** Lazy buffering

    [skein_big_core] keeps a full block in the buffer until more data comes,
    because the last block of the message is processed differently. *)
Section Lazy.
  Context {St : Type} (BUF : nat) (block : list Z → St → St).

Fixpoint lazy_loop (fuel : nat) (buf : list Z) (ptr : nat) (data : list Z) (st : St)
    : list Z * nat * St :=
  match fuel, data with
  | O, _ | _, [] => (buf, ptr, st)
  | S fuel, _ =>
    let '(ptr, st) := if (ptr =? BUF)%nat then (0%nat, block buf st) else (ptr, st) in
    let clen := Nat.min (BUF - ptr) (length data) in
    let buf := memcpy buf ptr (take clen data) in
    lazy_loop fuel buf (ptr + clen) (drop clen data) st
  end.

Definition lazy_core (buf : list Z) (ptr : nat) (data : list Z) (st : St) : list Z * nat * St :=
  if (length data <=? BUF - ptr)%nat
  then (memcpy buf ptr data, (ptr + length data)%nat, st)
  else lazy_loop (length data) buf ptr data st.

(** The specification, one byte at a time. *)
Definition feed_lazy (v : list Z * St) (b : Z) : list Z * St :=
  let '(pend, st) := v in
  if (length pend =? BUF)%nat then ([b], block pend st) else (pend ++ [b], st).

Definition lazy_absorb (v : list Z * St) (data : list Z) : list Z * St :=
  fold_left feed_lazy data v.

Definition lazy_ok (r : list Z * nat * St) : Prop :=
  let '(buf, ptr, _) := r in length buf = BUF ∧ (ptr <= BUF)%nat.

Context (HB : (0 < BUF)%nat).

Lemma lazy_app v d1 d2 : lazy_absorb v (d1 ++ d2) = lazy_absorb (lazy_absorb v d1) d2.
Proof. apply fold_left_app. Qed.

Lemma lazy_small pend st data :
  (length pend + length data <= BUF)%nat →
  lazy_absorb (pend, st) data = (pend ++ data, st).
Proof.
  revert pend. induction data as [|b data IH]; intros pend Hl; cbn [length] in Hl.
  { by rewrite app_nil_r. }
  unfold lazy_absorb in *. cbn [fold_left feed_lazy].
  destruct (Nat.eqb_spec (length pend) BUF); [lia|].
  rewrite IH by (rewrite length_app; cbn [length]; lia). by rewrite <-app_assoc.
Qed.

Lemma lazy_flush pend st data :
  length pend = BUF → data ≠ [] →
  lazy_absorb (pend, st) data = lazy_absorb ([], block pend st) data.
Proof.
  intros Hl Hd. destruct data as [|b data]; [done|]. unfold lazy_absorb. cbn [fold_left feed_lazy].
  rewrite Hl, Nat.eqb_refl. cbn [length]. by destruct (Nat.eqb_spec 0 BUF); [lia|].
Qed.

Lemma lazy_loop_spec fuel buf ptr data st :
  (length data <= fuel)%nat → lazy_ok (buf, ptr, st) →
  lazy_ok (lazy_loop fuel buf ptr data st) ∧
  view (lazy_loop fuel buf ptr data st) = lazy_absorb (take ptr buf, st) data.
Proof.
  revert buf ptr data st. induction fuel as [|fuel IH]; intros buf ptr data st Hf [Hb Hp].
  { destruct data; [done|simpl in Hf; lia]. }
  destruct data as [|b0 data0]; [done|]. set (data := b0 :: data0) in *.
  assert (Hlen : (length data = S (length data0))%nat) by done.
  assert (Hstep : ∀ p s, (p < BUF)%nat →
    let clen := Nat.min (BUF - p) (length data) in
    let r := lazy_loop fuel (memcpy buf p (take clen data)) (p + clen) (drop clen data) s in
    lazy_ok r ∧ view r = lazy_absorb (take p buf, s) data).
  { intros p s Hp'. cbv zeta. set (clen := Nat.min _ _).
    assert (Htk : length (take clen data) = clen) by (rewrite length_take; lia).
    destruct (IH (memcpy buf p (take clen data)) (p + clen)%nat (drop clen data) s) as [Ho Hv].
    { rewrite length_drop. lia. } { split; [rewrite length_memcpy; lia|lia]. }
    split; [done|]. rewrite Hv. 
    replace (lazy_absorb (take p buf, s) data)
      with (lazy_absorb (take p buf, s) (take clen data ++ drop clen data)) by by rewrite take_drop.
    rewrite lazy_app.
    rewrite (lazy_small (take p buf) s (take clen data)) by (rewrite !length_take; lia).
    rewrite <-Htk at 1. by rewrite take_memcpy by lia. }
  cbn [lazy_loop]. fold data. destruct (Nat.eqb_spec ptr BUF) as [->|Hne].
  - destruct (Hstep 0%nat (block buf st) HB) as [Ho Hv]. split; [done|].
    rewrite (take_ge buf BUF) by lia. rewrite (lazy_flush buf) by done. by rewrite take_0 in Hv.
  - apply Hstep. lia.
Qed.

Lemma lazy_core_spec buf ptr data st :
  lazy_ok (buf, ptr, st) →
  lazy_ok (lazy_core buf ptr data st) ∧
  view (lazy_core buf ptr data st) = lazy_absorb (take ptr buf, st) data.
Proof.
  intros [Hb Hp]. unfold lazy_core. destruct (Nat.leb_spec (length data) (BUF - ptr)).
  - split; [split; [rewrite length_memcpy; lia|lia]|]. cbn [view].
    rewrite take_memcpy by lia. rewrite lazy_small; [done|]. rewrite length_take. lia.
  - by apply lazy_loop_spec.
Qed.

Lemma lazy_blocks bs r st :
  Forall (λ b, length b = BUF) bs → r ≠ [] →
  lazy_absorb ([], st) (concat bs ++ r) = lazy_absorb ([], run block bs st) r.
Proof.
  intros Hbs Hr. revert st. induction Hbs as [|b bs Hl Hbs IH]; intros st; [done|].
  cbn [concat]. rewrite <-app_assoc, lazy_app, lazy_small by (cbn [length]; lia). cbn [app].
  rewrite lazy_flush; [apply IH|done|]. intros [_ ->]%app_eq_nil. done.
Qed.

(** The number of blocks processed before the last one. *)
Definition lazy_count (len : nat) : nat := ((len - 1) / BUF)%nat.

(** Absorbing a message processes all its blocks but the last. *)
Lemma lazy_message msg st :
  lazy_absorb ([], st) msg =
  (drop (lazy_count (length msg) * BUF) msg,
   run block (take (lazy_count (length msg)) (full_blocks BUF msg)) st).
Proof.
  unfold lazy_count. set (k := ((length msg - 1) / BUF)%nat).
  destruct (decide (msg = [])) as [->|Hne].
  { unfold k. cbn [length Nat.sub]. by rewrite Nat.Div0.div_0_l. }
  assert (Hlen : (0 < length msg)%nat) by (destruct msg; [done|simpl; lia]).
  assert (Hk : (k * BUF < length msg)%nat).
  { unfold k. pose proof (Nat.Div0.mul_div_le (length msg - 1) BUF). lia. }
  assert (Hk' : (length msg <= k * BUF + BUF)%nat).
  { unfold k. pose proof (Nat.mul_succ_div_gt (length msg - 1) BUF). lia. }
  assert (E : concat (take k (full_blocks BUF msg)) = take (k * BUF) msg).
  { rewrite <-(concat_slices msg BUF k) by lia. f_equal. unfold full_blocks.
    rewrite <-fmap_take, take_seq. do 2 f_equal. apply Nat.min_l.
    apply Nat.div_le_lower_bound; lia. }
  rewrite <-(take_drop (k * BUF) msg) at 1. rewrite <-E, lazy_blocks.
  - rewrite lazy_small; [done|]. cbn [length]. rewrite length_drop. lia.
  - by apply Forall_take, full_blocks_len.
  - intros E0. apply (f_equal length) in E0. rewrite length_drop in E0. cbn [length] in E0. lia.
Qed.
End Lazy.

(** ** Sequences of update calls *)

(** One update call on the triple of buffer, fill pointer and state. *)
Definition update {St} (BUF : nat) (block : list Z → St → St) (r : list Z * nat * St)
    (data : list Z) : list Z * nat * St :=
  let '(buf, ptr, st) := r in absorb_core BUF block buf ptr data st.

(** The block buffering that every hash of crypto/x11 shares: after any
    sequence of update calls the buffer invariant holds, the buffer holds the
    bytes after the last full block of all the data, and the state is the
    block function run over the full blocks, however the data was cut into
    calls; each call consumes all its data. *)
Theorem stream_chunking {St} (BUF : nat) (block : list Z → St → St) chunks buf st :
  (0 < BUF)%nat → length buf = BUF →
  result_ok BUF (fold_left (update BUF block) chunks (buf, 0%nat, st)) ∧
  view (fold_left (update BUF block) chunks (buf, 0%nat, st)) =
    (rest BUF (concat chunks), run block (full_blocks BUF (concat chunks)) st).
Proof.
  intros HB Hb.
  destruct (updates_view BUF block (update BUF block) (result_ok BUF) view chunks (buf, 0%nat, st))
    as [Hok Hv].
  - intros [[b p] s] d Hok. exact (absorb_core_spec BUF block b p d s Hok).
  - by split.
  - split; [done|]. rewrite Hv. cbn [view]. rewrite take_0. by apply absorb_message.
Qed.

