(* ===== verification/Padding.v ===== *)
(** * Padding in the block buffer

    The hash functions end a message in the same way: the last [n] bits and a
    one bit go into a byte at [ptr], zeros follow, and a trailer of [k] bytes
    (the length, sometimes more) ends the last block; when the trailer does
    not fit in the current block, that block is filled with zeros, processed,
    and another one made.  The lemmas here compute what the writes put in the
    buffer and which blocks the padded message has, for any block size and
    trailer. *)
From S2P Require Import Prelude SphTypes Stream.

(** [((ub & -z) | z) & 0xFF] with [z = 0x80 >> n]: the last [n] message bits,
    taken from the high end of [ub], and the first padding bit. *)
Definition pad_byte (ub : Z) (n : nat) : Z :=
  let z := Z.shiftr 0x80 (Z.of_nat n) in
  Z.land (Z.lor (Z.land ub (- z)) z) 0xFF.

(** The length in bits of [msg] followed by [n] bits. *)
Definition bit_length (msg : list Z) (n : nat) : Z := 8 * Z.of_nat (length msg) + Z.of_nat n.

Lemma byte_pad_byte ub n : byte (pad_byte ub n).
Proof. apply byte_u8. Qed.

Section Md.
  Context (BUF k : nat).

(** Zero bytes between the pad byte and the trailer. *)
Definition md_zeros (len : nat) : nat :=
  let r := (len mod BUF)%nat in
  if (r + 1 + k <=? BUF)%nat then (BUF - k - 1 - r)%nat else (2 * BUF - k - 1 - r)%nat.

Definition md_padding (pb : Z) (trailer : list Z) (len : nat) : list Z :=
  pb :: replicate (md_zeros len) 0 ++ trailer.

Lemma md_padding_mod pb trailer len :
  md_padding pb trailer (len mod BUF) = md_padding pb trailer len.
Proof. unfold md_padding, md_zeros. by rewrite Nat.Div0.mod_mod. Qed.

(** The buffer after [buf[ptr] = pb] and zeros up to [e]. *)
Lemma pad_zeros buf ptr pb e :
  length buf = BUF → (ptr < e <= BUF)%nat →
  take e (memset (<[ptr:=pb]> buf) (S ptr) 0 (e - S ptr)) =
  take ptr buf ++ pb :: replicate (e - S ptr) 0.
Proof.
  intros Hl Hp. unfold memset.
  pose proof (take_memcpy (<[ptr:=pb]> buf) (S ptr) (replicate (e - S ptr) 0)) as E.
  rewrite length_replicate, length_insert in E.
  replace (S ptr + (e - S ptr))%nat with e in E by lia. rewrite E by lia.
  rewrite (take_S_r _ ptr pb) by (apply list_lookup_insert_eq; lia).
  by rewrite take_insert_ge, <-app_assoc by lia.
Qed.

(** A full buffer of pad byte and zeros: the first of two padding blocks. *)
Lemma pad_fill buf ptr pb :
  length buf = BUF → (ptr < BUF)%nat →
  memset (<[ptr:=pb]> buf) (S ptr) 0 (BUF - S ptr) =
  take ptr buf ++ pb :: replicate (BUF - S ptr) 0.
Proof.
  intros Hl Hp. rewrite <-(pad_zeros buf ptr pb BUF) by lia.
  rewrite take_ge; [done|]. rewrite length_memset; rewrite length_insert; lia.
Qed.

(** The trailer written at the end of a buffer whose first bytes are known. *)
Lemma pad_trailer buf trailer :
  length buf = BUF → length trailer = k → (k <= BUF)%nat →
  memcpy buf (BUF - k) trailer = take (BUF - k) buf ++ trailer.
Proof. intros. apply memcpy_full. lia. Qed.

Lemma memset_start buf c e :
  (e <= length buf)%nat → take e (memset buf 0 c e) = replicate e c.
Proof.
  intros. unfold memset. pose proof (take_memcpy buf 0 (replicate e c)) as E.
  rewrite length_replicate in E. simpl in E. rewrite E by lia. done.
Qed.

(** ** The blocks of the padded message *)

Context (Hk : (0 < k)%nat) (HB : (k < BUF)%nat).

Lemma md_one pend pb trailer :
  length trailer = k → (length pend + 1 + k <= BUF)%nat →
  full_blocks BUF (pend ++ md_padding pb trailer (length pend)) =
  [pend ++ pb :: replicate (BUF - k - S (length pend)) 0 ++ trailer].
Proof.
  intros Ht Hl. unfold md_padding, md_zeros. rewrite Nat.mod_small by lia.
  destruct (Nat.leb_spec (length pend + 1 + k) BUF); [|lia].
  replace (BUF - k - 1 - length pend)%nat with (BUF - k - S (length pend))%nat by lia.
  apply full_blocks_one; [lia|].
  rewrite length_app. cbn [length]. rewrite length_app, length_replicate. lia.
Qed.

Lemma md_two pend pb trailer :
  length trailer = k → (length pend < BUF)%nat → (BUF < length pend + 1 + k)%nat →
  full_blocks BUF (pend ++ md_padding pb trailer (length pend)) =
  [pend ++ pb :: replicate (BUF - S (length pend)) 0; replicate (BUF - k) 0 ++ trailer].
Proof.
  intros Ht Hlt Hl. unfold md_padding, md_zeros. rewrite Nat.mod_small by lia.
  destruct (Nat.leb_spec (length pend + 1 + k) BUF); [lia|].
  replace (2 * BUF - k - 1 - length pend)%nat
    with (BUF - S (length pend) + (BUF - k))%nat by lia.
  rewrite replicate_add.
  replace (pend ++ pb :: (replicate (BUF - S (length pend)) 0 ++ replicate (BUF - k) 0) ++ trailer)
    with ((pend ++ pb :: replicate (BUF - S (length pend)) 0) ++ (replicate (BUF - k) 0 ++ trailer))
    by by simplify_list_eq.
  apply full_blocks_two; [lia|..]; rewrite length_app; cbn [length];
    rewrite length_replicate; lia.
Qed.

(** ** Running the block function over the padding, as the code does it *)

Context {St : Type} (block : list Z → St → St).

(** The code after [buf[ptr++] = pb]: process a block of zeros when the
    trailer does not fit, then write the trailer and process the last block.
    The result is the final buffer and state. *)
Definition md_close (buf : list Z) (ptr : nat) (pb : Z) (trailer : list Z) (st : St)
    : list Z * St :=
  let buf := <[ptr:=pb]> buf in
  let ptr := S ptr in
  let '(buf, ptr, st) :=
    if (BUF - k <? ptr)%nat then
      let buf := memset buf ptr 0 (BUF - ptr) in (buf, 0%nat, block buf st)
    else (buf, ptr, st) in
  let buf := memset buf ptr 0 (BUF - k - ptr) in
  let buf := memcpy buf (BUF - k) trailer in
  (buf, block buf st).

Lemma md_close_run buf ptr pb trailer st :
  buf_ok BUF buf ptr → length trailer = k →
  snd (md_close buf ptr pb trailer st) =
  run block (full_blocks BUF (take ptr buf ++ md_padding pb trailer ptr)) st ∧
  length (fst (md_close buf ptr pb trailer st)) = BUF.
Proof.
  intros [Hl Hp] Ht. unfold md_close.
  assert (Hpend : length (take ptr buf) = ptr) by (rewrite length_take; lia).
  set (pend := take ptr buf) in *. 
  destruct (Nat.ltb_spec (BUF - k) (S ptr)) as [Hlt|Hge].
  - rewrite pad_fill by done. fold pend.
    set (b1 := pend ++ pb :: replicate (BUF - S ptr) 0).
    assert (Hb1 : length b1 = BUF)
      by (subst b1; rewrite length_app; cbn [length]; rewrite length_replicate; lia).
    rewrite Nat.sub_0_r.
    assert (Hm : length (memset b1 0 0 (BUF - k)) = BUF) by (rewrite length_memset; lia).
    cbn [fst snd]. rewrite pad_trailer by lia. rewrite memset_start by lia.
    split; [|rewrite length_app, length_replicate; lia].
    rewrite <-Hpend, md_two by lia. rewrite Hpend. done.
  - cbn [fst snd].
    assert (Hm : length (memset (<[ptr:=pb]> buf) (S ptr) 0 (BUF - k - S ptr)) = BUF)
      by (rewrite length_memset; rewrite length_insert; lia).
    rewrite pad_trailer by lia. rewrite pad_zeros by lia. fold pend.
    split; [|rewrite length_app, length_app; cbn [length]; rewrite length_replicate; lia].
    rewrite <-Hpend at 2. rewrite md_one by lia. rewrite Hpend, <-app_assoc. done.
Qed.
End Md.

(** ** Padding without a trailer: a one bit and zeros up to the block *)

Lemma pad_one BUF pend pb :
  (length pend < BUF)%nat →
  full_blocks BUF (pend ++ md_padding BUF 0 pb [] (length pend)) =
  [pend ++ pb :: replicate (BUF - S (length pend)) 0].
Proof.
  intros Hl. unfold md_padding, md_zeros. rewrite app_nil_r, Nat.mod_small by lia.
  destruct (Nat.leb_spec (length pend + 1 + 0) BUF); [|lia].
  replace (BUF - 0 - 1 - length pend)%nat with (BUF - S (length pend))%nat by lia.
  apply full_blocks_one; [lia|]. rewrite length_app. cbn [length]. rewrite length_replicate. lia.
Qed.

(** ** Blocks with a counter

    BLAKE, SHAvite and ECHO give each block the number of message bits hashed
    up to and including it, and 0 when the block holds no message bit. *)
Definition counter_at (bits l i : Z) : Z :=
  if bits * i <? l then Z.min l (bits * (i + 1)) else 0.

Lemma counter_at_0 bits l i : l <= bits * i → counter_at bits l i = 0.
Proof. intros. unfold counter_at. destruct (Z.ltb_spec (bits * i) l); [lia|done]. Qed.

Lemma counter_at_full bits l i :
  0 < bits → bits * (i + 1) <= l → counter_at bits l i = bits * (i + 1).
Proof. intros. unfold counter_at. destruct (Z.ltb_spec (bits * i) l); lia. Qed.

(** The blocks [bs], the first of them number [i], of a message of [l] bits. *)
Fixpoint counted_run {S} (f : Z → list Z → S → S) (bits l i : Z) (bs : list (list Z)) (h : S) : S :=
  match bs with
  | [] => h
  | b :: bs => counted_run f bits l (i + 1) bs (f (counter_at bits l i) b h)
  end.

Lemma counted_run_app {S} (f : Z → list Z → S → S) bits l i bs cs h :
  counted_run f bits l i (bs ++ cs) h =
  counted_run f bits l (i + Z.of_nat (length bs)) cs (counted_run f bits l i bs h).
Proof.
  revert i h. induction bs as [|b bs IH]; intros i h.
  { cbn. by rewrite Z.add_0_r. }
  cbn [counted_run app length]. rewrite IH. f_equal. lia.
Qed.

(** A block function that counts by itself follows [counted_run] on the
    blocks that are full of message bits.  [cnt h t] is its state after [t]
    bits. *)
Lemma run_counted {S C} (f : Z → list Z → S → S) (blk : list Z → C → C) (cnt : S → Z → C)
    bits l top bs h i :
  (∀ b h t, 0 <= t → t mod bits = 0 → t + bits < top →
    blk b (cnt h t) = cnt (f (t + bits) b h) (t + bits)) →
  0 < bits → 0 <= i → bits * (i + Z.of_nat (length bs)) <= l → l < top →
  run blk bs (cnt h (bits * i)) =
  cnt (counted_run f bits l i bs h) (bits * (i + Z.of_nat (length bs))).
Proof.
  intros Hblk Hb. revert h i. induction bs as [|b bs IH]; intros h i Hi Hle Hl.
  { cbn. by rewrite Z.add_0_r. }
  cbn [length] in *. rewrite run_cons, Hblk; [|lia|rewrite Z.mul_comm; apply Z_mod_mult|lia].
  replace (bits * i + bits) with (bits * (i + 1)) by lia. rewrite IH by lia.
  cbn [counted_run]. rewrite counter_at_full by lia. f_equal. lia.
Qed.

(** The block that holds the last bits of the message counts them all. *)
Lemma counter_at_last bits l k bl :
  l = bits * k + bl → 0 < bl <= bits → counter_at bits l k = l.
Proof. intros -> Hb. unfold counter_at. destruct (Z.ltb_spec (bits * k) (bits * k + bl)); lia. Qed.

(** Two block functions that simulate each other under the same counters. *)
Lemma counted_run_sim {S T} (f : Z → list Z → S → S) (g : Z → list Z → T → T) (R : S → T → Prop)
    (Q : list Z → Prop) bits l i bs h k :
  (∀ t b h k, Q b → R h k → R (f t b h) (g t b k)) → Forall Q bs → R h k →
  R (counted_run f bits l i bs h) (counted_run g bits l i bs k).
Proof.
  intros Hfg Hbs. revert i h k. induction Hbs; intros i h k HR; [done|]. cbn [counted_run]. auto.
Qed.
