(* ===== verification/Counter.v ===== *)
(** The 128-bit message counter of SHAvite ([src/crypto/x11/shavite.c], fields
    [count0..count3]) and of ECHO ([src/crypto/x11/echo.c], fields [C0..C3]):
    four 32-bit words, the low one first. *)
From S2P Require Import Prelude SphTypes.

Record counter := mk_counter { count0 : Z; count1 : Z; count2 : Z; count3 : Z }.

(** The 128-bit counter as four 32-bit words. *)
Definition counter_of (t : Z) : counter :=
  mk_counter (t mod 2 ^ 32) (t / 2 ^ 32 mod 2 ^ 32) (t / 2 ^ 32 / 2 ^ 32 mod 2 ^ 32)
    (t / 2 ^ 32 / 2 ^ 32 / 2 ^ 32 mod 2 ^ 32).

(** ** The carries of the code *)

(** A carry out of the low 32 bits. *)
Lemma carry t k :
  t mod 2 ^ 32 mod k = 0 → 0 < k → 2 ^ 32 mod k = 0 →
  (t + k) / 2 ^ 32 = if SPH_T32 (t mod 2 ^ 32 + k) =? 0 then t / 2 ^ 32 + 1 else t / 2 ^ 32.
Proof.
  intros Hm Hk Hd. rewrite SPH_T32_mod.
  pose proof (Z.div_mod t (2 ^ 32) ltac:(lia)) as Et.
  pose proof (Z.mod_pos_bound t (2 ^ 32) ltac:(lia)) as Hr.
  set (r := t mod 2 ^ 32) in *. set (q := t / 2 ^ 32) in *. clearbody r q. subst t.
  apply Z.mod_divide in Hm as [a ->]; [|lia]. apply Z.mod_divide in Hd as [e He]; [|lia].
  assert (Hae : a < e) by (apply (Z.mul_lt_mono_pos_r k); lia).
  assert (Hlt : (a + 1) * k <= 2 ^ 32) by (rewrite He; apply Z.mul_le_mono_nonneg_r; lia).
  assert (H0 : 0 < (a + 1) * k) by lia.
  replace (2 ^ 32 * q + a * k + k) with ((a + 1) * k + q * 2 ^ 32) by ring.
  rewrite Z.div_add by lia. replace (a * k + k) with ((a + 1) * k) by ring.
  destruct (decide ((a + 1) * k = 2 ^ 32)) as [->|Hne].
  - rewrite Z_mod_same_full, Z_div_same_full by lia. cbn. lia.
  - rewrite Z.mod_small, Z.div_small by lia. destruct (Z.eqb_spec ((a + 1) * k) 0); lia.
Qed.

(** The three nested increments that follow a wrap of the low word: a word is
    incremented when the one before it has wrapped to 0. *)
Definition bump (c : counter) : counter :=
  let c1 := SPH_T32 (count1 c + 1) in
  if c1 =? 0 then
    let c2 := SPH_T32 (count2 c + 1) in
    if c2 =? 0 then mk_counter (count0 c) c1 c2 (SPH_T32 (count3 c + 1))
    else mk_counter (count0 c) c1 c2 (count3 c)
  else mk_counter (count0 c) c1 (count2 c) (count3 c).

Lemma T32_succ t : SPH_T32 (t mod 2 ^ 32 + 1) = (t + 1) mod 2 ^ 32.
Proof. by rewrite SPH_T32_mod, Zplus_mod_idemp_l. Qed.

(** A carry out of the low word reaches the other three. *)
Lemma bump_counter t u :
  u / 2 ^ 32 = t / 2 ^ 32 + 1 →
  bump (mk_counter (u mod 2 ^ 32) (count1 (counter_of t)) (count2 (counter_of t))
    (count3 (counter_of t))) = counter_of u.
Proof.
  intros Hu. unfold bump, counter_of. cbn [count0 count1 count2 count3]. rewrite Hu.
  set (t1 := t / 2 ^ 32). rewrite !T32_succ.
  rewrite (carry t1 1), T32_succ by (done || apply Z.mod_1_r).
  destruct ((t1 + 1) mod 2 ^ 32 =? 0); [|done]. set (t2 := t1 / 2 ^ 32).
  rewrite (carry t2 1), T32_succ by (done || apply Z.mod_1_r).
  by destruct ((t2 + 1) mod 2 ^ 32 =? 0).
Qed.

Lemma enc_counter l :
  sph_enc32le (count0 (counter_of l)) ++ sph_enc32le (count1 (counter_of l)) ++
  sph_enc32le (count2 (counter_of l)) ++ sph_enc32le (count3 (counter_of l)) = le_split 16 l.
Proof.
  unfold counter_of. cbn [count0 count1 count2 count3]. rewrite !enc32le_split.
  assert (H : ∀ v, le_split 4 (v mod 2 ^ 32) = le_split 4 v) by (intros; apply (le_split_mod 4)).
  rewrite !H. change 16%nat with (4 + (4 + (4 + 4)))%nat. rewrite !(le_split_app 4).
  by rewrite !Z.shiftr_div_pow2 by lia.
Qed.
