(* ===== verification/Blake.v ===== *)
(** * BLAKE-384 and BLAKE-512: crypto/x11/blake.c, sph_blake.h

    The first hash of the X11 chain.  The state is the context struct of
    sph_blake.h; [blake64], [blake64_close] and the [sph_blake512] entry points are
    translated statement by statement, with the 64-bit counter pair [T0], [T1]
    kept at its width.  [COMPRESS64] is translated in both of the shapes the
    file has, unrolled (the default on 64-bit hosts) and compact. *)
From S2P Require Import Prelude SphTypes Stream Padding.

Module Blake.

(** ** Constants *)

Definition IV384 : list Z :=
  [0xCBBB9D5DC1059ED8; 0x629A292A367CD507; 0x9159015A3070DD17; 0x152FECD8F70E5939;
   0x67332667FFC00B31; 0x8EB44A8768581511; 0xDB0C2E0D64F98FA7; 0x47B5481DBEFA4FA4].

Definition IV512 : list Z :=
  [0x6A09E667F3BCC908; 0xBB67AE8584CAA73B; 0x3C6EF372FE94F82B; 0xA54FF53A5F1D36F1;
   0x510E527FADE682D1; 0x9B05688C2B3E6C1F; 0x1F83D9ABFB41BD6B; 0x5BE0CD19137E2179].

(** The [sigma] table of the compact code, one row per round. *)
Definition sigma : list (list nat) :=
  [[ 0;  1;  2;  3;  4;  5;  6;  7;  8;  9; 10; 11; 12; 13; 14; 15];
   [14; 10;  4;  8;  9; 15; 13;  6;  1; 12;  0;  2; 11;  7;  5;  3];
   [11;  8; 12;  0;  5;  2; 15; 13; 10; 14;  3;  6;  7;  1;  9;  4];
   [ 7;  9;  3;  1; 13; 12; 11; 14;  2;  6;  5; 10;  4;  0; 15;  8];
   [ 9;  0;  5;  7;  2;  4; 10; 15; 14;  1; 11; 12;  6;  8;  3; 13];
   [ 2; 12;  6; 10;  0; 11;  8;  3;  4; 13;  7;  5; 15; 14;  1;  9];
   [12;  5;  1; 15; 14; 13;  4; 10;  0;  7;  6;  3;  9;  2;  8; 11];
   [13; 11;  7; 14; 12;  1;  3;  9;  5;  0; 15;  4;  8;  6;  2; 10];
   [ 6; 15; 14;  9; 11;  3;  0;  8; 12;  2; 13;  7;  1;  4; 10;  5];
   [10;  2;  8;  4;  7;  6;  1;  5; 15; 11;  9; 14;  3; 12; 13;  0];
   [ 0;  1;  2;  3;  4;  5;  6;  7;  8;  9; 10; 11; 12; 13; 14; 15];
   [14; 10;  4;  8;  9; 15; 13;  6;  1; 12;  0;  2; 11;  7;  5;  3];
   [11;  8; 12;  0;  5;  2; 15; 13; 10; 14;  3;  6;  7;  1;  9;  4];
   [ 7;  9;  3;  1; 13; 12; 11; 14;  2;  6;  5; 10;  4;  0; 15;  8];
   [ 9;  0;  5;  7;  2;  4; 10; 15; 14;  1; 11; 12;  6;  8;  3; 13];
   [ 2; 12;  6; 10;  0; 11;  8;  3;  4; 13;  7;  5; 15; 14;  1;  9]]%nat.

(** The macros [Z00] to [Z9F], which the unrolled code pastes into the names
    of message words and constants: [Zri r i]. *)
Definition Zri : list (list nat) :=
  [[0x0; 0x1; 0x2; 0x3; 0x4; 0x5; 0x6; 0x7; 0x8; 0x9; 0xA; 0xB; 0xC; 0xD; 0xE; 0xF];
   [0xE; 0xA; 0x4; 0x8; 0x9; 0xF; 0xD; 0x6; 0x1; 0xC; 0x0; 0x2; 0xB; 0x7; 0x5; 0x3];
   [0xB; 0x8; 0xC; 0x0; 0x5; 0x2; 0xF; 0xD; 0xA; 0xE; 0x3; 0x6; 0x7; 0x1; 0x9; 0x4];
   [0x7; 0x9; 0x3; 0x1; 0xD; 0xC; 0xB; 0xE; 0x2; 0x6; 0x5; 0xA; 0x4; 0x0; 0xF; 0x8];
   [0x9; 0x0; 0x5; 0x7; 0x2; 0x4; 0xA; 0xF; 0xE; 0x1; 0xB; 0xC; 0x6; 0x8; 0x3; 0xD];
   [0x2; 0xC; 0x6; 0xA; 0x0; 0xB; 0x8; 0x3; 0x4; 0xD; 0x7; 0x5; 0xF; 0xE; 0x1; 0x9];
   [0xC; 0x5; 0x1; 0xF; 0xE; 0xD; 0x4; 0xA; 0x0; 0x7; 0x6; 0x3; 0x9; 0x2; 0x8; 0xB];
   [0xD; 0xB; 0x7; 0xE; 0xC; 0x1; 0x3; 0x9; 0x5; 0x0; 0xF; 0x4; 0x8; 0x6; 0x2; 0xA];
   [0x6; 0xF; 0xE; 0x9; 0xB; 0x3; 0x0; 0x8; 0xC; 0x2; 0xD; 0x7; 0x1; 0x4; 0xA; 0x5];
   [0xA; 0x2; 0x8; 0x4; 0x7; 0x6; 0x1; 0x5; 0xF; 0xB; 0x9; 0xE; 0x3; 0xC; 0xD; 0x0]]%nat.

Definition perm_at (t : list (list nat)) (r i : nat) : nat := nth i (nth r t []) 0%nat.

(** [CB0] to [CBF], and the array [CB] of the compact code. *)
Definition CB : list Z :=
  [0x243F6A8885A308D3; 0x13198A2E03707344; 0xA4093822299F31D0; 0x082EFA98EC4E6C89;
   0x452821E638D01377; 0xBE5466CF34E90C6C; 0xC0AC29B7C97C50DD; 0x3F84D5B5B5470917;
   0x9216D5D98979FB1B; 0xD1310BA698DFB5AC; 0x2FFD72DBD01ADFB7; 0xB8E1AFED6A267E96;
   0xBA7C9045F12C7F99; 0x24A19947B3916CF7; 0x0801F2E2858EFC16; 0x636920D871574E69].

Definition salt_zero_big : list Z := [0; 0; 0; 0].

(** ** The compression function *)

(** [GB(m0, m1, c0, c1, a, b, c, d)]: the new values of [a], [b], [c], [d]. *)
Definition GB (m0 m1 c0 c1 a b c d : Z) : Z * Z * Z * Z :=
  let a := SPH_T64 (a + b + Z.lxor m0 c1) in
  let d := SPH_ROTR64 (Z.lxor d a) 32 in
  let c := SPH_T64 (c + d) in
  let b := SPH_ROTR64 (Z.lxor b c) 25 in
  let a := SPH_T64 (a + b + Z.lxor m1 c0) in
  let d := SPH_ROTR64 (Z.lxor d a) 16 in
  let c := SPH_T64 (c + d) in
  let b := SPH_ROTR64 (Z.lxor b c) 11 in
  (a, b, c, d).

(** [GB] on the variables [Vi], [Vj], [Vk], [Vl], with the message words and
    constants the round's permutation [p] puts at positions [x] and [x+1]. *)
Definition GB_at (p : nat → nat) (x i j k l : nat) (M V : list Z) : list Z :=
  let '(a, b, c, d) :=
    GB (M @@ p x) (M @@ p (S x)) (CB @@ p x) (CB @@ p (S x))
       (V @@ i) (V @@ j) (V @@ k) (V @@ l) in
  <[l:=d]> (<[k:=c]> (<[j:=b]> (<[i:=a]> V))).

(** The eight [GB] of a round: columns, then diagonals. *)
Definition round_with (p : nat → nat) (M V : list Z) : list Z :=
  let V := GB_at p 0x0 0x0 0x4 0x8 0xC M V in
  let V := GB_at p 0x2 0x1 0x5 0x9 0xD M V in
  let V := GB_at p 0x4 0x2 0x6 0xA 0xE M V in
  let V := GB_at p 0x6 0x3 0x7 0xB 0xF M V in
  let V := GB_at p 0x8 0x0 0x5 0xA 0xF M V in
  let V := GB_at p 0xA 0x1 0x6 0xB 0xC M V in
  let V := GB_at p 0xC 0x2 0x7 0x8 0xD M V in
  GB_at p 0xE 0x3 0x4 0x9 0xE M V.

(** [ROUND_B(r)] of the unrolled and of the compact code. *)
Definition ROUND_B (r : nat) : list Z → list Z → list Z := round_with (perm_at Zri r).
Definition ROUND_B_compact (r : nat) : list Z → list Z → list Z :=
  round_with (perm_at sigma r).

(** The chaining state the macros [READ_STATE64]/[WRITE_STATE64] move. *)
Record state64 := mk_state64 { H : list Z; S_ : list Z; T0 : Z; T1 : Z }.

Definition init_V (st : state64) : list Z :=
  take 8 (H st) ++
  [Z.lxor (S_ st @@ 0) (CB @@ 0); Z.lxor (S_ st @@ 1) (CB @@ 1);
   Z.lxor (S_ st @@ 2) (CB @@ 2); Z.lxor (S_ st @@ 3) (CB @@ 3);
   Z.lxor (T0 st) (CB @@ 4); Z.lxor (T0 st) (CB @@ 5);
   Z.lxor (T1 st) (CB @@ 6); Z.lxor (T1 st) (CB @@ 7)].

Definition load_M (buf : list Z) : list Z :=
  (λ i, sph_dec64be_aligned (drop (8 * i) buf)) <$> seq 0 16.

(** [H_i ^= S_(i mod 4) ^ V_i ^ V_(i+8)]. *)
Definition finish_V (st : state64) (V : list Z) : state64 :=
  mk_state64
    ((λ i, Z.lxor (H st @@ i)
             (Z.lxor (Z.lxor (S_ st @@ (i mod 4)) (V @@ i)) (V @@ (i + 8)))) <$> seq 0 8)
    (S_ st) (T0 st) (T1 st).

Definition COMPRESS64 (buf : list Z) (st : state64) : state64 :=
  let V := init_V st in
  let M := load_M buf in
  let V := ROUND_B 0 M V in
  let V := ROUND_B 1 M V in
  let V := ROUND_B 2 M V in
  let V := ROUND_B 3 M V in
  let V := ROUND_B 4 M V in
  let V := ROUND_B 5 M V in
  let V := ROUND_B 6 M V in
  let V := ROUND_B 7 M V in
  let V := ROUND_B 8 M V in
  let V := ROUND_B 9 M V in
  let V := ROUND_B 0 M V in
  let V := ROUND_B 1 M V in
  let V := ROUND_B 2 M V in
  let V := ROUND_B 3 M V in
  let V := ROUND_B 4 M V in
  let V := ROUND_B 5 M V in
  finish_V st V.

Definition COMPRESS64_compact (buf : list Z) (st : state64) : state64 :=
  let V := init_V st in
  let M := load_M buf in
  let V := fold_left (λ V r, ROUND_B_compact r M V) (seq 0 16) V in
  finish_V st V.

(** ** The context and its operations *)

Record sph_blake_big_context := mk_ctx {
  buf : list Z; ptr : nat; st : state64 }.

Definition blake64_init (sc : sph_blake_big_context) (iv salt : list Z)
    : sph_blake_big_context :=
  mk_ctx (buf sc) 0 (mk_state64 iv salt 0 0).

(** What the loop does with a full buffer: advance the bit counter, with the
    carry into [T1], and compress. *)
Definition blake64_block (b : list Z) (s : state64) : state64 :=
  let t0 := SPH_T64 (T0 s + 1024) in
  let t1 := if t0 <? 1024 then SPH_T64 (T1 s + 1) else T1 s in
  COMPRESS64 b (mk_state64 (H s) (S_ s) t0 t1).

Definition blake64 (sc : sph_blake_big_context) (data : list Z) : sph_blake_big_context :=
  let '(b, p, s) := absorb_core 128 blake64_block (buf sc) (ptr sc) data (st sc) in
  mk_ctx b p s.

Definition set_T (sc : sph_blake_big_context) (t0 t1 : Z) : sph_blake_big_context :=
  mk_ctx (buf sc) (ptr sc) (mk_state64 (H (st sc)) (S_ (st sc)) t0 t1).

(** [u] holds what the local [u.buf] of the C function contains before it is
    written. *)
Definition blake64_close (sc : sph_blake_big_context) (ub : Z) (n : nat)
    (out_size_w64 : nat) (u : list Z) : list Z * sph_blake_big_context :=
  let p := ptr sc in
  let bit_len := (8 * p + n)%nat in
  let u := <[p:=pad_byte ub n]> u in
  let tl := SPH_T64 (T0 (st sc) + Z.of_nat bit_len) in
  let th := T1 (st sc) in
  let sc :=
    if (p =? 0)%nat && (n =? 0)%nat then
      set_T sc 0xFFFFFFFFFFFFFC00 0xFFFFFFFFFFFFFFFF
    else if T0 (st sc) =? 0 then
      set_T sc (SPH_T64 (0xFFFFFFFFFFFFFC00 + Z.of_nat bit_len)) (SPH_T64 (T1 (st sc) - 1))
    else set_T sc (SPH_T64 (T0 (st sc) - (1024 - Z.of_nat bit_len))) (T1 (st sc)) in
  let sc :=
    if (bit_len <=? 894)%nat then
      let u := memset u (p + 1) 0 (111 - p) in
      let u := if (out_size_w64 =? 8)%nat then <[111%nat:=Z.lor (u @@ 111) 1]> u else u in
      let u := memcpy u 112 (sph_enc64be_aligned th) in
      let u := memcpy u 120 (sph_enc64be_aligned tl) in
      blake64 sc (drop p u)
    else
      let u := memset u (p + 1) 0 (127 - p) in
      let sc := blake64 sc (drop p u) in
      let sc := set_T sc 0xFFFFFFFFFFFFFC00 0xFFFFFFFFFFFFFFFF in
      let u := memset u 0 0 112 in
      let u := if (out_size_w64 =? 8)%nat then <[111%nat:=1]> u else u in
      let u := memcpy u 112 (sph_enc64be_aligned th) in
      let u := memcpy u 120 (sph_enc64be_aligned tl) in
      blake64 sc u in
  (concat ((λ k, sph_enc64be (H (st sc) @@ k)) <$> seq 0 out_size_w64), sc).

(** ** The entry points *)

Definition sph_blake384_init (cc : sph_blake_big_context) := blake64_init cc IV384 salt_zero_big.
Definition sph_blake384 (cc : sph_blake_big_context) (data : list Z) := blake64 cc data.
Definition sph_blake384_addbits_and_close (cc : sph_blake_big_context) (ub : Z) (n : nat)
    (u : list Z) : list Z * sph_blake_big_context :=
  let '(dst, cc) := blake64_close cc ub n 6 u in (dst, sph_blake384_init cc).
Definition sph_blake384_close (cc : sph_blake_big_context) (u : list Z) :=
  sph_blake384_addbits_and_close cc 0 0 u.

Definition sph_blake512_init (cc : sph_blake_big_context) := blake64_init cc IV512 salt_zero_big.
Definition sph_blake512 (cc : sph_blake_big_context) (data : list Z) := blake64 cc data.
Definition sph_blake512_addbits_and_close (cc : sph_blake_big_context) (ub : Z) (n : nat)
    (u : list Z) : list Z * sph_blake_big_context :=
  let '(dst, cc) := blake64_close cc ub n 8 u in (dst, sph_blake512_init cc).
Definition sph_blake512_close (cc : sph_blake_big_context) (u : list Z) :=
  sph_blake512_addbits_and_close cc 0 0 u.

(** ** Specification: BLAKE on a whole message

    The message is [msg] followed by the [n < 8] high bits of [ub]; [l] is its
    length in bits.  It is padded with a one bit, zeros, for BLAKE-512 a one
    bit ending the 112th byte of the last block, and [l] on 128 bits.  Block
    [i] is compressed with the counter [counter_at 1024 l i]: the number of message
    bits in blocks [0..i], or 0 for a block without message bits. *)

Definition blake_zeros (len n : nat) : nat :=
  let r := (len mod 128)%nat in
  if (8 * r + n <=? 894)%nat then (111 - r)%nat else (239 - r)%nat.

Definition set_last1 (w : nat) (l : list Z) : list Z :=
  if (w =? 8)%nat
  then <[(length l - 1)%nat:=Z.lor (l @@ (length l - 1)) 1]> l else l.

Definition blake_padding (w : nat) (ub : Z) (n : nat) (len : nat) (l : Z) : list Z :=
  set_last1 w (pad_byte ub n :: replicate (blake_zeros len n) 0) ++ reverse (le_split 16 l).

Definition compress_at (h salt : list Z) (t : Z) (b : list Z) : list Z :=
  H (COMPRESS64 b (mk_state64 h salt (t mod 2 ^ 64) (t / 2 ^ 64))).

Definition blake_blocks (salt : list Z) : Z → Z → list (list Z) → list Z → list Z :=
  counted_run (λ t b h, compress_at h salt t b) 1024.

Definition blake_out (w : nat) (h : list Z) : list Z :=
  concat ((λ k, sph_enc64be (h @@ k)) <$> seq 0 w).

Definition blake_spec (w : nat) (iv salt msg : list Z) (ub : Z) (n : nat) : list Z :=
  let l := bit_length msg n in
  let padded := msg ++ blake_padding w ub n (length msg) l in
  blake_out w (blake_blocks salt l 0 (full_blocks 128 padded) iv).

(** ** The counter *)

Definition cnt (h salt : list Z) (t : Z) : state64 :=
  mk_state64 h salt (t mod 2 ^ 64) (t / 2 ^ 64).

(** [(x, y)] counts [t - 1024] bits: one block later it counts [t]. *)
Definition before (x y t : Z) : Prop :=
  SPH_T64 (x + 1024) = t mod 2 ^ 64 ∧
  (if SPH_T64 (x + 1024) <? 1024 then SPH_T64 (y + 1) else y) = t / 2 ^ 64.

Lemma blake64_block_before b h salt x y t :
  before x y t →
  blake64_block b (mk_state64 h salt x y) = cnt (compress_at h salt t b) salt t.
Proof. intros [E1 E2]. unfold blake64_block. cbn [H S_ T0 T1]. by rewrite E2, E1. Qed.

(** The code's counter step adds 1024 to the 128-bit count. *)
Lemma before_step t :
  0 <= t → t + 1024 < 2 ^ 128 → before (t mod 2 ^ 64) (t / 2 ^ 64) (t + 1024).
Proof.
  intros Ht0 Ht. unfold before. rewrite !SPH_T64_mod, Zplus_mod_idemp_l.
  split; [done|].
  destruct (Z.ltb_spec ((t + 1024) mod 2 ^ 64) 1024) as [Hlt|Hge];
    Z.to_euclidean_division_equations; lia.
Qed.

(** The three ways [blake64_close] presets the counter. *)
Lemma before_empty : before 0xFFFFFFFFFFFFFC00 0xFFFFFFFFFFFFFFFF 0.
Proof. done. Qed.

Lemma before_close k (bl : Z) :
  0 <= k → 1024 * k + bl < 2 ^ 128 → 0 < bl < 1024 →
  let t := 1024 * k in
  before (if t mod 2 ^ 64 =? 0 then SPH_T64 (0xFFFFFFFFFFFFFC00 + bl)
          else SPH_T64 (t mod 2 ^ 64 - (1024 - bl)))
         (if t mod 2 ^ 64 =? 0 then SPH_T64 (t / 2 ^ 64 - 1) else t / 2 ^ 64)
         (t + bl).
Proof.
  intros Hk Ht Hb t. subst t.
  destruct (Z.eqb_spec ((1024 * k) mod 2 ^ 64) 0) as [E|E].
  - unfold before. rewrite !SPH_T64_mod. split.
    + Z.to_euclidean_division_equations; lia.
    + assert (E2 : (((0xFFFFFFFFFFFFFC00 + bl) mod 2 ^ 64 + 1024) mod 2 ^ 64) = bl).
      { rewrite Zplus_mod_idemp_l.
        replace (0xFFFFFFFFFFFFFC00 + bl + 1024) with (bl + 1 * 2 ^ 64) by lia.
        rewrite Z.mod_add by lia. apply Z.mod_small. lia. }
      rewrite E2. destruct (Z.ltb_spec bl 1024); [|lia].
      rewrite Zplus_mod_idemp_l. Z.to_euclidean_division_equations; lia.
  - unfold before. rewrite !SPH_T64_mod.
    assert (E2 : ((((1024 * k) mod 2 ^ 64 - (1024 - bl)) mod 2 ^ 64 + 1024) mod 2 ^ 64)
      = (1024 * k) mod 2 ^ 64 + bl).
    { rewrite Zplus_mod_idemp_l.
      replace (_ - _ + 1024) with ((1024 * k) mod 2 ^ 64 + bl) by lia.
      apply Z.mod_small. Z.to_euclidean_division_equations; lia. }
    rewrite E2. split; [Z.to_euclidean_division_equations; lia|].
    destruct (Z.ltb_spec ((1024 * k) mod 2 ^ 64 + bl) 1024);
      Z.to_euclidean_division_equations; lia.
Qed.

(** ** The context *)

Definition ctx_ok (sc : sph_blake_big_context) : Prop := buf_ok 128 (buf sc) (ptr sc).
Definition cview (sc : sph_blake_big_context) : list Z * state64 :=
  (take (ptr sc) (buf sc), st sc).

Lemma blake64_view sc data :
  ctx_ok sc →
  ctx_ok (blake64 sc data) ∧
  cview (blake64 sc data) = absorb 128 blake64_block (cview sc) data.
Proof.
  intros Hok. unfold blake64, cview.
  destruct (absorb_core_spec 128 blake64_block (buf sc) (ptr sc) data (st sc) Hok) as [Ho Hv].
  destruct (absorb_core _ _ _ _ _ _) as [[b p] s]. done.
Qed.

(** One call that completes the pending block. *)
Lemma blake64_complete sc pend data :
  ctx_ok sc → cview sc = (pend, st sc) →
  (length pend + length data = 128)%nat → data ≠ [] →
  ctx_ok (blake64 sc data) ∧
  cview (blake64 sc data) = ([], blake64_block (pend ++ data) (st sc)).
Proof.
  intros Hok Hv Hl Hne. destruct (blake64_view sc data Hok) as [Ho Hv'].
  split; [done|]. by rewrite Hv', Hv, absorb_block.
Qed.

Lemma run_cnt bs h salt l i :
  0 <= i → 1024 * (i + Z.of_nat (length bs)) <= l → l < 2 ^ 128 →
  run blake64_block bs (cnt h salt (1024 * i)) =
  cnt (blake_blocks salt l i bs h) salt (1024 * (i + Z.of_nat (length bs))).
Proof.
  intros Hi Hle Hl. apply (run_counted _ blake64_block (λ h t, cnt h salt t) 1024 l (2 ^ 128));
    [|lia..]. clear. intros b h t Ht _ Hlt. by apply blake64_block_before, before_step.
Qed.

(** ** The padding written by [blake64_close] *)

Lemma set_last1_app w (a b : list Z) : b ≠ [] → set_last1 w (a ++ b) = a ++ set_last1 w b.
Proof.
  intros Hb. unfold set_last1. destruct (w =? 8)%nat; [|done].
  assert (length b ≠ 0)%nat by by destruct b.
  rewrite length_app. replace (length a + length b - 1)%nat
    with (length a + (length b - 1))%nat by lia.
  rewrite insert_app_r. do 3 f_equal. unfold at_. by rewrite app_nth2_plus.
Qed.

Lemma length_set_last1 w l : length (set_last1 w l) = length l.
Proof. unfold set_last1. destruct (w =? 8)%nat; [apply length_insert|done]. Qed.

Lemma enc128 l :
  0 <= l < 2 ^ 128 →
  reverse (le_split 16 l) = sph_enc64be_aligned (l / 2 ^ 64) ++ sph_enc64be_aligned (l mod 2 ^ 64).
Proof.
  intros Hl.
  rewrite !enc64be_aligned_eq, !enc64be_split by
    (unfold word; Z.to_euclidean_division_equations; lia).
  rewrite <-reverse_app. f_equal. etransitivity; [exact (le_split_app 8 8 l)|].
  f_equal; [exact (eq_sym (le_split_mod 8 l))|]. by rewrite Z.shiftr_div_pow2.
Qed.

(** The bytes from [p] on of the local buffer, in the one-block case ... *)
Lemma close_tail_one w u p pb th tl :
  length u = 128%nat → (p <= 111)%nat → length th = 8%nat → length tl = 8%nat →
  let u := <[p:=pb]> u in
  let u := memset u (p + 1) 0 (111 - p) in
  let u := if (w =? 8)%nat then <[111%nat:=Z.lor (u @@ 111) 1]> u else u in
  let u := memcpy u 112 th in
  let u := memcpy u 120 tl in
  drop p u = set_last1 w (pb :: replicate (111 - p) 0) ++ th ++ tl.
Proof.
  intros Hu Hp Hth Htl.
  destruct (split_at u p (112 - p)) as (a & b & c & -> & Ha & Hb & Hc); [lia|].
  clear Hc. subst p. rewrite !length_app in Hu.
  destruct b as [|x b]; [simpl in Hb; lia|]. simpl in Hb, Hu.
  destruct (split_at c 8 8) as (c1 & c2 & c3 & -> & Hc1 & Hc2 & Hc3); [lia|].
  clear Hc3. rewrite !length_app in Hu.
  assert (c3 = []) as -> by (apply nil_length_inv; lia).
  cbn zeta.
  replace (<[length a:=pb]> (a ++ (x :: b) ++ c1 ++ c2 ++ []))
    with ((a ++ [pb]) ++ b ++ c1 ++ c2)
    by (rewrite insert_app_r_alt, Nat.sub_diag by lia; simpl;
        by rewrite <-app_assoc, app_nil_r).
  unfold memset. rewrite (memcpy_at (a ++ [pb]) b)
    by (rewrite ?length_app, ?length_replicate; simpl; lia).
  set (z := replicate (111 - length a) 0).
  assert (Hz : length z = (111 - length a)%nat) by apply length_replicate.
  set (v := if (w =? 8)%nat then _ else _).
  assert (Hv : v = a ++ set_last1 w (pb :: z) ++ c1 ++ c2).
  { subst v. unfold set_last1. simpl length. destruct (w =? 8)%nat; [|by simplify_list_eq].
    rewrite <-app_assoc. simpl. replace 111%nat with (length a + (111 - length a))%nat by lia.
    rewrite insert_app_r. f_equal. unfold at_. rewrite app_nth2_plus.
    rewrite !app_comm_cons, app_nth1, insert_app_l by (simpl; lia).
    by rewrite Hz, Nat.sub_0_r. }
  rewrite Hv. rewrite (app_assoc a), (memcpy_at _ c1 c2 th)
    by (rewrite ?length_app, ?length_set_last1; simpl; lia).
  rewrite <-(app_nil_r c2), (app_assoc _ th), (memcpy_at _ c2 [] tl)
    by (rewrite ?length_app, ?length_set_last1; simpl; lia).
  rewrite app_nil_r, <-!app_assoc. apply drop_app_length.
Qed.

(** ... and in the two-block case: the end of the first block ... *)
Lemma close_tail_first u p pb :
  length u = 128%nat → (p <= 127)%nat →
  drop p (memset (<[p:=pb]> u) (p + 1) 0 (127 - p)) = pb :: replicate (127 - p) 0.
Proof.
  intros Hu Hp. unfold memset.
  rewrite memcpy_full by (rewrite length_insert, length_replicate; lia).
  rewrite Nat.add_1_r, (take_S_r _ p pb) by (apply list_lookup_insert_eq; lia).
  rewrite take_insert_ge, <-app_assoc by lia.
  assert (Hl : length (take p u) = p) by (rewrite length_take; lia).
  rewrite <-Hl at 1. by rewrite drop_app_length.
Qed.

(** ... and the whole second block. *)
Lemma close_second w u th tl :
  length u = 128%nat → length th = 8%nat → length tl = 8%nat →
  let u := memset u 0 0 112 in
  let u := if (w =? 8)%nat then <[111%nat:=1]> u else u in
  let u := memcpy u 112 th in
  memcpy u 120 tl = set_last1 w (replicate 112 0) ++ th ++ tl.
Proof.
  intros Hu Hth Htl. cbn zeta.
  assert (E : (if (w =? 8)%nat then <[111%nat:=1]> (memset u 0 0 112) else memset u 0 0 112)
     = set_last1 w (replicate 112 0) ++ drop 112 u).
  { unfold memset, memcpy, set_last1. rewrite take_0, length_replicate.
    destruct (w =? 8)%nat; [|done].
    rewrite app_nil_l, insert_app_l by (rewrite length_replicate; lia). done. }
  rewrite E. rewrite (memcpy_full _ 120)
    by (rewrite length_memcpy; rewrite ?length_app, ?length_set_last1, ?length_drop,
          ?length_replicate; lia).
  replace 120%nat with (112 + length th)%nat by lia.
  rewrite take_memcpy by (rewrite length_app, length_set_last1, length_replicate; lia).
  rewrite take_app_length' by (rewrite length_set_last1, length_replicate; lia).
  by rewrite app_assoc.
Qed.

(** ** [blake64_close] *)

(** The state the padding step starts from, for a context holding [pend] after
    [k] blocks: counter preset so that the next block is counted right. *)
Definition preset (sc : sph_blake_big_context) (n : nat) : sph_blake_big_context :=
  let bl := Z.of_nat (8 * ptr sc + n) in
  if (ptr sc =? 0)%nat && (n =? 0)%nat then
    set_T sc 0xFFFFFFFFFFFFFC00 0xFFFFFFFFFFFFFFFF
  else if T0 (st sc) =? 0 then
    set_T sc (SPH_T64 (0xFFFFFFFFFFFFFC00 + bl)) (SPH_T64 (T1 (st sc) - 1))
  else set_T sc (SPH_T64 (T0 (st sc) - (1024 - bl))) (T1 (st sc)).

Lemma preset_before sc n k h salt :
  (ptr sc < 128)%nat → (n < 8)%nat → 0 <= k →
  st sc = cnt h salt (1024 * k) → 1024 * k + Z.of_nat (8 * ptr sc + n) < 2 ^ 128 →
  ∃ x y, preset sc n = set_T sc x y ∧
    before x y (counter_at 1024 (1024 * k + Z.of_nat (8 * ptr sc + n)) k).
Proof.
  intros Hp Hn Hk Hst Hl. unfold preset, counter_at. rewrite Hst. cbn [T0 T1 cnt].
  set (bl := Z.of_nat (8 * ptr sc + n)) in *.
  destruct (Nat.eqb_spec (ptr sc) 0) as [Ep|Ep]; [destruct (Nat.eqb_spec n 0) as [En|En]|];
    cbn [andb].
  { do 2 eexists. split; [done|]. destruct (Z.ltb_spec (1024 * k) (1024 * k + bl)); [lia|].
    apply before_empty. }
  all: assert (Hbl : 0 < bl < 1024) by lia.
  all: destruct (Z.ltb_spec (1024 * k) (1024 * k + bl)); [|lia].
  all: rewrite Z.min_l by lia.
  all: pose proof (before_close k bl Hk Hl Hbl) as Hb; cbn zeta in Hb.
  all: destruct (_ =? 0); do 2 eexists; (split; [done|exact Hb]).
Qed.

Lemma set_T_view sc x y pend s :
  cview sc = (pend, s) → cview (set_T sc x y) = (pend, mk_state64 (H s) (S_ s) x y).
Proof. unfold cview. intros E. by inversion E. Qed.

(** Completing the pending block from a context whose counter is set for [t]. *)
Lemma set_T_complete sc x y pend h salt c t data :
  ctx_ok sc → cview sc = (pend, cnt h salt c) → before x y t →
  (length pend + length data = 128)%nat → data ≠ [] →
  ctx_ok (blake64 (set_T sc x y) data) ∧
  cview (blake64 (set_T sc x y) data) = ([], cnt (compress_at h salt t (pend ++ data)) salt t).
Proof.
  intros Hok Hv Hb Hl Hne. pose proof (set_T_view sc x y _ _ Hv) as Hv'.
  destruct (blake64_complete (set_T sc x y) pend data) as [Ho Hc]; [done| |done..|].
  { rewrite Hv'. by inversion Hv'. }
  split; [done|]. rewrite Hc. assert (Es : st (set_T sc x y) = mk_state64 h salt x y)
    by by inversion Hv'.
  by rewrite Es, (blake64_block_before _ _ _ _ _ t).
Qed.

Lemma length_enc64be_aligned v : length (sph_enc64be_aligned v) = 8%nat.
Proof. apply length_le_split. Qed.

(** The message-length field is the counter read before it is preset. *)
Lemma length_field t bl :
  0 <= t → t mod 1024 = 0 → 0 <= bl < 1024 → t + bl < 2 ^ 128 →
  sph_enc64be_aligned (t / 2 ^ 64) ++ sph_enc64be_aligned (SPH_T64 (t mod 2 ^ 64 + bl)) =
  reverse (le_split 16 (t + bl)).
Proof.
  intros Ht Hm Hb Hl. rewrite enc128 by lia. rewrite SPH_T64_mod, Zplus_mod_idemp_l.
  do 2 f_equal. Z.to_euclidean_division_equations; lia.
Qed.

Lemma blake64_close_blocks sc ub n w u k h salt pend :
  ctx_ok sc → cview sc = (pend, cnt h salt (1024 * k)) → (n < 8)%nat → 0 <= k →
  length u = 128%nat →
  let l := 1024 * k + Z.of_nat (8 * length pend + n) in
  l < 2 ^ 128 →
  fst (blake64_close sc ub n w u) =
  blake_out w (blake_blocks salt l k
    (full_blocks 128 (pend ++ blake_padding w ub n (length pend) l)) h).
Proof.
  intros Hok Hv Hn Hk Hu l Hl. pose proof Hok as [Hbuf Hptr].
  assert (Hp : length pend = ptr sc).
  { inversion Hv. rewrite length_take. lia. }
  assert (Hst : st sc = cnt h salt (1024 * k)) by by inversion Hv.
  unfold blake64_close. fold (preset sc n). cbv zeta.
  destruct (preset_before sc n k h salt) as (x & y & -> & Hb); [done..|by rewrite <-Hp|].
  rewrite <-Hp in *. set (bl := (8 * length pend + n)%nat) in *. fold l in Hb.
  rewrite Hst. cbn [cnt T0 T1].
  set (th := sph_enc64be_aligned _). set (tl := sph_enc64be_aligned _).
  assert (Hlf : th ++ tl = reverse (le_split 16 l)).
  { apply length_field; [lia| |lia..]. rewrite Z.mul_comm. by apply Z_mod_mult. }
  assert (Hth : length th = 8%nat) by apply length_enc64be_aligned.
  assert (Htl : length tl = 8%nat) by apply length_enc64be_aligned.
  unfold blake_padding, blake_zeros. rewrite Nat.mod_small by lia. fold bl.
  destruct (Nat.leb_spec bl 894) as [Hle|Hgt].
  - pose proof (close_tail_one w u (length pend) (pad_byte ub n) th tl) as E.
    cbv zeta in E. rewrite E by (done || lia). rewrite Hlf.
    set (d := set_last1 _ _ ++ _).
    assert (Hd : length d = (128 - length pend)%nat).
    { subst d. rewrite length_app, length_set_last1, <-Hlf, length_app. cbn [length].
      rewrite length_replicate. lia. }
    destruct (set_T_complete sc x y pend h salt (1024 * k) (counter_at 1024 l k) d) as [_ Hc];
      [done|done|done|lia|intros E0; rewrite E0 in Hd; simpl in Hd; lia|].
    apply (f_equal snd) in Hc. cbn [cview snd] in Hc. cbn [fst]. rewrite Hc.
    rewrite full_blocks_one by (rewrite ?length_app; lia). done.
  - rewrite close_tail_first by lia.
    pose proof (close_second w (memset (<[length pend:=pad_byte ub n]> u) (length pend + 1) 0
      (127 - length pend)) th tl) as E. cbv zeta in E.
    rewrite E by (done || by rewrite length_memset; rewrite ?length_insert; lia). clear E.
    set (d := pad_byte ub n :: replicate (127 - length pend) 0).
    assert (Hd : length d = (128 - length pend)%nat)
      by (subst d; cbn [length]; rewrite length_replicate; lia).
    destruct (set_T_complete sc x y pend h salt (1024 * k) (counter_at 1024 l k) d) as [Ho Hc];
      [done|done|done|lia|done|].
    rewrite Hlf. set (e := set_last1 w (replicate 112 0) ++ _).
    assert (He : length e = 128%nat).
    { subst e. by rewrite length_app, length_set_last1, <-Hlf, length_app, Hth, Htl. }
    destruct (set_T_complete _ 0xFFFFFFFFFFFFFC00 0xFFFFFFFFFFFFFFFF _ _ _ _ 0 e Ho Hc)
      as [_ Hc2]; [done|done|intros E0; by rewrite E0 in He|].
    apply (f_equal snd) in Hc2. cbn [cview snd] in Hc2. cbn [fst]. rewrite Hc2.
    replace (239 - length pend)%nat with (127 - length pend + 112)%nat by lia.
    rewrite replicate_add, app_comm_cons, set_last1_app by done. fold d.
    rewrite <-app_assoc. fold e. rewrite app_assoc, full_blocks_two
      by (rewrite ?length_app; lia).
    cbn [blake_blocks counted_run]. by rewrite (counter_at_0 1024 l (k + 1)) by lia.
Qed.

(** ** Whole computations *)

(** Initialise, absorb any sequence of chunks, close: the result is the
    specification on the concatenated chunks, whatever the context and the
    local buffer held before. *)
Lemma blake64_correct cc iv salt chunks ub n w u :
  length (buf cc) = 128%nat → length u = 128%nat → (n < 8)%nat →
  bit_length (concat chunks) n < 2 ^ 128 →
  fst (blake64_close (fold_left blake64 chunks (blake64_init cc iv salt)) ub n w u) =
  blake_spec w iv salt (concat chunks) ub n.
Proof.
  intros Hb Hu Hn Hl. set (msg := concat chunks) in *. unfold bit_length in Hl.
  destruct (updates_view 128 blake64_block blake64 ctx_ok cview chunks
    (blake64_init cc iv salt)) as [Hok Hv].
  { apply blake64_view. } { split; [done|simpl; lia]. }
  set (sc := fold_left _ _ _) in *.
  replace (cview (blake64_init cc iv salt)) with (@nil Z, cnt iv salt (1024 * 0)) in Hv by done.
  fold msg in Hv. rewrite absorb_message in Hv by lia.
  set (k := Z.of_nat (length (full_blocks 128 msg))) in *.
  assert (Hlen : Z.of_nat (length msg) = 128 * k + Z.of_nat (length (rest 128 msg))).
  { subst k. rewrite length_full_blocks, length_rest by lia.
    pose proof (Nat.div_mod_eq (length msg) 128). lia. }
  rewrite (run_cnt _ _ _ (bit_length msg n)) in Hv by (unfold bit_length; fold k; lia).
  fold k in Hv. rewrite Z.add_0_l in Hv.
  rewrite (blake64_close_blocks sc ub n w u k _ salt (rest 128 msg)) by (done || lia).
  unfold blake_spec, blake_blocks. rewrite (full_blocks_pad 128 msg), counted_run_app by lia. fold k.
  rewrite ?Z.add_0_l.
  replace (1024 * k + Z.of_nat (8 * length (rest 128 msg) + n)) with (bit_length msg n)
    by (unfold bit_length; lia).
  unfold blake_padding, blake_zeros. rewrite length_rest, Nat.Div0.mod_mod by lia. done.
Qed.

(** BLAKE-512 over its streaming interface: whatever the context and the
    local buffer of the closing function held before, [sph_blake512_init], any
    sequence of [sph_blake512] calls and [sph_blake512_addbits_and_close] with
    [n] extra bits give the BLAKE-512 hash of the concatenated data, each
    block compressed under the counter of message bits seen so far (0 for a
    block of padding only). *)
Theorem sph_blake512_correct cc chunks ub n u :
  length (buf cc) = 128%nat → length u = 128%nat → (n < 8)%nat →
  bit_length (concat chunks) n < 2 ^ 128 →
  fst (sph_blake512_addbits_and_close (fold_left sph_blake512 chunks (sph_blake512_init cc)) ub n u)
  = blake_spec 8 IV512 salt_zero_big (concat chunks) ub n.
Proof.
  intros. rewrite <-(blake64_correct cc _ _ _ ub n 8 u) by done.
  unfold sph_blake512_addbits_and_close. by destruct (blake64_close _ _ _ _ _).
Qed.

(** ** The two shapes of the compression function *)

Lemma GB_at_ext p q x i j k l M V :
  p x = q x → p (S x) = q (S x) → GB_at p x i j k l M V = GB_at q x i j k l M V.
Proof. intros E1 E2. unfold GB_at. by rewrite E1, E2. Qed.

Lemma round_with_ext p q M V :
  (∀ i, (i < 16)%nat → p i = q i) → round_with p M V = round_with q M V.
Proof. intros E. unfold round_with. cbv zeta. by rewrite !(GB_at_ext p q) by (apply E; lia). Qed.

Lemma rounds_agree r M V :
  (r < 16)%nat → ROUND_B_compact r M V = ROUND_B (r mod 10) M V.
Proof.
  intros Hr. symmetry. apply round_with_ext. intros i Hi.
  assert (Hall : forallb (λ r, forallb (λ i,
    (perm_at Zri (r mod 10) i =? perm_at sigma r i)%nat) (seq 0 16)) (seq 0 16) = true)
    by by vm_compute.
  rewrite forallb_forall in Hall. specialize (Hall r). rewrite in_seq in Hall.
  specialize (Hall ltac:(lia)). rewrite forallb_forall in Hall.
  apply Nat.eqb_eq, Hall, in_seq. lia.
Qed.

Lemma unroll16 (R : nat → list Z → list Z) V :
  R 5%nat (R 4%nat (R 3%nat (R 2%nat (R 1%nat (R 0%nat
    (R 9%nat (R 8%nat (R 7%nat (R 6%nat (R 5%nat (R 4%nat (R 3%nat (R 2%nat (R 1%nat
    (R 0%nat V))))))))))))))) =
  fold_left (λ V r, R (r mod 10)%nat V) (seq 0 16) V.
Proof. reflexivity. Qed.

(** The unrolled and the compact form agree. *)
Lemma COMPRESS64_unrolled_compact b s : COMPRESS64 b s = COMPRESS64_compact b s.
Proof.
  pose proof (unroll16 (λ r V, ROUND_B r (load_M b) V) (init_V s)) as E. cbv beta in E.
  unfold COMPRESS64, COMPRESS64_compact. cbv zeta. rewrite E.
  apply (f_equal (finish_V s)), fold_left_ext_in. intros V r Hr%in_seq.
  symmetry. apply rounds_agree. lia.
Qed.

End Blake.
