(* ===== verification/Bmw.v ===== *)
(** * BMW (Blue Midnight Wish): crypto/x11/bmw.c, sph_bmw.h

    The second hash of the X11 chain.  The 32-bit and the 64-bit functions of
    the file are the same macros over a word type ([FOLD(type, ...)]); the
    section [Words] is that common text, instantiated by the [s]-suffixed and
    [b]-suffixed definitions.  The default (unrolled) and the small-footprint
    forms of the message expansion are both here. *)
From S2P Require Import Prelude SphTypes Stream Padding.

Module Bmw.

(** ** Constants *)

Definition IV224 : list Z :=
  [0x00010203; 0x04050607; 0x08090A0B; 0x0C0D0E0F; 0x10111213; 0x14151617;
   0x18191A1B; 0x1C1D1E1F; 0x20212223; 0x24252627; 0x28292A2B; 0x2C2D2E2F;
   0x30313233; 0x34353637; 0x38393A3B; 0x3C3D3E3F].
Definition IV256 : list Z :=
  [0x40414243; 0x44454647; 0x48494A4B; 0x4C4D4E4F; 0x50515253; 0x54555657;
   0x58595A5B; 0x5C5D5E5F; 0x60616263; 0x64656667; 0x68696A6B; 0x6C6D6E6F;
   0x70717273; 0x74757677; 0x78797A7B; 0x7C7D7E7F].
Definition IV384 : list Z :=
  [0x0001020304050607; 0x08090A0B0C0D0E0F; 0x1011121314151617; 0x18191A1B1C1D1E1F;
   0x2021222324252627; 0x28292A2B2C2D2E2F; 0x3031323334353637; 0x38393A3B3C3D3E3F;
   0x4041424344454647; 0x48494A4B4C4D4E4F; 0x5051525354555657; 0x58595A5B5C5D5E5F;
   0x6061626364656667; 0x68696A6B6C6D6E6F; 0x7071727374757677; 0x78797A7B7C7D7E7F].
Definition IV512 : list Z :=
  [0x8081828384858687; 0x88898A8B8C8D8E8F; 0x9091929394959697; 0x98999A9B9C9D9E9F;
   0xA0A1A2A3A4A5A6A7; 0xA8A9AAABACADAEAF; 0xB0B1B2B3B4B5B6B7; 0xB8B9BABBBCBDBEBF;
   0xC0C1C2C3C4C5C6C7; 0xC8C9CACBCCCDCECF; 0xD0D1D2D3D4D5D6D7; 0xD8D9DADBDCDDDEDF;
   0xE0E1E2E3E4E5E6E7; 0xE8E9EAEBECEDEEEF; 0xF0F1F2F3F4F5F6F7; 0xF8F9FAFBFCFDFEFF].

(** [M16_16] to [M16_31]: the message indices [j], [j+3], [j+7], [j+10] and
    the rotation counts of [expand1] and [expand2]. *)
Definition M16 : list (list nat) :=
  [[ 0;  1;  3;  4;  7; 10; 11];
   [ 1;  2;  4;  5;  8; 11; 12];
   [ 2;  3;  5;  6;  9; 12; 13];
   [ 3;  4;  6;  7; 10; 13; 14];
   [ 4;  5;  7;  8; 11; 14; 15];
   [ 5;  6;  8;  9; 12; 15; 16];
   [ 6;  7;  9; 10; 13;  0;  1];
   [ 7;  8; 10; 11; 14;  1;  2];
   [ 8;  9; 11; 12; 15;  2;  3];
   [ 9; 10; 12; 13;  0;  3;  4];
   [10; 11; 13; 14;  1;  4;  5];
   [11; 12; 14; 15;  2;  5;  6];
   [12; 13; 15; 16;  3;  6;  7];
   [13; 14;  0;  1;  4;  7;  8];
   [14; 15;  1;  2;  5;  8;  9];
   [15; 16;  2;  3;  6;  9; 10]]%nat.

(** ** The functions [ss0..rs7] and [sb0..rb7] *)

Definition ss0 x := (x ≫ 1) ^^ SPH_T32 (x ≪ 3) ^^ SPH_ROTL32 x  4 ^^ SPH_ROTL32 x 19.
Definition ss1 x := (x ≫ 1) ^^ SPH_T32 (x ≪ 2) ^^ SPH_ROTL32 x  8 ^^ SPH_ROTL32 x 23.
Definition ss2 x := (x ≫ 2) ^^ SPH_T32 (x ≪ 1) ^^ SPH_ROTL32 x 12 ^^ SPH_ROTL32 x 25.
Definition ss3 x := (x ≫ 2) ^^ SPH_T32 (x ≪ 2) ^^ SPH_ROTL32 x 15 ^^ SPH_ROTL32 x 29.
Definition ss4 x := (x ≫ 1) ^^ x.
Definition ss5 x := (x ≫ 2) ^^ x.
Definition rs (i : nat) (x : Z) : Z := SPH_ROTL32 x ([0; 3; 7; 13; 16; 19; 23; 27] @@ i).
Definition Ks (j : Z) : Z := SPH_T32 (j * 0x05555555).

Definition sb0 x := (x ≫ 1) ^^ SPH_T64 (x ≪ 3) ^^ SPH_ROTL64 x  4 ^^ SPH_ROTL64 x 37.
Definition sb1 x := (x ≫ 1) ^^ SPH_T64 (x ≪ 2) ^^ SPH_ROTL64 x 13 ^^ SPH_ROTL64 x 43.
Definition sb2 x := (x ≫ 2) ^^ SPH_T64 (x ≪ 1) ^^ SPH_ROTL64 x 19 ^^ SPH_ROTL64 x 53.
Definition sb3 x := (x ≫ 2) ^^ SPH_T64 (x ≪ 2) ^^ SPH_ROTL64 x 28 ^^ SPH_ROTL64 x 59.
Definition sb4 x := (x ≫ 1) ^^ x.
Definition sb5 x := (x ≫ 2) ^^ x.
Definition rb (i : nat) (x : Z) : Z := SPH_ROTL64 x ([0; 5; 11; 27; 32; 37; 43; 53] @@ i).
Definition Kb (j : Z) : Z := SPH_T64 (j * 0x0555555555555555).

(** ** The macros common to both word sizes *)

Section Words.
  Context (tt : Z → Z) (rol : Z → Z → Z) (s0 s1 s2 s3 s4 s5 : Z → Z)
          (r : nat → Z → Z) (K : Z → Z).

(** [MAKE_W]: a signed sum of five [M(i) ^ H(i)]. *)
Definition MAKE_W (M H : list Z) (i0 : nat) (op01 : Z) (i1 : nat) (op12 : Z) (i2 : nat)
    (op23 : Z) (i3 : nat) (op34 : Z) (i4 : nat) : Z :=
  tt ((M @@ i0 ^^ H @@ i0) + op01 * (M @@ i1 ^^ H @@ i1) + op12 * (M @@ i2 ^^ H @@ i2)
      + op23 * (M @@ i3 ^^ H @@ i3) + op34 * (M @@ i4 ^^ H @@ i4)).

Definition make_Ws (M H : list Z) : list Z :=
  [MAKE_W M H 5 (-1) 7 1 10 1 13 1 14;
   MAKE_W M H 6 (-1) 8 1 11 1 14 (-1) 15;
   MAKE_W M H 0 1 7 1 9 (-1) 12 1 15;
   MAKE_W M H 0 (-1) 1 1 8 (-1) 10 1 13;
   MAKE_W M H 1 1 2 1 9 (-1) 11 (-1) 14;
   MAKE_W M H 3 (-1) 2 1 10 (-1) 12 1 15;
   MAKE_W M H 4 (-1) 0 (-1) 3 (-1) 11 1 13;
   MAKE_W M H 1 (-1) 4 (-1) 5 (-1) 12 (-1) 14;
   MAKE_W M H 2 (-1) 5 (-1) 6 1 13 (-1) 15;
   MAKE_W M H 0 (-1) 3 1 6 (-1) 7 1 14;
   MAKE_W M H 8 (-1) 1 (-1) 4 (-1) 7 1 15;
   MAKE_W M H 8 (-1) 0 (-1) 2 (-1) 5 1 9;
   MAKE_W M H 1 1 3 (-1) 6 (-1) 9 1 10;
   MAKE_W M H 2 1 4 1 7 1 10 1 11;
   MAKE_W M H 3 (-1) 5 1 8 (-1) 11 (-1) 12;
   MAKE_W M H 12 (-1) 4 (-1) 6 (-1) 9 1 13].

(** [MAKE_Qa]: the first sixteen words of the quadrupled pipe. *)
Definition MAKE_Qa (M H : list Z) : list Z :=
  let W := make_Ws M H in
  [tt (s0 (W @@ 0) + H @@ 1);
   tt (s1 (W @@ 1) + H @@ 2);
   tt (s2 (W @@ 2) + H @@ 3);
   tt (s3 (W @@ 3) + H @@ 4);
   tt (s4 (W @@ 4) + H @@ 5);
   tt (s0 (W @@ 5) + H @@ 6);
   tt (s1 (W @@ 6) + H @@ 7);
   tt (s2 (W @@ 7) + H @@ 8);
   tt (s3 (W @@ 8) + H @@ 9);
   tt (s4 (W @@ 9) + H @@ 10);
   tt (s0 (W @@ 10) + H @@ 11);
   tt (s1 (W @@ 11) + H @@ 12);
   tt (s2 (W @@ 12) + H @@ 13);
   tt (s3 (W @@ 13) + H @@ 14);
   tt (s4 (W @@ 14) + H @@ 15);
   tt (s0 (W @@ 15) + H @@ 0)].

(** [add_elt(mf, hf, j0m, j1m, j3m, j4m, j7m, j10m, j11m, j16)], with the
    indices of row [M16_(j16)]. *)
Definition add_elt (M H : list Z) (m : list nat) (j16 : nat) : Z :=
  let m i := nth i m 0%nat in
  tt (rol (M @@ m 0%nat) (Z.of_nat (m 1%nat)) + rol (M @@ m 2%nat) (Z.of_nat (m 3%nat))
      - rol (M @@ m 5%nat) (Z.of_nat (m 6%nat)) + K (Z.of_nat j16)) ^^ H @@ m 4%nat.

(** [expand1] and [expand2] at [i16]: [q i] is [qf(i16 - 16 + i)]. *)
Definition expand1_sum (q : nat → Z) (e : Z) : Z :=
  tt (s1 (q 0%nat) + s2 (q 1%nat) + s3 (q 2%nat) + s0 (q 3%nat)
      + s1 (q 4%nat) + s2 (q 5%nat) + s3 (q 6%nat) + s0 (q 7%nat)
      + s1 (q 8%nat) + s2 (q 9%nat) + s3 (q 10%nat) + s0 (q 11%nat)
      + s1 (q 12%nat) + s2 (q 13%nat) + s3 (q 14%nat) + s0 (q 15%nat) + e).

Definition expand2_sum (q : nat → Z) (e : Z) : Z :=
  tt (q 0%nat + r 1 (q 1%nat) + q 2%nat + r 2 (q 3%nat)
      + q 4%nat + r 3 (q 5%nat) + q 6%nat + r 4 (q 7%nat)
      + q 8%nat + r 5 (q 9%nat) + q 10%nat + r 6 (q 11%nat)
      + q 12%nat + r 7 (q 13%nat) + s4 (q 14%nat) + s5 (q 15%nat) + e).

Definition expand1 (qt M H : list Z) (i16 : nat) : Z :=
  expand1_sum (λ i, qt @@ (i16 - 16 + i)) (add_elt M H (nth (i16 - 16) M16 []) i16).

Definition expand2 (qt M H : list Z) (i16 : nat) : Z :=
  expand2_sum (λ i, qt @@ (i16 - 16 + i)) (add_elt M H (nth (i16 - 16) M16 []) i16).

(** [MAKE_Qb]: [qt[16]] and [qt[17]] by [expand1], the others by [expand2]. *)
Definition MAKE_Qb (M H qt : list Z) : list Z :=
  let qt := fold_left (λ qt i, qt ++ [expand1 qt M H i]) [16; 17]%nat qt in
  fold_left (λ qt i, qt ++ [expand2 qt M H i])
    [18; 19; 20; 21; 22; 23; 24; 25; 26; 27; 28; 29; 30; 31]%nat qt.

(** [FOLD]: the new chaining value [dh]. *)
Definition FOLD (mkQ : list Z → list Z → list Z) (M H : list Z) : list Z :=
  let shl x n := tt (x ≪ n) in
  let q := mkQ M H in
  let xl := q @@ 16 ^^ q @@ 17 ^^ q @@ 18 ^^ q @@ 19
            ^^ q @@ 20 ^^ q @@ 21 ^^ q @@ 22 ^^ q @@ 23 in
  let xh := xl ^^ q @@ 24 ^^ q @@ 25 ^^ q @@ 26 ^^ q @@ 27
            ^^ q @@ 28 ^^ q @@ 29 ^^ q @@ 30 ^^ q @@ 31 in
  let d0 := tt ((shl xh 5 ^^ ((q @@ 16) ≫ 5) ^^ M @@ 0) + (xl ^^ q @@ 24 ^^ q @@ 0)) in
  let d1 := tt (((xh ≫ 7) ^^ shl (q @@ 17) 8 ^^ M @@ 1) + (xl ^^ q @@ 25 ^^ q @@ 1)) in
  let d2 := tt (((xh ≫ 5) ^^ shl (q @@ 18) 5 ^^ M @@ 2) + (xl ^^ q @@ 26 ^^ q @@ 2)) in
  let d3 := tt (((xh ≫ 1) ^^ shl (q @@ 19) 5 ^^ M @@ 3) + (xl ^^ q @@ 27 ^^ q @@ 3)) in
  let d4 := tt (((xh ≫ 3) ^^ shl (q @@ 20) 0 ^^ M @@ 4) + (xl ^^ q @@ 28 ^^ q @@ 4)) in
  let d5 := tt ((shl xh 6 ^^ ((q @@ 21) ≫ 6) ^^ M @@ 5) + (xl ^^ q @@ 29 ^^ q @@ 5)) in
  let d6 := tt (((xh ≫ 4) ^^ shl (q @@ 22) 6 ^^ M @@ 6) + (xl ^^ q @@ 30 ^^ q @@ 6)) in
  let d7 := tt (((xh ≫ 11) ^^ shl (q @@ 23) 2 ^^ M @@ 7) + (xl ^^ q @@ 31 ^^ q @@ 7)) in
  let d8 := tt (rol d4 9 + (xh ^^ q @@ 24 ^^ M @@ 8) + (shl xl 8 ^^ q @@ 23 ^^ q @@ 8)) in
  let d9 := tt (rol d5 10 + (xh ^^ q @@ 25 ^^ M @@ 9) + ((xl ≫ 6) ^^ q @@ 16 ^^ q @@ 9)) in
  let d10 := tt (rol d6 11 + (xh ^^ q @@ 26 ^^ M @@ 10) + (shl xl 6 ^^ q @@ 17 ^^ q @@ 10)) in
  let d11 := tt (rol d7 12 + (xh ^^ q @@ 27 ^^ M @@ 11) + (shl xl 4 ^^ q @@ 18 ^^ q @@ 11)) in
  let d12 := tt (rol d0 13 + (xh ^^ q @@ 28 ^^ M @@ 12) + ((xl ≫ 3) ^^ q @@ 19 ^^ q @@ 12)) in
  let d13 := tt (rol d1 14 + (xh ^^ q @@ 29 ^^ M @@ 13) + ((xl ≫ 4) ^^ q @@ 20 ^^ q @@ 13)) in
  let d14 := tt (rol d2 15 + (xh ^^ q @@ 30 ^^ M @@ 14) + ((xl ≫ 7) ^^ q @@ 21 ^^ q @@ 14)) in
  let d15 := tt (rol d3 16 + (xh ^^ q @@ 31 ^^ M @@ 15) + ((xl ≫ 2) ^^ q @@ 22 ^^ q @@ 15)) in
  [d0; d1; d2; d3; d4; d5; d6; d7; d8; d9; d10; d11; d12; d13; d14; d15].

(** ** The small-footprint expansion: indices computed modulo 16 *)

Definition rol_off (M : list Z) (j off : nat) : Z :=
  let i := Nat.land (j + off) 15 in rol (M @@ i) (Z.of_nat (i + 1)).

Definition add_elt_small (M H : list Z) (j : nat) : Z :=
  tt (rol_off M j 0 + rol_off M j 3 - rol_off M j 10
      + (K <$> [16; 17; 18; 19; 20; 21; 22; 23; 24; 25; 26; 27; 28; 29; 30; 31]) @@ j)
  ^^ H @@ Nat.land (j + 7) 15.

Definition MAKE_Qb_small (M H qt : list Z) : list Z :=
  let qt := fold_left (λ qt u,
    qt ++ [expand1_sum (λ i, qt @@ (u - 16 + i)) (add_elt_small M H (u - 16))])
    (seq 16 2) qt in
  fold_left (λ qt u,
    qt ++ [expand2_sum (λ i, qt @@ (u - 16 + i)) (add_elt_small M H (u - 16))])
    (seq 18 14) qt.

Definition MAKE_Qa_small (M H : list Z) : list Z :=
  let W := make_Ws M H in
  concat ((λ u, [tt (s0 (W @@ u) + H @@ (u + 1)); tt (s1 (W @@ (u + 1)) + H @@ (u + 2));
    tt (s2 (W @@ (u + 2)) + H @@ (u + 3)); tt (s3 (W @@ (u + 3)) + H @@ (u + 4));
    tt (s4 (W @@ (u + 4)) + H @@ (u + 5))]) <$> [0; 5; 10]%nat)
  ++ [tt (s0 (W @@ 15) + H @@ 0)].
End Words.

(** ** The 32-bit and 64-bit compression functions *)

Definition MAKE_Qs (M H : list Z) : list Z :=
  MAKE_Qb SPH_T32 SPH_ROTL32 ss0 ss1 ss2 ss3 ss4 ss5 rs Ks M H
    (MAKE_Qa SPH_T32 ss0 ss1 ss2 ss3 ss4 M H).
Definition MAKE_Qbig (M H : list Z) : list Z :=
  MAKE_Qb SPH_T64 SPH_ROTL64 sb0 sb1 sb2 sb3 sb4 sb5 rb Kb M H
    (MAKE_Qa SPH_T64 sb0 sb1 sb2 sb3 sb4 M H).
Definition MAKE_Qbig_small (M H : list Z) : list Z :=
  MAKE_Qb_small SPH_T64 SPH_ROTL64 sb0 sb1 sb2 sb3 sb4 sb5 rb Kb M H
    (MAKE_Qa_small SPH_T64 sb0 sb1 sb2 sb3 sb4 M H).

Definition compress_small (data h : list Z) : list Z :=
  let M := (λ x, sph_dec32le_aligned (drop (4 * x) data)) <$> seq 0 16 in
  FOLD SPH_T32 SPH_ROTL32 MAKE_Qs M h.

Definition compress_big (data h : list Z) : list Z :=
  let M := (λ x, sph_dec64le_aligned (drop (8 * x) data)) <$> seq 0 16 in
  FOLD SPH_T64 SPH_ROTL64 MAKE_Qbig M h.

(** [compress_big] of a build with [SPH_SMALL_FOOTPRINT_BMW]. *)
Definition compress_big_small (data h : list Z) : list Z :=
  let M := (λ x, sph_dec64le_aligned (drop (8 * x) data)) <$> seq 0 16 in
  FOLD SPH_T64 SPH_ROTL64 MAKE_Qbig_small M h.

Definition final_s : list Z :=
  [0xaaaaaaa0; 0xaaaaaaa1; 0xaaaaaaa2; 0xaaaaaaa3; 0xaaaaaaa4; 0xaaaaaaa5; 0xaaaaaaa6; 0xaaaaaaa7;
   0xaaaaaaa8; 0xaaaaaaa9; 0xaaaaaaaa; 0xaaaaaaab; 0xaaaaaaac; 0xaaaaaaad; 0xaaaaaaae; 0xaaaaaaaf].

Definition final_b : list Z :=
  [0xaaaaaaaaaaaaaaa0; 0xaaaaaaaaaaaaaaa1; 0xaaaaaaaaaaaaaaa2; 0xaaaaaaaaaaaaaaa3;
   0xaaaaaaaaaaaaaaa4; 0xaaaaaaaaaaaaaaa5; 0xaaaaaaaaaaaaaaa6; 0xaaaaaaaaaaaaaaa7;
   0xaaaaaaaaaaaaaaa8; 0xaaaaaaaaaaaaaaa9; 0xaaaaaaaaaaaaaaaa; 0xaaaaaaaaaaaaaaab;
   0xaaaaaaaaaaaaaaac; 0xaaaaaaaaaaaaaaad; 0xaaaaaaaaaaaaaaae; 0xaaaaaaaaaaaaaaaf].

(** ** The context and its operations

    [sph_bmw_small_context] and [sph_bmw_big_context] differ in the buffer
    size and the word type; [bmw32], [bmw32_close] and [bmw64], [bmw64_close]
    are the same code over them. *)

Record sph_bmw_context := mk_ctx {
  buf : list Z; ptr : nat; H : list Z; bit_count : Z }.

(** The two arrays the update loop alternates between: the context's [H] and
    the local [htmp]; [on_tmp] tells which of them [h1] points to. *)
Record hpair := mk_hpair { scH : list Z; htmp : list Z; on_tmp : bool }.

Definition h1 (p : hpair) : list Z := if on_tmp p then htmp p else scH p.

Section Context_ops.
  Context (BUF : nat) (enc : Z → list Z) (compress : list Z → list Z → list Z)
          (final : list Z).

Definition bmw_init (sc : sph_bmw_context) (iv : list Z) : sph_bmw_context :=
  mk_ctx (buf sc) 0 iv 0.

(** [compress(buf, h1, h2)], then [h1] and [h2] swapped. *)
Definition bmw_block (b : list Z) (p : hpair) : hpair :=
  let dh := compress b (h1 p) in
  if on_tmp p then mk_hpair dh (htmp p) false else mk_hpair (scH p) dh true.

(** [htmp] starts uninitialised; its first use is as a destination. *)
Definition bmw_update (sc : sph_bmw_context) (data : list Z) : sph_bmw_context :=
  let bc := SPH_T64 (bit_count sc + SPH_T64 (Z.of_nat (length data) ≪ 3)) in
  let '(b, p, h) :=
    absorb_loop BUF bmw_block (length data) (buf sc) (ptr sc) data
      (mk_hpair (H sc) [] false) in
  mk_ctx b p (if on_tmp h then htmp h else scH h) bc.

Definition bmw_close (sc : sph_bmw_context) (ub : Z) (n out_size : nat)
    : list Z * sph_bmw_context :=
  let '(b, h2) :=
    md_close BUF 8 compress (buf sc) (ptr sc) (pad_byte ub n)
      (sph_enc64le_aligned (SPH_T64 (bit_count sc + Z.of_nat n))) (H sc) in
  let b := memcpy b 0 (concat ((λ u, enc (h2 @@ u)) <$> seq 0 16)) in
  let h1 := compress b final in
  (concat ((λ u, enc (h1 @@ (16 - out_size + u))) <$> seq 0 out_size),
   mk_ctx b (ptr sc) (H sc) (bit_count sc)).

(** ** Specification *)

Definition bmw_spec (iv msg : list Z) (ub : Z) (n out_size : nat) : list Z :=
  let padded := msg ++ md_padding BUF 8 (pad_byte ub n)
                         (le_split 8 (bit_length msg n)) (length msg) in
  let h := run compress (full_blocks BUF padded) iv in
  let f := compress (concat ((λ u, enc (h @@ u)) <$> seq 0 16)) final in
  concat ((λ u, enc (f @@ (16 - out_size + u))) <$> seq 0 out_size).

(** ** Correctness *)

Definition ctx_ok (sc : sph_bmw_context) : Prop := buf_ok BUF (buf sc) (ptr sc).
Definition cview (sc : sph_bmw_context) : list Z * list Z := (take (ptr sc) (buf sc), H sc).

(** Alternating the two arrays computes the plain fold. *)
Lemma h1_block b p : h1 (bmw_block b p) = compress b (h1 p).
Proof. unfold bmw_block, h1. by destruct (on_tmp p). Qed.

Lemma absorb_h1 pend p data :
  let '(pend', p') := absorb BUF bmw_block (pend, p) data in
  (pend', h1 p') = absorb BUF compress (pend, h1 p) data.
Proof.
  revert pend p. induction data as [|b data IH]; intros pend p; [done|].
  unfold absorb in *. simpl. destruct (_ =? BUF)%nat; [|apply IH].
  rewrite <-h1_block. apply IH.
Qed.

Lemma bmw_update_view sc data :
  ctx_ok sc →
  ctx_ok (bmw_update sc data) ∧
  cview (bmw_update sc data) = absorb BUF compress (cview sc) data.
Proof.
  intros Hok. unfold bmw_update, cview.
  destruct (absorb_loop_spec BUF bmw_block (length data) (buf sc) (ptr sc) data
    (mk_hpair (H sc) [] false)) as [Ho Hv]; [done..|].
  pose proof (absorb_h1 (take (ptr sc) (buf sc)) (mk_hpair (H sc) [] false) data) as Ha.
  destruct (absorb_loop _ _ _ _ _ _ _) as [[b p] h]. simpl in Hv. rewrite <-Hv in Ha.
  split; [done|]. exact Ha.
Qed.

Lemma bmw_update_count chunks sc :
  word 64 (bit_count sc) →
  bit_count (fold_left bmw_update chunks sc) =
  SPH_T64 (bit_count sc + 8 * Z.of_nat (length (concat chunks))).
Proof.
  revert sc. induction chunks as [|d chunks IH]; intros sc Hw.
  { simpl. by rewrite Z.add_0_r, SPH_T64_id. }
  assert (E : bit_count (bmw_update sc d) = SPH_T64 (bit_count sc + 8 * Z.of_nat (length d))).
  { unfold bmw_update. destruct (absorb_loop _ _ _ _ _ _ _) as [[??]?]. simpl.
    rewrite !SPH_T64_mod, Z.shiftl_mul_pow2, Zplus_mod_idemp_r by lia.
    do 2 f_equal. lia. }
  simpl. rewrite IH, E by (rewrite E; apply word_T64).
  rewrite !SPH_T64_mod, Zplus_mod_idemp_l, length_app. f_equal. lia.
Qed.

Context (HB : (8 < BUF)%nat) (Henc : ∀ h, length (concat ((λ u, enc (h @@ u)) <$> seq 0 16)) = BUF).

Lemma bmw_correct cc iv chunks ub n out_size :
  length (buf cc) = BUF →
  fst (bmw_close (fold_left bmw_update chunks (bmw_init cc iv)) ub n out_size) =
  bmw_spec iv (concat chunks) ub n out_size.
Proof.
  intros Hb. set (msg := concat chunks).
  destruct (updates_view BUF compress bmw_update ctx_ok cview chunks (bmw_init cc iv))
    as [Hok Hv]; [apply bmw_update_view|by split; [|simpl; lia]|].
  pose proof (bmw_update_count chunks (bmw_init cc iv) ltac:(done)) as Hc.
  set (sc := fold_left _ _ _) in *. fold msg in Hv, Hc.
  change (cview (bmw_init cc iv)) with (@nil Z, iv) in Hv.
  rewrite absorb_message in Hv by lia. unfold bmw_close, bmw_spec. fold msg.
  assert (Ht : sph_enc64le_aligned (SPH_T64 (bit_count sc + Z.of_nat n)) =
               le_split 8 (bit_length msg n)).
  { rewrite Hc. simpl bit_count. rewrite !SPH_T64_mod, Zplus_mod_idemp_l.
    exact (le_split_mod 8 (bit_length msg n)). }
  rewrite Ht.
  destruct (md_close_run BUF 8 ltac:(lia) HB compress (buf sc) (ptr sc) (pad_byte ub n)
    (le_split 8 (bit_length msg n)) (H sc) Hok) as [Hr Hl]; [apply length_le_split|].
  destruct (md_close _ _ _ _ _ _ _ _) as [b h2]. cbn [fst snd] in *.
  assert (Hp : ptr sc = (length msg mod BUF)%nat).
  { apply (f_equal (λ v, length (fst v))) in Hv. cbn [cview fst] in Hv.
    destruct Hok as [Hlb Hlt]. rewrite length_take, length_rest in Hv by lia. lia. }
  apply (f_equal snd) in Hv as Hs. apply (f_equal fst) in Hv. cbn [cview fst snd] in Hs, Hv.
  rewrite Hv, Hs, Hp, md_padding_mod, <-run_app, <-full_blocks_pad in Hr by lia.
  subst h2. rewrite memcpy_full by (rewrite Henc; lia). done.
Qed.
End Context_ops.

(** ** The functions of the file *)

Definition bmw32_init := bmw_init.
Definition bmw32 := bmw_update 64 compress_small.
Definition bmw32_close := bmw_close 64 sph_enc32le_aligned compress_small final_s.

Definition bmw64_init := bmw_init.
Definition bmw64 := bmw_update 128 compress_big.
Definition bmw64_close := bmw_close 128 sph_enc64le_aligned compress_big final_b.

Definition sph_bmw224_init (cc : sph_bmw_context) := bmw32_init cc IV224.
Definition sph_bmw224 := bmw32.
Definition sph_bmw224_addbits_and_close (cc : sph_bmw_context) (ub : Z) (n : nat) :=
  let '(dst, cc) := bmw32_close cc ub n 7 in (dst, sph_bmw224_init cc).
Definition sph_bmw224_close (cc : sph_bmw_context) := sph_bmw224_addbits_and_close cc 0 0.

Definition sph_bmw256_init (cc : sph_bmw_context) := bmw32_init cc IV256.
Definition sph_bmw256 := bmw32.
Definition sph_bmw256_addbits_and_close (cc : sph_bmw_context) (ub : Z) (n : nat) :=
  let '(dst, cc) := bmw32_close cc ub n 8 in (dst, sph_bmw256_init cc).
Definition sph_bmw256_close (cc : sph_bmw_context) := sph_bmw256_addbits_and_close cc 0 0.

Definition sph_bmw384_init (cc : sph_bmw_context) := bmw64_init cc IV384.
Definition sph_bmw384 := bmw64.
Definition sph_bmw384_addbits_and_close (cc : sph_bmw_context) (ub : Z) (n : nat) :=
  let '(dst, cc) := bmw64_close cc ub n 6 in (dst, sph_bmw384_init cc).
Definition sph_bmw384_close (cc : sph_bmw_context) := sph_bmw384_addbits_and_close cc 0 0.

Definition sph_bmw512_init (cc : sph_bmw_context) := bmw64_init cc IV512.
Definition sph_bmw512 := bmw64.
Definition sph_bmw512_addbits_and_close (cc : sph_bmw_context) (ub : Z) (n : nat) :=
  let '(dst, cc) := bmw64_close cc ub n 8 in (dst, sph_bmw512_init cc).
Definition sph_bmw512_close (cc : sph_bmw_context) := sph_bmw512_addbits_and_close cc 0 0.

(** ** Correctness of the functions *)

(** BMW-512 over its streaming interface: initialise, update with any
    sequence of chunks, close with [n] extra bits gives the hash of the
    concatenated data; the alternation of the update loop between the
    context's array and its local copy computes the plain iteration of the
    compression function. *)
Theorem sph_bmw512_correct cc chunks ub n :
  length (buf cc) = 128%nat →
  fst (sph_bmw512_addbits_and_close (fold_left sph_bmw512 chunks (sph_bmw512_init cc)) ub n) =
  bmw_spec 128 sph_enc64le_aligned compress_big final_b IV512 (concat chunks) ub n 8.
Proof.
  intros Hb.
  pose proof (bmw_correct 128 sph_enc64le_aligned compress_big final_b ltac:(lia)
    ltac:(intros; apply (length_concat_map _ 8); intros; apply length_le_split)
    cc IV512 chunks ub n 8 Hb) as E.
  rewrite <-E. unfold sph_bmw512_addbits_and_close, bmw64_close.
  by destruct (bmw_close _ _ _ _ _ _ _ _).
Qed.

(** ** The small-footprint expansion *)

Section Small.
  Context (tt : Z → Z) (rol : Z → Z → Z) (s0 s1 s2 s3 s4 s5 : Z → Z)
          (r : nat → Z → Z) (K : Z → Z).

(** Row [M16_j] holds the indices and rotation counts the small form computes
    modulo 16. *)
Lemma add_elt_rows M H j :
  (j < 16)%nat →
  add_elt tt rol K M H (nth j M16 []) (j + 16) = add_elt_small tt rol K M H j.
Proof. intros Hj. do 16 (destruct j as [|j]; [reflexivity|]). lia. Qed.

Lemma MAKE_Qb_equal M H qt :
  MAKE_Qb tt rol s0 s1 s2 s3 s4 s5 r K M H qt =
  MAKE_Qb_small tt rol s0 s1 s2 s3 s4 s5 r K M H qt.
Proof.
  assert (E : ∀ i, (16 <= i < 32)%nat →
    add_elt tt rol K M H (nth (i - 16) M16 []) i = add_elt_small tt rol K M H (i - 16)).
  { intros i Hi. rewrite <-add_elt_rows by lia. f_equal. lia. }
  unfold MAKE_Qb, MAKE_Qb_small.
  change [16; 17]%nat with (seq 16 2).
  change [18; 19; 20; 21; 22; 23; 24; 25; 26; 27; 28; 29; 30; 31]%nat with (seq 18 14).
  rewrite (fold_left_ext_in (λ qt i, qt ++ [expand1 tt rol s0 s1 s2 s3 K qt M H i])
    (λ qt u, qt ++ [expand1_sum tt s0 s1 s2 s3 (λ i, qt @@ (u - 16 + i))
      (add_elt_small tt rol K M H (u - 16))])).
  - apply fold_left_ext_in. intros q i Hi%in_seq. unfold expand2. by rewrite E by lia.
  - intros q i Hi%in_seq. unfold expand1. by rewrite E by lia.
Qed.
End Small.

Lemma FOLD_ext tt rol f g M H :
  f M H = g M H → FOLD tt rol f M H = FOLD tt rol g M H.
Proof. intros E. unfold FOLD. cbv zeta. by rewrite E. Qed.

(** The default and the small-footprint form agree. *)
Lemma compress_big_small_footprint data h :
  compress_big data h = compress_big_small data h.
Proof.
  unfold compress_big, compress_big_small, MAKE_Qbig, MAKE_Qbig_small. cbv zeta.
  apply (FOLD_ext SPH_T64 SPH_ROTL64), MAKE_Qb_equal.
Qed.

End Bmw.
