(* ===== verification/Keccak.v ===== *)
(** * Keccak: crypto/x11/keccak.c, sph_keccak.h

    The sixth hash of the X11 chain, in the 64-bit form ([SPH_KECCAK_64],
    state not copied).  The code works on 25 lanes [a00..a44] under 24 renamings
    [P0..P23] that stand for the [pi] step, keeps six lanes complemented, and
    unrolls the 24 rounds by a configurable count.  The theorems relate all of
    this to Keccak-f[1600] and the sponge as FIPS 202 states them (with
    Keccak's original padding). *)
From S2P Require Import Prelude SphTypes Stream Padding.

Module Keccak.

(** ** Data *)

Definition RC : list Z :=
  [0x0000000000000001; 0x0000000000008082; 0x800000000000808A; 0x8000000080008000;
   0x000000000000808B; 0x0000000080000001; 0x8000000080008081; 0x8000000000008009;
   0x000000000000008A; 0x0000000000000088; 0x0000000080008009; 0x000000008000000A;
   0x000000008000808B; 0x800000000000008B; 0x8000000000008089; 0x8000000000008003;
   0x8000000000008002; 0x8000000000000080; 0x000000000000800A; 0x800000008000000A;
   0x8000000080008081; 0x8000000000008080; 0x0000000080000001; 0x8000000080008008].

(** The lane [a_xy], written as the two-digit number [xy], is [wide[x + 5 * y]]. *)
Definition lane (xy : nat) : nat := (xy / 10 + 5 * (xy mod 10))%nat.

(** The renamings [P0..P23], in the order of the macro parameters
    [b00, b01, b02, b03, b04, b10, ..., b44]. *)
Definition P : list (list nat) :=
  map (map lane)
  [[00; 01; 02; 03; 04; 10; 11; 12; 13; 14; 20; 21; 22;
    23; 24; 30; 31; 32; 33; 34; 40; 41; 42; 43; 44];
   [00; 30; 10; 40; 20; 11; 41; 21; 01; 31; 22; 02; 32;
    12; 42; 33; 13; 43; 23; 03; 44; 24; 04; 34; 14];
   [00; 33; 11; 44; 22; 41; 24; 02; 30; 13; 32; 10; 43;
    21; 04; 23; 01; 34; 12; 40; 14; 42; 20; 03; 31];
   [00; 23; 41; 14; 32; 24; 42; 10; 33; 01; 43; 11; 34;
    02; 20; 12; 30; 03; 21; 44; 31; 04; 22; 40; 13];
   [00; 12; 24; 31; 43; 42; 04; 11; 23; 30; 34; 41; 03;
    10; 22; 21; 33; 40; 02; 14; 13; 20; 32; 44; 01];
   [00; 21; 42; 13; 34; 04; 20; 41; 12; 33; 03; 24; 40;
    11; 32; 02; 23; 44; 10; 31; 01; 22; 43; 14; 30];
   [00; 02; 04; 01; 03; 20; 22; 24; 21; 23; 40; 42; 44;
    41; 43; 10; 12; 14; 11; 13; 30; 32; 34; 31; 33];
   [00; 10; 20; 30; 40; 22; 32; 42; 02; 12; 44; 04; 14;
    24; 34; 11; 21; 31; 41; 01; 33; 43; 03; 13; 23];
   [00; 11; 22; 33; 44; 32; 43; 04; 10; 21; 14; 20; 31;
    42; 03; 41; 02; 13; 24; 30; 23; 34; 40; 01; 12];
   [00; 41; 32; 23; 14; 43; 34; 20; 11; 02; 31; 22; 13;
    04; 40; 24; 10; 01; 42; 33; 12; 03; 44; 30; 21];
   [00; 24; 43; 12; 31; 34; 03; 22; 41; 10; 13; 32; 01;
    20; 44; 42; 11; 30; 04; 23; 21; 40; 14; 33; 02];
   [00; 42; 34; 21; 13; 03; 40; 32; 24; 11; 01; 43; 30;
    22; 14; 04; 41; 33; 20; 12; 02; 44; 31; 23; 10];
   [00; 04; 03; 02; 01; 40; 44; 43; 42; 41; 30; 34; 33;
    32; 31; 20; 24; 23; 22; 21; 10; 14; 13; 12; 11];
   [00; 20; 40; 10; 30; 44; 14; 34; 04; 24; 33; 03; 23;
    43; 13; 22; 42; 12; 32; 02; 11; 31; 01; 21; 41];
   [00; 22; 44; 11; 33; 14; 31; 03; 20; 42; 23; 40; 12;
    34; 01; 32; 04; 21; 43; 10; 41; 13; 30; 02; 24];
   [00; 32; 14; 41; 23; 31; 13; 40; 22; 04; 12; 44; 21;
    03; 30; 43; 20; 02; 34; 11; 24; 01; 33; 10; 42];
   [00; 43; 31; 24; 12; 13; 01; 44; 32; 20; 21; 14; 02;
    40; 33; 34; 22; 10; 03; 41; 42; 30; 23; 11; 04];
   [00; 34; 13; 42; 21; 01; 30; 14; 43; 22; 02; 31; 10;
    44; 23; 03; 32; 11; 40; 24; 04; 33; 12; 41; 20];
   [00; 03; 01; 04; 02; 30; 33; 31; 34; 32; 10; 13; 11;
    14; 12; 40; 43; 41; 44; 42; 20; 23; 21; 24; 22];
   [00; 40; 30; 20; 10; 33; 23; 13; 03; 43; 11; 01; 41;
    31; 21; 44; 34; 24; 14; 04; 22; 12; 02; 42; 32];
   [00; 44; 33; 22; 11; 23; 12; 01; 40; 34; 41; 30; 24;
    13; 02; 14; 03; 42; 31; 20; 32; 21; 10; 04; 43];
   [00; 14; 23; 32; 41; 12; 21; 30; 44; 03; 24; 33; 42;
    01; 10; 31; 40; 04; 13; 22; 43; 02; 11; 20; 34];
   [00; 31; 12; 43; 24; 21; 02; 33; 14; 40; 42; 23; 04;
    30; 11; 13; 44; 20; 01; 32; 34; 10; 41; 22; 03];
   [00; 13; 21; 34; 42; 02; 10; 23; 31; 44; 04; 12; 20;
    33; 41; 01; 14; 22; 30; 43; 03; 11; 24; 32; 40]]%nat.

(** ** The round macros

    A macro applied to a renaming [p] has its parameter [b_xy] bound to the
    lane [b p xy]. *)
Definition b (p : list nat) (xy : nat) : nat := nth (5 * (xy / 10) + xy mod 10) p 0%nat.

(** The value of the parameter [b_xy]. *)
Definition v (p : list nat) (a : list Z) (xy : nat) : Z := a @@ b p xy.

Definition NOT64 (x : Z) : Z := SPH_T64 (Z.lnot x).

Definition TH_ELT (c0 c1 c2 c3 c4 d0 d1 d2 d3 d4 : Z) : Z :=
  let tt0 := d0 ^^ d1 in
  let tt1 := d2 ^^ d3 in
  let tt0 := tt0 ^^ d4 in
  let tt0 := tt0 ^^ tt1 in
  let tt0 := SPH_ROTL64 tt0 1 in
  let tt2 := c0 ^^ c1 in
  let tt3 := c2 ^^ c3 in
  let tt0 := tt0 ^^ c4 in
  let tt2 := tt2 ^^ tt3 in
  tt0 ^^ tt2.

Definition THETA (p : list nat) (a : list Z) : list Z :=
  let t0 := TH_ELT (v p a 40) (v p a 41) (v p a 42) (v p a 43) (v p a 44) (v p a 10) (v p a 11) (v p a 12) (v p a 13) (v p a 14) in
  let t1 := TH_ELT (v p a 00) (v p a 01) (v p a 02) (v p a 03) (v p a 04) (v p a 20) (v p a 21) (v p a 22) (v p a 23) (v p a 24) in
  let t2 := TH_ELT (v p a 10) (v p a 11) (v p a 12) (v p a 13) (v p a 14) (v p a 30) (v p a 31) (v p a 32) (v p a 33) (v p a 34) in
  let t3 := TH_ELT (v p a 20) (v p a 21) (v p a 22) (v p a 23) (v p a 24) (v p a 40) (v p a 41) (v p a 42) (v p a 43) (v p a 44) in
  let t4 := TH_ELT (v p a 30) (v p a 31) (v p a 32) (v p a 33) (v p a 34) (v p a 00) (v p a 01) (v p a 02) (v p a 03) (v p a 04) in
  fold_left (λ a '(xy, t), <[b p xy := a @@ b p xy ^^ t]> a)
    [(00, t0); (01, t0); (02, t0); (03, t0); (04, t0);
     (10, t1); (11, t1); (12, t1); (13, t1); (14, t1);
     (20, t2); (21, t2); (22, t2); (23, t2); (24, t2);
     (30, t3); (31, t3); (32, t3); (33, t3); (34, t3);
     (40, t4); (41, t4); (42, t4); (43, t4); (44, t4)]%nat a.

Definition RHO (p : list nat) (a : list Z) : list Z :=
  fold_left (λ a '(xy, n), <[b p xy := SPH_ROTL64 (a @@ b p xy) n]> a)
    [(01%nat, 36); (02%nat, 3); (03%nat, 41); (04%nat, 18);
     (10%nat, 1); (11%nat, 44); (12%nat, 10); (13%nat, 45); (14%nat, 2);
     (20%nat, 62); (21%nat, 6); (22%nat, 43); (23%nat, 15); (24%nat, 61);
     (30%nat, 28); (31%nat, 55); (32%nat, 25); (33%nat, 21); (34%nat, 56);
     (40%nat, 27); (41%nat, 20); (42%nat, 39); (43%nat, 8); (44%nat, 14)] a.

Definition KHI_XO (a b c : Z) : Z := a ^^ Z.lor b c.
Definition KHI_XA (a b c : Z) : Z := a ^^ Z.land b c.

(** The [MOV64]s that end each row of [KHI], and the five rows. *)
Definition khi_row (p : list nat) (y : nat) (c : list Z) (a : list Z) : list Z :=
  fold_left (λ a x, <[b p (10 * x + y) := c @@ x]> a) (seq 0 5) a.

Definition khi0 (p : list nat) (a : list Z) : list Z :=
  let bnn := NOT64 (v p a 20) in
  khi_row p 0 [KHI_XO (v p a 00) (v p a 10) (v p a 20); KHI_XO (v p a 10) bnn (v p a 30);
    KHI_XA (v p a 20) (v p a 30) (v p a 40); KHI_XO (v p a 30) (v p a 40) (v p a 00);
    KHI_XA (v p a 40) (v p a 00) (v p a 10)] a.
Definition khi1 (p : list nat) (a : list Z) : list Z :=
  let bnn := NOT64 (v p a 41) in
  khi_row p 1 [KHI_XO (v p a 01) (v p a 11) (v p a 21); KHI_XA (v p a 11) (v p a 21) (v p a 31);
    KHI_XO (v p a 21) (v p a 31) bnn; KHI_XO (v p a 31) (v p a 41) (v p a 01);
    KHI_XA (v p a 41) (v p a 01) (v p a 11)] a.
Definition khi2 (p : list nat) (a : list Z) : list Z :=
  let bnn := NOT64 (v p a 32) in
  khi_row p 2 [KHI_XO (v p a 02) (v p a 12) (v p a 22); KHI_XA (v p a 12) (v p a 22) (v p a 32);
    KHI_XA (v p a 22) bnn (v p a 42); KHI_XO bnn (v p a 42) (v p a 02);
    KHI_XA (v p a 42) (v p a 02) (v p a 12)] a.
Definition khi3 (p : list nat) (a : list Z) : list Z :=
  let bnn := NOT64 (v p a 33) in
  khi_row p 3 [KHI_XA (v p a 03) (v p a 13) (v p a 23); KHI_XO (v p a 13) (v p a 23) (v p a 33);
    KHI_XO (v p a 23) bnn (v p a 43); KHI_XA bnn (v p a 43) (v p a 03);
    KHI_XO (v p a 43) (v p a 03) (v p a 13)] a.
Definition khi4 (p : list nat) (a : list Z) : list Z :=
  let bnn := NOT64 (v p a 14) in
  khi_row p 4 [KHI_XA (v p a 04) bnn (v p a 24); KHI_XO bnn (v p a 24) (v p a 34);
    KHI_XA (v p a 24) (v p a 34) (v p a 44); KHI_XO (v p a 34) (v p a 44) (v p a 04);
    KHI_XA (v p a 44) (v p a 04) (v p a 14)] a.

Definition KHI (p : list nat) (a : list Z) : list Z :=
  khi4 p (khi3 p (khi2 p (khi1 p (khi0 p a)))).

Definition IOTA (k : Z) (a : list Z) : list Z := <[lane 00 := a @@ lane 00 ^^ k]> a.

Definition KF_ELT (r s : nat) (k : Z) (a : list Z) : list Z :=
  IOTA k (KHI (nth s P []) (RHO (nth r P []) (THETA (nth r P []) a))).

(** ** Moving the lanes back: [Pn_TO_P0] as lists of [MOV64] *)

Inductive reg := A (xy : nat) | T.

Definition MOV64 (at_t : list Z * Z) (ds : reg * reg) : list Z * Z :=
  let '(a, t) := at_t in
  let v := match snd ds with A xy => a @@ lane xy | T => t end in
  match fst ds with A xy => (<[lane xy := v]> a, t) | T => (a, v) end.

(** The temporary [t] is uninitialised; 0 stands for its first value. *)
Definition moves (m : list (reg * reg)) (a : list Z) : list Z :=
  fst (fold_left MOV64 m (a, 0)).

Definition P1_TO_P0 : list (reg * reg) :=
  [(T, A 01); (A 01, A 30); (A 30, A 33); (A 33, A 23); (A 23, A 12); (A 12, A 21);
   (A 21, A 02); (A 02, A 10); (A 10, A 11); (A 11, A 41); (A 41, A 24); (A 24, A 42);
   (A 42, A 04); (A 04, A 20); (A 20, A 22); (A 22, A 32); (A 32, A 43); (A 43, A 34);
   (A 34, A 03); (A 03, A 40); (A 40, A 44); (A 44, A 14); (A 14, A 31); (A 31, A 13);
   (A 13, T)].

Definition P2_TO_P0 : list (reg * reg) :=
  [(T, A 01); (A 01, A 33); (A 33, A 12); (A 12, A 02); (A 02, A 11); (A 11, A 24);
   (A 24, A 04); (A 04, A 22); (A 22, A 43); (A 43, A 03); (A 03, A 44); (A 44, A 31);
   (A 31, T); (T, A 10); (A 10, A 41); (A 41, A 42); (A 42, A 20); (A 20, A 32);
   (A 32, A 34); (A 34, A 40); (A 40, A 14); (A 14, A 13); (A 13, A 30); (A 30, A 23);
   (A 23, A 21); (A 21, T)].

Definition P4_TO_P0 : list (reg * reg) :=
  [(T, A 01); (A 01, A 12); (A 12, A 11); (A 11, A 04); (A 04, A 43); (A 43, A 44);
   (A 44, T); (T, A 02); (A 02, A 24); (A 24, A 22); (A 22, A 03); (A 03, A 31);
   (A 31, A 33); (A 33, T); (T, A 10); (A 10, A 42); (A 42, A 32); (A 32, A 40);
   (A 40, A 13); (A 13, A 23); (A 23, T); (T, A 14); (A 14, A 30); (A 30, A 21);
   (A 21, A 41); (A 41, A 20); (A 20, A 34); (A 34, T)].

Definition P6_TO_P0 : list (reg * reg) :=
  [(T, A 01); (A 01, A 02); (A 02, A 04); (A 04, A 03); (A 03, T); (T, A 10);
   (A 10, A 20); (A 20, A 40); (A 40, A 30); (A 30, T); (T, A 11); (A 11, A 22);
   (A 22, A 44); (A 44, A 33); (A 33, T); (T, A 12); (A 12, A 24); (A 24, A 43);
   (A 43, A 31); (A 31, T); (T, A 13); (A 13, A 21); (A 21, A 42); (A 42, A 34);
   (A 34, T); (T, A 14); (A 14, A 23); (A 23, A 41); (A 41, A 32); (A 32, T)].

Definition P8_TO_P0 : list (reg * reg) :=
  [(T, A 01); (A 01, A 11); (A 11, A 43); (A 43, T); (T, A 02); (A 02, A 22);
   (A 22, A 31); (A 31, T); (T, A 03); (A 03, A 33); (A 33, A 24); (A 24, T);
   (T, A 04); (A 04, A 44); (A 44, A 12); (A 12, T); (T, A 10); (A 10, A 32);
   (A 32, A 13); (A 13, T); (T, A 14); (A 14, A 21); (A 21, A 20); (A 20, T);
   (T, A 23); (A 23, A 42); (A 42, A 40); (A 40, T); (T, A 30); (A 30, A 41);
   (A 41, A 34); (A 34, T)].

Definition P12_TO_P0 : list (reg * reg) :=
  [(T, A 01); (A 01, A 04); (A 04, T); (T, A 02); (A 02, A 03); (A 03, T);
   (T, A 10); (A 10, A 40); (A 40, T); (T, A 11); (A 11, A 44); (A 44, T);
   (T, A 12); (A 12, A 43); (A 43, T); (T, A 13); (A 13, A 42); (A 42, T);
   (T, A 14); (A 14, A 41); (A 41, T); (T, A 20); (A 20, A 30); (A 30, T);
   (T, A 21); (A 21, A 34); (A 34, T); (T, A 22); (A 22, A 33); (A 33, T);
   (T, A 23); (A 23, A 32); (A 32, T); (T, A 24); (A 24, A 31); (A 31, T)].

(** ** The permutation, for each unroll count *)

Definition unrolled (n : nat) (m : list (reg * reg)) (a : list Z) : list Z :=
  fold_left (λ a j,
    moves m (fold_left (λ a i, KF_ELT i (i + 1) (RC @@ (j * n + i)) a) (seq 0 n) a))
    (seq 0 (24 / n)) a.

Definition KECCAK_F_1600_unroll1 := unrolled 1 P1_TO_P0.
Definition KECCAK_F_1600_unroll2 := unrolled 2 P2_TO_P0.
Definition KECCAK_F_1600_unroll4 := unrolled 4 P4_TO_P0.
Definition KECCAK_F_1600_unroll6 := unrolled 6 P6_TO_P0.
Definition KECCAK_F_1600_unroll8 := unrolled 8 P8_TO_P0.
Definition KECCAK_F_1600_unroll12 := unrolled 12 P12_TO_P0.
Definition KECCAK_F_1600_unroll0 (a : list Z) : list Z :=
  KF_ELT 23 0 (RC @@ 23)
    (fold_left (λ a i, KF_ELT i (i + 1) (RC @@ i) a) (seq 0 23) a).

(** The default. *)
Definition KECCAK_F_1600 := KECCAK_F_1600_unroll8.

(** ** The context and its operations *)

Record sph_keccak_context := mk_ctx { buf : list Z; ptr : nat; lim : nat; wide : list Z }.

Definition complemented : list nat := [1; 2; 8; 12; 17; 20]%nat.

Definition keccak_init (kc : sph_keccak_context) (out_size : nat) : sph_keccak_context :=
  mk_ctx (buf kc) 0 (200 - out_size / 4)
    (fold_left (λ w i, <[i := 0xFFFFFFFFFFFFFFFF]> w) complemented (replicate 25 0)).

Definition INPUT_BUF (size : nat) (buf wide : list Z) : list Z :=
  fold_left (λ w j, <[j := w @@ j ^^ sph_dec64le_aligned (drop (8 * j) buf)]> w)
    (seq 0 (size / 8)) wide.

Definition keccak_block (lim : nat) (buf wide : list Z) : list Z :=
  KECCAK_F_1600 (INPUT_BUF lim buf wide).

Definition keccak_core (kc : sph_keccak_context) (data : list Z) (lim' : nat)
    : sph_keccak_context :=
  let '(b, p, w) := absorb_core lim' (keccak_block lim') (buf kc) (ptr kc) data (wide kc) in
  mk_ctx b p (lim kc) w.

(** [DEFCLOSE(d, lim)]; [tmp] is the initial content of the local [u.tmp],
    of [lim + 1] bytes. *)
Definition keccak_close (d lim : nat) (kc : sph_keccak_context) (ub : Z) (n : nat)
    (tmp : list Z) : list Z * sph_keccak_context :=
  let eb := Z.shiftr (Z.lor 0x100 (Z.land ub 0xFF)) (8 - Z.of_nat n) in
  let '(tmp, j) :=
    if (ptr kc =? lim - 1)%nat then
      if (n =? 7)%nat then
        (<[lim := 0x80]> (memset (<[0%nat := u8 eb]> tmp) 1 0 (lim - 1)), (1 + lim)%nat)
      else (<[0%nat := u8 (Z.lor eb 0x80)]> tmp, 1%nat)
    else
      let j := (lim - ptr kc)%nat in
      (<[(j - 1)%nat := 0x80]> (memset (<[0%nat := u8 eb]> tmp) 1 0 (j - 2)), j) in
  let kc := keccak_core kc (take j tmp) lim in
  let w := fold_left (λ w i, <[i := NOT64 (w @@ i)]> w) complemented (wide kc) in
  let tmp := fold_left (λ tmp j, memcpy tmp (8 * j) (sph_enc64le_aligned (w @@ j)))
               (seq 0 ((d + 7) / 8)) tmp in
  (take d tmp, keccak_init kc (8 * d)).

Definition sph_keccak224_init kc := keccak_init kc 224.
Definition sph_keccak224 kc data := keccak_core kc data 144.
Definition sph_keccak224_addbits_and_close := keccak_close 28 144.
Definition sph_keccak224_close kc tmp := sph_keccak224_addbits_and_close kc 0 0 tmp.

Definition sph_keccak256_init kc := keccak_init kc 256.
Definition sph_keccak256 kc data := keccak_core kc data 136.
Definition sph_keccak256_addbits_and_close := keccak_close 32 136.
Definition sph_keccak256_close kc tmp := sph_keccak256_addbits_and_close kc 0 0 tmp.

Definition sph_keccak384_init kc := keccak_init kc 384.
Definition sph_keccak384 kc data := keccak_core kc data 104.
Definition sph_keccak384_addbits_and_close := keccak_close 48 104.
Definition sph_keccak384_close kc tmp := sph_keccak384_addbits_and_close kc 0 0 tmp.

Definition sph_keccak512_init kc := keccak_init kc 512.
Definition sph_keccak512 kc data := keccak_core kc data 72.
Definition sph_keccak512_addbits_and_close := keccak_close 64 72.
Definition sph_keccak512_close kc tmp := sph_keccak512_addbits_and_close kc 0 0 tmp.

(** ** Specification: Keccak-f[1600] (FIPS 202, section 3)

    A state is the list of its lanes, lane [(x, y)] at [x + 5 * y]. *)

Definition lanes (f : nat → nat → Z) : list Z := (λ i, f (i mod 5) (i / 5))%nat <$> seq 0 25.

Definition theta (A : list Z) : list Z :=
  let C x := A @@ x ^^ A @@ (x + 5) ^^ A @@ (x + 10) ^^ A @@ (x + 15) ^^ A @@ (x + 20) in
  let D x := C ((x + 4) mod 5)%nat ^^ SPH_ROTL64 (C ((x + 1) mod 5)%nat) 1 in
  lanes (λ x y, A @@ (x + 5 * y) ^^ D x).

(** The offset of the [t]-th lane on the walk [(x, y) := (y, 2x + 3y)] from
    [(1, 0)] is the triangular number [(t + 1) (t + 2) / 2]. *)
Fixpoint rho_walk (n : nat) (t : Z) (x y : nat) (offsets : list Z) : list Z :=
  match n with
  | O => offsets
  | S n => rho_walk n (t + 1) y ((2 * x + 3 * y) mod 5)
             (<[(x + 5 * y)%nat := (t + 1) * (t + 2) / 2 mod 64]> offsets)
  end.
Definition rho_offsets : list Z := rho_walk 24 0 1 0 (replicate 25 0).

Definition rho (A : list Z) : list Z :=
  lanes (λ x y, SPH_ROTL64 (A @@ (x + 5 * y)) (rho_offsets @@ (x + 5 * y))).

Definition pi (A : list Z) : list Z := lanes (λ x y, A @@ ((x + 3 * y) mod 5 + 5 * x)).

Definition chi (A : list Z) : list Z :=
  lanes (λ x y, A @@ (x + 5 * y)
    ^^ Z.land (NOT64 (A @@ ((x + 1) mod 5 + 5 * y))) (A @@ ((x + 2) mod 5 + 5 * y))).

(** The round constants come from the linear feedback shift register with
    feedback polynomial [x^8 + x^6 + x^5 + x^4 + 1]. *)
Definition lfsr (R : Z) : Z :=
  let R := Z.shiftl R 1 in if Z.testbit R 8 then R ^^ 0x171 else R.
Definition rc (t : nat) : bool := Z.testbit (Nat.iter t lfsr 1) 0.
Definition round_constant (ir : nat) : Z :=
  fold_left (λ k j, if rc (j + 7 * ir) then Z.setbit k (2 ^ Z.of_nat j - 1) else k) (seq 0 7) 0.

Definition iota (k : Z) (A : list Z) : list Z := <[0%nat := A @@ 0 ^^ k]> A.

Definition Rnd (A : list Z) (ir : nat) : list Z :=
  iota (round_constant ir) (chi (pi (rho (theta A)))).

Definition keccak_f (A : list Z) : list Z := fold_left Rnd (seq 0 24) A.

(** ** The renamings implement [pi] *)

(** The state as it reads under a renaming, in lane order. *)
Definition named (p : list nat) (a : list Z) : list Z := lanes (λ x y, v p a (10 * x + y)).

(** The round without renaming, with the complemented lanes. *)
Definition round_lc (k : Z) (a : list Z) : list Z :=
  IOTA k (KHI (nth 0 P []) (pi (RHO (nth 0 P []) (THETA (nth 0 P []) a)))).

(** Names the lanes of a 25-lane state. *)
Ltac lanes25 a Ha :=
  do 25 (destruct a as [|? a]; [discriminate Ha|]);
  destruct a as [|? a]; [clear Ha|discriminate Ha].
Ltac eval_lanes := cbv -[Z.lxor Z.land Z.lor SPH_ROTL64 NOT64].

Lemma KF_ELT_named r k a :
  (r < 24)%nat → length a = 25%nat →
  named (nth ((r + 1) mod 24) P []) (KF_ELT r ((r + 1) mod 24) k a) =
  round_lc k (named (nth r P []) a).
Proof.
  intros Hr Ha. lanes25 a Ha.
  do 24 (destruct r as [|r]; [eval_lanes; reflexivity|]). lia.
Qed.

Lemma named_P0 a : length a = 25%nat → named (nth 0 P []) a = a.
Proof. intros Ha. by lanes25 a Ha. Qed.

Lemma moves_named a :
  length a = 25%nat →
  moves P1_TO_P0 a = named (nth 1 P []) a ∧ moves P2_TO_P0 a = named (nth 2 P []) a ∧
  moves P4_TO_P0 a = named (nth 4 P []) a ∧ moves P6_TO_P0 a = named (nth 6 P []) a ∧
  moves P8_TO_P0 a = named (nth 8 P []) a ∧ moves P12_TO_P0 a = named (nth 12 P []) a.
Proof. intros Ha. lanes25 a Ha. repeat split; reflexivity. Qed.

Lemma length_lanes f : length (lanes f) = 25%nat.
Proof. done. Qed.

Lemma length_fold_insert {X} (i : X → nat) (w : X → list Z → Z) l a :
  length (fold_left (λ a x, <[i x := w x a]> a) l a) = length a.
Proof.
  revert a. induction l as [|x l IH]; intros a; [done|]. simpl. by rewrite IH, length_insert.
Qed.

Lemma length_fold_pairs {Y} (i : nat → nat) (w : nat → Y → list Z → Z) l a :
  length (fold_left (λ a '(xy, y), <[i xy := w xy y a]> a) l a) = length a.
Proof.
  revert a. induction l as [|[xy y] l IH]; intros a; [done|]. simpl. by rewrite IH, length_insert.
Qed.

Lemma length_THETA p a : length (THETA p a) = length a.
Proof. apply (length_fold_pairs (b p) (λ xy t a, a @@ b p xy ^^ t)). Qed.

Lemma length_RHO p a : length (RHO p a) = length a.
Proof. apply (length_fold_pairs (b p) (λ xy n a, SPH_ROTL64 (a @@ b p xy) n)). Qed.

Lemma length_khi_row p y c a : length (khi_row p y c a) = length a.
Proof. apply (length_fold_insert (λ x, b p (10 * x + y)) (λ x _, c @@ x)). Qed.

Lemma length_KHI p a : length (KHI p a) = length a.
Proof.
  unfold KHI. etransitivity; [apply length_khi_row|]. etransitivity; [apply length_khi_row|].
  etransitivity; [apply length_khi_row|]. etransitivity; apply length_khi_row.
Qed.

Lemma length_KF_ELT r s k a : length (KF_ELT r s k a) = length a.
Proof.
  unfold KF_ELT, IOTA. by rewrite length_insert, length_KHI, length_RHO, length_THETA.
Qed.

(** [n] renamed rounds, read under the last renaming, are [n] plain rounds. *)
Lemma rounds_named n K a :
  (n <= 23)%nat → length a = 25%nat →
  length (fold_left (λ a i, KF_ELT i (i + 1) (K i) a) (seq 0 n) a) = 25%nat ∧
  named (nth n P []) (fold_left (λ a i, KF_ELT i (i + 1) (K i) a) (seq 0 n) a) =
  fold_left (λ a i, round_lc (K i) a) (seq 0 n) a.
Proof.
  intros Hn Ha. induction n as [|n IH].
  { split; [done|]. by apply named_P0. }
  destruct IH as [Hl E]; [lia|]. rewrite seq_S, !fold_left_app. cbn [fold_left Nat.add].
  split; [by rewrite length_KF_ELT|]. rewrite <-E.
  pose proof (KF_ELT_named n (K n) _ ltac:(lia) Hl) as Hk.
  rewrite Nat.mod_small in Hk by lia. rewrite Nat.add_1_r in *. exact Hk.
Qed.

Definition rounds_lc (a : list Z) : list Z :=
  fold_left (λ a r, round_lc (RC @@ r) a) (seq 0 24) a.

Lemma fold_shift {X} (f : X → nat → X) m n a :
  fold_left (λ a i, f a (m + i)%nat) (seq 0 n) a = fold_left f (seq m n) a.
Proof.
  revert a. induction n as [|n IH]; intros a; [done|].
  rewrite !seq_S, !fold_left_app, IH. done.
Qed.

Lemma unrolled_steps n m a k :
  (n <= 23)%nat → (∀ a, length a = 25%nat → moves m a = named (nth n P []) a) →
  length a = 25%nat →
  length (fold_left (λ a j,
    moves m (fold_left (λ a i, KF_ELT i (i + 1) (RC @@ (j * n + i)) a) (seq 0 n) a))
    (seq 0 k) a) = 25%nat ∧
  fold_left (λ a j,
    moves m (fold_left (λ a i, KF_ELT i (i + 1) (RC @@ (j * n + i)) a) (seq 0 n) a))
    (seq 0 k) a = fold_left (λ a r, round_lc (RC @@ r) a) (seq 0 (k * n)) a.
Proof.
  intros Hn Hm Ha. induction k as [|k [Hl IH]]; [done|].
  rewrite seq_S, fold_left_app. cbn [fold_left]. rewrite Nat.add_0_l.
  destruct (rounds_named n (λ i, RC @@ (k * n + i)) _ Hn Hl) as [Hl' E].
  rewrite Hm by exact Hl'. split; [apply length_lanes|].
  rewrite E, IH. replace (S k * n)%nat with (k * n + n)%nat by lia.
  rewrite seq_app, fold_left_app. apply (fold_shift (λ a r, round_lc (RC @@ r) a)).
Qed.

(** Every unroll count computes the same permutation. *)
Lemma unrolled_rounds n m a :
  (n <= 23)%nat → (24 / n * n = 24)%nat →
  (∀ a, length a = 25%nat → moves m a = named (nth n P []) a) →
  length a = 25%nat → unrolled n m a = rounds_lc a.
Proof.
  intros Hn Hd Hm Ha. unfold unrolled, rounds_lc. rewrite <-Hd at 2. by apply unrolled_steps.
Qed.

Lemma KF_ELT_last k a :
  length a = 25%nat → KF_ELT 23 0 k a = round_lc k (named (nth 23 P []) a).
Proof.
  intros Ha. etransitivity; [|exact (KF_ELT_named 23 k a ltac:(lia) Ha)].
  symmetry. apply named_P0. by rewrite length_KF_ELT.
Qed.

Lemma unroll0_rounds a : length a = 25%nat → KECCAK_F_1600_unroll0 a = rounds_lc a.
Proof.
  intros Ha. unfold KECCAK_F_1600_unroll0, rounds_lc.
  destruct (rounds_named 23 (λ i, RC @@ i) a) as [Hl E]; [lia|done|].
  rewrite (KF_ELT_last _ _ Hl), E, (seq_S 23), fold_left_app. cbn [fold_left Nat.add].
  apply eq_refl.
Qed.

(** ** The complemented lanes *)

Definition xorv : list Z → list Z → list Z := zip_with Z.lxor.
Definition cmask : list Z :=
  fold_left (λ w i, <[i := 0xFFFFFFFFFFFFFFFF]> w) complemented (replicate 25 0).

Lemma xorv_at A M i : length A = length M → xorv A M @@ i = A @@ i ^^ M @@ i.
Proof.
  revert M i. unfold at_. induction A as [|x A IH]; intros [|m M] [|i] E;
    simpl in *; try done. apply IH. lia.
Qed.

Lemma lanes_ext f g :
  (∀ x y, (x < 5)%nat → (y < 5)%nat → f x y = g x y) → lanes f = lanes g.
Proof.
  intros E. unfold lanes. apply list_fmap_ext. intros i x Hx%lookup_seq. apply E.
  - apply Nat.mod_upper_bound. lia.
  - apply Nat.Div0.div_lt_upper_bound. lia.
Qed.

Lemma lanes_xor f g : lanes (λ x y, f x y ^^ g x y) = xorv (lanes f) (lanes g).
Proof. reflexivity. Qed.

Lemma words_lanes f : (∀ x y, word 64 (f x y)) → words 64 (lanes f).
Proof. intros Hf. unfold lanes. apply Forall_fmap, Forall_true. intros. apply Hf. Qed.

Ltac xor_ac := apply Z.bits_inj'; intros ??; rewrite !Z.lxor_spec; btauto.

Lemma theta_lin A M :
  length A = length M → words 64 A → words 64 M → theta (xorv A M) = xorv (theta A) (theta M).
Proof.
  intros Hl HA HM. unfold theta. cbv zeta. rewrite <-lanes_xor. apply lanes_ext.
  intros x y _ _. rewrite !xorv_at by done.
  set (u := ((x + 1) mod 5)%nat). set (t := ((x + 4) mod 5)%nat).
  rewrite <-!(Z.lxor_assoc (A @@ (x + 5 * y) ^^ M @@ (x + 5 * y))).
  replace (A @@ u ^^ M @@ u ^^ (A @@ (u + 5) ^^ M @@ (u + 5)) ^^ (A @@ (u + 10) ^^ M @@ (u + 10))
    ^^ (A @@ (u + 15) ^^ M @@ (u + 15)) ^^ (A @@ (u + 20) ^^ M @@ (u + 20)))
    with ((A @@ u ^^ A @@ (u + 5) ^^ A @@ (u + 10) ^^ A @@ (u + 15) ^^ A @@ (u + 20)) ^^
      (M @@ u ^^ M @@ (u + 5) ^^ M @@ (u + 10) ^^ M @@ (u + 15) ^^ M @@ (u + 20))) by xor_ac.
  rewrite ROTL64_lxor by (lia || word_solve). xor_ac.
Qed.

Lemma ROTL64_0 x : word 64 x → SPH_ROTL64 x 0 = x.
Proof.
  intros Hx. unfold SPH_ROTL64. rewrite Z.shiftl_0_r, Z.shiftr_div_pow2 by lia.
  rewrite Z.div_small by exact Hx. by rewrite Z.lor_0_r, SPH_T64_id.
Qed.

Lemma ROTL64_lxor0 x y n :
  word 64 x → word 64 y → 0 <= n < 64 →
  SPH_ROTL64 (x ^^ y) n = SPH_ROTL64 x n ^^ SPH_ROTL64 y n.
Proof.
  intros. destruct (decide (n = 0)) as [->|].
  - by rewrite !ROTL64_0 by word_solve.
  - apply ROTL64_lxor; [done..|lia].
Qed.

Lemma rho_offsets_range i : 0 <= rho_offsets @@ i < 64.
Proof.
  assert (H : words 6 rho_offsets) by (apply (bool_decide_unpack _); by vm_compute).
  by apply (words_at 6).
Qed.

Lemma rho_lin A M :
  length A = length M → words 64 A → words 64 M → rho (xorv A M) = xorv (rho A) (rho M).
Proof.
  intros Hl HA HM. unfold rho. rewrite <-lanes_xor. apply lanes_ext. intros x y _ _.
  rewrite xorv_at by done. apply ROTL64_lxor0; [word_solve..|apply rho_offsets_range].
Qed.

Lemma pi_lin A M : length A = length M → pi (xorv A M) = xorv (pi A) (pi M).
Proof.
  intros Hl. unfold pi. rewrite <-lanes_xor. apply lanes_ext. intros. by apply xorv_at.
Qed.

Lemma words_theta A : words 64 A → words 64 (theta A).
Proof.
  intros. unfold theta. cbv zeta. apply words_lanes. intros.
  repeat (apply word_lxor; [lia|..]); word_solve.
Qed.
Lemma words_rho A : words 64 (rho A).
Proof. apply words_lanes. intros. apply word_ROTL64. Qed.
Lemma words_pi A : words 64 A → words 64 (pi A).
Proof. intros. apply words_lanes. intros. word_solve. Qed.
Lemma words_chi A : words 64 A → words 64 (chi A).
Proof. intros. apply words_lanes. intros. apply word_lxor; [lia|word_solve|].
  apply word_land_r; word_solve. Qed.

Lemma length_theta A : length (theta A) = 25%nat.
Proof. apply length_lanes. Qed.
Lemma length_rho A : length (rho A) = 25%nat.
Proof. apply length_lanes. Qed.

(** The linear part of the round moves the complement mask to the one that
    [KHI] expects. *)
Lemma linear_mask A :
  length A = 25%nat → words 64 A →
  pi (rho (theta (xorv A cmask))) = xorv (pi (rho (theta A))) (pi (rho (theta cmask))).
Proof.
  intros Hl HA.
  assert (Hm : words 64 cmask) by (apply (bool_decide_unpack _); by vm_compute).
  rewrite theta_lin by done.
  rewrite rho_lin by (rewrite ?length_theta; auto using words_theta).
  apply pi_lin. by rewrite !length_rho.
Qed.

Lemma NOT64_bit x i : 0 <= i < 64 → Z.testbit (NOT64 x) i = negb (Z.testbit x i).
Proof. intros. unfold NOT64. rewrite testbit_T64, Z.lnot_spec by lia. done. Qed.

Lemma NOT64_lxor x : word 64 x → x ^^ 0xFFFFFFFFFFFFFFFF = NOT64 x.
Proof.
  intros Hx. apply (word_ext 64); [|apply word_T64|].
  - apply word_lxor; [lia|done|by vm_compute].
  - intros i Hi. rewrite NOT64_bit, Z.lxor_spec by done.
    change 0xFFFFFFFFFFFFFFFF with (Z.ones 64). rewrite Z.ones_spec_low by lia. btauto.
Qed.

Lemma TH_ELT_eq c0 c1 c2 c3 c4 d0 d1 d2 d3 d4 :
  TH_ELT c0 c1 c2 c3 c4 d0 d1 d2 d3 d4 =
  c0 ^^ c1 ^^ c2 ^^ c3 ^^ c4 ^^ SPH_ROTL64 (d0 ^^ d1 ^^ d2 ^^ d3 ^^ d4) 1.
Proof.
  unfold TH_ELT. cbv zeta.
  replace (d0 ^^ d1 ^^ d4 ^^ (d2 ^^ d3)) with (d0 ^^ d1 ^^ d2 ^^ d3 ^^ d4) by xor_ac.
  xor_ac.
Qed.

Lemma THETA_theta a : length a = 25%nat → THETA (nth 0 P []) a = theta a.
Proof.
  intros Ha. unfold THETA. rewrite !TH_ELT_eq. lanes25 a Ha. eval_lanes. reflexivity.
Qed.

Lemma RHO_rho a : length a = 25%nat → words 64 a → RHO (nth 0 P []) a = rho a.
Proof.
  intros Ha Hw. assert (H0 : word 64 (a @@ 0)) by word_solve. revert H0. clear Hw.
  lanes25 a Ha. intros H0%ROTL64_0. etransitivity; [|symmetry; eval_lanes].
  2: { unfold at_ in H0. simpl nth in H0. rewrite H0. reflexivity. }
  eval_lanes. reflexivity.
Qed.

Lemma word_NOT64 x : word 64 (NOT64 x).
Proof. apply word_T64. Qed.

Lemma word64_bits x y :
  word 64 x → word 64 y → (∀ i, 0 <= i < 64 → Z.testbit x i = Z.testbit y i) → x = y.
Proof. apply word_ext. Qed.

#[local] Hint Resolve word_NOT64 word_land_r : word.
Ltac chi_bits :=
  apply word64_bits; [word_solve..|]; intros i Hi;
  rewrite ?Z.lxor_spec, ?Z.land_spec, ?Z.lor_spec, ?NOT64_bit by exact Hi;
  rewrite ?Z.lxor_spec, ?Z.land_spec, ?Z.lor_spec, ?NOT64_bit by exact Hi; btauto.

(** [KHI] on lanes complemented by the incoming mask is [chi], complemented
    by the outgoing mask. *)
Lemma KHI_chi B :
  length B = 25%nat → words 64 B →
  KHI (nth 0 P []) (xorv B (pi (rho (theta cmask)))) = xorv (chi B) cmask.
Proof.
  intros Hl HB.
  let M := eval vm_compute in (pi (rho (theta cmask))) in
  replace (pi (rho (theta cmask))) with M by (by vm_compute).
  let M := eval vm_compute in cmask in replace cmask with M by (by vm_compute).
  assert (HC : words 64 (chi B)) by by apply words_chi.
  lanes25 B Hl. words_inv.
  unfold xorv at 1. cbn [zip_with]. rewrite !NOT64_lxor, !Z.lxor_0_r by done.
  match goal with |- _ = xorv ?c _ => let c' := eval cbv -[Z.lxor Z.land Z.lor NOT64] in c in
    change c with c' in HC |- * end.
  words_inv.
  unfold xorv. cbn [zip_with]. rewrite !NOT64_lxor, !Z.lxor_0_r by done.
  eval_lanes. repeat apply (f_equal2 cons); [chi_bits..|done].
Qed.

Lemma NOT64_NOT64 x : word 64 x → NOT64 (NOT64 x) = x.
Proof.
  intros Hx. apply word64_bits; [apply word_NOT64|done|]. intros i Hi.
  by rewrite !NOT64_bit, negb_involutive.
Qed.

Lemma length_xorv A M : length A = length M → length (xorv A M) = length A.
Proof. intros. unfold xorv. rewrite length_zip_with. lia. Qed.

Lemma xorv_insert0 A k :
  length A = 25%nat → iota k (xorv A cmask) = xorv (iota k A) cmask.
Proof.
  intros Hl. destruct A as [|x A]; [done|].
  change cmask with (0 :: drop 1 cmask). unfold iota, xorv. simpl.
  by rewrite !Z.lxor_0_r.
Qed.

Lemma round_lc_spec k A :
  length A = 25%nat → words 64 A →
  round_lc k (xorv A cmask) = xorv (iota k (chi (pi (rho (theta A))))) cmask.
Proof.
  intros Hl HA. unfold round_lc.
  assert (Hx : words 64 (xorv A cmask)).
  { assert (Hm : words 64 cmask) by (apply (bool_decide_unpack _); by vm_compute).
    unfold xorv. clear Hl. revert HA Hm. generalize cmask.
    induction A as [|x A IH]; intros [|m M] HA HM; try constructor;
      inversion_clear HA; inversion_clear HM; [by apply word_lxor|by apply IH]. }
  rewrite THETA_theta by by rewrite length_xorv.
  rewrite RHO_rho by (done || by apply words_theta).
  rewrite linear_mask, KHI_chi by (done || by apply words_pi, words_rho).
  by apply xorv_insert0.
Qed.

(** The table of the code is the one the shift register generates. *)
Lemma RC_lfsr ir : (ir < 24)%nat → RC @@ ir = round_constant ir.
Proof.
  intros Hr. assert (E : RC = round_constant <$> seq 0 24) by by vm_compute.
  rewrite E. apply at_lookup. rewrite list_lookup_fmap, lookup_seq_lt by done. done.
Qed.

Lemma words_Rnd A ir : (ir < 24)%nat → words 64 A → words 64 (Rnd A ir).
Proof.
  intros Hr HA. unfold Rnd, iota. rewrite <-RC_lfsr by done.
  assert (HR : words 64 RC) by (apply (bool_decide_unpack _); by vm_compute).
  assert (Hc : words 64 (chi (pi (rho (theta A))))) by by apply words_chi, words_pi, words_rho.
  apply Forall_insert; [done|]. word_solve.
Qed.

Lemma length_Rnd A ir : length (Rnd A ir) = 25%nat.
Proof. apply length_insert. Qed.

Lemma round_lc_Rnd r A :
  (r < 24)%nat → length A = 25%nat → words 64 A →
  round_lc (RC @@ r) (xorv A cmask) = xorv (Rnd A r) cmask.
Proof. intros Hr Hl HA. rewrite RC_lfsr by done. by apply round_lc_spec. Qed.

(** The code's state [a] stands for the specification's state [A]. *)
Definition stands_for (a A : list Z) : Prop :=
  a = xorv A cmask ∧ length A = 25%nat ∧ words 64 A.

Lemma rounds_lc_spec A :
  length A = 25%nat → words 64 A → stands_for (rounds_lc (xorv A cmask)) (keccak_f A).
Proof.
  intros Hl HA. unfold rounds_lc, keccak_f.
  apply (fold_left_sim stands_for (λ r, (r < 24)%nat)); [|apply Forall_seq; lia|done].
  intros a B r Hr (-> & HlB & HwB). rewrite round_lc_Rnd by done.
  split; [done|]. split; [apply length_Rnd|by apply words_Rnd].
Qed.

Lemma KECCAK_F_1600_spec a A : stands_for a A → stands_for (KECCAK_F_1600 a) (keccak_f A).
Proof.
  intros (-> & Hl & HA). pose proof (rounds_lc_spec A Hl HA) as E.
  unfold KECCAK_F_1600, KECCAK_F_1600_unroll8.
  rewrite unrolled_rounds; [done|lia|done|apply moves_named|by rewrite length_xorv].
Qed.

(** ** Specification: the sponge

    The rate is [lim] bytes; the block is xored into the first lanes. *)
Definition xor_block (lim : nat) (blk A : list Z) : list Z :=
  (λ i, A @@ i ^^ (if (i <? lim / 8)%nat then le_join (take 8 (drop (8 * i) blk)) else 0))
    <$> seq 0 25.

Definition sponge_block (lim : nat) (blk A : list Z) : list Z := keccak_f (xor_block lim blk A).

(** The last [n] message bits (the high bits of [ub], as [addbits] takes them),
    the first padding bit, zeros, and the last padding bit. *)
Definition keccak_padding (lim : nat) (ub : Z) (n len : nat) : list Z :=
  let eb := Z.shiftr (Z.lor 0x100 (Z.land ub 0xFF)) (8 - Z.of_nat n) in
  let p := (len mod lim)%nat in
  if (p =? lim - 1)%nat then
    if (n =? 7)%nat then eb :: replicate (lim - 1) 0 ++ [0x80] else [Z.lor eb 0x80]
  else eb :: replicate (lim - p - 2) 0 ++ [0x80].

Definition keccak_spec (d lim : nat) (msg : list Z) (ub : Z) (n : nat) : list Z :=
  let A := run (sponge_block lim)
             (full_blocks lim (msg ++ keccak_padding lim ub n (length msg))) (replicate 25 0) in
  take d (concat (le_split 8 <$> A)).

(** The padding is Keccak's [pad10*1]: in bits, least significant first in
    each byte, a one, the fewest zeros that fill the block, and a one. *)
Definition byte_bits (x : Z) : list bool := (λ i, Z.testbit x (Z.of_nat i)) <$> seq 0 8.
Definition bits_of (l : list Z) : list bool := concat (byte_bits <$> l).

Definition last_bits (ub : Z) (n : nat) : list bool :=
  (λ i, Z.testbit ub (8 - Z.of_nat n + Z.of_nat i)) <$> seq 0 n.

Lemma eb_bit ub n i :
  (n < 8)%nat → (i < 8)%nat →
  Z.testbit (Z.shiftr (Z.lor 0x100 (Z.land ub 0xFF)) (8 - Z.of_nat n)) (Z.of_nat i) =
  if (i <? n)%nat then Z.testbit ub (8 - Z.of_nat n + Z.of_nat i) else (i =? n)%nat.
Proof.
  intros Hn Hi. rewrite Z.shiftr_spec, Z.lor_spec, Z.land_spec by lia.
  replace (Z.of_nat i + (8 - Z.of_nat n)) with (8 - Z.of_nat n + Z.of_nat i) by lia.
  change 0x100 with (2 ^ 8). change 0xFF with (Z.ones 8). rewrite Z.pow2_bits_eqb by lia.
  rewrite Z.testbit_ones by lia.
  destruct (Nat.ltb_spec i n), (Z.eqb_spec 8 (8 - Z.of_nat n + Z.of_nat i)),
    (Z.leb_spec 0 (8 - Z.of_nat n + Z.of_nat i)), (Z.ltb_spec (8 - Z.of_nat n + Z.of_nat i) 8),
    (Nat.eqb_spec i n); simpl; try lia; btauto.
Qed.

Lemma eb_bits ub n :
  (n < 8)%nat →
  let eb := Z.shiftr (Z.lor 0x100 (Z.land ub 0xFF)) (8 - Z.of_nat n) in
  byte_bits eb = last_bits ub n ++ true :: replicate (7 - n) false ∧
  ((n < 7)%nat → byte_bits (Z.lor eb 0x80) =
     last_bits ub n ++ true :: replicate (6 - n) false ++ [true]).
Proof.
  intros Hn eb.
  assert (E : byte_bits eb = (λ i, if (i <? n)%nat
    then Z.testbit ub (8 - Z.of_nat n + Z.of_nat i) else (i =? n)%nat) <$> seq 0 8).
  { apply list_fmap_ext. intros i ? [-> ?]%lookup_seq. by apply eb_bit. }
  assert (E8 : byte_bits (Z.lor eb 0x80) = (λ i, (if (i <? n)%nat
    then Z.testbit ub (8 - Z.of_nat n + Z.of_nat i) else (i =? n)%nat) || (i =? 7)%nat) <$> seq 0 8).
  { apply list_fmap_ext. intros i ? [-> ?]%lookup_seq. simpl.
    rewrite Z.lor_spec. unfold eb. rewrite eb_bit by done. f_equal.
    change 0x80 with (2 ^ 7). rewrite Z.pow2_bits_eqb by lia.
    destruct (Z.eqb_spec 7 (Z.of_nat i)), (Nat.eqb_spec i 7); done || lia. }
  rewrite E, E8. clear E E8. unfold last_bits.
  do 8 (destruct n as [|n]; [split; [done|]; intros; try lia;
    simpl; rewrite ?orb_false_r; reflexivity|]). lia.
Qed.

Lemma bits_zeros k : bits_of (replicate k 0) = replicate (8 * k) false.
Proof.
  unfold bits_of. induction k as [|k IH]; [done|].
  replace (8 * S k)%nat with (8 + 8 * k)%nat by lia. rewrite replicate_add, <-IH. done.
Qed.

Lemma bits_app l k : bits_of (l ++ k) = bits_of l ++ bits_of k.
Proof. unfold bits_of. by rewrite fmap_app, concat_app. Qed.

Lemma bits_cons x l : bits_of (x :: l) = byte_bits x ++ bits_of l.
Proof. done. Qed.

Lemma bits_full ub n k :
  (n < 8)%nat →
  bits_of (Z.shiftr (Z.lor 0x100 (Z.land ub 0xFF)) (8 - Z.of_nat n) :: replicate k 0 ++ [0x80]) =
  last_bits ub n ++ [true] ++ replicate (7 - n + 8 * k + 7) false ++ [true].
Proof.
  intros Hn. rewrite bits_cons, bits_app, bits_zeros.
  rewrite (proj1 (eb_bits ub n Hn)), !replicate_add.
  change (bits_of [0x80]) with (replicate 7 false ++ [true]).
  by simplify_list_eq.
Qed.

(** The bytes of padding that the closing function writes after a message
    of [len] bytes and [n] bits are, bit by bit, Keccak's pad10*1: the [n]
    bits, a one, fewer zeros than a block, a one, up to a block boundary. *)
Lemma keccak_padding_bits lim ub n len :
  (1 < lim)%nat → (n < 8)%nat →
  ∃ z : nat, (z < 8 * lim)%nat ∧
    ((8 * len + n + 2 + z) mod (8 * lim) = 0)%nat ∧
    bits_of (keccak_padding lim ub n len) =
    last_bits ub n ++ [true] ++ replicate z false ++ [true].
Proof.
  intros Hl Hn. unfold keccak_padding.
  pose proof (Nat.mod_upper_bound len lim ltac:(lia)) as Hp.
  pose proof (Nat.div_mod_eq len lim) as Hd.
  set (p := (len mod lim)%nat) in *. set (q := (len / lim)%nat) in *.
  assert (Hmod : ∀ a z, (8 * len + n + 2 + z = a * (8 * lim))%nat →
    ((8 * len + n + 2 + z) mod (8 * lim) = 0)%nat) by (intros a z ->; apply Nat.Div0.mod_mul).
  destruct (Nat.eqb_spec p (lim - 1)); [destruct (Nat.eqb_spec n 7)|].
  - exists (7 - n + 8 * (lim - 1) + 7)%nat. rewrite bits_full by done.
    split; [lia|]. split; [apply (Hmod (q + 2)%nat); nia|done].
  - exists (6 - n)%nat. split; [lia|]. split; [apply (Hmod (q + 1)%nat); nia|].
    rewrite bits_cons. change (bits_of []) with (@nil bool). rewrite app_nil_r.
    apply (eb_bits ub n Hn). lia.
  - exists (7 - n + 8 * (lim - p - 2) + 7)%nat. rewrite bits_full by done.
    split; [lia|]. split; [apply (Hmod (q + 1)%nat); nia|done].
Qed.

(** ** Absorbing *)

Lemma INPUT_BUF_at lim blk w i :
  (lim / 8 <= length w)%nat →
  INPUT_BUF lim blk w @@ i =
  if (i <? lim / 8)%nat then w @@ i ^^ le_join (take 8 (drop (8 * i) blk)) else w @@ i.
Proof. apply (update_loop_at (λ j x, x ^^ sph_dec64le_aligned (drop (8 * j) blk))). Qed.

Lemma length_INPUT_BUF lim blk w : length (INPUT_BUF lim blk w) = length w.
Proof. apply (length_update_loop (λ j x, x ^^ sph_dec64le_aligned (drop (8 * j) blk))). Qed.

Lemma word_load64 blk i : bytes blk → word 64 (le_join (take 8 (drop (8 * i) blk))).
Proof.
  intros Hb. apply (word_mono (8 * Z.of_nat (length (take 8 (drop (8 * i) blk))))).
  - rewrite length_take. lia.
  - apply word_le_join. by apply Forall_take, Forall_drop.
Qed.

#[local] Opaque KECCAK_F_1600 keccak_f.

Section Rate.
  Context (lim : nat) (Hlim : (1 < lim <= 144)%nat) (Hlim8 : (lim = 8 * (lim / 8))%nat).

Lemma INPUT_BUF_stands blk a A :
  bytes blk → stands_for a A → stands_for (INPUT_BUF lim blk a) (xor_block lim blk A).
Proof.
  intros Hb (-> & Hl & HA).
  assert (Hx : length (xorv A cmask) = 25%nat) by by rewrite length_xorv.
  split; [|split; [by unfold xor_block; rewrite length_fmap, length_seq|]].
  - apply at_ext.
    { rewrite length_INPUT_BUF, Hx, length_xorv; done. }
    intros i Hi. rewrite length_INPUT_BUF, Hx in Hi.
    rewrite INPUT_BUF_at by lia. rewrite !xorv_at by done.
    unfold xor_block. rewrite at_fmap_seq by done.
    destruct (i <? lim / 8)%nat; [xor_ac|by rewrite Z.lxor_0_r].
  - apply Forall_fmap, Forall_true. intros i. simpl.
    apply word_lxor; [lia|word_solve|].
    destruct (i <? _)%nat; [by apply word_load64|word_solve].
Qed.

Lemma keccak_block_stands blk a A :
  bytes blk → stands_for a A → stands_for (keccak_block lim blk a) (sponge_block lim blk A).
Proof. intros. by apply KECCAK_F_1600_spec, INPUT_BUF_stands. Qed.

(** Only the first [lim] bytes of the buffer are used. *)
Lemma keccak_block_tail blk t w :
  length blk = lim → keccak_block lim (blk ++ t) w = keccak_block lim blk w.
Proof.
  intros Hl. unfold keccak_block, INPUT_BUF. apply (f_equal KECCAK_F_1600).
  apply fold_left_ext_in. intros a j Hj%in_seq.
  do 2 f_equal. unfold sph_dec64le_aligned. f_equal.
  rewrite drop_app_le, take_app_le; [done|rewrite length_drop; lia|lia].
Qed.

Definition ctx_ok (kc : sph_keccak_context) : Prop :=
  length (buf kc) = 144%nat ∧ (ptr kc < lim)%nat.
Definition cview (kc : sph_keccak_context) : list Z * list Z :=
  (take (ptr kc) (buf kc), wide kc).

Lemma keccak_core_view kc data :
  ctx_ok kc →
  ctx_ok (keccak_core kc data lim) ∧
  cview (keccak_core kc data lim) = absorb lim (keccak_block lim) (cview kc) data.
Proof.
  intros [Hb Hp]. unfold keccak_core, cview.
  assert (Hlt : length (take lim (buf kc)) = lim) by (rewrite length_take; lia).
  pose proof (absorb_core_tail lim (keccak_block lim) (take lim (buf kc)) (drop lim (buf kc))
    (ptr kc) data (wide kc) (λ b s, keccak_block_tail b _ s) (conj Hlt Hp)) as E.
  rewrite take_drop in E. rewrite E. clear E.
  destruct (absorb_core_spec lim (keccak_block lim) (take lim (buf kc)) (ptr kc) data (wide kc))
    as [Ho Hv]; [exact (conj Hlt Hp)|].
  destruct (absorb_core _ _ _ _ _ _) as [[b p] w]. destruct Ho as [Hlb Hpb]. simpl in *.
  rewrite take_take, Nat.min_l in Hv by lia. rewrite <-Hv.
  split; [split; simpl; [rewrite length_app, length_drop; lia|done]|].
  by rewrite take_app_le by lia.
Qed.

(** ** Closing *)

(** The bytes the code prepares in [tmp] are the padding. *)
Lemma insert_head (x : Z) l : (0 < length l)%nat → <[0%nat := x]> l = x :: drop 1 l.
Proof. destruct l; simpl; [lia|done]. Qed.

Lemma tmp_block eb tmp j :
  (2 <= j <= length tmp)%nat →
  take j (<[(j - 1)%nat := 0x80]> (memset (<[0%nat := eb]> tmp) 1 0 (j - 2))) =
  eb :: replicate (j - 2) 0 ++ [0x80].
Proof.
  intros Hj. rewrite insert_head by lia.
  destruct j as [|[|j]]; [lia..|]. replace (S (S j) - 1)%nat with (S j) by lia.
  replace (S (S j) - 2)%nat with j by lia.
  unfold memset, memcpy. rewrite length_replicate. cbn [take app Nat.add].
  rewrite skipn_cons. set (rst := drop j (drop 1 tmp)). assert (Hr : (1 <= length rst)%nat)
    by (subst rst; rewrite !length_drop; lia). rewrite take_0.
  destruct rst as [|r rst]; [simpl in Hr; lia|]. cbn [app].
  change (<[S j := 0x80]> (eb :: replicate j 0 ++ r :: rst))
    with (eb :: <[j := 0x80]> (replicate j 0 ++ r :: rst)).
  rewrite insert_app_r_alt by (rewrite length_replicate; lia).
  rewrite length_replicate, Nat.sub_diag. cbn [take]. f_equal.
  change (<[0%nat:=128]> (r :: rst)) with (128 :: rst).
  replace (S j) with (length (replicate j 0 ++ [128]))
    by (rewrite length_app, length_replicate; simpl; lia).
  rewrite (app_assoc _ [128] rst). apply take_app_length.
Qed.

Lemma uncomplement A :
  length A = 25%nat → words 64 A →
  fold_left (λ w i, <[i := NOT64 (w @@ i)]> w) complemented (xorv A cmask) = A.
Proof.
  intros Hl HA. lanes25 A Hl. words_inv.
  let M := eval vm_compute in cmask in replace cmask with M by (by vm_compute).
  unfold xorv. cbn [zip_with]. rewrite !NOT64_lxor, !Z.lxor_0_r by done.
  eval_lanes. by rewrite !NOT64_NOT64 by done.
Qed.

Lemma complement_mask A :
  length A = 25%nat → words 64 A →
  fold_left (λ w i, <[i := NOT64 (w @@ i)]> w) complemented A = xorv A cmask.
Proof.
  intros Hl HA. lanes25 A Hl. words_inv.
  let M := eval vm_compute in cmask in replace cmask with M by (by vm_compute).
  unfold xorv. cbn [zip_with]. by rewrite !NOT64_lxor, !Z.lxor_0_r by done.
Qed.

Lemma eb_byte ub n :
  (n < 8)%nat → byte (Z.shiftr (Z.lor 0x100 (Z.land ub 0xFF)) (8 - Z.of_nat n)).
Proof.
  intros Hn.
  assert (Hb : byte (Z.land ub 0xFF)) by apply byte_u8.
  assert (Hw : word 9 (Z.lor 0x100 (Z.land ub 0xFF))).
  { apply word_lor; [lia|done|]. apply (word_mono 8); [lia|done]. }
  unfold word in *. rewrite Z.shiftr_div_pow2 by lia.
  split; [apply Z.div_pos; lia|]. apply Z.div_lt_upper_bound; [lia|].
  rewrite <-Z.pow_add_r by lia. apply (Z.lt_le_trans _ (2 ^ 9)); [lia|].
  apply Z.pow_le_mono_r; lia.
Qed.

Lemma bytes_keccak_padding ub n len : (n < 8)%nat → bytes (keccak_padding lim ub n len).
Proof.
  intros Hn. pose proof (eb_byte ub n Hn) as Heb. unfold keccak_padding.
  assert (H80 : byte 0x80) by done. assert (H0 : ∀ k, bytes (replicate k 0)).
  { intros. apply Forall_replicate. done. }
  assert (Ht : ∀ k, bytes (Z.shiftr (Z.lor 0x100 (Z.land ub 0xFF)) (8 - Z.of_nat n)
    :: replicate k 0 ++ [0x80])).
  { intros k. constructor; [exact Heb|]. apply Forall_app_2; [apply H0|by constructor]. }
  destruct (_ =? _)%nat; [destruct (_ =? _)%nat|]; [apply Ht| |apply Ht].
  constructor; [by apply word_lor|constructor].
Qed.

(** The bytes of the padding, as [keccak_close] lays them out. *)
Lemma tmp_padding ub n p tmp :
  (n < 8)%nat → (p < lim)%nat → length tmp = S lim →
  let eb := Z.shiftr (Z.lor 0x100 (Z.land ub 0xFF)) (8 - Z.of_nat n) in
  let '(tmp', j) :=
    if (p =? lim - 1)%nat then
      if (n =? 7)%nat then
        (<[lim := 0x80]> (memset (<[0%nat := u8 eb]> tmp) 1 0 (lim - 1)), (1 + lim)%nat)
      else (<[0%nat := u8 (Z.lor eb 0x80)]> tmp, 1%nat)
    else
      let j := (lim - p)%nat in
      (<[(j - 1)%nat := 0x80]> (memset (<[0%nat := u8 eb]> tmp) 1 0 (j - 2)), j) in
  take j tmp' = keccak_padding lim ub n p ∧ length tmp' = S lim.
Proof.
  intros Hn Hp Hl eb. pose proof (eb_byte ub n Hn) as Heb. fold eb in Heb.
  unfold keccak_padding. fold eb. rewrite Nat.mod_small by done.
  rewrite !u8_id by (done || by apply word_lor).
  assert (Hm : ∀ k x, (S k <= length tmp)%nat →
    length (memset (<[0%nat := x]> tmp) 1 0 k) = S lim).
  { intros. rewrite length_memset; rewrite ?length_insert; lia. }
  destruct (Nat.eqb_spec p (lim - 1)); [destruct (Nat.eqb_spec n 7)|].
  - pose proof (tmp_block eb tmp (1 + lim) ltac:(lia)) as E.
    replace (1 + lim - 1)%nat with lim in E by lia.
    replace (1 + lim - 2)%nat with (lim - 1)%nat in E by lia.
    split; [exact E|]. rewrite length_insert. apply Hm. lia.
  - split; [|by rewrite length_insert]. rewrite insert_head by lia. done.
  - pose proof (tmp_block eb tmp (lim - p) ltac:(lia)) as E.
    split; [exact E|]. rewrite length_insert. apply Hm. lia.
Qed.

(** The squeezed bytes. *)
Lemma squeeze d tmp A :
  length A = 25%nat → (8 * ((d + 7) / 8) <= lim)%nat → length tmp = S lim →
  take d (fold_left (λ tmp j, memcpy tmp (8 * j) (sph_enc64le_aligned (A @@ j)))
            (seq 0 ((d + 7) / 8)) tmp) = take d (concat (le_split 8 <$> A)).
Proof.
  intros Hl Hd Ht. set (m := ((d + 7) / 8)%nat) in *.
  assert (Hdm : (d <= 8 * m)%nat).
  { subst m. pose proof (Nat.div_mod_eq (d + 7) 8).
    pose proof (Nat.mod_upper_bound (d + 7) 8). lia. }
  assert (Hm25 : (m <= 25)%nat) by lia.
  destruct (write_loop (λ j, sph_enc64le_aligned (A @@ j)) 8 m tmp) as [_ E];
    [intros; apply length_le_split|lia|].
  rewrite <-(Nat.min_l d (8 * m)), <-!take_take by done. rewrite E. f_equal.
  rewrite <-(take_drop m A) at 1. rewrite fmap_app, concat_app.
  rewrite take_app_length'.
  2: { rewrite (length_concat_map _ 8) by apply length_le_split. rewrite length_take. lia. }
  f_equal. apply list_eq. intros i. rewrite !list_lookup_fmap.
  destruct (decide (i < m)%nat).
  - rewrite lookup_seq_lt, lookup_take_lt, (lookup_at A) by lia. done.
  - rewrite lookup_seq_ge, lookup_take_ge by lia. done.
Qed.

Lemma keccak_close_fst d kc ub n tmp A :
  ctx_ok kc → (n < 8)%nat → length tmp = S lim → (8 * ((d + 7) / 8) <= lim)%nat →
  stands_for (snd (absorb lim (keccak_block lim) (cview kc)
                     (keccak_padding lim ub n (ptr kc)))) A →
  fst (keccak_close d lim kc ub n tmp) = take d (concat (le_split 8 <$> A)).
Proof.
  intros Hok Hn Ht Hd HA. unfold keccak_close.
  pose proof (tmp_padding ub n (ptr kc) tmp Hn (proj2 Hok) Ht) as Hp. cbv zeta in Hp.
  cbv zeta. revert Hp. match goal with |- (let '(_, _) := ?t in _) → _ => destruct t as [tmp' j] end.
  intros [Hj Ht'].
  rewrite Hj. destruct (keccak_core_view kc (keccak_padding lim ub n (ptr kc)) Hok) as [_ Hv].
  rewrite <-Hv in HA. destruct HA as (Hw & Hl & HwA). cbn [cview snd fst] in *.
  rewrite Hw, uncomplement by done. by apply squeeze.
Qed.

(** Initialise, absorb any chunks, close: the sponge on the whole message. *)
Lemma keccak_correct d kc out_size chunks ub n tmp :
  length (buf kc) = 144%nat → bytes (concat chunks) → (n < 8)%nat → length tmp = S lim →
  (8 * ((d + 7) / 8) <= lim)%nat →
  fst (keccak_close d lim (fold_left (λ kc data, keccak_core kc data lim) chunks
         (keccak_init kc out_size)) ub n tmp) =
  keccak_spec d lim (concat chunks) ub n.
Proof.
  intros Hb Hm Hn Ht Hd. set (msg := concat chunks) in *.
  destruct (updates_view lim (keccak_block lim) (λ kc data, keccak_core kc data lim)
    ctx_ok cview chunks (keccak_init kc out_size)) as [Hok Hv].
  { intros. by apply keccak_core_view. } { split; [done|simpl; lia]. }
  set (kc' := fold_left _ _ _) in *. fold msg in Hv.
  apply keccak_close_fst; [done..|].
  change (cview (keccak_init kc out_size)) with (@nil Z, xorv (replicate 25 0) cmask) in Hv.
  assert (Hp : ptr kc' = (length msg mod lim)%nat).
  { rewrite absorb_message in Hv by lia. apply (f_equal (λ v, length (fst v))) in Hv.
    cbn [cview fst] in Hv. destruct Hok as [Hlb Hlt].
    rewrite length_take, length_rest in Hv by lia. lia. }
  rewrite Hp, Hv, <-absorb_app, absorb_message by lia. cbn [snd].
  replace (keccak_padding lim ub n (length msg mod lim)) with (keccak_padding lim ub n (length msg))
    by (unfold keccak_padding; by rewrite Nat.Div0.mod_mod).
  unfold run. apply (fold_left_sim stands_for bytes).
  - intros. by apply keccak_block_stands.
  - apply full_blocks_Forall, Forall_app_2; [done|by apply bytes_keccak_padding].
  - split; [done|]. split; [done|]. apply Forall_replicate. by apply word_0.
Qed.
End Rate.

(** C36: Keccak-512 over its streaming interface refines the sponge of FIPS
    202: initialise (with six lanes complemented), absorb any sequence of
    chunks, close with [n] extra bits gives the first 64 bytes of the sponge
    with rate 72 over the padded message, whatever the context and the closing
    function's local buffer held before. *)
Theorem sph_keccak512_correct kc chunks ub n tmp :
  length (buf kc) = 144%nat → bytes (concat chunks) → (n < 8)%nat → length tmp = 73%nat →
  fst (sph_keccak512_addbits_and_close
         (fold_left sph_keccak512 chunks (sph_keccak512_init kc)) ub n tmp) =
  keccak_spec 64 72 (concat chunks) ub n.
Proof.
  intros. apply (keccak_correct 72 ltac:(lia) eq_refl 64); [done..|]. apply Nat.leb_le. reflexivity.
Qed.

Lemma sph_keccak512_correct_witness :
  let kc := mk_ctx (replicate 144 1) 5 3 [] in
  fst (sph_keccak512_addbits_and_close (fold_left sph_keccak512 [[97; 98]; [99]] (sph_keccak512_init kc)) 0xA0 3
         (replicate 73 0xEE)) =
  keccak_spec 64 72 (concat [[97; 98]; [99]]) 0xA0 3.
Proof.
  apply sph_keccak512_correct; [reflexivity| |lia|reflexivity].
  apply (bool_decide_unpack _). vm_compute. exact I.
Defined.

#[local] Transparent KECCAK_F_1600 keccak_f.

(** The unroll counts agree. *)
Lemma KECCAK_F_1600_unroll_counts a :
  length a = 25%nat →
  KECCAK_F_1600_unroll1 a = KECCAK_F_1600 a ∧ KECCAK_F_1600_unroll2 a = KECCAK_F_1600 a ∧
  KECCAK_F_1600_unroll4 a = KECCAK_F_1600 a ∧ KECCAK_F_1600_unroll6 a = KECCAK_F_1600 a ∧
  KECCAK_F_1600_unroll12 a = KECCAK_F_1600 a ∧ KECCAK_F_1600_unroll0 a = KECCAK_F_1600 a.
Proof.
  intros Ha. pose proof moves_named as Hm.
  assert (E : KECCAK_F_1600 a = rounds_lc a)
    by (apply unrolled_rounds; [lia|reflexivity|apply Hm|exact Ha]).
  rewrite E, (unroll0_rounds a Ha).
  refine (conj _ (conj _ (conj _ (conj _ (conj _ eq_refl)))));
    apply unrolled_rounds; first [lia | exact Ha | reflexivity | apply Hm].
Qed.

(** The optimised permutation [KECCAK_F_1600], which renames lanes
    instead of moving them and works on a state with six complemented lanes,
    is Keccak-f[1600]: complementing those lanes before and after gives the 24
    rounds of theta, rho, pi, chi and iota, with the rotation offsets and
    round constants computed from their definitions. *)
Theorem KECCAK_F_1600_correct A :
  length A = 25%nat → words 64 A →
  let complement := fold_left (λ w i, <[i := NOT64 (w @@ i)]> w) complemented in
  complement (KECCAK_F_1600 (complement A)) = keccak_f A.
Proof.
  intros Hl HA. cbv zeta. rewrite (complement_mask A Hl HA).
  destruct (KECCAK_F_1600_spec _ A (conj eq_refl (conj Hl HA))) as (-> & Hl' & HA').
  by apply uncomplement.
Qed.

End Keccak.
