(* ===== verification/Cubehash.v ===== *)
(** * CubeHash: crypto/x11/cubehash.c, sph_cubehash.h

    The eighth hash of the X11 chain, CubeHash16/32.  The code does not move
    the words that a round swaps: [ROUND_EVEN] and [ROUND_ODD] are two rounds
    under alternating names.  The theorems relate them to the ten-step round
    of the specification, and the initial values to the 160 rounds that
    define them. *)
From S2P Require Import Prelude SphTypes Stream Padding.

Module Cubehash.

Definition IV224 : list Z :=
  [0xB0FC8217; 0x1BEE1A90; 0x829E1A22; 0x6362C342; 0x24D91C30; 0x03A7AA24; 0xA63721C8; 0x85B0E2EF;
   0xF35D13F3; 0x41DA807D; 0x21A70CA6; 0x1F4E9774; 0xB3E1C932; 0xEB0A79A8; 0xCDDAAA66; 0xE2F6ECAA;
   0x0A713362; 0xAA3080E0; 0xD8F23A32; 0xCEF15E28; 0xDB086314; 0x7F709DF7; 0xACD228A4; 0x704D6ECE;
   0xAA3EC95F; 0xE387C214; 0x3A6445FF; 0x9CAB81C3; 0xC73D4B98; 0xD277AEBE; 0xFD20151C; 0x00CB573E].
Definition IV256 : list Z :=
  [0xEA2BD4B4; 0xCCD6F29F; 0x63117E71; 0x35481EAE; 0x22512D5B; 0xE5D94E63; 0x7E624131; 0xF4CC12BE;
   0xC2D0B696; 0x42AF2070; 0xD0720C35; 0x3361DA8C; 0x28CCECA4; 0x8EF8AD83; 0x4680AC00; 0x40E5FBAB;
   0xD89041C3; 0x6107FBD5; 0x6C859D41; 0xF0B26679; 0x09392549; 0x5FA25603; 0x65C892FD; 0x93CB6285;
   0x2AF2B5AE; 0x9E4B4E60; 0x774ABFDD; 0x85254725; 0x15815AEB; 0x4AB6AAD6; 0x9CDAF8AF; 0xD6032C0A].
Definition IV384 : list Z :=
  [0xE623087E; 0x04C00C87; 0x5EF46453; 0x69524B13; 0x1A05C7A9; 0x3528DF88; 0x6BDD01B5; 0x5057B792;
   0x6AA7A922; 0x649C7EEE; 0xF426309F; 0xCB629052; 0xFC8E20ED; 0xB3482BAB; 0xF89E5E7E; 0xD83D4DE4;
   0x44BFC10D; 0x5FC1E63D; 0x2104E6CB; 0x17958F7F; 0xDBEAEF70; 0xB4B97E1E; 0x32C195F6; 0x6184A8E4;
   0x796C2543; 0x23DE176D; 0xD33BBAEC; 0x0C12E5D2; 0x4EB95A7B; 0x2D18BA01; 0x04EE475F; 0x1FC5F22E].
Definition IV512 : list Z :=
  [0x2AEA2A61; 0x50F494D4; 0x2D538B8B; 0x4167D83E; 0x3FEE2313; 0xC701CF8C; 0xCC39968E; 0x50AC5695;
   0x4D42C787; 0xA647A8B3; 0x97CF0BEF; 0x825B4537; 0xEEF864D2; 0xF22090C4; 0xD0E5CD33; 0xA23911AE;
   0xFCD398D9; 0x148FE485; 0x1B017BEF; 0xB6444532; 0x6A536159; 0x2FF5781C; 0x91FA7934; 0x0DBADEA9;
   0xD65C8A2B; 0xA5A70E75; 0xB1C62456; 0xBC796576; 0x1921C8F7; 0xE7989AF1; 0x7795D246; 0xD43E3B44].

(** ** The rounds: the state [x0..xf, xg..xv] is a list of 32 words *)

Definition ROUND_EVEN (x : list Z) : list Z :=
  match x with
  | [x0; x1; x2; x3; x4; x5; x6; x7; x8; x9; xa; xb; xc; xd; xe; xf;
     xg; xh; xi; xj; xk; xl; xm; xn; xo; xp; xq; xr; xs; xt; xu; xv] =>
    let xg := SPH_T32 (x0 + xg) in let x0 := SPH_ROTL32 x0 7 in
    let xh := SPH_T32 (x1 + xh) in let x1 := SPH_ROTL32 x1 7 in
    let xi := SPH_T32 (x2 + xi) in let x2 := SPH_ROTL32 x2 7 in
    let xj := SPH_T32 (x3 + xj) in let x3 := SPH_ROTL32 x3 7 in
    let xk := SPH_T32 (x4 + xk) in let x4 := SPH_ROTL32 x4 7 in
    let xl := SPH_T32 (x5 + xl) in let x5 := SPH_ROTL32 x5 7 in
    let xm := SPH_T32 (x6 + xm) in let x6 := SPH_ROTL32 x6 7 in
    let xn := SPH_T32 (x7 + xn) in let x7 := SPH_ROTL32 x7 7 in
    let xo := SPH_T32 (x8 + xo) in let x8 := SPH_ROTL32 x8 7 in
    let xp := SPH_T32 (x9 + xp) in let x9 := SPH_ROTL32 x9 7 in
    let xq := SPH_T32 (xa + xq) in let xa := SPH_ROTL32 xa 7 in
    let xr := SPH_T32 (xb + xr) in let xb := SPH_ROTL32 xb 7 in
    let xs := SPH_T32 (xc + xs) in let xc := SPH_ROTL32 xc 7 in
    let xt := SPH_T32 (xd + xt) in let xd := SPH_ROTL32 xd 7 in
    let xu := SPH_T32 (xe + xu) in let xe := SPH_ROTL32 xe 7 in
    let xv := SPH_T32 (xf + xv) in let xf := SPH_ROTL32 xf 7 in
    let x8 := x8 ^^ xg in let x9 := x9 ^^ xh in
    let xa := xa ^^ xi in let xb := xb ^^ xj in
    let xc := xc ^^ xk in let xd := xd ^^ xl in
    let xe := xe ^^ xm in let xf := xf ^^ xn in
    let x0 := x0 ^^ xo in let x1 := x1 ^^ xp in
    let x2 := x2 ^^ xq in let x3 := x3 ^^ xr in
    let x4 := x4 ^^ xs in let x5 := x5 ^^ xt in
    let x6 := x6 ^^ xu in let x7 := x7 ^^ xv in
    let xi := SPH_T32 (x8 + xi) in let x8 := SPH_ROTL32 x8 11 in
    let xj := SPH_T32 (x9 + xj) in let x9 := SPH_ROTL32 x9 11 in
    let xg := SPH_T32 (xa + xg) in let xa := SPH_ROTL32 xa 11 in
    let xh := SPH_T32 (xb + xh) in let xb := SPH_ROTL32 xb 11 in
    let xm := SPH_T32 (xc + xm) in let xc := SPH_ROTL32 xc 11 in
    let xn := SPH_T32 (xd + xn) in let xd := SPH_ROTL32 xd 11 in
    let xk := SPH_T32 (xe + xk) in let xe := SPH_ROTL32 xe 11 in
    let xl := SPH_T32 (xf + xl) in let xf := SPH_ROTL32 xf 11 in
    let xq := SPH_T32 (x0 + xq) in let x0 := SPH_ROTL32 x0 11 in
    let xr := SPH_T32 (x1 + xr) in let x1 := SPH_ROTL32 x1 11 in
    let xo := SPH_T32 (x2 + xo) in let x2 := SPH_ROTL32 x2 11 in
    let xp := SPH_T32 (x3 + xp) in let x3 := SPH_ROTL32 x3 11 in
    let xu := SPH_T32 (x4 + xu) in let x4 := SPH_ROTL32 x4 11 in
    let xv := SPH_T32 (x5 + xv) in let x5 := SPH_ROTL32 x5 11 in
    let xs := SPH_T32 (x6 + xs) in let x6 := SPH_ROTL32 x6 11 in
    let xt := SPH_T32 (x7 + xt) in let x7 := SPH_ROTL32 x7 11 in
    let xc := xc ^^ xi in let xd := xd ^^ xj in
    let xe := xe ^^ xg in let xf := xf ^^ xh in
    let x8 := x8 ^^ xm in let x9 := x9 ^^ xn in
    let xa := xa ^^ xk in let xb := xb ^^ xl in
    let x4 := x4 ^^ xq in let x5 := x5 ^^ xr in
    let x6 := x6 ^^ xo in let x7 := x7 ^^ xp in
    let x0 := x0 ^^ xu in let x1 := x1 ^^ xv in
    let x2 := x2 ^^ xs in let x3 := x3 ^^ xt in
    [x0; x1; x2; x3; x4; x5; x6; x7; x8; x9; xa; xb; xc; xd; xe; xf;
     xg; xh; xi; xj; xk; xl; xm; xn; xo; xp; xq; xr; xs; xt; xu; xv]
  | _ => x
  end.

Definition ROUND_ODD (x : list Z) : list Z :=
  match x with
  | [x0; x1; x2; x3; x4; x5; x6; x7; x8; x9; xa; xb; xc; xd; xe; xf;
     xg; xh; xi; xj; xk; xl; xm; xn; xo; xp; xq; xr; xs; xt; xu; xv] =>
    let xj := SPH_T32 (xc + xj) in let xc := SPH_ROTL32 xc 7 in
    let xi := SPH_T32 (xd + xi) in let xd := SPH_ROTL32 xd 7 in
    let xh := SPH_T32 (xe + xh) in let xe := SPH_ROTL32 xe 7 in
    let xg := SPH_T32 (xf + xg) in let xf := SPH_ROTL32 xf 7 in
    let xn := SPH_T32 (x8 + xn) in let x8 := SPH_ROTL32 x8 7 in
    let xm := SPH_T32 (x9 + xm) in let x9 := SPH_ROTL32 x9 7 in
    let xl := SPH_T32 (xa + xl) in let xa := SPH_ROTL32 xa 7 in
    let xk := SPH_T32 (xb + xk) in let xb := SPH_ROTL32 xb 7 in
    let xr := SPH_T32 (x4 + xr) in let x4 := SPH_ROTL32 x4 7 in
    let xq := SPH_T32 (x5 + xq) in let x5 := SPH_ROTL32 x5 7 in
    let xp := SPH_T32 (x6 + xp) in let x6 := SPH_ROTL32 x6 7 in
    let xo := SPH_T32 (x7 + xo) in let x7 := SPH_ROTL32 x7 7 in
    let xv := SPH_T32 (x0 + xv) in let x0 := SPH_ROTL32 x0 7 in
    let xu := SPH_T32 (x1 + xu) in let x1 := SPH_ROTL32 x1 7 in
    let xt := SPH_T32 (x2 + xt) in let x2 := SPH_ROTL32 x2 7 in
    let xs := SPH_T32 (x3 + xs) in let x3 := SPH_ROTL32 x3 7 in
    let x4 := x4 ^^ xj in let x5 := x5 ^^ xi in
    let x6 := x6 ^^ xh in let x7 := x7 ^^ xg in
    let x0 := x0 ^^ xn in let x1 := x1 ^^ xm in
    let x2 := x2 ^^ xl in let x3 := x3 ^^ xk in
    let xc := xc ^^ xr in let xd := xd ^^ xq in
    let xe := xe ^^ xp in let xf := xf ^^ xo in
    let x8 := x8 ^^ xv in let x9 := x9 ^^ xu in
    let xa := xa ^^ xt in let xb := xb ^^ xs in
    let xh := SPH_T32 (x4 + xh) in let x4 := SPH_ROTL32 x4 11 in
    let xg := SPH_T32 (x5 + xg) in let x5 := SPH_ROTL32 x5 11 in
    let xj := SPH_T32 (x6 + xj) in let x6 := SPH_ROTL32 x6 11 in
    let xi := SPH_T32 (x7 + xi) in let x7 := SPH_ROTL32 x7 11 in
    let xl := SPH_T32 (x0 + xl) in let x0 := SPH_ROTL32 x0 11 in
    let xk := SPH_T32 (x1 + xk) in let x1 := SPH_ROTL32 x1 11 in
    let xn := SPH_T32 (x2 + xn) in let x2 := SPH_ROTL32 x2 11 in
    let xm := SPH_T32 (x3 + xm) in let x3 := SPH_ROTL32 x3 11 in
    let xp := SPH_T32 (xc + xp) in let xc := SPH_ROTL32 xc 11 in
    let xo := SPH_T32 (xd + xo) in let xd := SPH_ROTL32 xd 11 in
    let xr := SPH_T32 (xe + xr) in let xe := SPH_ROTL32 xe 11 in
    let xq := SPH_T32 (xf + xq) in let xf := SPH_ROTL32 xf 11 in
    let xt := SPH_T32 (x8 + xt) in let x8 := SPH_ROTL32 x8 11 in
    let xs := SPH_T32 (x9 + xs) in let x9 := SPH_ROTL32 x9 11 in
    let xv := SPH_T32 (xa + xv) in let xa := SPH_ROTL32 xa 11 in
    let xu := SPH_T32 (xb + xu) in let xb := SPH_ROTL32 xb 11 in
    let x0 := x0 ^^ xh in let x1 := x1 ^^ xg in
    let x2 := x2 ^^ xj in let x3 := x3 ^^ xi in
    let x4 := x4 ^^ xl in let x5 := x5 ^^ xk in
    let x6 := x6 ^^ xn in let x7 := x7 ^^ xm in
    let x8 := x8 ^^ xp in let x9 := x9 ^^ xo in
    let xa := xa ^^ xr in let xb := xb ^^ xq in
    let xc := xc ^^ xt in let xd := xd ^^ xs in
    let xe := xe ^^ xv in let xf := xf ^^ xu in
    [x0; x1; x2; x3; x4; x5; x6; x7; x8; x9; xa; xb; xc; xd; xe; xf;
     xg; xh; xi; xj; xk; xl; xm; xn; xo; xp; xq; xr; xs; xt; xu; xv]
  | _ => x
  end.

(** [SIXTEEN_ROUNDS] for the unroll counts of the configuration; the default
    unrolls all. *)
Definition SIXTEEN_ROUNDS_unroll2 (x : list Z) : list Z :=
  Nat.iter 8 (λ x, ROUND_ODD (ROUND_EVEN x)) x.
Definition SIXTEEN_ROUNDS_unroll4 (x : list Z) : list Z :=
  Nat.iter 4 (λ x, ROUND_ODD (ROUND_EVEN (ROUND_ODD (ROUND_EVEN x)))) x.
Definition SIXTEEN_ROUNDS_unroll8 (x : list Z) : list Z :=
  Nat.iter 2 (λ x, ROUND_ODD (ROUND_EVEN (ROUND_ODD (ROUND_EVEN
    (ROUND_ODD (ROUND_EVEN (ROUND_ODD (ROUND_EVEN x)))))))) x.
Definition SIXTEEN_ROUNDS (x : list Z) : list Z :=
  ROUND_ODD (ROUND_EVEN (ROUND_ODD (ROUND_EVEN (ROUND_ODD (ROUND_EVEN (ROUND_ODD (ROUND_EVEN
  (ROUND_ODD (ROUND_EVEN (ROUND_ODD (ROUND_EVEN (ROUND_ODD (ROUND_EVEN
  (ROUND_ODD (ROUND_EVEN x))))))))))))))).

(** [x0..x7 ^= the eight words of the buffer]. *)
Definition INPUT_BLOCK (buf x : list Z) : list Z :=
  fold_left (λ x j, <[j := x @@ j ^^ sph_dec32le_aligned (drop (4 * j) buf)]> x) (seq 0 8) x.

(** ** The context and its operations *)

Record sph_cubehash_context := mk_ctx { buf : list Z; ptr : nat; state : list Z }.

Definition cubehash_init (sc : sph_cubehash_context) (iv : list Z) : sph_cubehash_context :=
  mk_ctx (buf sc) 0 iv.

Definition cubehash_block (buf x : list Z) : list Z := SIXTEEN_ROUNDS (INPUT_BLOCK buf x).

Definition cubehash_core (sc : sph_cubehash_context) (data : list Z) : sph_cubehash_context :=
  let '(b, p, x) := absorb_core 32 cubehash_block (buf sc) (ptr sc) data (state sc) in
  mk_ctx b p x.

(** One iteration of the closing loop: the first one also flips a bit. *)
Definition final_step (x : list Z) (i : nat) : list Z :=
  let x := SIXTEEN_ROUNDS x in if (i =? 0)%nat then <[31%nat := x @@ 31 ^^ 1]> x else x.

Definition cubehash_close (sc : sph_cubehash_context) (ub : Z) (n out_size_w32 : nat)
    : list Z * sph_cubehash_context :=
  let b := <[ptr sc := pad_byte ub n]> (buf sc) in
  let p := S (ptr sc) in
  let b := memset b p 0 (32 - p) in
  let x := INPUT_BLOCK b (state sc) in
  let x := fold_left final_step (seq 0 11) x in
  (concat ((λ z, sph_enc32le (x @@ z)) <$> seq 0 out_size_w32), mk_ctx b (ptr sc) x).

Definition sph_cubehash224_init sc := cubehash_init sc IV224.
Definition sph_cubehash224 := cubehash_core.
Definition sph_cubehash224_addbits_and_close (sc : sph_cubehash_context) (ub : Z) (n : nat) :=
  let '(dst, sc) := cubehash_close sc ub n 7 in (dst, sph_cubehash224_init sc).
Definition sph_cubehash224_close sc := sph_cubehash224_addbits_and_close sc 0 0.

Definition sph_cubehash256_init sc := cubehash_init sc IV256.
Definition sph_cubehash256 := cubehash_core.
Definition sph_cubehash256_addbits_and_close (sc : sph_cubehash_context) (ub : Z) (n : nat) :=
  let '(dst, sc) := cubehash_close sc ub n 8 in (dst, sph_cubehash256_init sc).
Definition sph_cubehash256_close sc := sph_cubehash256_addbits_and_close sc 0 0.

Definition sph_cubehash384_init sc := cubehash_init sc IV384.
Definition sph_cubehash384 := cubehash_core.
Definition sph_cubehash384_addbits_and_close (sc : sph_cubehash_context) (ub : Z) (n : nat) :=
  let '(dst, sc) := cubehash_close sc ub n 12 in (dst, sph_cubehash384_init sc).
Definition sph_cubehash384_close sc := sph_cubehash384_addbits_and_close sc 0 0.

Definition sph_cubehash512_init sc := cubehash_init sc IV512.
Definition sph_cubehash512 := cubehash_core.
Definition sph_cubehash512_addbits_and_close (sc : sph_cubehash_context) (ub : Z) (n : nat) :=
  let '(dst, sc) := cubehash_close sc ub n 16 in (dst, sph_cubehash512_init sc).
Definition sph_cubehash512_close sc := sph_cubehash512_addbits_and_close sc 0 0.

(** ** Specification: the round in ten steps

    Word [ijklm], in binary, is at index [16 i + 8 j + 4 k + 2 l + m]. *)

(** The words with [i = 0] and those with [i = 1]. *)
Definition map_words (f : nat → Z) : list Z := f <$> seq 0 32.
Definition low (i : nat) : bool := (i <? 16)%nat.

Definition add_into_high (x : list Z) : list Z :=
  map_words (λ i, if low i then x @@ i else SPH_T32 (x @@ (i - 16) + x @@ i)).
Definition rotate_low (n : Z) (x : list Z) : list Z :=
  map_words (λ i, if low i then SPH_ROTL32 (x @@ i) n else x @@ i).
Definition xor_into_low (x : list Z) : list Z :=
  map_words (λ i, if low i then x @@ i ^^ x @@ (i + 16) else x @@ i).
(** Swap the words whose index differs in the bits [m]. *)
Definition swap_low (m : nat) (x : list Z) : list Z :=
  map_words (λ i, if low i then x @@ Nat.lxor i m else x @@ i).
Definition swap_high (m : nat) (x : list Z) : list Z :=
  map_words (λ i, if low i then x @@ i else x @@ Nat.lxor i m).

Definition round (x : list Z) : list Z :=
  let x := add_into_high x in
  let x := rotate_low 7 x in
  let x := swap_low 8 x in
  let x := xor_into_low x in
  let x := swap_high 2 x in
  let x := add_into_high x in
  let x := rotate_low 11 x in
  let x := swap_low 4 x in
  let x := xor_into_low x in
  swap_high 1 x.

(** The initial state for a hash of [h] bytes: parameters, then 160 rounds. *)
Definition initial_state (h : Z) : list Z := Nat.iter 160 round ([h; 32; 16] ++ replicate 29 0).

Ltac words32 x Hx :=
  do 32 (destruct x as [|? x]; [discriminate Hx|]);
  destruct x as [|? x]; [clear Hx|discriminate Hx].
Ltac eval_words := cbv -[Z.add Z.lxor SPH_T32 SPH_ROTL32].

Lemma two_rounds x : length x = 32%nat → ROUND_ODD (ROUND_EVEN x) = round (round x).
Proof. intros Hx. words32 x Hx. eval_words. reflexivity. Qed.

#[local] Opaque ROUND_EVEN ROUND_ODD.

Lemma length_map_words f : length (map_words f) = 32%nat.
Proof. done. Qed.

Lemma length_round x : length (round x) = 32%nat.
Proof. apply length_map_words. Qed.

#[local] Opaque round.

Lemma length_rounds k x : length x = 32%nat → length (Nat.iter k round x) = 32%nat.
Proof. intros. destruct k; [done|]. apply length_round. Qed.

Lemma two_rounds_iter k x :
  length x = 32%nat →
  Nat.iter k (λ x, ROUND_ODD (ROUND_EVEN x)) x = Nat.iter (2 * k) round x.
Proof.
  intros Hx. induction k as [|k IH]; [done|].
  replace (2 * S k)%nat with (S (S (2 * k))) by lia. rewrite !Nat.iter_succ, IH.
  apply two_rounds. by apply length_rounds.
Qed.

(** Composition written out, for any function. *)
Lemma unroll_iter {A} (f : A → A) x :
  f (f (f (f (f (f (f (f x))))))) = Nat.iter 8 f x ∧
  Nat.iter 4 (λ x, f (f x)) x = Nat.iter 8 f x ∧
  Nat.iter 2 (λ x, f (f (f (f x)))) x = Nat.iter 8 f x.
Proof. done. Qed.

Lemma SIXTEEN_ROUNDS_iter x : length x = 32%nat → SIXTEEN_ROUNDS x = Nat.iter 16 round x.
Proof.
  intros Hx. pose proof (unroll_iter (λ x, ROUND_ODD (ROUND_EVEN x)) x) as [E _].
  cbv beta in E. unfold SIXTEEN_ROUNDS. rewrite E. change 16%nat with (2 * 8)%nat.
  by apply two_rounds_iter.
Qed.

(** The unroll counts agree. *)
Lemma SIXTEEN_ROUNDS_unroll_counts x :
  SIXTEEN_ROUNDS_unroll2 x = SIXTEEN_ROUNDS x ∧ SIXTEEN_ROUNDS_unroll4 x = SIXTEEN_ROUNDS x ∧
  SIXTEEN_ROUNDS_unroll8 x = SIXTEEN_ROUNDS x.
Proof.
  pose proof (unroll_iter (λ x, ROUND_ODD (ROUND_EVEN x)) x) as (E & E4 & E8).
  cbv beta in E, E4, E8. 
  unfold SIXTEEN_ROUNDS_unroll2, SIXTEEN_ROUNDS_unroll4, SIXTEEN_ROUNDS_unroll8, SIXTEEN_ROUNDS.
  rewrite E, E4, E8. auto.
Qed.

(** ** Specification: the hash *)

Definition xor_input (blk x : list Z) : list Z :=
  map_words (λ i, if (i <? 8)%nat then x @@ i ^^ le_join (take 4 (drop (4 * i) blk)) else x @@ i).

Definition cubehash_rounds (blk x : list Z) : list Z := Nat.iter 16 round (xor_input blk x).

(** Pad with a one bit and zeros to a block; after the last block flip the
    last bit of the state and apply 160 more rounds. *)
Definition cubehash_spec (iv msg : list Z) (ub : Z) (n w : nat) : list Z :=
  let padded := msg ++ md_padding 32 0 (pad_byte ub n) [] (length msg) in
  let x := run cubehash_rounds (full_blocks 32 padded) iv in
  let x := Nat.iter 160 round (<[31%nat := x @@ 31 ^^ 1]> x) in
  concat ((λ z, le_split 4 (x @@ z)) <$> seq 0 w).

Lemma INPUT_BLOCK_spec blk x : length x = 32%nat → INPUT_BLOCK blk x = xor_input blk x.
Proof.
  intros Hx. unfold INPUT_BLOCK.
  set (g := λ j y, y ^^ sph_dec32le_aligned (drop (4 * j) blk)).
  apply at_ext; [by rewrite (length_update_loop g)|].
  intros i Hi. rewrite (length_update_loop g) in Hi.
  rewrite (update_loop_at g) by lia. unfold xor_input, map_words.
  by rewrite at_fmap_seq by lia.
Qed.

Lemma cubehash_block_spec blk x :
  length x = 32%nat → cubehash_block blk x = cubehash_rounds blk x.
Proof.
  intros Hx. unfold cubehash_block, cubehash_rounds. rewrite INPUT_BLOCK_spec by done.
  by apply SIXTEEN_ROUNDS_iter.
Qed.

Lemma length_cubehash_rounds blk x : length (cubehash_rounds blk x) = 32%nat.
Proof. by apply length_rounds. Qed.

Lemma run_cubehash bs x :
  length x = 32%nat → run cubehash_block bs x = run cubehash_rounds bs x ∧
  length (run cubehash_rounds bs x) = 32%nat.
Proof.
  intros Hx. unfold run.
  apply (fold_left_sim (λ a b, a = b ∧ length b = 32%nat) (λ _, True)); [|by apply Forall_true|done].
  intros ? b c _ [-> Hl]. split; [by apply cubehash_block_spec|apply length_cubehash_rounds].
Qed.

(** ** Correctness *)

Definition ctx_ok (sc : sph_cubehash_context) : Prop := buf_ok 32 (buf sc) (ptr sc).
Definition cview (sc : sph_cubehash_context) : list Z * list Z :=
  (take (ptr sc) (buf sc), state sc).

Lemma cubehash_core_view sc data :
  ctx_ok sc →
  ctx_ok (cubehash_core sc data) ∧
  cview (cubehash_core sc data) = absorb 32 cubehash_block (cview sc) data.
Proof.
  intros Hok. unfold cubehash_core, cview.
  destruct (absorb_core_spec 32 cubehash_block (buf sc) (ptr sc) data (state sc) Hok) as [Ho Hv].
  destruct (absorb_core _ _ _ _ _ _) as [[b p] x]. done.
Qed.

(** The ten iterations that follow the first. *)
Lemma final_tail k y :
  length y = 32%nat → fold_left final_step (seq 1 k) y = Nat.iter (16 * k) round y.
Proof.
  intros Hy. induction k as [|k IH]; [done|]. rewrite seq_S, fold_left_app, IH. cbn [fold_left].
  unfold final_step. change (1 + k =? 0)%nat with false. cbv iota zeta.
  rewrite SIXTEEN_ROUNDS_iter by by apply length_rounds.
  rewrite <-Nat.iter_add. f_equal. lia.
Qed.

Lemma final_loop x :
  length x = 32%nat →
  fold_left final_step (seq 0 11) x =
  let x := Nat.iter 16 round x in Nat.iter 160 round (<[31%nat := x @@ 31 ^^ 1]> x).
Proof.
  intros Hx. cbv zeta. rewrite <-SIXTEEN_ROUNDS_iter by done.
  assert (Hy : length (final_step x 0) = 32%nat).
  { unfold final_step. cbv zeta. change (0 =? 0)%nat with true. cbv iota.
    rewrite length_insert, SIXTEEN_ROUNDS_iter by done. by apply length_rounds. }
  replace (seq 0 11) with (0%nat :: seq 1 10) by done.
  rewrite fold_left_cons, final_tail by done.
  change (16 * 10)%nat with 160%nat. apply (f_equal (Nat.iter 160 round)). reflexivity.
Qed.

Lemma cubehash_correct cc iv chunks ub n w :
  length (buf cc) = 32%nat → length iv = 32%nat →
  fst (cubehash_close (fold_left cubehash_core chunks (cubehash_init cc iv)) ub n w) =
  cubehash_spec iv (concat chunks) ub n w.
Proof.
  intros Hb Hiv. set (msg := concat chunks).
  destruct (updates_view 32 cubehash_block cubehash_core ctx_ok cview chunks
    (cubehash_init cc iv)) as [Hok Hv]; [apply cubehash_core_view|by split; [|simpl; lia]|].
  set (sc := fold_left _ _ _) in *. fold msg in Hv.
  change (cview (cubehash_init cc iv)) with (@nil Z, iv) in Hv.
  rewrite absorb_message in Hv by lia.
  pose proof (f_equal fst Hv) as Hp. pose proof (f_equal snd Hv) as Hs. clear Hv.
  cbn [cview fst snd] in Hp, Hs. destruct Hok as [Hlb Hlt].
  destruct (run_cubehash (full_blocks 32 msg) iv Hiv) as [Er Hr].
  unfold cubehash_close, cubehash_spec. fold msg. cbv zeta. cbn [fst].
  rewrite pad_fill by done. rewrite Hp, Hs, Er.
  rewrite INPUT_BLOCK_spec, final_loop by done. cbv zeta.
  rewrite full_blocks_pad, run_app by lia.
  assert (Hpl : ptr sc = length (rest 32 msg)) by (rewrite <-Hp, length_take; lia).
  rewrite <-(md_padding_mod 32 0 (pad_byte ub n) [] (length msg)), <-(length_rest 32 msg) by lia.
  rewrite pad_one by (rewrite <-Hpl; done). rewrite Hpl.
  change (run cubehash_rounds [?b] ?x) with (cubehash_rounds b x). unfold cubehash_rounds at 1 3.
  done.
Qed.

(** CubeHash-512 over its streaming interface: initialise, update with
    any sequence of chunks, close with [n] extra bits gives the CubeHash16/32
    hash of the concatenated data as its specification defines it from
    ten-step rounds on the whole state. *)
Theorem sph_cubehash512_correct cc chunks ub n :
  length (buf cc) = 32%nat →
  fst (sph_cubehash512_addbits_and_close
         (fold_left sph_cubehash512 chunks (sph_cubehash512_init cc)) ub n) =
  cubehash_spec IV512 (concat chunks) ub n 16.
Proof.
  intros Hb. rewrite <-(cubehash_correct cc) by done.
  unfold sph_cubehash512_addbits_and_close. by destruct (cubehash_close _ _ _ _).
Qed.

(** The tables of initial values. *)
Lemma cubehash_initial_values :
  IV224 = initial_state 28 ∧ IV256 = initial_state 32 ∧
  IV384 = initial_state 48 ∧ IV512 = initial_state 64.
Proof. refine (conj _ (conj _ (conj _ _))); vm_compute; reflexivity. Qed.

End Cubehash.
