(* ===== verification/Jh.v ===== *)
(** * JH: crypto/x11/jh.c, sph_jh.h

    The fifth hash of the X11 chain, in its 64-bit form ([SPH_JH_64], little
    endian).  The state is eight 128-bit words, each a high and a low 64-bit
    half, in bit-sliced form: bit [i] of the words [x0, x1, x2, x3] is one
    4-bit element.  The theorems state what the bit-sliced S-box and linear
    layer do to each element, that the unrolled and the looped permutation
    agree, that the initial values are those JH defines, and that the
    streaming interface computes the hash of the whole message. *)
From S2P Require Import Prelude SphTypes Stream Padding.

Module Jh.

(** ** Constants

    [C64e] swaps the bytes of a constant: on a little-endian host the words
    are loaded little endian. *)
Definition C64e (x : Z) : Z :=
  Z.lor (Z.lor (Z.lor (Z.lor (Z.lor (Z.lor (Z.lor
    (x ≫ 56)
    (Z.land (x ≫ 40) 0x000000000000FF00))
    (Z.land (x ≫ 24) 0x0000000000FF0000))
    (Z.land (x ≫ 8) 0x00000000FF000000))
    (Z.land (x ≪ 8) 0x000000FF00000000))
    (Z.land (x ≪ 24) 0x0000FF0000000000))
    (Z.land (x ≪ 40) 0x00FF000000000000))
    (Z.land (x ≪ 56) 0xFF00000000000000).

Definition C : list Z := Eval vm_compute in C64e <$>
  [0x72d5dea2df15f867; 0x7b84150ab7231557; 0x81abd6904d5a87f6; 0x4e9f4fc5c3d12b40;
   0xea983ae05c45fa9c; 0x03c5d29966b2999a; 0x660296b4f2bb538a; 0xb556141a88dba231;
   0x03a35a5c9a190edb; 0x403fb20a87c14410; 0x1c051980849e951d; 0x6f33ebad5ee7cddc;
   0x10ba139202bf6b41; 0xdc786515f7bb27d0; 0x0a2c813937aa7850; 0x3f1abfd2410091d3;
   0x422d5a0df6cc7e90; 0xdd629f9c92c097ce; 0x185ca70bc72b44ac; 0xd1df65d663c6fc23;
   0x976e6c039ee0b81a; 0x2105457e446ceca8; 0xeef103bb5d8e61fa; 0xfd9697b294838197;
   0x4a8e8537db03302f; 0x2a678d2dfb9f6a95; 0x8afe7381f8b8696c; 0x8ac77246c07f4214;
   0xc5f4158fbdc75ec4; 0x75446fa78f11bb80; 0x52de75b7aee488bc; 0x82b8001e98a6a3f4;
   0x8ef48f33a9a36315; 0xaa5f5624d5b7f989; 0xb6f1ed207c5ae0fd; 0x36cae95a06422c36;
   0xce2935434efe983d; 0x533af974739a4ba7; 0xd0f51f596f4e8186; 0x0e9dad81afd85a9f;
   0xa7050667ee34626a; 0x8b0b28be6eb91727; 0x47740726c680103f; 0xe0a07e6fc67e487b;
   0x0d550aa54af8a4c0; 0x91e3e79f978ef19e; 0x8676728150608dd4; 0x7e9e5a41f3e5b062;
   0xfc9f1fec4054207a; 0xe3e41a00cef4c984; 0x4fd794f59dfa95d8; 0x552e7e1124c354a5;
   0x5bdf7228bdfe6e28; 0x78f57fe20fa5c4b2; 0x05897cefee49d32e; 0x447e9385eb28597f;
   0x705f6937b324314a; 0x5e8628f11dd6e465; 0xc71b770451b920e7; 0x74fe43e823d4878a;
   0x7d29e8a3927694f2; 0xddcb7a099b30d9c1; 0x1d1b30fb5bdc1be0; 0xda24494ff29c82bf;
   0xa4e7ba31b470bfff; 0x0d324405def8bc48; 0x3baefc3253bbd339; 0x459fc3c1e0298ba0;
   0xe5c905fdf7ae090f; 0x947034124290f134; 0xa271b701e344ed95; 0xe93b8e364f2f984a;
   0x88401d63a06cf615; 0x47c1444b8752afff; 0x7ebb4af1e20ac630; 0x4670b6c5cc6e8ce6;
   0xa4d5a456bd4fca00; 0xda9d844bc83e18ae; 0x7357ce453064d1ad; 0xe8a6ce68145c2567;
   0xa3da8cf2cb0ee116; 0x33e906589a94999a; 0x1f60b220c26f847b; 0xd1ceac7fa0d18518;
   0x32595ba18ddd19d3; 0x509a1cc0aaa5b446; 0x9f3d6367e4046bba; 0xf6ca19ab0b56ee7e;
   0x1fb179eaa9282174; 0xe9bdf7353b3651ee; 0x1d57ac5a7550d376; 0x3a46c2fea37d7001;
   0xf735c1af98a4d842; 0x78edec209e6b6779; 0x41836315ea3adba8; 0xfac33b4d32832c83;
   0xa7403b1f1c2747f3; 0x5940f034b72d769a; 0xe73e4e6cd2214ffd; 0xb8fd8d39dc5759ef;
   0x8d9b0c492b49ebda; 0x5ba2d74968f3700d; 0x7d3baed07a8d5584; 0xf5a5e9f0e4f88e65;
   0xa0b8a2f436103b53; 0x0ca8079e753eec5a; 0x9168949256e8884f; 0x5bb05c55f8babc4c;
   0xe3bb3b99f387947b; 0x75daf4d6726b1c5d; 0x64aeac28dc34b36d; 0x6c34a550b828db71;
   0xf861e2f2108d512a; 0xe3db643359dd75fc; 0x1cacbcf143ce3fa2; 0x67bbd13c02e843b0;
   0x330a5bca8829a175; 0x7f34194db416535c; 0x923b94c30e794d1e; 0x797475d7b6eeaf3f;
   0xeaa8d4f7be1a3921; 0x5cf47e094c232751; 0x26a32453ba323cd2; 0x44a3174a6da6d5ad;
   0xb51d3ea6aff2c908; 0x83593d98916b3c56; 0x4cf87ca17286604d; 0x46e23ecc086ec7f6;
   0x2f9833b3b1bc765e; 0x2bd666a5efc4e62a; 0x06f4b6e8bec1d436; 0x74ee8215bcef2163;
   0xfdc14e0df453c969; 0xa77d5ac406585826; 0x7ec1141606e0fa16; 0x7e90af3d28639d3f;
   0xd2c9f2e3009bd20c; 0x5faace30b7d40c30; 0x742a5116f2e03298; 0x0deb30d8e3cef89a;
   0x4bc59e7bb5f17992; 0xff51e66e048668d3; 0x9b234d57e6966731; 0xcce6a6f3170a7505;
   0xb17681d913326cce; 0x3c175284f805a262; 0xf42bcbb378471547; 0xff46548223936a48;
   0x38df58074e5e6565; 0xf2fc7c89fc86508e; 0x31702e44d00bca86; 0xf04009a23078474e;
   0x65a0ee39d1f73883; 0xf75ee937e42c3abd; 0x2197b2260113f86f; 0xa344edd1ef9fdee7;
   0x8ba0df15762592d9; 0x3c85f7f612dc42be; 0xd8a7ec7cab27b07e; 0x538d7ddaaa3ea8de;
   0xaa25ce93bd0269d8; 0x5af643fd1a7308f9; 0xc05fefda174a19a5; 0x974d66334cfd216a;
   0x35b49831db411570; 0xea1e0fbbedcd549b; 0x9ad063a151974072; 0xf6759dbf91476fe2].

Definition IV224 : list Z := Eval vm_compute in C64e <$>
  [0x2dfedd62f99a98ac; 0xae7cacd619d634e7; 0xa4831005bc301216; 0xb86038c6c9661494;
   0x66d9899f2580706f; 0xce9ea31b1d9b1adc; 0x11e8325f7b366e10; 0xf994857f02fa06c1;
   0x1b4f1b5cd8c840b3; 0x97f6a17f6e738099; 0xdcdf93a5adeaa3d3; 0xa431e8dec9539a68;
   0x22b4a98aec86a1e4; 0xd574ac959ce56cf0; 0x15960deab5ab2bbf; 0x9611dcf0dd64ea6e].
Definition IV256 : list Z := Eval vm_compute in C64e <$>
  [0xeb98a3412c20d3eb; 0x92cdbe7b9cb245c1; 0x1c93519160d4c7fa; 0x260082d67e508a03;
   0xa4239e267726b945; 0xe0fb1a48d41a9477; 0xcdb5ab26026b177a; 0x56f024420fff2fa8;
   0x71a396897f2e4d75; 0x1d144908f77de262; 0x277695f776248f94; 0x87d5b6574780296c;
   0x5c5e272dac8e0d6c; 0x518450c657057a0f; 0x7be4d367702412ea; 0x89e3ab13d31cd769].
Definition IV384 : list Z := Eval vm_compute in C64e <$>
  [0x481e3bc6d813398a; 0x6d3b5e894ade879b; 0x63faea68d480ad2e; 0x332ccb21480f8267;
   0x98aec84d9082b928; 0xd455ea3041114249; 0x36f555b2924847ec; 0xc7250a93baf43ce1;
   0x569b7f8a27db454c; 0x9efcbd496397af0e; 0x589fc27d26aa80cd; 0x80c08b8c9deb2eda;
   0x8a7981e8f8d5373a; 0xf43967adddd17a71; 0xa9b4d3bda475d394; 0x976c3fba9842737f].
Definition IV512 : list Z := Eval vm_compute in C64e <$>
  [0x6fd14b963e00aa17; 0x636a2e057a15d543; 0x8a225e8d0c97ef0b; 0xe9341259f2b3c361;
   0x891da0c1536f801e; 0x2aa9056bea2b6d80; 0x588eccdb2075baa6; 0xa90f3a76baf83bf7;
   0x0169e60541e34a69; 0x46b58a8e2e6fe65a; 0x1047a7d0c1843c24; 0x3b6e71b12d5ac199;
   0xcf57f6ec9db1f856; 0xa706887c5716b156; 0xe3c2fcdfe68517fb; 0x545a4678cc8cdd4b].

Definition Ceven_hi (r : nat) : Z := C @@ (4 * r).
Definition Ceven_lo (r : nat) : Z := C @@ (4 * r + 1).
Definition Codd_hi (r : nat) : Z := C @@ (4 * r + 2).
Definition Codd_lo (r : nat) : Z := C @@ (4 * r + 3).

(** ** The layers of a round *)

Definition Sb (x0 x1 x2 x3 c : Z) : Z * Z * Z * Z :=
  let x3 := not64 x3 in
  let x0 := x0 ^^ Z.land c (not64 x2) in
  let tmp := c ^^ Z.land x0 x1 in
  let x0 := x0 ^^ Z.land x2 x3 in
  let x3 := x3 ^^ Z.land (not64 x1) x2 in
  let x1 := x1 ^^ Z.land x0 x2 in
  let x2 := x2 ^^ Z.land x0 (not64 x3) in
  let x0 := x0 ^^ Z.lor x1 x3 in
  let x3 := x3 ^^ Z.land x1 x2 in
  let x1 := x1 ^^ Z.land tmp x0 in
  let x2 := x2 ^^ tmp in
  (x0, x1, x2, x3).

Definition Lb (x0 x1 x2 x3 x4 x5 x6 x7 : Z) : Z * Z * Z * Z * (Z * Z * Z * Z) :=
  let x4 := x4 ^^ x1 in
  let x5 := x5 ^^ x2 in
  let x6 := x6 ^^ (x3 ^^ x0) in
  let x7 := x7 ^^ x0 in
  let x0 := x0 ^^ x5 in
  let x1 := x1 ^^ x6 in
  let x2 := x2 ^^ (x7 ^^ x4) in
  let x3 := x3 ^^ x4 in
  ((x0, x1, x2, x3), (x4, x5, x6, x7)).

(** [Wz(x, c, n)] swaps adjacent groups of [n] bits in both halves. *)
Definition Wz1 (x c n : Z) : Z :=
  let t := SPH_T64 (Z.land x c ≪ n) in Z.lor (Z.land (x ≫ n) c) t.

(** [W0..W6] on the halves [(xh, xl)]. *)
Definition W (ro : nat) (x : Z * Z) : Z * Z :=
  let '(xh, xl) := x in
  match ro with
  | 0 => (Wz1 xh 0x5555555555555555 1, Wz1 xl 0x5555555555555555 1)
  | 1 => (Wz1 xh 0x3333333333333333 2, Wz1 xl 0x3333333333333333 2)
  | 2 => (Wz1 xh 0x0F0F0F0F0F0F0F0F 4, Wz1 xl 0x0F0F0F0F0F0F0F0F 4)
  | 3 => (Wz1 xh 0x00FF00FF00FF00FF 8, Wz1 xl 0x00FF00FF00FF00FF 8)
  | 4 => (Wz1 xh 0x0000FFFF0000FFFF 16, Wz1 xl 0x0000FFFF0000FFFF 16)
  | 5 => (Wz1 xh 0x00000000FFFFFFFF 32, Wz1 xl 0x00000000FFFFFFFF 32)
  | _ => (xl, xh)
  end%nat.

(** The round [SLu(r, ro)] on the sixteen words [h0h, h0l, ..., h7h, h7l]. *)
Definition SLu (r ro : nat) (h : list Z) : list Z :=
  match h with
  | [h0h; h0l; h1h; h1l; h2h; h2l; h3h; h3l; h4h; h4l; h5h; h5l; h6h; h6l; h7h; h7l] =>
    let '(h0h, h2h, h4h, h6h) := Sb h0h h2h h4h h6h (Ceven_hi r) in
    let '(h0l, h2l, h4l, h6l) := Sb h0l h2l h4l h6l (Ceven_lo r) in
    let '(h1h, h3h, h5h, h7h) := Sb h1h h3h h5h h7h (Codd_hi r) in
    let '(h1l, h3l, h5l, h7l) := Sb h1l h3l h5l h7l (Codd_lo r) in
    let '(h0h, h2h, h4h, h6h, (h1h, h3h, h5h, h7h)) := Lb h0h h2h h4h h6h h1h h3h h5h h7h in
    let '(h0l, h2l, h4l, h6l, (h1l, h3l, h5l, h7l)) := Lb h0l h2l h4l h6l h1l h3l h5l h7l in
    let '(h1h, h1l) := W ro (h1h, h1l) in
    let '(h3h, h3l) := W ro (h3h, h3l) in
    let '(h5h, h5l) := W ro (h5h, h5l) in
    let '(h7h, h7l) := W ro (h7h, h7l) in
    [h0h; h0l; h1h; h1l; h2h; h2l; h3h; h3l; h4h; h4l; h5h; h5l; h6h; h6l; h7h; h7l]
  | _ => h
  end.

(** The 42 rounds: unrolled on a 64-bit host, and the loop of the
    small-footprint form. *)
Definition E8_rounds : list (nat * nat) :=
  [(0, 0); (1, 1); (2, 2); (3, 3); (4, 4); (5, 5); (6, 6);
   (7, 0); (8, 1); (9, 2); (10, 3); (11, 4); (12, 5); (13, 6);
   (14, 0); (15, 1); (16, 2); (17, 3); (18, 4); (19, 5); (20, 6);
   (21, 0); (22, 1); (23, 2); (24, 3); (25, 4); (26, 5); (27, 6);
   (28, 0); (29, 1); (30, 2); (31, 3); (32, 4); (33, 5); (34, 6);
   (35, 0); (36, 1); (37, 2); (38, 3); (39, 4); (40, 5); (41, 6)]%nat.
Definition E8 (h : list Z) : list Z := fold_left (λ h '(r, ro), SLu r ro h) E8_rounds h.

Definition E8_small (h : list Z) : list Z :=
  fold_left (λ h r, fold_left (λ h ro, SLu (r + ro) ro h) (seq 0 7) h)
    [0; 7; 14; 21; 28; 35]%nat h.

(** [INPUT_BUF1] xors the block into [h0..h3], [INPUT_BUF2] into [h4..h7]. *)
Definition INPUT_BUF1 (buf h : list Z) : list Z :=
  fold_left (λ h j, <[j := h @@ j ^^ sph_dec64le_aligned (drop (8 * j) buf)]> h) (seq 0 8) h.
Definition INPUT_BUF2 (buf h : list Z) : list Z :=
  fold_left (λ h j, <[(j + 8)%nat := h @@ (j + 8) ^^ sph_dec64le_aligned (drop (8 * j) buf)]> h)
    (seq 0 8) h.

(** ** The context and its operations *)

Record sph_jh_context := mk_ctx { buf : list Z; ptr : nat; H : list Z; block_count : Z }.

Definition jh_init (sc : sph_jh_context) (iv : list Z) : sph_jh_context :=
  mk_ctx (buf sc) 0 iv 0.

(** The block step: the state and the block counter. *)
Definition jh_block (buf : list Z) (s : list Z * Z) : list Z * Z :=
  let '(h, count) := s in
  (INPUT_BUF2 buf (E8 (INPUT_BUF1 buf h)), SPH_T64 (count + 1)).

Definition jh_core (sc : sph_jh_context) (data : list Z) : sph_jh_context :=
  let '(b, p, (h, count)) :=
    absorb_core 64 jh_block (buf sc) (ptr sc) data (H sc, block_count sc) in
  mk_ctx b p h count.

(** [u] is the initial content of the local [buf[128]]. *)
Definition jh_close (sc : sph_jh_context) (ub : Z) (n out_size_w32 : nat) (iv u : list Z)
    : list Z * sph_jh_context :=
  let b := <[0%nat := pad_byte ub n]> u in
  let numz := if (ptr sc =? 0)%nat && (n =? 0)%nat then 47%nat else (111 - ptr sc)%nat in
  let b := memset b 1 0 numz in
  let l0 := SPH_T64 (SPH_T64 (block_count sc ≪ 9) + (Z.of_nat (ptr sc) ≪ 3) + Z.of_nat n) in
  let l1 := SPH_T64 (block_count sc ≫ 55) in
  let b := memcpy b (numz + 1) (sph_enc64be l1) in
  let b := memcpy b (numz + 9) (sph_enc64be l0) in
  let sc := jh_core sc (take (numz + 17) b) in
  let b := fold_left (λ b u, memcpy b (8 * u) (sph_enc64le (H sc @@ (u + 8)))) (seq 0 8) b in
  (take (4 * out_size_w32) (drop (4 * (16 - out_size_w32)) b), jh_init sc iv).

Definition sph_jh224_init sc := jh_init sc IV224.
Definition sph_jh224 := jh_core.
Definition sph_jh224_addbits_and_close (sc : sph_jh_context) (ub : Z) (n : nat) (u : list Z) :=
  jh_close sc ub n 7 IV224 u.
Definition sph_jh224_close (sc : sph_jh_context) (u : list Z) := jh_close sc 0 0 7 IV224 u.

Definition sph_jh256_init sc := jh_init sc IV256.
Definition sph_jh256 := jh_core.
Definition sph_jh256_addbits_and_close (sc : sph_jh_context) (ub : Z) (n : nat) (u : list Z) :=
  jh_close sc ub n 8 IV256 u.
Definition sph_jh256_close (sc : sph_jh_context) (u : list Z) := jh_close sc 0 0 8 IV256 u.

Definition sph_jh384_init sc := jh_init sc IV384.
Definition sph_jh384 := jh_core.
Definition sph_jh384_addbits_and_close (sc : sph_jh_context) (ub : Z) (n : nat) (u : list Z) :=
  jh_close sc ub n 12 IV384 u.
Definition sph_jh384_close (sc : sph_jh_context) (u : list Z) := jh_close sc 0 0 12 IV384 u.

Definition sph_jh512_init sc := jh_init sc IV512.
Definition sph_jh512 := jh_core.
Definition sph_jh512_addbits_and_close (sc : sph_jh_context) (ub : Z) (n : nat) (u : list Z) :=
  jh_close sc ub n 16 IV512 u.
Definition sph_jh512_close (sc : sph_jh_context) (u : list Z) := jh_close sc 0 0 16 IV512 u.

(** ** The bit-sliced layers, element by element *)

(** The 4-bit element at position [i] of four words, [x0] the high bit. *)
Definition nibble (x : Z * Z * Z * Z) (i : Z) : Z :=
  let '(x0, x1, x2, x3) := x in
  8 * Z.b2z (Z.testbit x0 i) + 4 * Z.b2z (Z.testbit x1 i)
  + 2 * Z.b2z (Z.testbit x2 i) + Z.b2z (Z.testbit x3 i).

(** JH's two S-boxes. *)
Definition S0 : list Z := [9; 0; 4; 11; 13; 12; 3; 15; 1; 10; 2; 6; 7; 5; 8; 14].
Definition S1 : list Z := [3; 12; 6; 13; 5; 7; 1; 9; 15; 2; 0; 4; 11; 10; 14; 8].

(** Multiplication by 2 in GF(16) modulo [x^4 + x + 1]. *)
Definition mul2 (a : Z) : Z := let a := 2 * a in if a <? 16 then a else a ^^ 0x13.

(** JH's linear transformation of two elements. *)
Definition Lmds (a b : Z) : Z * Z :=
  let d := b ^^ mul2 a in (a ^^ mul2 d, d).

Ltac bool_cases :=
  repeat match goal with |- context [Z.testbit ?x ?i] => destruct (Z.testbit x i) end.

(** The bit-sliced S-boxes at each bit position. *)
Lemma Sb_sbox x0 x1 x2 x3 c i :
  0 <= i < 64 →
  nibble (Sb x0 x1 x2 x3 c) i =
  (if Z.testbit c i then S1 else S0) @@ Z.to_nat (nibble (x0, x1, x2, x3) i).
Proof.
  intros Hi. unfold Sb, nibble. cbv zeta.
  repeat (rewrite ?Z.lxor_spec, ?Z.land_spec, ?Z.lor_spec, ?not64_bit by exact Hi).
  bool_cases; reflexivity.
Qed.

(** The bit-sliced linear layer at each bit position. *)
Lemma Lb_mds x0 x1 x2 x3 x4 x5 x6 x7 i :
  let '(a, b) := Lb x0 x1 x2 x3 x4 x5 x6 x7 in
  (nibble a i, nibble b i) = Lmds (nibble (x0, x1, x2, x3) i) (nibble (x4, x5, x6, x7) i).
Proof.
  unfold Lb, nibble. cbv zeta. repeat rewrite Z.lxor_spec. bool_cases; reflexivity.
Qed.

(** ** The two forms of the permutation *)

Lemma rounds_unrolled {X} (f : nat → nat → X → X) h :
  fold_left (λ h '(r, ro), f r ro h) E8_rounds h =
  fold_left (λ h r, fold_left (λ h ro, f (r + ro)%nat ro h) (seq 0 7) h)
    [0; 7; 14; 21; 28; 35]%nat h.
Proof. reflexivity. Qed.

(** The rounds written out and the small-footprint loop. *)
Lemma E8_unrolled_loop h : E8 h = E8_small h.
Proof. unfold E8, E8_small. apply (rounds_unrolled SLu). Qed.

(** The compression function. *)
Definition F8 (blk h : list Z) : list Z := INPUT_BUF2 blk (E8 (INPUT_BUF1 blk h)).

(** The tables of initial values are the compression function on the digest
    length and an empty block. *)
Lemma jh_initial_values :
  let init bits := F8 (replicate 64 0) (C64e (bits ≪ 48) :: replicate 15 0) in
  IV224 = init 224 ∧ IV256 = init 256 ∧ IV384 = init 384 ∧ IV512 = init 512.
Proof. refine (conj _ (conj _ (conj _ _))); vm_compute; reflexivity. Qed.

(** ** Specification *)

Definition jh_zeros (n len : nat) : nat :=
  if (len mod 64 =? 0)%nat && (n =? 0)%nat then 47 else 111 - len mod 64.

Definition jh_padding (ub : Z) (n len : nat) (l : Z) : list Z :=
  pad_byte ub n :: replicate (jh_zeros n len) 0 ++ reverse (le_split 16 l).

Definition jh_spec (iv msg : list Z) (ub : Z) (n w : nat) : list Z :=
  let padded := msg ++ jh_padding ub n (length msg) (bit_length msg n) in
  let h := run F8 (full_blocks 64 padded) iv in
  take (4 * w) (drop (4 * (16 - w)) (concat (le_split 8 <$> drop 8 h))).

(** ** Correctness *)

Lemma length_SLu r ro h : length (SLu r ro h) = length h.
Proof.
  unfold SLu. do 16 (destruct h as [|? h]; [done|]). destruct h; [|done].
  destruct (Sb _ _ _ _ _) as [[[??]?]?]. destruct (Sb _ _ _ _ _) as [[[??]?]?].
  destruct (Sb _ _ _ _ _) as [[[??]?]?]. destruct (Sb _ _ _ _ _) as [[[??]?]?].
  destruct (Lb _ _ _ _ _ _ _ _) as [[[[??]?]?] [[[??]?]?]].
  destruct (Lb _ _ _ _ _ _ _ _) as [[[[??]?]?] [[[??]?]?]].
  do 4 destruct (W ro _). done.
Qed.

Lemma length_E8 h : length (E8 h) = length h.
Proof.
  unfold E8. generalize E8_rounds. intros l. revert h.
  induction l as [|[r ro] l IH]; intros h; [done|].
  rewrite fold_left_cons, IH. apply length_SLu.
Qed.

#[local] Opaque E8.

Definition ctx_ok (sc : sph_jh_context) : Prop := buf_ok 64 (buf sc) (ptr sc).
Definition cview (sc : sph_jh_context) : list Z * (list Z * Z) :=
  (take (ptr sc) (buf sc), (H sc, block_count sc)).

Lemma jh_core_view sc data :
  ctx_ok sc →
  ctx_ok (jh_core sc data) ∧ cview (jh_core sc data) = absorb 64 jh_block (cview sc) data.
Proof.
  intros Hok. unfold jh_core, cview.
  destruct (absorb_core_spec 64 jh_block (buf sc) (ptr sc) data (H sc, block_count sc) Hok)
    as [Ho Hv].
  destruct (absorb_core _ _ _ _ _ _) as [[b p] [h c]]. done.
Qed.

(** The counter counts the blocks. *)
Lemma run_jh bs h c :
  word 64 c →
  run jh_block bs (h, c) = (run F8 bs h, SPH_T64 (c + Z.of_nat (length bs))).
Proof.
  revert h c. induction bs as [|b bs IH]; intros h c Hc.
  { simpl. by rewrite Z.add_0_r, SPH_T64_id. }
  rewrite !run_cons. unfold jh_block at 2. fold (F8 b h). rewrite IH by apply word_T64.
  f_equal. rewrite !SPH_T64_mod, Zplus_mod_idemp_l. f_equal. simpl. lia.
Qed.

Lemma length_INPUT_BUF1 blk h : length (INPUT_BUF1 blk h) = length h.
Proof. apply (length_update_loop (λ j y, y ^^ sph_dec64le_aligned (drop (8 * j) blk))). Qed.

Lemma length_F8 blk h : length h = 16%nat → length (F8 blk h) = 16%nat.
Proof.
  intros Hh. unfold F8, INPUT_BUF2.
  set (k := E8 _). assert (Hk : length k = 16%nat) by (subst k; by rewrite length_E8, length_INPUT_BUF1).
  clearbody k. generalize (seq 0 8). intros l. revert k Hk.
  induction l as [|j l IH]; intros k Hk; [done|].
  rewrite fold_left_cons. apply IH. by rewrite length_insert.
Qed.

Lemma length_run_F8 bs h : length h = 16%nat → length (run F8 bs h) = 16%nat.
Proof.
  intros. apply (run_inv F8 (λ h, length h = 16%nat) (λ _, True)); [|by apply Forall_true|done].
  intros. by apply length_F8.
Qed.

(** What [jh_close] puts in its local buffer. *)
Lemma close_bytes u pb numz th tl :
  (numz <= 111)%nat → length u = 128%nat → length th = 8%nat → length tl = 8%nat →
  let b := memcpy (memcpy (memset (<[0%nat := pb]> u) 1 0 numz) (numz + 1) th) (numz + 9) tl in
  take (numz + 17) b = pb :: replicate numz 0 ++ th ++ tl ∧ length b = 128%nat.
Proof.
  intros Hn Hu Hth Htl b.
  assert (E : b = memcpy u 0 (pb :: replicate numz 0 ++ th ++ tl)).
  { subst b. unfold memset. rewrite insert_memcpy by (rewrite length_replicate; lia).
    rewrite (memcpy_memcpy u (pb :: replicate numz 0) th) by (simpl; rewrite ?length_replicate; lia).
    rewrite memcpy_memcpy by (rewrite length_app; simpl; rewrite ?length_replicate; lia).
    by simplify_list_eq. }
  assert (Hl : length (pb :: replicate numz 0 ++ th ++ tl) = (numz + 17)%nat)
    by (simpl; rewrite !length_app, length_replicate; lia).
  rewrite E. split.
  - by apply take_memcpy_0.
  - rewrite length_memcpy; lia.
Qed.

(** The length field: 512 bits per counted block, then what is in the buffer. *)
Lemma jh_length k p n :
  0 <= k < 2 ^ 64 → (p < 64)%nat → (n < 8)%nat →
  let l := 512 * k + 8 * Z.of_nat p + Z.of_nat n in
  sph_enc64be (SPH_T64 (k ≫ 55)) ++
  sph_enc64be (SPH_T64 (SPH_T64 (k ≪ 9) + (Z.of_nat p ≪ 3) + Z.of_nat n)) =
  reverse (le_split 16 l).
Proof.
  intros Hk Hp Hn l. rewrite <-enc128be by (subst l; lia).
  rewrite !SPH_T64_mod, !Z.shiftl_mul_pow2, Z.shiftr_div_pow2 by lia. change (2 ^ 9) with 512.
  change (2 ^ 3) with 8.
  assert (E1 : (k / 2 ^ 55) mod 2 ^ 64 = l / 2 ^ 64)
    by (subst l; Z.to_euclidean_division_equations; lia).
  assert (E2 : ((k * 512) mod 2 ^ 64 + Z.of_nat p * 8 + Z.of_nat n) mod 2 ^ 64 = l mod 2 ^ 64).
  { rewrite <-Z.add_assoc, Zplus_mod_idemp_l. f_equal. subst l. lia. }
  by rewrite E1, E2.
Qed.

Lemma jh_output h b w :
  length h = 16%nat → length b = 128%nat → (w <= 16)%nat →
  take (4 * w) (drop (4 * (16 - w))
    (fold_left (λ b u, memcpy b (8 * u) (sph_enc64le (h @@ (u + 8)))) (seq 0 8) b)) =
  take (4 * w) (drop (4 * (16 - w)) (concat (le_split 8 <$> drop 8 h))).
Proof.
  intros Hh Hb Hw.
  destruct (write_loop (λ u, sph_enc64le (h @@ (u + 8))) 8 8 b) as [_ E]; [done|lia|].
  rewrite (take_drop_take _ _ _ (8 * 8)) by lia. rewrite E. do 3 f_equal.
  do 16 (destruct h as [|? h]; [discriminate Hh|]). destruct h; [done|discriminate Hh].
Qed.

Lemma jh_correct cc iv iv' chunks ub n w u :
  length (buf cc) = 64%nat → length iv = 16%nat → length u = 128%nat →
  (n < 8)%nat → (w <= 16)%nat → bit_length (concat chunks) n < 2 ^ 73 →
  fst (jh_close (fold_left jh_core chunks (jh_init cc iv)) ub n w iv' u) =
  jh_spec iv (concat chunks) ub n w.
Proof.
  intros Hb Hiv Hu Hn Hw Hl. set (msg := concat chunks) in *.
  destruct (updates_view 64 jh_block jh_core ctx_ok cview chunks (jh_init cc iv))
    as [Hok Hv]; [apply jh_core_view|by split; [|simpl; lia]|].
  set (sc := fold_left _ _ _) in *. fold msg in Hv.
  change (cview (jh_init cc iv)) with (@nil Z, (iv, 0)) in Hv.
  assert (Hv2 := Hv). rewrite absorb_message, run_jh in Hv2 by (done || lia).
  rewrite length_full_blocks in Hv2. unfold bit_length in Hl.
  pose proof (Nat.div_mod_eq (length msg) 64) as Hd.
  pose proof (Nat.mod_upper_bound (length msg) 64 ltac:(lia)) as Hr.
  set (k := (length msg / 64)%nat) in *. set (r := (length msg mod 64)%nat) in *.
  rewrite SPH_T64_id in Hv2 by (unfold word; lia).
  assert (Hp : ptr sc = r).
  { apply (f_equal (λ v, length (fst v))) in Hv2. cbn [cview fst] in Hv2.
    destruct Hok. rewrite length_take, length_rest in Hv2 by lia. fold r in Hv2. lia. }
  assert (Hc : block_count sc = Z.of_nat k) by (by inversion Hv2).
  unfold jh_close, jh_spec. cbv zeta. cbn [fst]. fold msg.
  assert (Hz : (if ((r =? 0) && (n =? 0))%nat then 47 else 111 - r)%nat = jh_zeros n (length msg))
    by done.
  rewrite Hp, Hc, Hz.
  assert (Hz' : (jh_zeros n (length msg) <= 111)%nat).
  { rewrite <-Hz. destruct (_ && _); lia. }
  set (th := sph_enc64be (SPH_T64 (_ ≫ 55))). set (tl := sph_enc64be (SPH_T64 (_ + _))).
  destruct (close_bytes u (pad_byte ub n) (jh_zeros n (length msg)) th tl Hz' Hu)
    as [Hby Hbl]; [done..|].
  rewrite Hby. subst th tl. rewrite (jh_length (Z.of_nat k) r n) by lia.
  replace (512 * Z.of_nat k + 8 * Z.of_nat r + Z.of_nat n) with (bit_length msg n)
    by (unfold bit_length; lia).
  fold (jh_padding ub n (length msg) (bit_length msg n)).
  destruct (jh_core_view sc (jh_padding ub n (length msg) (bit_length msg n)) Hok) as [_ Hc2].
  rewrite Hv, <-absorb_app, absorb_message, run_jh in Hc2 by (done || lia).
  apply (f_equal (λ v, fst (snd v))) in Hc2. cbn [cview fst snd] in Hc2. rewrite Hc2.
  apply jh_output; [by apply length_run_F8|exact Hbl|done].
Qed.

(** JH-512 over its streaming interface: initialise, update with any
    sequence of chunks, close with [n] extra bits gives the JH-512 hash of the
    concatenated data (shorter than 2^73 bits, what the block counter of the
    code can count), whatever the context and the local buffer held before. *)
Theorem sph_jh512_correct cc chunks ub n u :
  length (buf cc) = 64%nat → length u = 128%nat → (n < 8)%nat →
  bit_length (concat chunks) n < 2 ^ 73 →
  fst (sph_jh512_addbits_and_close (fold_left sph_jh512 chunks (sph_jh512_init cc)) ub n u) =
  jh_spec IV512 (concat chunks) ub n 16.
Proof. intros. by apply jh_correct. Qed.

End Jh.
