(* ===== verification/Luffa.v ===== *)
(** * Luffa: crypto/x11/luffa.c, sph_luffa.h

    The seventh hash of the X11 chain.  The state is [w] rows of eight 32-bit
    words, [w] = 3 for Luffa-224/256, 4 for Luffa-384, 5 for Luffa-512.  On a
    64-bit host the permutations of two rows run in parallel, a word of one
    row in each half of a 64-bit word ([SPH_LUFFA_PARALLEL]); the theorems
    show that this computes the row-by-row permutation, that the bit-sliced
    substitution is Luffa's S-box, that the message injection is
    multiplication by a matrix, and that the streaming interface hashes the
    whole message. *)
From S2P Require Import Prelude SphTypes Stream Padding.

Module Luffa.

(** ** Constants *)

Definition V_INIT : list (list Z) :=
  [[0x6d251e69; 0x44b051e0; 0x4eaa6fb4; 0xdbf78465; 0x6e292011; 0x90152df4; 0xee058139; 0xdef610bb];
   [0xc3b44b95; 0xd9d2f256; 0x70eee9a0; 0xde099fa3; 0x5d9b0557; 0x8fc944b3; 0xcf1ccf0e; 0x746cd581];
   [0xf7efc89d; 0x5dba5781; 0x04016ce5; 0xad659c05; 0x0306194f; 0x666d1836; 0x24aa230a; 0x8b264ae7];
   [0x858075d5; 0x36d79cce; 0xe571f7d7; 0x204b1f67; 0x35870c6a; 0x57e9e923; 0x14bcb808; 0x7cde72ce];
   [0x6c68e9be; 0x5ec41e22; 0xc825b7c7; 0xaffb4363; 0xf5df3999; 0x0fc688f1; 0xb07224cc; 0x03e86cea]].
Definition RC00 : list Z :=
  [0x303994a6; 0xc0e65299; 0x6cc33a12; 0xdc56983e; 0x1e00108f; 0x7800423d; 0x8f5b7882; 0x96e1db12].
Definition RC04 : list Z :=
  [0xe0337818; 0x441ba90d; 0x7f34d442; 0x9389217f; 0xe5a8bce6; 0x5274baf4; 0x26889ba7; 0x9a226e9d].
Definition RC10 : list Z :=
  [0xb6de10ed; 0x70f47aae; 0x0707a3d4; 0x1c1e8f51; 0x707a3d45; 0xaeb28562; 0xbaca1589; 0x40a46f3e].
Definition RC14 : list Z :=
  [0x01685f3d; 0x05a17cf4; 0xbd09caca; 0xf4272b28; 0x144ae5cc; 0xfaa7ae2b; 0x2e48f1c1; 0xb923c704].
Definition RCW010 : list Z :=
  [0xb6de10ed303994a6; 0x70f47aaec0e65299; 0x0707a3d46cc33a12; 0x1c1e8f51dc56983e;
   0x707a3d451e00108f; 0xaeb285627800423d; 0xbaca15898f5b7882; 0x40a46f3e96e1db12].
Definition RCW014 : list Z :=
  [0x01685f3de0337818; 0x05a17cf4441ba90d; 0xbd09caca7f34d442; 0xf4272b289389217f;
   0x144ae5cce5a8bce6; 0xfaa7ae2b5274baf4; 0x2e48f1c126889ba7; 0xb923c7049a226e9d].
Definition RC20 : list Z :=
  [0xfc20d9d2; 0x34552e25; 0x7ad8818f; 0x8438764a; 0xbb6de032; 0xedb780c8; 0xd9847356; 0xa2c78434].
Definition RC24 : list Z :=
  [0xe25e72c1; 0xe623bb72; 0x5c58a4a4; 0x1e38e2e7; 0x78e38b9d; 0x27586719; 0x36eda57f; 0x703aace7].
Definition RC30 : list Z :=
  [0xb213afa5; 0xc84ebe95; 0x4e608a22; 0x56d858fe; 0x343b138f; 0xd0ec4e3d; 0x2ceb4882; 0xb3ad2208].
Definition RC34 : list Z :=
  [0xe028c9bf; 0x44756f91; 0x7e8fce32; 0x956548be; 0xfe191be2; 0x3cb226e5; 0x5944a28e; 0xa1c4c355].
Definition RCW230 : list Z :=
  [0xb213afa5fc20d9d2; 0xc84ebe9534552e25; 0x4e608a227ad8818f; 0x56d858fe8438764a;
   0x343b138fbb6de032; 0xd0ec4e3dedb780c8; 0x2ceb4882d9847356; 0xb3ad2208a2c78434].
Definition RCW234 : list Z :=
  [0xe028c9bfe25e72c1; 0x44756f91e623bb72; 0x7e8fce325c58a4a4; 0x956548be1e38e2e7;
   0xfe191be278e38b9d; 0x3cb226e527586719; 0x5944a28e36eda57f; 0xa1c4c355703aace7].
Definition RC40 : list Z :=
  [0xf0d2e9e3; 0xac11d7fa; 0x1bcb66f2; 0x6f2d9bc9; 0x78602649; 0x8edae952; 0x3b6ba548; 0xedae9520].
Definition RC44 : list Z :=
  [0x5090d577; 0x2d1925ab; 0xb46496ac; 0xd1925ab0; 0x29131ab6; 0x0fc053c3; 0x3f014f0c; 0xfc053c31].

(** ** Rows of eight words *)

(** [M2(d, s)]: multiplication by [x] modulo [x^8 + x^4 + x^3 + x + 1], the
    eight words being the coefficients. *)
Definition M2 (s : list Z) : list Z :=
  let tmp := s @@ 7 in
  [tmp; s @@ 0 ^^ tmp; s @@ 1; s @@ 2 ^^ tmp; s @@ 3 ^^ tmp; s @@ 4; s @@ 5; s @@ 6].

Definition XOR (s1 s2 : list Z) : list Z :=
  [s1 @@ 0 ^^ s2 @@ 0; s1 @@ 1 ^^ s2 @@ 1; s1 @@ 2 ^^ s2 @@ 2; s1 @@ 3 ^^ s2 @@ 3;
   s1 @@ 4 ^^ s2 @@ 4; s1 @@ 5 ^^ s2 @@ 5; s1 @@ 6 ^^ s2 @@ 6; s1 @@ 7 ^^ s2 @@ 7].

(** ** Substitution and mixing *)

(** [SUB_CRUMB_GEN], with the complement of its width. *)
Definition SUB_CRUMB_GEN (nt : Z → Z) (a0 a1 a2 a3 : Z) : Z * Z * Z * Z :=
  let tmp := a0 in
  let a0 := Z.lor a0 a1 in
  let a2 := a2 ^^ a3 in
  let a1 := nt a1 in
  let a0 := a0 ^^ a3 in
  let a3 := Z.land a3 tmp in
  let a1 := a1 ^^ a3 in
  let a3 := a3 ^^ a2 in
  let a2 := Z.land a2 a0 in
  let a0 := nt a0 in
  let a2 := a2 ^^ a1 in
  let a1 := Z.lor a1 a3 in
  let tmp := tmp ^^ a1 in
  let a3 := a3 ^^ a2 in
  let a2 := Z.land a2 a1 in
  let a1 := a1 ^^ a0 in
  let a0 := tmp in
  (a0, a1, a2, a3).

Definition SUB_CRUMB := SUB_CRUMB_GEN not32.
Definition SUB_CRUMBW := SUB_CRUMB_GEN not64.

Definition MIX_WORD (u v : Z) : Z * Z :=
  let v := v ^^ u in
  let u := SPH_ROTL32 u 2 ^^ v in
  let v := SPH_ROTL32 v 14 ^^ u in
  let u := SPH_ROTL32 u 10 ^^ v in
  let v := SPH_ROTL32 v 1 in
  (u, v).

Definition MIX_WORDW (u v : Z) : Z * Z :=
  let v := v ^^ u in
  let ul := SPH_T32 u in
  let uh := SPH_T32 (u ≫ 32) in
  let vl := SPH_T32 v in
  let vh := SPH_T32 (v ≫ 32) in
  let ul := SPH_ROTL32 ul 2 ^^ vl in
  let vl := SPH_ROTL32 vl 14 ^^ ul in
  let ul := SPH_ROTL32 ul 10 ^^ vl in
  let vl := SPH_ROTL32 vl 1 in
  let uh := SPH_ROTL32 uh 2 ^^ vh in
  let vh := SPH_ROTL32 vh 14 ^^ uh in
  let uh := SPH_ROTL32 uh 10 ^^ vh in
  let vh := SPH_ROTL32 vh 1 in
  (Z.lor ul (uh ≪ 32), Z.lor vl (vh ≪ 32)).

(** The body of the round loops, over the substitution and mixing of its width. *)
Definition crumb_round (sub : Z → Z → Z → Z → Z * Z * Z * Z) (mix : Z → Z → Z * Z)
    (rc0 rc4 : Z) (v : list Z) : list Z :=
  match v with
  | [v0; v1; v2; v3; v4; v5; v6; v7] =>
    let '(v0, v1, v2, v3) := sub v0 v1 v2 v3 in
    let '(v5, v6, v7, v4) := sub v5 v6 v7 v4 in
    let '(v0, v4) := mix v0 v4 in
    let '(v1, v5) := mix v1 v5 in
    let '(v2, v6) := mix v2 v6 in
    let '(v3, v7) := mix v3 v7 in
    [v0 ^^ rc0; v1; v2; v3; v4 ^^ rc4; v5; v6; v7]
  | _ => v
  end.

(** [for (r = 0; r < 8; r ++)] on one row, and on two rows in parallel. *)
Definition row_rounds (rc0 rc4 v : list Z) : list Z :=
  fold_left (λ v r, crumb_round SUB_CRUMB MIX_WORD (rc0 @@ r) (rc4 @@ r) v) (seq 0 8) v.
Definition row_roundsW (rc0 rc4 v : list Z) : list Z :=
  fold_left (λ v r, crumb_round SUB_CRUMBW MIX_WORDW (rc0 @@ r) (rc4 @@ r) v) (seq 0 8) v.

(** [W = (sph_u64)lo | ((sph_u64)hi << 32)] and back, word by word. *)
Definition pack (lo hi : list Z) : list Z := zip_with (λ l h, Z.lor l (h ≪ 32)) lo hi.
Definition unpack_lo (w : list Z) : list Z := SPH_T32 <$> w.
Definition unpack_hi (w : list Z) : list Z := (λ x, SPH_T32 (x ≫ 32)) <$> w.

(** [TWEAK]: the words 4 to 7 of row [j] are rotated by [j]. *)
Definition tweak_row (j : Z) (v : list Z) : list Z :=
  match v with
  | [v0; v1; v2; v3; v4; v5; v6; v7] =>
    [v0; v1; v2; v3; SPH_ROTL32 v4 j; SPH_ROTL32 v5 j; SPH_ROTL32 v6 j; SPH_ROTL32 v7 j]
  | _ => v
  end.

(** The eight message words of the buffer. *)
Definition load_M (buf : list Z) : list Z :=
  (λ i, sph_dec32be_aligned (drop (4 * i) buf)) <$> seq 0 8.

(** ** Three rows *)

Definition MI3 (buf : list Z) (V : list (list Z)) : list (list Z) :=
  match V with
  | [V0; V1; V2] =>
    let M := load_M buf in
    let a := XOR V0 V1 in
    let a := XOR a V2 in
    let a := M2 a in
    let V0 := XOR a V0 in
    let V0 := XOR M V0 in
    let M := M2 M in
    let V1 := XOR a V1 in
    let V1 := XOR M V1 in
    let M := M2 M in
    let V2 := XOR a V2 in
    let V2 := XOR M V2 in
    [V0; V1; V2]
  | _ => V
  end.

Definition TWEAK3 (V : list (list Z)) : list (list Z) :=
  match V with
  | [V0; V1; V2] => [V0; tweak_row 1 V1; tweak_row 2 V2]
  | _ => V
  end.

(** [P3] of a parallel build, and of the others. *)
Definition P3 (V : list (list Z)) : list (list Z) :=
  match TWEAK3 V with
  | [V0; V1; V2] =>
    let W := row_roundsW RCW010 RCW014 (pack V0 V1) in
    [unpack_lo W; unpack_hi W; row_rounds RC20 RC24 V2]
  | V => V
  end.

Definition P3_seq (V : list (list Z)) : list (list Z) :=
  match TWEAK3 V with
  | [V0; V1; V2] =>
    [row_rounds RC00 RC04 V0; row_rounds RC10 RC14 V1; row_rounds RC20 RC24 V2]
  | V => V
  end.

(** ** Four rows *)

Definition MI4 (buf : list Z) (V : list (list Z)) : list (list Z) :=
  match V with
  | [V0; V1; V2; V3] =>
    let M := load_M buf in
    let a := XOR V0 V1 in
    let b := XOR V2 V3 in
    let a := XOR a b in
    let a := M2 a in
    let V0 := XOR a V0 in
    let V1 := XOR a V1 in
    let V2 := XOR a V2 in
    let V3 := XOR a V3 in
    let b := M2 V0 in
    let b := XOR b V3 in
    let V3 := M2 V3 in
    let V3 := XOR V3 V2 in
    let V2 := M2 V2 in
    let V2 := XOR V2 V1 in
    let V1 := M2 V1 in
    let V1 := XOR V1 V0 in
    let V0 := XOR b M in
    let M := M2 M in
    let V1 := XOR V1 M in
    let M := M2 M in
    let V2 := XOR V2 M in
    let M := M2 M in
    let V3 := XOR V3 M in
    [V0; V1; V2; V3]
  | _ => V
  end.

Definition TWEAK4 (V : list (list Z)) : list (list Z) :=
  match V with
  | [V0; V1; V2; V3] => [V0; tweak_row 1 V1; tweak_row 2 V2; tweak_row 3 V3]
  | _ => V
  end.

Definition P4 (V : list (list Z)) : list (list Z) :=
  match TWEAK4 V with
  | [V0; V1; V2; V3] =>
    let W := row_roundsW RCW010 RCW014 (pack V0 V1) in
    let X := row_roundsW RCW230 RCW234 (pack V2 V3) in
    [unpack_lo W; unpack_hi W; unpack_lo X; unpack_hi X]
  | V => V
  end.

Definition P4_seq (V : list (list Z)) : list (list Z) :=
  match TWEAK4 V with
  | [V0; V1; V2; V3] =>
    [row_rounds RC00 RC04 V0; row_rounds RC10 RC14 V1;
     row_rounds RC20 RC24 V2; row_rounds RC30 RC34 V3]
  | V => V
  end.

(** ** Five rows *)

Definition MI5 (buf : list Z) (V : list (list Z)) : list (list Z) :=
  match V with
  | [V0; V1; V2; V3; V4] =>
    let M := load_M buf in
    let a := XOR V0 V1 in
    let b := XOR V2 V3 in
    let a := XOR a b in
    let a := XOR a V4 in
    let a := M2 a in
    let V0 := XOR a V0 in
    let V1 := XOR a V1 in
    let V2 := XOR a V2 in
    let V3 := XOR a V3 in
    let V4 := XOR a V4 in
    let b := M2 V0 in
    let b := XOR b V1 in
    let V1 := M2 V1 in
    let V1 := XOR V1 V2 in
    let V2 := M2 V2 in
    let V2 := XOR V2 V3 in
    let V3 := M2 V3 in
    let V3 := XOR V3 V4 in
    let V4 := M2 V4 in
    let V4 := XOR V4 V0 in
    let V0 := M2 b in
    let V0 := XOR V0 V4 in
    let V4 := M2 V4 in
    let V4 := XOR V4 V3 in
    let V3 := M2 V3 in
    let V3 := XOR V3 V2 in
    let V2 := M2 V2 in
    let V2 := XOR V2 V1 in
    let V1 := M2 V1 in
    let V1 := XOR V1 b in
    let V0 := XOR V0 M in
    let M := M2 M in
    let V1 := XOR V1 M in
    let M := M2 M in
    let V2 := XOR V2 M in
    let M := M2 M in
    let V3 := XOR V3 M in
    let M := M2 M in
    let V4 := XOR V4 M in
    [V0; V1; V2; V3; V4]
  | _ => V
  end.

Definition TWEAK5 (V : list (list Z)) : list (list Z) :=
  match V with
  | [V0; V1; V2; V3; V4] =>
    [V0; tweak_row 1 V1; tweak_row 2 V2; tweak_row 3 V3; tweak_row 4 V4]
  | _ => V
  end.

Definition P5 (V : list (list Z)) : list (list Z) :=
  match TWEAK5 V with
  | [V0; V1; V2; V3; V4] =>
    let W := row_roundsW RCW010 RCW014 (pack V0 V1) in
    let X := row_roundsW RCW230 RCW234 (pack V2 V3) in
    [unpack_lo W; unpack_hi W; unpack_lo X; unpack_hi X; row_rounds RC40 RC44 V4]
  | V => V
  end.

Definition P5_seq (V : list (list Z)) : list (list Z) :=
  match TWEAK5 V with
  | [V0; V1; V2; V3; V4] =>
    [row_rounds RC00 RC04 V0; row_rounds RC10 RC14 V1; row_rounds RC20 RC24 V2;
     row_rounds RC30 RC34 V3; row_rounds RC40 RC44 V4]
  | V => V
  end.

(** ** The contexts and their operations

    The three context types differ in the number of rows. *)

Record sph_luffa_context := mk_ctx { buf : list Z; ptr : nat; V : list (list Z) }.

(** [luffa3], [luffa4] and [luffa5] are the same loop around their [MI] and [P]. *)
Definition luffa_core (MI : list Z → list (list Z) → list (list Z))
    (P : list (list Z) → list (list Z)) (sc : sph_luffa_context) (data : list Z)
    : sph_luffa_context :=
  let '(b, p, v) := absorb_core 32 (λ buf v, P (MI buf v)) (buf sc) (ptr sc) data (V sc) in
  mk_ctx b p v.

Definition luffa3 := luffa_core MI3 P3.
Definition luffa4 := luffa_core MI4 P4.
Definition luffa5 := luffa_core MI5 P5.

(** The words [V0j ^ V1j ^ ...] written to the output. *)
Definition out_words (v : list (list Z)) : list Z :=
  match v with
  | V0 :: vs => fold_left XOR vs V0
  | [] => []
  end.
Definition enc_words (k : nat) (w : list Z) : list Z := concat (sph_enc32be <$> take k w).

(** [buf[ptr ++] = pad byte; memset(buf + ptr, 0, ...)]. *)
Definition pad_buf (sc : sph_luffa_context) (ub : Z) (n : nat) : list Z :=
  memset (<[ptr sc := pad_byte ub n]> (buf sc)) (S (ptr sc)) 0 (32 - S (ptr sc)).

Definition luffa3_close (sc : sph_luffa_context) (ub : Z) (n out_size_w32 : nat)
    : list Z * sph_luffa_context :=
  let b := pad_buf sc ub n in
  let v := P3 (MI3 b (V sc)) in
  let b := memset b 0 0 32 in
  let v := P3 (MI3 b v) in
  let b := memset b 0 0 32 in
  (enc_words (if (7 <? out_size_w32)%nat then 8 else 7) (out_words v),
   mk_ctx b (ptr sc) (V sc)).

Definition luffa4_close (sc : sph_luffa_context) (ub : Z) (n : nat)
    : list Z * sph_luffa_context :=
  let b := pad_buf sc ub n in
  let v := P4 (MI4 b (V sc)) in
  let b := memset b 0 0 32 in
  let v1 := P4 (MI4 b v) in
  let v2 := P4 (MI4 b v1) in
  (enc_words 8 (out_words v1) ++ enc_words 4 (out_words v2), mk_ctx b (ptr sc) (V sc)).

Definition luffa5_close (sc : sph_luffa_context) (ub : Z) (n : nat)
    : list Z * sph_luffa_context :=
  let b := pad_buf sc ub n in
  let v := P5 (MI5 b (V sc)) in
  let b := memset b 0 0 32 in
  let v1 := P5 (MI5 b v) in
  let v2 := P5 (MI5 b v1) in
  (enc_words 8 (out_words v1) ++ enc_words 8 (out_words v2), mk_ctx b (ptr sc) (V sc)).

Definition sph_luffa224_init (sc : sph_luffa_context) := mk_ctx (buf sc) 0 (take 3 V_INIT).
Definition sph_luffa224 := luffa3.
Definition sph_luffa224_addbits_and_close (sc : sph_luffa_context) (ub : Z) (n : nat) :=
  let '(dst, sc) := luffa3_close sc ub n 7 in (dst, sph_luffa224_init sc).
Definition sph_luffa224_close sc := sph_luffa224_addbits_and_close sc 0 0.

Definition sph_luffa256_init (sc : sph_luffa_context) := mk_ctx (buf sc) 0 (take 3 V_INIT).
Definition sph_luffa256 := luffa3.
Definition sph_luffa256_addbits_and_close (sc : sph_luffa_context) (ub : Z) (n : nat) :=
  let '(dst, sc) := luffa3_close sc ub n 8 in (dst, sph_luffa256_init sc).
Definition sph_luffa256_close sc := sph_luffa256_addbits_and_close sc 0 0.

Definition sph_luffa384_init (sc : sph_luffa_context) := mk_ctx (buf sc) 0 (take 4 V_INIT).
Definition sph_luffa384 := luffa4.
Definition sph_luffa384_addbits_and_close (sc : sph_luffa_context) (ub : Z) (n : nat) :=
  let '(dst, sc) := luffa4_close sc ub n in (dst, sph_luffa384_init sc).
Definition sph_luffa384_close sc := sph_luffa384_addbits_and_close sc 0 0.

Definition sph_luffa512_init (sc : sph_luffa_context) := mk_ctx (buf sc) 0 (take 5 V_INIT).
Definition sph_luffa512 := luffa5.
Definition sph_luffa512_addbits_and_close (sc : sph_luffa_context) (ub : Z) (n : nat) :=
  let '(dst, sc) := luffa5_close sc ub n in (dst, sph_luffa512_init sc).
Definition sph_luffa512_close sc := sph_luffa512_addbits_and_close sc 0 0.

(** ** The substitution is Luffa's S-box *)

(** The 4-bit element at position [i], [a0] its low bit. *)
Definition nibble (a : Z * Z * Z * Z) (i : Z) : Z :=
  let '(a0, a1, a2, a3) := a in
  Z.b2z (Z.testbit a0 i) + 2 * Z.b2z (Z.testbit a1 i)
  + 4 * Z.b2z (Z.testbit a2 i) + 8 * Z.b2z (Z.testbit a3 i).

Definition sbox : list Z := [13; 14; 0; 1; 5; 10; 7; 6; 11; 3; 9; 12; 15; 8; 2; 4].

(** The bit-sliced substitution at each bit position. *)
Lemma SUB_CRUMB_sbox a0 a1 a2 a3 i :
  0 <= i < 32 →
  nibble (SUB_CRUMB a0 a1 a2 a3) i = sbox @@ Z.to_nat (nibble (a0, a1, a2, a3) i).
Proof.
  intros Hi. unfold SUB_CRUMB, SUB_CRUMB_GEN, nibble. cbv zeta.
  repeat (rewrite ?Z.lxor_spec, ?Z.land_spec, ?Z.lor_spec, ?not32_bit by exact Hi).
  repeat match goal with |- context [Z.testbit ?x ?i] => destruct (Z.testbit x i) end; reflexivity.
Qed.

(** ** Two rows in parallel *)

Definition pk (l h : Z) : Z := Z.lor l (h ≪ 32).

Lemma pk_bit l h i :
  word 32 l → 0 <= i →
  Z.testbit (pk l h) i = if i <? 32 then Z.testbit l i else Z.testbit h (i - 32).
Proof.
  intros Hl Hi. unfold pk. rewrite Z.lor_spec. destruct (Z.ltb_spec i 32).
  - rewrite Z.shiftl_spec_low by done. apply orb_false_r.
  - rewrite (word_testbit_high 32 l), Z.shiftl_spec by (done || lia). done.
Qed.

Lemma word_pk l h : word 32 l → word 32 h → word 64 (pk l h).
Proof.
  intros Hl Hh. apply word_lor; [lia|by apply (word_mono 32); [lia|]|].
  unfold word in *. rewrite Z.shiftl_mul_pow2 by lia. lia.
Qed.

Lemma pk_lo l h : word 32 l → SPH_T32 (pk l h) = l.
Proof.
  intros Hl. apply (word_ext 32); [word_solve..|]. intros i Hi.
  rewrite testbit_T32, pk_bit by (done || lia). by destruct (Z.ltb_spec i 32); [|lia].
Qed.

Lemma pk_hi l h : word 32 l → word 32 h → SPH_T32 (pk l h ≫ 32) = h.
Proof.
  intros Hl Hh. apply (word_ext 32); [word_solve..|]. intros i Hi.
  rewrite testbit_T32, Z.shiftr_spec, pk_bit by (done || lia).
  destruct (Z.ltb_spec (i + 32) 32); [lia|]. f_equal. lia.
Qed.

(** The bitwise operations act on the halves. *)
Ltac pk_halves :=
  intros; apply Z.bits_inj'; intros i Hi;
  rewrite ?Z.lxor_spec, ?Z.land_spec, ?Z.lor_spec, !pk_bit by word_solve;
  destruct (i <? 32); by rewrite ?Z.lxor_spec, ?Z.land_spec, ?Z.lor_spec.

Lemma pk_lxor a b c d :
  word 32 a → word 32 c → pk a b ^^ pk c d = pk (a ^^ c) (b ^^ d).
Proof. pk_halves. Qed.
Lemma pk_land a b c d :
  word 32 a → word 32 c → Z.land (pk a b) (pk c d) = pk (Z.land a c) (Z.land b d).
Proof. pk_halves. Qed.
Lemma pk_lor a b c d :
  word 32 a → word 32 c → Z.lor (pk a b) (pk c d) = pk (Z.lor a c) (Z.lor b d).
Proof. pk_halves. Qed.
Lemma pk_not a b : word 32 a → word 32 b → not64 (pk a b) = pk (not32 a) (not32 b).
Proof.
  intros Ha Hb. apply (word_ext 64); [word_solve|apply word_pk; word_solve|].
  intros i Hi. rewrite not64_bit, !pk_bit by (word_solve || lia).
  destruct (Z.ltb_spec i 32); by rewrite not32_bit by lia.
Qed.

Definition words4 (a : Z * Z * Z * Z) : Prop :=
  let '(a0, a1, a2, a3) := a in word 32 a0 ∧ word 32 a1 ∧ word 32 a2 ∧ word 32 a3.
Definition pk4 (a b : Z * Z * Z * Z) : Z * Z * Z * Z :=
  let '(a0, a1, a2, a3) := a in
  let '(b0, b1, b2, b3) := b in (pk a0 b0, pk a1 b1, pk a2 b2, pk a3 b3).

Lemma SUB_CRUMB_words a0 a1 a2 a3 :
  words4 (a0, a1, a2, a3) → words4 (SUB_CRUMB a0 a1 a2 a3).
Proof. intros (? & ? & ? & ?). refine (conj _ (conj _ (conj _ _))); word_tac. Qed.

Lemma SUB_CRUMBW_pk a0 a1 a2 a3 b0 b1 b2 b3 :
  words4 (a0, a1, a2, a3) → words4 (b0, b1, b2, b3) →
  SUB_CRUMBW (pk a0 b0) (pk a1 b1) (pk a2 b2) (pk a3 b3) =
  pk4 (SUB_CRUMB a0 a1 a2 a3) (SUB_CRUMB b0 b1 b2 b3).
Proof.
  intros (? & ? & ? & ?) (? & ? & ? & ?). unfold SUB_CRUMBW, SUB_CRUMB, SUB_CRUMB_GEN, pk4.
  cbv zeta.
  repeat first [rewrite pk_lxor by word_tac | rewrite pk_land by word_tac
               | rewrite pk_lor by word_tac | rewrite pk_not by word_tac].
  reflexivity.
Qed.

Lemma MIX_WORD_words u v :
  word 32 u → word 32 v → word 32 (fst (MIX_WORD u v)) ∧ word 32 (snd (MIX_WORD u v)).
Proof. intros. split; cbn [fst snd MIX_WORD]; word_tac. Qed.

Lemma MIX_WORDW_pk u v x y :
  word 32 u → word 32 v → word 32 x → word 32 y →
  MIX_WORDW (pk u x) (pk v y) =
  (pk (fst (MIX_WORD u v)) (fst (MIX_WORD x y)), pk (snd (MIX_WORD u v)) (snd (MIX_WORD x y))).
Proof.
  intros. unfold MIX_WORDW. cbv zeta. rewrite !pk_lxor, !pk_lo, !pk_hi by word_tac. reflexivity.
Qed.

(** Rows of eight words. *)
Definition row (v : list Z) : Prop := length v = 8%nat ∧ words 32 v.

#[export] Instance row_dec v : Decision (row v).
Proof. unfold row. apply _. Defined.

Ltac row8 v Hv :=
  let Hl := fresh in destruct Hv as [Hl Hv];
  do 8 (destruct v as [|? v]; [discriminate Hl|]);
  destruct v as [|? v]; [clear Hl|discriminate Hl]; words_inv.

Lemma crumb_round_row rc0 rc4 v :
  word 32 rc0 → word 32 rc4 → row v → row (crumb_round SUB_CRUMB MIX_WORD rc0 rc4 v).
Proof.
  intros Hr0 Hr4 Hv. row8 v Hv. unfold crumb_round.
  pose proof (SUB_CRUMB_words z z0 z1 z2) as Ha. pose proof (SUB_CRUMB_words z4 z5 z6 z3) as Hb.
  destruct (SUB_CRUMB z z0 z1 z2) as [[[a0 a1] a2] a3], (SUB_CRUMB z4 z5 z6 z3) as [[[a5 a6] a7] a4].
  destruct Ha as (? & ? & ? & ?); [done|]. destruct Hb as (? & ? & ? & ?); [done|].
  split; [done|]. repeat apply Forall_cons_2; try apply Forall_nil_2; word_tac.
Qed.

Lemma crumb_roundW_pack rc0 rc4 rd0 rd4 v u :
  word 32 rc0 → word 32 rc4 → row v → row u →
  crumb_round SUB_CRUMBW MIX_WORDW (pk rc0 rd0) (pk rc4 rd4) (pack v u) =
  pack (crumb_round SUB_CRUMB MIX_WORD rc0 rc4 v) (crumb_round SUB_CRUMB MIX_WORD rd0 rd4 u).
Proof.
  intros Hr0 Hr4 Hv Hu. row8 v Hv. row8 u Hu. unfold pack at 1. cbn [zip_with].
  fold (pk z z7) (pk z0 z8) (pk z1 z9) (pk z2 z10) (pk z3 z11) (pk z4 z12) (pk z5 z13) (pk z6 z14).
  unfold crumb_round. rewrite !SUB_CRUMBW_pk by done.
  pose proof (SUB_CRUMB_words z z0 z1 z2) as Ha. pose proof (SUB_CRUMB_words z4 z5 z6 z3) as Hb.
  pose proof (SUB_CRUMB_words z7 z8 z9 z10) as Hc. pose proof (SUB_CRUMB_words z12 z13 z14 z11) as Hd.
  destruct (SUB_CRUMB z z0 z1 z2) as [[[a0 a1] a2] a3], (SUB_CRUMB z4 z5 z6 z3) as [[[a5 a6] a7] a4].
  destruct (SUB_CRUMB z7 z8 z9 z10) as [[[c0 c1] c2] c3],
    (SUB_CRUMB z12 z13 z14 z11) as [[[c5 c6] c7] c4].
  destruct Ha as (? & ? & ? & ?); [done|]. destruct Hb as (? & ? & ? & ?); [done|].
  destruct Hc as (? & ? & ? & ?); [done|]. destruct Hd as (? & ? & ? & ?); [done|].
  cbn [pk4]. rewrite !MIX_WORDW_pk by done.
  cbn [fst snd MIX_WORD].
  rewrite !pk_lxor by word_tac. reflexivity.
Qed.

Lemma row_roundsW_sim rc0 rc4 rd0 rd4 rw0 rw4 l v u :
  words 32 rc0 → words 32 rc4 → words 32 rd0 → words 32 rd4 →
  Forall (λ r, rw0 @@ r = pk (rc0 @@ r) (rd0 @@ r) ∧ rw4 @@ r = pk (rc4 @@ r) (rd4 @@ r)) l →
  row v → row u →
  let step r0 r4 v r := crumb_round SUB_CRUMB MIX_WORD (r0 @@ r) (r4 @@ r) v in
  fold_left (λ v r, crumb_round SUB_CRUMBW MIX_WORDW (rw0 @@ r) (rw4 @@ r) v) l (pack v u) =
  pack (fold_left (step rc0 rc4) l v) (fold_left (step rd0 rd4) l u) ∧
  row (fold_left (step rc0 rc4) l v) ∧ row (fold_left (step rd0 rd4) l u).
Proof.
  intros H1 H2 H3 H4 Hl Hv Hu step. revert v u Hv Hu.
  induction Hl as [|r l [E0 E4] Hl IH]; intros v u Hv Hu; [done|].
  rewrite !fold_left_cons, E0, E4, crumb_roundW_pack by (done || by apply words_at).
  apply IH; apply crumb_round_row; done || by apply words_at.
Qed.

Lemma unpack_pack v u :
  row v → row u → unpack_lo (pack v u) = v ∧ unpack_hi (pack v u) = u.
Proof.
  intros Hv Hu. row8 v Hv. row8 u Hu. unfold unpack_lo, unpack_hi, pack. cbn [zip_with fmap list_fmap].
  fold (pk z z7) (pk z0 z8) (pk z1 z9) (pk z2 z10) (pk z3 z11) (pk z4 z12) (pk z5 z13) (pk z6 z14).
  by rewrite !pk_lo, !pk_hi by done.
Qed.

(** The 64-bit constants are the pairs of the 32-bit ones. *)
Lemma row_rounds_01 v u :
  row v → row u →
  row_roundsW RCW010 RCW014 (pack v u) = pack (row_rounds RC00 RC04 v) (row_rounds RC10 RC14 u) ∧
  row (row_rounds RC00 RC04 v) ∧ row (row_rounds RC10 RC14 u).
Proof.
  intros. apply row_roundsW_sim; try done; apply (bool_decide_unpack _); by vm_compute.
Qed.

Lemma row_rounds_23 v u :
  row v → row u →
  row_roundsW RCW230 RCW234 (pack v u) = pack (row_rounds RC20 RC24 v) (row_rounds RC30 RC34 u) ∧
  row (row_rounds RC20 RC24 v) ∧ row (row_rounds RC30 RC34 u).
Proof.
  intros. apply row_roundsW_sim; try done; apply (bool_decide_unpack _); by vm_compute.
Qed.

Lemma row_rounds_row rc0 rc4 v :
  words 32 rc0 → words 32 rc4 → row v → row (row_rounds rc0 rc4 v).
Proof.
  intros H0 H4 Hv. unfold row_rounds. generalize (seq 0 8). intros l. revert v Hv.
  induction l as [|r l IH]; intros v Hv; [done|].
  rewrite fold_left_cons. apply IH. apply crumb_round_row; done || by apply words_at.
Qed.

Lemma tweak_row_row j v : row v → row (tweak_row j v).
Proof.
  intros Hv. row8 v Hv. split; [done|].
  repeat apply Forall_cons_2; try apply Forall_nil_2; word_tac.
Qed.

#[local] Opaque row_rounds row_roundsW.

Ltac rows_inv :=
  repeat match goal with
  | H : Forall row (_ :: _) |- _ =>
    let H' := fresh in pose proof (Forall_cons_1 _ _ _ H) as [? H']; clear H
  end.

(** The parallel permutation is the row-by-row one. *)
Lemma P5_parallel V : length V = 5%nat → Forall row V → P5 V = P5_seq V ∧ Forall row (P5_seq V).
Proof.
  intros Hl HV. destruct V as [|? [|? [|? [|? [|? [|??]]]]]]; try discriminate Hl. rows_inv.
  unfold P5, P5_seq. cbn [TWEAK5].
  destruct (row_rounds_01 l (tweak_row 1 l0)) as (-> & ? & ?); [done|by apply tweak_row_row|].
  destruct (row_rounds_23 (tweak_row 2 l1) (tweak_row 3 l2)) as (-> & ? & ?);
    [by apply tweak_row_row..|].
  destruct (unpack_pack (row_rounds RC00 RC04 l) (row_rounds RC10 RC14 (tweak_row 1 l0)))
    as [-> ->]; [done..|].
  destruct (unpack_pack (row_rounds RC20 RC24 (tweak_row 2 l1))
    (row_rounds RC30 RC34 (tweak_row 3 l2))) as [-> ->]; [done..|].
  split; [done|]. repeat apply Forall_cons_2; try done.
  apply row_rounds_row; [apply (bool_decide_unpack _); by vm_compute..|by apply tweak_row_row].
Qed.

Lemma P3_parallel V : length V = 3%nat → Forall row V → P3 V = P3_seq V.
Proof.
  intros Hl HV. destruct V as [|? [|? [|? [|??]]]]; try discriminate Hl. rows_inv.
  unfold P3, P3_seq. cbn [TWEAK3].
  destruct (row_rounds_01 l (tweak_row 1 l0)) as (-> & ? & ?); [done|by apply tweak_row_row|].
  by destruct (unpack_pack (row_rounds RC00 RC04 l) (row_rounds RC10 RC14 (tweak_row 1 l0)))
    as [-> ->].
Qed.

Lemma P4_parallel V : length V = 4%nat → Forall row V → P4 V = P4_seq V.
Proof.
  intros Hl HV. destruct V as [|? [|? [|? [|? [|??]]]]]; try discriminate Hl. rows_inv.
  unfold P4, P4_seq. cbn [TWEAK4].
  destruct (row_rounds_01 l (tweak_row 1 l0)) as (-> & ? & ?); [done|by apply tweak_row_row|].
  destruct (row_rounds_23 (tweak_row 2 l1) (tweak_row 3 l2)) as (-> & ? & ?);
    [by apply tweak_row_row..|].
  destruct (unpack_pack (row_rounds RC00 RC04 l) (row_rounds RC10 RC14 (tweak_row 1 l0)))
    as [-> ->]; [done..|].
  by destruct (unpack_pack (row_rounds RC20 RC24 (tweak_row 2 l1))
    (row_rounds RC30 RC34 (tweak_row 3 l2))) as [-> ->].
Qed.

(** ** The message injection as a matrix *)

(** Multiplication by the polynomial whose coefficients are the bits of [c]. *)
Definition zero_row : list Z := replicate 8 0.
Fixpoint mul (k : nat) (c : Z) (v : list Z) : list Z :=
  match k with
  | O => zero_row
  | S k => let t := mul k (Z.div2 c) (M2 v) in if Z.odd c then XOR v t else t
  end.

Definition matrix5 : list (list Z) :=
  [[0x0F; 0x08; 0x0A; 0x0A; 0x08; 0x01];
   [0x08; 0x0F; 0x08; 0x0A; 0x0A; 0x02];
   [0x0A; 0x08; 0x0F; 0x08; 0x0A; 0x04];
   [0x0A; 0x0A; 0x08; 0x0F; 0x08; 0x08];
   [0x08; 0x0A; 0x0A; 0x08; 0x0F; 0x10]].
Definition mat_mul (m : list (list Z)) (x : list (list Z)) : list (list Z) :=
  (λ r, fold_left XOR (zip_with (mul 5) r x) zero_row) <$> m.

Definition matrix3 : list (list Z) :=
  [[0x03; 0x02; 0x02; 0x01]; [0x02; 0x03; 0x02; 0x02]; [0x02; 0x02; 0x03; 0x04]].
Definition matrix4 : list (list Z) :=
  [[0x04; 0x06; 0x06; 0x07; 0x01]; [0x07; 0x04; 0x06; 0x06; 0x02];
   [0x06; 0x07; 0x04; 0x06; 0x04]; [0x06; 0x06; 0x07; 0x04; 0x08]].

Ltac injection_matrix buf :=
  generalize (load_M buf); intros M; cbv -[Z.lxor];
  repeat apply (f_equal2 cons); try reflexivity; xor_ac.

Lemma MI3_mat buf V : length V = 3%nat → MI3 buf V = mat_mul matrix3 (V ++ [load_M buf]).
Proof.
  intros Hl. destruct V as [|v0 [|v1 [|v2 [|??]]]]; try discriminate Hl.
  unfold MI3. injection_matrix buf.
Qed.

Lemma MI4_mat buf V : length V = 4%nat → MI4 buf V = mat_mul matrix4 (V ++ [load_M buf]).
Proof.
  intros Hl. destruct V as [|v0 [|v1 [|v2 [|v3 [|??]]]]]; try discriminate Hl.
  unfold MI4. injection_matrix buf.
Qed.

Lemma MI5_mat buf V : length V = 5%nat → MI5 buf V = mat_mul matrix5 (V ++ [load_M buf]).
Proof.
  intros Hl. destruct V as [|v0 [|v1 [|v2 [|v3 [|v4 [|??]]]]]]; try discriminate Hl.
  unfold MI5. injection_matrix buf.
Qed.

(** The message injections are products with the matrices of the
    specification. *)
Lemma message_injection buf V :
  (length V = 3%nat → MI3 buf V = mat_mul matrix3 (V ++ [load_M buf])) ∧
  (length V = 4%nat → MI4 buf V = mat_mul matrix4 (V ++ [load_M buf])) ∧
  (length V = 5%nat → MI5 buf V = mat_mul matrix5 (V ++ [load_M buf])).
Proof. auto using MI3_mat, MI4_mat, MI5_mat. Qed.

(** ** Specification of Luffa-512 *)

Definition luffa_step5 (blk : list Z) (V : list (list Z)) : list (list Z) :=
  P5_seq (mat_mul matrix5 (V ++ [(λ i, sph_dec32be (drop (4 * i) blk)) <$> seq 0 8])).

(** Pad with a one bit and zeros; after the message two blank rounds, the
    xor of the rows being output after each. *)
Definition luffa512_spec (msg : list Z) (ub : Z) (n : nat) : list Z :=
  let padded := msg ++ md_padding 32 0 (pad_byte ub n) [] (length msg) in
  let V := run luffa_step5 (full_blocks 32 padded) V_INIT in
  let V1 := luffa_step5 (replicate 32 0) V in
  let V2 := luffa_step5 (replicate 32 0) V1 in
  concat (sph_enc32be <$> out_words V1) ++ concat (sph_enc32be <$> out_words V2).

(** ** Correctness *)

Definition state5 (V : list (list Z)) : Prop := length V = 5%nat ∧ Forall row V.

Lemma M2_row v : row v → row (M2 v).
Proof.
  intros [Hl Hw]. split; [done|]. unfold M2.
  repeat apply Forall_cons_2; try apply Forall_nil_2; word_solve.
Qed.

Lemma XOR_row v u : row v → row u → row (XOR v u).
Proof.
  intros [Hl Hw] [Hl' Hw']. split; [done|]. unfold XOR.
  repeat apply Forall_cons_2; try apply Forall_nil_2; word_solve.
Qed.

Lemma load_M_be blk :
  bytes blk → length blk = 32%nat →
  load_M blk = (λ i, sph_dec32be (drop (4 * i) blk)) <$> seq 0 8 ∧ row (load_M blk).
Proof.
  intros Hb Hl.
  assert (E : load_M blk = (λ i, sph_dec32be (drop (4 * i) blk)) <$> seq 0 8).
  { apply list_fmap_ext. intros i ? [-> ?]%lookup_seq.
    apply dec32be_aligned_eq; [by apply Forall_drop|rewrite length_drop; lia]. }
  split; [done|]. split; [by unfold load_M; rewrite length_fmap, length_seq|].
  rewrite E. apply Forall_fmap, Forall_seq. intros i Hi. simpl.
  apply word_dec32be; [by apply Forall_drop|rewrite length_drop; lia].
Qed.

Lemma MI5_rows blk V : row (load_M blk) → state5 V → state5 (MI5 blk V).
Proof.
  intros HM [Hl HV]. destruct V as [|v0 [|v1 [|v2 [|v3 [|v4 [|??]]]]]]; try discriminate Hl.
  rows_inv. split; [done|]. unfold MI5. cbv zeta.
  repeat apply Forall_cons_2; try apply Forall_nil_2;
    repeat first [assumption | apply XOR_row | apply M2_row].
Qed.

Lemma P5_step blk V :
  bytes blk → length blk = 32%nat → state5 V →
  P5 (MI5 blk V) = luffa_step5 blk V ∧ state5 (luffa_step5 blk V).
Proof.
  intros Hb Hl HV. destruct (load_M_be blk Hb Hl) as [E HM].
  destruct (MI5_rows blk V HM HV) as [Hl5 HR].
  destruct (P5_parallel (MI5 blk V) Hl5 HR) as [Ep Hr]. unfold luffa_step5.
  rewrite <-E, <-MI5_mat by apply HV. rewrite Ep. split; [done|]. split; [|done].
  destruct (MI5 blk V) as [|v0 [|v1 [|v2 [|v3 [|v4 [|??]]]]]]; try discriminate Hl5. done.
Qed.

Definition ctx_ok (sc : sph_luffa_context) : Prop := buf_ok 32 (buf sc) (ptr sc).
Definition cview (sc : sph_luffa_context) : list Z * list (list Z) :=
  (take (ptr sc) (buf sc), V sc).

Lemma luffa_core_view MI P sc data :
  ctx_ok sc →
  ctx_ok (luffa_core MI P sc data) ∧
  cview (luffa_core MI P sc data) = absorb 32 (λ b v, P (MI b v)) (cview sc) data.
Proof.
  intros Hok. unfold luffa_core, cview.
  destruct (absorb_core_spec 32 (λ b v, P (MI b v)) (buf sc) (ptr sc) data (V sc) Hok) as [Ho Hv].
  destruct (absorb_core _ _ _ _ _ _) as [[b p] x]. done.
Qed.

Lemma run_luffa5 bs V :
  Forall (λ b, bytes b ∧ length b = 32%nat) bs → state5 V →
  run (λ b v, P5 (MI5 b v)) bs V = run luffa_step5 bs V ∧ state5 (run luffa_step5 bs V).
Proof.
  intros Hbs HV. unfold run.
  apply (fold_left_sim (λ a b, a = b ∧ state5 b) (λ b, bytes b ∧ length b = 32%nat)); [|done..].
  intros ? v b [Hb Hl] [-> Hv]. by apply P5_step.
Qed.

Lemma blocks_bytes msg :
  bytes msg → Forall (λ b, bytes b ∧ length b = 32%nat) (full_blocks 32 msg).
Proof.
  intros Hm. pose proof (full_blocks_Forall 32 _ _ Hm) as H1.
  pose proof (full_blocks_len 32 msg ltac:(lia)) as H2.
  rewrite Forall_forall in *. auto.
Qed.

Lemma enc_words_row v : row v → enc_words 8 v = concat (sph_enc32be <$> v).
Proof. intros [Hl _]. unfold enc_words. by rewrite take_ge by lia. Qed.

Lemma out_words_row V : state5 V → row (out_words V).
Proof.
  intros [Hl HV]. destruct V as [|v0 [|v1 [|v2 [|v3 [|v4 [|??]]]]]]; try discriminate Hl.
  rows_inv. unfold out_words. cbn [fold_left]. repeat first [assumption | apply XOR_row].
Qed.

Lemma luffa512_correct cc chunks ub n :
  length (buf cc) = 32%nat → bytes (concat chunks) →
  fst (luffa5_close (fold_left luffa5 chunks (sph_luffa512_init cc)) ub n) =
  luffa512_spec (concat chunks) ub n.
Proof.
  intros Hb Hm. set (msg := concat chunks) in *.
  destruct (updates_view 32 (λ b v, P5 (MI5 b v)) luffa5 ctx_ok cview chunks
    (sph_luffa512_init cc)) as [Hok Hv]; [apply luffa_core_view|by split; [|simpl; lia]|].
  set (sc := fold_left _ _ _) in *. fold msg in Hv.
  change (cview (sph_luffa512_init cc)) with (@nil Z, V_INIT) in Hv.
  rewrite absorb_message in Hv by lia.
  pose proof (f_equal fst Hv) as Hp. pose proof (f_equal snd Hv) as Hs. clear Hv.
  cbn [cview fst snd] in Hp, Hs. destruct Hok as [Hlb Hlt].
  assert (Hpl : ptr sc = length (rest 32 msg)) by (rewrite <-Hp, length_take; lia).
  assert (HI : state5 V_INIT) by (split; [done|]; apply (bool_decide_unpack _); by vm_compute).
  destruct (run_luffa5 (full_blocks 32 msg) V_INIT (blocks_bytes msg Hm) HI) as [Er Hr].
  rewrite Er in Hs. set (VS := run luffa_step5 (full_blocks 32 msg) V_INIT) in *.
  set (lastb := rest 32 msg ++ pad_byte ub n :: replicate (32 - S (length (rest 32 msg))) 0).
  assert (Hbl : bytes lastb ∧ length lastb = 32%nat).
  { subst lastb. split.
    - apply Forall_app_2; [by apply rest_Forall|]. constructor; [apply byte_pad_byte|].
      by apply Forall_replicate.
    - rewrite length_app. cbn [length]. rewrite length_replicate. lia. }
  assert (Hz : bytes (replicate 32 0)) by by apply Forall_replicate.
  destruct (P5_step lastb VS (proj1 Hbl) (proj2 Hbl) Hr) as [E0 S0].
  destruct (P5_step (replicate 32 0) _ Hz eq_refl S0) as [E1 S1].
  destruct (P5_step (replicate 32 0) _ Hz eq_refl S1) as [E2 S2].
  unfold luffa5_close, pad_buf, luffa512_spec. fold msg. cbv zeta. cbn [fst].
  rewrite pad_fill, Hp, Hs, Hpl by done. fold lastb.
  assert (Ez : memset lastb 0 0 32 = replicate 32 0).
  { unfold memset. rewrite memcpy_full by (rewrite length_replicate, (proj2 Hbl); done).
    by rewrite take_0, app_nil_l. }
  rewrite Ez, E0, E1, E2, !enc_words_row by by apply out_words_row.
  rewrite full_blocks_pad, run_app by lia.
  rewrite <-(md_padding_mod 32 0 (pad_byte ub n) [] (length msg)), <-(length_rest 32 msg) by lia.
  rewrite pad_one by lia. fold lastb. reflexivity.
Qed.

(** Luffa-512 over its streaming interface: initialise, update with any
    sequence of chunks, close with [n] extra bits gives the Luffa-512 hash of
    the concatenated data, computed with the row-by-row permutations and the
    message injection as a matrix product, although the code runs two rows in
    each 64-bit word. *)
Theorem sph_luffa512_correct cc chunks ub n :
  length (buf cc) = 32%nat → bytes (concat chunks) →
  fst (sph_luffa512_addbits_and_close
         (fold_left sph_luffa512 chunks (sph_luffa512_init cc)) ub n) =
  luffa512_spec (concat chunks) ub n.
Proof.
  intros Hb Hm. rewrite <-(luffa512_correct cc) by done.
  unfold sph_luffa512_addbits_and_close. by destruct (luffa5_close _ _ _).
Qed.

(** The parallel permutations of 64-bit hosts compute the row-by-row ones. *)
Lemma permutations_parallel V :
  Forall row V →
  (length V = 3%nat → P3 V = P3_seq V) ∧ (length V = 4%nat → P4 V = P4_seq V) ∧
  (length V = 5%nat → P5 V = P5_seq V).
Proof.
  intros HV. split; [intros; by apply P3_parallel|]. split; [intros; by apply P4_parallel|].
  intros. by apply P5_parallel.
Qed.

End Luffa.
