(* ===== verification/Ctaes.v ===== *)
(** * Constant-time AES: crypto/ctaes/ctaes.c

    The block cipher behind the wallet's encryption.  A state is eight 16-bit
    slices, slice [i] holding bit [i] of the 16 bytes; the S-box is a circuit
    of gates on whole slices, the permutations are masks and shifts.  The
    circuit is written over a class of gates, whose instance on 16-bit words
    is the code's and whose instance on booleans is one bit position of it.
    The theorems: for every key size the code computes the cipher and the
    inverse cipher of FIPS 197 with its key expansion, and decryption undoes
    encryption. *)
From S2P Require Import Prelude SphTypes AesHelper.

Module Ctaes.
Import Aes.

(** ** The state *)

(** [uint16_t slice[8]]. *)
Definition AES_state := list Z.
Definition u16 (x : Z) : Z := Z.land x 0xFFFF.
Definition zero_state : AES_state := replicate 8 0.

(** [s->slice[b] = f b s->slice[b]] for the eight slices. *)
Definition each_slice (f : nat → Z → Z) (s : AES_state) : AES_state :=
  fold_left (λ s b, <[b := f b (s @@ b)]> s) (seq 0 8) s.

(** The loop [byte >>= 1] leaves bit [i] of the byte at the bottom at step [i]. *)
Definition LoadByte (s : AES_state) (byte r c : Z) : AES_state :=
  fst (fold_left (λ '(s, byte) i,
      (<[i := u16 (Z.lor (s @@ i) (Z.land byte 1 ≪ (r * 4 + c)))]> s, byte ≫ 1))
    (seq 0 8) (s, byte)).

Definition LoadBytes (s : AES_state) (data16 : list Z) : AES_state :=
  fst (fold_left (λ '(s, data) '(c, r), (LoadByte s (data @@ 0) r c, drop 1 data))
    (c ← [0; 1; 2; 3]; r ← [0; 1; 2; 3]; [(c, r)]) (s, data16)).

Definition SaveBytes (s : AES_state) : list Z :=
  fold_left (λ out '(c, r),
      out ++ [fold_left (λ v b,
        Z.lor v (Z.land ((s @@ b) ≫ (r * 4 + c)) 1 ≪ Z.of_nat b)) (seq 0 8) 0])
    (c ← [0; 1; 2; 3]; r ← [0; 1; 2; 3]; [(c, r)]) [].

(** ** The S-box circuit *)

(** The operators of the circuit: [^], [&], [|] and [~] on [uint16_t]. *)
Class Gates (T : Type) := {
  gate_xor : T → T → T;
  gate_and : T → T → T;
  gate_or : T → T → T;
  gate_not : T → T }.

#[export] Instance slice_gates : Gates Z :=
  {| gate_xor := Z.lxor; gate_and := Z.land; gate_or := Z.lor; gate_not x := u16 (Z.lnot x) |}.
#[export] Instance bit_gates : Gates bool :=
  {| gate_xor := xorb; gate_and := andb; gate_or := orb; gate_not := negb |}.

#[local] Notation "x ⊕ y" := (gate_xor x y) (at level 50, left associativity).
#[local] Notation "x ⊗ y" := (gate_and x y) (at level 40, left associativity).
#[local] Notation "x ⊚ y" := (gate_or x y) (at level 52, left associativity).
#[local] Notation "∼ x" := (gate_not x) (at level 35, right associativity).

Section Circuit.
Context {T : Type} `{Gates T}.

(** The rest of the circuit, a function of [n] wires. *)
Fixpoint wires (n : nat) : Type := match n with O => list T | S n => T → wires n end.

Definition undo_postprocessing (U0 U1 U2 U3 U4 U5 U6 U7 : T)
    (k : wires 22) : list T :=
  let T23 := U0 ⊕ U3 in let T22 := ∼(U1 ⊕ U3) in let T2 := ∼(U0 ⊕ U1) in let T1 := U3 ⊕ U4 in
  let T24 := ∼(U4 ⊕ U7) in let R5 := U6 ⊕ U7 in let T8 := ∼(U1 ⊕ T23) in let T19 := T22 ⊕ R5 in
  let T9 := ∼(U7 ⊕ T1) in let T10 := T2 ⊕ T24 in let T13 := T2 ⊕ R5 in let T3 := T1 ⊕ R5 in
  let T25 := ∼(U2 ⊕ T1) in let R13 := U1 ⊕ U6 in let T17 := ∼(U2 ⊕ T19) in let T20 := T24 ⊕ R13 in
  let T4 := U4 ⊕ T8 in let R17 := ∼(U2 ⊕ U5) in let R18 := ∼(U5 ⊕ U6) in let R19 := ∼(U2 ⊕ U4) in
  let D := U0 ⊕ R17 in let T6 := T22 ⊕ R17 in let T16 := R13 ⊕ R19 in let T27 := T1 ⊕ R18 in
  let T15 := T10 ⊕ T27 in let T14 := T10 ⊕ R18 in let T26 := T3 ⊕ T16 in
  k T1 T2 T3 T4 T6 T8 T9 T10 T13 T14 T15 T16 T17 T19 T20 T22 T23 T24 T25 T26 T27 D.

Definition preprocessing (U0 U1 U2 U3 U4 U5 U6 U7 : T)
    (k : wires 22) : list T :=
  let T1 := U0 ⊕ U3 in let T2 := U0 ⊕ U5 in let T3 := U0 ⊕ U6 in let T4 := U3 ⊕ U5 in
  let T5 := U4 ⊕ U6 in let T6 := T1 ⊕ T5 in let T7 := U1 ⊕ U2 in let T8 := U7 ⊕ T6 in
  let T9 := U7 ⊕ T7 in let T10 := T6 ⊕ T7 in let T11 := U1 ⊕ U5 in let T12 := U2 ⊕ U5 in
  let T13 := T3 ⊕ T4 in let T14 := T6 ⊕ T11 in let T15 := T5 ⊕ T11 in let T16 := T5 ⊕ T12 in
  let T17 := T9 ⊕ T16 in let T18 := U3 ⊕ U7 in let T19 := T7 ⊕ T18 in let T20 := T1 ⊕ T19 in
  let T21 := U6 ⊕ U7 in let T22 := T7 ⊕ T21 in let T23 := T2 ⊕ T22 in let T24 := T2 ⊕ T10 in
  let T25 := T20 ⊕ T17 in let T26 := T3 ⊕ T16 in let T27 := T1 ⊕ T12 in let D := U7 in
  k T1 T2 T3 T4 T6 T8 T9 T10 T13 T14 T15 T16 T17 T19 T20 T22 T23 T24 T25 T26 T27 D.

Definition nonlinear (k : wires 18)
    (T1 T2 T3 T4 T6 T8 T9 T10 T13 T14 T15 T16 T17 T19 T20 T22 T23 T24 T25 T26 T27 D : T)
    : list T :=
  let M1 := T13 ⊗ T6 in let M6 := T3 ⊗ T16 in let M11 := T1 ⊗ T15 in
  let M13 := (T4 ⊗ T27) ⊕ M11 in let M15 := (T2 ⊗ T10) ⊕ M11 in
  let M20 := T14 ⊕ M1 ⊕ (T23 ⊗ T8) ⊕ M13 in let M21 := (T19 ⊗ D) ⊕ M1 ⊕ T24 ⊕ M15 in
  let M22 := T26 ⊕ M6 ⊕ (T22 ⊗ T9) ⊕ M13 in let M23 := (T20 ⊗ T17) ⊕ M6 ⊕ M15 ⊕ T25 in
  let M25 := M22 ⊗ M20 in let M37 := M21 ⊕ ((M20 ⊕ M21) ⊗ (M23 ⊕ M25)) in
  let M38 := M20 ⊕ M25 ⊕ (M21 ⊚ (M20 ⊗ M23)) in let M39 := M23 ⊕ ((M22 ⊕ M23) ⊗ (M21 ⊕ M25)) in
  let M40 := M22 ⊕ M25 ⊕ (M23 ⊚ (M21 ⊗ M22)) in let M41 := M38 ⊕ M40 in let M42 := M37 ⊕ M39 in
  let M43 := M37 ⊕ M38 in let M44 := M39 ⊕ M40 in let M45 := M42 ⊕ M41 in let M46 := M44 ⊗ T6 in
  let M47 := M40 ⊗ T8 in let M48 := M39 ⊗ D in let M49 := M43 ⊗ T16 in let M50 := M38 ⊗ T9 in
  let M51 := M37 ⊗ T17 in let M52 := M42 ⊗ T15 in let M53 := M45 ⊗ T27 in let M54 := M41 ⊗ T10 in
  let M55 := M44 ⊗ T13 in let M56 := M40 ⊗ T23 in let M57 := M39 ⊗ T19 in let M58 := M43 ⊗ T3 in
  let M59 := M38 ⊗ T22 in let M60 := M37 ⊗ T20 in let M61 := M42 ⊗ T1 in let M62 := M45 ⊗ T4 in
  let M63 := M41 ⊗ T2 in
  k M46 M47 M48 M49 M50 M51 M52 M53 M54 M55 M56 M57 M58 M59 M60 M61 M62 M63.

Definition undo_preprocessing
    (M46 M47 M48 M49 M50 M51 M52 M53 M54 M55 M56 M57 M58 M59 M60 M61 M62 M63 : T) : list T :=
  let P0 := M52 ⊕ M61 in let P1 := M58 ⊕ M59 in let P2 := M54 ⊕ M62 in let P3 := M47 ⊕ M50 in
  let P4 := M48 ⊕ M56 in let P5 := M46 ⊕ M51 in let P6 := M49 ⊕ M60 in let P7 := P0 ⊕ P1 in
  let P8 := M50 ⊕ M53 in let P9 := M55 ⊕ M63 in let P10 := M57 ⊕ P4 in let P11 := P0 ⊕ P3 in
  let P12 := M46 ⊕ M48 in let P13 := M49 ⊕ M51 in let P14 := M49 ⊕ M62 in let P15 := M54 ⊕ M59 in
  let P16 := M57 ⊕ M61 in let P17 := M58 ⊕ P2 in let P18 := M63 ⊕ P5 in let P19 := P2 ⊕ P3 in
  let P20 := P4 ⊕ P6 in let P22 := P2 ⊕ P7 in let P23 := P7 ⊕ P8 in let P24 := P5 ⊕ P7 in
  let P25 := P6 ⊕ P10 in let P26 := P9 ⊕ P11 in let P27 := P10 ⊕ P18 in let P28 := P11 ⊕ P25 in
  let P29 := P15 ⊕ P20 in
  [P9 ⊕ P16; P14 ⊕ P23; P19 ⊕ P24; P23 ⊕ P27;
      P12 ⊕ P22; P17 ⊕ P28; P26 ⊕ P29; P13 ⊕ P22].

Definition postprocessing
    (M46 M47 M48 M49 M50 M51 M52 M53 M54 M55 M56 M57 M58 M59 M60 M61 M62 M63 : T) : list T :=
  let L0 := M61 ⊕ M62 in let L1 := M50 ⊕ M56 in let L2 := M46 ⊕ M48 in let L3 := M47 ⊕ M55 in
  let L4 := M54 ⊕ M58 in let L5 := M49 ⊕ M61 in let L6 := M62 ⊕ L5 in let L7 := M46 ⊕ L3 in
  let L8 := M51 ⊕ M59 in let L9 := M52 ⊕ M53 in let L10 := M53 ⊕ L4 in let L11 := M60 ⊕ L2 in
  let L12 := M48 ⊕ M51 in let L13 := M50 ⊕ L0 in let L14 := M52 ⊕ M61 in let L15 := M55 ⊕ L1 in
  let L16 := M56 ⊕ L0 in let L17 := M57 ⊕ L1 in let L18 := M58 ⊕ L8 in let L19 := M63 ⊕ L4 in
  let L20 := L0 ⊕ L1 in let L21 := L1 ⊕ L7 in let L22 := L3 ⊕ L12 in let L23 := L18 ⊕ L2 in
  let L24 := L15 ⊕ L9 in let L25 := L6 ⊕ L10 in let L26 := L7 ⊕ L9 in let L27 := L8 ⊕ L10 in
  let L28 := L11 ⊕ L14 in let L29 := L11 ⊕ L17 in
  [∼(L6 ⊕ L23); ∼(L13 ⊕ L27); L25 ⊕ L29; L20 ⊕ L22;
      L6 ⊕ L21; ∼(L19 ⊕ L28); ∼(L16 ⊕ L26); L6 ⊕ L24].

Definition SubBytes (s : list T) (inv : bool) : list T :=
  match s with
  | [U7; U6; U5; U4; U3; U2; U1; U0] =>
    if inv
    then undo_postprocessing U0 U1 U2 U3 U4 U5 U6 U7 (nonlinear undo_preprocessing)
    else preprocessing U0 U1 U2 U3 U4 U5 U6 U7 (nonlinear postprocessing)
  | _ => s
  end.

End Circuit.

(** ** Rows and columns *)

Definition BIT_RANGE (from to : Z) : Z := (1 ≪ (to - from) - 1) ≪ from.
Definition BIT_RANGE_LEFT (x from to shift : Z) : Z := Z.land x (BIT_RANGE from to) ≪ shift.
Definition BIT_RANGE_RIGHT (x from to shift : Z) : Z := Z.land x (BIT_RANGE from to) ≫ shift.

Definition shift_slice (v : Z) : Z :=
  u16 (Z.lor (Z.lor (Z.lor (Z.lor (Z.lor (Z.lor (Z.land v (BIT_RANGE 0 4))
    (BIT_RANGE_LEFT v 4 5 3)) (BIT_RANGE_RIGHT v 5 8 1))
    (BIT_RANGE_LEFT v 8 10 2)) (BIT_RANGE_RIGHT v 10 12 2))
    (BIT_RANGE_LEFT v 12 15 1)) (BIT_RANGE_RIGHT v 15 16 3)).
Definition ShiftRows (s : AES_state) : AES_state := each_slice (λ _, shift_slice) s.

Definition inv_shift_slice (v : Z) : Z :=
  u16 (Z.lor (Z.lor (Z.lor (Z.lor (Z.lor (Z.lor (Z.land v (BIT_RANGE 0 4))
    (BIT_RANGE_LEFT v 4 7 1)) (BIT_RANGE_RIGHT v 7 8 3))
    (BIT_RANGE_LEFT v 8 10 2)) (BIT_RANGE_RIGHT v 10 12 2))
    (BIT_RANGE_LEFT v 12 13 3)) (BIT_RANGE_RIGHT v 13 16 1)).
Definition InvShiftRows (s : AES_state) : AES_state := each_slice (λ _, inv_shift_slice) s.

Definition ROT (x b : Z) : Z := Z.lor (x ≫ (b * 4)) (x ≪ ((4 - b) * 4)).

(** The variables [s?_01], [s?_123] and [t?_02] of a slice. *)
Definition s_01 (x : Z) : Z := u16 (x ^^ ROT x 1).
Definition s_123 (x : Z) : Z := u16 (ROT (s_01 x) 1 ^^ ROT x 3).
Definition t_02 (x : Z) : Z := u16 (x ^^ ROT x 2).

Definition mix_forward (s : AES_state) : AES_state :=
  let '(s0, s1, s2, s3) := (s @@ 0, s @@ 1, s @@ 2, s @@ 3) in
  let '(s4, s5, s6, s7) := (s @@ 4, s @@ 5, s @@ 6, s @@ 7) in
  [s_01 s7 ^^ s_123 s0;
   s_01 s7 ^^ s_01 s0 ^^ s_123 s1;
   s_01 s1 ^^ s_123 s2;
   s_01 s7 ^^ s_01 s2 ^^ s_123 s3;
   s_01 s7 ^^ s_01 s3 ^^ s_123 s4;
   s_01 s4 ^^ s_123 s5;
   s_01 s5 ^^ s_123 s6;
   s_01 s6 ^^ s_123 s7].

Definition mix_reverse (s : AES_state) : AES_state :=
  let '(s0, s1, s2, s3) := (s @@ 0, s @@ 1, s @@ 2, s @@ 3) in
  let '(s4, s5, s6, s7) := (s @@ 4, s @@ 5, s @@ 6, s @@ 7) in
  [s0 ^^ t_02 s6;
   s1 ^^ (t_02 s6 ^^ t_02 s7);
   s2 ^^ (t_02 s0 ^^ t_02 s7);
   s3 ^^ (t_02 s1 ^^ t_02 s6);
   s4 ^^ (t_02 s2 ^^ t_02 s6 ^^ t_02 s7);
   s5 ^^ (t_02 s3 ^^ t_02 s7);
   s6 ^^ t_02 s4;
   s7 ^^ t_02 s5].

Definition MixColumns (s : AES_state) (inv : bool) : AES_state :=
  let s := mix_forward s in
  if inv then mix_reverse s else s.

Definition AddRoundKey (s round : AES_state) : AES_state :=
  each_slice (λ b x, x ^^ round @@ b) s.

(** ** The key schedule *)

Definition GetOneColumn (s a : AES_state) (c : Z) : AES_state :=
  each_slice (λ b _, Z.land ((a @@ b) ≫ c) 0x1111) s.

(** [s->slice[b] ^= ...] happens inside the update of [r->slice[b]]; the
    result is the pair of the two states. *)
Definition KeySetupColumnMix (s r a : AES_state) (c1 c2 : Z) : AES_state * AES_state :=
  fold_left (λ '(s, r) b,
      let x := (s @@ b) ^^ Z.land ((a @@ b) ≫ c2) 0x1111 in
      (<[b := x]> s, <[b := u16 (Z.lor (r @@ b) (Z.land x 0x1111 ≪ c1))]> r))
    (seq 0 8) (s, r).

Definition KeySetupTransform (s r : AES_state) : AES_state :=
  each_slice (λ b x, u16 (Z.lor (x ≫ 4) (x ≪ 12) ^^ (r @@ b))) s.

Definition MultX (s : AES_state) : AES_state :=
  let top := s @@ 7 in
  [top; s @@ 0 ^^ top; s @@ 1; s @@ 2 ^^ top; s @@ 3 ^^ top; s @@ 4; s @@ 5; s @@ 6].

(** The state of the loop of [AES_setup]. *)
Record setup := Setup {
  rounds : list AES_state;
  rcon : AES_state;
  pos : nat;
  column : AES_state }.

Definition round_at (rounds : list AES_state) (i : nat) : AES_state := nth i rounds [].

(** The first [nkeywords] columns, from the key: the loop over [r] and the loop over [i]. *)
Definition load_word (st : list AES_state * list Z) (i : nat) : list AES_state * list Z :=
  fold_left (λ '(rounds, key) r,
      (<[(i / 4)%nat := LoadByte (round_at rounds (i / 4)) (key @@ 0) r (Z.of_nat (i mod 4))]> rounds,
       drop 1 key))
    [0; 1; 2; 3] st.
Definition load_key (rounds : list AES_state) (key : list Z) (nkeywords : nat) : list AES_state :=
  fst (fold_left load_word (seq 0 nkeywords) (rounds, key)).

(** One turn of the second loop, for word [i]. *)
Definition setup_step (nkeywords : nat) (st : setup) (i : nat) : setup :=
  let '(column, rcon) :=
    if (pos st =? 0)%nat
    then (KeySetupTransform (SubBytes (column st) false) (rcon st), MultX (rcon st))
    else if (6 <? nkeywords)%nat && (pos st =? 4)%nat
    then (SubBytes (column st) false, rcon st)
    else (column st, rcon st) in
  let pos := if (S (pos st) =? nkeywords)%nat then O else S (pos st) in
  let '(column, r) := KeySetupColumnMix column (round_at (rounds st) (i / 4))
    (round_at (rounds st) ((i - nkeywords) / 4)) (Z.of_nat (i mod 4))
    (Z.of_nat ((i - nkeywords) mod 4)) in
  Setup (<[(i / 4)%nat := r]> (rounds st)) rcon pos column.

Definition AES_setup (key : list Z) (nkeywords nrounds : nat) : list AES_state :=
  let rounds0 := load_key (replicate (nrounds + 1) zero_state) key nkeywords in
  let column := GetOneColumn zero_state (round_at rounds0 ((nkeywords - 1) / 4))
    (Z.of_nat ((nkeywords - 1) mod 4)) in
  rounds (fold_left (setup_step nkeywords)
    (seq nkeywords (4 * (nrounds + 1) - nkeywords))
    (Setup rounds0 [1; 0; 0; 0; 0; 0; 0; 0] 0 column)).

(** ** The cipher *)

Definition AES_encrypt (rounds : list AES_state) (nrounds : nat) (plain16 : list Z) : list Z :=
  let s := AddRoundKey (LoadBytes zero_state plain16) (round_at rounds 0) in
  let s := fold_left (λ s round,
      AddRoundKey (MixColumns (ShiftRows (SubBytes s false)) false) (round_at rounds round))
    (seq 1 (nrounds - 1)) s in
  SaveBytes (AddRoundKey (ShiftRows (SubBytes s false)) (round_at rounds nrounds)).

(** The pointer [rounds] moves down from the last round key. *)
Definition AES_decrypt (rounds : list AES_state) (nrounds : nat) (cipher16 : list Z) : list Z :=
  let s := AddRoundKey (LoadBytes zero_state cipher16) (round_at rounds nrounds) in
  let s := fold_left (λ s round,
      MixColumns (AddRoundKey (SubBytes (InvShiftRows s) true)
        (round_at rounds (nrounds - round))) true)
    (seq 1 (nrounds - 1)) s in
  SaveBytes (AddRoundKey (SubBytes (InvShiftRows s) true) (round_at rounds 0)).

(** [while (blocks--)]: a block of 16 bytes at a time. *)
Fixpoint each_block (f : list Z → list Z) (blocks : nat) (data : list Z) : list Z :=
  match blocks with
  | O => []
  | S blocks => f (take 16 data) ++ each_block f blocks (drop 16 data)
  end.

Definition AES128_init (key16 : list Z) : list AES_state := AES_setup key16 4 10.
Definition AES128_encrypt (rk : list AES_state) (blocks : nat) (plain16 : list Z) : list Z :=
  each_block (AES_encrypt rk 10) blocks plain16.
Definition AES128_decrypt (rk : list AES_state) (blocks : nat) (cipher16 : list Z) : list Z :=
  each_block (AES_decrypt rk 10) blocks cipher16.

Definition AES192_init (key24 : list Z) : list AES_state := AES_setup key24 6 12.
Definition AES192_encrypt (rk : list AES_state) (blocks : nat) (plain16 : list Z) : list Z :=
  each_block (AES_encrypt rk 12) blocks plain16.
Definition AES192_decrypt (rk : list AES_state) (blocks : nat) (cipher16 : list Z) : list Z :=
  each_block (AES_decrypt rk 12) blocks cipher16.

Definition AES256_init (key32 : list Z) : list AES_state := AES_setup key32 8 14.
Definition AES256_encrypt (rk : list AES_state) (blocks : nat) (plain16 : list Z) : list Z :=
  each_block (AES_encrypt rk 14) blocks plain16.
Definition AES256_decrypt (rk : list AES_state) (blocks : nat) (cipher16 : list Z) : list Z :=
  each_block (AES_decrypt rk 14) blocks cipher16.

(** ** Specification: FIPS 197

    The S-box, ShiftRows, MixColumns and AddRoundKey of the byte-level
    specification are those of the AES helper; here are their inverses, the
    key expansion, the cipher and the inverse cipher. *)

Definition inv_affine (b : Z) : Z := rotl8 b 1 ^^ rotl8 b 3 ^^ rotl8 b 6 ^^ 0x05.
Definition inv_sub_byte (b : Z) : Z := ginv (inv_affine b).
Definition inv_sub_bytes (s : list Z) : list Z := inv_sub_byte <$> s.

Definition inv_shift_rows (s : list Z) : list Z :=
  (λ i, s @@ (i mod 4 + 4 * ((i / 4 + 4 - i mod 4) mod 4))) <$> seq 0 16.

Definition inv_mix_column (a b c d : Z) : list Z :=
  [gmul a 0x0E ^^ gmul b 0x0B ^^ gmul c 0x0D ^^ gmul d 0x09;
   gmul a 0x09 ^^ gmul b 0x0E ^^ gmul c 0x0B ^^ gmul d 0x0D;
   gmul a 0x0D ^^ gmul b 0x09 ^^ gmul c 0x0E ^^ gmul d 0x0B;
   gmul a 0x0B ^^ gmul b 0x0D ^^ gmul c 0x09 ^^ gmul d 0x0E].
Definition inv_mix_columns (s : list Z) : list Z :=
  concat ((λ c, inv_mix_column (s @@ (4 * c)) (s @@ (4 * c + 1)) (s @@ (4 * c + 2)) (s @@ (4 * c + 3)))
    <$> seq 0 4).

(** Words of the key schedule are lists of four bytes. *)
Definition rot_word (w : list Z) : list Z := drop 1 w ++ take 1 w.
Definition Rcon (j : nat) : list Z := [Nat.iter (j - 1) xtime 1; 0; 0; 0].

Definition next_word (Nk : nat) (w : list (list Z)) : list Z :=
  let i := length w in
  let temp := nth (i - 1) w [] in
  let temp :=
    if (i mod Nk =? 0)%nat then add_round_key (sub_bytes (rot_word temp)) (Rcon (i / Nk))
    else if (6 <? Nk)%nat && (i mod Nk =? 4)%nat then sub_bytes temp
    else temp in
  add_round_key (nth (i - Nk) w []) temp.

Definition key_words (key : list Z) (Nk : nat) : list (list Z) :=
  (λ i, take 4 (drop (4 * i) key)) <$> seq 0 Nk.
Definition key_expansion (key : list Z) (Nk Nr : nat) : list (list Z) :=
  Nat.iter (4 * (Nr + 1) - Nk) (λ w, w ++ [next_word Nk w]) (key_words key Nk).

(** The key of round [r]. *)
Definition round_key (w : list (list Z)) (r : nat) : list Z := concat (take 4 (drop (4 * r) w)).

Definition cipher (w : list (list Z)) (Nr : nat) (s : list Z) : list Z :=
  let s := add_round_key s (round_key w 0) in
  let s := fold_left (λ s r, aes_round s (round_key w r)) (seq 1 (Nr - 1)) s in
  add_round_key (shift_rows (sub_bytes s)) (round_key w Nr).

Definition inv_cipher (w : list (list Z)) (Nr : nat) (s : list Z) : list Z :=
  let s := add_round_key s (round_key w Nr) in
  let s := fold_left (λ s r,
      inv_mix_columns (add_round_key (inv_sub_bytes (inv_shift_rows s)) (round_key w (Nr - r))))
    (seq 1 (Nr - 1)) s in
  add_round_key (inv_sub_bytes (inv_shift_rows s)) (round_key w 0).

(** ** Bytes as bits *)

Fixpoint byte_of (bs : list bool) : Z :=
  match bs with [] => 0 | b :: bs => Z.b2z b + 2 * byte_of bs end.

(** The bits of byte [x], and the bits at position [p] of the slices. *)
Definition bits8 (x : Z) : list bool := (λ i, Z.testbit x (Z.of_nat i)) <$> seq 0 8.
Definition bits (s : AES_state) (p : Z) : list bool := (λ x, Z.testbit x p) <$> s.

Lemma byte_of_lxor l k :
  length l = length k → byte_of l ^^ byte_of k = byte_of (zip_with xorb l k).
Proof.
  revert k. induction l as [|a l IH]; intros [|b k] E; simplify_eq/=; [done|].
  rewrite <-IH by done. apply Z.bits_inj'. intros i Hi. rewrite Z.lxor_spec.
  rewrite !(Z.add_comm (Z.b2z _)). destruct (decide (i = 0)) as [->|Hn].
  - by rewrite !Z.testbit_0_r.
  - replace i with (Z.succ (i - 1)) by lia.
    rewrite !Z.testbit_succ_r by lia. by rewrite Z.lxor_spec.
Qed.

Lemma byte_of_lor l k :
  length l = length k → Z.lor (byte_of l) (byte_of k) = byte_of (zip_with orb l k).
Proof.
  revert k. induction l as [|a l IH]; intros [|b k] E; simplify_eq/=; [done|].
  rewrite <-IH by done. apply Z.bits_inj'. intros i Hi. rewrite Z.lor_spec.
  rewrite !(Z.add_comm (Z.b2z _)). destruct (decide (i = 0)) as [->|Hn].
  - by rewrite !Z.testbit_0_r.
  - replace i with (Z.succ (i - 1)) by lia.
    rewrite !Z.testbit_succ_r by lia. by rewrite Z.lor_spec.
Qed.

Lemma byte_of_bits8 x : byte x → byte_of (bits8 x) = x.
Proof.
  intros Hx. assert (H : Forall (λ n, byte_of (bits8 (Z.of_nat n)) = Z.of_nat n) (seq 0 256)).
  { apply (bool_decide_unpack _). vm_compute. exact I. }
  rewrite Forall_seq in H. destruct Hx as [H0 H1].
  rewrite <-(Z2Nat.id x) by done. apply H. change (2 ^ 8) with 256 in H1. lia.
Qed.

Lemma byte_of_byte bs : length bs = 8%nat → byte (byte_of bs).
Proof.
  intros H. destruct bs as [|b0 [|b1 [|b2 [|b3 [|b4 [|b5 [|b6 [|b7 [|]]]]]]]]]; try done.
  unfold byte, word. simpl. destruct b0, b1, b2, b3, b4, b5, b6, b7; simpl; lia.
Qed.

(** Equality of two bytes given by their bits. *)
Ltac byte_bits :=
  cbn [zip_with]; apply (f_equal byte_of); repeat (apply (f_equal2 cons); [btauto|]); reflexivity.

(** A statement about a byte, from its eight bits. *)
Lemma byte_ind (P : Z → Prop) :
  (∀ a0 a1 a2 a3 a4 a5 a6 a7, P (byte_of [a0; a1; a2; a3; a4; a5; a6; a7])) → ∀ x, byte x → P x.
Proof. intros H x Hx. rewrite <-(byte_of_bits8 x Hx). apply H. Qed.

Lemma byte_all (P : Z → Prop) `{∀ x, Decision (P x)} :
  Forall P (Z.of_nat <$> seq 0 256) → ∀ x, byte x → P x.
Proof.
  intros HP x [H0 H1]. rewrite Forall_fmap, Forall_seq in HP.
  rewrite <-(Z2Nat.id x) by done. apply HP. change (2 ^ 8) with 256 in H1. lia.
Qed.

Lemma xtime_byte_of a0 a1 a2 a3 a4 a5 a6 a7 :
  xtime (byte_of [a0; a1; a2; a3; a4; a5; a6; a7]) =
  byte_of [a7; xorb a0 a7; a1; xorb a2 a7; xorb a3 a7; a4; a5; a6].
Proof. by destruct a0, a1, a2, a3, a4, a5, a6, a7. Qed.

Lemma byte_lxor x y : byte x → byte y → byte (x ^^ y).
Proof. by apply word_lxor. Qed.

(** Multiplication by the coefficients of the inverse MixColumns. *)
Lemma gmul_9 x : gmul x 9 = xtime (xtime (xtime x)) ^^ x.
Proof. cbv [gmul gmul_loop Z.odd Z.div2 Pos.div2]. xor_ac. Qed.
Lemma gmul_11 x : gmul x 11 = xtime (xtime (xtime x)) ^^ xtime x ^^ x.
Proof. cbv [gmul gmul_loop Z.odd Z.div2 Pos.div2]. xor_ac. Qed.
Lemma gmul_13 x : gmul x 13 = xtime (xtime (xtime x)) ^^ xtime (xtime x) ^^ x.
Proof. cbv [gmul gmul_loop Z.odd Z.div2 Pos.div2]. xor_ac. Qed.
Lemma gmul_14 x : gmul x 14 = xtime (xtime (xtime x)) ^^ xtime (xtime x) ^^ xtime x.
Proof. cbv [gmul gmul_loop Z.odd Z.div2 Pos.div2]. xor_ac. Qed.

(** ** The circuit, bit position by bit position *)

(** The circuit keeps every relation between two kinds of wires that the
    gates keep. *)
Section Related.
Context {A B : Type} `{Gates A, Gates B} (R : A → B → Prop).
Hypothesis R_xor : ∀ a b a' b', R a a' → R b b' → R (a ⊕ b) (a' ⊕ b').
Hypothesis R_and : ∀ a b a' b', R a a' → R b b' → R (a ⊗ b) (a' ⊗ b').
Hypothesis R_or : ∀ a b a' b', R a a' → R b b' → R (a ⊚ b) (a' ⊚ b').
Hypothesis R_not : ∀ a a', R a a' → R (∼ a) (∼ a').

Ltac gate := repeat first [assumption | apply R_xor | apply R_and | apply R_or | apply R_not].

Ltac wire :=
  match goal with
  | |- Forall2 R (let x := ?a in @?f x) (let y := ?b in @?g y) =>
    change (Forall2 R (f a) (g b)); cut (R a b);
      [generalize a, b; intros ?x ?y ?Hxy; cbv beta | gate]
  end.

Lemma SubBytes_related s s' inv :
  Forall2 R s s' → Forall2 R (SubBytes s inv) (SubBytes s' inv).
Proof.
  intros Hs. unfold SubBytes.
  do 8 (destruct Hs as [|? ? ? ? ? Hs]; [repeat (constructor; try assumption)|]).
  destruct Hs; [|repeat (constructor; try assumption)].
  destruct inv; cbv beta delta [undo_postprocessing preprocessing nonlinear
    undo_preprocessing postprocessing]; repeat wire; repeat constructor; gate.
Qed.
End Related.

Definition state_ok (s : AES_state) : Prop := length s = 8%nat ∧ words 16 s.

Lemma testbit_u16 x i : 0 <= i < 16 → Z.testbit (u16 x) i = Z.testbit x i.
Proof.
  intros Hi. unfold u16. change 0xFFFF with (Z.ones 16).
  by rewrite Z.land_ones, Z.mod_pow2_bits_low by lia.
Qed.
Lemma word_u16 x : word 16 (u16 x).
Proof. unfold u16. change 0xFFFF with (Z.ones 16). rewrite Z.land_ones by lia. by apply word_mod. Qed.

(** A slice and its bit [p]. *)
Definition slice_bit (p : Z) (x : Z) (b : bool) : Prop := word 16 x ∧ Z.testbit x p = b.

Lemma SubBytes_bits s inv p :
  0 <= p < 16 → state_ok s →
  state_ok (SubBytes s inv) ∧ bits (SubBytes s inv) p = SubBytes (bits s p) inv.
Proof.
  intros Hp [Hl Hs].
  assert (H : Forall2 (slice_bit p) (SubBytes s inv) (SubBytes (bits s p) inv)).
  { apply SubBytes_related; unfold slice_bit.
    - intros a b a' b' [? <-] [? <-]. split; [by apply word_lxor|apply Z.lxor_spec].
    - intros a b a' b' [? <-] [? <-]. split; [by apply word_land_l|apply Z.land_spec].
    - intros a b a' b' [? <-] [? <-]. split; [by apply word_lor|apply Z.lor_spec].
    - intros a a' [? <-]. split; [apply word_u16|]. simpl.
      rewrite testbit_u16, Z.lnot_spec by lia. done.
    - unfold bits. clear Hl. induction Hs; constructor; auto. }
  destruct s as [|? [|? [|? [|? [|? [|? [|? [|? [|]]]]]]]]]; try done.
  split; [split|].
  - by destruct inv.
  - revert H. generalize (SubBytes (bits [z; z0; z1; z2; z3; z4; z5; z6] p) inv).
    generalize (SubBytes [z; z0; z1; z2; z3; z4; z5; z6] inv). clear.
    intros l k H. induction H as [|x b l k [Hx _] _ IH]; constructor; auto.
  - revert H. generalize (SubBytes (bits [z; z0; z1; z2; z3; z4; z5; z6] p) inv).
    generalize (SubBytes [z; z0; z1; z2; z3; z4; z5; z6] inv). clear.
    intros l k H. unfold bits. induction H as [|x b l k [_ Hx] _ IH]; [done|].
    by rewrite fmap_cons, Hx, IH.
Qed.

(** The boolean circuit is the S-box, on all 256 bytes. *)
Lemma circuit_sub_byte x :
  byte x → byte_of (SubBytes (bits8 x) false) = sub_byte x ∧
  byte_of (SubBytes (bits8 x) true) = inv_sub_byte x.
Proof.
  revert x. apply (byte_all _). apply (bool_decide_unpack _). vm_compute. exact I.
Qed.

(** The byte in row [p / 4], column [p mod 4] of a state. *)
Definition cell (s : AES_state) (p : Z) : Z := byte_of (bits s p).

Lemma bits8_byte_of bs : length bs = 8%nat → bits8 (byte_of bs) = bs.
Proof.
  intros H. destruct bs as [|b0 [|b1 [|b2 [|b3 [|b4 [|b5 [|b6 [|b7 [|]]]]]]]]]; try done.
  by destruct b0, b1, b2, b3, b4, b5, b6, b7.
Qed.

Lemma cell_byte s p : state_ok s → byte (cell s p).
Proof. intros [Hl _]. apply byte_of_byte. unfold bits. by rewrite length_fmap. Qed.

Lemma SubBytes_cell s p :
  0 <= p < 16 → state_ok s →
  cell (SubBytes s false) p = sub_byte (cell s p) ∧
  cell (SubBytes s true) p = inv_sub_byte (cell s p).
Proof.
  intros Hp Hs. destruct (circuit_sub_byte (cell s p)) as [<- <-]; [by apply cell_byte|]. unfold cell.
  destruct (SubBytes_bits s false p Hp Hs) as [_ ->], (SubBytes_bits s true p Hp Hs) as [_ ->].
  rewrite bits8_byte_of; [done|]. unfold bits. rewrite length_fmap. apply Hs.
Qed.

Lemma SubBytes_ok s inv : state_ok s → state_ok (SubBytes s inv).
Proof. intros Hs. by apply (SubBytes_bits s inv 0). Qed.

(** ** The linear layers, cell by cell *)

Ltac state8 s :=
  destruct s as [|?x [|?x [|?x [|?x [|?x [|?x [|?x [|?x [|]]]]]]]]]; try done.

Lemma each_slice_imap f s : length s = 8%nat → each_slice f s = imap f s.
Proof. intros. by state8 s. Qed.

Lemma each_slice_ok f s :
  (∀ b x, word 16 x → word 16 (f b x)) → state_ok s → state_ok (each_slice f s).
Proof.
  intros Hf [Hl Hs]. split; [by rewrite each_slice_imap, length_imap by done|].
  rewrite each_slice_imap by done. state8 s. words_inv. cbn.
  repeat (apply Forall_cons_2; [by apply Hf|]). apply Forall_nil_2.
Qed.

(** An operation that moves bits moves cells. *)
Lemma each_slice_cell (f : Z → Z) p q s :
  (∀ x, word 16 x → Z.testbit (f x) p = Z.testbit x q) → state_ok s →
  cell (each_slice (λ _, f) s) p = cell s q.
Proof.
  intros Hf [Hl Hs]. rewrite each_slice_imap by done. unfold cell, bits. state8 s. words_inv.
  cbn [imap fmap list_fmap]. by rewrite !Hf.
Qed.

(** The sixteen positions. *)
Ltac pos16 p Hp :=
  let H := fresh in
  assert (H : p = 0 ∨ p = 1 ∨ p = 2 ∨ p = 3 ∨ p = 4 ∨ p = 5 ∨ p = 6 ∨ p = 7 ∨
    p = 8 ∨ p = 9 ∨ p = 10 ∨ p = 11 ∨ p = 12 ∨ p = 13 ∨ p = 14 ∨ p = 15) by lia;
  clear Hp; destruct_or? H; subst p.

(** Evaluates the bit of a mask-and-shift expression at a constant position. *)
Ltac mask_bits :=
  rewrite testbit_u16 by lia; unfold BIT_RANGE_LEFT, BIT_RANGE_RIGHT;
  repeat match goal with
  | |- context [BIT_RANGE ?a ?b] =>
    let m := eval vm_compute in (BIT_RANGE a b) in change (BIT_RANGE a b) with m
  end;
  bits_eval; rewrite ?andb_false_r, ?andb_true_r, ?orb_false_r, ?orb_false_l.

(** Row [r] of the state is rotated by [r]. *)
Definition shifted (p : Z) : Z := 4 * (p / 4) + (p mod 4 + p / 4) mod 4.
Definition unshifted (p : Z) : Z := 4 * (p / 4) + (p mod 4 - p / 4) mod 4.

Lemma shift_slice_bit v p :
  0 <= p < 16 → Z.testbit (shift_slice v) p = Z.testbit v (shifted p) ∧
  Z.testbit (inv_shift_slice v) p = Z.testbit v (unshifted p).
Proof. intros Hp. unfold shift_slice, inv_shift_slice. pos16 p Hp; split; mask_bits; done. Qed.

Lemma ShiftRows_cell s p : 0 <= p < 16 → state_ok s → cell (ShiftRows s) p = cell s (shifted p).
Proof. intros. apply each_slice_cell; [|done]. intros. by apply shift_slice_bit. Qed.
Lemma InvShiftRows_cell s p :
  0 <= p < 16 → state_ok s → cell (InvShiftRows s) p = cell s (unshifted p).
Proof. intros. apply each_slice_cell; [|done]. intros. by apply shift_slice_bit. Qed.

Lemma ShiftRows_ok s : state_ok s → state_ok (ShiftRows s).
Proof. apply each_slice_ok. intros. apply word_u16. Qed.
Lemma InvShiftRows_ok s : state_ok s → state_ok (InvShiftRows s).
Proof. apply each_slice_ok. intros. apply word_u16. Qed.

Lemma AddRoundKey_ok s k : state_ok s → state_ok k → state_ok (AddRoundKey s k).
Proof. intros Hs [_ Hk]. apply each_slice_ok; [|done]. intros. apply word_lxor; [lia|done|by apply words_at]. Qed.

Lemma AddRoundKey_cell s k p :
  state_ok s → state_ok k → cell (AddRoundKey s k) p = cell s p ^^ cell k p.
Proof.
  intros [Hs _] [Hk _]. unfold AddRoundKey. rewrite each_slice_imap by done. state8 s. state8 k.
  unfold cell, bits. rewrite byte_of_lxor by done. cbn -[Z.testbit Z.lxor].
  by rewrite !Z.lxor_spec.
Qed.

(** A rotation by [4 b] positions moves the cells [b] rows up. *)
Lemma ROT_bit x b p :
  0 <= p < 16 → 1 <= b <= 3 → word 16 x →
  Z.testbit (ROT x b) p = Z.testbit x ((p + 4 * b) mod 16).
Proof.
  intros Hp Hb Hx. unfold ROT. rewrite Z.lor_spec, Z.shiftr_spec, Z.shiftl_spec by lia.
  destruct (decide (p + 4 * b < 16)).
  - rewrite (Z.mod_small (p + 4 * b)) by lia. rewrite (Z.testbit_neg_r x (p - _)) by lia.
    rewrite orb_false_r. f_equal. lia.
  - rewrite (word_testbit_high 16 x (p + b * 4)) by (done || lia).
    rewrite orb_false_l. f_equal. apply Z.mod_unique with 1; lia.
Qed.

(** One byte of MixColumns, from its own byte and the next three of its column. *)
Definition mix1 (a b c d : Z) : Z := xtime a ^^ (xtime b ^^ b) ^^ c ^^ d.
Definition inv_mix1 (a b c d : Z) : Z := gmul a 14 ^^ gmul b 11 ^^ gmul c 13 ^^ gmul d 9.

Lemma mix_column_mix1 a b c d :
  mix_column a b c d = [mix1 a b c d; mix1 b c d a; mix1 c d a b; mix1 d a b c].
Proof. unfold mix_column, mix1. repeat (apply (f_equal2 cons); [xor_ac|]). done. Qed.
Lemma inv_mix_column_mix1 a b c d :
  inv_mix_column a b c d = [inv_mix1 a b c d; inv_mix1 b c d a; inv_mix1 c d a b; inv_mix1 d a b c].
Proof. unfold inv_mix_column, inv_mix1. repeat (apply (f_equal2 cons); [xor_ac|]). done. Qed.

Lemma next_row p b b' : ((p + 4 * b) mod 16 + 4 * b') mod 16 = (p + 4 * (b + b')) mod 16.
Proof. rewrite Z.add_mod_idemp_l by lia. f_equal. lia. Qed.

Lemma row_bound p b : 0 <= (p + 4 * b) mod 16 < 16.
Proof. by apply Z.mod_pos_bound. Qed.

Lemma word_s_01 x : word 16 (s_01 x).
Proof. apply word_u16. Qed.

Lemma s_01_bit x p :
  0 <= p < 16 → word 16 x →
  Z.testbit (s_01 x) p = xorb (Z.testbit x p) (Z.testbit x ((p + 4 * 1) mod 16)).
Proof. intros. unfold s_01. by rewrite testbit_u16, Z.lxor_spec, ROT_bit by (done || lia). Qed.

Lemma s_123_bit x p :
  0 <= p < 16 → word 16 x →
  Z.testbit (s_123 x) p = xorb (xorb (Z.testbit x ((p + 4 * 1) mod 16))
    (Z.testbit x ((p + 4 * 2) mod 16))) (Z.testbit x ((p + 4 * 3) mod 16)).
Proof.
  intros. unfold s_123. rewrite testbit_u16, Z.lxor_spec, !ROT_bit by (done || lia || apply word_s_01).
  rewrite s_01_bit, next_row by (done || apply row_bound). done.
Qed.

Lemma t_02_bit x p :
  0 <= p < 16 → word 16 x →
  Z.testbit (t_02 x) p = xorb (Z.testbit x p) (Z.testbit x ((p + 4 * 2) mod 16)).
Proof. intros. unfold t_02. by rewrite testbit_u16, Z.lxor_spec, ROT_bit by (done || lia). Qed.

Lemma mix_forward_ok s : state_ok s → state_ok (mix_forward s).
Proof.
  intros. split; [done|]. unfold mix_forward, s_123, s_01.
  repeat apply Forall_cons_2; [..|apply Forall_nil_2];
    repeat (apply word_lxor; [lia| |]); apply word_u16.
Qed.

Lemma mix_reverse_ok s : state_ok s → state_ok (mix_reverse s).
Proof.
  intros [_ Hs]. split; [done|]. unfold mix_reverse, t_02.
  repeat apply Forall_cons_2; [..|apply Forall_nil_2];
    repeat (apply word_lxor; [lia| |]); first [apply word_u16 | by apply words_at].
Qed.

Lemma mix_forward_cell s p :
  0 <= p < 16 → state_ok s →
  cell (mix_forward s) p = mix1 (cell s p) (cell s ((p + 4 * 1) mod 16))
    (cell s ((p + 4 * 2) mod 16)) (cell s ((p + 4 * 3) mod 16)).
Proof.
  intros Hp [Hl Hs]. state8 s. words_inv. unfold cell, bits, mix_forward, mix1.
  cbn -[Z.testbit Z.lxor xtime byte_of Z.add Z.mul Z.modulo].
  rewrite !Z.lxor_spec, !s_01_bit, !s_123_bit, !xtime_byte_of by done.
  rewrite !byte_of_lxor by done. byte_bits.
Qed.

Lemma mix_reverse_cell s p :
  0 <= p < 16 → state_ok s →
  cell (mix_reverse s) p = cell s p ^^ xtime (xtime (cell s p ^^ cell s ((p + 4 * 2) mod 16))).
Proof.
  intros Hp [Hl Hs]. state8 s. words_inv. unfold cell, bits, mix_reverse.
  cbn -[Z.testbit Z.lxor xtime byte_of Z.add Z.mul Z.modulo].
  rewrite !Z.lxor_spec, !t_02_bit by done. rewrite byte_of_lxor by done. cbn [zip_with].
  rewrite !xtime_byte_of, !byte_of_lxor by done. byte_bits.
Qed.

Create HintDb aes.
#[local] Hint Resolve byte_xtime byte_lxor cell_byte : aes.

(** Multiplying by [{04}x^2 + {05}] after [a(x)] is multiplying by its inverse. *)
Lemma inv_mix1_split a b c d :
  byte a → byte b → byte c → byte d →
  mix1 a b c d ^^ xtime (xtime (mix1 a b c d ^^ mix1 c d a b)) = inv_mix1 a b c d.
Proof.
  intros. unfold mix1, inv_mix1. rewrite gmul_9, gmul_11, gmul_13, gmul_14.
  rewrite !xtime_lxor by eauto 12 with aes. xor_ac.
Qed.

Lemma MixColumns_ok s inv : state_ok s → state_ok (MixColumns s inv).
Proof. intros. destruct inv; [apply mix_reverse_ok|]; by apply mix_forward_ok. Qed.

Lemma MixColumns_cell s p :
  0 <= p < 16 → state_ok s →
  let q b := cell s ((p + 4 * b) mod 16) in
  cell (MixColumns s false) p = mix1 (cell s p) (q 1) (q 2) (q 3) ∧
  cell (MixColumns s true) p = inv_mix1 (cell s p) (q 1) (q 2) (q 3).
Proof.
  intros Hp Hs q. unfold MixColumns. split; [by apply mix_forward_cell|].
  rewrite mix_reverse_cell by auto using mix_forward_ok.
  rewrite (mix_forward_cell s p) by done.
  rewrite (mix_forward_cell s ((p + 4 * 2) mod 16)) by auto using row_bound.
  rewrite !next_row. unfold q. rewrite <-inv_mix1_split by auto with aes.
  replace ((p + 4 * (2 + 2)) mod 16) with p by (apply Z.mod_unique with 1; lia).
  replace ((p + 4 * (2 + 3)) mod 16) with ((p + 4 * 1) mod 16); [done|].
  replace (p + 4 * (2 + 3)) with (p + 4 * 1 + 1 * 16) by lia. by rewrite Z.mod_add.
Qed.

(** ** Loading and saving bytes *)

(** Column [c] of a state, and its 16 bytes column by column. *)
Definition col (s : AES_state) (c : Z) : list Z :=
  [cell s c; cell s (4 + c); cell s (8 + c); cell s (12 + c)].
Definition bytes_of (s : AES_state) : list Z := col s 0 ++ col s 1 ++ col s 2 ++ col s 3.
Definition zero_col : list Z := [0; 0; 0; 0].

Lemma land_1_bit x p : 0 <= p → Z.land (x ≫ p) 1 = Z.b2z (Z.testbit x p).
Proof.
  intros. change 1 with (Z.ones 1). rewrite Z.land_ones by lia. change (2 ^ 1) with 2.
  by rewrite <-Z.bit0_mod, Z.shiftr_spec.
Qed.

Lemma save_byte s p :
  0 <= p → length s = 8%nat →
  fold_left (λ v b, Z.lor v (Z.land ((s @@ b) ≫ p) 1 ≪ Z.of_nat b)) (seq 0 8) 0 = cell s p.
Proof.
  intros Hp Hs. state8 s. unfold cell, bits. cbn -[Z.testbit Z.land Z.lor Z.shiftr Z.shiftl byte_of].
  rewrite !land_1_bit by done.
  repeat match goal with |- context [Z.testbit ?x p] => destruct (Z.testbit x p) end; reflexivity.
Qed.

Lemma SaveBytes_spec s : length s = 8%nat → SaveBytes s = bytes_of s.
Proof. intros Hs. unfold SaveBytes. cbn -[seq at_ Z.land Z.lor Z.shiftr Z.shiftl]. by rewrite !save_byte. Qed.

Lemma LoadByte_slices s x r c :
  length s = 8%nat →
  LoadByte s x r c =
  each_slice (λ b y, u16 (Z.lor y (Z.b2z (Z.testbit x (Z.of_nat b)) ≪ (r * 4 + c)))) s.
Proof.
  intros Hs. state8 s. rewrite each_slice_imap by done.
  cbn -[Z.testbit Z.land Z.lor Z.shiftr Z.shiftl Z.mul Z.add u16]. rewrite !Z.shiftr_shiftr by lia.
  cbn [Z.add Pos.add Pos.succ]. rewrite !land_1_bit by lia.
  rewrite <-(Z.shiftr_0_r x) at 1. by rewrite land_1_bit.
Qed.

Lemma b2z_shift_bit b q p : 0 <= q → 0 <= p → Z.testbit (Z.b2z b ≪ q) p = (p =? q) && b.
Proof.
  intros. rewrite Z.shiftl_spec by done. destruct (Z.eqb_spec p q) as [->|?].
  - rewrite Z.sub_diag. by destruct b.
  - destruct (decide (p < q)); [by rewrite Z.testbit_neg_r by lia|].
    destruct b; [|by rewrite Z.testbit_0_l].
    replace (p - q) with (Z.succ (p - q - 1)) by lia.
    change (Z.b2z true) with (2 * 0 + 1). rewrite Z.testbit_odd_succ by lia. by rewrite Z.testbit_0_l.
Qed.

Lemma cell_bits s p : state_ok s → bits s p = bits8 (cell s p).
Proof. intros [Hl _]. symmetry. apply bits8_byte_of. unfold bits. by rewrite length_fmap. Qed.

Lemma LoadByte_ok s x r c : state_ok s → state_ok (LoadByte s x r c).
Proof.
  intros Hs. rewrite LoadByte_slices by apply Hs. apply each_slice_ok; [|done]. intros. apply word_u16.
Qed.

Lemma LoadByte_cell s x r c p :
  state_ok s → byte x → 0 <= r * 4 + c → 0 <= p < 16 →
  cell (LoadByte s x r c) p = if p =? r * 4 + c then Z.lor (cell s p) x else cell s p.
Proof.
  intros [Hl _] Hx Hq Hp. rewrite LoadByte_slices, each_slice_imap by done. state8 s.
  unfold cell, bits. cbn -[Z.testbit Z.lor Z.shiftl Z.mul Z.add u16 byte_of].
  rewrite !testbit_u16, !Z.lor_spec, !b2z_shift_bit by lia.
  destruct (Z.eqb_spec p (r * 4 + c)) as [->|?]; [|by rewrite !orb_false_r].
  rewrite <-(byte_of_bits8 x Hx) at 9. by rewrite byte_of_lor.
Qed.

(** The loop over [r] that loads a column. *)
Definition load_column (s : AES_state) (w : list Z) (c : Z) : AES_state :=
  LoadByte (LoadByte (LoadByte (LoadByte s (w @@ 0) 0 c) (w @@ 1) 1 c) (w @@ 2) 2 c) (w @@ 3) 3 c.

Lemma load_column_ok s w c : state_ok s → state_ok (load_column s w c).
Proof. intros. unfold load_column. by repeat apply LoadByte_ok. Qed.

Lemma bytes_at w i : bytes w → byte (w @@ i).
Proof. intros. by apply words_at. Qed.

Lemma load_column_cell s w c p :
  state_ok s → bytes w → 0 <= c < 4 → 0 <= p < 16 → col s c = zero_col →
  cell (load_column s w c) p =
  if p mod 4 =? c then w @@ Z.to_nat (p / 4) else cell s p.
Proof.
  intros Hs Hw Hc Hp H0. unfold col, zero_col in H0. injection H0 as H0 H1 H2 H3.
  unfold load_column. rewrite !LoadByte_cell by (lia || auto using bytes_at, LoadByte_ok).
  pose proof (Z.div_mod p 4 ltac:(lia)) as Ep. pose proof (Z.mod_pos_bound p 4 ltac:(lia)).
  destruct (Z.eqb_spec (p mod 4) c) as [Hpc|Hpc].
  - assert (Hr : p / 4 = 0 ∨ p / 4 = 1 ∨ p / 4 = 2 ∨ p / 4 = 3) by lia.
    destruct Hr as [Hr|[Hr|[Hr|Hr]]]; rewrite Hr in *;
      repeat match goal with |- context [?a =? ?b] => destruct (Z.eqb_spec a b); [lia||idtac|lia||idtac] end.
    all: replace (cell s p) with 0 by (rewrite Ep, Hpc; done); apply Z.lor_0_l.
  - repeat match goal with |- context [?a =? ?b] => destruct (Z.eqb_spec a b); [lia|] end. done.
Qed.

Lemma load_column_col s w c c' :
  state_ok s → bytes w → length w = 4%nat → 0 <= c < 4 → 0 <= c' < 4 → col s c = zero_col →
  col (load_column s w c) c' = if c' =? c then w else col s c'.
Proof.
  intros Hs Hw Hl Hc Hc' H0. unfold col. rewrite !load_column_cell by (done || lia).
  rewrite (Z.mod_small c'), (Z.div_small c') by done.
  replace (4 + c') with (c' + 1 * 4) by lia. replace (8 + c') with (c' + 2 * 4) by lia.
  replace (12 + c') with (c' + 3 * 4) by lia.
  rewrite !Z.mod_add, !Z.div_add, (Z.mod_small c'), (Z.div_small c') by lia.
  destruct (c' =? c); [|done]. destruct w as [|? [|? [|? [|? [|]]]]]; done.
Qed.

Lemma zero_state_ok : state_ok zero_state.
Proof. split; [done|]. apply (bool_decide_unpack _). by vm_compute. Qed.

Lemma zero_state_col c : col zero_state c = zero_col.
Proof.
  unfold col, cell, bits. cbn [zero_state replicate fmap list_fmap].
  by rewrite !Z.testbit_0_l.
Qed.

#[local] Opaque LoadByte.
Lemma LoadBytes_columns s d :
  length d = 16%nat →
  LoadBytes s d = load_column (load_column (load_column (load_column s
    (take 4 d) 0) (take 4 (drop 4 d)) 1) (take 4 (drop 8 d)) 2) (take 4 (drop 12 d)) 3.
Proof.
  intros. do 16 (destruct d as [|? d]; [done|]). destruct d; [|done].
  unfold LoadBytes, load_column. cbn. reflexivity.
Qed.

Lemma load_columns_spec w0 w1 w2 w3 :
  bytes w0 → bytes w1 → bytes w2 → bytes w3 →
  length w0 = 4%nat → length w1 = 4%nat → length w2 = 4%nat → length w3 = 4%nat →
  let s := load_column (load_column (load_column (load_column zero_state w0 0) w1 1) w2 2) w3 3 in
  state_ok s ∧ bytes_of s = w0 ++ w1 ++ w2 ++ w3.
Proof.
  intros. pose proof zero_state_ok as Hz. pose proof (load_column_ok _ w0 0 Hz) as Hz0.
  pose proof (load_column_ok _ w1 1 Hz0) as Hz1. pose proof (load_column_ok _ w2 2 Hz1) as Hz2.
  pose proof (load_column_ok _ w3 3 Hz2) as Hz3. split; [done|].
  assert (E1 : ∀ c, 0 <= c < 4 → col (load_column zero_state w0 0) c = if c =? 0 then w0 else zero_col).
  { intros. rewrite load_column_col by (done || lia || apply zero_state_col). by rewrite zero_state_col. }
  assert (E2 : ∀ c, 0 <= c < 4 → col (load_column (load_column zero_state w0 0) w1 1) c =
    if c =? 1 then w1 else if c =? 0 then w0 else zero_col).
  { intros. rewrite load_column_col by (done || lia || by rewrite E1). by rewrite E1. }
  assert (E3 : ∀ c, 0 <= c < 4 →
    col (load_column (load_column (load_column zero_state w0 0) w1 1) w2 2) c =
    if c =? 2 then w2 else if c =? 1 then w1 else if c =? 0 then w0 else zero_col).
  { intros. rewrite load_column_col by (done || lia || by rewrite E2). by rewrite E2. }
  assert (E4 : ∀ c, 0 <= c < 4 → col s c = if c =? 3 then w3 else
    if c =? 2 then w2 else if c =? 1 then w1 else if c =? 0 then w0 else zero_col).
  { intros. unfold s. rewrite load_column_col by (done || lia || by rewrite E3). by rewrite E3. }
  unfold bytes_of. by rewrite !E4 by lia.
Qed.

Lemma LoadBytes_spec d :
  bytes d → length d = 16%nat →
  state_ok (LoadBytes zero_state d) ∧ bytes_of (LoadBytes zero_state d) = d.
Proof.
  intros Hd Hl. rewrite LoadBytes_columns by done.
  destruct (load_columns_spec (take 4 d) (take 4 (drop 4 d)) (take 4 (drop 8 d)) (take 4 (drop 12 d)))
    as [Hok Hb]; auto using Forall_take, Forall_drop; try (rewrite length_take, ?length_drop; lia).
  split; [exact Hok|]. etrans; [exact Hb|]. clear Hok Hb.
  do 16 (destruct d as [|? d]; [done|]). by destruct d.
Qed.

(** ** The layers on the sixteen bytes *)

Lemma SubBytes_bytes s :
  state_ok s → bytes_of (SubBytes s false) = sub_bytes (bytes_of s) ∧
  bytes_of (SubBytes s true) = inv_sub_bytes (bytes_of s).
Proof.
  intros Hs. unfold bytes_of, col.
  split; rewrite ?(λ p Hp, proj1 (SubBytes_cell s p Hp Hs)),
    ?(λ p Hp, proj2 (SubBytes_cell s p Hp Hs)) by lia; reflexivity.
Qed.

Lemma ShiftRows_bytes s :
  state_ok s → bytes_of (ShiftRows s) = shift_rows (bytes_of s) ∧
  bytes_of (InvShiftRows s) = inv_shift_rows (bytes_of s).
Proof.
  intros Hs. unfold bytes_of, col.
  split; rewrite ?ShiftRows_cell, ?InvShiftRows_cell by (done || lia); reflexivity.
Qed.

Lemma MixColumns_bytes s :
  state_ok s → bytes_of (MixColumns s false) = mix_columns (bytes_of s) ∧
  bytes_of (MixColumns s true) = inv_mix_columns (bytes_of s).
Proof.
  intros Hs. unfold mix_columns, inv_mix_columns. cbn [seq fmap list_fmap concat].
  rewrite !mix_column_mix1, !inv_mix_column_mix1. unfold bytes_of, col.
  split; rewrite ?(λ p Hp, proj1 (MixColumns_cell s p Hp Hs)),
    ?(λ p Hp, proj2 (MixColumns_cell s p Hp Hs)) by lia; reflexivity.
Qed.

Lemma AddRoundKey_bytes s k :
  state_ok s → state_ok k → bytes_of (AddRoundKey s k) = add_round_key (bytes_of s) (bytes_of k).
Proof. intros. unfold bytes_of, col. by rewrite !AddRoundKey_cell. Qed.

(** ** The key schedule *)

Lemma MultX_ok s : state_ok s → state_ok (MultX s).
Proof.
  intros [_ Hs]. split; [done|]. unfold MultX.
  repeat apply Forall_cons_2; [..|apply Forall_nil_2];
    repeat (apply word_lxor; [lia| |]); by apply words_at.
Qed.

Lemma MultX_cell s p : state_ok s → cell (MultX s) p = xtime (cell s p).
Proof.
  intros [Hl _]. state8 s. unfold cell, bits, MultX. cbn -[Z.testbit Z.lxor byte_of xtime].
  by rewrite !Z.lxor_spec, xtime_byte_of.
Qed.

Lemma KeySetupTransform_ok s r : state_ok s → state_ok (KeySetupTransform s r).
Proof. apply each_slice_ok. intros. apply word_u16. Qed.

Lemma KeySetupTransform_cell s r p :
  0 <= p < 16 → state_ok s → state_ok r →
  cell (KeySetupTransform s r) p = cell s ((p + 4 * 1) mod 16) ^^ cell r p.
Proof.
  intros Hp [Hl Hs] [Hr _]. unfold KeySetupTransform. rewrite each_slice_imap by done.
  state8 s. state8 r. words_inv. unfold cell, bits. rewrite byte_of_lxor by done.
  cbn -[Z.testbit Z.lxor Z.lor Z.shiftl Z.shiftr u16 Z.modulo Z.add Z.mul].
  repeat match goal with |- context [Z.lor (?x ≫ 4) (?x ≪ 12)] =>
    change (Z.lor (x ≫ 4) (x ≪ 12)) with (ROT x 1) end.
  by rewrite !testbit_u16, !Z.lxor_spec, !ROT_bit by (done || lia).
Qed.

(** Evaluates the row and the column of a constant position. *)
Ltac row_col :=
  repeat match goal with
  | |- context [?a mod 4] => let v := eval vm_compute in (a mod 4) in change (a mod 4) with v
  | |- context [?a / 4] => let v := eval vm_compute in (a / 4) in change (a / 4) with v
  | |- context [4 * ?a] => let v := eval vm_compute in (4 * a) in change (4 * a) with v
  | |- context [Zpos ?a - ?b] =>
    let v := eval vm_compute in (Zpos a - b) in change (Zpos a - b) with v
  | |- context [0 - ?b] => let v := eval vm_compute in (0 - b) in change (0 - b) with v
  end.

(** The mask keeps the first column. *)
Lemma mask_bit x c p :
  0 <= c < 4 → 0 <= p < 16 →
  Z.testbit (Z.land (x ≫ c) 0x1111) p = (p mod 4 =? 0) && Z.testbit x (p + c).
Proof.
  intros Hc Hp. rewrite Z.land_spec, Z.shiftr_spec by lia.
  pos16 p Hp; row_col; cbn -[Z.testbit Z.add]; bits_eval; btauto.
Qed.

Lemma GetOneColumn_ok s a c : 0 <= c → state_ok s → state_ok (GetOneColumn s a c).
Proof. intros. apply each_slice_ok; [|done]. intros. by apply word_land_r. Qed.

Lemma GetOneColumn_col s a c :
  0 <= c < 4 → length s = 8%nat → state_ok a → col (GetOneColumn s a c) 0 = col a c.
Proof.
  intros Hc Hs [Ha _]. unfold GetOneColumn. rewrite each_slice_imap by done.
  state8 s. state8 a. unfold col, cell, bits.
  cbn -[Z.testbit Z.land Z.shiftr byte_of Z.add]. by rewrite !mask_bit by lia.
Qed.

Lemma KeySetupColumnMix_slices s r a c1 c2 :
  length s = 8%nat → length r = 8%nat →
  let s' := each_slice (λ b x, x ^^ Z.land ((a @@ b) ≫ c2) 0x1111) s in
  KeySetupColumnMix s r a c1 c2 =
  (s', each_slice (λ b y, u16 (Z.lor y (Z.land (s' @@ b) 0x1111 ≪ c1))) r).
Proof. intros Hs Hr s'. unfold s'. rewrite !each_slice_imap by done. state8 s. by state8 r. Qed.

Lemma shifted_mask_bit x c p :
  0 <= c < 4 → 0 <= p < 16 →
  Z.testbit (Z.land x 0x1111 ≪ c) p = (p mod 4 =? c) && Z.testbit x (4 * (p / 4)).
Proof.
  intros Hc Hp. rewrite Z.shiftl_spec, Z.land_spec by lia.
  assert (E : c = 0 ∨ c = 1 ∨ c = 2 ∨ c = 3) by lia.
  pos16 p Hp; destruct E as [-> | [-> | [-> | ->]]]; row_col; cbn -[Z.testbit]; bits_eval; btauto.
Qed.

Lemma KeySetupColumnMix_spec s r a c1 c2 :
  0 <= c1 < 4 → 0 <= c2 < 4 → state_ok s → state_ok r → state_ok a → col r c1 = zero_col →
  let '(s', r') := KeySetupColumnMix s r a c1 c2 in
  state_ok s' ∧ state_ok r' ∧ col s' 0 = add_round_key (col a c2) (col s 0) ∧
  (∀ c, 0 <= c < 4 → col r' c = if c =? c1 then add_round_key (col a c2) (col s 0) else col r c).
Proof.
  intros Hc1 Hc2 Hs Hr Ha H0. rewrite KeySetupColumnMix_slices by (apply Hs || apply Hr).
  set (s' := each_slice _ s).
  assert (Hs' : state_ok s').
  { apply each_slice_ok; [|done]. intros. apply word_lxor; [lia|done|]. by apply word_land_r. }
  assert (E : col s' 0 = add_round_key (col a c2) (col s 0)).
  { unfold s'. rewrite each_slice_imap by apply Hs. destruct Hs as [Hl _], Ha as [Hal _].
    state8 s. state8 a. unfold col, add_round_key. cbn [zip_with]. unfold cell, bits.
    rewrite !byte_of_lxor by done. cbn -[Z.testbit Z.land Z.lxor Z.shiftr byte_of Z.add].
    rewrite !Z.lxor_spec, !mask_bit by lia. rewrite !Z.add_0_r, !Z.add_0_l. row_col.
    change (0 =? 0) with true.
    repeat (apply (f_equal2 cons); [byte_bits|]). done. }
  split; [done|]. split; [by apply each_slice_ok; [intros; apply word_u16|]|]. split; [done|].
  intros c Hc. rewrite <-E.
  assert (Ec : ∀ p, 0 <= p < 16 →
    cell (each_slice (λ b y, u16 (Z.lor y (Z.land (s' @@ b) 0x1111 ≪ c1))) r) p =
    if p mod 4 =? c1 then Z.lor (cell r p) (cell s' (4 * (p / 4))) else cell r p).
  { intros p Hp. rewrite each_slice_imap by apply Hr. clearbody s'. clear E H0.
    destruct Hs' as [Hl' _], Hr as [Hl _]. state8 s'. state8 r. unfold cell, bits.
    rewrite byte_of_lor by done. cbn -[Z.testbit Z.land Z.lor Z.shiftl Z.shiftr u16 byte_of Z.modulo Z.add Z.mul Z.div].
    rewrite !testbit_u16, !Z.lor_spec, !shifted_mask_bit by lia.
    destruct (p mod 4 =? c1); [done|]. by rewrite !orb_false_r. }
  unfold col in *. rewrite !Ec by lia. injection H0 as Z0 Z1 Z2 Z3.
  replace (4 + c) with (c + 1 * 4) in * by lia. replace (8 + c) with (c + 2 * 4) in * by lia.
  replace (12 + c) with (c + 3 * 4) in * by lia.
  rewrite !Z.mod_add, !Z.div_add, (Z.mod_small c), (Z.div_small c) by lia.
  destruct (Z.eqb_spec c c1) as [->|]; [|done].
  replace (c1 + 1 * 4) with (4 + c1) by lia. replace (c1 + 2 * 4) with (8 + c1) by lia.
  replace (c1 + 3 * 4) with (12 + c1) by lia. by rewrite Z0, Z1, Z2, Z3, !Z.lor_0_l.
Qed.

(** The round keys hold the words [w], one per column, and zeros after them. *)
Definition holds (rounds : list AES_state) (n : nat) (w : list (list Z)) : Prop :=
  length rounds = n ∧ Forall state_ok rounds ∧
  ∀ j, (j < 4 * n)%nat →
    col (round_at rounds (j / 4)) (Z.of_nat (j mod 4)) = if (j <? length w)%nat then nth j w [] else zero_col.

Lemma round_at_ok rounds i : Forall state_ok rounds → (i < length rounds)%nat → state_ok (round_at rounds i).
Proof. intros H Hi. unfold round_at. rewrite Forall_forall in H. apply H. by apply nth_In. Qed.

Lemma round_at_insert rounds i j r :
  (i < length rounds)%nat → round_at (<[i := r]> rounds) j = if (j =? i)%nat then r else round_at rounds j.
Proof.
  intros Hi. unfold round_at. revert i j Hi. induction rounds as [|x l IH]; intros [|i] [|j] Hi;
    simpl in *; try done; try lia. apply IH. lia.
Qed.

Lemma col_pos (j : nat) : 0 <= Z.of_nat (j mod 4) < 4.
Proof. pose proof (Nat.mod_upper_bound j 4). lia. Qed.

(** Writing the next word into its column. *)
Lemma holds_next rounds n w r x :
  let i := length w in
  holds rounds n w → (i < 4 * n)%nat → state_ok r →
  (∀ c, 0 <= c < 4 → col r c =
    if c =? Z.of_nat (i mod 4) then x else col (round_at rounds (i / 4)) c) →
  holds (<[(i / 4)%nat := r]> rounds) n (w ++ [x]).
Proof.
  intros i (Hl & Hok & Hc) Hi Hr Hcol.
  assert (Hq : (i / 4 < length rounds)%nat) by (apply Nat.Div0.div_lt_upper_bound; lia).
  split; [by rewrite length_insert|]. split; [by apply Forall_insert|].
  intros j Hj. rewrite round_at_insert by done. rewrite length_app. cbn [length].
  destruct (Nat.eqb_spec (j / 4) (i / 4)) as [E|E].
  - rewrite Hcol by apply col_pos. rewrite <-E. destruct (Z.eqb_spec (Z.of_nat (j mod 4)) (Z.of_nat (i mod 4))) as [E'|E'].
    + assert (j = i) as -> by (rewrite (Nat.div_mod_eq j 4), (Nat.div_mod_eq i 4); lia).
      fold i. destruct (Nat.ltb_spec i (i + 1)); [|lia].
      unfold i. rewrite app_nth2, Nat.sub_diag by lia. done.
    + rewrite Hc by done. assert (j ≠ i) by congruence. fold i.
      destruct (Nat.ltb_spec j i), (Nat.ltb_spec j (i + 1)); try lia; [|done].
      by rewrite app_nth1 by (fold i; lia).
  - rewrite Hc by done. assert (j ≠ i) by congruence. fold i.
    destruct (Nat.ltb_spec j i), (Nat.ltb_spec j (i + 1)); try lia; [|done].
    by rewrite app_nth1 by (fold i; lia).
Qed.

Lemma holds_col rounds n w j :
  holds rounds n w → (j < length w)%nat → (j < 4 * n)%nat →
  col (round_at rounds (j / 4)) (Z.of_nat (j mod 4)) = nth j w [].
Proof. intros (_ & _ & Hc) Hj Hn. rewrite Hc by done. by destruct (Nat.ltb_spec j (length w)); [|lia]. Qed.

Lemma holds_fresh rounds n w :
  holds rounds n w → (length w < 4 * n)%nat →
  col (round_at rounds (length w / 4)) (Z.of_nat (length w mod 4)) = zero_col.
Proof. intros (_ & _ & Hc) Hj. rewrite Hc by done. by destruct (Nat.ltb_spec (length w) (length w)); [lia|]. Qed.

Lemma holds_state rounds n w j : holds rounds n w → (j < 4 * n)%nat → state_ok (round_at rounds (j / 4)).
Proof. intros (Hl & Hok & _) Hj. apply round_at_ok; [done|]. apply Nat.Div0.div_lt_upper_bound. lia. Qed.

(** *** The words taken from the key *)

Lemma load_word_column rounds key i :
  (i / 4 < length rounds)%nat →
  load_word (rounds, key) i =
  (<[(i / 4)%nat := load_column (round_at rounds (i / 4)) key (Z.of_nat (i mod 4))]> rounds, drop 4 key).
Proof.
  intros Hi. unfold load_word. cbn [fold_left]. rewrite !round_at_insert by (rewrite ?length_insert; done).
  rewrite !Nat.eqb_refl, !list_insert_insert_eq, !drop_drop. f_equal. f_equal.
  unfold load_column. assert (E : ∀ k, drop k key @@ 0 = key @@ k); [|by rewrite !E].
  intros k. unfold at_. rewrite nth_skipn. f_equal. lia.
Qed.

Lemma load_column_take s w c : load_column s (take 4 w) c = load_column s w c.
Proof. unfold load_column. by do 4 (destruct w as [|? w]; [done|]). Qed.

Lemma load_key_holds key Nk n :
  bytes key → (4 * Nk <= length key)%nat → (Nk <= 4 * n)%nat →
  holds (load_key (replicate n zero_state) key Nk) n (key_words key Nk).
Proof.
  intros Hb Hk Hn. unfold load_key.
  match goal with |- context [fold_left ?f (seq 0 Nk) ?a] =>
    cut (holds (fst (fold_left f (seq 0 Nk) a)) n (key_words key Nk) ∧
      snd (fold_left f (seq 0 Nk) a) = drop (4 * Nk) key); [by intros [? _]|] end.
  revert Hk Hn. induction Nk as [|k IH]; intros Hk Hn.
  { split; [|done]. split; [apply length_replicate|]. split.
    - apply Forall_replicate, zero_state_ok.
    - intros j Hj. cbn [fst fold_left seq]. unfold round_at.
      rewrite nth_lookup, lookup_replicate_2; [apply zero_state_col|].
      apply Nat.Div0.div_lt_upper_bound. lia. }
  destruct IH as [IH Ek]; [lia..|]. rewrite seq_S, fold_left_app. cbn [fold_left Nat.add].
  destruct (fold_left _ (seq 0 k) _) as [rounds key']. cbn [fst snd] in IH, Ek. subst key'.
  assert (Hl : length (key_words key k) = k) by (unfold key_words; by rewrite length_fmap, length_seq).
  rewrite load_word_column by (destruct IH as (-> & _); apply Nat.Div0.div_lt_upper_bound; lia).
  cbn [fst snd]. split; [|rewrite drop_drop; f_equal; lia].
  assert (Ew : key_words key (S k) = key_words key k ++ [take 4 (drop (4 * k) key)]).
  { unfold key_words. by rewrite seq_S, fmap_app. }
  rewrite Ew, <-load_column_take. rewrite <-Hl at 1. apply holds_next; [done|lia|..].
  - apply load_column_ok. apply (holds_state _ _ _ k IH). lia.
  - intros c Hc. rewrite Hl. apply load_column_col; auto using Forall_take, Forall_drop.
    + apply (holds_state _ _ _ k IH). lia.
    + rewrite length_take, length_drop. lia.
    + apply col_pos.
    + pose proof (holds_fresh _ _ _ IH) as Hf. rewrite Hl in Hf. apply Hf. lia.
Qed.

(** *** The words computed from the previous ones *)

Lemma col_SubBytes s : state_ok s → col (SubBytes s false) 0 = sub_bytes (col s 0).
Proof. intros Hs. unfold col. by rewrite !(λ p Hp, proj1 (SubBytes_cell s p Hp Hs)) by lia. Qed.

Lemma col_KeySetupTransform s r :
  state_ok s → state_ok r →
  col (KeySetupTransform s r) 0 = add_round_key (rot_word (col s 0)) (col r 0).
Proof. intros. unfold col. by rewrite !KeySetupTransform_cell by (done || lia). Qed.

Lemma col_MultX s c : state_ok s → col (MultX s) c = xtime <$> col s c.
Proof. intros. unfold col. by rewrite !MultX_cell. Qed.

Lemma Rcon_next j : (1 <= j)%nat → xtime <$> Rcon j = Rcon (S j).
Proof. intros. destruct j as [|j]; [lia|]. unfold Rcon. by rewrite !Nat.sub_succ, !Nat.sub_0_r. Qed.

(** What the loop of [AES_setup] has when the words [w] are done. *)
Definition setup_inv (Nk n : nat) (st : setup) (w : list (list Z)) : Prop :=
  holds (rounds st) n w ∧ state_ok (column st) ∧ state_ok (rcon st) ∧
  col (column st) 0 = nth (length w - 1) w [] ∧
  col (rcon st) 0 = Rcon ((length w - 1) / Nk + 1) ∧
  pos st = (length w mod Nk)%nat.

Lemma div_pred i k : (1 <= k)%nat → (1 <= i)%nat →
  (i mod k = 0 → (i - 1) / k + 1 = i / k)%nat ∧ (i mod k ≠ 0 → (i - 1) / k = i / k)%nat.
Proof.
  intros Hk Hi. pose proof (Nat.div_mod_eq i k). pose proof (Nat.mod_upper_bound i k ltac:(lia)).
  split; intros.
  - assert (i / k ≠ 0)%nat by (intros E; rewrite E in *; lia).
    replace ((i - 1) / k)%nat with (i / k - 1)%nat; [lia|].
    apply Nat.div_unique with (k - 1)%nat; nia.
  - symmetry. apply Nat.div_unique with (i mod k - 1)%nat; lia.
Qed.

Lemma next_pos i k : (1 <= k)%nat →
  (if (S (i mod k) =? k)%nat then O else S (i mod k)) = (S i mod k)%nat.
Proof.
  intros Hk. pose proof (Nat.div_mod_eq i k). pose proof (Nat.mod_upper_bound i k ltac:(lia)).
  destruct (Nat.eqb_spec (S (i mod k)) k).
  - apply Nat.mod_unique with (S (i / k)); lia.
  - apply Nat.mod_unique with (i / k)%nat; lia.
Qed.

(** The transformed column and round constant of a step. *)
Lemma setup_transform Nk n st w :
  let i := length w in
  setup_inv Nk n st w → (1 <= Nk <= i)%nat →
  let '(column, rcon) :=
    if (pos st =? 0)%nat
    then (KeySetupTransform (SubBytes (column st) false) (rcon st), MultX (rcon st))
    else if (6 <? Nk)%nat && (pos st =? 4)%nat
    then (SubBytes (column st) false, rcon st)
    else (column st, rcon st) in
  state_ok column ∧ state_ok rcon ∧
  add_round_key (nth (i - Nk) w []) (col column 0) = next_word Nk w ∧
  col rcon 0 = Rcon (i / Nk + 1).
Proof.
  intros i (_ & Hc & Hr & Ec & Er & Ep) Hi. rewrite Ep.
  unfold next_word. fold i. fold i in Ec, Er. destruct (div_pred i Nk) as [D0 D1]; [lia..|].
  destruct (Nat.eqb_spec (i mod Nk) 0) as [E|E].
  - rewrite D0 in Er by done.
    assert (1 <= i / Nk)%nat by (apply Nat.div_str_pos; lia).
    split; [by apply KeySetupTransform_ok, SubBytes_ok|]. split; [by apply MultX_ok|].
    rewrite col_KeySetupTransform, col_SubBytes, col_MultX, Ec, Er, Rcon_next
      by auto using SubBytes_ok. rewrite Nat.add_1_r. split; [|done].
    f_equal. f_equal. unfold rot_word, sub_bytes. by rewrite fmap_app, fmap_drop, fmap_take.
  - rewrite D1 in Er by done. destruct ((6 <? Nk)%nat && (i mod Nk =? 4)%nat).
    + rewrite col_SubBytes, Ec by done. auto using SubBytes_ok.
    + rewrite Ec. auto.
Qed.

Lemma setup_step_inv Nk n st w :
  let i := length w in
  setup_inv Nk n st w → (1 <= Nk <= i)%nat → (i < 4 * n)%nat →
  setup_inv Nk n (setup_step Nk st i) (w ++ [next_word Nk w]).
Proof.
  intros i Hst Hi Hn. pose proof (setup_transform Nk n st w Hst Hi) as Ht. fold i in Ht.
  destruct Hst as (Hh & _ & _ & _ & _ & Ep). unfold setup_step. fold i in Ep.
  destruct (if (pos st =? 0)%nat then _ else _) as [column rcon]. destruct Ht as (Hc & Hr & Ew & Er).
  pose proof (KeySetupColumnMix_spec column (round_at (rounds st) (i / 4))
    (round_at (rounds st) ((i - Nk) / 4)) _ _ (col_pos i) (col_pos (i - Nk)) Hc
    (holds_state _ _ _ _ Hh Hn) (holds_state _ _ _ (i - Nk) Hh ltac:(lia)) (holds_fresh _ _ _ Hh Hn)) as Hm.
  destruct (KeySetupColumnMix _ _ _ _ _) as [column' r']. destruct Hm as (Hc' & Hr' & Ec' & Er').
  rewrite (holds_col _ _ _ (i - Nk) Hh), Ew in Ec', Er' by lia.
  split; [by apply holds_next|]. cbn [Ctaes.column Ctaes.rcon Ctaes.pos].
  rewrite length_app, Nat.add_1_r. cbn [length]. fold i. rewrite Nat.sub_succ, Nat.sub_0_r.
  split; [done|]. split; [done|]. rewrite Ep, next_pos by lia.
  split; [|done]. unfold i. by rewrite app_nth2, Nat.sub_diag by lia.
Qed.

Lemma length_next_words Nk n w :
  length (Nat.iter n (λ w, w ++ [next_word Nk w]) w) = (length w + n)%nat.
Proof. induction n as [|n IH]; [cbn; lia|]. rewrite Nat.iter_succ, length_app, IH. cbn. lia. Qed.

Lemma setup_loop_inv Nk n st w k :
  setup_inv Nk n st w → (1 <= Nk <= length w)%nat → (length w + k <= 4 * n)%nat →
  setup_inv Nk n (fold_left (setup_step Nk) (seq (length w) k) st)
    (Nat.iter k (λ w, w ++ [next_word Nk w]) w).
Proof.
  intros Hst Hw. induction k as [|k IH]; intros Hk; [done|].
  rewrite seq_S, fold_left_app. cbn [fold_left]. rewrite Nat.iter_succ.
  rewrite <-(length_next_words Nk k w). apply setup_step_inv; [apply IH; lia|..];
    rewrite length_next_words; lia.
Qed.

(** The round keys hold the key expansion. *)
Lemma AES_setup_holds key Nk Nr :
  bytes key → (length key = 4 * Nk)%nat → (1 <= Nk <= 4 * (Nr + 1))%nat →
  holds (AES_setup key Nk Nr) (Nr + 1) (key_expansion key Nk Nr).
Proof.
  intros Hb Hl Hn. unfold AES_setup, key_expansion.
  pose proof (load_key_holds key Nk (Nr + 1) Hb ltac:(lia) ltac:(lia)) as Hh.
  assert (Hlen : length (key_words key Nk) = Nk) by (unfold key_words; by rewrite length_fmap, length_seq).
  set (rounds0 := load_key _ _ _) in *. set (st0 := Setup _ _ _ _).
  enough (H0 : setup_inv Nk (Nr + 1) st0 (key_words key Nk)).
  { pose proof (setup_loop_inv Nk (Nr + 1) st0 _ (4 * (Nr + 1) - Nk) H0) as H. rewrite Hlen in H.
    apply H; lia. }
  split; [done|]. unfold st0. cbn [Ctaes.column Ctaes.rcon Ctaes.pos]. rewrite Hlen.
  split; [apply GetOneColumn_ok, zero_state_ok; pose proof (col_pos (Nk - 1)); lia|].
  split; [split; [done|]; apply (bool_decide_unpack _); by vm_compute|].
  split; [|split].
  - rewrite GetOneColumn_col by first [apply col_pos | done | apply (holds_state _ _ _ _ Hh); lia].
    apply (holds_col _ _ _ _ Hh); lia.
  - rewrite Nat.div_small by lia. reflexivity.
  - by rewrite Nat.Div0.mod_same.
Qed.

(** ** The cipher *)

Lemma take4_drop (w : list (list Z)) k :
  (k + 4 <= length w)%nat →
  take 4 (drop k w) = [nth k w []; nth (k + 1) w []; nth (k + 2) w []; nth (k + 3) w []].
Proof.
  intros Hk. rewrite <-(take_drop k w) at 2 3 4 5.
  rewrite !app_nth2; rewrite length_take, Nat.min_l by lia; try lia.
  rewrite Nat.sub_diag, !(Nat.add_comm k), !Nat.add_sub.
  assert (H : (4 <= length (drop k w))%nat) by (rewrite length_drop; lia).
  destruct (drop k w) as [|? [|? [|? [|? l]]]]; simpl in H; try lia. done.
Qed.

Lemma length_key_expansion key Nk Nr :
  (Nk <= 4 * (Nr + 1))%nat → length (key_expansion key Nk Nr) = (4 * (Nr + 1))%nat.
Proof.
  intros. unfold key_expansion. rewrite length_next_words. unfold key_words.
  rewrite length_fmap, length_seq. lia.
Qed.

Definition block (s : list Z) : Prop := bytes s ∧ length s = 16%nat.

(** A state that represents sixteen bytes. *)
Definition represents (s : AES_state) (b : list Z) : Prop := state_ok s ∧ bytes_of s = b.

Lemma represents_block s b : represents s b → block b.
Proof.
  intros [Hs <-]. split; [|done]. unfold bytes_of, col. cbn [app].
  repeat (apply Forall_cons_2; [by apply cell_byte|]). apply Forall_nil_2.
Qed.

Lemma holds_round_key rounds n w r :
  holds rounds n w → length w = (4 * n)%nat → (r < n)%nat →
  represents (round_at rounds r) (round_key w r).
Proof.
  intros Hh Hl Hr. split.
  { destruct Hh as (E & Hok & _). apply round_at_ok; [done|lia]. }
  unfold round_key. rewrite take4_drop by lia.
  assert (E : ∀ c, (c < 4)%nat → col (round_at rounds r) (Z.of_nat c) = nth (4 * r + c) w []).
  { intros c Hc. rewrite <-(holds_col _ _ _ _ Hh) by lia.
    rewrite (Nat.mul_comm 4), Nat.div_add_l, Nat.div_small, Nat.add_0_r by lia.
    by rewrite Nat.add_comm, Nat.Div0.mod_add, Nat.mod_small by lia. }
  unfold bytes_of. cbn [concat]. rewrite app_nil_r.
  rewrite <-(Nat.add_0_r (4 * r)) at 1. rewrite <-!E by lia. done.
Qed.

Lemma represents_AddRoundKey s b k kb :
  represents s b → represents k kb → represents (AddRoundKey s k) (add_round_key b kb).
Proof. intros [Hs <-] [Hk <-]. split; [by apply AddRoundKey_ok|by apply AddRoundKey_bytes]. Qed.
Lemma represents_SubBytes s b :
  represents s b → represents (SubBytes s false) (sub_bytes b) ∧
  represents (SubBytes s true) (inv_sub_bytes b).
Proof.
  intros [Hs <-]. destruct (SubBytes_bytes s Hs) as [E E'].
  exact (conj (conj (SubBytes_ok s false Hs) E) (conj (SubBytes_ok s true Hs) E')).
Qed.
Lemma represents_ShiftRows s b :
  represents s b → represents (ShiftRows s) (shift_rows b) ∧
  represents (InvShiftRows s) (inv_shift_rows b).
Proof.
  intros [Hs <-]. destruct (ShiftRows_bytes s Hs) as [E E'].
  exact (conj (conj (ShiftRows_ok s Hs) E) (conj (InvShiftRows_ok s Hs) E')).
Qed.
Lemma represents_MixColumns s b :
  represents s b → represents (MixColumns s false) (mix_columns b) ∧
  represents (MixColumns s true) (inv_mix_columns b).
Proof.
  intros [Hs <-]. destruct (MixColumns_bytes s Hs) as [E E'].
  exact (conj (conj (MixColumns_ok s false Hs) E) (conj (MixColumns_ok s true Hs) E')).
Qed.

Section Cipher.
Context (rounds : list AES_state) (Nr : nat) (w : list (list Z)).
Hypothesis Hkey : ∀ r, (r <= Nr)%nat → represents (round_at rounds r) (round_key w r).
Hypothesis HNr : (1 <= Nr)%nat.

Lemma AES_encrypt_cipher p :
  bytes p → length p = 16%nat → AES_encrypt rounds Nr p = cipher w Nr p.
Proof.
  intros Hp Hl. unfold AES_encrypt, cipher.
  assert (H : represents
    (fold_left (λ s round, AddRoundKey (MixColumns (ShiftRows (SubBytes s false)) false) (round_at rounds round))
      (seq 1 (Nr - 1)) (AddRoundKey (LoadBytes zero_state p) (round_at rounds 0)))
    (fold_left (λ s r, aes_round s (round_key w r)) (seq 1 (Nr - 1)) (add_round_key p (round_key w 0)))).
  { apply (fold_left_sim represents (λ r, r <= Nr)%nat).
    - intros s b r Hr Hs. unfold aes_round. apply represents_AddRoundKey; [|by apply Hkey].
      exact (proj1 (represents_MixColumns _ _ (proj1 (represents_ShiftRows _ _
        (proj1 (represents_SubBytes _ _ Hs)))))).
    - apply Forall_seq. lia.
    - apply represents_AddRoundKey; [by apply LoadBytes_spec|apply Hkey; lia]. }
  destruct (represents_AddRoundKey _ _ _ _
    (proj1 (represents_ShiftRows _ _ (proj1 (represents_SubBytes _ _ H)))) (Hkey Nr ltac:(lia))) as [Hs Hb].
  rewrite SaveBytes_spec by apply Hs. exact Hb.
Qed.

Lemma AES_decrypt_inv_cipher c :
  bytes c → length c = 16%nat →
  AES_decrypt rounds Nr c = inv_cipher w Nr c ∧ block (inv_cipher w Nr c).
Proof.
  intros Hp Hl. unfold AES_decrypt, inv_cipher.
  assert (H : represents
    (fold_left (λ s round, MixColumns (AddRoundKey (SubBytes (InvShiftRows s) true)
        (round_at rounds (Nr - round))) true)
      (seq 1 (Nr - 1)) (AddRoundKey (LoadBytes zero_state c) (round_at rounds Nr)))
    (fold_left (λ s r, inv_mix_columns (add_round_key (inv_sub_bytes (inv_shift_rows s))
        (round_key w (Nr - r)))) (seq 1 (Nr - 1)) (add_round_key c (round_key w Nr)))).
  { apply (fold_left_sim represents (λ r, r <= Nr)%nat).
    - intros s b r Hr Hs.
      refine (proj2 (represents_MixColumns _ _ (represents_AddRoundKey _ _ _ _
        (proj2 (represents_SubBytes _ _ (proj2 (represents_ShiftRows _ _ Hs)))) (Hkey _ _)))). lia.
    - apply Forall_seq. lia.
    - apply represents_AddRoundKey; [by apply LoadBytes_spec|by apply Hkey]. }
  destruct (represents_AddRoundKey _ _ _ _
    (proj2 (represents_SubBytes _ _ (proj2 (represents_ShiftRows _ _ H)))) (Hkey 0 ltac:(lia))) as [Hs Hb].
  split; [rewrite SaveBytes_spec by apply Hs; exact Hb|]. exact (represents_block _ _ (conj Hs Hb)).
Qed.
End Cipher.

Lemma AES_setup_keys key Nk Nr r :
  bytes key → (length key = 4 * Nk)%nat → (1 <= Nk <= 4 * (Nr + 1))%nat → (r <= Nr)%nat →
  represents (round_at (AES_setup key Nk Nr) r) (round_key (key_expansion key Nk Nr) r).
Proof.
  intros. apply (holds_round_key _ (Nr + 1)); [by apply AES_setup_holds|apply length_key_expansion; lia|lia].
Qed.

(** ** The inverse cipher undoes the cipher *)

Ltac block16 s :=
  match goal with
  | Hl : length s = 16%nat |- _ =>
    do 16 (destruct s as [|? s]; [discriminate Hl|]); destruct s; [|discriminate Hl]; clear Hl
  end.

Lemma byte_sub_byte x : byte x → byte (sub_byte x) ∧ byte (inv_sub_byte x) ∧ inv_sub_byte (sub_byte x) = x.
Proof.
  revert x. apply (byte_all _). apply (bool_decide_unpack _). vm_compute. exact I.
Qed.

Lemma sub_bytes_inverse s :
  block s → block (sub_bytes s) ∧ inv_sub_bytes (sub_bytes s) = s.
Proof.
  intros [Hs Hl]. unfold block, sub_bytes, inv_sub_bytes. rewrite length_fmap. split.
  - split; [|done]. rewrite Forall_fmap. eapply Forall_impl; [|exact Hs]. intros. by apply byte_sub_byte.
  - clear Hl. induction Hs as [|x l Hx _ IH]; [done|]. rewrite !fmap_cons, IH.
    f_equal. by apply byte_sub_byte.
Qed.

Lemma shift_rows_inverse s :
  block s → block (shift_rows s) ∧ inv_shift_rows (shift_rows s) = s.
Proof.
  intros [Hs Hl]. split.
  - split; [|done]. unfold shift_rows. rewrite Forall_fmap. apply Forall_true. intros. by apply words_at.
  - clear Hs. block16 s. reflexivity.
Qed.

Lemma add_round_key_inverse s k :
  block s → block k → block (add_round_key s k) ∧ add_round_key (add_round_key s k) k = s.
Proof.
  intros [Hs Hl] [Hk Hlk]. unfold add_round_key. split.
  - split; [|rewrite length_zip_with; lia]. clear Hl Hlk. revert k Hk.
    induction Hs; intros k Hk; destruct Hk; constructor; auto using byte_lxor.
  - assert (E : length s = length k) by lia. clear Hs Hk Hl Hlk. revert k E.
    induction s as [|x s IH]; intros [|y k] E; simplify_eq/=; [done|]. f_equal; [|by apply IH].
    by rewrite Z.lxor_assoc, Z.lxor_nilpotent, Z.lxor_0_r.
Qed.

Lemma byte_mix1 a b c d : byte a → byte b → byte c → byte d → byte (mix1 a b c d).
Proof. intros. unfold mix1. auto 10 with aes. Qed.

Lemma inv_mix1_mix1 a b c d :
  byte a → byte b → byte c → byte d →
  inv_mix1 (mix1 a b c d) (mix1 b c d a) (mix1 c d a b) (mix1 d a b c) = a.
Proof.
  intros. unfold mix1, inv_mix1. rewrite gmul_9, gmul_11, gmul_13, gmul_14.
  rewrite !xtime_lxor by eauto 12 with aes. xor_ac.
Qed.

Lemma mix_columns_inverse s :
  block s → block (mix_columns s) ∧ inv_mix_columns (mix_columns s) = s.
Proof.
  intros [Hs Hl]. block16 s. words_inv. unfold block, mix_columns, inv_mix_columns.
  cbn [seq fmap list_fmap concat]. rewrite !mix_column_mix1, !inv_mix_column_mix1. cbn -[mix1 inv_mix1].
  split; [split; [|done]|].
  - repeat (apply Forall_cons_2; [by apply byte_mix1|]). apply Forall_nil_2.
  - by rewrite !inv_mix1_mix1.
Qed.

(** What the inverse cipher has between two of its rounds, and its round. *)
Definition half_round (s : list Z) : list Z := shift_rows (sub_bytes s).
Definition inv_round (w : list (list Z)) (r : nat) (s : list Z) : list Z :=
  inv_mix_columns (add_round_key (inv_sub_bytes (inv_shift_rows s)) (round_key w r)).

Section Inverse.
Context (Nr : nat) (w : list (list Z)).
Hypothesis Hkey : ∀ r, (r <= Nr)%nat → block (round_key w r).
Hypothesis HNr : (1 <= Nr)%nat.

Lemma half_round_inverse s : block s → block (half_round s) ∧ inv_sub_bytes (inv_shift_rows (half_round s)) = s.
Proof.
  intros Hs. unfold half_round. destruct (sub_bytes_inverse s Hs) as [H1 E1].
  destruct (shift_rows_inverse _ H1) as [H2 E2]. split; [exact H2|]. by rewrite E2.
Qed.

Lemma round_inverse r s :
  (r <= Nr)%nat → block s →
  block (aes_round s (round_key w r)) ∧ inv_round w r (half_round (aes_round s (round_key w r))) = half_round s.
Proof.
  intros Hr Hs. destruct (half_round_inverse s Hs) as [Hf _]. destruct (mix_columns_inverse _ Hf) as [Hm Em].
  destruct (add_round_key_inverse _ _ Hm (Hkey r Hr)) as [Ha Ea].
  split; [exact Ha|]. unfold inv_round, aes_round. fold (half_round s).
  rewrite (proj2 (half_round_inverse _ Ha)), Ea, Em. done.
Qed.

Lemma fold_countdown {A} (g : nat → A → A) m k a :
  fold_left (λ a r, g (S k - r)%nat a) (seq 2 m) a = fold_left (λ a r, g (k - r)%nat a) (seq 1 m) a.
Proof.
  rewrite <-seq_shift. generalize (seq 1 m). intros l. revert a.
  induction l as [|r l IH]; intros a; [done|]. cbn [map fold_left]. apply IH.
Qed.

Lemma fold_seq_S {A} (g : A → nat → A) m a :
  fold_left g (seq 1 (S m)) a = g (fold_left g (seq 1 m) a) (S m).
Proof. by rewrite seq_S, fold_left_app. Qed.

Lemma rounds_inverse m s :
  (m <= Nr)%nat → block s →
  block (fold_left (λ s r, aes_round s (round_key w r)) (seq 1 m) s) ∧
  fold_left (λ s r, inv_round w (S m - r) s) (seq 1 m)
    (half_round (fold_left (λ s r, aes_round s (round_key w r)) (seq 1 m) s)) = half_round s.
Proof.
  intros Hm Hs. induction m as [|m IH]; [done|]. destruct IH as [Hb IH]; [lia|].
  destruct (round_inverse (S m) _ Hm Hb) as [Ha Ea].
  rewrite fold_seq_S. split; [exact Ha|].
  change (seq 1 (S m)) with (1%nat :: seq 2 m).
  rewrite fold_left_cons, (fold_countdown (inv_round w)), Nat.sub_succ, Nat.sub_0_r, Ea. exact IH.
Qed.

Lemma inv_cipher_cipher p : block p → block (cipher w Nr p) ∧ inv_cipher w Nr (cipher w Nr p) = p.
Proof.
  intros Hp. destruct (add_round_key_inverse p _ Hp (Hkey 0 ltac:(lia))) as [H0 E0].
  destruct (rounds_inverse (Nr - 1) _ ltac:(lia) H0) as [H1 E1].
  destruct (half_round_inverse _ H1) as [H2 _].
  destruct (add_round_key_inverse _ _ H2 (Hkey Nr ltac:(lia))) as [H3 E3].
  split; [exact H3|]. unfold inv_cipher. etrans; [|exact E0]. etrans; [|exact (f_equal (λ s,
    add_round_key s (round_key w 0)) (proj2 (half_round_inverse _ H0)))].
  replace (S (Nr - 1)) with Nr in E1 by lia. rewrite <-E1. unfold cipher. 
  change (shift_rows (sub_bytes ?s)) with (half_round s). rewrite E3. reflexivity.
Qed.
End Inverse.

(** ** The three key sizes, on any number of blocks *)

Lemma block_at data blocks i :
  bytes data → length data = (16 * blocks)%nat → (i < blocks)%nat → block (take 16 (drop (16 * i) data)).
Proof.
  intros Hd Hl Hi. split; [by apply Forall_take, Forall_drop|]. rewrite length_take, length_drop. lia.
Qed.

(** The loop over the blocks applies [f] to each block. *)
Lemma each_block_at f data blocks i :
  (∀ b, block b → block (f b)) → bytes data → length data = (16 * blocks)%nat → (i < blocks)%nat →
  take 16 (drop (16 * i) (each_block f blocks data)) = f (take 16 (drop (16 * i) data)).
Proof.
  intros Hf. revert data i. induction blocks as [|n IH]; intros data i Hd Hl Hi; [lia|].
  cbn [each_block]. destruct (Hf _ (block_at data (S n) 0 Hd Hl ltac:(lia))) as [_ Hlf].
  rewrite Nat.mul_0_r, drop_0 in Hlf. destruct i as [|i].
  - rewrite Nat.mul_0_r, !drop_0. by apply take_app_length'.
  - replace (16 * S i)%nat with (16 + 16 * i)%nat by lia. rewrite <-!drop_drop.
    rewrite drop_app_length' by done. apply IH; [by apply Forall_drop|rewrite length_drop; lia|lia].
Qed.

Lemma length_each_block f data blocks :
  (∀ b, block b → block (f b)) → bytes data → length data = (16 * blocks)%nat →
  bytes (each_block f blocks data) ∧ length (each_block f blocks data) = (16 * blocks)%nat.
Proof.
  intros Hf. revert data. induction blocks as [|n IH]; intros data Hd Hl; [done|].
  cbn [each_block]. destruct (Hf _ (block_at data (S n) 0 Hd Hl ltac:(lia))) as [Hb Hlf].
  rewrite Nat.mul_0_r, drop_0 in Hb, Hlf.
  destruct (IH (drop 16 data)) as [Hb' Hl']; [by apply Forall_drop|rewrite length_drop; lia|].
  split; [by apply Forall_app_2|]. rewrite length_app, Hlf, Hl'. lia.
Qed.

Lemma each_block_inverse f g data blocks :
  (∀ b, block b → block (f b) ∧ g (f b) = b) → bytes data → length data = (16 * blocks)%nat →
  each_block g blocks (each_block f blocks data) = data.
Proof.
  intros Hf. revert data. induction blocks as [|n IH]; intros data Hd Hl.
  { destruct data; done. }
  cbn [each_block]. destruct (Hf _ (block_at data (S n) 0 Hd Hl ltac:(lia))) as [[_ Hlf] E].
  rewrite Nat.mul_0_r, drop_0 in Hlf, E.
  rewrite take_app_length', drop_app_length', E, IH by first [lia | by apply Forall_drop | rewrite length_drop; lia].
  apply take_drop.
Qed.

(** Key sizes: a key of [Nk] words and [Nr] rounds. *)
Definition key_size (Nk Nr : nat) : Prop := (1 <= Nk <= 4 * (Nr + 1))%nat ∧ (1 <= Nr)%nat.

Lemma round_key_block key Nk Nr r :
  key_size Nk Nr → bytes key → (length key = 4 * Nk)%nat → (r <= Nr)%nat →
  block (round_key (key_expansion key Nk Nr) r).
Proof.
  intros [Hk HN] Hb Hl Hr. exact (represents_block _ _ (AES_setup_keys key Nk Nr r Hb Hl Hk Hr)).
Qed.

Lemma AES_block key Nk Nr b :
  key_size Nk Nr → bytes key → (length key = 4 * Nk)%nat → block b →
  let w := key_expansion key Nk Nr in
  AES_encrypt (AES_setup key Nk Nr) Nr b = cipher w Nr b ∧
  (AES_decrypt (AES_setup key Nk Nr) Nr b = inv_cipher w Nr b ∧ block (inv_cipher w Nr b)) ∧
  block (cipher w Nr b) ∧ inv_cipher w Nr (cipher w Nr b) = b.
Proof.
  intros Hk Hb Hl [Hbb Hbl] w.
  pose proof (λ r, AES_setup_keys key Nk Nr r Hb Hl (proj1 Hk)) as Hkeys.
  split; [exact (AES_encrypt_cipher _ _ _ Hkeys (proj2 Hk) b Hbb Hbl)|].
  split; [exact (AES_decrypt_inv_cipher _ _ _ Hkeys (proj2 Hk) b Hbb Hbl)|].
  exact (inv_cipher_cipher Nr w (λ r, round_key_block key Nk Nr r Hk Hb Hl) (proj2 Hk) b (conj Hbb Hbl)).
Qed.

Lemma AES_blocks key Nk Nr blocks data :
  key_size Nk Nr → bytes key → (length key = 4 * Nk)%nat →
  bytes data → length data = (16 * blocks)%nat →
  let rk := AES_setup key Nk Nr in
  let w := key_expansion key Nk Nr in
  (∀ i, (i < blocks)%nat →
    take 16 (drop (16 * i) (each_block (AES_encrypt rk Nr) blocks data)) =
    cipher w Nr (take 16 (drop (16 * i) data))) ∧
  length (each_block (AES_encrypt rk Nr) blocks data) = (16 * blocks)%nat ∧
  each_block (AES_decrypt rk Nr) blocks (each_block (AES_encrypt rk Nr) blocks data) = data.
Proof.
  intros Hk Hb Hl Hd Hdl rk w.
  assert (H : ∀ b, block b → block (AES_encrypt rk Nr b) ∧ AES_decrypt rk Nr (AES_encrypt rk Nr b) = b).
  { intros b Hbl. destruct (AES_block key Nk Nr b Hk Hb Hl Hbl) as (E & _ & Hc & Ei).
    unfold rk. rewrite E. split; [exact Hc|].
    destruct (AES_block key Nk Nr _ Hk Hb Hl Hc) as (_ & [E' _] & _). by rewrite E'. }
  split; [|split].
  - intros i Hi. rewrite each_block_at; [|by apply H|done..].
    exact (proj1 (AES_block key Nk Nr _ Hk Hb Hl (block_at data blocks i Hd Hdl Hi))).
  - apply length_each_block; [|done..]. by apply H.
  - by apply each_block_inverse.
Qed.

Lemma AES_inv_blocks key Nk Nr blocks data :
  key_size Nk Nr → bytes key → (length key = 4 * Nk)%nat →
  bytes data → length data = (16 * blocks)%nat →
  ∀ i, (i < blocks)%nat →
    take 16 (drop (16 * i) (each_block (AES_decrypt (AES_setup key Nk Nr) Nr) blocks data)) =
    inv_cipher (key_expansion key Nk Nr) Nr (take 16 (drop (16 * i) data)).
Proof.
  intros Hk Hb Hl Hd Hdl i Hi. rewrite each_block_at; [|..|exact Hi]; [|intros b Hbl|done..].
  - apply (AES_block key Nk Nr _ Hk Hb Hl (block_at data blocks i Hd Hdl Hi)).
  - destruct (AES_block key Nk Nr b Hk Hb Hl Hbl) as (_ & [-> H] & _). exact H.
Qed.

(** What a key size of the cipher promises, for its three functions. *)
Definition aes_spec (init : list Z → list AES_state)
    (enc dec : list AES_state → nat → list Z → list Z) (Nk Nr : nat) : Prop :=
  ∀ key blocks data,
  bytes key → (length key = 4 * Nk)%nat → bytes data → length data = (16 * blocks)%nat →
  let rk := init key in
  let w := key_expansion key Nk Nr in
  ∀ i, (i < blocks)%nat →
    take 16 (drop (16 * i) (enc rk blocks data)) = cipher w Nr (take 16 (drop (16 * i) data)) ∧
    take 16 (drop (16 * i) (dec rk blocks data)) = inv_cipher w Nr (take 16 (drop (16 * i) data)).

Definition aes_inverse (init : list Z → list AES_state)
    (enc dec : list AES_state → nat → list Z → list Z) (Nk : nat) : Prop :=
  ∀ key blocks data,
  bytes key → (length key = 4 * Nk)%nat → bytes data → length data = (16 * blocks)%nat →
  length (enc (init key) blocks data) = (16 * blocks)%nat ∧
  dec (init key) blocks (enc (init key) blocks data) = data.

Lemma AES_spec_size Nk Nr :
  key_size Nk Nr →
  aes_spec (λ key, AES_setup key Nk Nr) (λ rk, each_block (AES_encrypt rk Nr))
    (λ rk, each_block (AES_decrypt rk Nr)) Nk Nr.
Proof.
  intros Hk key blocks data Hb Hl Hd Hdl rk w i Hi.
  split; [by apply (AES_blocks key Nk Nr blocks data)|by apply AES_inv_blocks].
Qed.

Lemma AES_inverse_size Nk Nr :
  key_size Nk Nr →
  aes_inverse (λ key, AES_setup key Nk Nr) (λ rk, each_block (AES_encrypt rk Nr))
    (λ rk, each_block (AES_decrypt rk Nr)) Nk.
Proof. intros Hk key blocks data Hb Hl Hd Hdl. by apply (AES_blocks key Nk Nr blocks data). Qed.

(** C25: The bit-sliced AES is the cipher of FIPS 197, for keys of 128, 192
    and 256 bits, every key and any number of blocks: the Boolean circuit of
    [SubBytes] is the inversion in GF(2^8) with the affine map, the slices are
    the state matrix, the key setup is the key expansion, and encryption and
    decryption of each block are the standard's [Cipher] and [InvCipher]. *)
Theorem AES_correct :
  aes_spec AES128_init AES128_encrypt AES128_decrypt 4 10 ∧
  aes_spec AES192_init AES192_encrypt AES192_decrypt 6 12 ∧
  aes_spec AES256_init AES256_encrypt AES256_decrypt 8 14.
Proof.
  split; [refine (AES_spec_size 4 10 _)|split; [refine (AES_spec_size 6 12 _)|refine (AES_spec_size 8 14 _)]];
    split; lia.
Qed.

(** Decryption undoes encryption, block by block, for the three key sizes. *)
Theorem AES_roundtrip :
  aes_inverse AES128_init AES128_encrypt AES128_decrypt 4 ∧
  aes_inverse AES192_init AES192_encrypt AES192_decrypt 6 ∧
  aes_inverse AES256_init AES256_encrypt AES256_decrypt 8.
Proof.
  split; [refine (AES_inverse_size 4 10 _)|
    split; [refine (AES_inverse_size 6 12 _)|refine (AES_inverse_size 8 14 _)]];
    split; lia.
Qed.

(** The examples of FIPS 197, Appendix C. *)
Example fips197_vectors :
  let plain : list Z := (λ i, Z.of_nat i * 0x11) <$> seq 0 16 in
  let key n : list Z := Z.of_nat <$> seq 0 n in
  AES128_encrypt (AES128_init (key 16%nat)) 1 plain =
    [0x69; 0xC4; 0xE0; 0xD8; 0x6A; 0x7B; 0x04; 0x30; 0xD8; 0xCD; 0xB7; 0x80; 0x70; 0xB4; 0xC5; 0x5A] ∧
  AES192_encrypt (AES192_init (key 24%nat)) 1 plain =
    [0xDD; 0xA9; 0x7C; 0xA4; 0x86; 0x4C; 0xDF; 0xE0; 0x6E; 0xAF; 0x70; 0xA0; 0xEC; 0x0D; 0x71; 0x91] ∧
  AES256_encrypt (AES256_init (key 32%nat)) 1 plain =
    [0x8E; 0xA2; 0xB7; 0xCA; 0x51; 0x67; 0x45; 0xBF; 0xEA; 0xFC; 0x49; 0x90; 0x4B; 0x49; 0x60; 0x89].
Proof. vm_compute. auto. Qed.

End Ctaes.
