(* ===== verification/AesCbc.v ===== *)
(** * AES-256 in CBC mode: crypto/aes.cpp

    The wrappers of the block cipher that the wallet encrypts with.  Buffers
    are lists of bytes, a pointer that may be null is an option; the result is
    the value returned and the output buffer after the call.  The mode is
    written against an interface of block ciphers, as the templates of the
    code are, and the AES-256 classes are an instance of it.  The theorems:
    what is written is cipher-block chaining of the padded data, decryption
    accepts exactly the well-formed paddings, and it undoes encryption. *)
From S2P Require Import Prelude SphTypes AesHelper Ctaes.

Module AesCbc.
Import Aes Ctaes.

Definition AES_BLOCKSIZE : nat := 16.
Definition AES256_KEYSIZE : nat := 32.

(** What the template parameter [T] of each mode must have. *)
Class HasEncrypt (T : Type) := Encrypt : T → list Z → list Z.
Class HasDecrypt (T : Type) := Decrypt : T → list Z → list Z.

(** [AES256Encrypt] and [AES256Decrypt], each with its own context. *)
Record AES256Encrypt := { enc_ctx : list AES_state }.
Record AES256Decrypt := { dec_ctx : list AES_state }.
Definition new_AES256Encrypt (key : list Z) : AES256Encrypt := {| enc_ctx := AES256_init key |}.
Definition new_AES256Decrypt (key : list Z) : AES256Decrypt := {| dec_ctx := AES256_init key |}.
#[export] Instance AES256Encrypt_Encrypt : HasEncrypt AES256Encrypt := λ c plaintext,
  AES256_encrypt (enc_ctx c) 1 plaintext.
#[export] Instance AES256Decrypt_Decrypt : HasDecrypt AES256Decrypt := λ c ciphertext,
  AES256_decrypt (dec_ctx c) 1 ciphertext.

(** ** The modes *)

Section Mode.
Context {T U : Type} `{HasEncrypt T, HasDecrypt U}.

Definition xor_bytes (a b : list Z) : list Z := zip_with Z.lxor a b.

(** [while (written + AES_BLOCKSIZE <= size)]; each turn adds 16 to [written],
    so [size] turns are more than enough. *)
Fixpoint encrypt_loop (enc : T) (fuel size written : nat) (mixed data out : list Z)
    : nat * list Z * list Z * list Z :=
  match fuel with
  | O => (written, mixed, data, out)
  | S fuel =>
    if (written + AES_BLOCKSIZE <=? size)%nat
    then
      let mixed := xor_bytes mixed (take AES_BLOCKSIZE data) in
      let out := memcpy out written (Encrypt enc mixed) in
      let mixed := take AES_BLOCKSIZE (drop written out) in
      encrypt_loop enc fuel size (written + AES_BLOCKSIZE) mixed (drop AES_BLOCKSIZE data) out
    else (written, mixed, data, out)
  end.

Definition CBCEncrypt (enc : T) (iv : list Z) (data : option (list Z)) (size : nat) (pad : bool)
    (out : option (list Z)) : nat * option (list Z) :=
  let padsize := (size mod AES_BLOCKSIZE)%nat in
  match data, out with
  | Some data, Some out =>
    if (size =? 0)%nat then (O, Some out)
    else if negb pad && negb (padsize =? 0)%nat then (O, Some out)
    else
      let '(written, mixed, data, out) := encrypt_loop enc size size 0 iv data out in
      if pad
      then
        let mixed := xor_bytes mixed (take padsize data ++
          replicate (AES_BLOCKSIZE - padsize) (Z.of_nat (AES_BLOCKSIZE - padsize))) in
        ((written + AES_BLOCKSIZE)%nat, Some (memcpy out written (Encrypt enc mixed)))
      else (written, Some out)
  | _, _ => (O, out)
  end.

(** [while (written != size)]: block [written] is decrypted into the output and
    xored with the previous ciphertext block. *)
Fixpoint decrypt_loop (dec : U) (fuel size written : nat) (prev data out : list Z) : nat * list Z :=
  match fuel with
  | O => (written, out)
  | S fuel =>
    if (written =? size)%nat then (written, out)
    else
      let c := take AES_BLOCKSIZE (drop written data) in
      let out := memcpy out written (xor_bytes (Decrypt dec c) prev) in
      decrypt_loop dec fuel size (written + AES_BLOCKSIZE) c data out
  end.

(** The check of the padding: [i] from 16 down to 1, the byte read being the
    last one, then the one before it, and so on. *)
Definition check_padding (out : list Z) (last : nat) (padsize : Z) (fail : bool) : bool :=
  fold_left (λ fail k,
      let i := (AES_BLOCKSIZE - k)%nat in
      fail || ((Z.of_nat AES_BLOCKSIZE - padsize <? Z.of_nat i) && negb (out @@ (last - k) =? padsize)))
    (seq 0 AES_BLOCKSIZE) fail.

Definition CBCDecrypt (dec : U) (iv : list Z) (data : option (list Z)) (size : nat) (pad : bool)
    (out : option (list Z)) : nat * option (list Z) :=
  match data, out with
  | Some data, Some out =>
    if (size =? 0)%nat then (O, Some out)
    else if negb (size mod AES_BLOCKSIZE =? 0)%nat then (O, Some out)
    else
      let '(written, out) := decrypt_loop dec size size 0 iv data out in
      if pad
      then
        let padsize := out @@ (written - 1) in
        let fail := (padsize =? 0) || (Z.of_nat AES_BLOCKSIZE <? padsize) in
        let padsize := if fail then 0 else padsize in
        let fail := check_padding out (written - 1) padsize fail in
        ((if fail then O else written - Z.to_nat padsize)%nat, Some out)
      else (written, Some out)
  | _, _ => (O, out)
  end.
End Mode.

(** [AES256CBCEncrypt] and [AES256CBCDecrypt]: a key schedule, the padding mode
    and the initialisation vector. *)
Record AES256CBCEncrypt := { enc : AES256Encrypt; enc_pad : bool; enc_iv : list Z }.
Record AES256CBCDecrypt := { dec : AES256Decrypt; dec_pad : bool; dec_iv : list Z }.

Definition new_AES256CBCEncrypt (key ivIn : list Z) (padIn : bool) : AES256CBCEncrypt :=
  {| enc := new_AES256Encrypt key; enc_pad := padIn; enc_iv := take AES_BLOCKSIZE ivIn |}.
Definition new_AES256CBCDecrypt (key ivIn : list Z) (padIn : bool) : AES256CBCDecrypt :=
  {| dec := new_AES256Decrypt key; dec_pad := padIn; dec_iv := take AES_BLOCKSIZE ivIn |}.

Definition AES256CBCEncrypt_Encrypt (c : AES256CBCEncrypt) (data : option (list Z)) (size : nat)
    (out : option (list Z)) : nat * option (list Z) :=
  CBCEncrypt (enc c) (enc_iv c) data size (enc_pad c) out.
Definition AES256CBCDecrypt_Decrypt (c : AES256CBCDecrypt) (data : option (list Z)) (size : nat)
    (out : option (list Z)) : nat * option (list Z) :=
  CBCDecrypt (dec c) (dec_iv c) data size (dec_pad c) out.

(** ** Specification *)

(** The 16-byte blocks of a message. *)
Definition chunks (l : list Z) : list (list Z) :=
  (λ i, take 16 (drop (16 * i) l)) <$> seq 0 (length l / 16).

(** PKCS #7: pad with [k] bytes of value [k], [1 <= k <= 16]. *)
Definition pkcs7 (data : list Z) : list Z :=
  let k := (16 - length data mod 16)%nat in data ++ replicate k (Z.of_nat k).
Definition padded (pad : bool) (data : list Z) : list Z := if pad then pkcs7 data else data.

(** The message without its padding, when the padding is well formed. *)
Definition unpad (plain : list Z) : option (list Z) :=
  let p := plain @@ (length plain - 1) in
  let k := Z.to_nat p in
  if bool_decide (1 <= p <= 16 ∧ drop (length plain - k) plain = replicate k p)
  then Some (take (length plain - k) plain) else None.

(** Cipher-block chaining from the block [prev]. *)
Fixpoint cbc (E : list Z → list Z) (prev : list Z) (ps : list (list Z)) : list (list Z) :=
  match ps with
  | [] => []
  | p :: ps => let c := E (xor_bytes prev p) in c :: cbc E c ps
  end.
Fixpoint uncbc (D : list Z → list Z) (prev : list Z) (cs : list (list Z)) : list (list Z) :=
  match cs with
  | [] => []
  | c :: cs => xor_bytes (D c) prev :: uncbc D c cs
  end.

Definition cbc_encrypt (E : list Z → list Z) (iv data : list Z) (pad : bool) : list Z :=
  concat (cbc E iv (chunks (padded pad data))).
Definition cbc_decrypt (D : list Z → list Z) (iv data : list Z) : list Z :=
  concat (uncbc D iv (chunks data)).

(** What the modes need of the cipher. *)
Class CipherPair {T U} `{HasEncrypt T, HasDecrypt U} (e : T) (d : U) := {
  encrypt_block b : block b → block (Encrypt e b);
  decrypt_block b : block b → block (Decrypt d b);
  decrypt_encrypt b : block b → Decrypt d (Encrypt e b) = b }.

(** ** Blocks of a message *)

Lemma xor_bytes_block a b : block a → block b → block (xor_bytes a b).
Proof. intros Ha Hb. by apply add_round_key_inverse. Qed.

Lemma xor_bytes_cancel a b : block a → block b → xor_bytes (xor_bytes a b) a = b.
Proof.
  intros Ha Hb. destruct (add_round_key_inverse b a Hb Ha) as [_ E]. unfold add_round_key in E.
  rewrite <-E at 2. unfold xor_bytes. f_equal.
  destruct Ha as [_ Ha], Hb as [_ Hb]. clear E. assert (E : length a = length b) by lia. clear Ha Hb.
  revert b E. induction a as [|x a IH]; intros [|y b] E; simplify_eq/=; [done|].
  by rewrite Z.lxor_comm, IH.
Qed.

Lemma chunks_app ps :
  Forall (λ p, length p = 16%nat) ps → chunks (concat ps) = ps ∧ length (concat ps) = (16 * length ps)%nat.
Proof.
  intros Hp. assert (Hl : length (concat ps) = (16 * length ps)%nat).
  { induction Hp as [|p l Hp _ IH]; [done|]. cbn [concat length]. rewrite length_app, IH, Hp. lia. }
  split; [|done]. unfold chunks. rewrite Hl, (Nat.mul_comm 16), Nat.div_mul by lia. clear Hl.
  induction Hp as [|p l Hp _ IH]; [done|]. cbn [length concat]. rewrite <-cons_seq, fmap_cons.
  rewrite Nat.mul_0_r, drop_0, take_app_length' by done. f_equal. etrans; [|exact IH].
  rewrite <-fmap_S_seq, <-list_fmap_compose. apply list_fmap_ext. intros _ i _. unfold compose.
  replace (16 * S i)%nat with (length p + 16 * i)%nat by lia. by rewrite <-drop_drop, drop_app_length.
Qed.

Lemma concat_chunks l : (length l mod 16 = 0)%nat → concat (chunks l) = l.
Proof.
  intros Hm. unfold chunks. pose proof (Nat.div_mod_eq (length l) 16) as E. rewrite Hm in E.
  generalize dependent (length l / 16)%nat. intros n E. clear Hm. revert l E.
  induction n as [|n IH]; intros l E.
  { destruct l; [done|]. simpl in E. lia. }
  rewrite <-cons_seq, fmap_cons. cbn [concat]. rewrite Nat.mul_0_r, drop_0.
  etrans; [|apply (take_drop 16 l)]. f_equal. etrans; [|apply IH; rewrite length_drop; lia].
  f_equal. rewrite <-fmap_S_seq, <-list_fmap_compose. apply list_fmap_ext. intros _ i _. unfold compose.
  rewrite drop_drop. do 2 f_equal. lia.
Qed.

Lemma chunks_blocks l : bytes l → (length l mod 16 = 0)%nat →
  Forall block (chunks l) ∧ (16 * length (chunks l) = length l)%nat.
Proof.
  intros Hb Hm. pose proof (Nat.div_mod_eq (length l) 16) as E. rewrite Hm in E.
  unfold chunks. rewrite length_fmap, length_seq. split; [|lia].
  rewrite Forall_fmap, Forall_seq. intros i Hi. apply (block_at l (length l / 16)); [done|lia|lia].
Qed.

Lemma Forall_length_block ps : Forall block ps → Forall (λ p, length p = 16%nat) ps.
Proof. apply Forall_impl. by intros ? [_ ?]. Qed.

Lemma length_pkcs7 data :
  let k := (16 - length data mod 16)%nat in
  (1 <= k <= 16)%nat ∧ length (pkcs7 data) = (length data + k)%nat ∧ (length (pkcs7 data) mod 16 = 0)%nat.
Proof.
  intros k. pose proof (Nat.div_mod_eq (length data) 16). pose proof (Nat.mod_upper_bound (length data) 16).
  assert (E : length (pkcs7 data) = (length data + k)%nat) by (unfold pkcs7; by rewrite length_app, length_replicate).
  split; [unfold k; lia|]. split; [done|]. rewrite E.
  replace (length data + k)%nat with (S (length data / 16) * 16)%nat by (unfold k; lia).
  apply Nat.Div0.mod_mul.
Qed.

Lemma bytes_pkcs7 data : bytes data → bytes (pkcs7 data).
Proof.
  intros Hd. unfold pkcs7. apply Forall_app_2; [done|]. apply Forall_replicate.
  destruct (length_pkcs7 data) as [Hk _]. unfold byte, word. simpl. lia.
Qed.

(** Removing the padding undoes it. *)
Lemma unpad_pkcs7 data : unpad (pkcs7 data) = Some data.
Proof.
  destruct (length_pkcs7 data) as (Hk & Hl & _). set (k := (16 - length data mod 16)%nat) in *.
  assert (Hlast : pkcs7 data @@ (length (pkcs7 data) - 1) = Z.of_nat k).
  { unfold at_. rewrite Hl. unfold pkcs7. fold k. rewrite app_nth2 by lia.
    rewrite nth_lookup, lookup_replicate_2 by lia. done. }
  unfold unpad. rewrite Hlast, Nat2Z.id, Hl. replace (length data + k - k)%nat with (length data) by lia.
  unfold pkcs7. fold k. rewrite drop_app_length, take_app_length.
  rewrite bool_decide_true; [done|]. split; [lia|done].
Qed.

(** ** The loops *)

Section Loops.
Context {T U : Type} `{HasEncrypt T, HasDecrypt U} (e : T) (d : U).

Lemma cbc_blocks prev ps :
  (∀ b, block b → block (Encrypt e b)) → block prev → Forall block ps →
  Forall block (cbc (Encrypt e) prev ps) ∧ length (cbc (Encrypt e) prev ps) = length ps.
Proof.
  intros HE Hprev Hps. revert prev Hprev. induction Hps as [|p ps Hp _ IH]; intros prev Hprev; [done|].
  assert (Hc : block (Encrypt e (xor_bytes prev p))) by auto using xor_bytes_block.
  destruct (IH _ Hc) as [Hb Hl]. cbn [cbc length]. rewrite Hl. by split; [constructor|].
Qed.

Lemma encrypt_loop_spec ps fuel size written mixed rest out :
  (∀ b, block b → block (Encrypt e b)) → Forall block ps → block mixed → (length rest < 16)%nat →
  size = (written + 16 * length ps + length rest)%nat → (length ps <= fuel)%nat →
  (written + 16 * length ps <= length out)%nat →
  encrypt_loop e fuel size written mixed (concat ps ++ rest) out =
  ((written + 16 * length ps)%nat, fold_left (λ _ c, c) (cbc (Encrypt e) mixed ps) mixed, rest,
   memcpy out written (concat (cbc (Encrypt e) mixed ps))).
Proof.
  intros HE Hps. revert fuel written mixed out.
  induction Hps as [|p ps Hp Hps IH]; intros fuel written mixed out Hm Hr Hs Hf Ho.
  - cbn [length cbc concat fold_left app] in *. rewrite memcpy_nil, Nat.mul_0_r, Nat.add_0_r in *.
    destruct fuel; cbn [encrypt_loop]; [done|].
    destruct (Nat.leb_spec (written + AES_BLOCKSIZE) size); [unfold AES_BLOCKSIZE in *; lia|done].
  - cbn [length] in *. destruct fuel as [|fuel]; [lia|]. cbn [encrypt_loop concat cbc fold_left].
    rewrite <-!app_assoc. unfold AES_BLOCKSIZE in *. destruct Hp as [Hpb Hpl].
    destruct (Nat.leb_spec (written + 16) size); [|lia].
    rewrite take_app_length', drop_app_length' by done.
    assert (Hc : block (Encrypt e (xor_bytes mixed p))) by (apply HE; by apply xor_bytes_block).
    set (c := Encrypt e (xor_bytes mixed p)) in *. destruct Hc as [Hcb Hcl].
    assert (Ec : take 16 (drop written (memcpy out written c)) = c).
    { unfold memcpy. rewrite drop_app_length' by (rewrite length_take; lia). by apply take_app_length'. }
    rewrite Ec, IH by first [done | lia | rewrite length_memcpy; lia].
    rewrite memcpy_memcpy; [|lia|].
    { f_equal. f_equal. f_equal. lia. }
    assert (Hl : length (concat (cbc (Encrypt e) c ps)) = (16 * length ps)%nat).
    { destruct (cbc_blocks c ps HE (conj Hcb Hcl) Hps) as [Hb Hl].
      by rewrite (proj2 (chunks_app _ (Forall_length_block _ Hb))), Hl. }
    rewrite Hl. lia.
Qed.

Lemma uncbc_blocks prev cs :
  (∀ b, block b → block (Decrypt d b)) → block prev → Forall block cs →
  Forall block (uncbc (Decrypt d) prev cs) ∧ length (uncbc (Decrypt d) prev cs) = length cs.
Proof.
  intros HD Hprev Hcs. revert prev Hprev. induction Hcs as [|c cs Hc _ IH]; intros prev Hprev; [done|].
  destruct (IH _ Hc) as [Hb Hl]. cbn [uncbc length]. rewrite Hl.
  split; [constructor; [apply xor_bytes_block; auto|done]|done].
Qed.

Lemma decrypt_loop_spec cs fuel size written prev data out :
  (∀ b, block b → block (Decrypt d b)) → Forall block cs → block prev →
  drop written data = concat cs → size = (written + 16 * length cs)%nat → (length cs <= fuel)%nat →
  (size <= length out)%nat →
  decrypt_loop d fuel size written prev data out =
  (size, memcpy out written (concat (uncbc (Decrypt d) prev cs))).
Proof.
  intros HD Hcs. revert fuel written prev out.
  induction Hcs as [|c cs Hc Hcs IH]; intros fuel written prev out Hprev Hdata Hs Hf Ho.
  - cbn [length uncbc concat] in *. rewrite memcpy_nil.
    assert (size = written) as -> by lia.
    destruct fuel; cbn [decrypt_loop]; [done|]. by rewrite Nat.eqb_refl.
  - cbn [length] in *. destruct fuel as [|fuel]; [lia|]. cbn [decrypt_loop uncbc concat].
    destruct (Nat.eqb_spec written size); [lia|]. rewrite Hdata. cbn [concat].
    destruct (Hc) as [Hcb Hcl]. unfold AES_BLOCKSIZE. rewrite take_app_length' by done.
    destruct (xor_bytes_block _ _ (HD c Hc) Hprev) as [Hxb Hxl].
    rewrite IH; [|done| |lia|lia|rewrite length_memcpy; lia].
    + f_equal. apply memcpy_memcpy; [lia|].
      destruct (uncbc_blocks c cs HD Hc Hcs) as [Hb Hl].
      rewrite (proj2 (chunks_app _ (Forall_length_block _ Hb))), Hl, Hxl. lia.
    + rewrite <-drop_drop, Hdata. cbn [concat]. by apply drop_app_length'.
Qed.

(** Decryption of the chained blocks. *)
Lemma uncbc_cbc `{!CipherPair e d} prev ps :
  block prev → Forall block ps → uncbc (Decrypt d) prev (cbc (Encrypt e) prev ps) = ps.
Proof.
  intros Hprev Hps. revert prev Hprev. induction Hps as [|p ps Hp _ IH]; intros prev Hprev; [done|].
  cbn [cbc uncbc]. assert (Hx : block (xor_bytes prev p)) by by apply xor_bytes_block.
  rewrite decrypt_encrypt, xor_bytes_cancel, IH by first [done | by apply encrypt_block]. done.
Qed.
End Loops.

(** The loop over the padding finds a byte that differs among the last [padsize]. *)
Lemma check_padding_spec out last padsize fail :
  check_padding out last padsize fail =
  fail || existsb (λ k, (Z.of_nat k <? padsize) && negb (out @@ (last - k) =? padsize)) (seq 0 16).
Proof.
  unfold check_padding, AES_BLOCKSIZE.
  assert (G : ∀ l b, Forall (λ k, k < 16)%nat l → fold_left (λ fail k, fail ||
    ((Z.of_nat 16 - padsize <? Z.of_nat (16 - k)) && negb (out @@ (last - k) =? padsize))) l b =
    b || existsb (λ k, (Z.of_nat k <? padsize) && negb (out @@ (last - k) =? padsize)) l).
  { induction l as [|k l IH]; intros b Hl; [by rewrite orb_false_r|].
    destruct (Forall_cons_1 _ _ _ Hl) as [Hk Hl']. cbn [fold_left existsb]. rewrite IH by done.
    replace (Z.of_nat 16 - padsize <? Z.of_nat (16 - k)) with (Z.of_nat k <? padsize);
      [by rewrite orb_assoc|].
    destruct (Z.ltb_spec (Z.of_nat k) padsize), (Z.ltb_spec (Z.of_nat 16 - padsize) (Z.of_nat (16 - k))); lia. }
  apply G. apply Forall_seq. lia.
Qed.

(** ** Encryption *)

Lemma cbc_snoc E prev ps p :
  cbc E prev (ps ++ [p]) =
  cbc E prev ps ++ [E (xor_bytes (fold_left (λ _ c, c) (cbc E prev ps) prev) p)].
Proof. revert prev. induction ps as [|q ps IH]; intros prev; [done|]. cbn [app cbc fold_left]. by rewrite IH. Qed.

(** The whole blocks of a message and what is left. *)
Lemma whole_blocks data :
  bytes data → ∃ ps rest, data = concat ps ++ rest ∧ Forall block ps ∧ bytes rest ∧
    length rest = (length data mod 16)%nat ∧ (16 * length ps + length rest = length data)%nat.
Proof.
  intros Hd. pose proof (Nat.div_mod_eq (length data) 16) as E.
  set (n := (length data / 16)%nat) in *. set (whole := take (16 * n) data).
  assert (Hw : length whole = (16 * n)%nat) by (unfold whole; rewrite length_take; lia).
  assert (Hm : (length whole mod 16 = 0)%nat) by (rewrite Hw, Nat.mul_comm; apply Nat.Div0.mod_mul).
  assert (Hwb : bytes whole) by by apply Forall_take.
  destruct (chunks_blocks whole Hwb Hm) as [Hb Hl].
  exists (chunks whole), (drop (16 * n) data). rewrite (concat_chunks whole Hm), length_drop.
  split; [unfold whole; by rewrite take_drop|]. split; [done|]. split; [by apply Forall_drop|].
  split; lia.
Qed.

Lemma padded_chunks ps rest data :
  data = concat ps ++ rest → Forall block ps → length rest = (length data mod 16)%nat →
  chunks (pkcs7 data) = ps ++ [rest ++ replicate (16 - length data mod 16)
    (Z.of_nat (16 - length data mod 16))].
Proof.
  intros E Hps Hr. pose proof (Nat.mod_upper_bound (length data) 16 ltac:(lia)).
  set (k := (16 - length data mod 16)%nat).
  assert (Ec : pkcs7 data = concat (ps ++ [rest ++ replicate k (Z.of_nat k)])).
  { unfold pkcs7. fold k. rewrite E at 1. rewrite concat_app. cbn [concat]. by rewrite app_nil_r, app_assoc. }
  rewrite Ec. apply chunks_app. apply Forall_app_2; [by apply Forall_length_block|].
  constructor; [|done]. rewrite length_app, length_replicate. unfold k. lia.
Qed.

Lemma CBCEncrypt_spec {T U} `{HasEncrypt T, HasDecrypt U} (e : T) (d : U) `{!CipherPair e d} iv data pad out :
  block iv → bytes data → data ≠ [] → (pad = false → length data mod 16 = 0)%nat →
  (length (padded pad data) <= length out)%nat →
  CBCEncrypt e iv (Some data) (length data) pad (Some out) =
  (length (padded pad data), Some (memcpy out 0 (cbc_encrypt (Encrypt e) iv data pad))).
Proof.
  intros Hiv Hd Hne Hpad Ho. pose proof (encrypt_block (e := e) (d := d)) as HE.
  destruct (whole_blocks data Hd) as (ps & rest & E & Hps & Hrb & Hr & Hl).
  pose proof (Nat.mod_upper_bound (length data) 16 ltac:(lia)) as Hm.
  assert (Hpl : (16 * length ps <= length out)%nat).
  { destruct pad; cbn [padded] in Ho; [|lia]. destruct (length_pkcs7 data) as (_ & El & _). lia. }
  unfold CBCEncrypt. destruct (Nat.eqb_spec (length data) 0); [by destruct data|].
  pose proof (encrypt_loop_spec e ps (length data) (length data) 0 iv rest out HE Hps Hiv
    ltac:(lia) ltac:(lia) ltac:(lia) ltac:(lia)) as EL. rewrite <-E, Nat.add_0_l in EL. rewrite EL. clear EL.
  assert (Hcl : length (concat (cbc (Encrypt e) iv ps)) = (16 * length ps)%nat).
  { destruct (cbc_blocks e iv ps HE Hiv Hps) as [Hb El].
    by rewrite (proj2 (chunks_app _ (Forall_length_block _ Hb))), El. }
  unfold cbc_encrypt. destruct pad; cbn [negb andb padded].
  - destruct (length_pkcs7 data) as (Hk & El & _). cbn [padded] in Ho.
    rewrite (padded_chunks ps rest data E Hps Hr), cbc_snoc, concat_app. cbn [concat].
    rewrite app_nil_r. unfold AES_BLOCKSIZE. rewrite take_ge by lia. f_equal; [lia|]. f_equal.
    apply memcpy_memcpy; [lia|].
    match goal with |- context [length (Encrypt e ?x)] => assert (Hx : block x) end.
    { apply xor_bytes_block.
      - destruct (cbc_blocks e iv ps HE Hiv Hps) as [Hb _]. revert Hb.
        generalize (cbc (Encrypt e) iv ps). intros l Hb. clear -Hb Hiv. revert iv Hiv.
        induction Hb; intros; [done|]. cbn [fold_left]. auto.
      - split; [|rewrite length_app, length_replicate; lia].
        apply Forall_app_2; [done|]. apply Forall_replicate. unfold byte, word. simpl. lia. }
    destruct (HE _ Hx) as [_ Hlx]. rewrite Hcl, Hlx. lia.
  - unfold AES_BLOCKSIZE. rewrite (Hpad eq_refl), Nat.eqb_refl. cbn [negb]. rewrite Hpad in Hr by done.
    assert (rest = []) as -> by (by apply nil_length_inv). rewrite app_nil_r in E.
    f_equal; [cbn in *; lia|]. do 2 f_equal. rewrite E. by rewrite (proj1 (chunks_app _ (Forall_length_block _ Hps))).
Qed.

(** ** Decryption *)

Lemma memcpy_0_at out plain i :
  (i < length plain)%nat → memcpy out 0 plain @@ i = plain @@ i.
Proof. intros. unfold memcpy, at_. rewrite take_0, app_nil_l. by rewrite app_nth1 by lia. Qed.

Lemma last_bytes plain k p :
  (k <= length plain)%nat →
  drop (length plain - k) plain = replicate k p ↔
  ∀ j, (j < k)%nat → plain @@ (length plain - 1 - j) = p.
Proof.
  intros Hk. split.
  - intros E j Hj. apply at_lookup.
    replace (length plain - 1 - j)%nat with (length plain - k + (k - 1 - j))%nat by lia.
    rewrite <-lookup_drop, E. apply lookup_replicate_2. lia.
  - intros E. apply list_eq. intros j. rewrite lookup_drop. destruct (decide (j < k)%nat).
    + rewrite lookup_replicate_2, lookup_at by lia. f_equal.
      rewrite <-(E (k - 1 - j)%nat) by lia. f_equal. lia.
    + rewrite !lookup_ge_None_2; [done|rewrite length_replicate; lia|lia].
Qed.

(** The constant-time check accepts exactly the paddings that can be removed. *)
Lemma padding_check out plain :
  bytes plain → (16 <= length plain)%nat →
  let out := memcpy out 0 plain in
  let p := out @@ (length plain - 1) in
  let fail := (p =? 0) || (Z.of_nat AES_BLOCKSIZE <? p) in
  let padsize := if fail then 0 else p in
  (if check_padding out (length plain - 1) padsize fail then 0 else length plain - Z.to_nat padsize)%nat =
  from_option length 0%nat (unpad plain).
Proof.
  intros Hb Hl out' p fail padsize. unfold padsize. rewrite check_padding_spec.
  assert (Ep : p = plain @@ (length plain - 1)) by (apply memcpy_0_at; lia).
  assert (Hp : byte p) by (rewrite Ep; by apply words_at).
  unfold unpad. rewrite <-Ep. destruct fail eqn:Ef; unfold fail, AES_BLOCKSIZE in Ef.
  - rewrite bool_decide_false; [done|]. intros [Hp' _].
    apply orb_true_iff in Ef as [Ef%Z.eqb_eq|Ef%Z.ltb_lt]; lia.
  - apply orb_false_iff in Ef as [Ef%Z.eqb_neq Ef'%Z.ltb_ge]. destruct Hp as [Hp0 _].
    cbn [orb]. destruct (existsb _ _) eqn:Ex.
    + apply existsb_exists in Ex as (k & Hk & Ek). apply andb_true_iff in Ek as [Hkp Hne].
      apply Z.ltb_lt in Hkp. apply negb_true_iff, Z.eqb_neq in Hne.
      rewrite bool_decide_false; [done|]. intros [_ E]. apply Hne. unfold out'.
      rewrite memcpy_0_at by lia. apply (proj1 (last_bytes plain (Z.to_nat p) p ltac:(lia)) E). lia.
    + rewrite bool_decide_true.
      { cbn [from_option]. rewrite length_take. lia. }
      split; [lia|]. apply last_bytes; [lia|]. intros j Hj.
      destruct (Z.eqb_spec (plain @@ (length plain - 1 - j)) p) as [?|Hne]; [done|].
      enough (Hc : existsb (λ k, (Z.of_nat k <? p) && negb (out' @@ (length plain - 1 - k) =? p)) (seq 0 16) = true)
        by congruence.
      apply existsb_exists. exists j. split; [apply in_seq; lia|]. unfold out'.
      rewrite memcpy_0_at by lia. apply andb_true_iff. split; [apply Z.ltb_lt; lia|].
      by apply negb_true_iff, Z.eqb_neq.
Qed.

Lemma CBCDecrypt_spec {T U} `{HasEncrypt T, HasDecrypt U} (e : T) (d : U) `{!CipherPair e d} iv data pad out :
  block iv → bytes data → data ≠ [] → (length data mod 16 = 0)%nat → (length data <= length out)%nat →
  let plain := cbc_decrypt (Decrypt d) iv data in
  CBCDecrypt d iv (Some data) (length data) pad (Some out) =
  (if pad then from_option length 0%nat (unpad plain) else length data, Some (memcpy out 0 plain)).
Proof.
  intros Hiv Hd Hne Hm Ho plain. pose proof (decrypt_block (e := e) (d := d)) as HD.
  destruct (chunks_blocks data Hd Hm) as [Hb Hl].
  destruct (uncbc_blocks d iv _ HD Hiv Hb) as [Hub Hul].
  assert (Hpl : length plain = length data).
  { unfold plain, cbc_decrypt. by rewrite (proj2 (chunks_app _ (Forall_length_block _ Hub))), Hul. }
  assert (Hpb : bytes plain).
  { unfold plain, cbc_decrypt. clear -Hub. induction Hub as [|? ? [? _]]; [done|]. by apply Forall_app_2. }
  unfold CBCDecrypt. destruct (Nat.eqb_spec (length data) 0); [by destruct data|].
  unfold AES_BLOCKSIZE at 1. rewrite Hm, Nat.eqb_refl. cbn [negb].
  rewrite (decrypt_loop_spec d (chunks data)) by first [done | lia | by rewrite drop_0, concat_chunks].
  fold (cbc_decrypt (Decrypt d) iv data). fold plain. destruct pad; [|done].
  rewrite <-Hpl, padding_check; [done|done|].
  pose proof (Nat.div_mod_eq (length data) 16). lia.
Qed.

(** ** AES-256 *)

Section Key.
Context (key : list Z) (Hkb : bytes key) (Hkl : length key = AES256_KEYSIZE).
Let w : list (list Z) := key_expansion key 8 14.

Lemma key_size_256 : key_size 8 14.
Proof. split; lia. Qed.

(** A single block through the block loop. *)
Lemma one_block f b : block b → each_block f 1 b = f b.
Proof. intros [_ Hl]. cbn [each_block]. by rewrite app_nil_r, take_ge by lia. Qed.

Lemma AES256_block b : block b →
  Encrypt (new_AES256Encrypt key) b = cipher w 14 b ∧ block (cipher w 14 b) ∧
  Decrypt (new_AES256Decrypt key) b = inv_cipher w 14 b ∧ block (inv_cipher w 14 b) ∧
  inv_cipher w 14 (cipher w 14 b) = b.
Proof.
  intros Hb. destruct (AES_block key 8 14 b key_size_256 Hkb Hkl Hb) as (E & [E' H'] & H & I).
  split; [etrans; [exact (one_block _ b Hb)|exact E]|]. split; [exact H|].
  split; [etrans; [exact (one_block _ b Hb)|exact E']|]. exact (conj H' I).
Qed.

#[local] Instance AES256_pair : CipherPair (new_AES256Encrypt key) (new_AES256Decrypt key).
Proof.
  split; intros b Hb; destruct (AES256_block b Hb) as (E & H & E' & H' & I).
  - rewrite E. exact H.
  - rewrite E'. exact H'.
  - rewrite E. destruct (AES256_block _ H) as (_ & _ & E'' & _). rewrite E''. exact I.
Qed.

(** Chaining depends on the cipher on blocks only. *)
Lemma cbc_ext E E' prev ps :
  (∀ b, block b → E b = E' b ∧ block (E b)) → block prev → Forall block ps → cbc E prev ps = cbc E' prev ps.
Proof.
  intros HE Hprev Hps. revert prev Hprev. induction Hps as [|p ps Hp _ IH]; intros prev Hprev; [done|].
  cbn [cbc]. destruct (HE (xor_bytes prev p)) as [Ec Hc]; [by apply xor_bytes_block|].
  rewrite IH by exact Hc. by rewrite Ec.
Qed.
Lemma uncbc_ext D D' prev cs :
  (∀ b, block b → D b = D' b) → Forall block cs → uncbc D prev cs = uncbc D' prev cs.
Proof.
  intros HD Hcs. revert prev. induction Hcs as [|c cs Hc _ IH]; intros prev; [done|].
  cbn [uncbc]. by rewrite HD, IH.
Qed.

Lemma padded_ok data pad : bytes data → (pad = false → length data mod 16 = 0)%nat →
  bytes (padded pad data) ∧ (length (padded pad data) mod 16 = 0)%nat.
Proof.
  intros Hd Hp. destruct pad; cbn [padded]; [|by auto].
  split; [by apply bytes_pkcs7|]. by destruct (length_pkcs7 data) as (_ & _ & ?).
Qed.

Lemma AES256CBC_encrypt iv pad data out :
  block iv → bytes data → data ≠ [] → (pad = false → length data mod 16 = 0)%nat →
  (length (padded pad data) <= length out)%nat →
  AES256CBCEncrypt_Encrypt (new_AES256CBCEncrypt key iv pad) (Some data) (length data) (Some out) =
  (length (padded pad data), Some (memcpy out 0 (cbc_encrypt (cipher w 14) iv data pad))).
Proof.
  intros Hiv Hd Hne Hp Ho. unfold AES256CBCEncrypt_Encrypt. cbn [enc enc_pad enc_iv new_AES256CBCEncrypt].
  rewrite take_ge by (destruct Hiv as [_ ->]; done).
  rewrite (CBCEncrypt_spec (new_AES256Encrypt key) (new_AES256Decrypt key)) by done.
  do 3 f_equal. unfold cbc_encrypt. f_equal. destruct (padded_ok data pad Hd Hp) as [Hb Hm].
  apply cbc_ext; [|done|by apply chunks_blocks].
  intros b Hbl. destruct (AES256_block b Hbl) as (E & H & _). rewrite E. exact (conj eq_refl H).
Qed.

Lemma AES256CBC_decrypt iv pad data out :
  block iv → bytes data → data ≠ [] → (length data mod 16 = 0)%nat → (length data <= length out)%nat →
  let plain := cbc_decrypt (inv_cipher w 14) iv data in
  AES256CBCDecrypt_Decrypt (new_AES256CBCDecrypt key iv pad) (Some data) (length data) (Some out) =
  (if pad then from_option length 0%nat (unpad plain) else length data, Some (memcpy out 0 plain)).
Proof.
  intros Hiv Hd Hne Hm Ho plain. unfold AES256CBCDecrypt_Decrypt.
  cbn [dec dec_pad dec_iv new_AES256CBCDecrypt]. rewrite take_ge by (destruct Hiv as [_ ->]; done).
  rewrite (CBCDecrypt_spec (new_AES256Encrypt key) (new_AES256Decrypt key)) by done.
  assert (E : cbc_decrypt (Decrypt (new_AES256Decrypt key)) iv data = plain); [|by rewrite E].
  unfold plain, cbc_decrypt. f_equal. apply uncbc_ext; [|by apply chunks_blocks].
  intros b Hbl. exact (proj1 (proj2 (proj2 (AES256_block b Hbl)))).
Qed.

Lemma cbc_decrypt_encrypt iv pad data :
  block iv → bytes data → (pad = false → length data mod 16 = 0)%nat →
  let c := cbc_encrypt (cipher w 14) iv data pad in
  bytes c ∧ length c = length (padded pad data) ∧ cbc_decrypt (inv_cipher w 14) iv c = padded pad data.
Proof.
  intros Hiv Hd Hp c. destruct (padded_ok data pad Hd Hp) as [Hb Hm].
  destruct (chunks_blocks _ Hb Hm) as [Hcb Hcl].
  assert (Ec : cbc (cipher w 14) iv (chunks (padded pad data)) =
    cbc (Encrypt (new_AES256Encrypt key)) iv (chunks (padded pad data))).
  { symmetry. apply cbc_ext; [|done..]. intros b Hbl. destruct (AES256_block b Hbl) as (E & H & _).
    rewrite E. exact (conj eq_refl H). }
  destruct (cbc_blocks (new_AES256Encrypt key) iv _ (encrypt_block (d := new_AES256Decrypt key)) Hiv Hcb)
    as [Hxb Hxl].
  pose proof (uncbc_cbc (new_AES256Encrypt key) (new_AES256Decrypt key) iv _ Hiv Hcb) as Hu.
  rewrite <-Ec in Hxb, Hxl, Hu. unfold c, cbc_encrypt.
  destruct (chunks_app _ (Forall_length_block _ Hxb)) as [Ech Hlc].
  split; [|split; [by rewrite Hlc, Hxl, Hcl|]].
  - clear -Hxb. induction Hxb as [|? ? [? _]]; [done|]. by apply Forall_app_2.
  - unfold cbc_decrypt. rewrite Ech. rewrite (uncbc_ext _ (Decrypt (new_AES256Decrypt key))), Hu.
    + by apply concat_chunks.
    + intros b Hbl. exact (eq_sym (proj1 (proj2 (proj2 (AES256_block b Hbl))))).
    + exact Hxb.
Qed.
End Key.

(** The inputs that are refused: nothing is written, the result is 0. *)
Lemma AES256CBC_errors key iv pad data size out :
  let e := new_AES256CBCEncrypt key iv pad in
  let d := new_AES256CBCDecrypt key iv pad in
  (data = None ∨ size = 0%nat ∨ out = None ∨ (pad = false ∧ size mod 16 ≠ 0)%nat →
   AES256CBCEncrypt_Encrypt e data size out = (0%nat, out)) ∧
  (data = None ∨ size = 0%nat ∨ out = None ∨ (size mod 16 ≠ 0)%nat →
   AES256CBCDecrypt_Decrypt d data size out = (0%nat, out)).
Proof.
  intros e d. unfold AES256CBCEncrypt_Encrypt, AES256CBCDecrypt_Decrypt, e, d.
  cbn [enc enc_pad enc_iv dec dec_pad dec_iv new_AES256CBCEncrypt new_AES256CBCDecrypt].
  unfold CBCEncrypt, CBCDecrypt, AES_BLOCKSIZE.
  split; intros H; destruct data as [data|], out as [out|]; try done;
    destruct (Nat.eqb_spec size 0); try done; destruct H as [?|[?|[?|H]]]; try done.
  - destruct H as [-> H%Nat.eqb_neq]. by rewrite H.
  - apply Nat.eqb_neq in H. by rewrite H.
Qed.

(** C26: AES-256 in cipher block chaining with the padding of PKCS 7: for
    every key, initial vector and data, of sizes that are not negative and at
    most INT_MAX - 16 so that the code's int counts them, encryption writes
    the chained blocks and returns the padded length, decryption writes the
    chained inverse and returns the length without padding, or 0 when the
    padding is malformed; null pointers, empty input and lengths that are not
    whole blocks where they must be are refused with nothing written. *)
Theorem AES256CBC_correct key iv pad data out :
  bytes key → length key = AES256_KEYSIZE → block iv → bytes data → data ≠ [] →
  (length (padded pad data) <= length out)%nat →
  let w := key_expansion key 8 14 in
  ((pad = false → length data mod 16 = 0)%nat →
   AES256CBCEncrypt_Encrypt (new_AES256CBCEncrypt key iv pad) (Some data) (length data) (Some out) =
   (length (padded pad data), Some (memcpy out 0 (cbc_encrypt (cipher w 14) iv data pad)))) ∧
  ((length data mod 16 = 0)%nat →
   let plain := cbc_decrypt (inv_cipher w 14) iv data in
   AES256CBCDecrypt_Decrypt (new_AES256CBCDecrypt key iv pad) (Some data) (length data) (Some out) =
   (if pad then from_option length 0%nat (unpad plain) else length data, Some (memcpy out 0 plain))) ∧
  ∀ odata size oout,
  (odata = None ∨ size = 0%nat ∨ oout = None ∨ (pad = false ∧ size mod 16 ≠ 0)%nat →
   AES256CBCEncrypt_Encrypt (new_AES256CBCEncrypt key iv pad) odata size oout = (0%nat, oout)) ∧
  (odata = None ∨ size = 0%nat ∨ oout = None ∨ (size mod 16 ≠ 0)%nat →
   AES256CBCDecrypt_Decrypt (new_AES256CBCDecrypt key iv pad) odata size oout = (0%nat, oout)).
Proof.
  intros Hk Hl Hiv Hd Hne Ho w. split; [|split]; [intros Hm..|exact (AES256CBC_errors key iv pad)].
  - by apply AES256CBC_encrypt.
  - apply AES256CBC_decrypt; try done. destruct pad; [|done].
    destruct (length_pkcs7 data) as (_ & E & _). cbn [padded] in Ho. lia.
Qed.

Lemma AES256CBC_correct_witness :
  let key := Z.of_nat <$> seq 0 32 in
  AES256CBCEncrypt_Encrypt (new_AES256CBCEncrypt key (replicate 16 7) true) (Some [1; 2; 3]) 3 (Some (replicate 16 0)) =
  (16%nat, Some (memcpy (replicate 16 0) 0 (cbc_encrypt (cipher (key_expansion key 8 14) 14) (replicate 16 7) [1; 2; 3] true))).
Proof.
  intros key. refine (proj1 (AES256CBC_correct key (replicate 16 7) true [1; 2; 3] (replicate 16 0) _ _ _ _ _ _) _).
  - apply (bool_decide_unpack _). vm_compute. exact I.
  - reflexivity.
  - split; [apply (bool_decide_unpack _); vm_compute; exact I|reflexivity].
  - apply (bool_decide_unpack _). vm_compute. exact I.
  - discriminate.
  - vm_compute. lia.
  - discriminate.
Defined.

(** C27: Decrypting what was encrypted under the same key, initial vector and
    padding mode returns the length of the data and the data. *)
Theorem AES256CBC_roundtrip key iv pad data out out' :
  bytes key → length key = AES256_KEYSIZE → block iv → bytes data → data ≠ [] →
  (pad = false → length data mod 16 = 0)%nat →
  (length (padded pad data) <= length out)%nat → (length (padded pad data) <= length out')%nat →
  ∃ written cipher plain,
    AES256CBCEncrypt_Encrypt (new_AES256CBCEncrypt key iv pad) (Some data) (length data) (Some out) =
      (written, Some cipher) ∧
    AES256CBCDecrypt_Decrypt (new_AES256CBCDecrypt key iv pad) (Some (take written cipher)) written (Some out') =
      (length data, Some plain) ∧
    take (length data) plain = data.
Proof.
  intros Hk Hl Hiv Hd Hne Hm Ho Ho'. eexists _, _, _.
  destruct (cbc_decrypt_encrypt key Hk Hl iv pad data Hiv Hd Hm) as (Hcb & Hcl & Hdec).
  destruct (padded_ok data pad Hd Hm) as [_ Hmod].
  assert (Hlp : (length data <= length (padded pad data))%nat).
  { destruct pad; [|done]. cbn [padded]. destruct (length_pkcs7 data) as (_ & -> & _). lia. }
  split; [by apply AES256CBC_encrypt|]. rewrite take_memcpy_0 by done. rewrite <-Hcl. split.
  - rewrite AES256CBC_decrypt; [rewrite Hdec|done|done|done|done| |by rewrite Hcl|by rewrite Hcl].
    + f_equal. destruct pad; cbn [padded]; [by rewrite unpad_pkcs7|]. by rewrite Hcl.
    + intros E. rewrite E in Hcl. destruct data; [done|]. cbn [length] in *. lia.
  - unfold memcpy. rewrite take_0, app_nil_l. destruct pad; cbn [padded].
    + unfold pkcs7. rewrite <-app_assoc. apply take_app_length.
    + apply take_app_length.
Qed.

Lemma AES256CBC_roundtrip_witness :
  let key := Z.of_nat <$> seq 0 32 in
  ∃ written cipher plain,
    AES256CBCEncrypt_Encrypt (new_AES256CBCEncrypt key (replicate 16 7) true) (Some [1; 2; 3]) 3 (Some (replicate 16 0)) =
      (written, Some cipher) ∧
    AES256CBCDecrypt_Decrypt (new_AES256CBCDecrypt key (replicate 16 7) true) (Some (take written cipher)) written
      (Some (replicate 20 0)) = (3%nat, Some plain) ∧
    take 3 plain = [1; 2; 3].
Proof.
  intros key.
  refine (AES256CBC_roundtrip key (replicate 16 7) true [1; 2; 3] (replicate 16 0) (replicate 20 0) _ _ _ _ _ _ _ _).
  - apply (bool_decide_unpack _). vm_compute. exact I.
  - reflexivity.
  - split; [apply (bool_decide_unpack _); vm_compute; exact I|reflexivity].
  - apply (bool_decide_unpack _). vm_compute. exact I.
  - discriminate.
  - discriminate.
  - vm_compute. lia.
  - vm_compute. lia.
Defined.

End AesCbc.
