(* ===== verification/Sha256.v ===== *)
(** * SHA-256: crypto/sha256.cpp, sha256_sse41.cpp, sha256_avx2.cpp, sha256.h, hash.h

    The same rounds are written out in five places: the block function
    [sha256::Transform], the double hash of 64 bytes [sha256::TransformD64],
    and its vector forms on four and on eight messages.  Here they are one
    text over the class [Word32] of 32-bit words, whose instances are
    [uint32_t] and the vectors of four and eight lanes.  The eight working
    variables [a] to [h] are a list, [w0] to [w15] another; the calls of
    [Round] are numbered, call [i] has its arguments rotated by [i] places.
    The specification is FIPS 180-4.  [Word32Laws] says what an instance
    promises of the word that it represents (itself, or that of a lane); the
    three transforms are proved once, from the laws.

    The function pointers [Transform], [TransformD64], [TransformD64_2way],
    ... are the record [Impl]; [impl_ok] is what the hasher [CSHA256], the
    double hasher [CHash256] and the batch function [SHA256D64] rely on.  The
    code on SHA instructions is in Sha256X86.v and Sha256Arm.v, the choice of
    an implementation in Sha256Select.v. *)
From Stdlib Require Import Ascii String.
From S2P Require Import Prelude SphTypes Stream Padding.

Module Sha256.

(** ** Words *)

(** The operations of the code on 32-bit words.  The sums have the shape of
    the source: [Add5 k x y z w] is the last argument of rounds 62 and 63,
    [Inc3] and [Inc4] are the updates [w += ...]. *)
Class Word32 (T : Type) := {
  K : Z → T;
  Add : T → T → T;
  Add3 : T → T → T → T;
  Add4 : T → T → T → T → T;
  Add5 : T → T → T → T → T → T;
  Inc3 : T → T → T → T;
  Inc4 : T → T → T → T → T;
  Xor : T → T → T;
  Or : T → T → T;
  And : T → T → T;
  ShR : T → Z → T;
  ShL : T → Z → T }.

Definition add32 (x y : Z) : Z := SPH_T32 (x + y).

(** [uint32_t]. *)
#[export] Instance uint32 : Word32 Z := {
  K x := x;
  Add := add32;
  Add3 x y z := add32 (add32 x y) z;
  Add4 x y z w := add32 (add32 (add32 x y) z) w;
  Add5 k x y z w := add32 k (add32 (add32 (add32 x y) z) w);
  Inc3 x y z := add32 x (add32 y z);
  Inc4 x y z w := add32 x (add32 (add32 y z) w);
  Xor := Z.lxor;
  Or := Z.lor;
  And := Z.land;
  ShR x n := x ≫ n;
  ShL x n := SPH_T32 (x ≪ n) }.

(** [__m128i] and [__m256i]: lanes of 32 bits, the lowest first. *)
Record vec (lanes : nat) := mk_vec { lane_list : list Z }.
Arguments mk_vec {lanes} _.
Arguments lane_list {lanes} _.
Definition lanewise {n} (f : Z → Z → Z) (x y : vec n) : vec n :=
  mk_vec (zip_with f (lane_list x) (lane_list y)).
Definition vec_add {n} : vec n → vec n → vec n := lanewise add32.
#[export] Instance vector (n : nat) : Word32 (vec n) := {
  K x := mk_vec (replicate n x);
  Add := vec_add;
  Add3 x y z := vec_add (vec_add x y) z;
  Add4 x y z w := vec_add (vec_add x y) (vec_add z w);
  Add5 x y z w v := vec_add (vec_add (vec_add x y) z) (vec_add w v);
  Inc3 x y z := vec_add (vec_add x y) z;
  Inc4 x y z w := vec_add (vec_add x y) (vec_add z w);
  Xor := lanewise Z.lxor;
  Or := lanewise Z.lor;
  And := lanewise Z.land;
  ShR x k := mk_vec ((λ a, a ≫ k) <$> lane_list x);
  ShL x k := mk_vec ((λ a, SPH_T32 (a ≪ k)) <$> lane_list x) }.

(** ** The rounds *)

Definition K256 : list Z :=
  [0x428A2F98; 0x71374491; 0xB5C0FBCF; 0xE9B5DBA5; 0x3956C25B; 0x59F111F1; 0x923F82A4; 0xAB1C5ED5;
   0xD807AA98; 0x12835B01; 0x243185BE; 0x550C7DC3; 0x72BE5D74; 0x80DEB1FE; 0x9BDC06A7; 0xC19BF174;
   0xE49B69C1; 0xEFBE4786; 0x0FC19DC6; 0x240CA1CC; 0x2DE92C6F; 0x4A7484AA; 0x5CB0A9DC; 0x76F988DA;
   0x983E5152; 0xA831C66D; 0xB00327C8; 0xBF597FC7; 0xC6E00BF3; 0xD5A79147; 0x06CA6351; 0x14292967;
   0x27B70A85; 0x2E1B2138; 0x4D2C6DFC; 0x53380D13; 0x650A7354; 0x766A0ABB; 0x81C2C92E; 0x92722C85;
   0xA2BFE8A1; 0xA81A664B; 0xC24B8B70; 0xC76C51A3; 0xD192E819; 0xD6990624; 0xF40E3585; 0x106AA070;
   0x19A4C116; 0x1E376C08; 0x2748774C; 0x34B0BCB5; 0x391C0CB3; 0x4ED8AA4A; 0x5B9CCA4F; 0x682E6FF3;
   0x748F82EE; 0x78A5636F; 0x84C87814; 0x8CC70208; 0x90BEFFFA; 0xA4506CEB; 0xBEF9A3F7; 0xC67178F2].
(** The constants of the second transform of [TransformD64], in which the message is fixed. *)
Definition K256_padding : list Z :=
  [0xC28A2F98; 0x71374491; 0xB5C0FBCF; 0xE9B5DBA5; 0x3956C25B; 0x59F111F1; 0x923F82A4; 0xAB1C5ED5;
   0xD807AA98; 0x12835B01; 0x243185BE; 0x550C7DC3; 0x72BE5D74; 0x80DEB1FE; 0x9BDC06A7; 0xC19BF374;
   0x649B69C1; 0xF0FE4786; 0x0FE1EDC6; 0x240CF254; 0x4FE9346F; 0x6CC984BE; 0x61B9411E; 0x16F988FA;
   0xF2C65152; 0xA88E5A6D; 0xB019FC65; 0xB9D99EC7; 0x9A1231C3; 0xE70EEAA0; 0xFDB1232B; 0xC7353EB0;
   0x3069BAD5; 0xCB976D5F; 0x5A0F118F; 0xDC1EEEFD; 0x0A35B689; 0xDE0B7A04; 0x58F4CA9D; 0xE15D5B16;
   0x007F3E86; 0x37088980; 0xA507EA32; 0x6FAB9537; 0x17406110; 0x0D8CD6F1; 0xCDAA3B6D; 0xC0BBBE37;
   0x83613BDA; 0xDB48A363; 0x0B02E931; 0x6FD15CA7; 0x521AFACA; 0x31338431; 0x6ED41A95; 0x6D437890;
   0xC39C91F2; 0x9ECCABBD; 0xB5C9A0E6; 0x532FB63C; 0xD2C741C6; 0x07237EA3; 0xA4954B68; 0x4C191D76].
Definition Initialize : list Z :=
  [0x6a09e667; 0xbb67ae85; 0x3c6ef372; 0xa54ff53a; 0x510e527f; 0x9b05688c; 0x1f83d9ab; 0x5be0cd19].

Section Rounds.
Context {T : Type} `{Word32 T}.

Definition Xor3 (x y z : T) : T := Xor (Xor x y) z.
Definition Ch (x y z : T) : T := Xor z (And x (Xor y z)).
Definition Maj (x y z : T) : T := Or (And x y) (And z (Or x y)).
Definition Sigma0 (x : T) : T :=
  Xor3 (Or (ShR x 2) (ShL x 30)) (Or (ShR x 13) (ShL x 19)) (Or (ShR x 22) (ShL x 10)).
Definition Sigma1 (x : T) : T :=
  Xor3 (Or (ShR x 6) (ShL x 26)) (Or (ShR x 11) (ShL x 21)) (Or (ShR x 25) (ShL x 7)).
Definition sigma0 (x : T) : T :=
  Xor3 (Or (ShR x 7) (ShL x 25)) (Or (ShR x 18) (ShL x 14)) (ShR x 3).
Definition sigma1 (x : T) : T :=
  Xor3 (Or (ShR x 17) (ShL x 15)) (Or (ShR x 19) (ShL x 13)) (ShR x 10).

(** The values of the references [d] and [h] after the call. *)
Definition Round (a b c d e f g h k : T) : T * T :=
  let t1 := Add4 h (Sigma1 e) (Ch e f g) k in
  let t2 := Add (Sigma0 a) (Maj a b c) in
  (Add d t1, Add t1 t2).

(** Variable [i] of a list of variables. *)
Definition var (l : list T) (i : nat) : T := nth i l (K 0).

(** The variable that is argument [j] of call [i]: [Round(a, b, ...)], then
    [Round(h, a, ...)], then [Round(g, h, ...)], and so on. *)
Definition argument (i j : nat) : nat := (j + (8 - i mod 8)) mod 8.

Definition round_call (i : nat) (k : T) (v : list T) : list T :=
  let x j := var v (argument i j) in
  let '(d, h) := Round (x 0%nat) (x 1%nat) (x 2%nat) (x 3%nat) (x 4%nat) (x 5%nat) (x 6%nat) (x 7%nat) k in
  <[argument i 7 := h]> (<[argument i 3 := d]> v).

(** The 64 calls of a transform; [args i w] evaluates the last argument of call
    [i], with its assignments to [w0] to [w15]. *)
Definition calls (args : nat → list T → T * list T) (v w : list T) : list T * list T :=
  fold_left (λ '(v, w) i, let '(k, w) := args i w in (round_call i k v, w)) (seq 0 64) (v, w).

(** [w += sigma1(..) + .. + sigma0(..)] of call [i], for the variable [w] of that call. *)
Definition general_args (i : nat) (w : list T) : T * list T :=
  let x j := var w ((i + j) mod 16) in
  if (i <? 62)%nat
  then let y := Inc4 (x 0%nat) (sigma1 (x 14%nat)) (x 9%nat) (sigma0 (x 1%nat)) in
       (Add (K (K256 @@ i)) y, <[(i mod 16)%nat := y]> w)
  else (Add5 (K (K256 @@ i)) (x 0%nat) (sigma1 (x 14%nat)) (x 9%nat) (sigma0 (x 1%nat)), w).

(** The calls of [Transform] and of the first transform of [TransformD64]: calls
    0 to 15 read [w0] to [w15], with [read] the word at an offset of the input.  Variables
    that have no value yet are not in the list. *)
Definition block_args (read : nat → T) (i : nat) (w : list T) : T * list T :=
  if (i <? 16)%nat
  then let y := read (4 * i)%nat in (Add (K (K256 @@ i)) y, w ++ [y])
  else general_args i w.

(** The second transform: constants. *)
Definition padding_args (i : nat) (w : list T) : T * list T := (K (K256_padding @@ i), w).

(** The third transform: [w8] to [w15] of the message are fixed.  Calls 8 to 15, and the
    assignments of calls 16 to 31. *)
Definition K256_fixed : list Z :=
  [0x5807aa98; 0x12835b01; 0x243185be; 0x550c7dc3; 0x72be5d74; 0x80deb1fe; 0x9bdc06a7; 0xc19bf274].
Definition fixed_update (i : nat) (w : list T) : T :=
  let w := var w in
  match (i - 16)%nat with
  | 0%nat => Add (w 0%nat) (sigma0 (w 1%nat))
  | 1%nat => Inc3 (w 1%nat) (K 0xa00000) (sigma0 (w 2%nat))
  | 2%nat => Inc3 (w 2%nat) (sigma1 (w 0%nat)) (sigma0 (w 3%nat))
  | 3%nat => Inc3 (w 3%nat) (sigma1 (w 1%nat)) (sigma0 (w 4%nat))
  | 4%nat => Inc3 (w 4%nat) (sigma1 (w 2%nat)) (sigma0 (w 5%nat))
  | 5%nat => Inc3 (w 5%nat) (sigma1 (w 3%nat)) (sigma0 (w 6%nat))
  | 6%nat => Inc4 (w 6%nat) (sigma1 (w 4%nat)) (K 0x100) (sigma0 (w 7%nat))
  | 7%nat => Inc4 (w 7%nat) (sigma1 (w 5%nat)) (w 0%nat) (K 0x11002000)
  | 8%nat => Add3 (K 0x80000000) (sigma1 (w 6%nat)) (w 1%nat)
  | 9%nat => Add (sigma1 (w 7%nat)) (w 2%nat)
  | 10%nat => Add (sigma1 (w 8%nat)) (w 3%nat)
  | 11%nat => Add (sigma1 (w 9%nat)) (w 4%nat)
  | 12%nat => Add (sigma1 (w 10%nat)) (w 5%nat)
  | 13%nat => Add (sigma1 (w 11%nat)) (w 6%nat)
  | 14%nat => Add3 (sigma1 (w 12%nat)) (w 7%nat) (K 0x400022)
  | _ => Add4 (K 0x100) (sigma1 (w 13%nat)) (w 8%nat) (sigma0 (w 0%nat))
  end.
Definition digest_args (i : nat) (w : list T) : T * list T :=
  if (i <? 8)%nat then (Add (K (K256 @@ i)) (var w i), w)
  else if (i <? 16)%nat then (K (K256_fixed @@ (i - 8)), w)
  else if (i <? 32)%nat
  then let y := fixed_update i w in (Add (K (K256 @@ i)) y, <[(i mod 16)%nat := y]> w)
  else general_args i w.

(** The double hash of 64 bytes: the eight words of the result. *)
Definition double_hash (read : nat → T) : list T :=
  let '(v, w) := calls (block_args read) (K <$> Initialize) [] in
  let v := zip_with Add v (K <$> Initialize) in
  let t := v in
  let '(v, w) := calls padding_args v w in
  let w := zip_with Add t v ++ drop 8 w in
  let '(v, w) := calls digest_args (K <$> Initialize) w in
  zip_with Add v (K <$> Initialize).
End Rounds.


(** ** Bytes and words in memory (crypto/common.h, little-endian host) *)

Definition ReadLE32 (ptr : list Z) : Z := le_join (take 4 ptr).
Definition ReadBE32 (ptr : list Z) : Z := sph_bswap32 (le_join (take 4 ptr)).
(** The bytes written. *)
Definition WriteLE32 (x : Z) : list Z := le_split 4 x.
Definition WriteBE32 (x : Z) : list Z := le_split 4 (sph_bswap32 x).
Definition WriteBE64 (x : Z) : list Z := le_split 8 (sph_bswap64 x).

(** [WriteBE32(out + 0, ..); WriteBE32(out + 4, ..); ...] *)
Definition write_words (mem : list Z) (out : nat) (ws : list Z) : list Z :=
  fold_left (λ mem '(j, x), memcpy mem (out + 4 * j) (WriteBE32 x)) (zip (seq 0 8) ws) mem.

(** ** The transforms *)

Fixpoint sha256_Transform (s chunk : list Z) (blocks : nat) : list Z :=
  match blocks with
  | O => s
  | S blocks =>
      let v := fst (calls (block_args (λ o, ReadBE32 (drop o chunk))) s []) in
      sha256_Transform (zip_with add32 s v) (drop 64 chunk) blocks
  end.

(** The pointers [out] and [inp] are offsets in [mem]: they may overlap. *)
Definition sha256_TransformD64 (mem : list Z) (out inp : nat) : list Z :=
  write_words mem out (double_hash (λ o, ReadBE32 (drop (inp + o) mem))).

(** [Read4], [Read8]: message [m] is in lane [n - 1 - m]; the byte shuffle reverses each lane. *)
Definition Read_way (n : nat) (mem : list Z) (chunk offset : nat) : vec n :=
  mk_vec ((λ l, sph_bswap32 (ReadLE32 (drop (chunk + 64 * (n - 1 - l) + offset) mem))) <$> seq 0 n).
(** [Write4], [Write8]. *)
Definition Write_way (n : nat) (mem : list Z) (out offset : nat) (v : vec n) : list Z :=
  let v := sph_bswap32 <$> lane_list v in
  fold_left (λ mem m, memcpy mem (out + 32 * m + offset) (WriteLE32 (v @@ (n - 1 - m)))) (seq 0 n) mem.

(** [Transform_4way], [Transform_8way]. *)
Definition Transform_way (n : nat) (mem : list Z) (out inp : nat) : list Z :=
  fold_left (λ mem '(j, x), Write_way n mem out (4 * j) x)
    (zip (seq 0 8) (double_hash (Read_way n mem inp))) mem.
Definition Transform_4way : list Z → nat → nat → list Z := Transform_way 4.
Definition Transform_8way : list Z → nat → nat → list Z := Transform_way 8.

(** The double hash through another block function. *)
Definition padding1 : list Z := 0x80 :: replicate 61 0 ++ [2; 0].
Definition TransformD64Wrapper (tr : list Z → list Z → nat → list Z) (mem : list Z) (out inp : nat) : list Z :=
  let buffer2 := replicate 32 0 ++ 0x80 :: replicate 29 0 ++ [1; 0] in
  let s := tr Initialize (drop inp mem) 1%nat in
  let s := tr s padding1 1%nat in
  let buffer2 := write_words buffer2 0 s in
  let s := tr Initialize buffer2 1%nat in
  write_words mem out s.

(** ** The implementations in use: the function pointers *)

Abbreviation TransformType := (list Z → list Z → nat → list Z).
Abbreviation TransformD64Type := (list Z → nat → nat → list Z).
Record Impl := mk_impl {
  Transform : TransformType;
  TransformD64 : TransformD64Type;
  TransformD64_2way : option TransformD64Type;
  TransformD64_4way : option TransformD64Type;
  TransformD64_8way : option TransformD64Type }.

Definition standard : Impl := mk_impl sha256_Transform sha256_TransformD64 None None None.

(** The self test: known answers. *)
Definition test_data : list Z :=
  (λ c, Z.of_nat (Ascii.nat_of_ascii c)) <$> String.list_ascii_of_string
  ("Lorem ipsum dolor sit amet, consectetur adipiscing elit, sed do " ++
   "eiusmod tempor incididunt ut labore et dolore magna aliqua. Et m" ++
   "olestie ac feugiat sed lectus vestibulum mattis ullamcorper. Mor" ++
   "bi blandit cursus risus at ultrices mi tempus imperdiet nulla. N" ++
   "unc congue nisi vita suscipit tellus mauris. Imperdiet proin fer" ++
   "mentum leo vel orci. Massa tempor nec feugiat nisl pretium fusce" ++
   " id velit. Telus in metus vulputate eu scelerisque felis. Mi tem" ++
   "pus imperdiet nulla malesuada pellentesque. Tristique magna sit.")%string.
Definition test_result : list (list Z) :=
  [[0x6a09e667; 0xbb67ae85; 0x3c6ef372; 0xa54ff53a; 0x510e527f; 0x9b05688c; 0x1f83d9ab; 0x5be0cd19];
   [0x91f8ec6b; 0x4da10fe3; 0x1c9c292c; 0x45e18185; 0x435cc111; 0x3ca26f09; 0xeb954cae; 0x402a7069];
   [0xcabea5ac; 0x374fb97c; 0x182ad996; 0x7bd69cbf; 0x450ff900; 0xc1d2be8a; 0x6a41d505; 0xe6212dc3];
   [0xbcff09d6; 0x3e76f36e; 0x3ecb2501; 0x78866e97; 0xe1c1e2fd; 0x32f4eaff; 0x8aa6c4e5; 0xdfc024bc];
   [0xa08c5d94; 0x0a862f93; 0x6b7f2f40; 0x8f9fae76; 0x6d40439f; 0x79dcee0c; 0x3e39ff3a; 0xdc3bdbb1];
   [0x216a0895; 0x9f1a3662; 0xe99946f9; 0x87ba4364; 0x0fb5db2c; 0x12bed3d3; 0x6689c0c7; 0x292f1b04];
   [0xca3067f8; 0xbc8c2656; 0x37cb7e0d; 0x9b6b8b0f; 0x46dc380b; 0xf1287f57; 0xc42e4b23; 0x3fefe94d];
   [0x3e4c4039; 0xbb6fca8c; 0x6f27d2f7; 0x301e44a4; 0x8352ba14; 0x5769ce37; 0x48a1155f; 0xc0e1c4c6];
   [0xfe2fa9dd; 0x69d0862b; 0x1ae0db23; 0x471f9244; 0xf55c0145; 0xc30f9c3b; 0x40a84ea0; 0x5b8a266c]].
Definition test_result_d64 : list Z :=
  [0x09; 0x3a; 0xc4; 0xd0; 0x0f; 0xf7; 0x57; 0xe1; 0x72; 0x85; 0x79; 0x42; 0xfe; 0xe7; 0xe0; 0xa0;
   0xfc; 0x52; 0xd7; 0xdb; 0x07; 0x63; 0x45; 0xfb; 0x53; 0x14; 0x7d; 0x17; 0x22; 0x86; 0xf0; 0x52;
   0x48; 0xb6; 0x11; 0x9e; 0x6e; 0x48; 0x81; 0x6d; 0xcc; 0x57; 0x1f; 0xb2; 0x97; 0xa8; 0xd5; 0x25;
   0x9b; 0x82; 0xaa; 0x89; 0xe2; 0xfd; 0x2d; 0x56; 0xe8; 0x28; 0x83; 0x0b; 0xe2; 0xfa; 0x53; 0xb7;
   0xd6; 0x6b; 0x07; 0x85; 0x83; 0xb0; 0x10; 0xa2; 0xf5; 0x51; 0x3c; 0xf9; 0x60; 0x03; 0xab; 0x45;
   0x6c; 0x15; 0x6e; 0xef; 0xb5; 0xac; 0x3e; 0x6c; 0xdf; 0xb4; 0x92; 0x22; 0x2d; 0xce; 0xbf; 0x3e;
   0xe9; 0xe5; 0xf6; 0x29; 0x0e; 0x01; 0x4f; 0xd2; 0xd4; 0x45; 0x65; 0xb3; 0xbb; 0xf2; 0x4c; 0x16;
   0x37; 0x50; 0x3c; 0x6e; 0x49; 0x8c; 0x5a; 0x89; 0x2b; 0x1b; 0xab; 0xc4; 0x37; 0xd1; 0x46; 0xe9;
   0x3d; 0x0e; 0x85; 0xa2; 0x50; 0x73; 0xa1; 0x5e; 0x54; 0x37; 0xd7; 0x94; 0x17; 0x56; 0xc2; 0xd8;
   0xe5; 0x9f; 0xed; 0x4e; 0xae; 0x15; 0x42; 0x06; 0x0d; 0x74; 0x74; 0x5e; 0x24; 0x30; 0xce; 0xd1;
   0x9e; 0x50; 0xa3; 0x9a; 0xb8; 0xf0; 0x4a; 0x57; 0x69; 0x78; 0x67; 0x12; 0x84; 0x58; 0xbe; 0xc7;
   0x36; 0xaa; 0xee; 0x7c; 0x64; 0xa3; 0x76; 0xec; 0xff; 0x55; 0x41; 0x00; 0x2a; 0x44; 0x68; 0x4d;
   0xb6; 0x53; 0x9e; 0x1c; 0x95; 0xb7; 0xca; 0xdc; 0x7f; 0x7d; 0x74; 0x27; 0x5c; 0x8e; 0xa6; 0x84;
   0xb5; 0xac; 0x87; 0xa9; 0xf3; 0xff; 0x75; 0xf2; 0x34; 0xcd; 0x1a; 0x3b; 0x82; 0x2c; 0x2b; 0x4e;
   0x6a; 0x46; 0x30; 0xa6; 0x89; 0x86; 0x23; 0xac; 0xf8; 0xa5; 0x15; 0xe9; 0x0a; 0xaa; 0x1e; 0x9a;
   0xd7; 0x93; 0x6b; 0x28; 0xe4; 0x3b; 0xfd; 0x59; 0xc6; 0xed; 0x7c; 0x5f; 0xa5; 0x41; 0xcb; 0x51].

(** The output of a double hash of the first [n] messages in a buffer of its own,
    which follows the data in memory. *)
Definition test_d64 (f : TransformD64Type) (n : nat) : bool :=
  let out := length test_data in
  bool_decide (drop out (f (test_data ++ replicate (32 * n) 0) out 0%nat) = take (32 * n) test_result_d64).
Definition SelfTest (im : Impl) : bool :=
  forallb (λ i, bool_decide (Transform im Initialize test_data i = nth i test_result [])) (seq 0 9) &&
  test_d64 (TransformD64 im) 1 &&
  match TransformD64_2way im with Some f => test_d64 f 2 | None => true end &&
  match TransformD64_4way im with Some f => test_d64 f 4 | None => true end &&
  match TransformD64_8way im with Some f => test_d64 f 8 | None => true end.

(** ** The hashers *)

Record CSHA256 := mk_csha256 { s : list Z; buf : list Z; nbytes : Z }.

Section Hashers.
Context (im : Impl).

(** The constructor; [buf0] is what the memory of [buf] holds. *)
Definition CSHA256_new (buf0 : list Z) : CSHA256 := mk_csha256 Initialize buf0 0.

Definition Write (c : CSHA256) (data : list Z) : CSHA256 :=
  let bufsize := Z.to_nat (nbytes c mod 64) in
  let '(c, data, bufsize) :=
    if negb (bufsize =? 0)%nat && (64 <=? bufsize + length data)%nat
    then
      let n := (64 - bufsize)%nat in
      let buf := memcpy (buf c) bufsize (take n data) in
      (mk_csha256 (Transform im (s c) buf 1) buf (SPH_T64 (nbytes c + Z.of_nat n)), drop n data, O)
    else (c, data, bufsize) in
  let '(c, data) :=
    if (64 <=? length data)%nat
    then
      let blocks := (length data / 64)%nat in
      (mk_csha256 (Transform im (s c) data blocks) (buf c) (SPH_T64 (nbytes c + 64 * Z.of_nat blocks)),
       drop (64 * blocks) data)
    else (c, data) in
  if (0 <? length data)%nat
  then mk_csha256 (s c) (memcpy (buf c) bufsize data) (SPH_T64 (nbytes c + Z.of_nat (length data)))
  else c.

(** The hasher and the array [hash] after the call. *)
Definition Finalize (c : CSHA256) (hash : list Z) : CSHA256 * list Z :=
  let pad := 0x80 :: replicate 63 0 in
  let sizedesc := WriteBE64 (SPH_T64 (nbytes c ≪ 3)) in
  let c := Write c (take (1 + Z.to_nat ((119 - nbytes c mod 64) mod 64)) pad) in
  let c := Write c sizedesc in
  (c, write_words hash 0 (s c)).

Definition Reset (c : CSHA256) : CSHA256 := mk_csha256 Initialize (buf c) 0.

(** [CHash256] holds a [CSHA256].  The local array [tmp] is not initialised; [None] is the
    assertion on the size of [output]. *)
Definition CHash256_Write (c : CSHA256) (input : list Z) : CSHA256 := Write c input.
Definition CHash256_Finalize (c : CSHA256) (output tmp : list Z) : option (CSHA256 * list Z) :=
  if (length output =? 32)%nat
  then let '(c, tmp) := Finalize c tmp in Some (Finalize (Write (Reset c) tmp) output)
  else None.

(** ** Many double hashes *)

(** [while (blocks >= n) { f(out, in); out += 32 n; in += 64 n; blocks -= n; }] *)
Fixpoint way_loop (fuel : nat) (f : TransformD64Type) (n : nat) (st : list Z * nat * nat * nat)
    : list Z * nat * nat * nat :=
  let '(mem, out, inp, blocks) := st in
  match fuel with
  | O => st
  | S fuel =>
      if (n <=? blocks)%nat
      then way_loop fuel f n (f mem out inp, out + 32 * n, inp + 64 * n, blocks - n)%nat
      else st
  end.
Definition try_ways (f : option TransformD64Type) (n : nat) (st : list Z * nat * nat * nat)
    : list Z * nat * nat * nat :=
  match f with Some f => way_loop (snd st) f n st | None => st end.

Definition SHA256D64 (mem : list Z) (out inp blocks : nat) : list Z :=
  let st := (mem, out, inp, blocks) in
  let st := try_ways (TransformD64_8way im) 8 st in
  let st := try_ways (TransformD64_4way im) 4 st in
  let st := try_ways (TransformD64_2way im) 2 st in
  let st := way_loop (snd st) (TransformD64 im) 1 st in
  fst (fst (fst st)).
End Hashers.


(** ** FIPS 180-4 *)

Definition fips_Ch (x y z : Z) : Z := Z.land x y ^^ Z.land (not32 x) z.
Definition fips_Maj (x y z : Z) : Z := Z.land x y ^^ Z.land x z ^^ Z.land y z.
Definition fips_Sigma0 (x : Z) : Z := SPH_ROTR32 x 2 ^^ SPH_ROTR32 x 13 ^^ SPH_ROTR32 x 22.
Definition fips_Sigma1 (x : Z) : Z := SPH_ROTR32 x 6 ^^ SPH_ROTR32 x 11 ^^ SPH_ROTR32 x 25.
Definition fips_sigma0 (x : Z) : Z := SPH_ROTR32 x 7 ^^ SPH_ROTR32 x 18 ^^ (x ≫ 3).
Definition fips_sigma1 (x : Z) : Z := SPH_ROTR32 x 17 ^^ SPH_ROTR32 x 19 ^^ (x ≫ 10).

(** The message schedule: 16 words of the block, then 48 more. *)
Definition next_word (W : list Z) : Z :=
  let t := length W in
  SPH_T32 (fips_sigma1 (W @@ (t - 2)) + W @@ (t - 7) + fips_sigma0 (W @@ (t - 15)) + W @@ (t - 16)).
Definition message_schedule (M : list Z) : list Z := Nat.iter 48 (λ W, W ++ [next_word W]) M.

Definition hash_round (kt wt : Z) (r : list Z) : list Z :=
  match r with
  | [a; b; c; d; e; f; g; h] =>
      let T1 := h + fips_Sigma1 e + fips_Ch e f g + kt + wt in
      let T2 := fips_Sigma0 a + fips_Maj a b c in
      [SPH_T32 (T1 + T2); a; b; c; SPH_T32 (d + T1); e; f; g]
  | _ => r
  end.
Definition hash_rounds (W r : list Z) : list Z :=
  fold_left (λ r t, hash_round (K256 @@ t) (W @@ t) r) (seq 0 64) r.
Definition words_of (block : list Z) : list Z := (λ i, sph_dec32be (drop (4 * i) block)) <$> seq 0 16.
Definition compress (block H : list Z) : list Z :=
  zip_with add32 H (hash_rounds (message_schedule (words_of block)) H).
Definition digest (H : list Z) : list Z := concat (sph_enc32be <$> H).
Definition sha256_padding (len : nat) : list Z :=
  md_padding 64 8 0x80 (sph_enc64be (8 * Z.of_nat len)) len.
Definition sha256 (msg : list Z) : list Z :=
  digest (run compress (full_blocks 64 (msg ++ sha256_padding (length msg))) Initialize).
Definition sha256d (msg : list Z) : list Z := sha256 (sha256 msg).

(** The constants are the first 32 bits of the fractional parts of the cube
    roots of the first 64 primes and of the square roots of the first 8. *)
Definition primes : list Z :=
  filter (λ p, Forall (λ d, p mod d ≠ 0) (Z.of_nat <$> seq 2 (Z.to_nat p - 2))) (Z.of_nat <$> seq 2 310).
Lemma constants_are_roots :
  Forall2 (λ p k, ∃ r, k = r mod 2 ^ 32 ∧ r ^ 3 <= p * 2 ^ 96 < (r + 1) ^ 3) primes K256 ∧
  Forall2 (λ p k, ∃ r, k = r mod 2 ^ 32 ∧ r ^ 2 <= p * 2 ^ 64 < (r + 1) ^ 2) (take 8 primes) Initialize.
Proof.
  set (root e p := fold_left (λ r b, if (r + 2 ^ Z.of_nat b) ^ e <=? p * 2 ^ (32 * e)
    then r + 2 ^ Z.of_nat b else r) (reverse (seq 0 37)) 0).
  assert (H : Forall2 (λ p k, k = root 3 p mod 2 ^ 32 ∧ root 3 p ^ 3 <= p * 2 ^ 96 < (root 3 p + 1) ^ 3) primes K256 ∧
    Forall2 (λ p k, k = root 2 p mod 2 ^ 32 ∧ root 2 p ^ 2 <= p * 2 ^ 64 < (root 2 p + 1) ^ 2) (take 8 primes) Initialize)
    by (apply (bool_decide_unpack _); vm_compute; exact I).
  split; [destruct H as [H _]|destruct H as [_ H]]; (eapply Forall2_impl; [|exact H]); intros p k Hk; eexists; exact Hk.
Qed.

(** ** The functions of the code are those of the standard *)

Lemma Ch_fips x y z : word 32 x → word 32 y → word 32 z → z ^^ Z.land x (y ^^ z) = fips_Ch x y z.
Proof.
  intros. unfold fips_Ch. apply (word_ext 32); [word_solve..|]. intros i Hi.
  rewrite !Z.lxor_spec, !Z.land_spec, !Z.lxor_spec, not32_bit by done. btauto.
Qed.

Lemma Maj_fips x y z :
  word 32 x → word 32 y → word 32 z → Z.lor (Z.land x y) (Z.land z (Z.lor x y)) = fips_Maj x y z.
Proof.
  intros. unfold fips_Maj. apply (word_ext 32); [word_solve..|]. intros i Hi.
  rewrite !Z.lxor_spec, !Z.lor_spec, !Z.land_spec, !Z.lor_spec. btauto.
Qed.

Lemma rotr_shifts x n m :
  word 32 x → 0 < n < 32 → m = 32 - n → Z.lor (x ≫ n) (SPH_T32 (x ≪ m)) = SPH_ROTR32 x n.
Proof.
  intros Hx Hn ->. unfold SPH_ROTR32, SPH_ROTL32.
  assert (word 32 (x ≫ n)) by (apply word_shiftr; (done || lia)).
  apply (word_ext 32); [apply word_lor; [lia|done|apply word_T32]|apply word_T32|]. intros i Hi.
  rewrite testbit_T32, !Z.lor_spec, testbit_T32 by done. replace (32 - (32 - n)) with n by lia. apply orb_comm.
Qed.


(** ** What an instance promises: the word that a value represents *)

Class Word32Laws {T : Type} `{Word32 T} (rep : T → Z → Prop) := {
  rep_word x a : rep x a → word 32 a;
  rep_K c : word 32 c → rep (K c) c;
  rep_Add x y a b : rep x a → rep y b → rep (Add x y) (SPH_T32 (a + b));
  rep_Add3 x y z a b c : rep x a → rep y b → rep z c → rep (Add3 x y z) (SPH_T32 (a + b + c));
  rep_Add4 x y z w a b c d : rep x a → rep y b → rep z c → rep w d →
    rep (Add4 x y z w) (SPH_T32 (a + b + c + d));
  rep_Add5 x y z w v a b c d e : rep x a → rep y b → rep z c → rep w d → rep v e →
    rep (Add5 x y z w v) (SPH_T32 (a + b + c + d + e));
  rep_Inc3 x y z a b c : rep x a → rep y b → rep z c → rep (Inc3 x y z) (SPH_T32 (a + b + c));
  rep_Inc4 x y z w a b c d : rep x a → rep y b → rep z c → rep w d →
    rep (Inc4 x y z w) (SPH_T32 (a + b + c + d));
  rep_Xor x y a b : rep x a → rep y b → rep (Xor x y) (a ^^ b);
  rep_Or x y a b : rep x a → rep y b → rep (Or x y) (Z.lor a b);
  rep_And x y a b : rep x a → rep y b → rep (And x y) (Z.land a b);
  rep_ShR x a n : rep x a → 0 <= n → rep (ShR x n) (a ≫ n);
  rep_ShL x a n : rep x a → rep (ShL x n) (SPH_T32 (a ≪ n)) }.

(** Finds the word that an expression represents, operator by operator. *)
Ltac rep_solve :=
  repeat first [eassumption | eapply rep_Add | eapply rep_Add3 | eapply rep_Add4 | eapply rep_Add5
    | eapply rep_Inc3 | eapply rep_Inc4 | eapply rep_Xor | eapply rep_Or | eapply rep_And
    | eapply rep_ShR; [|lia] | eapply rep_ShL | eapply rep_K; split; lia].

(** A value is read as the word [b] once it represents an equal one. *)
Lemma rep_eq {T : Type} (rep : T → Z → Prop) x a b : rep x a → a = b → rep x b.
Proof. by intros ? <-. Qed.

(** Sums are taken modulo 2^32 at any point. *)
Ltac sum32 :=
  unfold add32; rewrite ?SPH_T32_mod; change (2 ^ 32) with 4294967296; Z.div_mod_to_equations; lia.

(** A word represents itself. *)
Definition is_word (x a : Z) : Prop := x = a ∧ word 32 a.
#[export] Instance uint32_laws : Word32Laws is_word.
Proof.
  split; unfold is_word; cbn [K Add Add3 Add4 Add5 Inc3 Inc4 Xor Or And ShR ShL uint32]; intros;
    repeat match goal with H : _ ∧ _ |- _ => destruct H as [-> ?] end; try done;
    (split; [try done; try sum32|]); try apply word_T32; try word_solve.
Qed.

(** A vector represents the word in its lane [k]. *)
Definition in_lane {n : nat} (k : nat) (x : vec n) (a : Z) : Prop :=
  length (lane_list x) = n ∧ lane_list x @@ k = a ∧ word 32 a.

Lemma in_lane_fmap {n} k (f : Z → Z) (x : vec n) a :
  (k < n)%nat → in_lane k x a → word 32 (f a) → in_lane k (@mk_vec n (f <$> lane_list x)) (f a).
Proof.
  intros Hk (Hx & <- & Ha) Hw. unfold in_lane. cbn [lane_list]. split; [by rewrite length_fmap|]. split; [|done].
  apply at_lookup. rewrite list_lookup_fmap, lookup_at by lia. done.
Qed.

Lemma in_lane_zip {n} k (f : Z → Z → Z) (x y : vec n) a b :
  (k < n)%nat → in_lane k x a → in_lane k y b → word 32 (f a b) → in_lane k (lanewise f x y) (f a b).
Proof.
  intros Hk (Hx & <- & Ha) (Hy & <- & Hb) Hw. unfold lanewise. split; [|split; [|done]]; cbn [lane_list].
  - rewrite length_zip_with. lia.
  - apply at_lookup. rewrite lookup_zip_with, !lookup_at by lia. done.
Qed.

Lemma in_lane_add {n} k (x y : vec n) a b :
  (k < n)%nat → in_lane k x a → in_lane k y b → in_lane k (vec_add x y) (SPH_T32 (a + b)).
Proof. intros. apply (in_lane_zip k add32); [done..|apply word_T32]. Qed.

Lemma vector_laws n k : (k < n)%nat → Word32Laws (@in_lane n k).
Proof.
  intros Hk. split; cbn [K Add Add3 Add4 Add5 Inc3 Inc4 Xor Or And ShR ShL vector]; intros.
  - by destruct H as (_ & _ & ?).
  - split; [apply length_replicate|]. split; [|done]. cbn [lane_list]. apply at_lookup. by apply lookup_replicate_2.
  - by apply in_lane_add.
  - eapply rep_eq; [repeat first [eassumption|apply in_lane_add; [done| |]]|]. sum32.
  - eapply rep_eq; [repeat first [eassumption|apply in_lane_add; [done| |]]|]. sum32.
  - eapply rep_eq; [repeat first [eassumption|apply in_lane_add; [done| |]]|]. sum32.
  - eapply rep_eq; [repeat first [eassumption|apply in_lane_add; [done| |]]|]. sum32.
  - eapply rep_eq; [repeat first [eassumption|apply in_lane_add; [done| |]]|]. sum32.
  - apply (in_lane_zip k _); [done..|]. destruct H as (_ & _ & ?), H0 as (_ & _ & ?). word_solve.
  - apply (in_lane_zip k _); [done..|]. destruct H as (_ & _ & ?), H0 as (_ & _ & ?). word_solve.
  - apply (in_lane_zip k _); [done..|]. destruct H as (_ & _ & ?), H0 as (_ & _ & ?). word_solve.
  - apply (in_lane_fmap k (λ a, a ≫ n0)); [done..|]. destruct H as (_ & _ & ?). apply word_shiftr; (done || lia).
  - apply (in_lane_fmap k (λ a, SPH_T32 (a ≪ n0))); [done..|]. apply word_T32.
Qed.


(** ** The rounds, over any instance *)

Section Correct.
Context {T : Type} `{Word32 T} (rep : T → Z → Prop) `{!Word32Laws rep}.

Lemma rep_var v r i : Forall2 rep v r → rep (var v i) (r @@ i).
Proof.
  intros Hv. unfold var, at_. revert i. induction Hv as [|x a v r Hx Hv IH]; intros [|i]; cbn [nth]; try done.
  - apply rep_K. split; lia.
  - apply rep_K. split; lia.
Qed.

Lemma rep_Sigma0 x a : rep x a → rep (Sigma0 x) (fips_Sigma0 a).
Proof.
  intros Hx. pose proof (rep_word x a Hx). unfold Sigma0, Xor3, fips_Sigma0.
  eapply rep_eq; [rep_solve|]. by rewrite !(rotr_shifts a) by (done || lia).
Qed.
Lemma rep_Sigma1 x a : rep x a → rep (Sigma1 x) (fips_Sigma1 a).
Proof.
  intros Hx. pose proof (rep_word x a Hx). unfold Sigma1, Xor3, fips_Sigma1.
  eapply rep_eq; [rep_solve|]. by rewrite !(rotr_shifts a) by (done || lia).
Qed.
Lemma rep_sigma0 x a : rep x a → rep (sigma0 x) (fips_sigma0 a).
Proof.
  intros Hx. pose proof (rep_word x a Hx). unfold sigma0, Xor3, fips_sigma0.
  eapply rep_eq; [rep_solve|]. by rewrite !(rotr_shifts a) by (done || lia).
Qed.
Lemma rep_sigma1 x a : rep x a → rep (sigma1 x) (fips_sigma1 a).
Proof.
  intros Hx. pose proof (rep_word x a Hx). unfold sigma1, Xor3, fips_sigma1.
  eapply rep_eq; [rep_solve|]. by rewrite !(rotr_shifts a) by (done || lia).
Qed.
Lemma rep_Ch x y z a b c : rep x a → rep y b → rep z c → rep (Ch x y z) (fips_Ch a b c).
Proof.
  intros Hx Hy Hz. eapply rep_eq; [unfold Ch; rep_solve|].
  apply Ch_fips; eapply rep_word; eassumption.
Qed.
Lemma rep_Maj x y z a b c : rep x a → rep y b → rep z c → rep (Maj x y z) (fips_Maj a b c).
Proof.
  intros Hx Hy Hz. eapply rep_eq; [unfold Maj; rep_solve|].
  apply Maj_fips; eapply rep_word; eassumption.
Qed.

(** The variables in the order of the arguments of call [i]. *)
Definition rotated (i : nat) (v : list T) : list T := (λ j, var v (argument i j)) <$> seq 0 8.

(** Only the remainder of [i] by 8 counts. *)
Lemma argument_mod i i' j : (i mod 8 = i' mod 8)%nat → argument i j = argument i' j.
Proof. unfold argument. by intros ->. Qed.

Lemma rotated_mod i i' v : (i mod 8 = i' mod 8)%nat → rotated i v = rotated i' v.
Proof. intros E. apply list_fmap_ext. intros ? j _. by rewrite (argument_mod i i'). Qed.

Lemma round_call_mod i i' k v : (i mod 8 = i' mod 8)%nat → round_call i k v = round_call i' k v.
Proof. intros E. unfold round_call. cbv zeta. by rewrite !(argument_mod i i' _ E). Qed.

Lemma rotated_call i k v :
  length v = 8%nat →
  rotated (S i) (round_call i k v) =
  let x := var (rotated i v) in
  let '(d, h) := Round (x 0%nat) (x 1%nat) (x 2%nat) (x 3%nat) (x 4%nat) (x 5%nat) (x 6%nat) (x 7%nat) k in
  [h; x 0%nat; x 1%nat; x 2%nat; d; x 4%nat; x 5%nat; x 6%nat].
Proof.
  intros Hv. assert (E : (i mod 8 = (i mod 8) mod 8)%nat) by (by rewrite Nat.Div0.mod_mod).
  rewrite (round_call_mod i _ _ _ E), (rotated_mod i _ _ E).
  rewrite (rotated_mod (S i) (S (i mod 8))) by (rewrite <-(Nat.add_1_r i), <-(Nat.add_1_r (i mod 8)), (Nat.Div0.add_mod (i mod 8)), Nat.Div0.mod_mod; apply Nat.Div0.add_mod).
  pose proof (Nat.mod_upper_bound i 8 ltac:(lia)) as Hi. clear E. generalize dependent (i mod 8)%nat. clear i. intros i Hi.
  do 8 (destruct v as [|? v]; [done|]). destruct v; [|done].
  do 8 (destruct i as [|i]; [reflexivity|]). lia.
Qed.

Lemma round_rep i k v r kt wt :
  length v = 8%nat → Forall2 rep (rotated i v) r → rep k (SPH_T32 (kt + wt)) →
  Forall2 rep (rotated (S i) (round_call i k v)) (hash_round kt wt r).
Proof.
  intros Hv Hr Hk. rewrite rotated_call by done.
  assert (Hl : length r = 8%nat) by (rewrite <-(Forall2_length Hr); unfold rotated; by rewrite length_fmap).
  do 8 (destruct r as [|? r]; [done|]). destruct r; [|done].
  assert (Hx : ∀ j, rep (var (rotated i v) j) ([z; z0; z1; z2; z3; z4; z5; z6] @@ j)) by (intros j; by apply rep_var).
  unfold Round. cbn [hash_round].
  assert (HT1 : rep (Add4 (var (rotated i v) 7) (Sigma1 (var (rotated i v) 4))
    (Ch (var (rotated i v) 4) (var (rotated i v) 5) (var (rotated i v) 6)) k)
    (SPH_T32 (z6 + fips_Sigma1 z3 + fips_Ch z3 z4 z5 + kt + wt))).
  { eapply rep_eq; [apply rep_Add4; [apply (Hx 7%nat)|apply rep_Sigma1, (Hx 4%nat)|
      apply rep_Ch; [apply (Hx 4%nat)|apply (Hx 5%nat)|apply (Hx 6%nat)]|exact Hk]|].
    cbn [at_ nth]. sum32. }
  assert (HT2 : rep (Add (Sigma0 (var (rotated i v) 0)) (Maj (var (rotated i v) 0) (var (rotated i v) 1) (var (rotated i v) 2)))
    (SPH_T32 (fips_Sigma0 z + fips_Maj z z0 z1))).
  { apply rep_Add; [apply rep_Sigma0, (Hx 0%nat)|apply rep_Maj; [apply (Hx 0%nat)|apply (Hx 1%nat)|apply (Hx 2%nat)]]. }
  repeat apply Forall2_cons_2; try apply Forall2_nil_2; try exact (Hx _);
    try (exact (Hx 0%nat) || exact (Hx 1%nat) || exact (Hx 2%nat) || exact (Hx 4%nat) || exact (Hx 5%nat) || exact (Hx 6%nat)).
  - eapply rep_eq; [apply rep_Add; [exact HT1|exact HT2]|]. sum32.
  - eapply rep_eq; [apply rep_Add; [exact (Hx 3%nat)|exact HT1]|]. cbn [at_ nth]. sum32.
Qed.
End Correct.


(** ** The message schedule *)

Lemma at_snoc (l : list Z) x : (l ++ [x]) @@ length l = x.
Proof. unfold at_. by rewrite app_nth2, Nat.sub_diag by lia. Qed.

Lemma message_schedule_spec M :
  length M = 16%nat →
  let W := message_schedule M in
  length W = 64%nat ∧ (∀ t, (t < 16)%nat → W @@ t = M @@ t) ∧
  ∀ t, (16 <= t < 64)%nat →
    W @@ t = SPH_T32 (fips_sigma1 (W @@ (t - 2)) + W @@ (t - 7) + fips_sigma0 (W @@ (t - 15)) + W @@ (t - 16)).
Proof.
  intros HM W. unfold W, message_schedule. clear W.
  change 64%nat with (16 + 48)%nat. generalize 48%nat. intros n.
  induction n as [|n IH]; [split; [exact HM|]; split; intros; (reflexivity || lia)|].
  rewrite Nat.iter_succ. destruct IH as (Hl & Hlow & Hnext).
  set (W := Nat.iter n (λ W, W ++ [next_word W]) M) in *.
  split; [rewrite length_app; cbn [length]; lia|]. split; intros t Ht.
  - rewrite at_app_l by lia. by apply Hlow.
  - rewrite (at_app_l W _ (t - 2)), (at_app_l W _ (t - 7)), (at_app_l W _ (t - 15)), (at_app_l W _ (t - 16)) by lia.
    destruct (decide (t = length W)) as [->|Hne].
    + rewrite at_snoc. reflexivity.
    + rewrite at_app_l by lia. apply Hnext. lia.
Qed.

Section Calls.
Context {T : Type} `{Word32 T} (rep : T → Z → Prop) `{!Word32Laws rep}.

(** The 64 calls compute the rounds of the standard when each last argument
    represents the sum of the constant and the word of the schedule; [P] is the
    invariant of the variables [w]. *)
Lemma calls_rep (P : nat → list T → Prop) args W v w r :
  (∀ i w, (i < 64)%nat → P i w →
    rep (fst (args i w)) (SPH_T32 (K256 @@ i + W @@ i)) ∧ P (S i) (snd (args i w))) →
  P 0%nat w → Forall2 rep v r → length r = 8%nat →
  Forall2 rep (fst (calls args v w)) (hash_rounds W r) ∧ P 64%nat (snd (calls args v w)).
Proof.
  intros Hargs Hw Hv Hr.
  assert (Hlv : length v = 8%nat) by (by rewrite (Forall2_length Hv)).
  assert (Hrot : ∀ i v, length v = 8%nat → (i mod 8 = 0)%nat → rotated i v = v).
  { intros i u Hu Hi. rewrite (rotated_mod i 0) by done.
    do 8 (destruct u as [|? u]; [done|]). by destruct u. }
  assert (G : ∀ n, (n <= 64)%nat →
    let st := fold_left (λ '(v, w) i, let '(k, w) := args i w in (round_call i k v, w)) (seq 0 n) (v, w) in
    length (fst st) = 8%nat ∧ P n (snd st) ∧
    Forall2 rep (rotated n (fst st)) (fold_left (λ r t, hash_round (K256 @@ t) (W @@ t) r) (seq 0 n) r)).
  { induction n as [|n IH]; intros Hn; [cbn [seq fold_left fst snd]; by rewrite Hrot|].
    specialize (IH ltac:(lia)). rewrite seq_S, !fold_left_app. cbn [fold_left Nat.add].
    destruct (fold_left _ (seq 0 n) (v, w)) as [vn wn]. cbn [fst snd] in IH. destruct IH as (Hl & HP & HR).
    destruct (Hargs n wn ltac:(lia) HP) as [Hk HP']. destruct (args n wn) as [k w']. cbn [fst snd] in *.
    split; [unfold round_call; destruct (Round _ _ _ _ _ _ _ _ _); by rewrite !length_insert|].
    split; [done|]. by apply (round_rep rep). }
  destruct (G 64%nat ltac:(lia)) as (Hl & HP & HR). rewrite Hrot in HR by done. exact (conj HR HP).
Qed.

(** The variables [w0] to [w15] hold the last words of the schedule, from call
    16 on; [P i] is what holds before call [i]. *)
Definition window (W : list Z) (i : nat) (w : list T) : Prop :=
  length w = Nat.min i 16 ∧
  ∀ t, (i - 16 <= t < Nat.min i 62)%nat → rep (var w (t mod 16)) (W @@ t).

Lemma mod16 i j : (i mod 16 < 16)%nat ∧ ((i + j) mod 16 = i mod 16 → (j < 16)%nat → j = 0%nat)%nat.
Proof.
  split; [apply Nat.mod_upper_bound; lia|]. intros E Hj.
  pose proof (Nat.div_mod_eq (i + j) 16). pose proof (Nat.div_mod_eq i 16). nia.
Qed.

Lemma var_insert (w : list T) i j x :
  (i < length w)%nat → var (<[i := x]> w) j = if decide (i = j) then x else var w j.
Proof.
  intros Hi. unfold var. destruct (decide (i = j)) as [->|Hne].
  - apply nth_lookup_Some. by rewrite list_lookup_insert_eq.
  - by rewrite !nth_lookup, list_lookup_insert_ne.
Qed.

Lemma window_at W i w j :
  window W i w → (16 <= i)%nat → (j < 16)%nat → (i - 16 + j < 62)%nat →
  rep (var w ((i + j) mod 16)) (W @@ (i - 16 + j)).
Proof.
  intros [_ Hw] Hi Hj Hlt. replace ((i + j) mod 16)%nat with ((i - 16 + j) mod 16)%nat.
  - apply Hw. lia.
  - replace (i + j)%nat with (i - 16 + j + 1 * 16)%nat by lia. by rewrite Nat.Div0.mod_add.
Qed.

(** Storing word [i] moves the window. *)
Lemma window_insert W i w y :
  window W i w → (16 <= i < 62)%nat → rep y (W @@ i) → window W (S i) (<[(i mod 16)%nat := y]> w).
Proof.
  intros [Hl Hw] Hi Hy. split; [rewrite length_insert; lia|]. intros t Ht.
  rewrite var_insert by (rewrite Hl, Nat.min_r by lia; apply Nat.mod_upper_bound; lia).
  destruct (decide (i mod 16 = t mod 16)%nat) as [E|E].
  - destruct (decide (t = i)) as [->|Hne]; [done|]. exfalso.
    pose proof (proj2 (mod16 t (i - t))) as F. replace (t + (i - t))%nat with i in F by lia.
    specialize (F E ltac:(lia)). lia.
  - apply Hw. split; [lia|]. destruct (decide (t = i)) as [->|]; [done|lia].
Qed.

Section Schedule.
Context (M : list Z) (HM : length M = 16%nat).
Let W := message_schedule M.

Lemma general_rep i w :
  window W i w → (16 <= i < 64)%nat →
  rep (fst (general_args i w)) (SPH_T32 (K256 @@ i + W @@ i)) ∧ window W (S i) (snd (general_args i w)).
Proof.
  intros Hw Hi. destruct (message_schedule_spec M HM) as (_ & _ & Hnext). fold W in Hnext.
  assert (HK : word 32 (K256 @@ i)).
  { apply words_at; [lia|]. apply (bool_decide_unpack _). vm_compute. exact I. }
  assert (Hx : ∀ j, (j < 16)%nat → (i - 16 + j < 62)%nat → rep (var w ((i + j) mod 16)) (W @@ (i - 16 + j)))
    by (intros; by apply window_at; try lia).
  rewrite (Hnext i) by lia.
  replace (i - 2)%nat with (i - 16 + 14)%nat by lia. replace (i - 7)%nat with (i - 16 + 9)%nat by lia.
  replace (i - 15)%nat with (i - 16 + 1)%nat by lia. replace (W @@ (i - 16)) with (W @@ (i - 16 + 0)) by (f_equal; lia).
  unfold general_args. cbn zeta. destruct (Nat.ltb_spec i 62) as [Hlt|Hge]; cbn [fst snd].
  - assert (Hy : rep (Inc4 (var w ((i + 0) mod 16)) (sigma1 (var w ((i + 14) mod 16))) (var w ((i + 9) mod 16))
      (sigma0 (var w ((i + 1) mod 16))))
      (SPH_T32 (fips_sigma1 (W @@ (i - 16 + 14)) + W @@ (i - 16 + 9) + fips_sigma0 (W @@ (i - 16 + 1)) + W @@ (i - 16 + 0)))).
    { eapply rep_eq; [apply rep_Inc4; [apply Hx|apply (rep_sigma1 rep), Hx|apply Hx|apply (rep_sigma0 rep), Hx]; lia|]. sum32. }
    split; [by apply rep_Add; [apply rep_K|]|]. apply window_insert; [done|lia|].
    rewrite (Hnext i) by lia. replace (i - 2)%nat with (i - 16 + 14)%nat by lia. replace (i - 7)%nat with (i - 16 + 9)%nat by lia.
    replace (i - 15)%nat with (i - 16 + 1)%nat by lia. by replace (W @@ (i - 16)) with (W @@ (i - 16 + 0)) by (f_equal; lia).
  - split.
    + eapply rep_eq; [apply rep_Add5; [by apply rep_K|apply Hx|apply (rep_sigma1 rep), Hx|apply Hx|apply (rep_sigma0 rep), Hx]; lia|].
      sum32.
    + destruct Hw as [Hl Hw]. split; [lia|]. intros t Ht. apply Hw. lia.
Qed.

Lemma block_rep read v r :
  (∀ i, (i < 16)%nat → rep (read (4 * i)%nat) (M @@ i)) → Forall2 rep v r → length r = 8%nat →
  let '(v', w') := calls (block_args read) v [] in
  Forall2 rep v' (hash_rounds W r) ∧ length w' = 16%nat.
Proof.
  intros Hread Hv Hr. destruct (message_schedule_spec M HM) as (_ & Hlow & _). fold W in Hlow.
  destruct (calls_rep (window W) (block_args read) W v [] r) as [H1 [H2 _]]; [|split; [done|intros; lia]|done..|].
  - intros i w Hi Hw. unfold block_args. destruct (Nat.ltb_spec i 16) as [Hlt|Hge]; [|apply general_rep; (done || lia)].
    cbn [fst snd]. split.
    + apply rep_Add; [apply rep_K|rewrite Hlow by done; by apply Hread].
      apply words_at; [lia|]. apply (bool_decide_unpack _). vm_compute. exact I.
    + destruct Hw as [Hl Hw]. split; [rewrite length_app; cbn [length]; lia|]. intros t Ht.
      rewrite Nat.mod_small by lia. unfold var. destruct (decide (t = i)) as [->|Hne].
      * rewrite app_nth2, Hl by lia. replace (i - Nat.min i 16)%nat with 0%nat by lia. cbn [nth].
        rewrite Hlow by done. by apply Hread.
      * rewrite app_nth1 by lia. specialize (Hw t ltac:(lia)). by rewrite Nat.mod_small in Hw by lia.
  - destruct (calls _ v []) as [v' w']. exact (conj H1 H2).
Qed.
End Schedule.
End Calls.


(** ** The second and the third transform of the double hash *)

(** The padding of a message of 64 bytes, and of one of 32 bytes. *)
Definition padding_64 : list Z := 0x80000000 :: replicate 14 0 ++ [512].
Definition padding_32 : list Z := 0x80000000 :: replicate 6 0 ++ [256].

Lemma K256_words i : word 32 (K256 @@ i).
Proof. apply words_at; [lia|]. apply (bool_decide_unpack _). vm_compute. exact I. Qed.

Section Fixed.
Context {T : Type} `{Word32 T} (rep : T → Z → Prop) `{!Word32Laws rep}.

Lemma padding_rep v w r :
  Forall2 rep v r → length r = 8%nat →
  let '(v', w') := calls padding_args v w in
  Forall2 rep v' (hash_rounds (message_schedule padding_64) r) ∧ w' = w.
Proof.
  intros Hv Hr.
  assert (F : Forall (λ i, K256_padding @@ i = SPH_T32 (K256 @@ i + message_schedule padding_64 @@ i)) (seq 0 64))
    by (apply (bool_decide_unpack _); vm_compute; exact I).
  destruct (calls_rep rep (λ _ w', w' = w) padding_args (message_schedule padding_64) v w r) as [H1 H2]; [|done..|].
  - intros i w' Hi ->. rewrite Forall_seq in F. specialize (F i ltac:(lia)). cbn [fst snd padding_args].
    split; [|done]. rewrite F. apply rep_K, word_T32.
  - destruct (calls _ v w) as [v' w']. exact (conj H1 H2).
Qed.

Section Digest.
Context (D : list Z) (HD : length D = 8%nat).
Let M := D ++ padding_32.
Let W := message_schedule M.

Lemma digest_message : length M = 16%nat ∧ (∀ t, (t < 8)%nat → W @@ t = D @@ t) ∧
  ∀ t, (8 <= t < 16)%nat → W @@ t = padding_32 @@ (t - 8).
Proof.
  assert (HM : length M = 16%nat) by (unfold M; by rewrite length_app, HD).
  destruct (message_schedule_spec M HM) as (_ & Hlow & _). fold W in Hlow.
  split; [done|]. split; intros t Ht; rewrite Hlow by lia; unfold M, at_.
  - apply app_nth1. lia.
  - rewrite app_nth2, HD by lia. done.
Qed.

(** As [window], except that [w8] to [w15] are not stored before call 24. *)
Definition digest_window (i : nat) (w : list T) : Prop :=
  length w = 16%nat ∧
  ∀ t, (i - 16 <= t < Nat.max 8 (Nat.min i 62))%nat → (t < 8 ∨ 16 <= t)%nat → rep (var w (t mod 16)) (W @@ t).

Lemma fixed_values :
  fips_sigma1 0 = 0 ∧ fips_sigma0 0 = 0 ∧ fips_sigma1 0x100 = 0xa00000 ∧
  fips_sigma0 0x80000000 = 0x11002000 ∧ fips_sigma0 0x100 = 0x400022.
Proof. by vm_compute. Qed.

Ltac fixed_operand Hw :=
  lazymatch goal with
  | |- rep (var _ ?n) _ =>
      first [exact (Hw n ltac:(lia) ltac:(lia)) | exact (Hw (16 + n)%nat ltac:(lia) ltac:(lia))]
  end.

Lemma fixed_rep i w : digest_window i w → (16 <= i < 32)%nat → rep (fixed_update i w) (W @@ i).
Proof.
  intros [Hl Hw] Hi. destruct digest_message as (HM & _ & Hpad).
  destruct (message_schedule_spec M HM) as (_ & _ & Hnext). fold W in Hnext.
  destruct fixed_values as (F1 & F2 & F3 & F4 & F5).
  assert (Hp : W @@ 8 = 0x80000000 ∧ W @@ 9 = 0 ∧ W @@ 10 = 0 ∧ W @@ 11 = 0 ∧ W @@ 12 = 0 ∧ W @@ 13 = 0 ∧
    W @@ 14 = 0 ∧ W @@ 15 = 0x100) by (repeat split; rewrite Hpad by lia; done).
  destruct Hp as (P8 & P9 & P10 & P11 & P12 & P13 & P14 & P15).
  rewrite (Hnext i) by lia. replace i with (16 + (i - 16))%nat by lia.
  assert (Hc : (i - 16 < 16)%nat) by lia. replace i with (16 + (i - 16))%nat in Hw by lia.
  set (c := (i - 16)%nat) in *. clearbody c. clear Hi Hnext Hpad i.
  do 16 (destruct c as [|c]; [
    unfold fixed_update; cbv [Nat.add Nat.sub]; cbv [Nat.add Nat.sub Nat.min Nat.max] in Hw;
    rewrite ?P8, ?P9, ?P10, ?P11, ?P12, ?P13, ?P14, ?P15, ?F1, ?F2, ?F3, ?F4, ?F5;
    (eapply rep_eq; [repeat first [fixed_operand Hw | eapply rep_Add | eapply rep_Add3 | eapply rep_Add4
      | eapply rep_Inc3 | eapply rep_Inc4 | eapply (rep_sigma0 rep) | eapply (rep_sigma1 rep) | eapply rep_K; split; lia]|]);
    cbv [Nat.add]; sum32|]).
  lia.
Qed.

Lemma digest_rep v w r :
  length w = 16%nat → (∀ i, (i < 8)%nat → rep (var w i) (D @@ i)) → Forall2 rep v r → length r = 8%nat →
  Forall2 rep (fst (calls digest_args v w)) (hash_rounds W r).
Proof.
  intros Hlw HwD Hv Hr. destruct digest_message as (HM & Hlow & Hpad).
  refine (proj1 (calls_rep rep digest_window digest_args W v w r _ _ Hv Hr)).
  - intros i u Hi Hu. unfold digest_args.
    destruct (Nat.ltb_spec i 8) as [H8|H8]; [|destruct (Nat.ltb_spec i 16) as [H16|H16];
      [|destruct (Nat.ltb_spec i 32) as [H32|H32]]]; cbn [fst snd].
    + destruct Hu as [Hl Hu]. split.
      * apply rep_Add; [apply rep_K, K256_words|]. specialize (Hu i ltac:(lia) ltac:(lia)).
        by rewrite Nat.mod_small in Hu by lia.
      * split; [done|]. intros t Ht Ht'. apply Hu; lia.
    + destruct Hu as [Hl Hu]. split.
      * rewrite (Hpad i) by lia. replace i with (8 + (i - 8))%nat at 2 by lia.
        assert (F : Forall (λ j, K256_fixed @@ j = SPH_T32 (K256 @@ (8 + j) + padding_32 @@ j)) (seq 0 8))
          by (apply (bool_decide_unpack _); vm_compute; exact I).
        rewrite Forall_seq in F. rewrite (F (i - 8)%nat) by lia. apply rep_K, word_T32.
      * split; [done|]. intros t Ht Ht'. apply Hu; lia.
    + pose proof (fixed_rep i u Hu ltac:(lia)) as Hy.
      split; [apply rep_Add; [apply rep_K, K256_words|done]|].
      destruct Hu as [Hl Hu]. split; [by rewrite length_insert|]. intros t Ht Ht'.
      rewrite var_insert by (rewrite Hl; apply Nat.mod_upper_bound; lia).
      destruct (decide (i mod 16 = t mod 16)%nat) as [E|E].
      * destruct (decide (t = i)) as [->|Hne]; [done|]. exfalso.
        pose proof (proj2 (mod16 t (i - t))) as F. replace (t + (i - t))%nat with i in F by lia.
        specialize (F E ltac:(lia)). lia.
      * apply Hu; [|done]. split; [lia|]. destruct (decide (t = i)) as [->|]; [done|lia].
    + destruct (general_rep rep M HM i u) as [G1 [G2 G3]]; [|lia|].
      * destruct Hu as [Hl Hu]. split; [lia|]. intros t Ht. apply Hu; lia.
      * split; [exact G1|]. split; [rewrite G2; lia|]. intros t Ht Ht'. apply G3. lia.
  - split; [done|]. intros t Ht Ht'. rewrite Nat.mod_small, Hlow by lia. apply HwD. lia.
Qed.
End Digest.
End Fixed.


(** ** The double hash of 64 bytes *)

Definition add_hash (H W : list Z) : list Z := zip_with add32 H (hash_rounds W H).
Definition double_words (M : list Z) : list Z :=
  let H1 := add_hash Initialize (message_schedule M) in
  let H2 := add_hash H1 (message_schedule padding_64) in
  add_hash Initialize (message_schedule (H2 ++ padding_32)).

Lemma length_hash_round k w r : length r = 8%nat → length (hash_round k w r) = 8%nat.
Proof. intros Hr. do 8 (destruct r as [|? r]; [done|]). by destruct r. Qed.

Lemma length_hash_rounds W r : length r = 8%nat → length (hash_rounds W r) = 8%nat.
Proof.
  intros Hr. unfold hash_rounds. generalize (seq 0 64). intros l. revert r Hr.
  induction l as [|t l IH]; intros r Hr; [done|]. apply IH. by apply length_hash_round.
Qed.

#[local] Opaque hash_rounds message_schedule.

Lemma length_add_hash H W : length H = 8%nat → length (add_hash H W) = 8%nat.
Proof. intros HH. unfold add_hash. rewrite length_zip_with, length_hash_rounds by done. lia. Qed.

Lemma words_add32 (l k : list Z) : words 32 (zip_with add32 l k).
Proof.
  revert k. induction l as [|x l IH]; intros [|y k]; try apply Forall_nil_2.
  apply Forall_cons_2; [apply word_T32|apply IH].
Qed.

Lemma words_add_hash H W : words 32 (add_hash H W).
Proof. apply words_add32. Qed.

Lemma add32_comm (l k : list Z) : zip_with add32 l k = zip_with add32 k l.
Proof.
  revert k. induction l as [|x l IH]; intros [|y k]; [done..|]. cbn [zip_with]. rewrite IH.
  f_equal. unfold add32. by rewrite Z.add_comm.
Qed.

Section Double.
Context {T : Type} `{Word32 T} (rep : T → Z → Prop) `{!Word32Laws rep}.

Lemma zip_Add_rep v r u q :
  Forall2 rep v r → Forall2 rep u q → Forall2 rep (zip_with Add v u) (zip_with add32 r q).
Proof.
  intros Hv. revert u q. induction Hv as [|x a v r Hx Hv IH]; intros u q Hu; [constructor|].
  destruct Hu as [|y b u q Hy Hu]; constructor; [by apply rep_Add|by apply IH].
Qed.

Lemma Initialize_rep : Forall2 rep (K <$> Initialize) Initialize.
Proof.
  assert (F : words 32 Initialize) by (apply (bool_decide_unpack _); vm_compute; exact I).
  induction F as [|c l Hc F IH]; [constructor|]. constructor; [by apply rep_K|exact IH].
Qed.

Lemma double_hash_rep read M :
  length M = 16%nat → (∀ i, (i < 16)%nat → rep (read (4 * i)%nat) (M @@ i)) →
  Forall2 rep (double_hash read) (double_words M).
Proof.
  intros HM Hread. unfold double_hash, double_words.
  pose proof Initialize_rep as HI.
  pose proof (block_rep rep M HM read _ _ Hread HI eq_refl) as B.
  destruct (calls (block_args read) (K <$> Initialize) []) as [v1 w1]. destruct B as [Hv1 Hw1].
  set (H1 := add_hash Initialize (message_schedule M)).
  assert (HH1 : length H1 = 8%nat) by (by apply length_add_hash).
  assert (Ht : Forall2 rep (zip_with Add v1 (K <$> Initialize)) H1)
    by (unfold H1, add_hash; rewrite add32_comm; by apply zip_Add_rep).
  pose proof (padding_rep rep _ w1 H1 Ht HH1) as B.
  destruct (calls padding_args _ w1) as [v2 w2]. destruct B as [Hv2 ->].
  set (H2 := add_hash H1 (message_schedule padding_64)).
  assert (HH2 : length H2 = 8%nat) by (by apply length_add_hash).
  assert (Hd : Forall2 rep (zip_with Add (zip_with Add v1 (K <$> Initialize)) v2) H2) by (by apply zip_Add_rep).
  pose proof (digest_rep rep H2 HH2 (K <$> Initialize) (zip_with Add (zip_with Add v1 (K <$> Initialize)) v2 ++ drop 8 w1)
    Initialize) as B.
  destruct (calls digest_args _ _) as [v3 w3]. cbn [fst] in B.
  unfold add_hash. rewrite add32_comm. apply zip_Add_rep; [|done]. apply B; [| |done|done].
  - rewrite length_app, (Forall2_length Hd), HH2, length_drop. lia.
  - intros i Hi. unfold var. rewrite app_nth1 by (rewrite (Forall2_length Hd); lia). by apply (rep_var rep).
Qed.
End Double.

(** ** The double hash by the definition *)

Lemma length_digest H : length (digest H) = (4 * length H)%nat.
Proof. apply length_concat_map. done. Qed.

Lemma bytes_digest H : bytes (digest H).
Proof.
  unfold digest. induction H as [|x H IH]; [apply Forall_nil_2|].
  cbn [fmap list_fmap concat]. apply Forall_app_2; [apply bytes_enc32be|exact IH].
Qed.

Lemma length_words_of b : length (words_of b) = 16%nat.
Proof. unfold words_of. by rewrite length_fmap. Qed.

Lemma words_of_digest H tail :
  length H = 8%nat → words 32 H → length tail = 32%nat →
  words_of (digest H ++ tail) = H ++ ((λ i, sph_dec32be (drop (4 * i) tail)) <$> seq 0 8).
Proof.
  intros HH Hw Ht. do 8 (destruct H as [|? H]; [done|]). destruct H; [|done].
  words_inv.
  do 8 (destruct tail as [|? tail]; [done|]).
  unfold words_of, digest. cbn [fmap list_fmap concat seq app].
  do 8 (f_equal; try match goal with Hx : word 32 ?x |- _ = ?x => exact (dec_enc32be x Hx) end).
Qed.

Lemma compress_ok b H : length H = 8%nat → length (compress b H) = 8%nat ∧ words 32 (compress b H).
Proof. intros HH. split; [by apply length_add_hash|apply words_add32]. Qed.

Lemma sha256_two b :
  length b = 64%nat → sha256 b = digest (compress (sha256_padding 64) (compress b Initialize)).
Proof. intros Hb. unfold sha256. rewrite Hb. by rewrite full_blocks_two by (done || lia). Qed.

Lemma sha256_one m : length m = 32%nat → sha256 m = digest (compress (m ++ sha256_padding 32) Initialize).
Proof.
  intros Hm. unfold sha256. rewrite Hm.
  rewrite full_blocks_one; [done|lia|]. rewrite length_app, Hm. by vm_compute.
Qed.

Lemma sha256_64 b :
  length b = 64%nat → sha256 b = digest (add_hash (compress b Initialize) (message_schedule padding_64)).
Proof.
  intros Hb. rewrite sha256_two by done. unfold compress at 1.
  replace (words_of (sha256_padding 64)) with padding_64 by by vm_compute. reflexivity.
Qed.

Lemma sha256_digest H :
  length H = 8%nat → words 32 H →
  sha256 (digest H) = digest (add_hash Initialize (message_schedule (H ++ padding_32))).
Proof.
  intros HH Hw. rewrite sha256_one by by rewrite length_digest, HH.
  unfold compress. rewrite words_of_digest by done.
  replace ((λ i, sph_dec32be (drop (4 * i) (sha256_padding 32))) <$> seq 0 8) with padding_32 by by vm_compute.
  reflexivity.
Qed.

Lemma sha256d_64 b : length b = 64%nat → sha256d b = digest (double_words (words_of b)).
Proof.
  intros Hb. unfold sha256d. rewrite (sha256_64 b Hb).
  refine (sha256_digest _ (length_add_hash _ _ (proj1 (compress_ok b Initialize eq_refl))) (words_add_hash _ _)).
Qed.

Lemma compress_eq b H : compress b H = zip_with add32 H (hash_rounds (message_schedule (words_of b)) H).
Proof. reflexivity. Qed.

#[local] Opaque add_hash compress.

Lemma length_sha256 m : length (sha256 m) = 32%nat.
Proof.
  unfold sha256. rewrite length_digest.
  enough (E : ∀ bs H, length H = 8%nat → length (run compress bs H) = 8%nat) by (by rewrite E).
  intros bs. induction bs as [|b bs IH]; intros H HH; [done|]. apply IH. by apply compress_ok.
Qed.

Lemma bytes_sha256 m : bytes (sha256 m).
Proof. apply bytes_digest. Qed.


(** ** What the function pointers promise *)

Definition blocks_of (mem : list Z) (inp n : nat) : list (list Z) :=
  (λ m, take 64 (drop (inp + 64 * m) mem)) <$> seq 0 n.
Definition transform_ok (tr : TransformType) : Prop :=
  ∀ H chunk blocks, length H = 8%nat → words 32 H → bytes chunk → (64 * blocks <= length chunk)%nat →
    tr H chunk blocks = run compress (blocks_of chunk 0 blocks) H.
Definition double_ok (n : nat) (f : TransformD64Type) : Prop :=
  ∀ mem out inp, bytes mem → (inp + 64 * n <= length mem)%nat → (out + 32 * n <= length mem)%nat →
    f mem out inp = memcpy mem out (concat (sha256d <$> blocks_of mem inp n)).
Record impl_ok (im : Impl) : Prop := {
  ok_transform : transform_ok (Transform im);
  ok_double : double_ok 1 (TransformD64 im);
  ok_2way f : TransformD64_2way im = Some f → double_ok 2 f;
  ok_4way f : TransformD64_4way im = Some f → double_ok 4 f;
  ok_8way f : TransformD64_8way im = Some f → double_ok 8 f }.

Lemma ReadBE32_dec src : bytes src → (4 <= length src)%nat → ReadBE32 src = sph_dec32be src.
Proof. apply dec32be_aligned_eq. Qed.

Lemma WriteBE32_enc x : word 32 x → WriteBE32 x = sph_enc32be x.
Proof. apply enc32be_aligned_eq. Qed.

Lemma words_of_at b i : (i < 16)%nat → words_of b @@ i = sph_dec32be (drop (4 * i) b).
Proof. intros. unfold words_of. by rewrite at_fmap_seq. Qed.

(** The words of a block of memory, read in place. *)
Lemma read_block mem inp i :
  bytes mem → (inp + 64 <= length mem)%nat → (i < 16)%nat →
  is_word (ReadBE32 (drop (inp + 4 * i) mem)) (words_of (take 64 (drop inp mem)) @@ i).
Proof.
  intros Hb Hl Hi. rewrite words_of_at by done.
  assert (Hb' : bytes (drop (inp + 4 * i) mem)) by by apply Forall_drop.
  assert (Hl' : (4 <= length (drop (inp + 4 * i) mem))%nat) by (rewrite length_drop; lia).
  rewrite ReadBE32_dec by done. split; [|apply word_dec32be].
  - rewrite <-drop_drop, skipn_firstn_comm. rewrite drop_drop.
    destruct (split_at (drop (inp + 4 * i) mem) 0 4) as (a & q & c & E & Ha & Hq & _); [lia|].
    destruct a; [|done]. rewrite E. cbn [app].
    do 4 (destruct q as [|? q]; [done|]). destruct q; [|done].
    replace (64 - 4 * i)%nat with (4 + (60 - 4 * i))%nat by lia. done.
  - by apply Forall_drop, Forall_take, Forall_drop.
  - rewrite length_drop, length_take, length_drop. lia.
Qed.

Lemma is_word_self l : words 32 l → Forall2 is_word l l.
Proof. intros Hl. induction Hl; constructor; [split|]; done. Qed.

Lemma is_word_eq l k : Forall2 is_word l k → l = k.
Proof. intros E. induction E as [|x y l k [-> _] E IH]; [done|]. by f_equal. Qed.

Lemma sha256_Transform_ok : transform_ok sha256_Transform.
Proof.
  intros H chunk blocks. revert H chunk. induction blocks as [|n IH]; intros H chunk HH Hw Hb Hl; [done|].
  cbn [sha256_Transform]. unfold blocks_of. cbn [seq fmap list_fmap]. rewrite run_cons.
  set (b := take 64 (drop (0 + 64 * 0) chunk)).
  assert (E : zip_with add32 H (fst (calls (block_args (λ o, ReadBE32 (drop o chunk))) H [])) = compress b H).
  { rewrite compress_eq. f_equal.
    pose proof (block_rep is_word (words_of b) (length_words_of b) (λ o, ReadBE32 (drop o chunk)) H H) as B.
    destruct (calls _ H []) as [v w]. cbn [fst]. destruct B as [B _]; [|by apply is_word_self|done|by apply is_word_eq].
    intros i Hi. apply (read_block chunk 0 i Hb ltac:(lia) Hi). }
  rewrite E. destruct (compress_ok b H HH) as [HH' Hw'].
  rewrite IH; [|done|done|by apply Forall_drop|rewrite length_drop; lia].
  f_equal. unfold blocks_of. rewrite <-(fmap_S_seq 0 n), <-list_fmap_compose. apply list_fmap_ext.
  intros ? m _. cbn [compose]. rewrite drop_drop. do 2 f_equal. lia.
Qed.


(** ** Writing the result *)

Lemma write_seq (f : Z → list Z) ws mem out k :
  (∀ x, length (f x) = 4%nat) → (out + 4 * k + 4 * length ws <= length mem)%nat →
  fold_left (λ mem '(j, x), memcpy mem (out + 4 * j) (f x)) (zip (seq k (length ws)) ws) mem =
  memcpy mem (out + 4 * k) (concat (f <$> ws)).
Proof.
  intros Hf. revert mem k. induction ws as [|x ws IH]; intros mem k Hl; [by rewrite memcpy_nil|].
  cbn [length] in Hl. cbn [length seq zip zip_with fold_left fmap list_fmap concat].
  rewrite IH by (rewrite length_memcpy; rewrite ?Hf; lia).
  apply memcpy_memcpy; rewrite Hf; [lia|]. rewrite (length_concat_map _ 4) by done. lia.
Qed.

Lemma write_words_digest mem out ws :
  length ws = 8%nat → words 32 ws → (out + 32 <= length mem)%nat → write_words mem out ws = memcpy mem out (digest ws).
Proof.
  intros Hl Hw Ho. unfold write_words. rewrite <-Hl.
  rewrite write_seq by (intros; apply length_le_split || lia). f_equal; [lia|].
  unfold digest. clear Hl. induction Hw as [|x ws Hx Hw IH]; [done|].
  cbn [fmap list_fmap concat]. by rewrite (WriteBE32_enc x Hx), IH.
Qed.

Lemma double_words_ok M : length (double_words M) = 8%nat ∧ words 32 (double_words M).
Proof. unfold double_words. cbv zeta. split; [by apply length_add_hash|apply words_add_hash]. Qed.

Lemma TransformD64_ok : double_ok 1 sha256_TransformD64.
Proof.
  intros mem out inp Hb Hi Ho. unfold sha256_TransformD64.
  set (b := take 64 (drop inp mem)).
  assert (E : double_hash (λ o, ReadBE32 (drop (inp + o) mem)) = double_words (words_of b)).
  { apply is_word_eq, (double_hash_rep is_word); [apply length_words_of|].
    intros i Hlt. apply read_block; [done|lia|done]. }
  rewrite E. destruct (double_words_ok (words_of b)) as [Hl Hw].
  rewrite write_words_digest by (done || lia). f_equal.
  unfold blocks_of. cbn [seq fmap list_fmap concat]. rewrite app_nil_r, Nat.mul_0_r, Nat.add_0_r.
  symmetry. apply sha256d_64. unfold b. rewrite length_take, length_drop. lia.
Qed.

Lemma TransformD64Wrapper_ok tr : transform_ok tr → double_ok 1 (TransformD64Wrapper tr).
Proof.
  intros Htr mem out inp Hb Hi Ho. unfold TransformD64Wrapper.
  set (b := take 64 (drop inp mem)).
  assert (Hbl : length b = 64%nat) by (unfold b; rewrite length_take, length_drop; lia).
  assert (HI : words 32 Initialize) by (apply (bool_decide_unpack _); vm_compute; exact I).
  assert (Hrun : ∀ c H, length H = 8%nat → words 32 H → bytes c → (64 <= length c)%nat →
    tr H c 1%nat = compress (take 64 c) H).
  { intros c H HH Hw Hc Hlc. by rewrite (Htr H c 1%nat HH Hw Hc ltac:(lia)). }
  change padding1 with (sha256_padding 64).
  change (0x80 :: replicate 29 0 ++ [1; 0]) with (sha256_padding 32).
  assert (HP : ∀ n, bytes (sha256_padding n)).
  { intros n. apply Forall_cons_2; [split; lia|]. apply Forall_app_2; [|apply bytes_enc64be].
    by apply Forall_replicate. }
  rewrite (Hrun (drop inp mem) Initialize) by (done || by apply Forall_drop || (rewrite length_drop; lia)). fold b.
  destruct (compress_ok b Initialize eq_refl) as [Hl1 Hw1].
  rewrite (Hrun (sha256_padding 64) _ Hl1 Hw1 (HP 64%nat)) by (vm_compute; lia).
  change (take 64 (sha256_padding 64)) with (sha256_padding 64).
  destruct (compress_ok (sha256_padding 64) _ Hl1) as [Hl2 Hw2].
  rewrite (write_words_digest (replicate 32 0 ++ sha256_padding 32) 0 _ Hl2 Hw2) by (vm_compute; lia).
  rewrite <-(sha256_two b Hbl). set (d := sha256 b).
  assert (Hd : length d = 32%nat) by apply length_sha256.
  replace (memcpy (replicate 32 0 ++ sha256_padding 32) 0 d) with (d ++ sha256_padding 32)
    by (unfold memcpy; rewrite take_0, Hd; done).
  assert (Hmb : bytes (d ++ sha256_padding 32)) by (apply Forall_app_2; [apply bytes_sha256|apply HP]).
  assert (Hml : length (d ++ sha256_padding 32) = 64%nat) by (rewrite length_app, Hd; by vm_compute).
  rewrite (Hrun _ Initialize eq_refl HI Hmb), take_ge by lia.
  destruct (compress_ok (d ++ sha256_padding 32) Initialize eq_refl) as [Hl3 Hw3].
  rewrite (write_words_digest mem out _ Hl3 Hw3), <-(sha256_one d Hd) by lia.
  unfold blocks_of. cbn [seq fmap list_fmap concat]. by rewrite app_nil_r, Nat.mul_0_r, Nat.add_0_r.
Qed.


(** ** The vector forms *)

Lemma length_cells (cells : list (list Z)) :
  Forall (λ c, length c = 4%nat) cells → length (concat cells) = (4 * length cells)%nat.
Proof. intros H. induction H as [|x l Hx Hl IH]; [done|]. cbn [concat length]. rewrite length_app, IH. lia. Qed.

(** A write of four bytes into memory that is seen as a row of cells. *)
Lemma memcpy_cell (pre post : list Z) (cells : list (list Z)) i (b : list Z) :
  Forall (λ c, length c = 4%nat) cells → length b = 4%nat → (i < length cells)%nat →
  memcpy (pre ++ concat cells ++ post) (length pre + 4 * i) b = pre ++ concat (<[i := b]> cells) ++ post.
Proof.
  intros Hc Hb Hi. destruct (lookup_lt_is_Some_2 cells i Hi) as [c Ec].
  rewrite insert_take_drop by done. rewrite <-(take_drop_middle cells i c Ec) at 1.
  rewrite !concat_app. cbn [concat]. rewrite <-!app_assoc, !(app_assoc pre).
  apply memcpy_at.
  - rewrite length_app. f_equal.
    rewrite length_cells by by apply Forall_take. rewrite length_take. lia.
  - rewrite Hb. rewrite Forall_lookup in Hc. exact (Hc i c Ec).
Qed.

Definition cell_writes (n : nat) (g : nat → vec n → list Z) (ws : list (vec n)) (cells : list (list Z)) : list (list Z) :=
  fold_left (λ cells '(j, x), fold_left (λ cells m, <[(8 * m + j)%nat := g m x]> cells) (seq 0 n) cells)
    (zip (seq 0 8) ws) cells.

Lemma cell_writes_all n g ws cells :
  (n = 4 ∨ n = 8)%nat → length ws = 8%nat → length cells = (8 * n)%nat →
  cell_writes n g ws cells = concat ((λ m, g m <$> ws) <$> seq 0 n).
Proof.
  intros Hn Hw Hc. do 8 (destruct ws as [|? ws]; [done|]). destruct ws; [|done].
  destruct Hn as [-> | ->].
  - do 32 (destruct cells as [|? cells]; [done|]). destruct cells; [reflexivity|done].
  - do 64 (destruct cells as [|? cells]; [done|]). destruct cells; [reflexivity|done].
Qed.

Lemma way_writes n ws mem out :
  (n = 4 ∨ n = 8)%nat → length ws = 8%nat → (out + 32 * n <= length mem)%nat →
  let g m (x : vec n) := WriteLE32 ((sph_bswap32 <$> lane_list x) @@ (n - 1 - m)) in
  fold_left (λ mem '(j, x), Write_way n mem out (4 * j) x) (zip (seq 0 8) ws) mem =
  memcpy mem out (concat (concat ((λ m, g m <$> ws) <$> seq 0 n))).
Proof.
  intros Hn Hw Ho g. destruct (split_at mem out (32 * n)) as (pre & mid & post & -> & Hpre & Hmid & _); [lia|].
  set (cells := (λ i, take 4 (drop (4 * i) mid)) <$> seq 0 (8 * n)).
  assert (Hcl : length cells = (8 * n)%nat) by (unfold cells; by rewrite length_fmap, length_seq).
  assert (Hc4 : Forall (λ c, length c = 4%nat) cells).
  { apply Forall_fmap, Forall_seq. intros i Hi. cbn. rewrite length_take, length_drop. lia. }
  assert (Hmc : mid = concat cells).
  { pose proof (concat_full_blocks 4 mid ltac:(lia)) as E. unfold full_blocks, rest in E.
    replace (length mid / 4)%nat with (8 * n)%nat in E
      by (rewrite Hmid; replace (32 * n)%nat with (8 * n * 4)%nat by lia; by rewrite Nat.div_mul by lia).
    rewrite (drop_ge mid), app_nil_r in E by lia. rewrite <-E at 1. unfold cells.
    f_equal. apply list_fmap_ext. intros ? i _. do 2 f_equal. lia. }
  assert (Hg : ∀ m x, length (g m x) = 4%nat) by (intros; apply length_le_split).
  rewrite <-(cell_writes_all n g ws cells Hn Hw Hcl).
  enough (E : let mem' := fold_left (λ mem '(j, x), Write_way n mem out (4 * j) x) (zip (seq 0 8) ws) (pre ++ mid ++ post) in
    let cells' := cell_writes n g ws cells in
    mem' = pre ++ concat cells' ++ post ∧ Forall (λ c, length c = 4%nat) cells' ∧ length cells' = (8 * n)%nat).
  { destruct E as (-> & H4 & Hl'). symmetry. apply memcpy_at; [done|].
    rewrite Hmc, (cell_writes_all n g ws cells Hn Hw Hcl).
    rewrite Hmc in Hmid.
    transitivity (32 * n)%nat; [done|].
    rewrite <-(cell_writes_all n g ws cells Hn Hw Hcl), (length_cells _ H4), Hl'. lia. }
  cbv zeta. unfold cell_writes.
  apply (fold_left_sim (λ mem' cells', mem' = pre ++ concat cells' ++ post ∧
      Forall (λ c, length c = 4%nat) cells' ∧ length cells' = (8 * n)%nat) (λ p, (fst p < 8)%nat)).
  - intros mem' cells' [j x] Hj R. cbn [fst] in Hj. unfold Write_way. cbv zeta.
    apply (fold_left_sim (λ mem' cells', mem' = pre ++ concat cells' ++ post ∧
      Forall (λ c, length c = 4%nat) cells' ∧ length cells' = (8 * n)%nat) (λ m, (m < n)%nat)); [| |exact R].
    + intros u c m Hm (-> & H4 & Hl'). rewrite length_insert. split; [|split; [|done]].
      * replace (out + 32 * m + 4 * j)%nat with (length pre + 4 * (8 * m + j))%nat by lia.
        apply memcpy_cell; [done|apply Hg|lia].
      * apply Forall_insert; [done|apply Hg].
    + apply Forall_seq. lia.
  - apply Forall_lookup. intros i [j x] E. cbn [fst]. apply lookup_zip_with_Some in E as (j' & x' & [= <- <-] & E & _).
    apply lookup_seq in E as [-> ?]. lia.
  - rewrite <-Hmc. done.
Qed.

Lemma Transform_way_ok n : (n = 4 ∨ n = 8)%nat → double_ok n (Transform_way n).
Proof.
  intros Hn mem out inp Hb Hi Ho. unfold Transform_way.
  set (ws := double_hash (Read_way n mem inp)).
  assert (Hrep : ∀ m, (m < n)%nat →
    Forall2 (in_lane (n - 1 - m)) ws (double_words (words_of (take 64 (drop (inp + 64 * m) mem))))).
  { intros m Hm. pose proof (vector_laws n (n - 1 - m) ltac:(lia)).
    apply double_hash_rep; [done|apply length_words_of|]. intros i Hlt.
    destruct (read_block mem (inp + 64 * m) i Hb ltac:(lia) Hlt) as [E Hw].
    unfold in_lane, Read_way. cbn [lane_list]. split; [by rewrite length_fmap, length_seq|]. split; [|done].
    rewrite at_fmap_seq by lia. rewrite <-E. unfold ReadBE32, ReadLE32. do 4 f_equal. lia. }
  assert (Hl : length ws = 8%nat).
  { rewrite (Forall2_length (Hrep 0%nat ltac:(lia))). apply double_words_ok. }
  rewrite (way_writes n ws mem out Hn Hl Ho). f_equal.
  assert (E : ∀ l, Forall (λ m, m < n)%nat l →
    concat (concat ((λ m, (λ x : vec n, WriteLE32 ((sph_bswap32 <$> lane_list x) @@ (n - 1 - m))) <$> ws) <$> l)) =
    concat ((λ m, sha256d (take 64 (drop (inp + 64 * m) mem))) <$> l)).
  { intros l Hlt. induction Hlt as [|m l Hm Hlt IH]; [done|]. cbn [fmap list_fmap concat].
    rewrite concat_app, IH. f_equal. rewrite sha256d_64 by (rewrite length_take, length_drop; lia).
    unfold digest. f_equal. destruct (double_words_ok (words_of (take 64 (drop (inp + 64 * m) mem)))) as [_ Hw].
    specialize (Hrep m Hm). clear -Hrep Hw Hm. revert Hw.
    induction Hrep as [|x a v r (Hx & Ea & Ha) Hrep IH]; intros Hw; [done|].
    apply Forall_cons_1 in Hw as [? Hw]. cbn [fmap list_fmap]. f_equal; [|by apply IH].
    rewrite <-WriteBE32_enc by done. unfold WriteLE32, WriteBE32. f_equal.
    apply at_lookup. rewrite list_lookup_fmap, lookup_at by (rewrite Hx; lia). cbn. by rewrite Ea. }
  unfold blocks_of. rewrite <-list_fmap_compose. apply (E (seq 0 n)). apply Forall_seq. lia.
Qed.


(** ** Many double hashes, in place or apart *)

Lemma take_drop_memcpy (d src : list Z) off p n :
  (off + length src <= length d)%nat → (p + n <= off ∨ off + length src <= p)%nat →
  take n (drop p (memcpy d off src)) = take n (drop p d).
Proof.
  intros Hl Hp. unfold memcpy. destruct Hp as [Hp|Hp].
  - rewrite drop_app_le by (rewrite length_take; lia).
    rewrite take_app_le by (rewrite length_drop, length_take; lia).
    rewrite <-(take_drop off d) at 2. rewrite (drop_app_le (take off d)) by (rewrite length_take; lia).
    by rewrite (take_app_le (drop p (take off d))) by (rewrite length_drop, length_take; lia).
  - rewrite app_assoc, drop_app_ge by (rewrite length_app, length_take; lia).
    rewrite drop_drop. do 2 f_equal. rewrite length_app, length_take. lia.
Qed.

Lemma bytes_sha256d bs : bytes (concat (sha256d <$> bs)).
Proof.
  induction bs as [|b bs IH]; [apply Forall_nil_2|]. cbn [fmap list_fmap concat].
  apply Forall_app_2; [apply bytes_sha256|exact IH].
Qed.

Lemma length_sha256d (bs : list (list Z)) : length (concat (sha256d <$> bs)) = (32 * length bs)%nat.
Proof. apply length_concat_map. intros b. apply length_sha256. Qed.

Section Batch.
Context (mem : list Z) (out inp blocks : nat) (Hb : bytes mem).
Context (Hi : (inp + 64 * blocks <= length mem)%nat) (Ho : (out + 32 * blocks <= length mem)%nat).
Context (Halias : (out <= inp ∨ inp + 64 * blocks <= out)%nat).

(** The state after [i] blocks. *)
Definition batch_state (i : nat) : list Z * nat * nat * nat :=
  (memcpy mem out (concat (sha256d <$> blocks_of mem inp i)), out + 32 * i, inp + 64 * i, blocks - i)%nat.

Lemma length_blocks_of m p n : length (blocks_of m p n) = n.
Proof. unfold blocks_of. by rewrite length_fmap, length_seq. Qed.

Lemma batch_step f n i :
  double_ok n f → (i + n <= blocks)%nat →
  let '(mem', out', inp', _) := batch_state i in
  (f mem' out' inp', out' + 32 * n, inp' + 64 * n, blocks - i - n)%nat = batch_state (i + n).
Proof.
  intros Hf Hn. unfold batch_state.
  set (d := concat (sha256d <$> blocks_of mem inp i)).
  assert (Hd : length d = (32 * i)%nat) by (unfold d; by rewrite length_sha256d, length_blocks_of).
  assert (Hlm : length (memcpy mem out d) = length mem) by (apply length_memcpy; lia).
  rewrite Hf; [|by apply Forall_memcpy; [|apply bytes_sha256d]|lia|lia].
  assert (E : blocks_of (memcpy mem out d) (inp + 64 * i) n = blocks_of mem (inp + 64 * i) n).
  { apply Forall_fmap_ext, Forall_seq. intros m Hm. apply take_drop_memcpy; [lia|]. lia. }
  rewrite E. f_equal; [|lia]. f_equal; [|lia]. f_equal; [|lia].
  rewrite memcpy_memcpy by (rewrite ?length_sha256d, ?length_blocks_of; lia). f_equal.
  unfold d. rewrite <-concat_app, <-fmap_app. f_equal. f_equal. unfold blocks_of.
  rewrite seq_app, fmap_app. f_equal.
  replace (seq (0 + i) n) with (Nat.add i <$> seq 0 n) by (rewrite fmap_add_seq; f_equal; lia).
  rewrite <-list_fmap_compose. apply list_fmap_ext. intros ? m _. cbn. do 2 f_equal. lia.
Qed.

Lemma way_loop_batch f n fuel i :
  double_ok n f → (0 < n)%nat → (i <= blocks)%nat → (blocks - i <= fuel)%nat →
  ∃ j, (i <= j <= blocks)%nat ∧ (blocks - j < n)%nat ∧ way_loop fuel f n (batch_state i) = batch_state j.
Proof.
  intros Hf Hn. revert i. induction fuel as [|fuel IH]; intros i Hib Hfu.
  - exists i. cbn [way_loop]. split; [lia|]. split; [lia|]. by unfold batch_state.
  - unfold batch_state at 1. cbn [way_loop]. destruct (Nat.leb_spec n (blocks - i)) as [Hle|Hgt].
    + pose proof (batch_step f n i Hf ltac:(lia)) as E. unfold batch_state at 1 in E. rewrite E.
      destruct (IH (i + n)%nat) as (j & Hj & Hjn & Ej); [lia..|]. exists j. split; [lia|]. done.
    + exists i. split; [lia|]. split; [lia|]. done.
Qed.

Lemma try_ways_batch f n i :
  (∀ g, f = Some g → double_ok n g) → (0 < n)%nat → (i <= blocks)%nat →
  ∃ j, (i <= j <= blocks)%nat ∧ try_ways f n (batch_state i) = batch_state j.
Proof.
  intros Hf Hn Hib. destruct f as [g|]; [|by exists i].
  destruct (way_loop_batch g n (blocks - i) i) as (j & Hj & _ & E); [by apply Hf|lia..|].
  exists j. by split.
Qed.

Lemma SHA256D64_batch im :
  impl_ok im → SHA256D64 im mem out inp blocks = memcpy mem out (concat (sha256d <$> blocks_of mem inp blocks)).
Proof.
  intros Him. unfold SHA256D64.
  assert (E0 : (mem, out, inp, blocks) = batch_state 0).
  { unfold batch_state. cbn [blocks_of seq fmap list_fmap concat]. rewrite memcpy_nil, !Nat.mul_0_r, !Nat.add_0_r.
    by rewrite Nat.sub_0_r. }
  rewrite E0.
  destruct (try_ways_batch (TransformD64_8way im) 8 0 (ok_8way im Him)) as (i & Hi8 & ->); [lia..|].
  destruct (try_ways_batch (TransformD64_4way im) 4 i (ok_4way im Him)) as (j & Hj & ->); [lia..|].
  destruct (try_ways_batch (TransformD64_2way im) 2 j (ok_2way im Him)) as (k & Hk & ->); [lia..|].
  destruct (way_loop_batch (TransformD64 im) 1 (snd (batch_state k)) k (ok_double im Him)) as (l & Hl & Hlt & ->);
    [lia|lia|done|].
  replace l with blocks by lia. done.
Qed.
End Batch.

(** ** The self test *)

Lemma standard_ok : impl_ok standard.
Proof. split; [exact sha256_Transform_ok|exact TransformD64_ok|done..]. Qed.

Lemma bytes_test_data : bytes test_data ∧ length test_data = 512%nat.
Proof. split; [apply (bool_decide_unpack _); vm_compute; exact I|by vm_compute]. Qed.

(** Functions that keep their promise pass their part of the test: the portable ones pass it. *)
Lemma test_d64_ok f n : double_ok n f → (n <= 8)%nat → test_d64 f n = true.
Proof.
  intros Hf Hn. destruct bytes_test_data as [Hb Hl]. unfold test_d64. rewrite Hl.
  assert (Hlm : length (test_data ++ replicate (32 * n) 0) = (512 + 32 * n)%nat) by (by rewrite length_app, Hl, length_replicate).
  assert (Hbm : bytes (test_data ++ replicate (32 * n) 0)) by (apply Forall_app_2; [done|]; by apply Forall_replicate).
  rewrite Hf by (done || lia). apply bool_decide_eq_true.
  unfold memcpy. rewrite drop_app_length' by (rewrite length_take; lia).
  rewrite drop_ge by (rewrite length_sha256d, length_blocks_of; lia). rewrite app_nil_r.
  assert (E : blocks_of (test_data ++ replicate (32 * n) 0) 0 n = take n (blocks_of test_data 0 8)).
  { unfold blocks_of. rewrite <-fmap_take, take_seq, Nat.min_l by lia.
    apply Forall_fmap_ext, Forall_seq. intros m Hm. rewrite drop_app_le by lia.
    apply take_app_le. rewrite length_drop. lia. }
  rewrite E, fmap_take.
  assert (F : concat (sha256d <$> blocks_of test_data 0 8) = test_result_d64) by by vm_compute.
  rewrite <-F.
  assert (G : ∀ bs k, (k <= length bs)%nat → concat (take k (sha256d <$> bs)) = take (32 * k) (concat (sha256d <$> bs))).
  { intros bs. induction bs as [|b bs IH]; intros k Hk; [cbn in Hk; by replace k with 0%nat by lia|].
    destruct k as [|k]; [done|]. cbn [fmap list_fmap take concat length] in *.
    replace (32 * S k)%nat with (length (sha256d b) + 32 * k)%nat by (unfold sha256d; rewrite length_sha256; lia).
    rewrite take_app_add. f_equal. apply IH. lia. }
  apply G. by rewrite length_blocks_of.
Qed.

Lemma SelfTest_ok im : impl_ok im → SelfTest im = true.
Proof.
  intros Him. destruct bytes_test_data as [Hb Hl]. unfold SelfTest.
  assert (HI : words 32 Initialize) by (apply (bool_decide_unpack _); vm_compute; exact I).
  assert (Htr : forallb (λ i, bool_decide (Transform im Initialize test_data i = nth i test_result [])) (seq 0 9) = true).
  { apply forallb_forall. intros i Hin. apply in_seq in Hin. apply bool_decide_eq_true.
    rewrite (ok_transform im Him Initialize test_data i eq_refl HI Hb ltac:(lia)).
    rewrite <-(sha256_Transform_ok Initialize test_data i eq_refl HI Hb ltac:(lia)).
    assert (F : Forall (λ i, sha256_Transform Initialize test_data i = nth i test_result []) (seq 0 9))
      by (apply (bool_decide_unpack _); vm_compute; exact I).
    rewrite Forall_seq in F. apply F. lia. }
  rewrite Htr, (test_d64_ok _ 1 (ok_double im Him)) by lia. cbn [andb].
  destruct (TransformD64_2way im) as [f2|] eqn:E2; [rewrite (test_d64_ok f2 2 (ok_2way im Him f2 E2)) by lia|]; cbn [andb];
  (destruct (TransformD64_4way im) as [f4|] eqn:E4; [rewrite (test_d64_ok f4 4 (ok_4way im Him f4 E4)) by lia|]; cbn [andb];
  (destruct (TransformD64_8way im) as [f8|] eqn:E8; [rewrite (test_d64_ok f8 8 (ok_8way im Him f8 E8)) by lia|]; done)).
Qed.

End Sha256.
