(* ===== verification/Sha256Ni.v ===== *)
(** * The SHA instructions of x86 and ARM, and straight-line code on them

    crypto/sha256_x86_shani.cpp and sha256_arm_shani.cpp are straight-line
    code on registers of four 32-bit words.  [exp] has one constructor per
    intrinsic that they use, [stmt] the assignments and stores; [eval] and
    [exec] give them the meaning of the processor manuals, over a class of
    lanes.  Its first instance are the words, which is what the code computes;
    its second one are names for the values of SHA-256 ([lane]: a working
    variable after some rounds, a word of the schedule, a word of the result),
    with which [exec] follows the code symbolically.  [exec_sound] relates the
    two runs, so that a property of straight-line code is the result of a
    computation. *)
From S2P Require Import Prelude SphTypes Stream Padding Sha256.
From stdpp Require Import strings gmap.
Import Sha256.
#[local] Open Scope Z_scope.

Module Sha256Ni.

(** ** Lanes and instructions *)

Class Lane (T : Type) := {
  lane_const : Z → T;
  lane_add : T → T → T;
  (** [w + sigma0 x] and [w + sigma1 x]. *)
  lane_sigma0 : T → T → T;
  lane_sigma1 : T → T → T;
  (** The new [a] and [e] after a round with [a] to [h] and the sum of the constant and the word. *)
  lane_round : T → T → T → T → T → T → T → T → T → T * T }.

#[export] Instance word_lane : Lane Z := {
  lane_const x := x;
  lane_add := add32;
  lane_sigma0 w x := add32 w (fips_sigma0 x);
  lane_sigma1 w x := add32 w (fips_sigma1 x);
  lane_round a b c d e f g h wk :=
    let T1 := h + fips_Sigma1 e + fips_Ch e f g + wk in
    (SPH_T32 (T1 + (fips_Sigma0 a + fips_Maj a b c)), SPH_T32 (d + T1)) }.

(** A register: four lanes, the lowest first. *)
Inductive v4 (T : Type) := V4 (l0 l1 l2 l3 : T).
Arguments V4 {T} _ _ _ _.
#[export] Instance v4_eq_dec (T : Type) `{EqDecision T} : EqDecision (v4 T).
Proof. solve_decision. Defined.

Section Instructions.
Context {T : Type} `{Lane T}.

(** SHA256RNDS2: [x] holds C, D, G, H and [y] holds A, B, E, F, from the highest lane down. *)
Definition sha256rnds2 (x y k : v4 T) : v4 T :=
  let 'V4 h g d c := x in let 'V4 f e b a := y in let 'V4 k0 k1 _ _ := k in
  let '(a1, e1) := lane_round a b c d e f g h k0 in
  let '(a2, e2) := lane_round a1 a b c e1 e f g k1 in
  V4 e1 e2 a1 a2.

(** SHA256MSG1 and SHA256SU0. *)
Definition sha256msg1 (x y : v4 T) : v4 T :=
  let 'V4 w0 w1 w2 w3 := x in let 'V4 w4 _ _ _ := y in
  V4 (lane_sigma0 w0 w1) (lane_sigma0 w1 w2) (lane_sigma0 w2 w3) (lane_sigma0 w3 w4).

(** SHA256MSG2. *)
Definition sha256msg2 (x y : v4 T) : v4 T :=
  let 'V4 x0 x1 x2 x3 := x in let 'V4 _ _ w14 w15 := y in
  let w16 := lane_sigma1 x0 w14 in
  let w17 := lane_sigma1 x1 w15 in
  V4 w16 w17 (lane_sigma1 x2 w16) (lane_sigma1 x3 w17).

(** SHA256SU1. *)
Definition sha256su1 (x y z : v4 T) : v4 T :=
  let 'V4 x0 x1 x2 x3 := x in let 'V4 _ w9 w10 w11 := y in let 'V4 w12 _ w14 w15 := z in
  let w16 := lane_sigma1 (lane_add x0 w9) w14 in
  let w17 := lane_sigma1 (lane_add x1 w10) w15 in
  V4 w16 w17 (lane_sigma1 (lane_add x2 w11) w16) (lane_sigma1 (lane_add x3 w12) w17).

(** SHA256H and SHA256H2: four rounds; the first one returns A to D, the second one E to H. *)
Definition sha256hash (x y w : v4 T) : v4 T * v4 T :=
  let 'V4 a b c d := x in let 'V4 e f g h := y in let 'V4 w0 w1 w2 w3 := w in
  let '(a1, e1) := lane_round a b c d e f g h w0 in
  let '(a2, e2) := lane_round a1 a b c e1 e f g w1 in
  let '(a3, e3) := lane_round a2 a1 a b e2 e1 e f w2 in
  let '(a4, e4) := lane_round a3 a2 a1 a e3 e2 e1 e w3 in
  (V4 a4 a3 a2 a1, V4 e4 e3 e2 e1).

Definition add4 (x y : v4 T) : v4 T :=
  let 'V4 x0 x1 x2 x3 := x in let 'V4 y0 y1 y2 y3 := y in
  V4 (lane_add x0 y0) (lane_add x1 y1) (lane_add x2 y2) (lane_add x3 y3).

Definition lane_at (x : v4 T) (i : Z) : T :=
  let 'V4 x0 x1 x2 x3 := x in if i =? 0 then x0 else if i =? 1 then x1 else if i =? 2 then x2 else x3.

(** PSHUFD: two bits choose each lane of the result. *)
Definition shuffle32 (x : v4 T) (imm : Z) : v4 T :=
  V4 (lane_at x (Z.land imm 3)) (lane_at x (Z.land (imm ≫ 2) 3)) (lane_at x (Z.land (imm ≫ 4) 3)) (lane_at x (Z.land (imm ≫ 6) 3)).

(** PALIGNR by [n] bytes, for the multiples of four up to 16. *)
Definition alignr (x y : v4 T) (n : Z) : v4 T :=
  let sel i := if n / 4 + i <? 4 then lane_at y (n / 4 + i) else lane_at x (n / 4 + i - 4) in
  V4 (sel 0) (sel 1) (sel 2) (sel 3).

(** PBLENDW with a mask of pairs of equal bits, a pair for each 32-bit lane. *)
Definition blend (x y : v4 T) (imm : Z) : v4 T :=
  let sel i := if Z.testbit imm (2 * i) then lane_at y i else lane_at x i in
  V4 (sel 0) (sel 1) (sel 2) (sel 3).
End Instructions.

(** ** Code *)

Inductive exp :=
| Reg (r : string)
| Const (l : v4 Z)
| LoadAt (off : nat)
| add_epi32 (a b : exp)
| sha256rnds2_epu32 (a b k : exp)
| sha256msg1_epu32 (a b : exp)
| sha256msg2_epu32 (a b : exp)
| shuffle_epi32 (a : exp) (imm : Z)
| alignr_epi8 (a b : exp) (n : Z)
| blend_epi16 (a b : exp) (imm : Z)
| vsha256hq_u32 (abcd efgh wk : exp)
| vsha256h2q_u32 (efgh abcd wk : exp)
| vsha256su1q_u32 (tw0_3 w8_11 w12_15 : exp).
Coercion Reg : string >-> exp.
Abbreviation vaddq_u32 := add_epi32.
Abbreviation vsha256su0q_u32 := sha256msg1_epu32.

Inductive stmt := Assign (r : string) (e : exp) | Store (off : nat) (e : exp).
Notation "r <~ e" := (Assign r e) (at level 70, no associativity).

Fixpoint loads (e : exp) : bool :=
  match e with
  | Reg _ | Const _ => false
  | LoadAt _ => true
  | shuffle_epi32 a _ => loads a
  | add_epi32 a b | sha256msg1_epu32 a b | sha256msg2_epu32 a b | alignr_epi8 a b _ | blend_epi16 a b _ => loads a || loads b
  | sha256rnds2_epu32 a b c | vsha256hq_u32 a b c | vsha256h2q_u32 a b c | vsha256su1q_u32 a b c => loads a || loads b || loads c
  end.

Section Run.
Context {T : Type} `{Lane T} (mem : nat → v4 T).

(** The value of an expression; a register that was not set has none. *)
Fixpoint eval (rg : gmap string (v4 T)) (e : exp) : option (v4 T) :=
  match e with
  | Reg r => rg !! r
  | Const (V4 c0 c1 c2 c3) => Some (V4 (lane_const c0) (lane_const c1) (lane_const c2) (lane_const c3))
  | LoadAt off => Some (mem off)
  | add_epi32 a b => a ← eval rg a; b ← eval rg b; Some (add4 a b)
  | sha256rnds2_epu32 a b k => a ← eval rg a; b ← eval rg b; k ← eval rg k; Some (sha256rnds2 a b k)
  | sha256msg1_epu32 a b => a ← eval rg a; b ← eval rg b; Some (sha256msg1 a b)
  | sha256msg2_epu32 a b => a ← eval rg a; b ← eval rg b; Some (sha256msg2 a b)
  | shuffle_epi32 a imm => a ← eval rg a; Some (shuffle32 a imm)
  | alignr_epi8 a b n => a ← eval rg a; b ← eval rg b; Some (alignr a b n)
  | blend_epi16 a b imm => a ← eval rg a; b ← eval rg b; Some (blend a b imm)
  | vsha256hq_u32 x y w => x ← eval rg x; y ← eval rg y; w ← eval rg w; Some (fst (sha256hash x y w))
  | vsha256h2q_u32 y x w => y ← eval rg y; x ← eval rg x; w ← eval rg w; Some (snd (sha256hash x y w))
  | vsha256su1q_u32 a b c => a ← eval rg a; b ← eval rg b; c ← eval rg c; Some (sha256su1 a b c)
  end.

(** The registers and the list of stores; a load after a store is refused, so that [mem] is the memory at the start. *)
Fixpoint exec (prog : list stmt) (rg : gmap string (v4 T)) (st : list (nat * v4 T))
    : option (gmap string (v4 T) * list (nat * v4 T)) :=
  match prog with
  | [] => Some (rg, st)
  | Assign r e :: prog =>
      if loads e && negb (length st =? 0)%nat then None
      else v ← eval rg e; exec prog (<[r := v]> rg) st
  | Store off e :: prog =>
      if loads e && negb (length st =? 0)%nat then None
      else v ← eval rg e; exec prog rg (st ++ [(off, v)])
  end.
End Run.

(** ** Two runs of the same code *)

(** What the lanes of one run must promise about those of the run on words. *)
Class LaneLaws {T : Type} `{Lane T} (rep : Z → T → Prop) := {
  rep_const z : rep z (lane_const z);
  rep_add x y a b : rep x a → rep y b → rep (lane_add x y) (lane_add a b);
  rep_sigma0 x y a b : rep x a → rep y b → rep (lane_sigma0 x y) (lane_sigma0 a b);
  rep_sigma1 x y a b : rep x a → rep y b → rep (lane_sigma1 x y) (lane_sigma1 a b);
  rep_round x0 x1 x2 x3 x4 x5 x6 x7 x y0 y1 y2 y3 y4 y5 y6 y7 y :
    rep x0 y0 → rep x1 y1 → rep x2 y2 → rep x3 y3 → rep x4 y4 → rep x5 y5 → rep x6 y6 → rep x7 y7 → rep x y →
    let p := lane_round x0 x1 x2 x3 x4 x5 x6 x7 x in let q := lane_round y0 y1 y2 y3 y4 y5 y6 y7 y in
    rep (fst p) (fst q) ∧ rep (snd p) (snd q) }.

Section Sound.
Context {T : Type} `{Lane T} (rep : Z → T → Prop) `{!LaneLaws rep}.

Definition reps (x : v4 Z) (y : v4 T) : Prop :=
  let 'V4 x0 x1 x2 x3 := x in let 'V4 y0 y1 y2 y3 := y in rep x0 y0 ∧ rep x1 y1 ∧ rep x2 y2 ∧ rep x3 y3.

Ltac registers := repeat match goal with
  | H : reps ?x ?y |- _ => destruct x, y; cbn [reps] in H; destruct H as (? & ? & ? & ?) end.

(** A round on both sides, of which the operands are related. *)
Ltac round_both x0 x1 x2 x3 x4 x5 x6 x7 x y0 y1 y2 y3 y4 y5 y6 y7 y a e b f :=
  let R := fresh in let R1 := fresh in let R2 := fresh in
  assert (R := rep_round x0 x1 x2 x3 x4 x5 x6 x7 x y0 y1 y2 y3 y4 y5 y6 y7 y); cbv zeta in R;
  do 9 (specialize (R ltac:(assumption)));
  destruct (lane_round x0 x1 x2 x3 x4 x5 x6 x7 x) as [a e], (lane_round y0 y1 y2 y3 y4 y5 y6 y7 y) as [b f];
  cbn [fst snd] in R; destruct R as [R1 R2].

Lemma reps_rnds2 x y k x' y' k' : reps x x' → reps y y' → reps k k' → reps (sha256rnds2 x y k) (sha256rnds2 x' y' k').
Proof.
  destruct x as [h g d c], y as [f e b a], k as [k0 k1 ? ?], x' as [h' g' d' c'], y' as [f' e' b' a'], k' as [k0' k1' ? ?].
  cbn [reps sha256rnds2]. intros (? & ? & ? & ?) (? & ? & ? & ?) (? & ? & ? & ?).
  round_both a b c d e f g h k0 a' b' c' d' e' f' g' h' k0' a1 e1 a1' e1'.
  round_both a1 a b c e1 e f g k1 a1' a' b' c' e1' e' f' g' k1' a2 e2 a2' e2'.
  done.
Qed.

Lemma reps_hash x y k x' y' k' : reps x x' → reps y y' → reps k k' →
  reps (fst (sha256hash x y k)) (fst (sha256hash x' y' k')) ∧ reps (snd (sha256hash x y k)) (snd (sha256hash x' y' k')).
Proof.
  destruct x as [a b c d], y as [e f g h], k as [k0 k1 k2 k3], x' as [a' b' c' d'], y' as [e' f' g' h'], k' as [k0' k1' k2' k3'].
  cbn [reps sha256hash]. intros (? & ? & ? & ?) (? & ? & ? & ?) (? & ? & ? & ?).
  round_both a b c d e f g h k0 a' b' c' d' e' f' g' h' k0' a1 e1 a1' e1'.
  round_both a1 a b c e1 e f g k1 a1' a' b' c' e1' e' f' g' k1' a2 e2 a2' e2'.
  round_both a2 a1 a b e2 e1 e f k2 a2' a1' a' b' e2' e1' e' f' k2' a3 e3 a3' e3'.
  round_both a3 a2 a1 a e3 e2 e1 e k3 a3' a2' a1' a' e3' e2' e1' e' k3' a4 e4 a4' e4'.
  done.
Qed.

Lemma reps_add x y a b : reps x a → reps y b → reps (add4 x y) (add4 a b).
Proof. intros. registers. cbn [add4 reps]. repeat split; by apply rep_add. Qed.

Lemma reps_msg1 x y a b : reps x a → reps y b → reps (sha256msg1 x y) (sha256msg1 a b).
Proof. intros. registers. cbn [sha256msg1 reps]. repeat split; by apply rep_sigma0. Qed.

Lemma reps_msg2 x y a b : reps x a → reps y b → reps (sha256msg2 x y) (sha256msg2 a b).
Proof. intros. registers. cbn [sha256msg2 reps]. repeat split; repeat (assumption || apply rep_sigma1). Qed.

Lemma reps_su1 x y z a b c : reps x a → reps y b → reps z c → reps (sha256su1 x y z) (sha256su1 a b c).
Proof. intros. registers. cbn [sha256su1 reps]. repeat split; repeat (assumption || apply rep_sigma1 || apply rep_add). Qed.

Lemma reps_at x a i : reps x a → rep (lane_at x i) (lane_at a i).
Proof. intros. registers. cbn [lane_at]. by repeat case_match. Qed.

Lemma reps_shuffle x a imm : reps x a → reps (shuffle32 x imm) (shuffle32 a imm).
Proof. intros. unfold shuffle32. repeat split; by apply reps_at. Qed.

Lemma reps_alignr x y a b n : reps x a → reps y b → reps (alignr x y n) (alignr a b n).
Proof. intros. unfold alignr. repeat split; case_match; by apply reps_at. Qed.

Lemma reps_blend x y a b imm : reps x a → reps y b → reps (blend x y imm) (blend a b imm).
Proof. intros. unfold blend. repeat split; case_match; by apply reps_at. Qed.

Create HintDb lanes.
Hint Resolve reps_add reps_msg1 reps_msg2 reps_su1 reps_shuffle reps_alignr reps_blend reps_rnds2 : lanes.

(** The registers of the run on words hold what the other run says; it may know fewer. *)
Definition regs_rep (rz : gmap string (v4 Z)) (rt : gmap string (v4 T)) : Prop :=
  ∀ r y, rt !! r = Some y → ∃ x, rz !! r = Some x ∧ reps x y.

Lemma regs_rep_insert rz rt r x y : regs_rep rz rt → reps x y → regs_rep (<[r := x]> rz) (<[r := y]> rt).
Proof.
  intros Hr Hx r' y'. destruct (decide (r' = r)) as [->|Hne].
  - rewrite !lookup_insert_eq. intros [= <-]. by exists x.
  - rewrite !lookup_insert_ne by done. apply Hr.
Qed.

Context (mz : nat → v4 Z) (mt : nat → v4 T) (Hmem : ∀ off, reps (mz off) (mt off)).

Lemma eval_sound rz rt e y :
  regs_rep rz rt → eval mt rt e = Some y → ∃ x, eval mz rz e = Some x ∧ reps x y.
Proof.
  intros Hr. revert y. induction e; intros y E; cbn [eval] in E |- *;
    repeat match type of E with (_ ≫= _) = Some _ => apply bind_Some in E as (? & ?E & E) end;
    try (injection E as <-);
    repeat match goal with IH : ∀ y, eval mt rt ?e = Some y → _, F : eval mt rt ?e = Some ?a |- _ =>
      destruct (IH a F) as (? & -> & ?); clear F; cbn [mbind option_bind] end;
    try (eexists; split; [reflexivity|]; solve [eauto with lanes]).
  - by apply Hr.
  - destruct l as [c0 c1 c2 c3]. injection E as <-. eexists. split; [done|]. repeat split; apply rep_const.
  - eexists. split; [done|]. by apply reps_hash.
  - eexists. split; [done|]. by apply reps_hash.
Qed.

Definition stores_rep (sz : list (nat * v4 Z)) (stt : list (nat * v4 T)) : Prop :=
  Forall2 (λ p q, fst p = fst q ∧ reps (snd p) (snd q)) sz stt.

Lemma exec_sound prog rz rt sz stt rt' stt' :
  regs_rep rz rt → stores_rep sz stt → exec mt prog rt stt = Some (rt', stt') →
  ∃ rz' sz', exec mz prog rz sz = Some (rz', sz') ∧ regs_rep rz' rt' ∧ stores_rep sz' stt'.
Proof.
  revert rz rt sz stt. induction prog as [|[r e|off e] prog IH]; intros rz rt sz stt Hr Hs E; cbn [exec] in E |- *;
    [injection E as <- <-; by eauto| |];
    (rewrite (Forall2_length _ _ _ Hs); destruct (loads e && _); [done|];
     apply bind_Some in E as (y & Ey & E); destruct (eval_sound rz rt e y Hr Ey) as (x & -> & Hx); cbn [mbind option_bind]).
  - apply (IH _ (<[r := y]> rt) _ stt); [by apply regs_rep_insert|done|done].
  - apply (IH _ rt _ (stt ++ [(off, y)])); [done| |done]. apply Forall2_app; [done|]. by repeat constructor.
Qed.
End Sound.

(** ** Names for the values of SHA-256 *)

(** [Work s i] and [Exch s i]: the sequences of the values of [a] and [e] in computation [s]; the first four are those
    of [d], [c], [b], [a] and of [h], [g], [f], [e] at its start, and round [t] adds number [t + 4].  Then: word [t] of
    the schedule, its sum with the constant, the two sums from which word [t + 16] is made, and a word of the result. *)
Inductive lane :=
| Num (z : Z) | Work (s i : nat) | Exch (s i : nat)
| Sched (s t : nat) | Keyed (s t : nat) | Part1 (s t : nat) | Part2 (s t : nat) | Out (s v : nat).

#[export] Instance lane_eq_dec : EqDecision lane.
Proof. solve_decision. Defined.

Section Names.
(** What is known about the computations: other names for a value, and the name to use for a result. *)
Context (value : lane → option lane) (norm : lane → lane).

Definition same (x : option lane) (target : lane) : bool :=
  match x with Some x => bool_decide (x = target) || bool_decide (value target = Some x) | None => false end.

Definition name_add (x y : option lane) : option lane :=
  match x, y with
  | Some (Num a), Some (Num b) => Some (Num (add32 a b))
  | Some (Sched s t), Some (Num k) => if k =? K256 @@ t then Some (Keyed s t) else None
  | Some (Part1 s t), _ => if same y (Sched s (t + 9)) then Some (Part2 s t) else None
  | Some (Work s i), _ =>
      if (64 <=? i)%nat && (i <=? 67)%nat && same y (Work s (i - 64)) then Some (norm (Out s (67 - i))) else None
  | Some (Exch s i), _ =>
      if (64 <=? i)%nat && (i <=? 67)%nat && same y (Exch s (i - 64)) then Some (norm (Out s (71 - i))) else None
  | _, Some (Sched s t) => if (9 <=? t)%nat && same x (Part1 s (t - 9)) then Some (Part2 s (t - 9)) else None
  | _, _ => None
  end.

Definition name_sigma0 (x y : option lane) : option lane :=
  match x, y with
  | Some (Num a), Some (Num b) => Some (Num (add32 a (fips_sigma0 b)))
  | Some (Sched s t), _ => if same y (Sched s (t + 1)) then Some (Part1 s t) else None
  | _, Some (Sched s t) => if (1 <=? t)%nat && same x (Sched s (t - 1)) then Some (Part1 s (t - 1)) else None
  | _, _ => None
  end.

Definition name_sigma1 (x y : option lane) : option lane :=
  match x with
  | Some (Part2 s t) => if (t <? 48)%nat && same y (Sched s (t + 14)) then Some (Sched s (t + 16)) else None
  | _ => None
  end.

(** The round is known from its last operand or from [a]. *)
Definition name_round (a b c d e f g h wk : option lane) : option lane * option lane :=
  let at_round := match wk, a with
    | Some (Keyed s t), _ => Some (s, t)
    | _, Some (Work s i) => if (3 <=? i)%nat then Some (s, i - 3)%nat else None
    | _, _ => None
    end in
  match at_round with
  | Some (s, t) =>
      if same a (Work s (t + 3)) && same b (Work s (t + 2)) && same c (Work s (t + 1)) && same d (Work s t) &&
         same e (Exch s (t + 3)) && same f (Exch s (t + 2)) && same g (Exch s (t + 1)) && same h (Exch s t) &&
         same wk (Keyed s t)
      then (Some (Work s (t + 4)), Some (Exch s (t + 4))) else (None, None)
  | None => (None, None)
  end.

Definition name_lane : Lane (option lane) := {|
  lane_const z := Some (Num z);
  lane_add := name_add;
  lane_sigma0 := name_sigma0;
  lane_sigma1 := name_sigma1;
  lane_round := name_round |}.

(** *** Their values *)

(** The state at the start of a computation and its schedule. *)
Context (H W : nat → list Z) (HH : ∀ s, length (H s) = 8%nat).
Context (HW : ∀ s t, (16 <= t < 64)%nat →
  W s @@ t = SPH_T32 (fips_sigma1 (W s @@ (t - 2)) + W s @@ (t - 7) + fips_sigma0 (W s @@ (t - 15)) + W s @@ (t - 16))).

Definition state (s n : nat) : list Z := fold_left (λ r t, hash_round (K256 @@ t) (W s @@ t) r) (seq 0 n) (H s).

Definition den (l : lane) : Z :=
  match l with
  | Num z => z
  | Work s i => if (i <=? 3)%nat then H s @@ (3 - i) else state s (i - 3) @@ 0
  | Exch s i => if (i <=? 3)%nat then H s @@ (7 - i) else state s (i - 3) @@ 4
  | Sched s t => W s @@ t
  | Keyed s t => SPH_T32 (K256 @@ t + W s @@ t)
  | Part1 s t => SPH_T32 (W s @@ t + fips_sigma0 (W s @@ (t + 1)))
  | Part2 s t => SPH_T32 (W s @@ t + fips_sigma0 (W s @@ (t + 1)) + W s @@ (t + 9))
  | Out s v => add_hash (H s) (W s) @@ v
  end.

Context (Hvalue : ∀ l l', value l = Some l' → den l = den l') (Hnorm : ∀ l, den (norm l) = den l).

Definition names (x : Z) (l : option lane) : Prop := ∀ k, l = Some k → x = den k.

Lemma same_den x y target : names x y → same y target = true → x = den target.
Proof.
  intros Hx. destruct y as [k|]; [|done]. cbn [same]. rewrite (Hx k eq_refl), orb_true_iff, !bool_decide_eq_true.
  intros [->|E]; [done|]. symmetry. by apply Hvalue.
Qed.

Lemma state_succ s n : state s (S n) = hash_round (K256 @@ n) (W s @@ n) (state s n).
Proof. unfold state. by rewrite seq_S, fold_left_app. Qed.

Lemma hash_rounds_state s : hash_rounds (W s) (H s) = state s 64.
Proof. unfold hash_rounds, state. reflexivity. Qed.

(** The state after [n] rounds. *)
Lemma state_lanes s n :
  state s n = [den (Work s (n + 3)); den (Work s (n + 2)); den (Work s (n + 1)); den (Work s n);
               den (Exch s (n + 3)); den (Exch s (n + 2)); den (Exch s (n + 1)); den (Exch s n)].
Proof.
  induction n as [|n IH].
  - specialize (HH s). unfold state, den. cbn [seq fold_left Nat.leb Nat.add Nat.sub]. set (l := H s) in *. clearbody l.
    do 8 (destruct l as [|? l]; [done|]). by destruct l.
  - assert (Ew : den (Work s (S n + 3)) = state s (S n) @@ 0)
      by (cbn [den]; rewrite (proj2 (Nat.leb_gt _ _)) by lia; by replace (S n + 3 - 3)%nat with (S n) by lia).
    assert (Ee : den (Exch s (S n + 3)) = state s (S n) @@ 4)
      by (cbn [den]; rewrite (proj2 (Nat.leb_gt _ _)) by lia; by replace (S n + 3 - 3)%nat with (S n) by lia).
    rewrite Ew, Ee, state_succ, IH.
    replace (S n + 2)%nat with (n + 3)%nat by lia. replace (S n + 1)%nat with (n + 2)%nat by lia.
    replace (S n)%nat with (n + 1)%nat by lia. reflexivity.
Qed.

#[local] Opaque state.

(** The equations of the standard on the named values. *)
Lemma den_keyed s t : add32 (den (Sched s t)) (K256 @@ t) = den (Keyed s t).
Proof. cbn [den]. unfold add32. by rewrite Z.add_comm. Qed.

Lemma den_part2 s t : add32 (den (Part1 s t)) (den (Sched s (t + 9))) = den (Part2 s t).
Proof. cbn [den]. unfold add32. rewrite !SPH_T32_mod. by rewrite Zplus_mod_idemp_l. Qed.

Lemma den_part1 s t : add32 (den (Sched s t)) (fips_sigma0 (den (Sched s (t + 1)))) = den (Part1 s t).
Proof. done. Qed.

Lemma den_sched s t : (t < 48)%nat → add32 (den (Part2 s t)) (fips_sigma1 (den (Sched s (t + 14)))) = den (Sched s (t + 16)).
Proof.
  intros Ht. cbn [den]. rewrite (HW s (t + 16)) by lia. unfold add32. rewrite !SPH_T32_mod, Zplus_mod_idemp_l.
  replace (t + 16 - 2)%nat with (t + 14)%nat by lia. replace (t + 16 - 7)%nat with (t + 9)%nat by lia.
  replace (t + 16 - 15)%nat with (t + 1)%nat by lia. replace (t + 16 - 16)%nat with t by lia. f_equal. lia.
Qed.

Lemma den_out s v : (v < 8)%nat → add32 (state s 64 @@ v) (H s @@ v) = den (Out s v).
Proof.
  intros Hv. cbn [den]. unfold add_hash. rewrite hash_rounds_state.
  rewrite (at_lookup (zip_with add32 (H s) (state s 64)) v (add32 (H s @@ v) (state s 64 @@ v))).
  { unfold add32. by rewrite Z.add_comm. }
  assert (Hl : length (state s 64) = 8%nat) by (rewrite <-hash_rounds_state; apply length_hash_rounds, HH).
  by rewrite lookup_zip_with, (lookup_at (H s)), (lookup_at (state s 64)) by (rewrite ?Hl, ?HH; lia).
Qed.

Lemma den_out_work s i : (64 <= i <= 67)%nat → add32 (den (Work s i)) (den (Work s (i - 64))) = den (Out s (67 - i)).
Proof.
  intros Hi. rewrite <-den_out by lia. rewrite state_lanes. cbn [Nat.add].
  assert (C : i = 64%nat ∨ i = 65%nat ∨ i = 66%nat ∨ i = 67%nat) by lia. destruct C as [->|[->|[->| ->]]];
    unfold at_; cbn [Nat.sub nth]; f_equal; unfold den; cbn [Nat.leb Nat.sub]; reflexivity.
Qed.

Lemma den_out_exch s i : (64 <= i <= 67)%nat → add32 (den (Exch s i)) (den (Exch s (i - 64))) = den (Out s (71 - i)).
Proof.
  intros Hi. rewrite <-den_out by lia. rewrite state_lanes. cbn [Nat.add].
  assert (C : i = 64%nat ∨ i = 65%nat ∨ i = 66%nat ∨ i = 67%nat) by lia. destruct C as [->|[->|[->| ->]]];
    unfold at_; cbn [Nat.sub nth]; f_equal; unfold den; cbn [Nat.leb Nat.sub]; reflexivity.
Qed.

Lemma den_round s t :
  lane_round (den (Work s (t + 3))) (den (Work s (t + 2))) (den (Work s (t + 1))) (den (Work s t))
    (den (Exch s (t + 3))) (den (Exch s (t + 2))) (den (Exch s (t + 1))) (den (Exch s t)) (den (Keyed s t))
  = (den (Work s (t + 4)), den (Exch s (t + 4))).
Proof.
  pose proof (state_lanes s (S t)) as E1. rewrite state_succ, state_lanes in E1. cbn [hash_round] in E1.
  replace (S t + 3)%nat with (t + 4)%nat in E1 by lia. 
  pose proof (f_equal (λ l, nth 0 l 0) E1) as Ea. pose proof (f_equal (λ l, nth 4 l 0) E1) as Ee. cbn [nth] in Ea, Ee.
  rewrite <-Ea, <-Ee. clear E1 Ea Ee.
  cbn [lane_round word_lane]. change (den (Keyed s t)) with (SPH_T32 (K256 @@ t + W s @@ t)).
  rewrite !SPH_T32_mod, (Z.mod_eq (_ + W s @@ t) (2 ^ 32)) by lia. set (q := (_ + W s @@ t) / 2 ^ 32).
  f_equal; (match goal with |- ?x mod _ = ?y mod _ => replace x with (y + - q * 2 ^ 32) by lia end; by apply Z.mod_add).
Qed.

(** The names follow the run on words. *)
Ltac by_same := repeat match goal with
  | E : _ && _ = true |- _ => apply andb_true_iff in E as [? ?]
  | E : (_ <=? _)%nat = true |- _ => apply Nat.leb_le in E
  | E : (_ <? _)%nat = true |- _ => apply Nat.ltb_lt in E
  | E : (_ =? _) = true |- _ => apply Z.eqb_eq in E as ->
  end.

Lemma names_add x y a b : names x a → names y b → names (add32 x y) (name_add a b).
Proof.
  intros Ha Hb k E. pose proof (λ l, same_den x a l Ha) as Sa. pose proof (λ l, same_den y b l Hb) as Sb.
  assert (Hx : ∀ l, a = Some l → x = den l) by (intros l; apply Ha).
  assert (Hy : ∀ l, b = Some l → y = den l) by (intros l; apply Hb).
  unfold name_add in E. repeat (case_match; try discriminate); simplify_eq; by_same;
    first [rewrite ?(Hx _ eq_refl), ?(Hy _ eq_refl), ?Hnorm;
           first [reflexivity | apply den_keyed
                 |erewrite Sb by eassumption; first [apply den_part2 | apply den_out_work; lia | apply den_out_exch; lia]]
          |rewrite (Hy _ eq_refl); erewrite Sa by eassumption; rewrite <-den_part2; do 2 f_equal; f_equal; lia].
Qed.

Lemma names_sigma0 x y a b : names x a → names y b → names (add32 x (fips_sigma0 y)) (name_sigma0 a b).
Proof.
  intros Ha Hb k E. pose proof (λ l, same_den x a l Ha) as Sa. pose proof (λ l, same_den y b l Hb) as Sb.
  assert (Hx : ∀ l, a = Some l → x = den l) by (intros l; apply Ha).
  assert (Hy : ∀ l, b = Some l → y = den l) by (intros l; apply Hb).
  unfold name_sigma0 in E. repeat (case_match; try discriminate); simplify_eq; by_same;
    first [rewrite ?(Hx _ eq_refl), ?(Hy _ eq_refl); first [reflexivity | erewrite Sb by eassumption; apply den_part1]
          |rewrite (Hy _ eq_refl); erewrite Sa by eassumption; rewrite <-den_part1; do 3 f_equal; f_equal; lia].
Qed.

Lemma names_sigma1 x y a b : names x a → names y b → names (add32 x (fips_sigma1 y)) (name_sigma1 a b).
Proof.
  intros Ha Hb k E. unfold name_sigma1 in E. repeat (case_match; try discriminate). simplify_eq. by_same.
  rewrite (Ha _ eq_refl). erewrite (same_den y) by eassumption. by apply den_sched.
Qed.

Lemma names_round x0 x1 x2 x3 x4 x5 x6 x7 x y0 y1 y2 y3 y4 y5 y6 y7 y :
  names x0 y0 → names x1 y1 → names x2 y2 → names x3 y3 → names x4 y4 → names x5 y5 → names x6 y6 → names x7 y7 →
  names x y →
  let p := lane_round x0 x1 x2 x3 x4 x5 x6 x7 x in let q := name_round y0 y1 y2 y3 y4 y5 y6 y7 y in
  names (fst p) (fst q) ∧ names (snd p) (snd q).
Proof.
  intros H0 H1 H2 H3 H4 H5 H6 H7 Hx p q. unfold q, name_round.
  match goal with |- context [match ?r with Some _ => _ | None => _ end] => destruct r as [[s t]|] end; [|done].
  destruct (_ && same y _) eqn:E; [|done]. by_same. cbn [fst snd].
  assert (Ep : p = (den (Work s (t + 4)), den (Exch s (t + 4)))); [|rewrite Ep; by split; intros k [= <-]].
  unfold p. rewrite (same_den x0 y0 _ H0), (same_den x1 y1 _ H1), (same_den x2 y2 _ H2), (same_den x3 y3 _ H3),
    (same_den x4 y4 _ H4), (same_den x5 y5 _ H5), (same_den x6 y6 _ H6), (same_den x7 y7 _ H7), (same_den x y _ Hx)
    by eassumption. apply den_round.
Qed.

Lemma names_laws : @LaneLaws (option lane) name_lane names.
Proof.
  constructor.
  - by intros z k [= <-].
  - exact names_add.
  - exact names_sigma0.
  - exact names_sigma1.
  - exact names_round.
Qed.
End Names.

(** ** Functions made of such code *)

(** What [load] reads and [save] writes at a pointer: four words, big-endian. *)
Definition load_ok (load : list Z → v4 Z) : Prop :=
  ∀ src, bytes src → (16 <= length src)%nat →
    load src = V4 (sph_dec32be src) (sph_dec32be (drop 4 src)) (sph_dec32be (drop 8 src)) (sph_dec32be (drop 12 src)).
Definition v4_list {T} (x : v4 T) : list T := let 'V4 a b c d := x in [a; b; c; d].
Definition save_ok (save : v4 Z → list Z) : Prop := ∀ x, words 32 (v4_list x) → save x = digest (v4_list x).

Section Block.
Context (load : list Z → v4 Z) (prologue body epilogue : list stmt) (r0 r1 : string).

(** [while (blocks--)] around [body], which reads at [chunk]. *)
Fixpoint block_loop (blocks : nat) (chunk : list Z) (rg : gmap string (v4 Z)) : option (gmap string (v4 Z)) :=
  match blocks with
  | O => Some rg
  | S blocks =>
      '(rg, _) ← exec (λ off, load (drop off chunk)) body rg [];
      block_loop blocks (drop 64 chunk) rg
  end.

(** The state [s] is loaded into two registers and stored from them. *)
Definition block_transform (s chunk : list Z) (blocks : nat) : list Z :=
  let rg := <[r1 := V4 (s @@ 4) (s @@ 5) (s @@ 6) (s @@ 7)]> {[r0 := V4 (s @@ 0) (s @@ 1) (s @@ 2) (s @@ 3)]} in
  default s (
    '(rg, _) ← exec (λ off, load (drop off chunk)) prologue rg [];
    rg ← block_loop blocks chunk rg;
    '(rg, _) ← exec (λ off, load (drop off chunk)) epilogue rg [];
    x ← rg !! r0; y ← rg !! r1;
    Some (v4_list x ++ v4_list y)).
End Block.

(** The double hash: the stores are made at [out]. *)
Definition stores_to (save : v4 Z → list Z) (mem : list Z) (out : nat) (st : list (nat * v4 Z)) : list Z :=
  fold_left (λ mem '(off, v), memcpy mem (out + off) (save v)) st mem.
Definition exec_2way (load : list Z → v4 Z) (save : v4 Z → list Z) (prog : list stmt) (mem : list Z) (out inp : nat) : list Z :=
  match exec (λ off, load (drop (inp + off) mem)) prog ∅ [] with
  | Some (_, st) => stores_to save mem out st
  | None => mem
  end.

(** *** One block *)

(** The names of the words at [off], of messages in blocks of 64 bytes; message [k] belongs to computation [stages * k]. *)
Definition block_names (stages blocks off : nat) : v4 (option lane) :=
  if ((off mod 16 =? 0) && (off <? 64 * blocks))%nat then
    let s := (stages * (off / 64))%nat in let t := ((off mod 64) / 4)%nat in
    V4 (Some (Sched s t)) (Some (Sched s (t + 1))) (Some (Sched s (t + 2))) (Some (Sched s (t + 3)))
  else V4 None None None None.

Definition no_value (l : lane) : option lane := None.
Definition block_lane : Lane (option lane) := name_lane no_value id.

(** The registers hold the words numbered by [p], in this order. *)
Definition arranged (f : nat → lane) (p : list nat) (i : nat) : v4 (option lane) :=
  let g j := Some (f (nth (i + j) p 0%nat)) in V4 (g 0%nat) (g 1%nat) (g 2%nat) (g 3%nat).
Definition at_start (v : nat) : lane := if (v <=? 3)%nat then Work 0 (3 - v) else Exch 0 (7 - v).

(** The symbolic exec takes the words from the order [p] to the words [f] in the order [q]. *)
Definition arranges (r0 r1 : string) (prog : list stmt) (p : list nat) (f : nat → lane) (q : list nat) : bool :=
  bool_decide ((λ r, (fst r !! r0, fst r !! r1)) <$>
    @exec _ block_lane (block_names 1 1) prog (<[r1 := arranged at_start p 4%nat]> {[r0 := arranged at_start p 0%nat]}) [] =
    Some (Some (arranged f q 0%nat), Some (arranged f q 4%nat))).

(** The words [w] in two registers, in the order [p]. *)
Definition holds (r0 r1 : string) (w : nat → Z) (p : list nat) (rg : gmap string (v4 Z)) : Prop :=
  let g j := w (nth j p 0%nat) in
  rg !! r0 = Some (V4 (g 0%nat) (g 1%nat) (g 2%nat) (g 3%nat)) ∧ rg !! r1 = Some (V4 (g 4%nat) (g 5%nat) (g 6%nat) (g 7%nat)).

Section BlockOk.
Context (load : list Z → v4 Z) (Hload : load_ok load) (r0 r1 : string).
Context (H chunk : list Z) (HH : length H = 8%nat) (Hb : bytes chunk) (Hl : (64 <= length chunk)%nat).
Let W := message_schedule (words_of (take 64 chunk)).
Abbreviation value_of := (den (λ _, H) (λ _, W)).

Lemma W_recurrence t : (16 <= t < 64)%nat →
  W @@ t = SPH_T32 (fips_sigma1 (W @@ (t - 2)) + W @@ (t - 7) + fips_sigma0 (W @@ (t - 15)) + W @@ (t - 16)).
Proof. destruct (message_schedule_spec (words_of (take 64 chunk)) (length_words_of _)) as (_ & _ & E). apply E. Qed.

Lemma W_read t : (t < 16)%nat → W @@ t = sph_dec32be (drop (4 * t) chunk).
Proof.
  intros Ht. destruct (message_schedule_spec (words_of (take 64 chunk)) (length_words_of _)) as (_ & E & _).
  fold W in E. rewrite E by done. destruct (read_block chunk 0 t Hb ltac:(lia) Ht) as [R _]. rewrite drop_0 in R.
  rewrite <-R. cbn [Nat.add]. apply ReadBE32_dec; [by apply Forall_drop|rewrite length_drop; lia].
Qed.

Lemma block_names_ok off : reps (names (λ _, H) (λ _, W)) (load (drop off chunk)) (block_names 1 1 off).
Proof.
  unfold block_names. destruct (Nat.eqb_spec (off mod 16) 0) as [E|]; cbn [andb]; [|by destruct (load _)].
  destruct (Nat.ltb_spec off (64 * 1)); [|by destruct (load _)].
  assert (Hq : ∃ q, (off = 16 * q)%nat) by (exists (off / 16)%nat; pose proof (Nat.div_mod_eq off 16); lia).
  destruct Hq as [q ->]. rewrite (Nat.div_small (16 * q) 64), (Nat.mod_small (16 * q) 64) by lia.
  replace (16 * q / 4)%nat with (4 * q)%nat by (apply Nat.div_unique with 0%nat; lia).
  rewrite Hload by (rewrite ?length_drop; (by apply Forall_drop) || lia). rewrite !drop_drop.
  repeat split; intros k [= <-]; cbn [den]; rewrite W_read by lia; do 2 f_equal; lia.
Qed.

Lemma at_start_value v : (v < 8)%nat → value_of (at_start v) = H @@ v.
Proof.
  intros Hv. unfold at_start. destruct (Nat.leb_spec v 3); cbn [den]; rewrite (proj2 (Nat.leb_le _ _)) by lia; f_equal; lia.
Qed.

Lemma reps_arranged f p i y :
  reps (names (λ _, H) (λ _, W)) y (arranged f p i) →
  let g j := value_of (f (nth (i + j) p 0%nat)) in y = V4 (g 0%nat) (g 1%nat) (g 2%nat) (g 3%nat).
Proof.
  destruct y as [y0 y1 y2 y3]. unfold arranged. cbn [reps]. intros (E0 & E1 & E2 & E3).
  by rewrite (E0 _ eq_refl), (E1 _ eq_refl), (E2 _ eq_refl), (E3 _ eq_refl).
Qed.

Lemma arranges_ok prog p f q rg :
  arranges r0 r1 prog p f q = true → (∀ j, nth j p 0%nat < 8)%nat → holds r0 r1 (λ v, H @@ v) p rg →
  ∃ rg' st, exec (λ off, load (drop off chunk)) prog rg [] = Some (rg', st) ∧ holds r0 r1 (λ v, value_of (f v)) q rg'.
Proof.
  intros E%bool_decide_eq_true Hp [H0 H1].
  apply fmap_Some in E as ([rt stt] & E & [= E0 E1]). cbn [fst] in E0, E1.
  pose proof (names_laws no_value id (λ _, H) (λ _, W) (λ _, HH) (λ _, W_recurrence) ltac:(done) ltac:(done)) as Hlaws.
  match type of E with exec _ _ ?rt0 _ = _ =>
    destruct (@exec_sound _ block_lane (names (λ _, H) (λ _, W)) Hlaws _ _ block_names_ok prog rg rt0 [] [] rt stt)
      as (rg' & st' & E' & Hrep & _); [|constructor|done|] end.
  - assert (Hs : ∀ j, names (λ _, H) (λ _, W) (H @@ nth j p 0%nat) (Some (at_start (nth j p 0%nat))))
      by (intros j k [= <-]; by rewrite at_start_value).
    intros r y. destruct (decide (r = r1)) as [->|Hne1]; [|destruct (decide (r = r0)) as [->|Hne0]].
    + rewrite lookup_insert_eq. intros [= <-]. eexists. split; [exact H1|]. unfold arranged. repeat split; apply Hs.
    + rewrite lookup_insert_ne, lookup_singleton_eq by done. intros [= <-]. eexists. split; [exact H0|]. unfold arranged. repeat split; apply Hs.
    + rewrite lookup_insert_ne, lookup_singleton_ne by done. done.
  - exists rg', st'. split; [done|]. destruct (Hrep _ _ (eq_sym E0)) as (y0 & L0 & R0). destruct (Hrep _ _ (eq_sym E1)) as (y1 & L1 & R1).
    split; [rewrite L0; f_equal; exact (reps_arranged f q 0 y0 R0)|rewrite L1; f_equal; exact (reps_arranged f q 4 y1 R1)].
Qed.
End BlockOk.

(** Code without loads does not depend on the memory. *)
Definition no_loads (prog : list stmt) : bool :=
  forallb (λ st, match st with Assign _ e | Store _ e => negb (loads e) end) prog.

Lemma eval_no_loads {T} `{Lane T} m m' rg e : loads e = false → eval m rg e = eval m' rg e.
Proof.
  induction e; cbn [loads eval]; rewrite ?orb_false_iff; intros Hl; try done;
    repeat match goal with H : _ ∧ _ |- _ => destruct H end;
    repeat match goal with IH : loads ?e = false → _ |- _ => rewrite IH by done; clear IH end; reflexivity.
Qed.

Lemma exec_no_loads {T} `{Lane T} m m' prog rg st : no_loads prog = true → exec m prog rg st = exec m' prog rg st.
Proof.
  revert rg st. induction prog as [|[r e|off e] prog IH]; intros rg st; cbn [no_loads forallb exec]; [done|..];
    rewrite andb_true_iff, negb_true_iff; intros [Hl Hp]; rewrite Hl, (eval_no_loads m m') by done; cbn [andb];
    (destruct (eval m' rg e); [|done]); cbn [mbind option_bind]; by apply IH.
Qed.

Lemma blocks_of_succ chunk n : blocks_of chunk 0 (S n) = take 64 chunk :: blocks_of (drop 64 chunk) 0 n.
Proof.
  unfold blocks_of. cbn [seq fmap list_fmap]. f_equal. rewrite <-(fmap_S_seq 0 n), <-list_fmap_compose.
  apply list_fmap_ext. intros ? k _. cbn [compose]. rewrite drop_drop. do 2 f_equal. lia.
Qed.

Lemma list_at8 (l : list Z) : length l = 8%nat → [l @@ 0; l @@ 1; l @@ 2; l @@ 3; l @@ 4; l @@ 5; l @@ 6; l @@ 7] = l.
Proof. intros Hl. do 8 (destruct l as [|? l]; [done|]). by destruct l. Qed.

(** The block function: the code before the loop puts the words into the order [p] and the code after it takes them
    back; the body makes the words of the next state. *)
Section BlockFunction.
Context (load : list Z → v4 Z) (pro body epi : list stmt) (r0 r1 : string) (p : list nat).
Context (Hload : load_ok load) (Hr : r0 ≠ r1) (Hp : ∀ j, (nth j p 0 < 8)%nat).

Lemma block_loop_ok H chunk blocks rg :
  arranges r0 r1 body p (Out 0) p = true →
  length H = 8%nat → bytes chunk → (64 * blocks <= length chunk)%nat → holds r0 r1 (λ v, H @@ v) p rg →
  ∃ rg', block_loop load body blocks chunk rg = Some rg' ∧
    holds r0 r1 (λ v, run compress (blocks_of chunk 0 blocks) H @@ v) p rg'.
Proof.
  intros Ebody. revert H chunk rg. induction blocks as [|n IH]; intros H chunk rg HH Hb Hl Hrg; [by eexists|].
  cbn [block_loop]. destruct (arranges_ok load Hload r0 r1 H chunk HH Hb ltac:(lia) body p (Out 0) p rg Ebody Hp Hrg)
    as (rg' & st & -> & Hrg'). cbn [mbind option_bind]. rewrite blocks_of_succ, run_cons.
  apply IH; [by apply compress_ok|by apply Forall_drop|rewrite length_drop; lia|exact Hrg'].
Qed.

Lemma block_transform_ok :
  no_loads pro = true → no_loads epi = true →
  arranges r0 r1 pro (seq 0 8) at_start p = true →
  arranges r0 r1 body p (Out 0) p = true →
  arranges r0 r1 epi p at_start (seq 0 8) = true →
  transform_ok (block_transform load pro body epi r0 r1).
Proof.
  intros Np Ne Epro Ebody Eepi H chunk blocks HH Hw Hb Hl.
  assert (Hseq : ∀ j, (nth j (seq 0 8) 0 < 8)%nat) by (intros j; do 8 (destruct j as [|j]; [cbn; lia|]); destruct j; cbn; lia).
  assert (Hz : bytes (replicate 64 0) ∧ (64 <= length (replicate 64 0))%nat)
    by (split; [by apply Forall_replicate|by rewrite length_replicate]).
  assert (Hstart : ∀ H' q rg, length H' = 8%nat → (∀ j, (nth j q 0 < 8)%nat) →
    holds r0 r1 (λ v, den (λ _, H') (λ _, message_schedule (words_of (take 64 (replicate 64 0)))) (at_start v)) q rg →
    holds r0 r1 (λ v, H' @@ v) q rg).
  { intros H' q rg HH' Hq. unfold holds. by rewrite !at_start_value. }
  unfold block_transform. set (rg := <[r1 := _]> _).
  assert (Hrg : holds r0 r1 (λ v, H @@ v) (seq 0 8) rg).
  { unfold rg. split; [rewrite lookup_insert_ne by done; by rewrite lookup_singleton_eq|by rewrite lookup_insert_eq]. }
  rewrite (exec_no_loads _ (λ off, load (drop off (replicate 64 0))) pro) by done.
  destruct (arranges_ok load Hload r0 r1 H _ HH (proj1 Hz) (proj2 Hz) pro (seq 0 8) at_start p rg Epro Hseq Hrg)
    as (rg1 & st1 & -> & Hrg1%Hstart); [|done..]. cbn [mbind option_bind].
  destruct (block_loop_ok H chunk blocks rg1 Ebody HH Hb Hl Hrg1) as (rg2 & -> & Hrg2). cbn [mbind option_bind].
  set (H2 := run compress _ H) in *.
  assert (HH2 : length H2 = 8%nat).
  { unfold H2. clear -HH. generalize (blocks_of chunk 0 blocks). intros l. revert H HH.
    induction l as [|b l IH]; intros H HH; [done|]. rewrite run_cons. by apply IH, compress_ok. }
  rewrite (exec_no_loads _ (λ off, load (drop off (replicate 64 0))) epi) by done.
  destruct (arranges_ok load Hload r0 r1 H2 _ HH2 (proj1 Hz) (proj2 Hz) epi p at_start (seq 0 8) rg2 Eepi Hp Hrg2)
    as (rg3 & st3 & -> & Hrg3%Hstart); [|done..]. cbn [mbind option_bind].
  destruct Hrg3 as [-> ->]. cbn [mbind option_bind default v4_list app seq nth]. by apply list_at8.
Qed.
End BlockFunction.

(** *** Two double hashes *)

(** Computations [3 k], [3 k + 1] and [3 k + 2] are the three compressions of message [k]: of its block, of the padding,
    and of the digest with its padding. *)
Definition stage (s : nat) : nat := (s mod 3)%nat.
Definition padding_schedule : list Z := Eval vm_compute in message_schedule padding_64.

Lemma padding_schedule_eq : message_schedule padding_64 = padding_schedule.
Proof. by vm_compute. Qed.

#[local] Opaque message_schedule add_hash.

Definition known_word (s t : nat) : option Z :=
  match stage s with
  | 1%nat => if (t <? 64)%nat then Some (padding_schedule @@ t) else None
  | 2%nat => if ((8 <=? t) && (t <? 16))%nat then Some (padding_32 @@ (t - 8)) else None
  | _ => None
  end.

Definition double_value (l : lane) : option lane :=
  match l with
  | Work s i => if (stage s =? 1)%nat || (3 <? i)%nat then None else Some (Num (Initialize @@ (3 - i)))
  | Exch s i => if (stage s =? 1)%nat || (3 <? i)%nat then None else Some (Num (Initialize @@ (7 - i)))
  | Sched s t => Num <$> known_word s t
  | Keyed s t => w ← known_word s t; Some (Num (SPH_T32 (K256 @@ t + w)))
  | Part1 s t => w ← known_word s t; w' ← known_word s (t + 1); Some (Num (SPH_T32 (w + fips_sigma0 w')))
  | _ => None
  end.

(** The result of one compression is the state or the words of the next. *)
Definition double_norm (l : lane) : lane :=
  match l with
  | Out s v =>
      match stage s with
      | 0%nat => if (v <=? 3)%nat then Work (S s) (3 - v) else if (v <=? 7)%nat then Exch (S s) (7 - v) else l
      | 1%nat => if (v <=? 7)%nat then Sched (S s) v else l
      | _ => l
      end
  | _ => l
  end.
Definition double_lane : Lane (option lane) := name_lane double_value double_norm.

(** The symbolic run stores the words of the two results one after the other. *)
Definition out4 (s v : nat) : v4 (option lane) :=
  V4 (Some (Out s v)) (Some (Out s (v + 1))) (Some (Out s (v + 2))) (Some (Out s (v + 3))).
Definition doubles (prog : list stmt) : bool :=
  bool_decide (snd <$> @exec _ double_lane (block_names 3 2) prog ∅ [] =
    Some [(0%nat, out4 2 0); (16%nat, out4 2 4); (32%nat, out4 5 0); (48%nat, out4 5 4)]).

Section Double.
Context (M : nat → list Z) (HM : ∀ k, length (M k) = 16%nat).

Definition first_hash (k : nat) : list Z := add_hash Initialize (message_schedule (M k)).
Definition second_hash (k : nat) : list Z := add_hash (first_hash k) (message_schedule padding_64).
Definition stage_state (s : nat) : list Z := match stage s with 1%nat => first_hash (s / 3) | _ => Initialize end.
Definition stage_words (s : nat) : list Z :=
  message_schedule match stage s with
  | 0%nat => M (s / 3)
  | 1%nat => padding_64
  | _ => second_hash (s / 3) ++ padding_32
  end.

Lemma length_first k : length (first_hash k) = 8%nat.
Proof. by apply length_add_hash. Qed.
Lemma length_second k : length (second_hash k) = 8%nat.
Proof. apply length_add_hash, length_first. Qed.

Lemma stage_state_ok s : length (stage_state s) = 8%nat.
Proof. unfold stage_state. case_match; [done|]. case_match; [apply length_first|done]. Qed.

Lemma stage_block s : length (match stage s with 0%nat => M (s / 3) | 1%nat => padding_64 | _ => second_hash (s / 3) ++ padding_32 end) = 16%nat.
Proof. destruct (stage s) as [|[|]]; [apply HM|done|]. by rewrite length_app, length_second. Qed.

Lemma stage_words_ok s t : (16 <= t < 64)%nat →
  stage_words s @@ t = SPH_T32 (fips_sigma1 (stage_words s @@ (t - 2)) + stage_words s @@ (t - 7)
    + fips_sigma0 (stage_words s @@ (t - 15)) + stage_words s @@ (t - 16)).
Proof. unfold stage_words. destruct (message_schedule_spec _ (stage_block s)) as (_ & _ & E). apply E. Qed.

Lemma stage_words_low s t : (t < 16)%nat →
  stage_words s @@ t = match stage s with 0%nat => M (s / 3) | 1%nat => padding_64 | _ => second_hash (s / 3) ++ padding_32 end @@ t.
Proof. unfold stage_words. destruct (message_schedule_spec _ (stage_block s)) as (_ & E & _). apply E. Qed.

Lemma stage_lt s : (stage s < 3)%nat.
Proof. apply Nat.mod_upper_bound. lia. Qed.

Lemma stage_next s : (stage s < 2)%nat → stage (S s) = S (stage s) ∧ (S s / 3 = s / 3)%nat.
Proof.
  unfold stage. intros Hs. pose proof (Nat.div_mod_eq s 3) as E. set (q := (s / 3)%nat) in *. set (r := (s mod 3)%nat) in *.
  split; symmetry; [apply Nat.mod_unique with q|apply Nat.div_unique with (S r)]; lia.
Qed.

Lemma known_word_ok s t w : known_word s t = Some w → stage_words s @@ t = w.
Proof.
  unfold known_word. pose proof (stage_lt s). destruct (stage s) as [|[|[|n]]] eqn:E; [done| | |lia].
  - destruct (Nat.ltb_spec t 64); [|done]. intros [= <-]. unfold stage_words. rewrite E, padding_schedule_eq. done.
  - destruct (Nat.leb_spec 8 t), (Nat.ltb_spec t 16); cbn [andb]; try done. intros [= <-].
    rewrite stage_words_low, E by done. unfold at_. rewrite app_nth2; rewrite length_second; (done || lia).
Qed.

Abbreviation double_den := (den stage_state stage_words).

Lemma double_value_ok l l' : double_value l = Some l' → double_den l = double_den l'.
Proof.
  destruct l as [z|s i|s i|s t|s t|s t|s t|s v]; cbn [double_value]; try done.
  - destruct (Nat.eqb_spec (stage s) 1), (Nat.ltb_spec 3 i); cbn [orb]; try done. intros [= <-]. cbn [den].
    rewrite (proj2 (Nat.leb_le _ _)) by lia. unfold stage_state. by destruct (stage s) as [|[|]].
  - destruct (Nat.eqb_spec (stage s) 1), (Nat.ltb_spec 3 i); cbn [orb]; try done. intros [= <-]. cbn [den].
    rewrite (proj2 (Nat.leb_le _ _)) by lia. unfold stage_state. by destruct (stage s) as [|[|]].
  - destruct (known_word s t) as [w|] eqn:E; [|done]. intros [= <-]. cbn [den]. by apply known_word_ok.
  - destruct (known_word s t) as [w|] eqn:E; [|done]. intros [= <-]. cbn [den]. by rewrite (known_word_ok s t w E).
  - destruct (known_word s t) as [w|] eqn:E; [|done]. cbn [mbind option_bind].
    destruct (known_word s (t + 1)) as [w'|] eqn:E'; [|done]. intros [= <-]. cbn [den].
    by rewrite (known_word_ok _ _ _ E), (known_word_ok _ _ _ E').
Qed.

Lemma stage_result s :
  (stage s < 2)%nat → add_hash (stage_state s) (stage_words s) = match stage s with 0%nat => first_hash (s / 3) | _ => second_hash (s / 3) end.
Proof. unfold stage_state, stage_words. by destruct (stage s) as [|[|]]; [done..|lia]. Qed.

Lemma double_norm_ok l : double_den (double_norm l) = double_den l.
Proof.
  destruct l as [z|s i|s i|s t|s t|s t|s t|s v]; try done. cbn [double_norm].
  pose proof (stage_lt s). pose proof (stage_next s) as N. pose proof (stage_result s) as R.
  destruct (stage s) as [|[|[|n]]] eqn:E; [| |done|lia].
  - destruct N as [N1 N2]; [lia|]. specialize (R ltac:(lia)).
    assert (S1 : stage_state (S s) = first_hash (s / 3)) by (unfold stage_state; by rewrite N1, N2).
    destruct (Nat.leb_spec v 3); [|destruct (Nat.leb_spec v 7); [|done]]; cbn [den]; rewrite R, S1;
      rewrite (proj2 (Nat.leb_le _ _)) by lia; f_equal; lia.
  - destruct N as [N1 N2]; [lia|]. specialize (R ltac:(lia)). destruct (Nat.leb_spec v 7); [|done]. cbn [den].
    rewrite R, stage_words_low, N1, N2 by lia. by rewrite at_app_l by (rewrite length_second; lia).
Qed.
End Double.

Section DoubleOk.
Context (load : list Z → v4 Z) (Hload : load_ok load) (mem : list Z) (inp : nat).
Context (Hb : bytes mem) (Hl : (inp + 128 <= length mem)%nat).

Definition message (k : nat) : list Z := words_of (take 64 (drop (inp + 64 * k) mem)).
Lemma length_message k : length (message k) = 16%nat.
Proof. apply length_words_of. Qed.

Abbreviation namedd := (names (stage_state message) (stage_words message)).

Lemma message_read k t : (k < 2)%nat → (t < 16)%nat →
  stage_words message (3 * k) @@ t = sph_dec32be (drop (inp + 64 * k + 4 * t) mem).
Proof.
  intros Hk Ht. rewrite (stage_words_low message length_message) by done. unfold stage.
  rewrite (Nat.mul_comm 3), Nat.Div0.mod_mul, Nat.div_mul by done. unfold message.
  destruct (read_block mem (inp + 64 * k) t Hb ltac:(lia) Ht) as [R _]. rewrite <-R.
  apply ReadBE32_dec; [by apply Forall_drop|rewrite length_drop; lia].
Qed.

Lemma double_names_ok off : reps namedd (load (drop (inp + off) mem)) (block_names 3 2 off).
Proof.
  unfold block_names. destruct (Nat.eqb_spec (off mod 16) 0) as [E|]; cbn [andb]; [|by destruct (load _)].
  destruct (Nat.ltb_spec off (64 * 2)); [|by destruct (load _)].
  pose proof (Nat.div_mod_eq off 64) as E64. pose proof (Nat.mod_upper_bound off 64 ltac:(lia)).
  set (k := (off / 64)%nat) in *. set (r := (off mod 64)%nat) in *. assert (Hk : (k < 2)%nat) by lia.
  assert (Hq : ∃ q, r = (16 * q)%nat).
  { pose proof (Nat.div_mod_eq off 16). exists (off / 16 - 4 * k)%nat. lia. }
  destruct Hq as [q Eq]. rewrite Eq. replace (16 * q / 4)%nat with (4 * q)%nat by (apply Nat.div_unique with 0%nat; lia).
  rewrite Hload by (rewrite ?length_drop; (by apply Forall_drop) || lia). rewrite !drop_drop.
  repeat split; intros l <-%(inj Some); cbn [den]; rewrite message_read by lia; do 2 f_equal; lia.
Qed.

Lemma reps_out4 s v x :
  reps namedd x (out4 s v) → let D := add_hash (stage_state message s) (stage_words message s) in
  x = V4 (D @@ v) (D @@ (v + 1)) (D @@ (v + 2)) (D @@ (v + 3)).
Proof.
  destruct x as [x0 x1 x2 x3]. unfold out4. cbn [reps]. intros (E0 & E1 & E2 & E3).
  by rewrite (E0 _ eq_refl), (E1 _ eq_refl), (E2 _ eq_refl), (E3 _ eq_refl).
Qed.

(** The stores of a result. *)
Lemma double_result k :
  add_hash (stage_state message (3 * k + 2)) (stage_words message (3 * k + 2)) = double_words (message k).
Proof.
  clear Hl Hb Hload. unfold stage_state, stage_words.
  assert (E : stage (3 * k + 2) = 2%nat) by (unfold stage; symmetry; apply Nat.mod_unique with k; lia).
  assert (Ed : ((3 * k + 2) / 3 = k)%nat) by (symmetry; apply Nat.div_unique with 2%nat; lia).
  by rewrite E, Ed.
Qed.
End DoubleOk.

Lemma digest_halves (D : list Z) : length D = 8%nat →
  digest [D @@ 0; D @@ 1; D @@ 2; D @@ 3] ++ digest [D @@ 4; D @@ 5; D @@ 6; D @@ 7] = digest D.
Proof. intros HD. rewrite <-(list_at8 D HD) at 9. unfold digest. by rewrite <-concat_app, <-fmap_app. Qed.

Lemma exec_2way_ok load save prog :
  load_ok load → save_ok save → doubles prog = true → double_ok 2 (exec_2way load save prog).
Proof.
  intros Hload Hsave E%bool_decide_eq_true mem out inp Hb Hi Ho. apply fmap_Some in E as ([rt stt] & E & Est).
  cbn [snd] in Est. subst stt.
  pose proof (names_laws double_value double_norm _ _ (stage_state_ok (message mem inp))
    (stage_words_ok _ (length_message mem inp)) (double_value_ok _ (length_message mem inp))
    (double_norm_ok _ (length_message mem inp))) as Hlaws.
  match type of E with _ = Some (_, ?stt) =>
    destruct (@exec_sound _ double_lane _ Hlaws _ _ (double_names_ok load Hload mem inp Hb ltac:(lia)) prog ∅ ∅ [] [] rt stt)
      as (rg & st & Erun & _ & Hst); [intros ? ? F; by rewrite lookup_empty in F|constructor|done|] end.
  unfold exec_2way. rewrite Erun. clear Erun E Hlaws.
  do 4 (apply Forall2_cons_inv_r in Hst as ([? ?] & ? & [Eo R] & Hst & ->); cbn [fst snd] in Eo, R; subst;
        apply reps_out4 in R as ->). apply Forall2_nil_inv_r in Hst as ->.
  pose proof (double_result mem inp 0) as R0. pose proof (double_result mem inp 1) as R1.
  change (3 * 0 + 2)%nat with 2%nat in R0. change (3 * 1 + 2)%nat with 5%nat in R1. rewrite R0, R1. clear R0 R1.
  destruct (double_words_ok (message mem inp 0)) as [L0 W0]. destruct (double_words_ok (message mem inp 1)) as [L1 W1].
  unfold stores_to, blocks_of. cbn [fold_left seq fmap list_fmap concat]. rewrite app_nil_r.
  rewrite !sha256d_64 by (rewrite length_take, length_drop; lia).
  fold (message mem inp 0). fold (message mem inp 1).
  set (D0 := double_words (message mem inp 0)) in *. set (D1 := double_words (message mem inp 1)) in *.
  clearbody D0 D1. assert (Hs : ∀ D i j k l, words 32 D → save (V4 (D @@ i) (D @@ j) (D @@ k) (D @@ l)) = digest [D @@ i; D @@ j; D @@ k; D @@ l]).
  { intros D i j k l HD. apply Hsave. cbn [v4_list]. repeat (apply Forall_cons_2; [by apply words_at|]). apply Forall_nil_2. }
  rewrite !(Hs D0), !(Hs D1) by assumption. rewrite <-(digest_halves D0 L0), <-(digest_halves D1 L1). clear Hs.
  assert (Hd : ∀ a b c d, length (digest [a; b; c; d]) = 16%nat) by (intros; by rewrite length_digest).
  cbn [Nat.add]. rewrite Nat.add_0_r.
  do 3 (rewrite (memcpy_memcpy mem) by (rewrite ?length_app, ?Hd; lia)). by rewrite <-?app_assoc.
Qed.
End Sha256Ni.
