(* ===== verification/Sha256X86.v ===== *)
(** * The code for the SHA instructions of x86: crypto/sha256_x86_shani.cpp

    [Transform] and [Transform_2way] as straight-line code, a statement for
    each of the source, with the inline functions that it calls; their
    correctness is the result of their symbolic runs. *)
From S2P Require Import Prelude SphTypes Stream Padding Sha256 Sha256Ni.
From stdpp Require Import strings gmap.
Import Sha256 Sha256Ni.
#[local] Open Scope string_scope.
#[local] Open Scope list_scope.
#[local] Open Scope Z_scope.

Module Sha256X86.

(** ** Bytes and registers *)

Definition MASK : list Z := [0x03; 0x02; 0x01; 0x00; 0x07; 0x06; 0x05; 0x04; 0x0b; 0x0a; 0x09; 0x08; 0x0f; 0x0e; 0x0d; 0x0c].

(** The words of 16 bytes, and the bytes of four words. *)
Definition register (b : list Z) : v4 Z :=
  V4 (le_join (take 4 b)) (le_join (take 4 (drop 4 b))) (le_join (take 4 (drop 8 b))) (le_join (take 4 (drop 12 b))).
Definition register_bytes (x : v4 Z) : list Z := concat (le_split 4 <$> v4_list x).

Definition INIT0 : v4 Z := register
  [0x8c; 0x68; 0x05; 0x9b; 0x7f; 0x52; 0x0e; 0x51; 0x85; 0xae; 0x67; 0xbb; 0x67; 0xe6; 0x09; 0x6a].
Definition INIT1 : v4 Z := register
  [0x19; 0xcd; 0xe0; 0x5b; 0xab; 0xd9; 0x83; 0x1f; 0x3a; 0xf5; 0x4f; 0xa5; 0x72; 0xf3; 0x6e; 0x3c].

(** [_mm_shuffle_epi8]: a byte of the mask chooses a byte, or zero. *)
Definition shuffle_epi8 (b mask : list Z) : list Z :=
  (λ c, if Z.testbit c 7 then 0 else b @@ Z.to_nat (Z.land c 15)) <$> mask.

Definition Load (src : list Z) : v4 Z := register (shuffle_epi8 (take 16 src) MASK).
Definition Save (x : v4 Z) : list Z := shuffle_epi8 (register_bytes x) MASK.

Definition set_epi64x (e1 e0 : Z) : v4 Z := V4 (SPH_T32 e0) (e0 ≫ 32) (SPH_T32 e1) (e1 ≫ 32).

(** ** The inline functions, with the names of the registers they are called on *)

Definition QuadRoundK (state0 state1 : string) (k1 k0 : Z) : list stmt :=
  ["msg" <~ Const (set_epi64x k1 k0);
   state1 <~ sha256rnds2_epu32 state1 state0 "msg";
   state0 <~ sha256rnds2_epu32 state0 state1 (shuffle_epi32 "msg" 0x0e)].

Definition QuadRound (state0 state1 m : string) (k1 k0 : Z) : list stmt :=
  ["msg" <~ add_epi32 m (Const (set_epi64x k1 k0));
   state1 <~ sha256rnds2_epu32 state1 state0 "msg";
   state0 <~ sha256rnds2_epu32 state0 state1 (shuffle_epi32 "msg" 0x0e)].

Definition ShiftMessageA (m0 m1 : string) : list stmt := [m0 <~ sha256msg1_epu32 m0 m1].

Definition ShiftMessageC (m0 m1 m2 : string) : list stmt :=
  [m2 <~ sha256msg2_epu32 (add_epi32 m2 (alignr_epi8 m1 m0 4)) m1].

Definition ShiftMessageB (m0 m1 m2 : string) : list stmt := ShiftMessageC m0 m1 m2 ++ ShiftMessageA m0 m1.

Definition Shuffle (s0 s1 : string) : list stmt :=
  ["t1" <~ shuffle_epi32 s0 0xb1;
   "t2" <~ shuffle_epi32 s1 0x1b;
   s0 <~ alignr_epi8 "t1" "t2" 0x08;
   s1 <~ blend_epi16 "t2" "t1" 0xf0].

Definition Unshuffle (s0 s1 : string) : list stmt :=
  ["t1" <~ shuffle_epi32 s0 0x1b;
   "t2" <~ shuffle_epi32 s1 0xb1;
   s0 <~ blend_epi16 "t1" "t2" 0xf0;
   s1 <~ alignr_epi8 "t2" "t1" 0x08].

(** ** The block function *)

(** The body of the loop over the blocks. *)
Definition Transform_body : list stmt :=
  concat [
    ["so0" <~ "s0"];
    ["so1" <~ "s1"];
    ["m0" <~ LoadAt 0];
    QuadRound "s0" "s1" "m0" 0xe9b5dba5b5c0fbcf 0x71374491428a2f98;
    ["m1" <~ LoadAt 16];
    QuadRound "s0" "s1" "m1" 0xab1c5ed5923f82a4 0x59f111f13956c25b;
    ShiftMessageA "m0" "m1";
    ["m2" <~ LoadAt 32];
    QuadRound "s0" "s1" "m2" 0x550c7dc3243185be 0x12835b01d807aa98;
    ShiftMessageA "m1" "m2";
    ["m3" <~ LoadAt 48];
    QuadRound "s0" "s1" "m3" 0xc19bf1749bdc06a7 0x80deb1fe72be5d74;
    ShiftMessageB "m2" "m3" "m0";
    QuadRound "s0" "s1" "m0" 0x240ca1cc0fc19dc6 0xefbe4786e49b69c1;
    ShiftMessageB "m3" "m0" "m1";
    QuadRound "s0" "s1" "m1" 0x76f988da5cb0a9dc 0x4a7484aa2de92c6f;
    ShiftMessageB "m0" "m1" "m2";
    QuadRound "s0" "s1" "m2" 0xbf597fc7b00327c8 0xa831c66d983e5152;
    ShiftMessageB "m1" "m2" "m3";
    QuadRound "s0" "s1" "m3" 0x1429296706ca6351 0xd5a79147c6e00bf3;
    ShiftMessageB "m2" "m3" "m0";
    QuadRound "s0" "s1" "m0" 0x53380d134d2c6dfc 0x2e1b213827b70a85;
    ShiftMessageB "m3" "m0" "m1";
    QuadRound "s0" "s1" "m1" 0x92722c8581c2c92e 0x766a0abb650a7354;
    ShiftMessageB "m0" "m1" "m2";
    QuadRound "s0" "s1" "m2" 0xc76c51a3c24b8b70 0xa81a664ba2bfe8a1;
    ShiftMessageB "m1" "m2" "m3";
    QuadRound "s0" "s1" "m3" 0x106aa070f40e3585 0xd6990624d192e819;
    ShiftMessageB "m2" "m3" "m0";
    QuadRound "s0" "s1" "m0" 0x34b0bcb52748774c 0x1e376c0819a4c116;
    ShiftMessageB "m3" "m0" "m1";
    QuadRound "s0" "s1" "m1" 0x682e6ff35b9cca4f 0x4ed8aa4a391c0cb3;
    ShiftMessageC "m0" "m1" "m2";
    QuadRound "s0" "s1" "m2" 0x8cc7020884c87814 0x78a5636f748f82ee;
    ShiftMessageC "m1" "m2" "m3";
    QuadRound "s0" "s1" "m3" 0xc67178f2bef9a3f7 0xa4506ceb90befffa;
    ["s0" <~ add_epi32 "s0" "so0"];
    ["s1" <~ add_epi32 "s1" "so1"]].

Definition Transform : list Z → list Z → nat → list Z :=
  block_transform Load (Shuffle "s0" "s1") Transform_body (Unshuffle "s0" "s1") "s0" "s1".

(** ** Two double hashes *)

Definition Transform_1 : list stmt :=
  concat [
    ["as0" <~ Const INIT0; "bs0" <~ "as0"];
    ["as1" <~ Const INIT1; "bs1" <~ "as1"];
    ["am0" <~ LoadAt 0];
    ["bm0" <~ LoadAt 64];
    QuadRound "as0" "as1" "am0" 0xe9b5dba5b5c0fbcf 0x71374491428a2f98;
    QuadRound "bs0" "bs1" "bm0" 0xe9b5dba5b5c0fbcf 0x71374491428a2f98;
    ["am1" <~ LoadAt 16];
    ["bm1" <~ LoadAt 80];
    QuadRound "as0" "as1" "am1" 0xab1c5ed5923f82a4 0x59f111f13956c25b;
    QuadRound "bs0" "bs1" "bm1" 0xab1c5ed5923f82a4 0x59f111f13956c25b;
    ShiftMessageA "am0" "am1";
    ShiftMessageA "bm0" "bm1";
    ["am2" <~ LoadAt 32];
    ["bm2" <~ LoadAt 96];
    QuadRound "as0" "as1" "am2" 0x550c7dc3243185be 0x12835b01d807aa98;
    QuadRound "bs0" "bs1" "bm2" 0x550c7dc3243185be 0x12835b01d807aa98;
    ShiftMessageA "am1" "am2";
    ShiftMessageA "bm1" "bm2";
    ["am3" <~ LoadAt 48];
    ["bm3" <~ LoadAt 112];
    QuadRound "as0" "as1" "am3" 0xc19bf1749bdc06a7 0x80deb1fe72be5d74;
    QuadRound "bs0" "bs1" "bm3" 0xc19bf1749bdc06a7 0x80deb1fe72be5d74;
    ShiftMessageB "am2" "am3" "am0";
    ShiftMessageB "bm2" "bm3" "bm0";
    QuadRound "as0" "as1" "am0" 0x240ca1cc0fc19dc6 0xefbe4786e49b69c1;
    QuadRound "bs0" "bs1" "bm0" 0x240ca1cc0fc19dc6 0xefbe4786e49b69c1;
    ShiftMessageB "am3" "am0" "am1";
    ShiftMessageB "bm3" "bm0" "bm1";
    QuadRound "as0" "as1" "am1" 0x76f988da5cb0a9dc 0x4a7484aa2de92c6f;
    QuadRound "bs0" "bs1" "bm1" 0x76f988da5cb0a9dc 0x4a7484aa2de92c6f;
    ShiftMessageB "am0" "am1" "am2";
    ShiftMessageB "bm0" "bm1" "bm2";
    QuadRound "as0" "as1" "am2" 0xbf597fc7b00327c8 0xa831c66d983e5152;
    QuadRound "bs0" "bs1" "bm2" 0xbf597fc7b00327c8 0xa831c66d983e5152;
    ShiftMessageB "am1" "am2" "am3";
    ShiftMessageB "bm1" "bm2" "bm3";
    QuadRound "as0" "as1" "am3" 0x1429296706ca6351 0xd5a79147c6e00bf3;
    QuadRound "bs0" "bs1" "bm3" 0x1429296706ca6351 0xd5a79147c6e00bf3;
    ShiftMessageB "am2" "am3" "am0";
    ShiftMessageB "bm2" "bm3" "bm0";
    QuadRound "as0" "as1" "am0" 0x53380d134d2c6dfc 0x2e1b213827b70a85;
    QuadRound "bs0" "bs1" "bm0" 0x53380d134d2c6dfc 0x2e1b213827b70a85;
    ShiftMessageB "am3" "am0" "am1";
    ShiftMessageB "bm3" "bm0" "bm1";
    QuadRound "as0" "as1" "am1" 0x92722c8581c2c92e 0x766a0abb650a7354;
    QuadRound "bs0" "bs1" "bm1" 0x92722c8581c2c92e 0x766a0abb650a7354;
    ShiftMessageB "am0" "am1" "am2";
    ShiftMessageB "bm0" "bm1" "bm2";
    QuadRound "as0" "as1" "am2" 0xc76c51a3c24b8b70 0xa81a664ba2bfe8a1;
    QuadRound "bs0" "bs1" "bm2" 0xc76c51a3c24b8b70 0xa81a664ba2bfe8a1;
    ShiftMessageB "am1" "am2" "am3";
    ShiftMessageB "bm1" "bm2" "bm3";
    QuadRound "as0" "as1" "am3" 0x106aa070f40e3585 0xd6990624d192e819;
    QuadRound "bs0" "bs1" "bm3" 0x106aa070f40e3585 0xd6990624d192e819;
    ShiftMessageB "am2" "am3" "am0";
    ShiftMessageB "bm2" "bm3" "bm0";
    QuadRound "as0" "as1" "am0" 0x34b0bcb52748774c 0x1e376c0819a4c116;
    QuadRound "bs0" "bs1" "bm0" 0x34b0bcb52748774c 0x1e376c0819a4c116;
    ShiftMessageB "am3" "am0" "am1";
    ShiftMessageB "bm3" "bm0" "bm1";
    QuadRound "as0" "as1" "am1" 0x682e6ff35b9cca4f 0x4ed8aa4a391c0cb3;
    QuadRound "bs0" "bs1" "bm1" 0x682e6ff35b9cca4f 0x4ed8aa4a391c0cb3;
    ShiftMessageC "am0" "am1" "am2";
    ShiftMessageC "bm0" "bm1" "bm2";
    QuadRound "as0" "as1" "am2" 0x8cc7020884c87814 0x78a5636f748f82ee;
    QuadRound "bs0" "bs1" "bm2" 0x8cc7020884c87814 0x78a5636f748f82ee;
    ShiftMessageC "am1" "am2" "am3";
    ShiftMessageC "bm1" "bm2" "bm3";
    QuadRound "as0" "as1" "am3" 0xc67178f2bef9a3f7 0xa4506ceb90befffa;
    QuadRound "bs0" "bs1" "bm3" 0xc67178f2bef9a3f7 0xa4506ceb90befffa;
    ["as0" <~ add_epi32 "as0" (Const INIT0)];
    ["bs0" <~ add_epi32 "bs0" (Const INIT0)];
    ["as1" <~ add_epi32 "as1" (Const INIT1)];
    ["bs1" <~ add_epi32 "bs1" (Const INIT1)]].

Definition Transform_2 : list stmt :=
  concat [
    ["aso0" <~ "as0"];
    ["bso0" <~ "bs0"];
    ["aso1" <~ "as1"];
    ["bso1" <~ "bs1"];
    QuadRoundK "as0" "as1" 0xe9b5dba5b5c0fbcf 0x71374491c28a2f98;
    QuadRoundK "bs0" "bs1" 0xe9b5dba5b5c0fbcf 0x71374491c28a2f98;
    QuadRoundK "as0" "as1" 0xab1c5ed5923f82a4 0x59f111f13956c25b;
    QuadRoundK "bs0" "bs1" 0xab1c5ed5923f82a4 0x59f111f13956c25b;
    QuadRoundK "as0" "as1" 0x550c7dc3243185be 0x12835b01d807aa98;
    QuadRoundK "bs0" "bs1" 0x550c7dc3243185be 0x12835b01d807aa98;
    QuadRoundK "as0" "as1" 0xc19bf3749bdc06a7 0x80deb1fe72be5d74;
    QuadRoundK "bs0" "bs1" 0xc19bf3749bdc06a7 0x80deb1fe72be5d74;
    QuadRoundK "as0" "as1" 0x240cf2540fe1edc6 0xf0fe4786649b69c1;
    QuadRoundK "bs0" "bs1" 0x240cf2540fe1edc6 0xf0fe4786649b69c1;
    QuadRoundK "as0" "as1" 0x16f988fa61b9411e 0x6cc984be4fe9346f;
    QuadRoundK "bs0" "bs1" 0x16f988fa61b9411e 0x6cc984be4fe9346f;
    QuadRoundK "as0" "as1" 0xb9d99ec7b019fc65 0xa88e5a6df2c65152;
    QuadRoundK "bs0" "bs1" 0xb9d99ec7b019fc65 0xa88e5a6df2c65152;
    QuadRoundK "as0" "as1" 0xc7353eb0fdb1232b 0xe70eeaa09a1231c3;
    QuadRoundK "bs0" "bs1" 0xc7353eb0fdb1232b 0xe70eeaa09a1231c3;
    QuadRoundK "as0" "as1" 0xdc1eeefd5a0f118f 0xcb976d5f3069bad5;
    QuadRoundK "bs0" "bs1" 0xdc1eeefd5a0f118f 0xcb976d5f3069bad5;
    QuadRoundK "as0" "as1" 0xe15d5b1658f4ca9d 0xde0b7a040a35b689;
    QuadRoundK "bs0" "bs1" 0xe15d5b1658f4ca9d 0xde0b7a040a35b689;
    QuadRoundK "as0" "as1" 0x6fab9537a507ea32 0x37088980007f3e86;
    QuadRoundK "bs0" "bs1" 0x6fab9537a507ea32 0x37088980007f3e86;
    QuadRoundK "as0" "as1" 0xc0bbbe37cdaa3b6d 0x0d8cd6f117406110;
    QuadRoundK "bs0" "bs1" 0xc0bbbe37cdaa3b6d 0x0d8cd6f117406110;
    QuadRoundK "as0" "as1" 0x6fd15ca70b02e931 0xdb48a36383613bda;
    QuadRoundK "bs0" "bs1" 0x6fd15ca70b02e931 0xdb48a36383613bda;
    QuadRoundK "as0" "as1" 0x6d4378906ed41a95 0x31338431521afaca;
    QuadRoundK "bs0" "bs1" 0x6d4378906ed41a95 0x31338431521afaca;
    QuadRoundK "as0" "as1" 0x532fb63cb5c9a0e6 0x9eccabbdc39c91f2;
    QuadRoundK "bs0" "bs1" 0x532fb63cb5c9a0e6 0x9eccabbdc39c91f2;
    QuadRoundK "as0" "as1" 0x4c191d76a4954b68 0x07237ea3d2c741c6;
    QuadRoundK "bs0" "bs1" 0x4c191d76a4954b68 0x07237ea3d2c741c6;
    ["as0" <~ add_epi32 "as0" "aso0"];
    ["bs0" <~ add_epi32 "bs0" "bso0"];
    ["as1" <~ add_epi32 "as1" "aso1"];
    ["bs1" <~ add_epi32 "bs1" "bso1"];
    Unshuffle "as0" "as1";
    Unshuffle "bs0" "bs1";
    ["am0" <~ "as0"];
    ["bm0" <~ "bs0"];
    ["am1" <~ "as1"];
    ["bm1" <~ "bs1"]].

Definition Transform_3 : list stmt :=
  concat [
    ["as0" <~ Const INIT0; "bs0" <~ "as0"];
    ["as1" <~ Const INIT1; "bs1" <~ "as1"];
    QuadRound "as0" "as1" "am0" 0xe9b5dba5b5c0fbcf 0x71374491428a2f98;
    QuadRound "bs0" "bs1" "bm0" 0xe9b5dba5b5c0fbcf 0x71374491428a2f98;
    QuadRound "as0" "as1" "am1" 0xab1c5ed5923f82a4 0x59f111f13956c25b;
    QuadRound "bs0" "bs1" "bm1" 0xab1c5ed5923f82a4 0x59f111f13956c25b;
    ShiftMessageA "am0" "am1";
    ShiftMessageA "bm0" "bm1";
    ["am2" <~ Const (set_epi64x 0x0 0x80000000); "bm2" <~ "am2"];
    QuadRoundK "as0" "as1" 0x550c7dc3243185be 0x12835b015807aa98;
    QuadRoundK "bs0" "bs1" 0x550c7dc3243185be 0x12835b015807aa98;
    ShiftMessageA "am1" "am2";
    ShiftMessageA "bm1" "bm2";
    ["am3" <~ Const (set_epi64x 0x10000000000 0x0); "bm3" <~ "am3"];
    QuadRoundK "as0" "as1" 0xc19bf2749bdc06a7 0x80deb1fe72be5d74;
    QuadRoundK "bs0" "bs1" 0xc19bf2749bdc06a7 0x80deb1fe72be5d74;
    ShiftMessageB "am2" "am3" "am0";
    ShiftMessageB "bm2" "bm3" "bm0";
    QuadRound "as0" "as1" "am0" 0x240ca1cc0fc19dc6 0xefbe4786e49b69c1;
    QuadRound "bs0" "bs1" "bm0" 0x240ca1cc0fc19dc6 0xefbe4786e49b69c1;
    ShiftMessageB "am3" "am0" "am1";
    ShiftMessageB "bm3" "bm0" "bm1";
    QuadRound "as0" "as1" "am1" 0x76f988da5cb0a9dc 0x4a7484aa2de92c6f;
    QuadRound "bs0" "bs1" "bm1" 0x76f988da5cb0a9dc 0x4a7484aa2de92c6f;
    ShiftMessageB "am0" "am1" "am2";
    ShiftMessageB "bm0" "bm1" "bm2";
    QuadRound "as0" "as1" "am2" 0xbf597fc7b00327c8 0xa831c66d983e5152;
    QuadRound "bs0" "bs1" "bm2" 0xbf597fc7b00327c8 0xa831c66d983e5152;
    ShiftMessageB "am1" "am2" "am3";
    ShiftMessageB "bm1" "bm2" "bm3";
    QuadRound "as0" "as1" "am3" 0x1429296706ca6351 0xd5a79147c6e00bf3;
    QuadRound "bs0" "bs1" "bm3" 0x1429296706ca6351 0xd5a79147c6e00bf3;
    ShiftMessageB "am2" "am3" "am0";
    ShiftMessageB "bm2" "bm3" "bm0";
    QuadRound "as0" "as1" "am0" 0x53380d134d2c6dfc 0x2e1b213827b70a85;
    QuadRound "bs0" "bs1" "bm0" 0x53380d134d2c6dfc 0x2e1b213827b70a85;
    ShiftMessageB "am3" "am0" "am1";
    ShiftMessageB "bm3" "bm0" "bm1";
    QuadRound "as0" "as1" "am1" 0x92722c8581c2c92e 0x766a0abb650a7354;
    QuadRound "bs0" "bs1" "bm1" 0x92722c8581c2c92e 0x766a0abb650a7354;
    ShiftMessageB "am0" "am1" "am2";
    ShiftMessageB "bm0" "bm1" "bm2";
    QuadRound "as0" "as1" "am2" 0xc76c51a3c24b8b70 0xa81a664ba2bfe8a1;
    QuadRound "bs0" "bs1" "bm2" 0xc76c51a3c24b8b70 0xa81a664ba2bfe8a1;
    ShiftMessageB "am1" "am2" "am3";
    ShiftMessageB "bm1" "bm2" "bm3";
    QuadRound "as0" "as1" "am3" 0x106aa070f40e3585 0xd6990624d192e819;
    QuadRound "bs0" "bs1" "bm3" 0x106aa070f40e3585 0xd6990624d192e819;
    ShiftMessageB "am2" "am3" "am0";
    ShiftMessageB "bm2" "bm3" "bm0";
    QuadRound "as0" "as1" "am0" 0x34b0bcb52748774c 0x1e376c0819a4c116;
    QuadRound "bs0" "bs1" "bm0" 0x34b0bcb52748774c 0x1e376c0819a4c116;
    ShiftMessageB "am3" "am0" "am1";
    ShiftMessageB "bm3" "bm0" "bm1";
    QuadRound "as0" "as1" "am1" 0x682e6ff35b9cca4f 0x4ed8aa4a391c0cb3;
    QuadRound "bs0" "bs1" "bm1" 0x682e6ff35b9cca4f 0x4ed8aa4a391c0cb3;
    ShiftMessageC "am0" "am1" "am2";
    ShiftMessageC "bm0" "bm1" "bm2";
    QuadRound "as0" "as1" "am2" 0x8cc7020884c87814 0x78a5636f748f82ee;
    QuadRound "bs0" "bs1" "bm2" 0x8cc7020884c87814 0x78a5636f748f82ee;
    ShiftMessageC "am1" "am2" "am3";
    ShiftMessageC "bm1" "bm2" "bm3";
    QuadRound "as0" "as1" "am3" 0xc67178f2bef9a3f7 0xa4506ceb90befffa;
    QuadRound "bs0" "bs1" "bm3" 0xc67178f2bef9a3f7 0xa4506ceb90befffa;
    ["as0" <~ add_epi32 "as0" (Const INIT0)];
    ["bs0" <~ add_epi32 "bs0" (Const INIT0)];
    ["as1" <~ add_epi32 "as1" (Const INIT1)];
    ["bs1" <~ add_epi32 "bs1" (Const INIT1)]].

Definition Extract_hash : list stmt :=
  concat [
    Unshuffle "as0" "as1";
    Unshuffle "bs0" "bs1";
    [Store 0 "as0"];
    [Store 16 "as1"];
    [Store 32 "bs0"];
    [Store 48 "bs1"]].

Definition Transform_2way : list Z → nat → nat → list Z := 
  exec_2way Load Save (Transform_1 ++ Transform_2 ++ Transform_3 ++ Extract_hash).

(** ** Correctness *)

Lemma x86_Load_ok : load_ok Load.
Proof.
  intros src Hb Hl. do 16 (destruct src as [|? src]; [cbn in Hl; lia|]). rewrite !dec32be_join by (cbn; lia). reflexivity.
Qed.

Lemma x86_Save_ok : save_ok Save.
Proof.
  intros [a b c d] _. unfold Save, register_bytes, digest, v4_list. cbn [fmap list_fmap concat].
  rewrite !enc32be_split. reflexivity.
Qed.

Lemma x86_Transform_ok : transform_ok Transform.
Proof.
  apply (block_transform_ok Load _ _ _ _ _ [5; 4; 1; 0; 7; 6; 3; 2]%nat); try done; [apply x86_Load_ok| |by vm_compute..].
  intros j. do 8 (destruct j as [|j]; [cbn; lia|]). destruct j; cbn; lia.
Qed.

Lemma x86_Transform_2way_ok : double_ok 2 Transform_2way.
Proof. apply exec_2way_ok; [apply x86_Load_ok|apply x86_Save_ok|by vm_compute]. Qed.
End Sha256X86.
