(* ===== verification/Sha256Arm.v ===== *)
(** * The code for the SHA instructions of ARM: crypto/sha256_arm_shani.cpp

    [Transform] and [Transform_2way] as straight-line code, a statement for
    each of the source; their correctness is the result of their symbolic
    runs. *)
From S2P Require Import Prelude SphTypes Stream Padding Sha256 Sha256Ni.
From stdpp Require Import strings gmap.
Import Sha256 Sha256Ni.
#[local] Open Scope string_scope.
#[local] Open Scope list_scope.
#[local] Open Scope Z_scope.

Module Sha256Arm.

(** ** Tables *)

Definition K : list Z :=
  [0x428A2F98; 0x71374491; 0xB5C0FBCF; 0xE9B5DBA5; 0x3956C25B; 0x59F111F1; 0x923F82A4; 0xAB1C5ED5;
   0xD807AA98; 0x12835B01; 0x243185BE; 0x550C7DC3; 0x72BE5D74; 0x80DEB1FE; 0x9BDC06A7; 0xC19BF174;
   0xE49B69C1; 0xEFBE4786; 0x0FC19DC6; 0x240CA1CC; 0x2DE92C6F; 0x4A7484AA; 0x5CB0A9DC; 0x76F988DA;
   0x983E5152; 0xA831C66D; 0xB00327C8; 0xBF597FC7; 0xC6E00BF3; 0xD5A79147; 0x06CA6351; 0x14292967;
   0x27B70A85; 0x2E1B2138; 0x4D2C6DFC; 0x53380D13; 0x650A7354; 0x766A0ABB; 0x81C2C92E; 0x92722C85;
   0xA2BFE8A1; 0xA81A664B; 0xC24B8B70; 0xC76C51A3; 0xD192E819; 0xD6990624; 0xF40E3585; 0x106AA070;
   0x19A4C116; 0x1E376C08; 0x2748774C; 0x34B0BCB5; 0x391C0CB3; 0x4ED8AA4A; 0x5B9CCA4F; 0x682E6FF3;
   0x748F82EE; 0x78A5636F; 0x84C87814; 0x8CC70208; 0x90BEFFFA; 0xA4506CEB; 0xBEF9A3F7; 0xC67178F2].
Definition INIT : list Z :=
  [0x6a09e667; 0xbb67ae85; 0x3c6ef372; 0xa54ff53a; 0x510e527f; 0x9b05688c; 0x1f83d9ab; 0x5be0cd19].
Definition MIDS : list Z :=
  [0xc28a2f98; 0x71374491; 0xb5c0fbcf; 0xe9b5dba5; 0x3956c25b; 0x59f111f1; 0x923f82a4; 0xab1c5ed5;
   0xd807aa98; 0x12835b01; 0x243185be; 0x550c7dc3; 0x72be5d74; 0x80deb1fe; 0x9bdc06a7; 0xc19bf374;
   0x649b69c1; 0xf0fe4786; 0x0fe1edc6; 0x240cf254; 0x4fe9346f; 0x6cc984be; 0x61b9411e; 0x16f988fa;
   0xf2c65152; 0xa88e5a6d; 0xb019fc65; 0xb9d99ec7; 0x9a1231c3; 0xe70eeaa0; 0xfdb1232b; 0xc7353eb0;
   0x3069bad5; 0xcb976d5f; 0x5a0f118f; 0xdc1eeefd; 0x0a35b689; 0xde0b7a04; 0x58f4ca9d; 0xe15d5b16;
   0x007f3e86; 0x37088980; 0xa507ea32; 0x6fab9537; 0x17406110; 0x0d8cd6f1; 0xcdaa3b6d; 0xc0bbbe37;
   0x83613bda; 0xdb48a363; 0x0b02e931; 0x6fd15ca7; 0x521afaca; 0x31338431; 0x6ed41a95; 0x6d437890;
   0xc39c91f2; 0x9eccabbd; 0xb5c9a0e6; 0x532fb63c; 0xd2c741c6; 0x07237ea3; 0xa4954b68; 0x4c191d76].
Definition FINS : list Z :=
  [0x5807aa98; 0x12835b01; 0x243185be; 0x550c7dc3; 0x80000000; 0x00000000; 0x00000000; 0x00000000;
   0x72be5d74; 0x80deb1fe; 0x9bdc06a7; 0xc19bf274].
Definition FINAL : list Z := [0x80000000; 0; 0; 0; 0; 0; 0; 0x100].

(** ** Bytes and registers *)

Definition vld1q_u32 (l : list Z) (i : nat) : v4 Z := V4 (l @@ i) (l @@ (i + 1)) (l @@ (i + 2)) (l @@ (i + 3)).

(** [vrev32q_u8]: the bytes of each word in reverse order. *)
Definition vrev32q_u8 (b : list Z) : list Z :=
  reverse (take 4 b) ++ reverse (take 4 (drop 4 b)) ++ reverse (take 4 (drop 8 b)) ++ reverse (take 4 (drop 12 b)).
Definition vreinterpretq_u32_u8 (b : list Z) : v4 Z :=
  V4 (le_join (take 4 b)) (le_join (take 4 (drop 4 b))) (le_join (take 4 (drop 8 b))) (le_join (take 4 (drop 12 b))).
Definition vreinterpretq_u8_u32 (x : v4 Z) : list Z := concat (le_split 4 <$> v4_list x).

Definition load (src : list Z) : v4 Z := vreinterpretq_u32_u8 (vrev32q_u8 (take 16 src)).
Definition store (x : v4 Z) : list Z := vrev32q_u8 (vreinterpretq_u8_u32 x).

(** ** The block function *)

(** The body of the loop over the blocks. *)
Definition Transform_body : list stmt :=
  ["ABEF_SAVE" <~ "STATE0"; "CDGH_SAVE" <~ "STATE1"; "MSG0" <~ LoadAt 0; "MSG1" <~ LoadAt 16; "MSG2" <~ LoadAt 32;
   "MSG3" <~ LoadAt 48; "TMP0" <~ vaddq_u32 "MSG0" (Const (vld1q_u32 K 0)); "TMP2" <~ "STATE0";
   "MSG0" <~ vsha256su0q_u32 "MSG0" "MSG1"; "STATE0" <~ vsha256hq_u32 "STATE0" "STATE1" "TMP0";
   "STATE1" <~ vsha256h2q_u32 "STATE1" "TMP2" "TMP0"; "MSG0" <~ vsha256su1q_u32 "MSG0" "MSG2" "MSG3";
   "TMP0" <~ vaddq_u32 "MSG1" (Const (vld1q_u32 K 4)); "TMP2" <~ "STATE0"; "MSG1" <~ vsha256su0q_u32 "MSG1" "MSG2";
   "STATE0" <~ vsha256hq_u32 "STATE0" "STATE1" "TMP0"; "STATE1" <~ vsha256h2q_u32 "STATE1" "TMP2" "TMP0";
   "MSG1" <~ vsha256su1q_u32 "MSG1" "MSG3" "MSG0"; "TMP0" <~ vaddq_u32 "MSG2" (Const (vld1q_u32 K 8));
   "TMP2" <~ "STATE0"; "MSG2" <~ vsha256su0q_u32 "MSG2" "MSG3"; "STATE0" <~ vsha256hq_u32 "STATE0" "STATE1" "TMP0";
   "STATE1" <~ vsha256h2q_u32 "STATE1" "TMP2" "TMP0"; "MSG2" <~ vsha256su1q_u32 "MSG2" "MSG0" "MSG1";
   "TMP0" <~ vaddq_u32 "MSG3" (Const (vld1q_u32 K 12)); "TMP2" <~ "STATE0"; "MSG3" <~ vsha256su0q_u32 "MSG3" "MSG0";
   "STATE0" <~ vsha256hq_u32 "STATE0" "STATE1" "TMP0"; "STATE1" <~ vsha256h2q_u32 "STATE1" "TMP2" "TMP0";
   "MSG3" <~ vsha256su1q_u32 "MSG3" "MSG1" "MSG2"; "TMP0" <~ vaddq_u32 "MSG0" (Const (vld1q_u32 K 16));
   "TMP2" <~ "STATE0"; "MSG0" <~ vsha256su0q_u32 "MSG0" "MSG1"; "STATE0" <~ vsha256hq_u32 "STATE0" "STATE1" "TMP0";
   "STATE1" <~ vsha256h2q_u32 "STATE1" "TMP2" "TMP0"; "MSG0" <~ vsha256su1q_u32 "MSG0" "MSG2" "MSG3";
   "TMP0" <~ vaddq_u32 "MSG1" (Const (vld1q_u32 K 20)); "TMP2" <~ "STATE0"; "MSG1" <~ vsha256su0q_u32 "MSG1" "MSG2";
   "STATE0" <~ vsha256hq_u32 "STATE0" "STATE1" "TMP0"; "STATE1" <~ vsha256h2q_u32 "STATE1" "TMP2" "TMP0";
   "MSG1" <~ vsha256su1q_u32 "MSG1" "MSG3" "MSG0"; "TMP0" <~ vaddq_u32 "MSG2" (Const (vld1q_u32 K 24));
   "TMP2" <~ "STATE0"; "MSG2" <~ vsha256su0q_u32 "MSG2" "MSG3"; "STATE0" <~ vsha256hq_u32 "STATE0" "STATE1" "TMP0";
   "STATE1" <~ vsha256h2q_u32 "STATE1" "TMP2" "TMP0"; "MSG2" <~ vsha256su1q_u32 "MSG2" "MSG0" "MSG1";
   "TMP0" <~ vaddq_u32 "MSG3" (Const (vld1q_u32 K 28)); "TMP2" <~ "STATE0"; "MSG3" <~ vsha256su0q_u32 "MSG3" "MSG0";
   "STATE0" <~ vsha256hq_u32 "STATE0" "STATE1" "TMP0"; "STATE1" <~ vsha256h2q_u32 "STATE1" "TMP2" "TMP0";
   "MSG3" <~ vsha256su1q_u32 "MSG3" "MSG1" "MSG2"; "TMP0" <~ vaddq_u32 "MSG0" (Const (vld1q_u32 K 32));
   "TMP2" <~ "STATE0"; "MSG0" <~ vsha256su0q_u32 "MSG0" "MSG1"; "STATE0" <~ vsha256hq_u32 "STATE0" "STATE1" "TMP0";
   "STATE1" <~ vsha256h2q_u32 "STATE1" "TMP2" "TMP0"; "MSG0" <~ vsha256su1q_u32 "MSG0" "MSG2" "MSG3";
   "TMP0" <~ vaddq_u32 "MSG1" (Const (vld1q_u32 K 36)); "TMP2" <~ "STATE0"; "MSG1" <~ vsha256su0q_u32 "MSG1" "MSG2";
   "STATE0" <~ vsha256hq_u32 "STATE0" "STATE1" "TMP0"; "STATE1" <~ vsha256h2q_u32 "STATE1" "TMP2" "TMP0";
   "MSG1" <~ vsha256su1q_u32 "MSG1" "MSG3" "MSG0"; "TMP0" <~ vaddq_u32 "MSG2" (Const (vld1q_u32 K 40));
   "TMP2" <~ "STATE0"; "MSG2" <~ vsha256su0q_u32 "MSG2" "MSG3"; "STATE0" <~ vsha256hq_u32 "STATE0" "STATE1" "TMP0";
   "STATE1" <~ vsha256h2q_u32 "STATE1" "TMP2" "TMP0"; "MSG2" <~ vsha256su1q_u32 "MSG2" "MSG0" "MSG1";
   "TMP0" <~ vaddq_u32 "MSG3" (Const (vld1q_u32 K 44)); "TMP2" <~ "STATE0"; "MSG3" <~ vsha256su0q_u32 "MSG3" "MSG0";
   "STATE0" <~ vsha256hq_u32 "STATE0" "STATE1" "TMP0"; "STATE1" <~ vsha256h2q_u32 "STATE1" "TMP2" "TMP0";
   "MSG3" <~ vsha256su1q_u32 "MSG3" "MSG1" "MSG2"; "TMP0" <~ vaddq_u32 "MSG0" (Const (vld1q_u32 K 48));
   "TMP2" <~ "STATE0"; "STATE0" <~ vsha256hq_u32 "STATE0" "STATE1" "TMP0";
   "STATE1" <~ vsha256h2q_u32 "STATE1" "TMP2" "TMP0"; "TMP0" <~ vaddq_u32 "MSG1" (Const (vld1q_u32 K 52));
   "TMP2" <~ "STATE0"; "STATE0" <~ vsha256hq_u32 "STATE0" "STATE1" "TMP0";
   "STATE1" <~ vsha256h2q_u32 "STATE1" "TMP2" "TMP0"; "TMP0" <~ vaddq_u32 "MSG2" (Const (vld1q_u32 K 56));
   "TMP2" <~ "STATE0"; "STATE0" <~ vsha256hq_u32 "STATE0" "STATE1" "TMP0";
   "STATE1" <~ vsha256h2q_u32 "STATE1" "TMP2" "TMP0"; "TMP0" <~ vaddq_u32 "MSG3" (Const (vld1q_u32 K 60));
   "TMP2" <~ "STATE0"; "STATE0" <~ vsha256hq_u32 "STATE0" "STATE1" "TMP0";
   "STATE1" <~ vsha256h2q_u32 "STATE1" "TMP2" "TMP0"; "STATE0" <~ vaddq_u32 "STATE0" "ABEF_SAVE";
   "STATE1" <~ vaddq_u32 "STATE1" "CDGH_SAVE"].

Definition Transform : list Z → list Z → nat → list Z := block_transform load [] Transform_body [] "STATE0" "STATE1".

(** ** Two double hashes *)

Definition Transform_1 : list stmt :=
  ["STATE0A" <~ Const (vld1q_u32 INIT 0); "STATE0B" <~ "STATE0A"; "STATE1A" <~ Const (vld1q_u32 INIT 4);
   "STATE1B" <~ "STATE1A"; "MSG0A" <~ LoadAt 0; "MSG1A" <~ LoadAt 16; "MSG2A" <~ LoadAt 32; "MSG3A" <~ LoadAt 48;
   "MSG0B" <~ LoadAt 64; "MSG1B" <~ LoadAt 80; "MSG2B" <~ LoadAt 96; "MSG3B" <~ LoadAt 112;
   "TMP" <~ Const (vld1q_u32 K 0); "TMP0A" <~ vaddq_u32 "MSG0A" "TMP"; "TMP0B" <~ vaddq_u32 "MSG0B" "TMP";
   "TMP2A" <~ "STATE0A"; "TMP2B" <~ "STATE0B"; "MSG0A" <~ vsha256su0q_u32 "MSG0A" "MSG1A";
   "MSG0B" <~ vsha256su0q_u32 "MSG0B" "MSG1B"; "STATE0A" <~ vsha256hq_u32 "STATE0A" "STATE1A" "TMP0A";
   "STATE0B" <~ vsha256hq_u32 "STATE0B" "STATE1B" "TMP0B"; "STATE1A" <~ vsha256h2q_u32 "STATE1A" "TMP2A" "TMP0A";
   "STATE1B" <~ vsha256h2q_u32 "STATE1B" "TMP2B" "TMP0B"; "MSG0A" <~ vsha256su1q_u32 "MSG0A" "MSG2A" "MSG3A";
   "MSG0B" <~ vsha256su1q_u32 "MSG0B" "MSG2B" "MSG3B"; "TMP" <~ Const (vld1q_u32 K 4);
   "TMP0A" <~ vaddq_u32 "MSG1A" "TMP"; "TMP0B" <~ vaddq_u32 "MSG1B" "TMP"; "TMP2A" <~ "STATE0A"; "TMP2B" <~ "STATE0B";
   "MSG1A" <~ vsha256su0q_u32 "MSG1A" "MSG2A"; "MSG1B" <~ vsha256su0q_u32 "MSG1B" "MSG2B";
   "STATE0A" <~ vsha256hq_u32 "STATE0A" "STATE1A" "TMP0A"; "STATE0B" <~ vsha256hq_u32 "STATE0B" "STATE1B" "TMP0B";
   "STATE1A" <~ vsha256h2q_u32 "STATE1A" "TMP2A" "TMP0A"; "STATE1B" <~ vsha256h2q_u32 "STATE1B" "TMP2B" "TMP0B";
   "MSG1A" <~ vsha256su1q_u32 "MSG1A" "MSG3A" "MSG0A"; "MSG1B" <~ vsha256su1q_u32 "MSG1B" "MSG3B" "MSG0B";
   "TMP" <~ Const (vld1q_u32 K 8); "TMP0A" <~ vaddq_u32 "MSG2A" "TMP"; "TMP0B" <~ vaddq_u32 "MSG2B" "TMP";
   "TMP2A" <~ "STATE0A"; "TMP2B" <~ "STATE0B"; "MSG2A" <~ vsha256su0q_u32 "MSG2A" "MSG3A";
   "MSG2B" <~ vsha256su0q_u32 "MSG2B" "MSG3B"; "STATE0A" <~ vsha256hq_u32 "STATE0A" "STATE1A" "TMP0A";
   "STATE0B" <~ vsha256hq_u32 "STATE0B" "STATE1B" "TMP0B"; "STATE1A" <~ vsha256h2q_u32 "STATE1A" "TMP2A" "TMP0A";
   "STATE1B" <~ vsha256h2q_u32 "STATE1B" "TMP2B" "TMP0B"; "MSG2A" <~ vsha256su1q_u32 "MSG2A" "MSG0A" "MSG1A";
   "MSG2B" <~ vsha256su1q_u32 "MSG2B" "MSG0B" "MSG1B"; "TMP" <~ Const (vld1q_u32 K 12);
   "TMP0A" <~ vaddq_u32 "MSG3A" "TMP"; "TMP0B" <~ vaddq_u32 "MSG3B" "TMP"; "TMP2A" <~ "STATE0A"; "TMP2B" <~ "STATE0B";
   "MSG3A" <~ vsha256su0q_u32 "MSG3A" "MSG0A"; "MSG3B" <~ vsha256su0q_u32 "MSG3B" "MSG0B";
   "STATE0A" <~ vsha256hq_u32 "STATE0A" "STATE1A" "TMP0A"; "STATE0B" <~ vsha256hq_u32 "STATE0B" "STATE1B" "TMP0B";
   "STATE1A" <~ vsha256h2q_u32 "STATE1A" "TMP2A" "TMP0A"; "STATE1B" <~ vsha256h2q_u32 "STATE1B" "TMP2B" "TMP0B";
   "MSG3A" <~ vsha256su1q_u32 "MSG3A" "MSG1A" "MSG2A"; "MSG3B" <~ vsha256su1q_u32 "MSG3B" "MSG1B" "MSG2B";
   "TMP" <~ Const (vld1q_u32 K 16); "TMP0A" <~ vaddq_u32 "MSG0A" "TMP"; "TMP0B" <~ vaddq_u32 "MSG0B" "TMP";
   "TMP2A" <~ "STATE0A"; "TMP2B" <~ "STATE0B"; "MSG0A" <~ vsha256su0q_u32 "MSG0A" "MSG1A";
   "MSG0B" <~ vsha256su0q_u32 "MSG0B" "MSG1B"; "STATE0A" <~ vsha256hq_u32 "STATE0A" "STATE1A" "TMP0A";
   "STATE0B" <~ vsha256hq_u32 "STATE0B" "STATE1B" "TMP0B"; "STATE1A" <~ vsha256h2q_u32 "STATE1A" "TMP2A" "TMP0A";
   "STATE1B" <~ vsha256h2q_u32 "STATE1B" "TMP2B" "TMP0B"; "MSG0A" <~ vsha256su1q_u32 "MSG0A" "MSG2A" "MSG3A";
   "MSG0B" <~ vsha256su1q_u32 "MSG0B" "MSG2B" "MSG3B"; "TMP" <~ Const (vld1q_u32 K 20);
   "TMP0A" <~ vaddq_u32 "MSG1A" "TMP"; "TMP0B" <~ vaddq_u32 "MSG1B" "TMP"; "TMP2A" <~ "STATE0A"; "TMP2B" <~ "STATE0B";
   "MSG1A" <~ vsha256su0q_u32 "MSG1A" "MSG2A"; "MSG1B" <~ vsha256su0q_u32 "MSG1B" "MSG2B";
   "STATE0A" <~ vsha256hq_u32 "STATE0A" "STATE1A" "TMP0A"; "STATE0B" <~ vsha256hq_u32 "STATE0B" "STATE1B" "TMP0B";
   "STATE1A" <~ vsha256h2q_u32 "STATE1A" "TMP2A" "TMP0A"; "STATE1B" <~ vsha256h2q_u32 "STATE1B" "TMP2B" "TMP0B";
   "MSG1A" <~ vsha256su1q_u32 "MSG1A" "MSG3A" "MSG0A"; "MSG1B" <~ vsha256su1q_u32 "MSG1B" "MSG3B" "MSG0B";
   "TMP" <~ Const (vld1q_u32 K 24); "TMP0A" <~ vaddq_u32 "MSG2A" "TMP"; "TMP0B" <~ vaddq_u32 "MSG2B" "TMP";
   "TMP2A" <~ "STATE0A"; "TMP2B" <~ "STATE0B"; "MSG2A" <~ vsha256su0q_u32 "MSG2A" "MSG3A";
   "MSG2B" <~ vsha256su0q_u32 "MSG2B" "MSG3B"; "STATE0A" <~ vsha256hq_u32 "STATE0A" "STATE1A" "TMP0A";
   "STATE0B" <~ vsha256hq_u32 "STATE0B" "STATE1B" "TMP0B"; "STATE1A" <~ vsha256h2q_u32 "STATE1A" "TMP2A" "TMP0A";
   "STATE1B" <~ vsha256h2q_u32 "STATE1B" "TMP2B" "TMP0B"; "MSG2A" <~ vsha256su1q_u32 "MSG2A" "MSG0A" "MSG1A";
   "MSG2B" <~ vsha256su1q_u32 "MSG2B" "MSG0B" "MSG1B"; "TMP" <~ Const (vld1q_u32 K 28);
   "TMP0A" <~ vaddq_u32 "MSG3A" "TMP"; "TMP0B" <~ vaddq_u32 "MSG3B" "TMP"; "TMP2A" <~ "STATE0A"; "TMP2B" <~ "STATE0B";
   "MSG3A" <~ vsha256su0q_u32 "MSG3A" "MSG0A"; "MSG3B" <~ vsha256su0q_u32 "MSG3B" "MSG0B";
   "STATE0A" <~ vsha256hq_u32 "STATE0A" "STATE1A" "TMP0A"; "STATE0B" <~ vsha256hq_u32 "STATE0B" "STATE1B" "TMP0B";
   "STATE1A" <~ vsha256h2q_u32 "STATE1A" "TMP2A" "TMP0A"; "STATE1B" <~ vsha256h2q_u32 "STATE1B" "TMP2B" "TMP0B";
   "MSG3A" <~ vsha256su1q_u32 "MSG3A" "MSG1A" "MSG2A"; "MSG3B" <~ vsha256su1q_u32 "MSG3B" "MSG1B" "MSG2B";
   "TMP" <~ Const (vld1q_u32 K 32); "TMP0A" <~ vaddq_u32 "MSG0A" "TMP"; "TMP0B" <~ vaddq_u32 "MSG0B" "TMP";
   "TMP2A" <~ "STATE0A"; "TMP2B" <~ "STATE0B"; "MSG0A" <~ vsha256su0q_u32 "MSG0A" "MSG1A";
   "MSG0B" <~ vsha256su0q_u32 "MSG0B" "MSG1B"; "STATE0A" <~ vsha256hq_u32 "STATE0A" "STATE1A" "TMP0A";
   "STATE0B" <~ vsha256hq_u32 "STATE0B" "STATE1B" "TMP0B"; "STATE1A" <~ vsha256h2q_u32 "STATE1A" "TMP2A" "TMP0A";
   "STATE1B" <~ vsha256h2q_u32 "STATE1B" "TMP2B" "TMP0B"; "MSG0A" <~ vsha256su1q_u32 "MSG0A" "MSG2A" "MSG3A";
   "MSG0B" <~ vsha256su1q_u32 "MSG0B" "MSG2B" "MSG3B"; "TMP" <~ Const (vld1q_u32 K 36);
   "TMP0A" <~ vaddq_u32 "MSG1A" "TMP"; "TMP0B" <~ vaddq_u32 "MSG1B" "TMP"; "TMP2A" <~ "STATE0A"; "TMP2B" <~ "STATE0B";
   "MSG1A" <~ vsha256su0q_u32 "MSG1A" "MSG2A"; "MSG1B" <~ vsha256su0q_u32 "MSG1B" "MSG2B";
   "STATE0A" <~ vsha256hq_u32 "STATE0A" "STATE1A" "TMP0A"; "STATE0B" <~ vsha256hq_u32 "STATE0B" "STATE1B" "TMP0B";
   "STATE1A" <~ vsha256h2q_u32 "STATE1A" "TMP2A" "TMP0A"; "STATE1B" <~ vsha256h2q_u32 "STATE1B" "TMP2B" "TMP0B";
   "MSG1A" <~ vsha256su1q_u32 "MSG1A" "MSG3A" "MSG0A"; "MSG1B" <~ vsha256su1q_u32 "MSG1B" "MSG3B" "MSG0B";
   "TMP" <~ Const (vld1q_u32 K 40); "TMP0A" <~ vaddq_u32 "MSG2A" "TMP"; "TMP0B" <~ vaddq_u32 "MSG2B" "TMP";
   "TMP2A" <~ "STATE0A"; "TMP2B" <~ "STATE0B"; "MSG2A" <~ vsha256su0q_u32 "MSG2A" "MSG3A";
   "MSG2B" <~ vsha256su0q_u32 "MSG2B" "MSG3B"; "STATE0A" <~ vsha256hq_u32 "STATE0A" "STATE1A" "TMP0A";
   "STATE0B" <~ vsha256hq_u32 "STATE0B" "STATE1B" "TMP0B"; "STATE1A" <~ vsha256h2q_u32 "STATE1A" "TMP2A" "TMP0A";
   "STATE1B" <~ vsha256h2q_u32 "STATE1B" "TMP2B" "TMP0B"; "MSG2A" <~ vsha256su1q_u32 "MSG2A" "MSG0A" "MSG1A";
   "MSG2B" <~ vsha256su1q_u32 "MSG2B" "MSG0B" "MSG1B"; "TMP" <~ Const (vld1q_u32 K 44);
   "TMP0A" <~ vaddq_u32 "MSG3A" "TMP"; "TMP0B" <~ vaddq_u32 "MSG3B" "TMP"; "TMP2A" <~ "STATE0A"; "TMP2B" <~ "STATE0B";
   "MSG3A" <~ vsha256su0q_u32 "MSG3A" "MSG0A"; "MSG3B" <~ vsha256su0q_u32 "MSG3B" "MSG0B";
   "STATE0A" <~ vsha256hq_u32 "STATE0A" "STATE1A" "TMP0A"; "STATE0B" <~ vsha256hq_u32 "STATE0B" "STATE1B" "TMP0B";
   "STATE1A" <~ vsha256h2q_u32 "STATE1A" "TMP2A" "TMP0A"; "STATE1B" <~ vsha256h2q_u32 "STATE1B" "TMP2B" "TMP0B";
   "MSG3A" <~ vsha256su1q_u32 "MSG3A" "MSG1A" "MSG2A"; "MSG3B" <~ vsha256su1q_u32 "MSG3B" "MSG1B" "MSG2B";
   "TMP" <~ Const (vld1q_u32 K 48); "TMP0A" <~ vaddq_u32 "MSG0A" "TMP"; "TMP0B" <~ vaddq_u32 "MSG0B" "TMP";
   "TMP2A" <~ "STATE0A"; "TMP2B" <~ "STATE0B"; "STATE0A" <~ vsha256hq_u32 "STATE0A" "STATE1A" "TMP0A";
   "STATE0B" <~ vsha256hq_u32 "STATE0B" "STATE1B" "TMP0B"; "STATE1A" <~ vsha256h2q_u32 "STATE1A" "TMP2A" "TMP0A";
   "STATE1B" <~ vsha256h2q_u32 "STATE1B" "TMP2B" "TMP0B"; "TMP" <~ Const (vld1q_u32 K 52);
   "TMP0A" <~ vaddq_u32 "MSG1A" "TMP"; "TMP0B" <~ vaddq_u32 "MSG1B" "TMP"; "TMP2A" <~ "STATE0A"; "TMP2B" <~ "STATE0B";
   "STATE0A" <~ vsha256hq_u32 "STATE0A" "STATE1A" "TMP0A"; "STATE0B" <~ vsha256hq_u32 "STATE0B" "STATE1B" "TMP0B";
   "STATE1A" <~ vsha256h2q_u32 "STATE1A" "TMP2A" "TMP0A"; "STATE1B" <~ vsha256h2q_u32 "STATE1B" "TMP2B" "TMP0B";
   "TMP" <~ Const (vld1q_u32 K 56); "TMP0A" <~ vaddq_u32 "MSG2A" "TMP"; "TMP0B" <~ vaddq_u32 "MSG2B" "TMP";
   "TMP2A" <~ "STATE0A"; "TMP2B" <~ "STATE0B"; "STATE0A" <~ vsha256hq_u32 "STATE0A" "STATE1A" "TMP0A";
   "STATE0B" <~ vsha256hq_u32 "STATE0B" "STATE1B" "TMP0B"; "STATE1A" <~ vsha256h2q_u32 "STATE1A" "TMP2A" "TMP0A";
   "STATE1B" <~ vsha256h2q_u32 "STATE1B" "TMP2B" "TMP0B"; "TMP" <~ Const (vld1q_u32 K 60);
   "TMP0A" <~ vaddq_u32 "MSG3A" "TMP"; "TMP0B" <~ vaddq_u32 "MSG3B" "TMP"; "TMP2A" <~ "STATE0A"; "TMP2B" <~ "STATE0B";
   "STATE0A" <~ vsha256hq_u32 "STATE0A" "STATE1A" "TMP0A"; "STATE0B" <~ vsha256hq_u32 "STATE0B" "STATE1B" "TMP0B";
   "STATE1A" <~ vsha256h2q_u32 "STATE1A" "TMP2A" "TMP0A"; "STATE1B" <~ vsha256h2q_u32 "STATE1B" "TMP2B" "TMP0B";
   "TMP" <~ Const (vld1q_u32 INIT 0); "STATE0A" <~ vaddq_u32 "STATE0A" "TMP"; "STATE0B" <~ vaddq_u32 "STATE0B" "TMP";
   "TMP" <~ Const (vld1q_u32 INIT 4); "STATE1A" <~ vaddq_u32 "STATE1A" "TMP"; "STATE1B" <~ vaddq_u32 "STATE1B" "TMP"].

Definition Transform_2 : list stmt :=
  ["ABEF_SAVEA" <~ "STATE0A"; "ABEF_SAVEB" <~ "STATE0B"; "CDGH_SAVEA" <~ "STATE1A"; "CDGH_SAVEB" <~ "STATE1B";
   "TMP" <~ Const (vld1q_u32 MIDS 0); "TMP2A" <~ "STATE0A"; "TMP2B" <~ "STATE0B";
   "STATE0A" <~ vsha256hq_u32 "STATE0A" "STATE1A" "TMP"; "STATE0B" <~ vsha256hq_u32 "STATE0B" "STATE1B" "TMP";
   "STATE1A" <~ vsha256h2q_u32 "STATE1A" "TMP2A" "TMP"; "STATE1B" <~ vsha256h2q_u32 "STATE1B" "TMP2B" "TMP";
   "TMP" <~ Const (vld1q_u32 MIDS 4); "TMP2A" <~ "STATE0A"; "TMP2B" <~ "STATE0B";
   "STATE0A" <~ vsha256hq_u32 "STATE0A" "STATE1A" "TMP"; "STATE0B" <~ vsha256hq_u32 "STATE0B" "STATE1B" "TMP";
   "STATE1A" <~ vsha256h2q_u32 "STATE1A" "TMP2A" "TMP"; "STATE1B" <~ vsha256h2q_u32 "STATE1B" "TMP2B" "TMP";
   "TMP" <~ Const (vld1q_u32 MIDS 8); "TMP2A" <~ "STATE0A"; "TMP2B" <~ "STATE0B";
   "STATE0A" <~ vsha256hq_u32 "STATE0A" "STATE1A" "TMP"; "STATE0B" <~ vsha256hq_u32 "STATE0B" "STATE1B" "TMP";
   "STATE1A" <~ vsha256h2q_u32 "STATE1A" "TMP2A" "TMP"; "STATE1B" <~ vsha256h2q_u32 "STATE1B" "TMP2B" "TMP";
   "TMP" <~ Const (vld1q_u32 MIDS 12); "TMP2A" <~ "STATE0A"; "TMP2B" <~ "STATE0B";
   "STATE0A" <~ vsha256hq_u32 "STATE0A" "STATE1A" "TMP"; "STATE0B" <~ vsha256hq_u32 "STATE0B" "STATE1B" "TMP";
   "STATE1A" <~ vsha256h2q_u32 "STATE1A" "TMP2A" "TMP"; "STATE1B" <~ vsha256h2q_u32 "STATE1B" "TMP2B" "TMP";
   "TMP" <~ Const (vld1q_u32 MIDS 16); "TMP2A" <~ "STATE0A"; "TMP2B" <~ "STATE0B";
   "STATE0A" <~ vsha256hq_u32 "STATE0A" "STATE1A" "TMP"; "STATE0B" <~ vsha256hq_u32 "STATE0B" "STATE1B" "TMP";
   "STATE1A" <~ vsha256h2q_u32 "STATE1A" "TMP2A" "TMP"; "STATE1B" <~ vsha256h2q_u32 "STATE1B" "TMP2B" "TMP";
   "TMP" <~ Const (vld1q_u32 MIDS 20); "TMP2A" <~ "STATE0A"; "TMP2B" <~ "STATE0B";
   "STATE0A" <~ vsha256hq_u32 "STATE0A" "STATE1A" "TMP"; "STATE0B" <~ vsha256hq_u32 "STATE0B" "STATE1B" "TMP";
   "STATE1A" <~ vsha256h2q_u32 "STATE1A" "TMP2A" "TMP"; "STATE1B" <~ vsha256h2q_u32 "STATE1B" "TMP2B" "TMP";
   "TMP" <~ Const (vld1q_u32 MIDS 24); "TMP2A" <~ "STATE0A"; "TMP2B" <~ "STATE0B";
   "STATE0A" <~ vsha256hq_u32 "STATE0A" "STATE1A" "TMP"; "STATE0B" <~ vsha256hq_u32 "STATE0B" "STATE1B" "TMP";
   "STATE1A" <~ vsha256h2q_u32 "STATE1A" "TMP2A" "TMP"; "STATE1B" <~ vsha256h2q_u32 "STATE1B" "TMP2B" "TMP";
   "TMP" <~ Const (vld1q_u32 MIDS 28); "TMP2A" <~ "STATE0A"; "TMP2B" <~ "STATE0B";
   "STATE0A" <~ vsha256hq_u32 "STATE0A" "STATE1A" "TMP"; "STATE0B" <~ vsha256hq_u32 "STATE0B" "STATE1B" "TMP";
   "STATE1A" <~ vsha256h2q_u32 "STATE1A" "TMP2A" "TMP"; "STATE1B" <~ vsha256h2q_u32 "STATE1B" "TMP2B" "TMP";
   "TMP" <~ Const (vld1q_u32 MIDS 32); "TMP2A" <~ "STATE0A"; "TMP2B" <~ "STATE0B";
   "STATE0A" <~ vsha256hq_u32 "STATE0A" "STATE1A" "TMP"; "STATE0B" <~ vsha256hq_u32 "STATE0B" "STATE1B" "TMP";
   "STATE1A" <~ vsha256h2q_u32 "STATE1A" "TMP2A" "TMP"; "STATE1B" <~ vsha256h2q_u32 "STATE1B" "TMP2B" "TMP";
   "TMP" <~ Const (vld1q_u32 MIDS 36); "TMP2A" <~ "STATE0A"; "TMP2B" <~ "STATE0B";
   "STATE0A" <~ vsha256hq_u32 "STATE0A" "STATE1A" "TMP"; "STATE0B" <~ vsha256hq_u32 "STATE0B" "STATE1B" "TMP";
   "STATE1A" <~ vsha256h2q_u32 "STATE1A" "TMP2A" "TMP"; "STATE1B" <~ vsha256h2q_u32 "STATE1B" "TMP2B" "TMP";
   "TMP" <~ Const (vld1q_u32 MIDS 40); "TMP2A" <~ "STATE0A"; "TMP2B" <~ "STATE0B";
   "STATE0A" <~ vsha256hq_u32 "STATE0A" "STATE1A" "TMP"; "STATE0B" <~ vsha256hq_u32 "STATE0B" "STATE1B" "TMP";
   "STATE1A" <~ vsha256h2q_u32 "STATE1A" "TMP2A" "TMP"; "STATE1B" <~ vsha256h2q_u32 "STATE1B" "TMP2B" "TMP";
   "TMP" <~ Const (vld1q_u32 MIDS 44); "TMP2A" <~ "STATE0A"; "TMP2B" <~ "STATE0B";
   "STATE0A" <~ vsha256hq_u32 "STATE0A" "STATE1A" "TMP"; "STATE0B" <~ vsha256hq_u32 "STATE0B" "STATE1B" "TMP";
   "STATE1A" <~ vsha256h2q_u32 "STATE1A" "TMP2A" "TMP"; "STATE1B" <~ vsha256h2q_u32 "STATE1B" "TMP2B" "TMP";
   "TMP" <~ Const (vld1q_u32 MIDS 48); "TMP2A" <~ "STATE0A"; "TMP2B" <~ "STATE0B";
   "STATE0A" <~ vsha256hq_u32 "STATE0A" "STATE1A" "TMP"; "STATE0B" <~ vsha256hq_u32 "STATE0B" "STATE1B" "TMP";
   "STATE1A" <~ vsha256h2q_u32 "STATE1A" "TMP2A" "TMP"; "STATE1B" <~ vsha256h2q_u32 "STATE1B" "TMP2B" "TMP";
   "TMP" <~ Const (vld1q_u32 MIDS 52); "TMP2A" <~ "STATE0A"; "TMP2B" <~ "STATE0B";
   "STATE0A" <~ vsha256hq_u32 "STATE0A" "STATE1A" "TMP"; "STATE0B" <~ vsha256hq_u32 "STATE0B" "STATE1B" "TMP";
   "STATE1A" <~ vsha256h2q_u32 "STATE1A" "TMP2A" "TMP"; "STATE1B" <~ vsha256h2q_u32 "STATE1B" "TMP2B" "TMP";
   "TMP" <~ Const (vld1q_u32 MIDS 56); "TMP2A" <~ "STATE0A"; "TMP2B" <~ "STATE0B";
   "STATE0A" <~ vsha256hq_u32 "STATE0A" "STATE1A" "TMP"; "STATE0B" <~ vsha256hq_u32 "STATE0B" "STATE1B" "TMP";
   "STATE1A" <~ vsha256h2q_u32 "STATE1A" "TMP2A" "TMP"; "STATE1B" <~ vsha256h2q_u32 "STATE1B" "TMP2B" "TMP";
   "TMP" <~ Const (vld1q_u32 MIDS 60); "TMP2A" <~ "STATE0A"; "TMP2B" <~ "STATE0B";
   "STATE0A" <~ vsha256hq_u32 "STATE0A" "STATE1A" "TMP"; "STATE0B" <~ vsha256hq_u32 "STATE0B" "STATE1B" "TMP";
   "STATE1A" <~ vsha256h2q_u32 "STATE1A" "TMP2A" "TMP"; "STATE1B" <~ vsha256h2q_u32 "STATE1B" "TMP2B" "TMP";
   "STATE0A" <~ vaddq_u32 "STATE0A" "ABEF_SAVEA"; "STATE0B" <~ vaddq_u32 "STATE0B" "ABEF_SAVEB";
   "STATE1A" <~ vaddq_u32 "STATE1A" "CDGH_SAVEA"; "STATE1B" <~ vaddq_u32 "STATE1B" "CDGH_SAVEB"].

Definition Transform_3 : list stmt :=
  ["MSG0A" <~ "STATE0A"; "MSG0B" <~ "STATE0B"; "MSG1A" <~ "STATE1A"; "MSG1B" <~ "STATE1B";
   "MSG2A" <~ Const (vld1q_u32 FINAL 0); "MSG2B" <~ "MSG2A"; "MSG3A" <~ Const (vld1q_u32 FINAL 4); "MSG3B" <~ "MSG3A";
   "STATE0A" <~ Const (vld1q_u32 INIT 0); "STATE0B" <~ "STATE0A"; "STATE1A" <~ Const (vld1q_u32 INIT 4);
   "STATE1B" <~ "STATE1A"; "TMP" <~ Const (vld1q_u32 K 0); "TMP0A" <~ vaddq_u32 "MSG0A" "TMP";
   "TMP0B" <~ vaddq_u32 "MSG0B" "TMP"; "TMP2A" <~ "STATE0A"; "TMP2B" <~ "STATE0B";
   "MSG0A" <~ vsha256su0q_u32 "MSG0A" "MSG1A"; "MSG0B" <~ vsha256su0q_u32 "MSG0B" "MSG1B";
   "STATE0A" <~ vsha256hq_u32 "STATE0A" "STATE1A" "TMP0A"; "STATE0B" <~ vsha256hq_u32 "STATE0B" "STATE1B" "TMP0B";
   "STATE1A" <~ vsha256h2q_u32 "STATE1A" "TMP2A" "TMP0A"; "STATE1B" <~ vsha256h2q_u32 "STATE1B" "TMP2B" "TMP0B";
   "MSG0A" <~ vsha256su1q_u32 "MSG0A" "MSG2A" "MSG3A"; "MSG0B" <~ vsha256su1q_u32 "MSG0B" "MSG2B" "MSG3B";
   "TMP" <~ Const (vld1q_u32 K 4); "TMP0A" <~ vaddq_u32 "MSG1A" "TMP"; "TMP0B" <~ vaddq_u32 "MSG1B" "TMP";
   "TMP2A" <~ "STATE0A"; "TMP2B" <~ "STATE0B"; "MSG1A" <~ vsha256su0q_u32 "MSG1A" "MSG2A";
   "MSG1B" <~ vsha256su0q_u32 "MSG1B" "MSG2B"; "STATE0A" <~ vsha256hq_u32 "STATE0A" "STATE1A" "TMP0A";
   "STATE0B" <~ vsha256hq_u32 "STATE0B" "STATE1B" "TMP0B"; "STATE1A" <~ vsha256h2q_u32 "STATE1A" "TMP2A" "TMP0A";
   "STATE1B" <~ vsha256h2q_u32 "STATE1B" "TMP2B" "TMP0B"; "MSG1A" <~ vsha256su1q_u32 "MSG1A" "MSG3A" "MSG0A";
   "MSG1B" <~ vsha256su1q_u32 "MSG1B" "MSG3B" "MSG0B"; "TMP" <~ Const (vld1q_u32 FINS 0); "TMP2A" <~ "STATE0A";
   "TMP2B" <~ "STATE0B"; "MSG2A" <~ Const (vld1q_u32 FINS 4); "MSG2B" <~ "MSG2A";
   "STATE0A" <~ vsha256hq_u32 "STATE0A" "STATE1A" "TMP"; "STATE0B" <~ vsha256hq_u32 "STATE0B" "STATE1B" "TMP";
   "STATE1A" <~ vsha256h2q_u32 "STATE1A" "TMP2A" "TMP"; "STATE1B" <~ vsha256h2q_u32 "STATE1B" "TMP2B" "TMP";
   "MSG2A" <~ vsha256su1q_u32 "MSG2A" "MSG0A" "MSG1A"; "MSG2B" <~ vsha256su1q_u32 "MSG2B" "MSG0B" "MSG1B";
   "TMP" <~ Const (vld1q_u32 FINS 8); "TMP2A" <~ "STATE0A"; "TMP2B" <~ "STATE0B";
   "MSG3A" <~ vsha256su0q_u32 "MSG3A" "MSG0A"; "MSG3B" <~ vsha256su0q_u32 "MSG3B" "MSG0B";
   "STATE0A" <~ vsha256hq_u32 "STATE0A" "STATE1A" "TMP"; "STATE0B" <~ vsha256hq_u32 "STATE0B" "STATE1B" "TMP";
   "STATE1A" <~ vsha256h2q_u32 "STATE1A" "TMP2A" "TMP"; "STATE1B" <~ vsha256h2q_u32 "STATE1B" "TMP2B" "TMP";
   "MSG3A" <~ vsha256su1q_u32 "MSG3A" "MSG1A" "MSG2A"; "MSG3B" <~ vsha256su1q_u32 "MSG3B" "MSG1B" "MSG2B";
   "TMP" <~ Const (vld1q_u32 K 16); "TMP0A" <~ vaddq_u32 "MSG0A" "TMP"; "TMP0B" <~ vaddq_u32 "MSG0B" "TMP";
   "TMP2A" <~ "STATE0A"; "TMP2B" <~ "STATE0B"; "MSG0A" <~ vsha256su0q_u32 "MSG0A" "MSG1A";
   "MSG0B" <~ vsha256su0q_u32 "MSG0B" "MSG1B"; "STATE0A" <~ vsha256hq_u32 "STATE0A" "STATE1A" "TMP0A";
   "STATE0B" <~ vsha256hq_u32 "STATE0B" "STATE1B" "TMP0B"; "STATE1A" <~ vsha256h2q_u32 "STATE1A" "TMP2A" "TMP0A";
   "STATE1B" <~ vsha256h2q_u32 "STATE1B" "TMP2B" "TMP0B"; "MSG0A" <~ vsha256su1q_u32 "MSG0A" "MSG2A" "MSG3A";
   "MSG0B" <~ vsha256su1q_u32 "MSG0B" "MSG2B" "MSG3B"; "TMP" <~ Const (vld1q_u32 K 20);
   "TMP0A" <~ vaddq_u32 "MSG1A" "TMP"; "TMP0B" <~ vaddq_u32 "MSG1B" "TMP"; "TMP2A" <~ "STATE0A"; "TMP2B" <~ "STATE0B";
   "MSG1A" <~ vsha256su0q_u32 "MSG1A" "MSG2A"; "MSG1B" <~ vsha256su0q_u32 "MSG1B" "MSG2B";
   "STATE0A" <~ vsha256hq_u32 "STATE0A" "STATE1A" "TMP0A"; "STATE0B" <~ vsha256hq_u32 "STATE0B" "STATE1B" "TMP0B";
   "STATE1A" <~ vsha256h2q_u32 "STATE1A" "TMP2A" "TMP0A"; "STATE1B" <~ vsha256h2q_u32 "STATE1B" "TMP2B" "TMP0B";
   "MSG1A" <~ vsha256su1q_u32 "MSG1A" "MSG3A" "MSG0A"; "MSG1B" <~ vsha256su1q_u32 "MSG1B" "MSG3B" "MSG0B";
   "TMP" <~ Const (vld1q_u32 K 24); "TMP0A" <~ vaddq_u32 "MSG2A" "TMP"; "TMP0B" <~ vaddq_u32 "MSG2B" "TMP";
   "TMP2A" <~ "STATE0A"; "TMP2B" <~ "STATE0B"; "MSG2A" <~ vsha256su0q_u32 "MSG2A" "MSG3A";
   "MSG2B" <~ vsha256su0q_u32 "MSG2B" "MSG3B"; "STATE0A" <~ vsha256hq_u32 "STATE0A" "STATE1A" "TMP0A";
   "STATE0B" <~ vsha256hq_u32 "STATE0B" "STATE1B" "TMP0B"; "STATE1A" <~ vsha256h2q_u32 "STATE1A" "TMP2A" "TMP0A";
   "STATE1B" <~ vsha256h2q_u32 "STATE1B" "TMP2B" "TMP0B"; "MSG2A" <~ vsha256su1q_u32 "MSG2A" "MSG0A" "MSG1A";
   "MSG2B" <~ vsha256su1q_u32 "MSG2B" "MSG0B" "MSG1B"; "TMP" <~ Const (vld1q_u32 K 28);
   "TMP0A" <~ vaddq_u32 "MSG3A" "TMP"; "TMP0B" <~ vaddq_u32 "MSG3B" "TMP"; "TMP2A" <~ "STATE0A"; "TMP2B" <~ "STATE0B";
   "MSG3A" <~ vsha256su0q_u32 "MSG3A" "MSG0A"; "MSG3B" <~ vsha256su0q_u32 "MSG3B" "MSG0B";
   "STATE0A" <~ vsha256hq_u32 "STATE0A" "STATE1A" "TMP0A"; "STATE0B" <~ vsha256hq_u32 "STATE0B" "STATE1B" "TMP0B";
   "STATE1A" <~ vsha256h2q_u32 "STATE1A" "TMP2A" "TMP0A"; "STATE1B" <~ vsha256h2q_u32 "STATE1B" "TMP2B" "TMP0B";
   "MSG3A" <~ vsha256su1q_u32 "MSG3A" "MSG1A" "MSG2A"; "MSG3B" <~ vsha256su1q_u32 "MSG3B" "MSG1B" "MSG2B";
   "TMP" <~ Const (vld1q_u32 K 32); "TMP0A" <~ vaddq_u32 "MSG0A" "TMP"; "TMP0B" <~ vaddq_u32 "MSG0B" "TMP";
   "TMP2A" <~ "STATE0A"; "TMP2B" <~ "STATE0B"; "MSG0A" <~ vsha256su0q_u32 "MSG0A" "MSG1A";
   "MSG0B" <~ vsha256su0q_u32 "MSG0B" "MSG1B"; "STATE0A" <~ vsha256hq_u32 "STATE0A" "STATE1A" "TMP0A";
   "STATE0B" <~ vsha256hq_u32 "STATE0B" "STATE1B" "TMP0B"; "STATE1A" <~ vsha256h2q_u32 "STATE1A" "TMP2A" "TMP0A";
   "STATE1B" <~ vsha256h2q_u32 "STATE1B" "TMP2B" "TMP0B"; "MSG0A" <~ vsha256su1q_u32 "MSG0A" "MSG2A" "MSG3A";
   "MSG0B" <~ vsha256su1q_u32 "MSG0B" "MSG2B" "MSG3B"; "TMP" <~ Const (vld1q_u32 K 36);
   "TMP0A" <~ vaddq_u32 "MSG1A" "TMP"; "TMP0B" <~ vaddq_u32 "MSG1B" "TMP"; "TMP2A" <~ "STATE0A"; "TMP2B" <~ "STATE0B";
   "MSG1A" <~ vsha256su0q_u32 "MSG1A" "MSG2A"; "MSG1B" <~ vsha256su0q_u32 "MSG1B" "MSG2B";
   "STATE0A" <~ vsha256hq_u32 "STATE0A" "STATE1A" "TMP0A"; "STATE0B" <~ vsha256hq_u32 "STATE0B" "STATE1B" "TMP0B";
   "STATE1A" <~ vsha256h2q_u32 "STATE1A" "TMP2A" "TMP0A"; "STATE1B" <~ vsha256h2q_u32 "STATE1B" "TMP2B" "TMP0B";
   "MSG1A" <~ vsha256su1q_u32 "MSG1A" "MSG3A" "MSG0A"; "MSG1B" <~ vsha256su1q_u32 "MSG1B" "MSG3B" "MSG0B";
   "TMP" <~ Const (vld1q_u32 K 40); "TMP0A" <~ vaddq_u32 "MSG2A" "TMP"; "TMP0B" <~ vaddq_u32 "MSG2B" "TMP";
   "TMP2A" <~ "STATE0A"; "TMP2B" <~ "STATE0B"; "MSG2A" <~ vsha256su0q_u32 "MSG2A" "MSG3A";
   "MSG2B" <~ vsha256su0q_u32 "MSG2B" "MSG3B"; "STATE0A" <~ vsha256hq_u32 "STATE0A" "STATE1A" "TMP0A";
   "STATE0B" <~ vsha256hq_u32 "STATE0B" "STATE1B" "TMP0B"; "STATE1A" <~ vsha256h2q_u32 "STATE1A" "TMP2A" "TMP0A";
   "STATE1B" <~ vsha256h2q_u32 "STATE1B" "TMP2B" "TMP0B"; "MSG2A" <~ vsha256su1q_u32 "MSG2A" "MSG0A" "MSG1A";
   "MSG2B" <~ vsha256su1q_u32 "MSG2B" "MSG0B" "MSG1B"; "TMP" <~ Const (vld1q_u32 K 44);
   "TMP0A" <~ vaddq_u32 "MSG3A" "TMP"; "TMP0B" <~ vaddq_u32 "MSG3B" "TMP"; "TMP2A" <~ "STATE0A"; "TMP2B" <~ "STATE0B";
   "MSG3A" <~ vsha256su0q_u32 "MSG3A" "MSG0A"; "MSG3B" <~ vsha256su0q_u32 "MSG3B" "MSG0B";
   "STATE0A" <~ vsha256hq_u32 "STATE0A" "STATE1A" "TMP0A"; "STATE0B" <~ vsha256hq_u32 "STATE0B" "STATE1B" "TMP0B";
   "STATE1A" <~ vsha256h2q_u32 "STATE1A" "TMP2A" "TMP0A"; "STATE1B" <~ vsha256h2q_u32 "STATE1B" "TMP2B" "TMP0B";
   "MSG3A" <~ vsha256su1q_u32 "MSG3A" "MSG1A" "MSG2A"; "MSG3B" <~ vsha256su1q_u32 "MSG3B" "MSG1B" "MSG2B";
   "TMP" <~ Const (vld1q_u32 K 48); "TMP0A" <~ vaddq_u32 "MSG0A" "TMP"; "TMP0B" <~ vaddq_u32 "MSG0B" "TMP";
   "TMP2A" <~ "STATE0A"; "TMP2B" <~ "STATE0B"; "STATE0A" <~ vsha256hq_u32 "STATE0A" "STATE1A" "TMP0A";
   "STATE0B" <~ vsha256hq_u32 "STATE0B" "STATE1B" "TMP0B"; "STATE1A" <~ vsha256h2q_u32 "STATE1A" "TMP2A" "TMP0A";
   "STATE1B" <~ vsha256h2q_u32 "STATE1B" "TMP2B" "TMP0B"; "TMP" <~ Const (vld1q_u32 K 52);
   "TMP0A" <~ vaddq_u32 "MSG1A" "TMP"; "TMP0B" <~ vaddq_u32 "MSG1B" "TMP"; "TMP2A" <~ "STATE0A"; "TMP2B" <~ "STATE0B";
   "STATE0A" <~ vsha256hq_u32 "STATE0A" "STATE1A" "TMP0A"; "STATE0B" <~ vsha256hq_u32 "STATE0B" "STATE1B" "TMP0B";
   "STATE1A" <~ vsha256h2q_u32 "STATE1A" "TMP2A" "TMP0A"; "STATE1B" <~ vsha256h2q_u32 "STATE1B" "TMP2B" "TMP0B";
   "TMP" <~ Const (vld1q_u32 K 56); "TMP0A" <~ vaddq_u32 "MSG2A" "TMP"; "TMP0B" <~ vaddq_u32 "MSG2B" "TMP";
   "TMP2A" <~ "STATE0A"; "TMP2B" <~ "STATE0B"; "STATE0A" <~ vsha256hq_u32 "STATE0A" "STATE1A" "TMP0A";
   "STATE0B" <~ vsha256hq_u32 "STATE0B" "STATE1B" "TMP0B"; "STATE1A" <~ vsha256h2q_u32 "STATE1A" "TMP2A" "TMP0A";
   "STATE1B" <~ vsha256h2q_u32 "STATE1B" "TMP2B" "TMP0B"; "TMP" <~ Const (vld1q_u32 K 60);
   "TMP0A" <~ vaddq_u32 "MSG3A" "TMP"; "TMP0B" <~ vaddq_u32 "MSG3B" "TMP"; "TMP2A" <~ "STATE0A"; "TMP2B" <~ "STATE0B";
   "STATE0A" <~ vsha256hq_u32 "STATE0A" "STATE1A" "TMP0A"; "STATE0B" <~ vsha256hq_u32 "STATE0B" "STATE1B" "TMP0B";
   "STATE1A" <~ vsha256h2q_u32 "STATE1A" "TMP2A" "TMP0A"; "STATE1B" <~ vsha256h2q_u32 "STATE1B" "TMP2B" "TMP0B";
   "TMP" <~ Const (vld1q_u32 INIT 0); "STATE0A" <~ vaddq_u32 "STATE0A" "TMP"; "STATE0B" <~ vaddq_u32 "STATE0B" "TMP";
   "TMP" <~ Const (vld1q_u32 INIT 4); "STATE1A" <~ vaddq_u32 "STATE1A" "TMP"; "STATE1B" <~ vaddq_u32 "STATE1B" "TMP"].

Definition Store_result : list stmt :=
  [Store 0 "STATE0A"; Store 16 "STATE1A"; Store 32 "STATE0B"; Store 48 "STATE1B"].

Definition Transform_2way : list Z → nat → nat → list Z :=
  exec_2way load store (Transform_1 ++ Transform_2 ++ Transform_3 ++ Store_result).

(** ** Correctness *)

Lemma arm_load_ok : load_ok load.
Proof.
  intros src Hb Hl. do 16 (destruct src as [|? src]; [cbn in Hl; lia|]). rewrite !dec32be_join by (cbn; lia). reflexivity.
Qed.

Lemma arm_store_ok : save_ok store.
Proof.
  intros [a b c d] _. unfold store, vreinterpretq_u8_u32, digest, v4_list. cbn [fmap list_fmap concat].
  rewrite !enc32be_split. reflexivity.
Qed.

Lemma arm_Transform_ok : transform_ok Transform.
Proof.
  apply (block_transform_ok load _ _ _ _ _ (seq 0 8)); try done; [apply arm_load_ok| |by vm_compute..].
  intros j. do 8 (destruct j as [|j]; [cbn; lia|]). destruct j; cbn; lia.
Qed.

Lemma arm_Transform_2way_ok : double_ok 2 Transform_2way.
Proof. apply exec_2way_ok; [apply arm_load_ok|apply arm_store_ok|by vm_compute]. Qed.
End Sha256Arm.
