(* ===== verification/Sha256Select.v ===== *)
(** * The choice of a SHA-256 implementation: [SHA256AutoDetect] of crypto/sha256.cpp

    What was compiled in ([Build]) and what the processor and the system
    report ([Cpu]) decide which block function and which double hashes are in
    use.  The portable code and the vector code (Sha256.v) and the code on the
    SHA instructions of x86 and ARM (Sha256X86.v, Sha256Arm.v) are verified;
    the assembly of crypto/sha256_sse4.cpp is a parameter, of which only the
    block function of the standard is assumed. *)
From S2P Require Import Prelude SphTypes Stream Padding Sha256 Sha256Ni Sha256X86 Sha256Arm.
From stdpp Require Import strings.
Import Sha256.
#[local] Open Scope string_scope.
#[local] Open Scope list_scope.

Module Sha256Select.

(** The macros that are defined; [x86_64] stands for [__x86_64__] or [__amd64__]. *)
Record Build := mk_build {
  USE_ASM : bool; HAVE_GETCPUID : bool; BUILD_BITCOIN_INTERNAL : bool; x86_64 : bool;
  ENABLE_X86_SHANI : bool; ENABLE_SSE41 : bool; ENABLE_AVX2 : bool; ENABLE_ARM_SHANI : bool;
  linux : bool; arm : bool; aarch64 : bool; MAC_OSX : bool }.

(** The bits that CPUID and XGETBV give; those of [getauxval]; the answer of [sysctlbyname], if it succeeds. *)
Record Cpu := mk_cpu {
  cpu_sse4 : bool; cpu_xsave : bool; cpu_avx : bool; AVXEnabled : bool; cpu_avx2 : bool; cpu_x86_shani : bool;
  HWCAP2_SHA2 : bool; HWCAP_SHA2 : bool; FEAT_SHA256 : option Z }.

(** The part for x86: the name and the function pointers. *)
Definition detect_x86 (sse4_Transform : TransformType) (b : Build) (cpu : Cpu) (ret : string) (im : Impl) : string * Impl :=
  if negb (USE_ASM b && HAVE_GETCPUID b) then (ret, im) else
  let have_sse4 := cpu_sse4 cpu in
  let enabled_avx := cpu_xsave cpu && cpu_avx cpu && AVXEnabled cpu in
  let have_avx2 := have_sse4 && cpu_avx2 cpu in
  let have_x86_shani := have_sse4 && cpu_x86_shani cpu in
  let '(ret, im, have_sse4, have_avx2) :=
    if ENABLE_X86_SHANI b && negb (BUILD_BITCOIN_INTERNAL b) && have_x86_shani
    then ("x86_shani(1way,2way)",
          mk_impl Sha256X86.Transform (TransformD64Wrapper Sha256X86.Transform) (Some Sha256X86.Transform_2way)
            (TransformD64_4way im) (TransformD64_8way im), false, false)
    else (ret, im, have_sse4, have_avx2) in
  let '(ret, im) :=
    if have_sse4 then
      let '(ret, im) :=
        if x86_64 b
        then ("sse4(1way)", mk_impl sse4_Transform (TransformD64Wrapper sse4_Transform) (TransformD64_2way im)
                              (TransformD64_4way im) (TransformD64_8way im))
        else (ret, im) in
      if ENABLE_SSE41 b && negb (BUILD_BITCOIN_INTERNAL b)
      then ((ret ++ ",sse41(4way)")%string,
            mk_impl (Transform im) (TransformD64 im) (TransformD64_2way im) (Some Transform_4way) (TransformD64_8way im))
      else (ret, im)
    else (ret, im) in
  if ENABLE_AVX2 b && negb (BUILD_BITCOIN_INTERNAL b) && (have_avx2 && cpu_avx cpu && enabled_avx)
  then ((ret ++ ",avx2(8way)")%string,
        mk_impl (Transform im) (TransformD64 im) (TransformD64_2way im) (TransformD64_4way im) (Some Transform_8way))
  else (ret, im).

(** The part for ARM. *)
Definition detect_arm (b : Build) (cpu : Cpu) (ret : string) (im : Impl) : string * Impl :=
  if negb (ENABLE_ARM_SHANI b && negb (BUILD_BITCOIN_INTERNAL b)) then (ret, im) else
  let have_arm_shani := false in
  let have_arm_shani := if linux b && arm b && HWCAP2_SHA2 cpu then true else have_arm_shani in
  let have_arm_shani := if linux b && aarch64 b && HWCAP_SHA2 cpu then true else have_arm_shani in
  let have_arm_shani :=
    if MAC_OSX b then match FEAT_SHA256 cpu with Some val => negb (val =? 0)%Z | None => have_arm_shani end
    else have_arm_shani in
  if have_arm_shani
  then ("arm_shani(1way,2way)",
        mk_impl Sha256Arm.Transform (TransformD64Wrapper Sha256Arm.Transform) (Some Sha256Arm.Transform_2way)
          (TransformD64_4way im) (TransformD64_8way im))
  else (ret, im).

(** The name that is returned and the implementation in use; [None] when the self test fails. *)
Definition SHA256AutoDetect (sse4_Transform : TransformType) (b : Build) (cpu : Cpu) : option (string * Impl) :=
  let '(ret, im) := detect_x86 sse4_Transform b cpu "standard" standard in
  let '(ret, im) := detect_arm b cpu ret im in
  if SelfTest im then Some (ret, im) else None.

(** ** Every choice keeps the promise *)

(** Replacing the block function, or one of the double hashes on several messages. *)
Lemma impl_ok_2way im tr f : impl_ok im → transform_ok tr → double_ok 2 f →
  impl_ok (mk_impl tr (TransformD64Wrapper tr) (Some f) (TransformD64_4way im) (TransformD64_8way im)).
Proof.
  intros [? ? ? ? ?] Htr Hf. split; cbn; [done|by apply TransformD64Wrapper_ok|by intros ? [= <-]|done|done].
Qed.

Lemma impl_ok_transform im tr : impl_ok im → transform_ok tr →
  impl_ok (mk_impl tr (TransformD64Wrapper tr) (TransformD64_2way im) (TransformD64_4way im) (TransformD64_8way im)).
Proof. intros [? ? ? ? ?] Htr. split; cbn; [done|by apply TransformD64Wrapper_ok|done..]. Qed.

Lemma impl_ok_4way im : impl_ok im →
  impl_ok (mk_impl (Transform im) (TransformD64 im) (TransformD64_2way im) (Some Transform_4way) (TransformD64_8way im)).
Proof. intros [? ? ? ? ?]. split; cbn; try done. intros f [= <-]. apply Transform_way_ok. lia. Qed.

Lemma impl_ok_8way im : impl_ok im →
  impl_ok (mk_impl (Transform im) (TransformD64 im) (TransformD64_2way im) (TransformD64_4way im) (Some Transform_8way)).
Proof. intros [? ? ? ? ?]. split; cbn; try done. intros f [= <-]. apply Transform_way_ok. lia. Qed.

#[local] Opaque Sha256X86.Transform Sha256X86.Transform_2way Sha256Arm.Transform Sha256Arm.Transform_2way.
#[local] Opaque Transform_4way Transform_8way SelfTest.

Lemma detect_x86_ok sse4 b cpu ret im : transform_ok sse4 → impl_ok im → impl_ok (snd (detect_x86 sse4 b cpu ret im)).
Proof.
  intros Hs Him. unfold detect_x86. destruct (negb _); [done|].
  assert (Hshani : impl_ok (mk_impl Sha256X86.Transform (TransformD64Wrapper Sha256X86.Transform)
    (Some Sha256X86.Transform_2way) (TransformD64_4way im) (TransformD64_8way im)))
    by (apply impl_ok_2way; [done|apply Sha256X86.x86_Transform_ok|apply Sha256X86.x86_Transform_2way_ok]).
  set (ni := mk_impl Sha256X86.Transform _ _ _ _) in *. clearbody ni.
  repeat (case_match; simplify_eq; cbn [snd]); eauto using impl_ok_transform, impl_ok_4way, impl_ok_8way.
Qed.

Lemma detect_arm_ok b cpu ret im : impl_ok im → impl_ok (snd (detect_arm b cpu ret im)).
Proof.
  intros Him. unfold detect_arm. destruct (negb _); [done|].
  match goal with |- context [if ?c then (_, mk_impl _ _ _ _ _) else _] => destruct c end; [|done].
  apply impl_ok_2way; [done|apply Sha256Arm.arm_Transform_ok|apply Sha256Arm.arm_Transform_2way_ok].
Qed.

Lemma AutoDetect_ok sse4 b cpu : transform_ok sse4 → ∃ ret im, SHA256AutoDetect sse4 b cpu = Some (ret, im) ∧ impl_ok im.
Proof.
  intros Hs. unfold SHA256AutoDetect. pose proof (detect_x86_ok sse4 b cpu "standard" standard Hs standard_ok) as H1.
  destruct (detect_x86 _ _ _ _ _) as [ret1 im1]. pose proof (detect_arm_ok b cpu ret1 im1 H1) as H2.
  destruct (detect_arm _ _ _ _) as [ret2 im2]. cbn [snd] in H2. rewrite (SelfTest_ok im2 H2). eauto.
Qed.

(** C30: The double hash of blocks of 64 bytes, for every set of macros that
    the build defines and every answer of the processor and the system (x86 of
    64 and 32 bits, ARM under Linux and macOS, others): [SHA256AutoDetect]
    passes its self test and selects functions of which each computes the
    double SHA-256 of its messages: the portable transform with its folded
    constants, the wrapper of another block function, the vector code on four
    and on eight messages, and the block function and the double hash of two
    messages on the SHA instructions of x86 and of ARM, these instructions as
    the manuals define them. Of the assembly in sha256_sse4.cpp it is assumed
    that it computes the block function. [SHA256D64] with the selected
    functions writes the hash of every block, also when it overwrites its
    input. *)
Theorem SHA256D64_correct sse4_Transform b cpu :
  transform_ok sse4_Transform →
  ∃ ret im, SHA256AutoDetect sse4_Transform b cpu = Some (ret, im) ∧ impl_ok im ∧
  ∀ mem out inp blocks,
    bytes mem → (inp + 64 * blocks <= length mem)%nat → (out + 32 * blocks <= length mem)%nat →
    (out <= inp ∨ inp + 64 * blocks <= out)%nat →
    SHA256D64 im mem out inp blocks = memcpy mem out (concat (sha256d <$> blocks_of mem inp blocks)).
Proof.
  intros Hs. destruct (AutoDetect_ok sse4_Transform b cpu Hs) as (ret & im & E & Him). exists ret, im.
  split; [exact E|]. split; [exact Him|]. intros. by apply SHA256D64_batch.
Qed.

Lemma SHA256D64_correct_witness :
  let b := mk_build true true false true true true true false true false false false in
  let cpu := mk_cpu true true true true true true false false None in
  ∃ ret im, SHA256AutoDetect sha256_Transform b cpu = Some (ret, im) ∧
  SHA256D64 im (replicate 640 7%Z) 0 0 10 =
  memcpy (replicate 640 7%Z) 0 (concat (sha256d <$> blocks_of (replicate 640 7%Z) 0 10)).
Proof.
  intros b cpu. destruct (SHA256D64_correct sha256_Transform b cpu sha256_Transform_ok) as (ret & im & E & _ & H).
  exists ret, im. split; [exact E|]. apply H.
  - apply (bool_decide_unpack _). vm_compute. exact I.
  - vm_compute. lia.
  - vm_compute. lia.
  - left. lia.
Defined.

End Sha256Select.
