(* ===== verification/Hashers.v ===== *)
(** * The hashers CSHA256 and CHash256: crypto/sha256.cpp, hash.h

    The theorems of the streaming interface, over any implementation that
    keeps the promise [impl_ok], of the batch function [SHA256D64] and of the
    choice of the implementation.  The definitions are in [Sha256]. *)
From S2P Require Import Prelude SphTypes Stream Padding Sha256.

Module Hashers.
Import Sha256.

#[local] Opaque hash_rounds message_schedule compress.

(** ** The streaming hasher *)

Section Streaming.
Context (im : Impl) (Him : impl_ok im).

(** The hasher has read [msg]: the state and the bytes that wait in [buf]. *)
Definition has_read (c : CSHA256) (msg : list Z) : Prop :=
  bytes msg ∧ length (buf c) = 64%nat ∧ nbytes c = Z.of_nat (length msg) ∧
  (take (length msg mod 64) (buf c), s c) = absorb 64 compress ([], Initialize) msg.

Lemma has_read_view c msg :
  has_read c msg → take (length msg mod 64) (buf c) = rest 64 msg ∧ s c = run compress (full_blocks 64 msg) Initialize ∧
  length (s c) = 8%nat ∧ words 32 (s c).
Proof.
  intros (_ & _ & _ & E). rewrite absorb_message in E by lia. injection E as E1 E2.
  split; [exact E1|]. split; [exact E2|]. rewrite E2.
  assert (HI : words 32 Initialize) by (apply (bool_decide_unpack _); vm_compute; exact I).
  apply (run_inv compress (λ H, length H = 8%nat ∧ words 32 H) (λ _, True)).
  - intros b H _ [HH _]. by apply compress_ok.
  - by apply Forall_true.
  - done.
Qed.

Lemma bufsize_nat (msg : list Z) : Z.to_nat (Z.of_nat (length msg) mod 64) = (length msg mod 64)%nat.
Proof. change 64 with (Z.of_nat 64). rewrite <-Nat2Z.inj_mod. apply Nat2Z.id. Qed.

(** The steps of [Write], each as a message that has been read. *)
Lemma read_fill c msg d :
  has_read c msg → bytes d → (length msg mod 64 + length d = 64)%nat → d ≠ [] →
  Z.of_nat (length (msg ++ d)) < 2 ^ 64 →
  let b := memcpy (buf c) (length msg mod 64) d in
  has_read (mk_csha256 (Transform im (s c) b 1) b (SPH_T64 (nbytes c + Z.of_nat (length d)))) (msg ++ d).
Proof.
  intros Hc Hd Hl Hne Hlt b. destruct (has_read_view c msg Hc) as (Hrest & Hs & Hls & Hws).
  destruct Hc as (Hm & Hlb & Hn & E).
  assert (Eb : b = rest 64 msg ++ d) by (unfold b; rewrite memcpy_full, Hrest by lia; done).
  assert (Hlb' : length b = 64%nat) by (unfold b; rewrite length_memcpy; lia).
  assert (Hbb : bytes b) by (rewrite Eb; apply Forall_app_2; [by apply rest_Forall|done]).
  split; [by apply Forall_app_2|]. split; [exact Hlb'|]. cbn [nbytes buf s]. split.
  - rewrite Hn, length_app, Nat2Z.inj_add, SPH_T64_id; [done|]. rewrite length_app in Hlt. split; lia.
  - assert (Em : (length (msg ++ d) mod 64 = 0)%nat).
    { by rewrite length_app, <-Nat.Div0.add_mod_idemp_l, Hl. }
    rewrite Em, take_0, absorb_app, <-E.
    rewrite absorb_block; [|rewrite length_take; lia|done].
    rewrite (ok_transform im Him (s c) b 1%nat Hls Hws Hbb ltac:(lia)).
    unfold blocks_of. cbn [seq fmap list_fmap]. rewrite drop_0, take_ge by lia.
    rewrite Eb, <-Hrest. done.
Qed.
Lemma read_blocks c msg d k :
  has_read c msg → bytes d → (length msg mod 64 = 0)%nat → (64 * k <= length d)%nat →
  Z.of_nat (length (msg ++ take (64 * k) d)) < 2 ^ 64 →
  has_read (mk_csha256 (Transform im (s c) d k) (buf c) (SPH_T64 (nbytes c + 64 * Z.of_nat k)))
    (msg ++ take (64 * k) d).
Proof.
  intros Hc Hd Hl Hk Hlt. destruct (has_read_view c msg Hc) as (Hrest & Hs & Hls & Hws).
  destruct Hc as (Hm & Hlb & Hn & E).
  assert (Hlen : length (take (64 * k) d) = (64 * k)%nat) by (rewrite length_take; lia).
  split; [by apply Forall_app_2; [|apply Forall_take]|]. split; [exact Hlb|]. cbn [nbytes buf s]. split.
  - rewrite Hn, length_app, Hlen, SPH_T64_id; [lia|]. rewrite length_app, Hlen in Hlt. split; lia.
  - rewrite length_app, Hlen, Nat.mul_comm, Nat.Div0.mod_add, Hl, take_0, absorb_app, <-E, Hl, take_0.
    rewrite absorb_message by lia.
    rewrite (ok_transform im Him (s c) d k Hls Hws Hd Hk).
    assert (Hdk : (length (take (k * 64) d) / 64 = k)%nat) by (rewrite Nat.mul_comm, Hlen, Nat.mul_comm; by apply Nat.div_mul).
    f_equal.
    + unfold rest. rewrite Hdk. rewrite drop_ge; [done|]. rewrite Nat.mul_comm, Hlen. lia.
    + f_equal. unfold full_blocks. rewrite Hdk. unfold blocks_of. apply Forall_fmap_ext, Forall_seq. intros m Hmk.
      cbn [Nat.add]. rewrite skipn_firstn_comm, take_take. rewrite Nat.min_l by nia. do 2 f_equal. lia.
Qed.

Lemma read_small c msg d :
  has_read c msg → bytes d → (length msg mod 64 + length d < 64)%nat → Z.of_nat (length (msg ++ d)) < 2 ^ 64 →
  has_read (mk_csha256 (s c) (memcpy (buf c) (length msg mod 64) d) (SPH_T64 (nbytes c + Z.of_nat (length d)))) (msg ++ d).
Proof.
  intros (Hm & Hlb & Hn & E) Hd Hl Hlt.
  split; [by apply Forall_app_2|]. split; [cbn [buf]; rewrite length_memcpy; lia|]. cbn [nbytes buf s]. split.
  - rewrite Hn, length_app, Nat2Z.inj_add, SPH_T64_id; [done|]. rewrite length_app in Hlt. split; lia.
  - rewrite absorb_app, <-E, absorb_small by (rewrite length_take; lia).
    rewrite length_app, <-Nat.Div0.add_mod_idemp_l, (Nat.mod_small (length msg mod 64 + length d)) by lia.
    f_equal. apply take_memcpy. lia.
Qed.

Lemma has_read_empty c msg : has_read c msg → has_read c (msg ++ []).
Proof. by rewrite app_nil_r. Qed.

(** Writing data to the hasher reads it. *)
Lemma Write_ok c msg data :
  has_read c msg → bytes data → Z.of_nat (length (msg ++ data)) < 2 ^ 64 → has_read (Write im c data) (msg ++ data).
Proof.
  intros Hc Hd Hlt. unfold Write. pose proof Hc as (Hm & Hlb & Hn & _).
  rewrite Hn, bufsize_nat. set (r := (length msg mod 64)%nat).
  assert (Hr : (r < 64)%nat) by (apply Nat.mod_upper_bound; lia). rewrite length_app in Hlt.
  (* the first step: the buffer is filled, or holds less than a block with the data, or is empty *)
  match goal with |- has_read (match ?x with _ => _ end) _ => set (step1 := x) end.
  assert (S1 : ∃ c1 d1 d2, step1 = (c1, d2, length (msg ++ d1) mod 64)%nat ∧ data = d1 ++ d2 ∧ has_read c1 (msg ++ d1) ∧
    (length (msg ++ d1) mod 64 = 0 ∨ length (msg ++ d1) mod 64 + length d2 < 64)%nat).
  { unfold step1. destruct (Nat.eqb_spec r 0) as [E0|E0]; cbn [negb andb].
    - exists c, [], data. rewrite app_nil_r. split; [done|]. split; [done|]. split; [done|]. by left.
    - destruct (Nat.leb_spec 64 (r + length data)) as [Hle|Hgt].
      + assert (Hl1 : length (take (64 - r) data) = (64 - r)%nat) by (rewrite length_take; lia).
        assert (E : (length (msg ++ take (64 - r) data) mod 64 = 0)%nat).
        { rewrite length_app, <-Nat.Div0.add_mod_idemp_l, Hl1. fold r. by replace (r + (64 - r))%nat with 64%nat by lia. }
        eexists _, (take (64 - r) data), (drop (64 - r) data). rewrite E. split; [reflexivity|].
        split; [by rewrite take_drop|]. split; [|by left].
        replace (Z.of_nat (64 - r)) with (Z.of_nat (length (take (64 - r) data))) by (by rewrite Hl1). rewrite <-Hn.
        apply read_fill; [done|by apply Forall_take|fold r; lia| |rewrite length_app; lia].
        intros E'. rewrite E' in Hl1. cbn in Hl1. lia.
      + exists c, [], data. rewrite app_nil_r. split; [done|]. split; [done|]. split; [done|]. right. done. }
  destruct S1 as (c1 & d1 & d2 & -> & -> & Hc1 & Hcase).
  rewrite app_assoc. rewrite length_app in Hlt. apply Forall_app in Hd as [Hd1 Hd2].
  (* the second step: whole blocks *)
  match goal with |- has_read (match ?x with _ => _ end) _ => set (step2 := x) end.
  assert (S2 : ∃ c2 d3 d4, step2 = (c2, d4) ∧ d2 = d3 ++ d4 ∧ has_read c2 ((msg ++ d1) ++ d3) ∧
    (length ((msg ++ d1) ++ d3) mod 64 = length (msg ++ d1) mod 64 ∧ length (msg ++ d1) mod 64 + length d4 < 64)%nat).
  { unfold step2. destruct (Nat.leb_spec 64 (length d2)) as [Hle|Hgt].
    - destruct Hcase as [Hcase|Hcase]; [|lia]. set (k := (length d2 / 64)%nat).
      pose proof (Nat.div_mod_eq (length d2) 64) as Ed. pose proof (Nat.mod_upper_bound (length d2) 64 ltac:(lia)) as Hb.
      fold k in Ed. assert (Hl3 : length (take (64 * k) d2) = (64 * k)%nat) by (rewrite length_take; lia).
      eexists _, (take (64 * k) d2), (drop (64 * k) d2). split; [reflexivity|]. split; [by rewrite take_drop|].
      split; [apply read_blocks; [done..|lia|rewrite !length_app, Hl3; lia]|].
      rewrite (length_app _ (take _ _)), Hl3, Nat.mul_comm, Nat.Div0.mod_add, Hcase, length_drop. lia.
    - exists c1, [], d2. rewrite app_nil_r. split; [done|]. split; [done|]. split; [done|]. split; [done|].
      destruct Hcase; lia. }
  destruct S2 as (c2 & d3 & d4 & -> & -> & Hc2 & Em & Hlast).
  apply Forall_app in Hd2 as [Hd3 Hd4]. rewrite (app_assoc (msg ++ d1)). rewrite length_app in Hlt.
  destruct (Nat.ltb_spec 0 (length d4)) as [Hpos|Hz].
  - rewrite <-Em. apply read_small; [done..|lia|rewrite !length_app; lia].
  - destruct d4; [|cbn in Hz; lia]. by apply has_read_empty.
Qed.

Lemma CSHA256_new_ok buf0 : length buf0 = 64%nat → has_read (CSHA256_new buf0) [].
Proof. intros Hb. split; [apply Forall_nil_2|]. split; [exact Hb|]. split; [done|]. done. Qed.

Lemma Reset_ok c msg : has_read c msg → has_read (Reset c) [].
Proof. intros (_ & Hb & _). by apply CSHA256_new_ok. Qed.
Lemma sha256_padding_take len :
  take (1 + Z.to_nat ((119 - Z.of_nat len mod 64) mod 64)) (0x80 :: replicate 63 0) ++ sph_enc64be (8 * Z.of_nat len) =
  sha256_padding len.
Proof.
  unfold sha256_padding, md_padding, md_zeros.
  assert (E : Z.of_nat len mod 64 = Z.of_nat (len mod 64)) by (change 64 with (Z.of_nat 64); by rewrite Nat2Z.inj_mod).
  rewrite E. pose proof (Nat.mod_upper_bound len 64 ltac:(lia)) as Hr. set (r := (len mod 64)%nat) in *.
  cbn [Nat.add take app]. f_equal. f_equal.
  replace (Z.to_nat ((119 - Z.of_nat r) mod 64)) with (if (r + 1 + 8 <=? 64)%nat then (64 - 8 - 1 - r)%nat else (2 * 64 - 8 - 1 - r)%nat).
  - rewrite take_replicate, Nat.min_l; [done|]. destruct (Nat.leb_spec (r + 1 + 8) 64); lia.
  - destruct (Nat.leb_spec (r + 1 + 8) 64).
    + replace ((119 - Z.of_nat r) mod 64) with (55 - Z.of_nat r) by (Z.div_mod_to_equations; lia). lia.
    + rewrite Z.mod_small by lia. lia.
Qed.

Lemma Finalize_ok c msg hash :
  has_read c msg → 8 * Z.of_nat (length msg) < 2 ^ 64 → length hash = 32%nat →
  let '(c', h) := Finalize im c hash in h = sha256 msg ∧ has_read c' (msg ++ sha256_padding (length msg)).
Proof.
  intros Hc Hlt Hh. unfold Finalize. pose proof Hc as (Hm & _ & Hn & _).
  assert (Esz : WriteBE64 (SPH_T64 (nbytes c ≪ 3)) = sph_enc64be (8 * Z.of_nat (length msg))).
  { rewrite Hn, Z.shiftl_mul_pow2 by lia. rewrite SPH_T64_id by (split; lia).
    rewrite <-enc64be_aligned_eq by (split; lia). unfold WriteBE64, sph_enc64be_aligned. do 2 f_equal. lia. }
  rewrite Esz. set (pad := take _ (0x80 :: replicate 63 0)). set (sz := sph_enc64be _).
  assert (Ep : pad ++ sz = sha256_padding (length msg)) by (unfold pad; rewrite Hn; apply sha256_padding_take).
  assert (Hlp : (length pad <= 64)%nat) by (unfold pad; rewrite length_take; cbn; lia).
  assert (Hbp : bytes pad).
  { apply Forall_take, Forall_cons_2; [split; lia|]. by apply Forall_replicate. }
  assert (H1 : has_read (Write im c pad) (msg ++ pad)) by (apply Write_ok; [done..|rewrite length_app; lia]).
  assert (H2 : has_read (Write im (Write im c pad) sz) (msg ++ sha256_padding (length msg))).
  { rewrite <-Ep, app_assoc. apply Write_ok; [done|apply bytes_enc64be|].
    rewrite !length_app. replace (length sz) with 8%nat by done. lia. }
  split; [|exact H2].
  destruct (has_read_view _ _ H2) as (_ & Es & Hls & Hws).
  rewrite write_words_digest by (done || lia).
  unfold memcpy. rewrite take_0, drop_ge by (rewrite length_digest, Hls; lia). rewrite app_nil_r, Es. done.
Qed.

Lemma writes_ok chunks c msg :
  has_read c msg → Forall bytes chunks → Z.of_nat (length (msg ++ concat chunks)) < 2 ^ 64 →
  has_read (fold_left (Write im) chunks c) (msg ++ concat chunks).
Proof.
  intros Hc Hb. revert c msg Hc. induction Hb as [|d chunks Hd Hb IH]; intros c msg Hc Hlt; [by apply has_read_empty|].
  cbn [fold_left concat] in *. rewrite app_assoc in *. apply IH; [|done].
  apply Write_ok; [done..|]. rewrite length_app in Hlt. lia.
Qed.

Lemma CHash256_ok c msg output tmp :
  has_read c msg → 8 * Z.of_nat (length msg) < 2 ^ 64 → length output = 32%nat → length tmp = 32%nat →
  ∃ c', CHash256_Finalize im c output tmp = Some (c', sha256d msg).
Proof.
  intros Hc Hlt Ho Ht. unfold CHash256_Finalize. rewrite Ho. cbn [Nat.eqb].
  pose proof (Finalize_ok c msg tmp Hc Hlt Ht) as F1. destruct (Finalize im c tmp) as [c1 h1]. destruct F1 as [-> F1].
  assert (H2 : has_read (Write im (Reset c1) (sha256 msg)) (sha256 msg)).
  { apply (Write_ok (Reset c1) []); [by apply (Reset_ok c1 _ F1)|apply bytes_sha256|].
    cbn [app]. rewrite length_sha256. lia. }
  pose proof (Finalize_ok _ _ output H2) as F2. rewrite length_sha256 in F2. specialize (F2 ltac:(lia) Ho).
  destruct (Finalize im _ output) as [c2 h2]. destruct F2 as [-> _]. by exists c2.
Qed.
End Streaming.

(** [HashWriter]: a stream whose bytes go to a [CSHA256]; [GetHash] and [GetSHA256], with
    the array [result] that they start from. *)
Definition HashWriter_GetHash (im : Impl) (ctx : CSHA256) (result : list Z) : list Z :=
  let '(ctx, result) := Finalize im ctx result in
  snd (Finalize im (Write im (Reset ctx) result) result).
Definition HashWriter_GetSHA256 (im : Impl) (ctx : CSHA256) (result : list Z) : list Z :=
  snd (Finalize im ctx result).

Lemma HashWriter_ok im ctx msg result :
  impl_ok im → has_read ctx msg → 8 * Z.of_nat (length msg) < 2 ^ 64 → length result = 32%nat →
  HashWriter_GetHash im ctx result = sha256d msg ∧ HashWriter_GetSHA256 im ctx result = sha256 msg.
Proof.
  intros Him Hc Hlt Hr. unfold HashWriter_GetHash, HashWriter_GetSHA256.
  pose proof (Finalize_ok im Him ctx msg result Hc Hlt Hr) as F. destruct (Finalize im ctx result) as [c h].
  destruct F as [-> F]. split; [|done].
  assert (H2 : has_read (Write im (Reset c) (sha256 msg)) (sha256 msg)).
  { apply (Write_ok im Him (Reset c) []); [by apply (Reset_ok c _ F)|apply bytes_sha256|].
    cbn [app]. rewrite length_sha256. lia. }
  pose proof (Finalize_ok im Him _ _ (sha256 msg) H2) as G. rewrite length_sha256 in G.
  specialize (G ltac:(lia) eq_refl). destruct (Finalize im _ (sha256 msg)) as [c2 h2]. by destruct G as [-> _].
Qed.

(** Known answers: the empty message, "abc" and the 56 bytes of FIPS 180-4. *)
Example sha256_vectors :
  sha256 [] = [0xe3; 0xb0; 0xc4; 0x42; 0x98; 0xfc; 0x1c; 0x14; 0x9a; 0xfb; 0xf4; 0xc8; 0x99; 0x6f; 0xb9; 0x24;
    0x27; 0xae; 0x41; 0xe4; 0x64; 0x9b; 0x93; 0x4c; 0xa4; 0x95; 0x99; 0x1b; 0x78; 0x52; 0xb8; 0x55] ∧
  sha256 [97; 98; 99] = [0xba; 0x78; 0x16; 0xbf; 0x8f; 0x01; 0xcf; 0xea; 0x41; 0x41; 0x40; 0xde; 0x5d; 0xae; 0x22; 0x23;
    0xb0; 0x03; 0x61; 0xa3; 0x96; 0x17; 0x7a; 0x9c; 0xb4; 0x10; 0xff; 0x61; 0xf2; 0x00; 0x15; 0xad] ∧
  sha256 (concat ((λ i, (λ j, Z.of_nat (i + j)) <$> seq 97 4) <$> seq 0 14)) =
    [0x24; 0x8d; 0x6a; 0x61; 0xd2; 0x06; 0x38; 0xb8; 0xe5; 0xc0; 0x26; 0x93; 0x0c; 0x3e; 0x60; 0x39;
     0xa3; 0x3c; 0xe4; 0x59; 0x64; 0xff; 0x21; 0x67; 0xf6; 0xec; 0xed; 0xd4; 0x19; 0xdb; 0x06; 0xc1].
Proof. vm_compute. auto. Qed.

(** C28: SHA-256 over its streaming interface: whatever [buf] holds at first,
    any sequence of [Write] calls and [Finalize] give the hash of FIPS 180-4
    of the concatenated data (up to the 2^61 bytes that the length field can
    count), with every block function that keeps its promise; [CHash256] and
    [HashWriter] give the hash of that hash, and an output of another size
    fails the assertion. *)
Theorem hashers_correct im buf0 chunks hash tmp :
  impl_ok im → length buf0 = 64%nat → Forall bytes chunks → 8 * Z.of_nat (length (concat chunks)) < 2 ^ 64 →
  length tmp = 32%nat →
  let c := fold_left (Write im) chunks (CSHA256_new buf0) in
  (length hash = 32%nat →
    snd (Finalize im c hash) = sha256 (concat chunks) ∧
    (∃ c', CHash256_Finalize im c hash tmp = Some (c', sha256d (concat chunks))) ∧
    HashWriter_GetHash im c hash = sha256d (concat chunks)) ∧
  (length hash ≠ 32%nat → CHash256_Finalize im c hash tmp = None).
Proof.
  intros Him Hb0 Hb Hlt Ht c.
  assert (Hc : has_read c (concat chunks))
    by (apply (writes_ok im Him chunks _ []); [by apply CSHA256_new_ok|done|cbn [app]; lia]).
  split; intros Hh.
  - pose proof (Finalize_ok im Him c _ hash Hc Hlt Hh) as F. destruct (Finalize im c hash) as [c' h].
    split; [exact (proj1 F)|]. split; [by apply CHash256_ok|]. exact (proj1 (HashWriter_ok im c _ hash Him Hc Hlt Hh)).
  - unfold CHash256_Finalize. by destruct (Nat.eqb_spec (length hash) 32).
Qed.

Lemma hashers_correct_witness :
  snd (Finalize standard (fold_left (Write standard) [[97; 98]; [99]] (CSHA256_new (replicate 64 7))) (replicate 32 0)) =
  sha256 [97; 98; 99].
Proof.
  refine (proj1 (proj1 (hashers_correct standard (replicate 64 7) [[97; 98]; [99]] (replicate 32 0) (replicate 32 0)
    standard_ok eq_refl _ _ eq_refl) eq_refl)).
  - apply (bool_decide_unpack _). vm_compute. exact I.
  - vm_compute. reflexivity.
Defined.

End Hashers.
