(* ===== verification/Hash160.v ===== *)
(** * SHA-1, RIPEMD-160 and CHash160: crypto/sha1.cpp, crypto/ripemd160.cpp, hash.h

    The two classes have the same [Write], [Finalize] and [Reset] up to the
    block function and the byte order, which are arguments here.  The block
    functions are calls of [Round] with the variables in turn: in call [i] the
    arguments [a] to [e] are the variables moved by [i] places, as in the 80
    calls of SHA-1 and in each of the two lines of 80 calls of RIPEMD-160.
    They are proved equal to the standards: FIPS 180-4 for SHA-1, and for
    RIPEMD-160 the definition by the permutations of the message words and the
    table of rotations. *)
From S2P Require Import Prelude SphTypes Stream Padding Sha256 Hashers.

Module Hash160.
Import Sha256 Hashers.

(** ** The classes, over a block function *)

Record Hasher := mk_hasher { state : list Z; buffer : list Z; count : Z }.

Section Classes.
Context (Transform : list Z → list Z → list Z) (Initial : list Z).

(** The constructor; [buf0] is what the memory of [buf] holds. *)
Definition new (buf0 : list Z) : Hasher := mk_hasher Initial buf0 0.

(** [while (end - data >= 64)], and the data that remain. *)
Fixpoint chunk_loop (fuel : nat) (c : Hasher) (data : list Z) : Hasher * list Z :=
  match fuel with
  | O => (c, data)
  | S fuel =>
      if (64 <=? length data)%nat
      then chunk_loop fuel (mk_hasher (Transform (state c) data) (buffer c) (SPH_T64 (count c + 64))) (drop 64 data)
      else (c, data)
  end.

Definition Write (c : Hasher) (data : list Z) : Hasher :=
  let bufsize := Z.to_nat (count c mod 64) in
  let '(c, data, bufsize) :=
    if negb (bufsize =? 0)%nat && (64 <=? bufsize + length data)%nat
    then
      let n := (64 - bufsize)%nat in
      let buf := memcpy (buffer c) bufsize (take n data) in
      (mk_hasher (Transform (state c) buf) buf (SPH_T64 (count c + Z.of_nat n)), drop n data, O)
    else (c, data, bufsize) in
  let '(c, data) := chunk_loop (length data) c data in
  if (0 <? length data)%nat
  then mk_hasher (state c) (memcpy (buffer c) bufsize data) (SPH_T64 (count c + Z.of_nat (length data)))
  else c.

(** [size] writes the count of bits, [enc] a word of the result. *)
Definition Finalize (size enc : Z → list Z) (c : Hasher) (hash : list Z) : Hasher * list Z :=
  let pad := 0x80 :: replicate 63 0 in
  let sizedesc := size (SPH_T64 (count c ≪ 3)) in
  let c := Write c (take (1 + Z.to_nat ((119 - count c mod 64) mod 64)) pad) in
  let c := Write c sizedesc in
  (c, fold_left (λ hash '(j, x), memcpy hash (4 * j) (enc x)) (zip (seq 0 5) (state c)) hash).

Definition Reset (c : Hasher) : Hasher := mk_hasher Initial (buffer c) 0.
End Classes.

(** The variable that is argument [j] of call [i]: [(a, b, c, d, e)], then [(e, a, b, c, d)],
    then [(d, e, a, b, c)], and so on. *)
Definition argument (i j : nat) : nat := (j + (5 - i mod 5)) mod 5.

(** [(x << n) | (x >> (32 - n))] *)
Definition rol (x n : Z) : Z := Z.lor (SPH_T32 (x ≪ n)) (x ≫ (32 - n)).

(** ** SHA-1 *)

(** The values of the references [b] and [e] after the call. *)
Definition sha1_Round (a b c d e f k w : Z) : Z * Z := (rol b 30, SPH_T32 (e + (rol a 5 + f + k + w))).
Definition sha1_f1 (b c d : Z) : Z := d ^^ Z.land b (c ^^ d).
Definition sha1_f2 (b c d : Z) : Z := b ^^ c ^^ d.
Definition sha1_f3 (b c d : Z) : Z := Z.lor (Z.land b c) (Z.land d (Z.lor b c)).
Definition sha1_left (x : Z) : Z := rol x 1.
Definition sha1_Initialize : list Z := [0x67452301; 0xEFCDAB89; 0x98BADCFE; 0x10325476; 0xC3D2E1F0].
Definition k1 : Z := 0x5A827999.
Definition k2 : Z := 0x6ED9EBA1.
Definition k3 : Z := 0x8F1BBCDC.
Definition k4 : Z := 0xCA62C1D6.

(** The function and the constant of call [i]: 20 calls each with [sha1_f1, k1], [sha1_f2, k2],
    [sha1_f3, k3] and [sha1_f2, k4]. *)
Definition sha1_function (i : nat) : Z → Z → Z → Z :=
  if (i <? 20)%nat then sha1_f1 else if (i <? 40)%nat then sha1_f2 else if (i <? 60)%nat then sha1_f3 else sha1_f2.
Definition sha1_constant (i : nat) : Z :=
  if (i <? 20)%nat then k1 else if (i <? 40)%nat then k2 else if (i <? 60)%nat then k3 else k4.

(** The last argument of call [i] with its assignment to [w0] to [w15]; the last three calls
    do not assign.  Variables that have no value yet are not in the list. *)
Definition word_argument (chunk : list Z) (i : nat) (w : list Z) : Z * list Z :=
  if (i <? 16)%nat then let y := ReadBE32 (drop (4 * i) chunk) in (y, w ++ [y])
  else
    let x j := w @@ ((i + j) mod 16) in
    let y := sha1_left (x 0%nat ^^ x 13%nat ^^ x 8%nat ^^ x 2%nat) in
    (y, if (i <? 77)%nat then <[(i mod 16)%nat := y]> w else w).

Definition sha1_round_call (i : nat) (wt : Z) (v : list Z) : list Z :=
  let x j := v @@ argument i j in
  let '(b, e) := sha1_Round (x 0%nat) (x 1%nat) (x 2%nat) (x 3%nat) (x 4%nat)
    (sha1_function i (x 1%nat) (x 2%nat) (x 3%nat)) (sha1_constant i) wt in
  <[argument i 4 := e]> (<[argument i 1 := b]> v).

Definition sha1_Transform (s chunk : list Z) : list Z :=
  let '(v, _) :=
    fold_left (λ '(v, w) i, let '(wt, w) := word_argument chunk i w in (sha1_round_call i wt v, w)) (seq 0 80) (s, []) in
  zip_with add32 s v.

Definition CSHA1_new : list Z → Hasher := new sha1_Initialize.
Definition CSHA1_Write : Hasher → list Z → Hasher := Write sha1_Transform.
Definition CSHA1_Finalize : Hasher → list Z → Hasher * list Z := Finalize sha1_Transform WriteBE64 WriteBE32.
Definition CSHA1_Reset : Hasher → Hasher := Reset sha1_Initialize.

(** ** RIPEMD-160 *)

Definition ripemd160_f1 (x y z : Z) : Z := x ^^ y ^^ z.
Definition ripemd160_f2 (x y z : Z) : Z := Z.lor (Z.land x y) (Z.land (not32 x) z).
Definition ripemd160_f3 (x y z : Z) : Z := Z.lor x (not32 y) ^^ z.
Definition ripemd160_f4 (x y z : Z) : Z := Z.lor (Z.land x z) (Z.land y (not32 z)).
Definition ripemd160_f5 (x y z : Z) : Z := x ^^ Z.lor y (not32 z).
Definition ripemd160_Initialize : list Z := [0x67452301; 0xEFCDAB89; 0x98BADCFE; 0x10325476; 0xC3D2E1F0].

(** The values of the references [a] and [c] after the call. *)
Definition ripemd160_Round (a b c d e f x k r : Z) : Z * Z := (add32 (rol (SPH_T32 (a + f + x + k)) r) e, rol c 10).

(** [R11] to [R51] and [R12] to [R52]: the function and the constant of each. *)
Definition R_left : list ((Z → Z → Z → Z) * Z) :=
  [(ripemd160_f1, 0); (ripemd160_f2, 0x5A827999); (ripemd160_f3, 0x6ED9EBA1); (ripemd160_f4, 0x8F1BBCDC); (ripemd160_f5, 0xA953FD4E)].
Definition R_right : list ((Z → Z → Z → Z) * Z) :=
  [(ripemd160_f5, 0x50A28BE6); (ripemd160_f4, 0x5C4DD124); (ripemd160_f3, 0x6D703EF3); (ripemd160_f2, 0x7A6D76E9); (ripemd160_f1, 0)].

(** The last two arguments of the calls: the word and the rotation. *)
Definition calls_left : list (nat * Z) :=
  [(0%nat, 11); (1%nat, 14); (2%nat, 15); (3%nat, 12); (4%nat, 5); (5%nat, 8); (6%nat, 7); (7%nat, 9);
   (8%nat, 11); (9%nat, 13); (10%nat, 14); (11%nat, 15); (12%nat, 6); (13%nat, 7); (14%nat, 9); (15%nat, 8);
   (7%nat, 7); (4%nat, 6); (13%nat, 8); (1%nat, 13); (10%nat, 11); (6%nat, 9); (15%nat, 7); (3%nat, 15);
   (12%nat, 7); (0%nat, 12); (9%nat, 15); (5%nat, 9); (2%nat, 11); (14%nat, 7); (11%nat, 13); (8%nat, 12);
   (3%nat, 11); (10%nat, 13); (14%nat, 6); (4%nat, 7); (9%nat, 14); (15%nat, 9); (8%nat, 13); (1%nat, 15);
   (2%nat, 14); (7%nat, 8); (0%nat, 13); (6%nat, 6); (13%nat, 5); (11%nat, 12); (5%nat, 7); (12%nat, 5);
   (1%nat, 11); (9%nat, 12); (11%nat, 14); (10%nat, 15); (0%nat, 14); (8%nat, 15); (12%nat, 9); (4%nat, 8);
   (13%nat, 9); (3%nat, 14); (7%nat, 5); (15%nat, 6); (14%nat, 8); (5%nat, 6); (6%nat, 5); (2%nat, 12);
   (4%nat, 9); (0%nat, 15); (5%nat, 5); (9%nat, 11); (7%nat, 6); (12%nat, 8); (2%nat, 13); (10%nat, 12);
   (14%nat, 5); (1%nat, 12); (3%nat, 13); (8%nat, 14); (11%nat, 11); (6%nat, 8); (15%nat, 5); (13%nat, 6)].
Definition calls_right : list (nat * Z) :=
  [(5%nat, 8); (14%nat, 9); (7%nat, 9); (0%nat, 11); (9%nat, 13); (2%nat, 15); (11%nat, 15); (4%nat, 5);
   (13%nat, 7); (6%nat, 7); (15%nat, 8); (8%nat, 11); (1%nat, 14); (10%nat, 14); (3%nat, 12); (12%nat, 6);
   (6%nat, 9); (11%nat, 13); (3%nat, 15); (7%nat, 7); (0%nat, 12); (13%nat, 8); (5%nat, 9); (10%nat, 11);
   (14%nat, 7); (15%nat, 7); (8%nat, 12); (12%nat, 7); (4%nat, 6); (9%nat, 15); (1%nat, 13); (2%nat, 11);
   (15%nat, 9); (5%nat, 7); (1%nat, 15); (3%nat, 11); (7%nat, 8); (14%nat, 6); (6%nat, 6); (9%nat, 14);
   (11%nat, 12); (8%nat, 13); (12%nat, 5); (2%nat, 14); (10%nat, 13); (0%nat, 13); (4%nat, 7); (13%nat, 5);
   (8%nat, 15); (6%nat, 5); (4%nat, 8); (1%nat, 11); (3%nat, 14); (11%nat, 14); (15%nat, 6); (0%nat, 14);
   (5%nat, 6); (12%nat, 9); (2%nat, 12); (13%nat, 9); (9%nat, 12); (7%nat, 5); (10%nat, 15); (14%nat, 8);
   (12%nat, 8); (15%nat, 5); (10%nat, 12); (4%nat, 9); (1%nat, 12); (5%nat, 5); (8%nat, 14); (7%nat, 6);
   (6%nat, 8); (2%nat, 13); (13%nat, 6); (14%nat, 5); (0%nat, 15); (3%nat, 13); (9%nat, 11); (11%nat, 11)].

(** Call [i] of a line: [R1x] 16 times, then [R2x] 16 times, and so on. *)
Definition ripemd160_round_call (R : list ((Z → Z → Z → Z) * Z)) (w : list Z) (i : nat) (call : nat * Z) (v : list Z) : list Z :=
  let x j := v @@ argument i j in
  let '(f, k) := nth (i / 16) R (ripemd160_f1, 0) in
  let '(a, c) := ripemd160_Round (x 0%nat) (x 1%nat) (x 2%nat) (x 3%nat) (x 4%nat)
    (f (x 1%nat) (x 2%nat) (x 3%nat)) (w @@ fst call) k (snd call) in
  <[argument i 2 := c]> (<[argument i 0 := a]> v).
Definition line (R : list ((Z → Z → Z → Z) * Z)) (calls : list (nat * Z)) (w v : list Z) : list Z :=
  fold_left (λ v '(i, call), ripemd160_round_call R w i call v) (zip (seq 0 80) calls) v.

(** The two lines of calls alternate in the code and share no variable but the words. *)
Definition ripemd160_Transform (s chunk : list Z) : list Z :=
  let w := (λ i, ReadLE32 (drop (4 * i) chunk)) <$> seq 0 16 in
  let v1 := line R_left calls_left w s in
  let v2 := line R_right calls_right w s in
  [SPH_T32 (s @@ 1 + v1 @@ 2 + v2 @@ 3);
   SPH_T32 (s @@ 2 + v1 @@ 3 + v2 @@ 4);
   SPH_T32 (s @@ 3 + v1 @@ 4 + v2 @@ 0);
   SPH_T32 (s @@ 4 + v1 @@ 0 + v2 @@ 1);
   SPH_T32 (s @@ 0 + v1 @@ 1 + v2 @@ 2)].

Definition WriteLE64 (x : Z) : list Z := le_split 8 x.
Definition CRIPEMD160_new : list Z → Hasher := new ripemd160_Initialize.
Definition CRIPEMD160_Write : Hasher → list Z → Hasher := Write ripemd160_Transform.
Definition CRIPEMD160_Finalize : Hasher → list Z → Hasher * list Z := Finalize ripemd160_Transform WriteLE64 WriteLE32.
Definition CRIPEMD160_Reset : Hasher → Hasher := Reset ripemd160_Initialize.

(** [CHash160] holds a [CSHA256].  The local array [buf] and the buffer of the local
    [CRIPEMD160] are not initialised; [None] is the assertion on the size of [output]. *)
Definition CHash160_Write (im : Impl) (c : CSHA256) (input : list Z) : CSHA256 := Sha256.Write im c input.
Definition CHash160_Finalize (im : Impl) (c : CSHA256) (output buf buf0 : list Z) : option (CSHA256 * list Z) :=
  if (length output =? 20)%nat
  then let '(c, buf) := Sha256.Finalize im c buf in
       Some (c, snd (CRIPEMD160_Finalize (CRIPEMD160_Write (CRIPEMD160_new buf0) buf) output))
  else None.

(** ** The streaming interface *)

Definition five (H : list Z) : Prop := length H = 5%nat ∧ words 32 H.

Section Streaming.
Context (Transform : list Z → list Z → list Z) (Initial : list Z) (compress : list Z → list Z → list Z).
Context (HT : ∀ H chunk, five H → bytes chunk → (64 <= length chunk)%nat → Transform H chunk = compress (take 64 chunk) H).
Context (HC : ∀ b H, five H → five (compress b H)) (HI : five Initial).

(** The hasher has read [msg]: the state and the bytes that wait in [buf]. *)
Definition has_read (c : Hasher) (msg : list Z) : Prop :=
  bytes msg ∧ length (buffer c) = 64%nat ∧ count c = Z.of_nat (length msg) ∧
  (take (length msg mod 64) (buffer c), state c) = absorb 64 compress ([], Initial) msg.

Lemma md_has_read_view c msg :
  has_read c msg →
  take (length msg mod 64) (buffer c) = rest 64 msg ∧ state c = run compress (full_blocks 64 msg) Initial ∧ five (state c).
Proof.
  intros (_ & _ & _ & E). rewrite absorb_message in E by lia. injection E as E1 E2.
  split; [exact E1|]. split; [exact E2|]. rewrite E2.
  apply (run_inv compress five (λ _, True)); [intros b H _; apply HC|by apply Forall_true|done].
Qed.

Lemma md_read_fill c msg d :
  has_read c msg → bytes d → (length msg mod 64 + length d = 64)%nat → d ≠ [] →
  Z.of_nat (length (msg ++ d)) < 2 ^ 64 →
  let b := memcpy (buffer c) (length msg mod 64) d in
  has_read (mk_hasher (Transform (state c) b) b (SPH_T64 (count c + Z.of_nat (length d)))) (msg ++ d).
Proof.
  intros Hc Hd Hl Hne Hlt b. destruct (md_has_read_view c msg Hc) as (Hrest & Hs & Hf).
  destruct Hc as (Hm & Hlb & Hn & E).
  assert (Eb : b = rest 64 msg ++ d) by (unfold b; rewrite memcpy_full, Hrest by lia; done).
  assert (Hlb' : length b = 64%nat) by (unfold b; rewrite length_memcpy; lia).
  assert (Hbb : bytes b) by (rewrite Eb; apply Forall_app_2; [by apply rest_Forall|done]).
  split; [by apply Forall_app_2|]. split; [exact Hlb'|]. cbn [count buffer state]. split.
  - rewrite Hn, length_app, Nat2Z.inj_add, SPH_T64_id; [done|]. rewrite length_app in Hlt. split; lia.
  - assert (Em : (length (msg ++ d) mod 64 = 0)%nat) by (by rewrite length_app, <-Nat.Div0.add_mod_idemp_l, Hl).
    rewrite Em, take_0, absorb_app, <-E, absorb_block; [|rewrite length_take; lia|done].
    rewrite HT by (done || lia). by rewrite take_ge, Eb, <-Hrest by lia.
Qed.

Lemma md_read_small c msg d :
  has_read c msg → bytes d → (length msg mod 64 + length d < 64)%nat → Z.of_nat (length (msg ++ d)) < 2 ^ 64 →
  has_read (mk_hasher (state c) (memcpy (buffer c) (length msg mod 64) d) (SPH_T64 (count c + Z.of_nat (length d)))) (msg ++ d).
Proof.
  intros (Hm & Hlb & Hn & E) Hd Hl Hlt.
  split; [by apply Forall_app_2|]. split; [cbn [buffer]; rewrite length_memcpy; lia|]. cbn [count buffer state]. split.
  - rewrite Hn, length_app, Nat2Z.inj_add, SPH_T64_id; [done|]. rewrite length_app in Hlt. split; lia.
  - rewrite absorb_app, <-E, absorb_small by (rewrite length_take; lia).
    rewrite length_app, <-Nat.Div0.add_mod_idemp_l, (Nat.mod_small (length msg mod 64 + length d)) by lia.
    f_equal. apply take_memcpy. lia.
Qed.

(** The loop reads the whole blocks. *)
Lemma read_chunks fuel c msg d :
  has_read c msg → bytes d → (length msg mod 64 = 0)%nat → (length d <= fuel)%nat → Z.of_nat (length (msg ++ d)) < 2 ^ 64 →
  ∃ c' d1 d2, chunk_loop Transform fuel c d = (c', d2) ∧ d = d1 ++ d2 ∧ has_read c' (msg ++ d1) ∧
    (length (msg ++ d1) mod 64 = 0)%nat ∧ (length d2 < 64)%nat.
Proof.
  revert c msg d. induction fuel as [|fuel IH]; intros c msg d Hc Hd Hz Hf Hlt; cbn [chunk_loop].
  { exists c, [], d. rewrite app_nil_r. destruct d; [|cbn in Hf; lia]. repeat split; (done || cbn; lia || apply Hc). }
  destruct (Nat.leb_spec 64 (length d)) as [Hl|Hl].
  2: { exists c, [], d. rewrite app_nil_r. by repeat split; (done || apply Hc). }
  assert (Ht : length (take 64 d) = 64%nat) by (rewrite length_take; lia). rewrite length_app in Hlt.
  destruct (md_has_read_view c msg Hc) as (Hrest & Hs & Hfive). destruct Hc as (Hm & Hlb & Hn & E).
  assert (Em : (length (msg ++ take 64 d) mod 64 = 0)%nat) by (by rewrite length_app, Ht, <-Nat.Div0.add_mod_idemp_l, Hz).
  assert (Hc' : has_read (mk_hasher (Transform (state c) d) (buffer c) (SPH_T64 (count c + 64))) (msg ++ take 64 d)).
  { split; [by apply Forall_app_2; [|apply Forall_take]|]. split; [exact Hlb|]. cbn [count buffer state]. split.
    - rewrite Hn, length_app, Ht, SPH_T64_id; [lia|]. split; lia.
    - rewrite Em, take_0, absorb_app, <-E, Hz, take_0, absorb_block by (done || (cbn [length]; lia) || by destruct d).
      by rewrite HT by done. }
  destruct (IH _ _ (drop 64 d) Hc') as (c' & d1 & d2 & E1 & E2 & H3 & H4 & H5);
    [by apply Forall_drop|exact Em|rewrite length_drop; lia|rewrite !length_app, Ht, length_drop; lia|].
  exists c', (take 64 d ++ d1), d2. rewrite app_assoc. split; [exact E1|]. split; [|done].
  by rewrite <-app_assoc, <-E2, take_drop.
Qed.

Lemma md_Write_ok c msg data :
  has_read c msg → bytes data → Z.of_nat (length (msg ++ data)) < 2 ^ 64 → has_read (Write Transform c data) (msg ++ data).
Proof.
  intros Hc Hd Hlt. unfold Write. pose proof Hc as (Hm & Hlb & Hn & _).
  rewrite Hn, bufsize_nat. set (r := (length msg mod 64)%nat).
  assert (Hr : (r < 64)%nat) by (apply Nat.mod_upper_bound; lia). rewrite length_app in Hlt.
  destruct (Nat.eqb_spec r 0) as [E0|E0]; [|destruct (Nat.leb_spec 64 (r + length data)) as [Hle|Hgt]]; cbn [negb andb].
  - rewrite E0. destruct (read_chunks (length data) c msg data) as (c' & d1 & d2 & -> & -> & H3 & H4 & H5);
      [done..|rewrite length_app; lia|].
    apply Forall_app in Hd as [_ Hd2]. rewrite app_assoc. rewrite length_app in Hlt.
    destruct (Nat.ltb_spec 0 (length d2)); [|destruct d2; [by rewrite app_nil_r|cbn in *; lia]].
    pose proof (md_read_small c' _ d2 H3 Hd2 ltac:(lia) ltac:(rewrite !length_app; lia)) as R. by rewrite H4 in R.
  - assert (Hl1 : length (take (64 - r) data) = (64 - r)%nat) by (rewrite length_take; lia).
    assert (E : (length (msg ++ take (64 - r) data) mod 64 = 0)%nat).
    { rewrite length_app, <-Nat.Div0.add_mod_idemp_l, Hl1. fold r. by replace (r + (64 - r))%nat with 64%nat by lia. }
    assert (Hc1 : has_read (mk_hasher (Transform (state c) (memcpy (buffer c) r (take (64 - r) data)))
      (memcpy (buffer c) r (take (64 - r) data)) (SPH_T64 (Z.of_nat (length msg) + Z.of_nat (64 - r)))) (msg ++ take (64 - r) data)).
    { replace (Z.of_nat (64 - r)) with (Z.of_nat (length (take (64 - r) data))) by (by rewrite Hl1). rewrite <-Hn. apply md_read_fill; [done|by apply Forall_take|fold r; lia| |rewrite length_app; lia].
      intros E'. rewrite E' in Hl1. cbn in Hl1. lia. }
    edestruct (read_chunks (length (drop (64 - r) data)) _ _ (drop (64 - r) data) Hc1) as (c' & d1 & d2 & -> & E2 & H3 & H4 & H5);
      [by apply Forall_drop|done|done|rewrite !length_app, Hl1, length_drop; lia|].
    rewrite <-(take_drop (64 - r) data), E2, !app_assoc.
    assert (Hd2 : bytes d2) by (apply (Forall_drop _ (64 - r)) in Hd; rewrite E2 in Hd; by apply Forall_app in Hd as [_ ?]).
    assert (Hl2 : length (drop (64 - r) data) = (length d1 + length d2)%nat) by (by rewrite E2, length_app). rewrite length_drop in Hl2.
    destruct (Nat.ltb_spec 0 (length d2)); [|destruct d2; [by rewrite app_nil_r|cbn in *; lia]].
    pose proof (md_read_small c' _ d2 H3 Hd2 ltac:(lia) ltac:(rewrite !length_app, Hl1; lia)) as R. by rewrite H4 in R.
  - assert (El : chunk_loop Transform (length data) c data = (c, data)).
    { destruct data; [done|]. cbn [chunk_loop length]. cbn [length] in Hgt. by destruct (Nat.leb_spec 64 (S (length data))); [lia|]. }
    rewrite El. destruct (Nat.ltb_spec 0 (length data)); [|destruct data; [by rewrite app_nil_r|cbn in *; lia]].
    apply md_read_small; [done..|rewrite length_app; lia].
Qed.

Lemma new_ok buf0 : length buf0 = 64%nat → has_read (new Initial buf0) [].
Proof. intros Hb. split; [apply Forall_nil_2|]. split; [exact Hb|]. by split. Qed.

Lemma md_writes_ok chunks c msg :
  has_read c msg → Forall bytes chunks → Z.of_nat (length (msg ++ concat chunks)) < 2 ^ 64 →
  has_read (fold_left (Write Transform) chunks c) (msg ++ concat chunks).
Proof.
  intros Hc Hb. revert c msg Hc. induction Hb as [|d chunks Hd Hb IH]; intros c msg Hc Hlt; [by rewrite app_nil_r|].
  cbn [fold_left concat] in *. rewrite app_assoc in *. apply IH; [|done].
  apply md_Write_ok; [done..|]. rewrite length_app in Hlt. lia.
Qed.

(** The hash: the padded message, the length in bits as [trailer] writes it, the words as [enc] does. *)
Definition md_hash (trailer enc : Z → list Z) (msg : list Z) : list Z :=
  concat (enc <$> run compress (full_blocks 64 (msg ++
    md_padding 64 8 0x80 (trailer (8 * Z.of_nat (length msg))) (length msg))) Initial).

Lemma md_pad_take len trailer :
  take (1 + Z.to_nat ((119 - Z.of_nat len mod 64) mod 64)) (0x80 :: replicate 63 0) ++ trailer = md_padding 64 8 0x80 trailer len.
Proof.
  pose proof (sha256_padding_take len) as E. unfold sha256_padding, md_padding in *. rewrite !app_comm_cons in *.
  apply app_inj_2 in E as [E _]; [|done]. by rewrite E.
Qed.

Lemma md_Finalize_ok size trailer enc c msg hash :
  (∀ x, word 64 x → size x = trailer x) → (∀ x, length (trailer x) = 8%nat ∧ bytes (trailer x)) → (∀ x, length (enc x) = 4%nat) →
  has_read c msg → 8 * Z.of_nat (length msg) < 2 ^ 64 → length hash = 20%nat →
  snd (Finalize Transform size enc c hash) = md_hash trailer enc msg.
Proof.
  intros Hsz Htr Henc Hc Hlt Hh. unfold Finalize, md_hash. pose proof Hc as (Hm & _ & Hn & _). cbn [snd].
  assert (Esz : size (SPH_T64 (count c ≪ 3)) = trailer (8 * Z.of_nat (length msg))).
  { rewrite Hn, Z.shiftl_mul_pow2 by lia. rewrite SPH_T64_id by (split; lia). rewrite Hsz by (split; lia). f_equal. lia. }
  rewrite Esz, <-(md_pad_take (length msg)), <-Hn. set (pad := take _ (0x80 :: replicate 63 0)). set (sz := trailer _).
  assert (Hbp : bytes pad) by (apply Forall_take, Forall_cons_2; [split; lia|]; by apply Forall_replicate).
  assert (Hlp : (length pad <= 64)%nat) by (unfold pad; rewrite length_take; cbn; lia).
  assert (H1 : has_read (Write Transform c pad) (msg ++ pad)) by (apply md_Write_ok; [done..|rewrite length_app; lia]).
  assert (H2 : has_read (Write Transform (Write Transform c pad) sz) (msg ++ pad ++ sz)).
  { rewrite app_assoc. apply md_Write_ok; [done|apply Htr|]. rewrite !length_app. unfold sz. rewrite (proj1 (Htr _)). lia. }
  destruct (md_has_read_view _ _ H2) as (_ & Es & Hl5 & _). rewrite Es in *. set (ws := run _ _ _) in *.
  pose proof (write_seq enc ws hash 0 0 Henc ltac:(lia)) as W. rewrite Hl5 in W. etrans; [exact W|].
  unfold memcpy. rewrite take_0, drop_ge by (rewrite (length_concat_map _ 4), Hl5 by done; lia). by rewrite app_nil_r.
Qed.

Lemma length_md_hash trailer enc msg : (∀ x, length (enc x) = 4%nat) → length (md_hash trailer enc msg) = 20%nat.
Proof.
  intros Henc. unfold md_hash. rewrite (length_concat_map _ 4) by done.
  assert (E : five (run compress (full_blocks 64 (msg ++ md_padding 64 8 0x80 (trailer (8 * Z.of_nat (length msg))) (length msg))) Initial)).
  { apply (run_inv compress five (λ _, True)); [intros b H _; apply HC|by apply Forall_true|done]. }
  by rewrite (proj1 E).
Qed.
End Streaming.

(** ** The variables of the calls *)

(** The variables in the order of the arguments of call [i]. *)
Definition rotated (i : nat) (v : list Z) : list Z := (λ j, v @@ argument i j) <$> seq 0 5.

(** Only the remainder of [i] by 5 counts. *)
Lemma md_argument_mod i j : argument i j = argument (i mod 5) j.
Proof. unfold argument. by rewrite Nat.Div0.mod_mod. Qed.
Lemma md_rotated_mod i v : rotated i v = rotated (i mod 5) v.
Proof. apply list_fmap_ext. intros ? j _. by rewrite md_argument_mod. Qed.

(** Two of the variables are set, and the next call takes them in turn. *)
Lemma rotated_next i v y z :
  length v = 5%nat →
  let x j := rotated i v @@ j in
  rotated (S i) (<[argument i 4 := z]> (<[argument i 1 := y]> v)) = [z; x 0%nat; y; x 2%nat; x 3%nat] ∧
  rotated (S i) (<[argument i 2 := z]> (<[argument i 0 := y]> v)) = [x 4%nat; y; x 1%nat; z; x 3%nat].
Proof.
  intros Hv x. unfold x. clear x. rewrite !(md_rotated_mod (S i)), !(md_rotated_mod i), !(md_argument_mod i).
  assert (E : (S i mod 5 = S (i mod 5) mod 5)%nat).
  { rewrite <-(Nat.add_1_r i), <-(Nat.add_1_r (i mod 5)). by rewrite Nat.Div0.add_mod_idemp_l. }
  rewrite E. pose proof (Nat.mod_upper_bound i 5 ltac:(lia)) as Hi. clear E. generalize dependent (i mod 5)%nat. clear i.
  intros i Hi. do 5 (destruct v as [|? v]; [done|]). destruct v; [|done].
  do 5 (destruct i as [|i]; [split; reflexivity|]). lia.
Qed.
Lemma rotated_self v i : length v = 5%nat → (i mod 5 = 0)%nat → rotated i v = v.
Proof.
  intros Hv Hi. rewrite md_rotated_mod, Hi. do 5 (destruct v as [|? v]; [done|]). by destruct v.
Qed.
Lemma rotated_at i v j : (j < 5)%nat → v @@ argument i j = rotated i v @@ j.
Proof. intros Hj. unfold rotated. by rewrite at_fmap_seq. Qed.
Lemma words_rotated i v : words 32 v → words 32 (rotated i v).
Proof. intros Hv. apply Forall_fmap, Forall_true. intros j. by apply words_at. Qed.

Lemma rol_ROTL x n : word 32 x → 0 < n < 32 → rol x n = SPH_ROTL32 x n.
Proof.
  intros Hx Hn. unfold rol. rewrite Z.lor_comm, (rotr_shifts x (32 - n) n) by (done || lia). unfold SPH_ROTR32. f_equal. lia.
Qed.

(** ** SHA-1 in FIPS 180-4 *)

Definition fips_f (t : nat) (x y z : Z) : Z :=
  if (t <? 20)%nat then fips_Ch x y z else if (t <? 40)%nat then x ^^ y ^^ z
  else if (t <? 60)%nat then fips_Maj x y z else x ^^ y ^^ z.
Definition fips_K (t : nat) : Z :=
  if (t <? 20)%nat then 0x5a827999 else if (t <? 40)%nat then 0x6ed9eba1
  else if (t <? 60)%nat then 0x8f1bbcdc else 0xca62c1d6.
Definition sha1_next_word (W : list Z) : Z :=
  let t := length W in SPH_ROTL32 (W @@ (t - 3) ^^ W @@ (t - 8) ^^ W @@ (t - 14) ^^ W @@ (t - 16)) 1.
Definition sha1_schedule (M : list Z) : list Z := Nat.iter 64 (λ W, W ++ [sha1_next_word W]) M.
Definition sha1_step (W : list Z) (r : list Z) (t : nat) : list Z :=
  match r with
  | [a; b; c; d; e] =>
      [SPH_T32 (SPH_ROTL32 a 5 + fips_f t b c d + e + fips_K t + W @@ t); a; SPH_ROTL32 b 30; c; d]
  | _ => r
  end.
Definition sha1_compress (block H : list Z) : list Z :=
  zip_with add32 H (fold_left (sha1_step (sha1_schedule (words_of block))) (seq 0 80) H).
Definition sha1 : list Z → list Z := md_hash sha1_Initialize sha1_compress sph_enc64be sph_enc32be.

Lemma sha1_schedule_spec M :
  length M = 16%nat →
  let W := sha1_schedule M in
  length W = 80%nat ∧ (∀ t, (t < 16)%nat → W @@ t = M @@ t) ∧
  ∀ t, (16 <= t < 80)%nat → W @@ t = SPH_ROTL32 (W @@ (t - 3) ^^ W @@ (t - 8) ^^ W @@ (t - 14) ^^ W @@ (t - 16)) 1.
Proof.
  intros HM W. unfold W, sha1_schedule. clear W. change 80%nat with (16 + 64)%nat. generalize 64%nat. intros n.
  induction n as [|n IH]; [split; [exact HM|]; split; intros; (reflexivity || lia)|].
  rewrite Nat.iter_succ. destruct IH as (Hl & Hlow & Hnext). set (W := Nat.iter n _ M) in *.
  split; [rewrite length_app; cbn [length]; lia|]. split; intros t Ht; [rewrite at_app_l by lia; by apply Hlow|].
  rewrite (at_app_l W _ (t - 3)), (at_app_l W _ (t - 8)), (at_app_l W _ (t - 14)), (at_app_l W _ (t - 16)) by lia.
  destruct (decide (t = length W)) as [-> |Hne]; [by rewrite at_snoc|]. rewrite at_app_l by lia. apply Hnext. lia.
Qed.

Lemma sha1_schedule_words M : length M = 16%nat → words 32 M → ∀ t, word 32 (sha1_schedule M @@ t).
Proof.
  intros HM HW t. apply words_at; [lia|]. unfold sha1_schedule. generalize 64%nat. intros n.
  induction n as [|n IH]; [done|]. rewrite Nat.iter_succ. apply Forall_app_2; [exact IH|].
  apply Forall_cons_2; [apply word_ROTL32|by apply Forall_nil_2].
Qed.

Lemma sha1_call_ok i wt v W :
  five v → W @@ i = wt → word 32 wt → (i < 80)%nat →
  rotated (S i) (sha1_round_call i wt v) = sha1_step W (rotated i v) i ∧ five (sha1_round_call i wt v).
Proof.
  intros [Hl Hw] Hwt Hword Hi. unfold sha1_round_call, sha1_Round. rewrite !rotated_at by lia. cbn zeta.
  assert (HX : ∀ j, word 32 (rotated i v @@ j)) by (intros j; apply words_at; [lia|by apply words_rotated]).
  split.
  - rewrite (proj1 (rotated_next i v _ _ Hl)). rewrite !rol_ROTL by (done || lia).
    assert (Er : ∃ a b c d e, rotated i v = [a; b; c; d; e]) by (unfold rotated; cbn; eauto 10).
    destruct Er as (a & b & c & d & e & Er). rewrite Er in *. cbn [at_ nth sha1_step].
    pose proof (HX 0%nat) as Ha. pose proof (HX 1%nat) as Hb. pose proof (HX 2%nat) as Hc. pose proof (HX 3%nat) as Hd. cbn [at_ nth] in *.
    f_equal. rewrite Hwt. f_equal. unfold sha1_function, sha1_constant, fips_f, fips_K, sha1_f1, sha1_f2, sha1_f3, k1, k2, k3, k4.
    destruct (i <? 20)%nat; [rewrite Ch_fips by done; lia|]. destruct (i <? 40)%nat; [lia|].
    destruct (i <? 60)%nat; [rewrite Maj_fips by done; lia|]. lia.
  - split; [by rewrite !length_insert|]. apply Forall_insert; [apply Forall_insert; [done|]|apply word_T32].
    rewrite rol_ROTL by (done || lia). apply word_ROTL32.
Qed.

(** The variables [w0] to [w15] before call [i]: the words of the schedule, as far as they are stored. *)
Definition holds (W : list Z) (i : nat) (w : list Z) : Prop :=
  length w = Nat.min i 16 ∧ ∀ t, (i - 16 <= t < Nat.min i 77)%nat → w @@ (t mod 16) = W @@ t.

Lemma holds_at W i w j :
  holds W i w → (16 <= i)%nat → (j < 16)%nat → (i - 16 + j < 77)%nat → w @@ ((i + j) mod 16) = W @@ (i - 16 + j).
Proof.
  intros [_ Hw] Hi Hj Hlt. replace ((i + j) mod 16)%nat with ((i - 16 + j) mod 16)%nat; [apply Hw; lia|].
  replace (i + j)%nat with (i - 16 + j + 1 * 16)%nat by lia. by rewrite Nat.Div0.mod_add.
Qed.
Lemma holds_insert W i w y :
  holds W i w → (16 <= i < 77)%nat → y = W @@ i → holds W (S i) (<[(i mod 16)%nat := y]> w).
Proof.
  intros [Hl Hw] Hi ->. split; [rewrite length_insert; lia|]. intros t Ht.
  rewrite at_insert by (rewrite Hl, Nat.min_r by lia; apply Nat.mod_upper_bound; lia).
  destruct (Nat.eqb_spec (t mod 16) (i mod 16)) as [E|E].
  - destruct (decide (t = i)) as [-> |Hne]; [done|]. exfalso.
    pose proof (proj2 (mod16 t (i - t))) as F. replace (t + (i - t))%nat with i in F by lia.
    specialize (F ltac:(lia) ltac:(lia)). lia.
  - apply Hw. split; [lia|]. destruct (decide (t = i)) as [-> |]; [done|lia].
Qed.

Section Schedule.
Context (block : list Z) (Hb : bytes block) (Hl : (64 <= length block)%nat).
Let W := sha1_schedule (words_of (take 64 block)).

Lemma words_words_of : words 32 (words_of (take 64 block)).
Proof.
  apply Forall_fmap, Forall_seq. intros t Ht. apply word_dec32be; [by apply Forall_drop, Forall_take|].
  rewrite length_drop, length_take. lia.
Qed.

Lemma word_argument_ok i w :
  holds W i w → (i < 80)%nat →
  fst (word_argument block i w) = W @@ i ∧ holds W (S i) (snd (word_argument block i w)).
Proof.
  intros Hw Hi. destruct (sha1_schedule_spec _ (length_words_of (take 64 block))) as (_ & Hlow & Hnext). fold W in Hlow, Hnext.
  assert (Hwords : ∀ t, word 32 (W @@ t)).
  { apply sha1_schedule_words; [apply length_words_of|apply words_words_of]. }
  unfold word_argument. destruct (Nat.ltb_spec i 16) as [Hlt|Hge]; cbn [fst snd].
  - assert (E : ReadBE32 (drop (4 * i) block) = W @@ i).
    { rewrite Hlow by done. exact (proj1 (read_block block 0 i Hb ltac:(lia) Hlt)). }
    split; [exact E|]. rewrite E. destruct Hw as [Hlw Hw]. split; [rewrite length_app; cbn [length]; lia|]. intros t Ht.
    rewrite Nat.mod_small by lia. destruct (decide (t = i)) as [-> |Hne].
    + assert (Ei : i = length w) by lia. generalize (W @@ i). intros y. rewrite Ei. apply at_snoc.
    + rewrite at_app_l by lia. specialize (Hw t ltac:(lia)). by rewrite Nat.mod_small in Hw by lia.
  - rewrite (holds_at W i w 0), (holds_at W i w 13), (holds_at W i w 8), (holds_at W i w 2) by (done || lia).
    assert (E : sha1_left (W @@ (i - 16 + 0) ^^ W @@ (i - 16 + 13) ^^ W @@ (i - 16 + 8) ^^ W @@ (i - 16 + 2)) = W @@ i).
    { rewrite (Hnext i) by lia. unfold sha1_left. rewrite rol_ROTL; [|repeat apply word_lxor; done || lia|lia].
      replace (i - 3)%nat with (i - 16 + 13)%nat by lia. replace (i - 8)%nat with (i - 16 + 8)%nat by lia.
      replace (i - 14)%nat with (i - 16 + 2)%nat by lia. rewrite Nat.add_0_r. f_equal.
      apply Z.bits_inj'. intros n _. rewrite !Z.lxor_spec. btauto. }
    rewrite E. split; [done|]. destruct (Nat.ltb_spec i 77); [by apply holds_insert|].
    destruct Hw as [Hlw Hw]. split; [lia|]. intros t Ht. apply Hw. lia.
Qed.

Lemma sha1_calls_ok n v :
  five v → (n <= 80)%nat →
  let '(v', w) := fold_left (λ '(v, w) i, let '(wt, w) := word_argument block i w in (sha1_round_call i wt v, w)) (seq 0 n) (v, []) in
  rotated n v' = fold_left (sha1_step W) (seq 0 n) v ∧ five v' ∧ holds W n w.
Proof.
  intros Hv. assert (Hwords : ∀ t, word 32 (W @@ t)).
  { apply sha1_schedule_words; [apply length_words_of|apply words_words_of]. }
  induction n as [|n IH]; intros Hn.
  { cbn [seq fold_left]. split; [by apply rotated_self; [apply Hv|]|]. split; [done|]. split; [done|]. intros; lia. }
  rewrite seq_S, !fold_left_app. cbn [Nat.add fold_left]. specialize (IH ltac:(lia)).
  destruct (fold_left _ (seq 0 n) (v, [])) as [v1 w1]. destruct IH as (E1 & H1 & Hw1).
  destruct (word_argument_ok n w1 Hw1 ltac:(lia)) as [E2 H2]. destruct (word_argument block n w1) as [wt w2]. cbn [fst snd] in *.
  destruct (sha1_call_ok n wt v1 W H1 (eq_sym E2)) as [E3 H3]; [rewrite E2; apply Hwords|lia|].
  by rewrite E3, E1.
Qed.
End Schedule.

Lemma sha1_Transform_ok H chunk :
  five H → bytes chunk → (64 <= length chunk)%nat → sha1_Transform H chunk = sha1_compress (take 64 chunk) H.
Proof.
  intros HH Hb Hl. unfold sha1_Transform, sha1_compress. pose proof (sha1_calls_ok chunk Hb Hl 80 H HH ltac:(lia)) as E.
  destruct (fold_left _ (seq 0 80) (H, [])) as [v w]. destruct E as (E & [Hv _] & _).
  rewrite rotated_self in E by done. by rewrite E.
Qed.

Lemma five_step (f : list Z → nat → list Z) ts H :
  (∀ r t, length r = 5%nat → length (f r t) = 5%nat) → length H = 5%nat → length (fold_left f ts H) = 5%nat.
Proof. intros Hf. revert H. induction ts as [|t ts IH]; intros H HH; [done|]. apply IH. by apply Hf. Qed.
Lemma length_sha1_step W r t : length r = 5%nat → length (sha1_step W r t) = 5%nat.
Proof. intros Hr. do 5 (destruct r as [|? r]; [done|]). by destruct r. Qed.
Lemma sha1_compress_five b H : five H → five (sha1_compress b H).
Proof.
  intros [Hl _]. unfold sha1_compress. split; [|apply words_add32].
  rewrite length_zip_with, five_step by (done || apply length_sha1_step). lia.
Qed.

(** ** RIPEMD-160 by permutations *)

(** The words of round [j] are permuted [j] times by [rho]; the right line starts from [pi].  The rotation
    depends on the round and the word only. *)
Definition rho : list nat := [7; 4; 13; 1; 10; 6; 15; 3; 12; 0; 9; 5; 2; 14; 11; 8]%nat.
Definition pi (i : nat) : nat := ((9 * i + 5) mod 16)%nat.
Definition message_word (start : nat → nat) (t : nat) : nat := Nat.iter (t / 16) (λ i, nth i rho 0%nat) (start (t mod 16)%nat).
Definition rotations : list (list Z) :=
  [[11; 14; 15; 12; 5; 8; 7; 9; 11; 13; 14; 15; 6; 7; 9; 8];
   [12; 13; 11; 15; 6; 9; 9; 7; 12; 15; 11; 13; 7; 8; 7; 7];
   [13; 15; 14; 11; 7; 7; 6; 8; 13; 14; 13; 12; 5; 5; 6; 9];
   [14; 11; 12; 14; 8; 6; 5; 5; 15; 12; 15; 14; 9; 9; 8; 6];
   [15; 12; 13; 13; 9; 5; 8; 6; 14; 11; 12; 11; 8; 6; 5; 5]].

(** The Boolean functions in the order of the left line, and the constants: the integer parts of
    2^30 times the square roots (left) and cube roots (right) of 2, 3, 5 and 7. *)
Definition rip_f (j : nat) (x y z : Z) : Z :=
  match j with
  | 0%nat => x ^^ y ^^ z
  | 1%nat => Z.lor (Z.land x y) (Z.land (not32 x) z)
  | 2%nat => Z.lor x (not32 y) ^^ z
  | 3%nat => Z.lor (Z.land x z) (Z.land y (not32 z))
  | _ => x ^^ Z.lor y (not32 z)
  end.
Definition rip_K_left (j : nat) : Z := match j with 0%nat => 0 | _ => Z.sqrt ([2; 3; 5; 7] @@ (j - 1) * 2 ^ 60) end.
Definition cube_root (n : Z) : Z :=
  fold_left (λ r b, if (r + 2 ^ Z.of_nat b) ^ 3 <=? n then r + 2 ^ Z.of_nat b else r) (rev (seq 0 32)) 0.
Definition rip_K_right (j : nat) : Z := match j with 4%nat => 0 | _ => cube_root ([2; 3; 5; 7] @@ j * 2 ^ 90) end.

Definition rip_step (f : nat → Z → Z → Z → Z) (k : nat → Z) (start : nat → nat) (X : list Z) (r : list Z) (t : nat) : list Z :=
  match r with
  | [a; b; c; d; e] =>
      let j := (t / 16)%nat in
      let i := message_word start t in
      [e; SPH_T32 (SPH_ROTL32 (SPH_T32 (a + f j b c d + X @@ i + k j)) (nth j rotations [] @@ i) + e);
       b; SPH_ROTL32 c 10; d]
  | _ => r
  end.
Definition rip_left (X : list Z) : list Z → nat → list Z := rip_step rip_f rip_K_left id X.
Definition rip_right (X : list Z) : list Z → nat → list Z := rip_step (λ j, rip_f (4 - j)) rip_K_right pi X.
Definition rip_words (block : list Z) : list Z := (λ i, sph_dec32le (drop (4 * i) block)) <$> seq 0 16.
Definition rip_compress (block H : list Z) : list Z :=
  let X := rip_words block in
  match H, fold_left (rip_left X) (seq 0 80) H, fold_left (rip_right X) (seq 0 80) H with
  | [h0; h1; h2; h3; h4], [a; b; c; d; e], [a'; b'; c'; d'; e'] =>
      SPH_T32 <$> [h1 + c + d'; h2 + d + e'; h3 + e + a'; h4 + a + b'; h0 + b + c']
  | _, _, _ => H
  end.
Definition ripemd160 : list Z → list Z := md_hash ripemd160_Initialize rip_compress sph_enc64le sph_enc32le.

(** The tables of the code, call by call. *)
Definition call_ok (f : nat → Z → Z → Z → Z) (k : nat → Z) (start : nat → nat) (R : list ((Z → Z → Z → Z) * Z))
    (t : nat) (call : nat * Z) : Prop :=
  fst call = message_word start t ∧ snd call = nth (t / 16) rotations [] @@ fst call ∧ 0 < snd call < 32 ∧
  nth (t / 16) R (ripemd160_f1, 0) = (f (t / 16)%nat, k (t / 16)%nat).

Lemma constants_ok : rip_K_left <$> seq 0 5 = snd <$> R_left ∧ rip_K_right <$> seq 0 5 = snd <$> R_right.
Proof. split; vm_compute; reflexivity. Qed.
Lemma functions_ok : rip_f <$> seq 0 5 = fst <$> R_left ∧ (λ j, rip_f (4 - j)) <$> seq 0 5 = fst <$> R_right.
Proof. split; reflexivity. Qed.
Lemma calls_table :
  calls_left = (λ t, (message_word id t, nth (t / 16) rotations [] @@ message_word id t)) <$> seq 0 80 ∧
  calls_right = (λ t, (message_word pi t, nth (t / 16) rotations [] @@ message_word pi t)) <$> seq 0 80 ∧
  Forall (λ call : nat * Z, 0 < snd call < 32) (calls_left ++ calls_right).
Proof. split; [vm_compute; reflexivity|]. split; [vm_compute; reflexivity|]. apply (bool_decide_unpack _). vm_compute. exact I. Qed.

Lemma table_ok f k start R calls :
  f <$> seq 0 5 = fst <$> R → k <$> seq 0 5 = snd <$> R →
  calls = (λ t, (message_word start t, nth (t / 16) rotations [] @@ message_word start t)) <$> seq 0 80 →
  Forall (λ call : nat * Z, 0 < snd call < 32) calls → Forall2 (call_ok f k start R) (seq 0 80) calls.
Proof.
  intros Hf Hk -> Hr. apply Forall2_fmap_r, Forall_Forall2_diag, Forall_seq. intros t Ht.
  assert (Hr' : 0 < nth (t / 16) rotations [] @@ message_word start t < 32).
  { rewrite Forall_fmap in Hr. rewrite Forall_seq in Hr. apply (Hr t). lia. }
  split; [done|]. split; [done|]. split; [exact Hr'|].
  assert (Hj : (t / 16 < 5)%nat) by (apply Nat.Div0.div_lt_upper_bound; lia). clear Hr Hr' Ht. generalize dependent (t / 16)%nat. intros j Hj.
  do 5 (destruct R as [|[? ?] R]; [done|]). destruct R; [|done]. cbn [seq fmap list_fmap fst snd] in Hf, Hk.
  injection Hf as <- <- <- <- <-. injection Hk as <- <- <- <- <-. do 5 (destruct j as [|j]; [done|]). lia.
Qed.
Lemma tables_ok :
  Forall2 (call_ok rip_f rip_K_left id R_left) (seq 0 80) calls_left ∧
  Forall2 (call_ok (λ j, rip_f (4 - j)) rip_K_right pi R_right) (seq 0 80) calls_right.
Proof.
  destruct constants_ok, functions_ok, calls_table as (E1 & E2 & [F1 F2]%Forall_app). split; by apply table_ok.
Qed.

Lemma rip_call_ok f k start R X i call v :
  five v → call_ok f k start R i call → 
  rotated (S i) (ripemd160_round_call R X i call v) = rip_step f k start X (rotated i v) i ∧ five (ripemd160_round_call R X i call v).
Proof.
  intros [Hl Hw] (H1 & H2 & H3 & H4). unfold ripemd160_round_call, ripemd160_Round. rewrite H4, !rotated_at by lia. cbn zeta.
  assert (HX : ∀ j, word 32 (rotated i v @@ j)) by (intros j; apply words_at; [lia|by apply words_rotated]).
  split.
  - rewrite (proj2 (rotated_next i v _ _ Hl)). rewrite !rol_ROTL by (apply word_T32 || done || lia).
    assert (Er : ∃ a b c d e, rotated i v = [a; b; c; d; e]) by (unfold rotated; cbn; eauto 10).
    destruct Er as (a & b & c & d & e & Er). rewrite Er in *. unfold rip_step, add32. rewrite H2, <-H1. done.
  - split; [by rewrite !length_insert|]. apply Forall_insert; [apply Forall_insert; [done|apply word_T32]|].
    rewrite rol_ROTL by (done || lia). apply word_ROTL32.
Qed.

Lemma line_ok f k start R X calls H :
  five H → Forall2 (call_ok f k start R) (seq 0 80) calls →
  line R calls X H = fold_left (rip_step f k start X) (seq 0 80) H ∧ five (line R calls X H).
Proof.
  intros HH HF.
  assert (G : ∀ n m l v, Forall2 (call_ok f k start R) (seq n m) l → five v →
    let v' := fold_left (λ v '(i, call), ripemd160_round_call R X i call v) (zip (seq n m) l) v in
    rotated (n + m) v' = fold_left (rip_step f k start X) (seq n m) (rotated n v) ∧ five v').
  { intros n m. revert n. induction m as [|m IH]; intros n l v Hl Hv; cbn [seq] in *.
    - inversion Hl; subst. cbn. by rewrite Nat.add_0_r.
    - apply Forall2_cons_inv_l in Hl as (call & l' & Hc & Hl & ->). cbn [zip zip_with fold_left].
      destruct (rip_call_ok f k start R X n call v Hv Hc) as [E1 H1].
      destruct (IH (S n) l' _ Hl H1) as [E2 H2]. split; [|exact H2]. by rewrite <-E1, <-E2, Nat.add_succ_r. }
  destruct (G 0%nat 80%nat calls H HF HH) as [E H2]. split; [|exact H2].
  rewrite (rotated_self H 0 (proj1 HH) eq_refl) in E. etrans; [symmetry; exact (rotated_self _ 80 (proj1 H2) eq_refl)|exact E].
Qed.

Lemma rip_words_read chunk :
  (64 <= length chunk)%nat → (λ i, ReadLE32 (drop (4 * i) chunk)) <$> seq 0 16 = rip_words (take 64 chunk).
Proof.
  intros Hl. apply Forall_fmap_ext, Forall_seq. intros i Hi. unfold ReadLE32.
  rewrite dec32le_join by (rewrite length_drop, length_take; lia).
  rewrite skipn_firstn_comm, take_take. f_equal. f_equal. lia.
Qed.

Lemma length_rip_step f k start X r t : length r = 5%nat → length (rip_step f k start X r t) = 5%nat.
Proof. intros Hr. do 5 (destruct r as [|? r]; [done|]). by destruct r. Qed.

Lemma rip_compress_five b H : five H → five (rip_compress b H).
Proof.
  intros [Hl Hw]. unfold rip_compress. cbn zeta.
  assert (E1 : length (fold_left (rip_left (rip_words b)) (seq 0 80) H) = 5%nat) by (apply five_step; [apply length_rip_step|exact Hl]).
  assert (E2 : length (fold_left (rip_right (rip_words b)) (seq 0 80) H) = 5%nat) by (apply five_step; [apply length_rip_step|exact Hl]).
  destruct H as [|h0 [|h1 [|h2 [|h3 [|h4 []]]]]]; try discriminate Hl.
  generalize dependent (fold_left (rip_left (rip_words b)) (seq 0 80) [h0; h1; h2; h3; h4]).
  generalize dependent (fold_left (rip_right (rip_words b)) (seq 0 80) [h0; h1; h2; h3; h4]). intros l El k Ek.
  destruct l as [|? [|? [|? [|? [|? []]]]]]; try discriminate El.
  destruct k as [|? [|? [|? [|? [|? []]]]]]; try discriminate Ek. cbn beta iota. cbn [fmap list_fmap].
  split; [reflexivity|]. repeat apply Forall_cons_2; try apply word_T32. apply Forall_nil_2.
Qed.

Lemma ripemd160_Transform_ok H chunk :
  five H → bytes chunk → (64 <= length chunk)%nat → ripemd160_Transform H chunk = rip_compress (take 64 chunk) H.
Proof.
  intros HH Hb Hl. unfold ripemd160_Transform, rip_compress. rewrite rip_words_read by done. set (X := rip_words _).
  destruct (line_ok _ _ _ _ X _ H HH (proj1 tables_ok)) as [E1 [L1 _]].
  destruct (line_ok _ _ _ _ X _ H HH (proj2 tables_ok)) as [E2 [L2 _]]. cbn zeta.
  destruct HH as [LH _]. destruct H as [|h0 [|h1 [|h2 [|h3 [|h4 []]]]]]; try discriminate LH.
  unfold rip_left, rip_right. rewrite <-E1, <-E2. clear E1 E2. clearbody X.
  generalize dependent (line R_left calls_left X [h0; h1; h2; h3; h4]).
  generalize dependent (line R_right calls_right X [h0; h1; h2; h3; h4]). intros l El k Ek. destruct l as [|? [|? [|? [|? [|? []]]]]]; try discriminate El.
  destruct k as [|? [|? [|? [|? [|? []]]]]]; try discriminate Ek. reflexivity.
Qed.

(** ** The hashers *)

Definition hash160 (msg : list Z) : list Z := ripemd160 (sha256 msg).

Lemma sha1_Initialize_five : five sha1_Initialize ∧ five ripemd160_Initialize.
Proof. split; (split; [done|]); apply (bool_decide_unpack _); vm_compute; exact I. Qed.

Lemma WriteBE64_enc x : word 64 x → WriteBE64 x = sph_enc64be x.
Proof. apply enc64be_aligned_eq. Qed.

Lemma md_hash_ext I comp tr enc enc' msg :
  (∀ x, word 32 x → enc x = enc' x) → five I → (∀ b H, five H → five (comp b H)) → md_hash I comp tr enc msg = md_hash I comp tr enc' msg.
Proof.
  intros He HI HC. unfold md_hash. f_equal. set (bs := full_blocks _ _).
  assert (E : five (run comp bs I)) by (apply (run_inv comp five (λ _, True)); [intros b H _; apply HC|by apply Forall_true|done]).
  destruct E as [_ E]. induction E as [|x l Hx E IH]; [done|]. cbn. by rewrite (He x Hx), IH.
Qed.

Lemma CSHA1_ok c msg hash :
  has_read sha1_Initialize sha1_compress c msg → 8 * Z.of_nat (length msg) < 2 ^ 64 → length hash = 20%nat →
  snd (CSHA1_Finalize c hash) = sha1 msg.
Proof.
  intros Hc Hl Hh. unfold CSHA1_Finalize, sha1.
  rewrite (md_Finalize_ok sha1_Transform sha1_Initialize sha1_compress sha1_Transform_ok sha1_compress_five
    (proj1 sha1_Initialize_five) WriteBE64 sph_enc64be WriteBE32 c msg hash WriteBE64_enc) by (done || (intros x; split; [done|apply bytes_enc64be])).
  apply md_hash_ext; [apply WriteBE32_enc|apply sha1_Initialize_five|apply sha1_compress_five].
Qed.

Lemma CRIPEMD160_ok c msg hash :
  has_read ripemd160_Initialize rip_compress c msg → 8 * Z.of_nat (length msg) < 2 ^ 64 → length hash = 20%nat →
  snd (CRIPEMD160_Finalize c hash) = ripemd160 msg.
Proof.
  intros Hc Hl Hh. unfold CRIPEMD160_Finalize, ripemd160.
  rewrite (md_Finalize_ok ripemd160_Transform ripemd160_Initialize rip_compress ripemd160_Transform_ok rip_compress_five
    (proj2 sha1_Initialize_five) WriteLE64 sph_enc64le WriteLE32 c msg hash)
    by (done || (intros x; rewrite enc64le_split; split; [apply length_le_split|apply bytes_le_split]) || (intros; symmetry; apply enc64le_split)).
  apply md_hash_ext; [intros x _; symmetry; apply enc32le_split|apply sha1_Initialize_five|apply rip_compress_five].
Qed.

Lemma hash160_ok v : length (sha1 v) = 20%nat ∧ bytes (sha1 v) ∧ length (ripemd160 v) = 20%nat ∧ bytes (ripemd160 v).
Proof.
  unfold sha1, ripemd160. rewrite !length_md_hash by (done || apply sha1_Initialize_five || apply sha1_compress_five || apply rip_compress_five).
  split; [done|]. split; [|split; [done|]]; unfold md_hash; apply Forall_concat, Forall_fmap, Forall_true; intros x; [apply bytes_enc32be|apply bytes_enc32le].
Qed.

(** Known answers: "abc" and the empty message. *)
Example hash160_vectors :
  sha1 [97; 98; 99] = [0xa9; 0x99; 0x3e; 0x36; 0x47; 0x06; 0x81; 0x6a; 0xba; 0x3e; 0x25; 0x71; 0x78; 0x50; 0xc2; 0x6c; 0x9c; 0xd0; 0xd8; 0x9d] ∧
  ripemd160 [] = [0x9c; 0x11; 0x85; 0xa5; 0xc5; 0xe9; 0xfc; 0x54; 0x61; 0x28; 0x08; 0x97; 0x7e; 0xe8; 0xf5; 0x48; 0xb2; 0x25; 0x8d; 0x31] ∧
  ripemd160 [97; 98; 99] = [0x8e; 0xb2; 0x08; 0xf7; 0xe0; 0x5d; 0x98; 0x7a; 0x9b; 0x04; 0x4a; 0x8e; 0x98; 0xc6; 0xb0; 0x87; 0xf1; 0x5a; 0x0b; 0xfc].
Proof. vm_compute. auto. Qed.

(** The hashers from their start. *)
Lemma CSHA1_writes buf0 chunks hash :
  length buf0 = 64%nat → Forall bytes chunks → 8 * Z.of_nat (length (concat chunks)) < 2 ^ 64 → length hash = 20%nat →
  snd (CSHA1_Finalize (fold_left CSHA1_Write chunks (CSHA1_new buf0)) hash) = sha1 (concat chunks).
Proof.
  intros Hb Hc Hlt Hh. apply CSHA1_ok; [|done..].
  apply (md_writes_ok sha1_Transform sha1_Initialize sha1_compress sha1_Transform_ok sha1_compress_five (proj1 sha1_Initialize_five) chunks _ []);
    [by apply new_ok|done|cbn [app]; lia].
Qed.
Lemma CRIPEMD160_writes buf0 chunks hash :
  length buf0 = 64%nat → Forall bytes chunks → 8 * Z.of_nat (length (concat chunks)) < 2 ^ 64 → length hash = 20%nat →
  snd (CRIPEMD160_Finalize (fold_left CRIPEMD160_Write chunks (CRIPEMD160_new buf0)) hash) = ripemd160 (concat chunks).
Proof.
  intros Hb Hc Hlt Hh. apply CRIPEMD160_ok; [|done..].
  apply (md_writes_ok ripemd160_Transform ripemd160_Initialize rip_compress ripemd160_Transform_ok rip_compress_five (proj2 sha1_Initialize_five) chunks _ []);
    [by apply new_ok|done|cbn [app]; lia].
Qed.
Lemma CHash160_ok im buf0 buf1 chunks hash tmp :
  impl_ok im → length buf0 = 64%nat → length buf1 = 64%nat → length tmp = 32%nat → length hash = 20%nat →
  Forall bytes chunks → 8 * Z.of_nat (length (concat chunks)) < 2 ^ 64 →
  ∃ c, CHash160_Finalize im (fold_left (CHash160_Write im) chunks (CSHA256_new buf0)) hash tmp buf1 =
    Some (c, hash160 (concat chunks)).
Proof.
  intros Him Hb0 Hb1 Ht Hh Hc Hlt. unfold CHash160_Finalize, CHash160_Write. rewrite Hh. cbn [Nat.eqb].
  assert (R : Hashers.has_read (fold_left (Sha256.Write im) chunks (CSHA256_new buf0)) (concat chunks))
    by (apply (Hashers.writes_ok im Him chunks _ []); [by apply CSHA256_new_ok|done|cbn [app]; lia]).
  pose proof (Hashers.Finalize_ok im Him _ _ tmp R Hlt Ht) as F. destruct (Sha256.Finalize im _ tmp) as [c h].
  destruct F as [-> _]. exists c. unfold hash160. do 2 f_equal.
  assert (E : concat [sha256 (concat chunks)] = sha256 (concat chunks)) by apply app_nil_r.
  etrans; [apply (CRIPEMD160_writes buf1 [sha256 (concat chunks)] hash Hb1)|by rewrite E];
    [by apply Forall_cons_2; [apply bytes_sha256|apply Forall_nil_2]|rewrite E, length_sha256; lia|exact Hh].
Qed.

(** C29: SHA-1, RIPEMD-160 and CHash160 over their streaming interfaces:
    whatever uninitialised memory holds, any sequence of [Write] calls and
    [Finalize] give the hash of the concatenated data, for SHA-1 that of FIPS
    180-4, for RIPEMD-160 that of its definition by permutations of the words
    and roots of primes, for [CHash160] the RIPEMD-160 hash of the SHA-256
    hash; the calls of [Round] with the variables in turn and the circular use
    of [w0] to [w15] compute the rounds and the message schedule. *)
Theorem hash160_correct im buf0 buf1 chunks hash tmp :
  impl_ok im → length buf0 = 64%nat → length buf1 = 64%nat → length tmp = 32%nat → length hash = 20%nat →
  Forall bytes chunks → 8 * Z.of_nat (length (concat chunks)) < 2 ^ 64 →
  snd (CSHA1_Finalize (fold_left CSHA1_Write chunks (CSHA1_new buf0)) hash) = sha1 (concat chunks) ∧
  snd (CRIPEMD160_Finalize (fold_left CRIPEMD160_Write chunks (CRIPEMD160_new buf0)) hash) = ripemd160 (concat chunks) ∧
  ∃ c, CHash160_Finalize im (fold_left (CHash160_Write im) chunks (CSHA256_new buf0)) hash tmp buf1 =
    Some (c, hash160 (concat chunks)).
Proof.
  intros Him Hb0 Hb1 Ht Hh Hc Hlt. split; [by apply CSHA1_writes|]. split; [by apply CRIPEMD160_writes|]. by apply CHash160_ok.
Qed.

Lemma hash160_correct_witness :
  snd (CRIPEMD160_Finalize (fold_left CRIPEMD160_Write [[97; 98]; [99]] (CRIPEMD160_new (replicate 64 7))) (replicate 20 0)) =
  ripemd160 [97; 98; 99].
Proof.
  refine (proj1 (proj2 (hash160_correct standard (replicate 64 7) (replicate 64 7) [[97; 98]; [99]] (replicate 20 0) (replicate 32 0)
    standard_ok eq_refl eq_refl eq_refl eq_refl _ _))).
  - apply (bool_decide_unpack _). vm_compute. exact I.
  - vm_compute. reflexivity.
Defined.

End Hash160.
