(* ===== verification/Merkle.v ===== *)
(** * Merkle roots: consensus/merkle.cpp, merkle.h

    [ComputeMerkleRoot] hashes a vector of 256-bit hashes in place, level by
    level, and reports pairs of equal hashes.  A [uint256] is a list of 32
    bytes, and the vector's memory their concatenation, which [SHA256D64]
    reads and overwrites.  The reference walks the tree from the root down; the
    theorems are that the loop computes the root and the flag of that tree, and
    that with the flag clear the root determines the hashes, or else exhibits
    two inputs of 64 bytes with the same double SHA-256. *)
From S2P Require Import Prelude SphTypes Stream Padding Sha256 Hashers.

Module Merkle.
Import Sha256.

(** ** The code *)

(** [for (pos = 0; pos + 1 < size; pos += 2) if (hashes[pos] == hashes[pos + 1]) mutation = true;] *)
Fixpoint equal_pairs (hashes : list (list Z)) (mutation : bool) : bool :=
  match hashes with
  | a :: b :: hashes => equal_pairs hashes (if bool_decide (a = b) then true else mutation)
  | _ => mutation
  end.

(** The hashes in a piece of memory. *)
Definition hashes_at (mem : list Z) (n : nat) : list (list Z) :=
  (λ i, take 32 (drop (32 * i) mem)) <$> seq 0 n.

Section Code.
Context (im : Impl).

(** One turn: a copy of the last hash when their number is odd, the hashes of
    the pairs in place, and [resize]. *)
Definition merkle_level (hashes : list (list Z)) : list (list Z) :=
  let hashes := if Nat.odd (length hashes) then hashes ++ [List.last hashes []] else hashes in
  let mem := SHA256D64 im (concat hashes) 0 0 (length hashes / 2) in
  take (length hashes / 2) (hashes_at mem (length hashes)).

(** [mutated] says whether the pointer is set. *)
Fixpoint merkle_loop (fuel : nat) (mutated : bool) (hashes : list (list Z)) (mutation : bool)
    : option (list (list Z) * bool) :=
  if (1 <? length hashes)%nat
  then
    match fuel with
    | O => None
    | S fuel =>
        let mutation := if mutated then equal_pairs hashes mutation else mutation in
        merkle_loop fuel mutated (merkle_level hashes) mutation
    end
  else Some (hashes, mutation).

(** The root, and the value written to [*mutated]; [None] when the fuel runs out. *)
Definition ComputeMerkleRoot (hashes : list (list Z)) (mutated : bool) : option (list Z * option bool) :=
  match merkle_loop (length hashes) mutated hashes false with
  | None => None
  | Some (hashes, mutation) =>
      let flag := if mutated then Some mutation else None in
      Some (match hashes with [] => replicate 32 0 | h :: _ => h end, flag)
  end.

(** The leaves are the hashes of the transactions. *)
Definition BlockMerkleRoot {Tx : Type} (GetHash : Tx → list Z) (vtx : list Tx) (mutated : bool)
    : option (list Z * option bool) :=
  ComputeMerkleRoot (GetHash <$> vtx) mutated.
End Code.

(** ** The tree *)

Definition node (l r : list Z) : list Z := sha256d (l ++ r).

(** The root of the tree of depth [d] over the leaves [l], and whether a node has
    two children with the same hash.  A node over at most [2^d] leaves has only a left
    child, which counts twice. *)
Fixpoint tree_root (d : nat) (l : list (list Z)) : list Z :=
  match d with
  | O => match l with [] => [] | h :: _ => h end
  | S d =>
      let left := tree_root d (take (2 ^ d) l) in
      node left (if (length l <=? 2 ^ d)%nat then left else tree_root d (drop (2 ^ d) l))
  end.
Fixpoint tree_mutated (d : nat) (l : list (list Z)) : bool :=
  match d with
  | O => false
  | S d =>
      if (length l <=? 2 ^ d)%nat then tree_mutated d l
      else bool_decide (tree_root d (take (2 ^ d) l) = tree_root d (drop (2 ^ d) l)) ||
        tree_mutated d (take (2 ^ d) l) || tree_mutated d (drop (2 ^ d) l)
  end.

(** ** One level *)

Fixpoint level (l : list (list Z)) : list (list Z) :=
  match l with
  | a :: b :: l => node a b :: level l
  | [a] => [node a a]
  | [] => []
  end.

Definition is_hash (h : list Z) : Prop := bytes h ∧ length h = 32%nat.

(** Induction two elements at a time. *)
Lemma pair_ind (P : list (list Z) → Prop) :
  P [] → (∀ a, P [a]) → (∀ a b l, P l → P (a :: b :: l)) → ∀ l, P l.
Proof.
  intros H0 H1 H2 l. enough (P l ∧ ∀ a, P (a :: l)) by tauto.
  induction l as [|b l [IH1 IH2]]; [auto|]. split; [apply IH2|]. intros a. by apply H2.
Qed.

Lemma length_level l : length (level l) = ((length l + 1) / 2)%nat.
Proof.
  induction l as [|a|a b l IH] using pair_ind; [done..|]. cbn [level length]. rewrite IH.
  replace (S (S (length l)) + 1)%nat with (1 * 2 + (length l + 1))%nat by lia.
  by rewrite Nat.div_add_l by lia.
Qed.

Lemma level_even k l : level (take (2 * k) l) = take k (level l) ∧ level (drop (2 * k) l) = drop k (level l).
Proof.
  revert k. induction l as [|a|a b l IH] using pair_ind; intros k.
  - rewrite take_nil, drop_nil. cbn [level]. by rewrite take_nil, drop_nil.
  - destruct k as [|k]; [done|]. replace (2 * S k)%nat with (S (S (2 * k))) by lia. cbn. by rewrite take_nil, drop_nil.
  - destruct k as [|k]; [done|]. replace (2 * S k)%nat with (S (S (2 * k))) by lia.
    cbn [take drop level]. destruct (IH k) as [-> ->]. done.
Qed.

Lemma hashes_level l : Forall is_hash (level l).
Proof.
  induction l as [|a|a b l IH] using pair_ind; cbn [level]; repeat apply Forall_cons_2; try apply Forall_nil_2; try done;
    (split; [apply bytes_sha256|apply length_sha256]).
Qed.

Section Level.
Context (im : Impl) (Him : impl_ok im).

Lemma length_hashes l : Forall is_hash l → length (concat l) = (32 * length l)%nat.
Proof.
  intros H. induction H as [|h l [_ Hh] H IH]; [done|]. cbn [concat length]. rewrite length_app, IH. lia.
Qed.

Lemma bytes_hashes l : Forall is_hash l → bytes (concat l).
Proof. intros H. induction H as [|h l [Hh _] H IH]; [apply Forall_nil_2|]. by apply Forall_app_2. Qed.

Lemma hashes_at_app l rest : Forall is_hash l → hashes_at (concat l ++ rest) (length l) = l.
Proof.
  intros H. induction H as [|h l [_ Hh] H IH]; [done|].
  unfold hashes_at in *. cbn [length seq fmap list_fmap concat]. rewrite <-app_assoc. f_equal.
  - rewrite Nat.mul_0_r, drop_0. by apply take_app_length'.
  - rewrite <-IH at 2. rewrite <-(fmap_S_seq 0), <-list_fmap_compose. apply list_fmap_ext. intros ? i _. cbn [compose].
    replace (32 * S i)%nat with (length h + 32 * i)%nat by lia. by rewrite <-drop_drop, drop_app_length.
Qed.

(** The blocks of 64 bytes are the pairs. *)
Lemma blocks_level k l :
  Forall is_hash l → length l = (2 * k)%nat → sha256d <$> blocks_of (concat l) 0 k = level l.
Proof.
  revert l. induction k as [|k IH]; intros l Hl Hk; [by destruct l|].
  destruct l as [|a [|b l]]; cbn [length] in Hk; [lia..|].
  apply Forall_cons_1 in Hl as [[_ Ha] Hl]. apply Forall_cons_1 in Hl as [[_ Hb] Hl].
  unfold blocks_of. cbn [seq fmap list_fmap concat level]. rewrite app_assoc.
  f_equal.
  - unfold node. f_equal. cbn [Nat.add]. rewrite Nat.mul_0_r, drop_0. apply take_app_length'. rewrite length_app. lia.
  - rewrite <-(IH l Hl ltac:(lia)). unfold blocks_of.
    rewrite <-(fmap_S_seq 0), <-!list_fmap_compose. apply list_fmap_ext. intros ? i _. cbn [compose Nat.add].
    replace (64 * S i)%nat with (length (a ++ b) + 64 * i)%nat by (rewrite length_app; lia).
    by rewrite <-drop_drop, drop_app_length.
Qed.

Lemma level_duplicate l :
  Nat.odd (length l) = true → level (l ++ [List.last l []]) = level l.
Proof.
  induction l as [|a|a b l IH] using pair_ind; intros Ho; [done..|].
  cbn [app level]. f_equal. destruct l as [|c l]; [done|]. by apply IH.
Qed.

Lemma merkle_level_correct l : Forall is_hash l → merkle_level im l = level l.
Proof.
  intros Hl. unfold merkle_level.
  set (l' := if Nat.odd (length l) then l ++ [List.last l []] else l).
  assert (Hl' : Forall is_hash l').
  { unfold l'. destruct (Nat.odd (length l)) eqn:Ho; [|done]. apply Forall_app_2; [done|]. apply Forall_cons_2; [|apply Forall_nil_2].
    destruct (exists_last (l := l)) as (k & x & ->); [by intros ->|]. rewrite List.last_last.
    by apply Forall_app in Hl as [_ [? _]%Forall_cons_1]. }
  assert (Ev : ∃ k, length l' = (2 * k)%nat).
  { unfold l'. destruct (Nat.odd (length l)) eqn:Ho.
    - apply Nat.odd_spec in Ho as [k Hk]. exists (k + 1)%nat. rewrite length_app. cbn [length]. lia.
    - rewrite <-Nat.negb_even in Ho. apply negb_false_iff, Nat.even_spec in Ho as [k Hk]. exists k. lia. }
  destruct Ev as [k Hk]. rewrite Hk, (Nat.mul_comm 2 k), Nat.div_mul by lia. rewrite <-(Nat.mul_comm 2 k).
  pose proof (length_hashes l' Hl') as Hlc.
  rewrite SHA256D64_batch by (done || by apply bytes_hashes || lia).
  rewrite blocks_level by done.
  replace (level l') with (level l)
    by (unfold l'; destruct (Nat.odd (length l)) eqn:Ho; [by rewrite level_duplicate|done]).
  assert (Hlv : length (level l) = k).
  { replace (level l) with (level l') by (unfold l'; destruct (Nat.odd (length l)) eqn:Ho; [by rewrite level_duplicate|done]).
    rewrite length_level, Hk. replace (2 * k + 1)%nat with (k * 2 + 1)%nat by lia. rewrite Nat.div_add_l by lia. cbn. lia. }
  unfold memcpy, hashes_at. rewrite take_0, app_nil_l. rewrite <-fmap_take, take_seq, Nat.min_l by lia.
  rewrite <-Hlv at 1. apply hashes_at_app, hashes_level.
Qed.
End Level.

(** ** The tree, level by level *)

Lemma level_bounds d l : (length (level l) <= 2 ^ d ↔ length l <= 2 ^ S d)%nat.
Proof.
  rewrite length_level. cbn [Nat.pow]. pose proof (Nat.div_mod_eq (length l + 1) 2).
  pose proof (Nat.mod_upper_bound (length l + 1) 2 ltac:(lia)). lia.
Qed.

Lemma pow_pos d : (0 < 2 ^ d)%nat.
Proof. apply Nat.neq_0_lt_0, Nat.pow_nonzero. lia. Qed.

Lemma tree_root_level d l :
  (1 <= length l <= 2 ^ S d)%nat → tree_root (S d) l = tree_root d (level l).
Proof.
  revert l. induction d as [|d IH]; intros l Hl.
  { destruct l as [|a [|b [|c l]]]; cbn in Hl; (done || lia). }
  pose proof (pow_pos (S d)) as Hp.
  assert (E : ∀ k, (1 <= length k)%nat → (length k <= 2 ^ S d)%nat → tree_root (S d) k = tree_root d (level k))
    by (intros; by apply IH).
  change (tree_root (S (S d)) l) with
    (node (tree_root (S d) (take (2 ^ S d) l)) (if (length l <=? 2 ^ S d)%nat then tree_root (S d) (take (2 ^ S d) l)
       else tree_root (S d) (drop (2 ^ S d) l))).
  rewrite (E (take (2 ^ S d) l)) by (rewrite length_take; lia).
  pose proof (level_bounds d l) as Hb. destruct (level_even (2 ^ d) l) as [Et Ed].
  change (2 * 2 ^ d)%nat with (2 ^ S d)%nat in Et, Ed. rewrite Et.
  change (tree_root (S d) (level l)) with
    (node (tree_root d (take (2 ^ d) (level l))) (if (length (level l) <=? 2 ^ d)%nat
       then tree_root d (take (2 ^ d) (level l)) else tree_root d (drop (2 ^ d) (level l)))).
  destruct (Nat.leb_spec (length l) (2 ^ S d)), (Nat.leb_spec (length (level l)) (2 ^ d)); try lia; [done|].
  rewrite E, Ed; [done|..]; rewrite length_drop; cbn [Nat.pow] in *; lia.
Qed.

Lemma equal_pairs_or l m : equal_pairs l m = m || equal_pairs l false.
Proof.
  revert m. induction l as [|a|a b l IH] using pair_ind; intros m; cbn [equal_pairs]; [by rewrite orb_false_r..|].
  rewrite IH, (IH (if bool_decide (a = b) then true else false)). by destruct m, (bool_decide (a = b)).
Qed.

Lemma equal_pairs_even k l : equal_pairs l false = equal_pairs (take (2 * k) l) false || equal_pairs (drop (2 * k) l) false.
Proof.
  revert k. induction l as [|a|a b l IH] using pair_ind; intros k.
  - by rewrite take_nil, drop_nil.
  - destruct k as [|k]; [done|]. replace (2 * S k)%nat with (S (S (2 * k))) by lia. done.
  - destruct k as [|k]; [done|]. replace (2 * S k)%nat with (S (S (2 * k))) by lia. cbn [take drop equal_pairs].
    rewrite equal_pairs_or, (equal_pairs_or (take _ _)), (IH k). by rewrite orb_assoc.
Qed.

Lemma tree_mutated_level d l :
  (1 <= length l <= 2 ^ S d)%nat → tree_mutated (S d) l = equal_pairs l false || tree_mutated d (level l).
Proof.
  revert l. induction d as [|d IH]; intros l Hl.
  { destruct l as [|a [|b [|c l]]]; cbn in Hl; [lia|done| |lia]. cbn. by destruct (bool_decide (a = b)). }
  pose proof (pow_pos (S d)) as Hp. pose proof (level_bounds d l) as Hb. cbn [Nat.pow] in Hl.
  change (tree_mutated (S (S d)) l) with
    (if (length l <=? 2 ^ S d)%nat then tree_mutated (S d) l
     else bool_decide (tree_root (S d) (take (2 ^ S d) l) = tree_root (S d) (drop (2 ^ S d) l)) ||
       tree_mutated (S d) (take (2 ^ S d) l) || tree_mutated (S d) (drop (2 ^ S d) l)).
  change (tree_mutated (S d) (level l)) with
    (if (length (level l) <=? 2 ^ d)%nat then tree_mutated d (level l)
     else bool_decide (tree_root d (take (2 ^ d) (level l)) = tree_root d (drop (2 ^ d) (level l))) ||
       tree_mutated d (take (2 ^ d) (level l)) || tree_mutated d (drop (2 ^ d) (level l))).
  destruct (Nat.leb_spec (length l) (2 ^ S d)), (Nat.leb_spec (length (level l)) (2 ^ d)); try lia; [by apply IH; lia|].
  assert (Ht : (1 <= length (take (2 ^ S d) l) <= 2 ^ S d)%nat) by (rewrite length_take; lia).
  assert (Hd : (1 <= length (drop (2 ^ S d) l) <= 2 ^ S d)%nat) by (rewrite length_drop; cbn [Nat.pow] in *; lia).
  rewrite (tree_root_level d _ Ht), (tree_root_level d _ Hd), (IH _ Ht), (IH _ Hd).
  change (2 ^ S d)%nat with (2 * 2 ^ d)%nat. destruct (level_even (2 ^ d) l) as [-> ->].
  rewrite (equal_pairs_even (2 ^ d) l). btauto.
Qed.

(** ** The loop *)

(** [d] levels are above the leaves. *)
Definition has_depth (d : nat) (l : list (list Z)) : Prop :=
  match d with O => length l = 1%nat | S d => (2 ^ d < length l <= 2 ^ S d)%nat end.

Lemma has_depth_level d l : has_depth (S d) l → has_depth d (level l).
Proof.
  cbn [has_depth]. intros Hd. pose proof (level_bounds d l) as Hb.
  destruct d as [|d]; cbn [has_depth].
  - rewrite length_level. cbn in Hd. by replace (length l) with 2%nat by lia.
  - pose proof (level_bounds d l). lia.
Qed.

Lemma has_depth_log2 l : l ≠ [] → has_depth (Nat.log2_up (length l)) l.
Proof.
  intros Hl. destruct (decide (length l = 1)%nat) as [E|E]; [by rewrite E|].
  assert (1 < length l)%nat by (destruct l; [done|cbn in *; lia]).
  pose proof (Nat.log2_up_spec (length l) ltac:(lia)) as Hs. pose proof (Nat.log2_up_pos (length l) ltac:(lia)).
  destruct (Nat.log2_up (length l)) as [|d]; [lia|]. exact Hs.
Qed.

Lemma merkle_loop_correct im d fuel track l m :
  impl_ok im → Forall is_hash l → has_depth d l → (d <= fuel)%nat →
  merkle_loop im fuel track l m = Some ([tree_root d l], if track then m || tree_mutated d l else m).
Proof.
  intros Him. revert d l m. induction fuel as [|fuel IH]; intros [|d] l m Hl Hd Hf; try lia.
  - destruct l as [|a [|b l]]; [done| |done]. cbn. by destruct track; rewrite ?orb_false_r.
  - destruct l as [|a [|b l]]; [done| |done]. cbn. by destruct track; rewrite ?orb_false_r.
  - cbn [merkle_loop]. pose proof (pow_pos d) as Hp. cbn [has_depth] in Hd.
    destruct (Nat.ltb_spec 1 (length l)); [|lia].
    rewrite (merkle_level_correct im Him l Hl).
    rewrite (IH d); [|apply hashes_level|by apply has_depth_level|lia].
    rewrite tree_root_level, tree_mutated_level by lia. destruct track; [|done].
    by rewrite equal_pairs_or, orb_assoc.
Qed.

Lemma ComputeMerkleRoot_tree im l track :
  impl_ok im → Forall is_hash l → l ≠ [] →
  ComputeMerkleRoot im l track =
  Some (tree_root (Nat.log2_up (length l)) l,
        if track then Some (tree_mutated (Nat.log2_up (length l)) l) else None).
Proof.
  intros Him Hl Hne. unfold ComputeMerkleRoot.
  rewrite (merkle_loop_correct im (Nat.log2_up (length l))); [by destruct track|done|done|by apply has_depth_log2|].
  destruct (decide (length l = 1)%nat) as [->|E]; [cbn; lia|]. apply Nat.lt_le_incl, Nat.log2_up_lt_lin.
  destruct l; [done|cbn; lia].
Qed.

(** ** The root binds the leaves *)

(** What is hashed at the nodes of the tree: the hashes of the two children, one after the other. *)
Fixpoint tree_inputs (d : nat) (l : list (list Z)) : list (list Z) :=
  match d with
  | O => []
  | S d =>
      let left := tree_root d (take (2 ^ d) l) in
      if (length l <=? 2 ^ d)%nat then (left ++ left) :: tree_inputs d (take (2 ^ d) l)
      else (left ++ tree_root d (drop (2 ^ d) l)) :: tree_inputs d (take (2 ^ d) l) ++ tree_inputs d (drop (2 ^ d) l)
  end.

(** A node of the one tree and a node of the other hash different strings of 64 bytes to the same value. *)
Definition collision (d : nat) (l l' : list (list Z)) : Prop :=
  ∃ x y, x ∈ tree_inputs d l ∧ y ∈ tree_inputs d l' ∧ bytes x ∧ bytes y ∧ length x = 64%nat ∧ length y = 64%nat ∧
    x ≠ y ∧ sha256d x = sha256d y.

Lemma tree_root_hash d l : Forall is_hash l → l ≠ [] → is_hash (tree_root d l).
Proof.
  intros Hl Hne. destruct d as [|d]; [|split; [apply bytes_sha256|apply length_sha256]].
  by destruct Hl as [|h l Hh Hl].
Qed.

(** Nodes with the same hash have the same children, or are a collision. *)
Lemma node_binds d l l' a b a' b' :
  is_hash a → is_hash b → is_hash a' → is_hash b' → (a ++ b) ∈ tree_inputs d l → (a' ++ b') ∈ tree_inputs d l' →
  node a b = node a' b' → (a = a' ∧ b = b') ∨ collision d l l'.
Proof.
  intros [Ba Ha] [Bb Hb] [Ba' Ha'] [Bb' Hb'] Hi Hi' E. destruct (decide (a ++ b = a' ++ b')) as [Eab|Nab].
  - left. apply app_inj_1 in Eab; [done|lia].
  - right. exists (a ++ b), (a' ++ b'). rewrite !length_app. do 2 (split; [done|]). do 2 (split; [by apply Forall_app_2|]).
    split; [lia|]. split; [lia|]. by split.
Qed.

(** The inputs of the subtrees are inputs of the tree. *)
Lemma collision_up d l l' k k' :
  (∀ x, x ∈ tree_inputs d k → x ∈ tree_inputs (S d) l) → (∀ x, x ∈ tree_inputs d k' → x ∈ tree_inputs (S d) l') →
  collision d k k' → collision (S d) l l'.
Proof. intros H H' (x & y & Hx & Hy & Hr). exists x, y. auto. Qed.
Lemma inputs_take d l x : x ∈ tree_inputs d (take (2 ^ d) l) → x ∈ tree_inputs (S d) l.
Proof. intros Hx. cbn [tree_inputs]. case_match; apply list_elem_of_further; [done|]. apply elem_of_app. by left. Qed.
Lemma inputs_drop d l x : (2 ^ d < length l)%nat → x ∈ tree_inputs d (drop (2 ^ d) l) → x ∈ tree_inputs (S d) l.
Proof. intros Hl Hx. cbn [tree_inputs]. destruct (Nat.leb_spec (length l) (2 ^ d)); [lia|]. apply list_elem_of_further, elem_of_app. by right. Qed.
Lemma input_top d l :
  let left := tree_root d (take (2 ^ d) l) in
  ((if (length l <=? 2 ^ d)%nat then left ++ left else left ++ tree_root d (drop (2 ^ d) l)) ∈ tree_inputs (S d) l).
Proof. cbn [tree_inputs]. case_match; apply list_elem_of_here. Qed.

Lemma tree_binds d l l' :
  Forall is_hash l → Forall is_hash l' → (1 <= length l <= 2 ^ d)%nat → (1 <= length l' <= 2 ^ d)%nat →
  tree_mutated d l = false → tree_mutated d l' = false → tree_root d l = tree_root d l' → l = l' ∨ collision d l l'.
Proof.
  revert l l'. induction d as [|d IH]; intros l l' Hl Hl' Hn Hn' Hm Hm' E.
  { destruct l as [|a [|b l]], l' as [|a' [|b' l']]; cbn in *; try lia. left. by f_equal. }
  pose proof (pow_pos d) as Hp. pose proof (input_top d l) as Hi. pose proof (input_top d l') as Hi'. cbn [tree_root tree_mutated] in *.
  assert (Ht : ∀ k, Forall is_hash k → (1 <= length k)%nat → Forall is_hash (take (2 ^ d) k) ∧ is_hash (tree_root d (take (2 ^ d) k))).
  { intros k Hk Hk1. split; [by apply Forall_take|]. apply tree_root_hash; [by apply Forall_take|].
    intros F. apply (f_equal length) in F. rewrite length_take in F. cbn in F. lia. }
  assert (Hd : ∀ k, Forall is_hash k → (2 ^ d < length k)%nat → Forall is_hash (drop (2 ^ d) k) ∧ is_hash (tree_root d (drop (2 ^ d) k))).
  { intros k Hk Hk1. split; [by apply Forall_drop|]. apply tree_root_hash; [by apply Forall_drop|].
    intros F. apply (f_equal length) in F. rewrite length_drop in F. cbn in F. lia. }
  destruct (Ht l Hl ltac:(lia)) as (Hlt & Hr). destruct (Ht l' Hl' ltac:(lia)) as (Hlt' & Hr').
  destruct (Nat.leb_spec (length l) (2 ^ d)) as [Hs|Hs], (Nat.leb_spec (length l') (2 ^ d)) as [Hs'|Hs'];
    try rewrite !orb_false_iff in Hm; try rewrite !orb_false_iff in Hm'.
  - destruct (node_binds _ _ _ _ _ _ _ Hr Hr Hr' Hr' Hi Hi' E) as [[E1 _]|C]; [|by right]. rewrite !take_ge in * by lia.
    destruct (IH l l') as [->|C]; (done || lia || (try by left)). right.
    apply (collision_up d l l' (take (2 ^ d) l) (take (2 ^ d) l')); [apply inputs_take..|]. by rewrite !take_ge by lia.
  - destruct Hm' as [[Hb' _] _]. destruct (Hd l' Hl' Hs') as [_ Hrd'].
    destruct (node_binds _ _ _ _ _ _ _ Hr Hr Hr' Hrd' Hi Hi' E) as [[E1 E2]|C]; [|by right].
    apply bool_decide_eq_false in Hb'. congruence.
  - destruct Hm as [[Hb _] _]. destruct (Hd l Hl Hs) as [_ Hrd].
    destruct (node_binds _ _ _ _ _ _ _ Hr Hrd Hr' Hr' Hi Hi' E) as [[E1 E2]|C]; [|by right].
    apply bool_decide_eq_false in Hb. congruence.
  - destruct Hm as [[_ Hmt] Hmd], Hm' as [[_ Hmt'] Hmd']. cbn [Nat.pow] in *.
    destruct (Hd l Hl Hs) as [Hld Hrd], (Hd l' Hl' Hs') as [Hld' Hrd'].
    destruct (node_binds _ _ _ _ _ _ _ Hr Hrd Hr' Hrd' Hi Hi' E) as [[E1 E2]|C]; [|by right].
    destruct (IH (take (2 ^ d) l) (take (2 ^ d) l')) as [Et|C]; try done; [rewrite length_take; lia..| |].
    2: { right. by apply (collision_up d l l' _ _ (inputs_take d l) (inputs_take d l')). }
    destruct (IH (drop (2 ^ d) l) (drop (2 ^ d) l')) as [Ed|C]; try done; [rewrite length_drop; lia..| |].
    2: { right. by apply (collision_up d l l' _ _ (λ x, inputs_drop d l x Hs) (λ x, inputs_drop d l' x Hs')). }
    left. by rewrite <-(take_drop (2 ^ d) l), Et, Ed, take_drop.
Qed.

(** The trees of CVE-2012-2459: repeating the last two of six leaves keeps the root,
    and is reported. *)
Lemma repeated_leaves im a b c d e f :
  impl_ok im → Forall is_hash [a; b; c; d; e; f] →
  ∃ r, (∃ m, ComputeMerkleRoot im [a; b; c; d; e; f] true = Some (r, Some m)) ∧
    ComputeMerkleRoot im [a; b; c; d; e; f; e; f] true = Some (r, Some true).
Proof.
  intros Him Hl. assert (Hl' : Forall is_hash [a; b; c; d; e; f; e; f]).
  { apply (Forall_app_2 _ [a; b; c; d; e; f] [e; f]); [done|]. exact (Forall_drop _ 4 _ Hl). }
  rewrite !ComputeMerkleRoot_tree by done. eexists. split; [eexists; reflexivity|]. do 2 f_equal. cbn -[node].
  rewrite (bool_decide_true (node e f = node e f)) by done. by rewrite !orb_true_r.
Qed.

Definition sample_hashes : list (list Z) := (λ i, replicate 32 (Z.of_nat i)) <$> seq 1 5.

Lemma sample_hashes_ok : Forall is_hash sample_hashes.
Proof. apply Forall_fmap, Forall_seq. intros i Hi. split; [apply Forall_replicate; split; lia|by rewrite length_replicate]. Qed.

(** C31: [ComputeMerkleRoot] returns for every list of hashes: its loop, which
    hashes the vector in place level by level, computes the root of the tree
    whose nodes over an incomplete half count their left child twice, of depth
    the binary logarithm rounded up, and sets the flag exactly when a node has
    two children with the same hash; an empty list has the zero root. *)
Theorem merkle_root_correct im l track :
  impl_ok im → Forall is_hash l →
  ComputeMerkleRoot im l track =
  match l with
  | [] => Some (replicate 32 0, if track then Some false else None)
  | _ => let d := Nat.log2_up (length l) in
         Some (tree_root d l, if track then Some (tree_mutated d l) else None)
  end.
Proof.
  intros Him Hl. destruct l as [|h l]; [by destruct track|]. by apply ComputeMerkleRoot_tree.
Qed.

Lemma merkle_root_correct_witness :
  ComputeMerkleRoot standard sample_hashes true =
  Some (tree_root 3 sample_hashes, Some (tree_mutated 3 sample_hashes)).
Proof. exact (merkle_root_correct standard sample_hashes true standard_ok sample_hashes_ok). Defined.

(** C32: The root determines the leaves: two lists of hashes of the same depth
    for which [ComputeMerkleRoot] returns the same root and reports no
    repetition are equal, or a node of the one tree and a node of the other
    hash two different strings of 64 bytes to the same double SHA-256. *)
Theorem merkle_root_binds im l l' r :
  impl_ok im → Forall is_hash l → Forall is_hash l' → l ≠ [] → l' ≠ [] →
  Nat.log2_up (length l) = Nat.log2_up (length l') →
  ComputeMerkleRoot im l true = Some (r, Some false) → ComputeMerkleRoot im l' true = Some (r, Some false) →
  l = l' ∨ collision (Nat.log2_up (length l)) l l'.
Proof.
  intros Him Hl Hl' Hne Hne' Hd E E'. rewrite ComputeMerkleRoot_tree in E, E' by done.
  injection E as Er Em. injection E' as Er' Em'. rewrite <-Hd in Er', Em'.
  pose proof (has_depth_log2 l Hne) as Hb. pose proof (has_depth_log2 l' Hne') as Hb'. rewrite <-Hd in Hb'.
  apply (tree_binds (Nat.log2_up (length l))); [done|done| | |done|done|congruence];
    destruct (Nat.log2_up (length l)) as [|k]; cbn [has_depth] in Hb, Hb'; cbn [Nat.pow] in *; lia.
Qed.

Lemma merkle_root_binds_witness :
  ∃ r, ComputeMerkleRoot standard sample_hashes true = Some (r, Some false) ∧
  (sample_hashes = sample_hashes ∨ collision 3 sample_hashes sample_hashes).
Proof.
  assert (E : ∃ r, ComputeMerkleRoot standard sample_hashes true = Some (r, Some false))
    by (eexists; vm_compute; reflexivity).
  destruct E as [r E]. exists r. split; [exact E|].
  refine (merkle_root_binds standard sample_hashes sample_hashes r standard_ok sample_hashes_ok sample_hashes_ok _ _ _ E E).
  - discriminate.
  - discriminate.
  - reflexivity.
Defined.

End Merkle.
