(* ===== verification/Shavite.v ===== *)
(** * SHAvite-3: crypto/x11/shavite.c, sph_shavite.h

    The ninth hash of the X11 chain: SHAvite-384 and SHAvite-512, a Feistel
    network of AES rounds ([c512]) keyed by the message and by a counter of
    the hashed bits.  The default form keeps the last 32 key words and
    updates them in place while it runs the rounds; the small-footprint form
    expands all 448 key words first.  The theorems are that the two agree and
    that the streaming interface hashes the whole message, each block under
    its own counter. *)
From S2P Require Import Prelude SphTypes Stream Padding Counter AesHelper.

Module Shavite.
Import Aes.

Definition IV384 : list Z :=
  [0x83DF1545; 0xF9AAEC13; 0xF4803CB0; 0x11FE1F47; 0xDA6CD269; 0x4F53FCD7; 0x950529A2; 0x97908147;
   0xB0A4D7AF; 0x2B9132BF; 0x226E607D; 0x3C0F8D7C; 0x487B3F0F; 0x04363E22; 0x0155C99C; 0xEC2E20D3].
Definition IV512 : list Z :=
  [0x72FCCDD8; 0x79CA4727; 0x128A077B; 0x40D55AEC; 0xD1901A06; 0x430AE307; 0xB29F5CD1; 0xDF07FBFC;
   0x8E45D73D; 0x681AB538; 0xBDE86578; 0xDD577E47; 0xE275EADE; 0x502D9FCD; 0xB9357178; 0x022A4B9A].

(** ** AES rounds on four words *)

Abbreviation quad := (Z * Z * Z * Z)%type.

Definition AES_ROUND_NOKEY (x : quad) : quad :=
  let '(x0, x1, x2, x3) := x in AES_ROUND_NOKEY_LE x0 x1 x2 x3.

(** [KEY_EXPAND_ELT(k0, k1, k2, k3)]: an AES round of the rotated words. *)
Definition KEY_EXPAND_ELT (k : quad) : quad :=
  let '(k0, k1, k2, k3) := k in
  let '(k1, k2, k3, k0) := AES_ROUND_NOKEY (k1, k2, k3, k0) in
  let kt := k0 in
  let k0 := k1 in
  let k1 := k2 in
  let k2 := k3 in
  let k3 := kt in
  (k0, k1, k2, k3).

(** Four consecutive words of an array, read and written. *)
Definition quad_at (l : list Z) (i : nat) : quad :=
  (l @@ i, l @@ (i + 1), l @@ (i + 2), l @@ (i + 3)).
Definition quad_set (l : list Z) (i : nat) (x : quad) : list Z :=
  let '(x0, x1, x2, x3) := x in
  <[(i + 3)%nat := x3]> (<[(i + 2)%nat := x2]> (<[(i + 1)%nat := x1]> (<[i := x0]> l))).
Definition quad_xor (x y : quad) : quad :=
  let '(x0, x1, x2, x3) := x in
  let '(y0, y1, y2, y3) := y in (x0 ^^ y0, x1 ^^ y1, x2 ^^ y2, x3 ^^ y3).

(** ** The key words [rk00..rk1F]: group [s] is the words [4 s .. 4 s + 3]

    The three ways a round gets the words of a group: from the message (round
    0), by [KEY_EXPAND_ELT] and a xor with the previous group (odd rounds, in
    some of which a counter value is xored in), by a xor with the words seven
    places back (even rounds). *)
Definition rk_load (msg : list Z) (s : nat) (rk : list Z) : list Z :=
  quad_set rk (4 * s)
    (sph_dec32le_aligned (drop (16 * s) msg), sph_dec32le_aligned (drop (16 * s + 4) msg),
     sph_dec32le_aligned (drop (16 * s + 8) msg), sph_dec32le_aligned (drop (16 * s + 12) msg)).

Definition rk_expand (inj : nat → option quad) (s : nat) (rk : list Z) : list Z :=
  let k := KEY_EXPAND_ELT (quad_at rk (4 * s)) in
  let k := quad_xor k (quad_at rk ((4 * s + 28) mod 32)) in
  let k := match inj s with Some c => quad_xor k c | None => k end in
  quad_set rk (4 * s) k.

Definition rk_xor (s : nat) (rk : list Z) : list Z :=
  fold_left (λ rk i, <[i := rk @@ i ^^ rk @@ ((i + 25) mod 32)]> rk) (seq (4 * s) 4) rk.

(** ** The rounds *)

(** The key words of group [s] made and xored into [x], and an AES round. *)
Definition half_step (upd : nat → list Z → list Z) (st : quad * list Z) (s : nat)
    : quad * list Z :=
  let '(x, rk) := st in
  let rk := upd s rk in
  (AES_ROUND_NOKEY (quad_xor x (quad_at rk (4 * s))), rk).

(** Half a round: [x = p[r..] ^ group s], AES, three more groups, and
    [p[l..] ^= x]. *)
Definition half_round (upd : nat → list Z → list Z) (s0 l r : nat) (st : list Z * list Z)
    : list Z * list Z :=
  let '(p, rk) := st in
  let '(x, rk) := fold_left (half_step upd) (seq s0 4) (quad_at p r, rk) in
  (quad_set p l (quad_xor (quad_at p l) x), rk).

(** A round: two halves, [(l1, r1)] with the groups 0 to 3 and [(l2, r2)] with
    the groups 4 to 7. *)
Definition round (upd : nat → list Z → list Z) (l1 r1 l2 r2 : nat) (st : list Z * list Z)
    : list Z * list Z :=
  half_round upd 4 l2 r2 (half_round upd 0 l1 r1 st).

(** The counter words, and what is xored into the key words with them: in the
    first group of round 1, the second group of round 5, the last group of
    round 9 and the group before the last of round 13. *)
Definition inj1 (c : counter) (r : nat) (s : nat) : option quad :=
  match r, s with
  | 0, 0 => Some (count0 c, count1 c, count2 c, not32 (count3 c))
  | 1, 1 => Some (count3 c, count2 c, count1 c, not32 (count0 c))
  | 2, 7 => Some (count2 c, count3 c, count0 c, not32 (count1 c))
  | _, _ => None
  end%nat.
Definition inj13 (c : counter) (s : nat) : option quad :=
  match s with
  | 6 => Some (count1 c, count0 c, count3 c, not32 (count2 c))
  | _ => None
  end%nat.

(** The four rounds of the body of the loop: rounds [4 r + 1] to [4 r + 4]. *)
Definition four_rounds (c : counter) (st : list Z * list Z) (r : nat) : list Z * list Z :=
  let st := round (rk_expand (inj1 c r)) 0xC 0 4 8 st in
  let st := round rk_xor 8 0xC 0 4 st in
  let st := round (rk_expand (λ _, None)) 4 8 0xC 0 st in
  round rk_xor 0 4 8 0xC st.

Definition c512 (h : list Z) (c : counter) (msg : list Z) : list Z :=
  let st := round (rk_load msg) 0 4 8 0xC (h, replicate 32 0) in
  let st := fold_left (four_rounds c) (seq 0 3) st in
  let '(p, _) := round (rk_expand (inj13 c)) 0xC 0 4 8 st in
  (λ i, h @@ i ^^ p @@ ((i + 8) mod 16)) <$> seq 0 16.

(** ** The small-footprint form *)

(** One of the two groups in the body of the inner loop, at [u]. *)
Definition rk_group (c : counter) (rk : list Z) (u : nat) : list Z :=
  let x := AES_ROUND_NOKEY (rk @@ (u - 31), rk @@ (u - 30), rk @@ (u - 29), rk @@ (u - 32)) in
  let k := quad_xor x (quad_at rk (u - 4)) in
  let '(k0, k1, k2, k3) :=
    if (u =? 32)%nat then
      quad_xor k (count0 c, count1 c, count2 c, not32 (count3 c))
    else if (u =? 440)%nat then
      quad_xor k (count1 c, count0 c, count3 c, not32 (count2 c))
    else if (u =? 164)%nat then
      quad_xor k (count3 c, count2 c, count1 c, not32 (count0 c))
    else if (u =? 316)%nat then
      quad_xor k (count2 c, count3 c, count0 c, not32 (count1 c))
    else k in
  rk ++ [k0; k1; k2; k3].

Definition rk_linear (rk : list Z) (u : nat) : list Z :=
  rk ++ [rk @@ (u - 32) ^^ rk @@ (u - 7); rk @@ (u - 31) ^^ rk @@ (u - 6);
         rk @@ (u - 30) ^^ rk @@ (u - 5); rk @@ (u - 29) ^^ rk @@ (u - 4)].

(** The two inner loops, from [u] on. *)
Definition nonlinear (c : counter) (rk : list Z) (u : nat) : list Z :=
  fold_left (λ rk s, rk_group c rk (u + 4 * s)) (seq 0 8) rk.
Definition linear (rk : list Z) (u : nat) : list Z :=
  fold_left (λ rk s, rk_linear rk (u + 4 * s)) (seq 0 8) rk.

(** All 448 words: 32 from the message, then alternately eight groups of each
    kind, starting and ending with the nonlinear kind. *)
Definition expand_rk (c : counter) (msg : list Z) : list Z :=
  let rk := (λ i, sph_dec32le_aligned (drop (4 * i) msg)) <$> seq 0 32 in
  let rk := fold_left (λ rk i, linear (nonlinear c rk (32 + 64 * i)) (64 + 64 * i)) (seq 0 6) rk in
  nonlinear c rk 416.

Definition C512_ELT (rk : list Z) (u : nat) (l r : quad) : quad :=
  let x := fold_left (λ x i, AES_ROUND_NOKEY (quad_xor x (quad_at rk (u + 4 * i))))
             (seq 0 4) r in
  quad_xor l x.

(** A round: the words [p0..pF] as four quads, the last one rotated to the
    front by [WROT]. *)
Definition small_round (rk : list Z) (p : quad * quad * quad * quad) (r : nat)
    : quad * quad * quad * quad :=
  let '(a, b, c, d) := p in
  let a := C512_ELT rk (32 * r) a b in
  let c := C512_ELT rk (32 * r + 16) c d in
  (d, a, b, c).

Definition c512_small (h : list Z) (c : counter) (msg : list Z) : list Z :=
  let rk := expand_rk c msg in
  let '(((a0, a1, a2, a3), (b0, b1, b2, b3)), (c0, c1, c2, c3), (d0, d1, d2, d3)) :=
    fold_left (small_round rk) (seq 0 14) (quad_at h 0, quad_at h 4, quad_at h 8, quad_at h 12) in
  zip_with Z.lxor h [a0; a1; a2; a3; b0; b1; b2; b3; c0; c1; c2; c3; d0; d1; d2; d3].

(** ** The context and its operations *)

Record sph_shavite_big_context := mk_ctx { buf : list Z; ptr : nat; h : list Z; count : counter }.

Definition shavite_big_init (sc : sph_shavite_big_context) (iv : list Z)
    : sph_shavite_big_context :=
  mk_ctx (buf sc) 0 iv (mk_counter 0 0 0 0).

(** The counter goes up by 1024 with carries when a word wraps to 0. *)
Definition count_block (c : counter) : counter :=
  let c0 := SPH_T32 (count0 c + 1024) in
  let c := mk_counter c0 (count1 c) (count2 c) (count3 c) in
  if c0 =? 0 then bump c else c.

Definition shavite_block (b : list Z) (s : list Z * counter) : list Z * counter :=
  let '(h, c) := s in
  let c := count_block c in
  (c512 h c b, c).

Definition shavite_big_core (sc : sph_shavite_big_context) (data : list Z)
    : sph_shavite_big_context :=
  let '(b, p, (h, c)) :=
    absorb_loop 128 shavite_block (length data) (buf sc) (ptr sc) data (h sc, count sc) in
  mk_ctx b p h c.

Definition shavite_big_close (sc : sph_shavite_big_context) (ub : Z) (n out_size_w32 : nat)
    : list Z * sph_shavite_big_context :=
  let p := ptr sc in
  let c := mk_counter (SPH_T32 (count0 (count sc) + Z.of_nat (8 * p + n)))
             (count1 (count sc)) (count2 (count sc)) (count3 (count sc)) in
  let zero := mk_counter 0 0 0 0 in
  let z := pad_byte ub n in
  let '(b, hh, cc) :=
    if (p =? 0)%nat && (n =? 0)%nat then
      (memset (<[0%nat := 0x80]> (buf sc)) 1 0 109, h sc, zero)
    else if (p <? 110)%nat then
      (memset (<[p := z]> (buf sc)) (S p) 0 (110 - S p), h sc, c)
    else
      let b := memset (<[p := z]> (buf sc)) (S p) 0 (128 - S p) in
      (memset b 0 0 110, c512 (h sc) c b, zero) in
  let b := memcpy b 110 (sph_enc32le (count0 c)) in
  let b := memcpy b 114 (sph_enc32le (count1 c)) in
  let b := memcpy b 118 (sph_enc32le (count2 c)) in
  let b := memcpy b 122 (sph_enc32le (count3 c)) in
  let b := <[126%nat := u8 (Z.of_nat out_size_w32 ≪ 5)]> b in
  let b := <[127%nat := u8 (Z.of_nat out_size_w32 ≫ 3)]> b in
  let hh := c512 hh cc b in
  (concat ((λ u, sph_enc32le (hh @@ u)) <$> seq 0 out_size_w32), mk_ctx b p hh cc).

Definition sph_shavite384_init sc := shavite_big_init sc IV384.
Definition sph_shavite384 := shavite_big_core.
Definition sph_shavite384_addbits_and_close (sc : sph_shavite_big_context) (ub : Z) (n : nat) :=
  let '(dst, sc) := shavite_big_close sc ub n 12 in (dst, shavite_big_init sc IV384).
Definition sph_shavite384_close (sc : sph_shavite_big_context) :=
  let '(dst, sc) := shavite_big_close sc 0 0 12 in (dst, shavite_big_init sc IV384).

Definition sph_shavite512_init sc := shavite_big_init sc IV512.
Definition sph_shavite512 := shavite_big_core.
Definition sph_shavite512_addbits_and_close (sc : sph_shavite_big_context) (ub : Z) (n : nat) :=
  let '(dst, sc) := shavite_big_close sc ub n 16 in (dst, shavite_big_init sc IV512).
Definition sph_shavite512_close (sc : sph_shavite_big_context) :=
  let '(dst, sc) := shavite_big_close sc 0 0 16 in (dst, shavite_big_init sc IV512).

(** ** The two forms of [c512] agree

    [RK] is the whole key, 448 words; the default form keeps a window of 32 of
    them, word [i] of round [R] at place [i mod 32]. *)

Lemma quad_set_at l i x j :
  (i + 3 < length l)%nat →
  quad_set l i x @@ j =
  let '(x0, x1, x2, x3) := x in
  if (j =? i)%nat then x0 else if (j =? i + 1)%nat then x1
  else if (j =? i + 2)%nat then x2 else if (j =? i + 3)%nat then x3 else l @@ j.
Proof.
  intros Hi. destruct x as [[[x0 x1] x2] x3]. unfold quad_set.
  rewrite !at_insert by (rewrite ?length_insert; lia).
  destruct (Nat.eqb_spec j i), (Nat.eqb_spec j (i + 1)), (Nat.eqb_spec j (i + 2)),
    (Nat.eqb_spec j (i + 3)); done || lia.
Qed.

Lemma length_quad_set l i x : length (quad_set l i x) = length l.
Proof. destruct x as [[[x0 x1] x2] x3]. unfold quad_set. by rewrite !length_insert. Qed.

Lemma quad_at_set l i x : (i + 3 < length l)%nat → quad_at (quad_set l i x) i = x.
Proof.
  intros Hi. unfold quad_at. rewrite !quad_set_at by done. destruct x as [[[x0 x1] x2] x3].
  rewrite !Nat.eqb_refl.
  destruct (Nat.eqb_spec (i + 1) i), (Nat.eqb_spec (i + 2) i), (Nat.eqb_spec (i + 2) (i + 1)),
    (Nat.eqb_spec (i + 3) i), (Nat.eqb_spec (i + 3) (i + 1)), (Nat.eqb_spec (i + 3) (i + 2));
    done || lia.
Qed.

Lemma quad_at_set_ne l i j x :
  (i + 3 < length l)%nat → (i + 3 < j ∨ j + 3 < i)%nat → quad_at (quad_set l i x) j = quad_at l j.
Proof.
  intros Hi Hj. unfold quad_at. rewrite !quad_set_at by done. destruct x as [[[x0 x1] x2] x3].
  repeat match goal with |- context [(?a =? ?b)%nat] => destruct (Nat.eqb_spec a b); [lia|] end.
  done.
Qed.

(** What is xored into the group at [u] of the key. *)
Definition inj_at (c : counter) (u : nat) : option quad :=
  if (u =? 32)%nat then Some (count0 c, count1 c, count2 c, not32 (count3 c))
  else if (u =? 440)%nat then Some (count1 c, count0 c, count3 c, not32 (count2 c))
  else if (u =? 164)%nat then Some (count3 c, count2 c, count1 c, not32 (count0 c))
  else if (u =? 316)%nat then Some (count2 c, count3 c, count0 c, not32 (count1 c))
  else None.

(** The equations of the key: round 0 is the message, odd rounds are
    nonlinear, even ones linear. *)
Definition group_nl (c : counter) (rk : list Z) (u : nat) : quad :=
  let k := quad_xor
    (AES_ROUND_NOKEY (rk @@ (u - 31), rk @@ (u - 30), rk @@ (u - 29), rk @@ (u - 32)))
    (quad_at rk (u - 4)) in
  match inj_at c u with Some q => quad_xor k q | None => k end.
Definition group_lin (rk : list Z) (u : nat) : quad :=
  (rk @@ (u - 32) ^^ rk @@ (u - 7), rk @@ (u - 31) ^^ rk @@ (u - 6),
   rk @@ (u - 30) ^^ rk @@ (u - 5), rk @@ (u - 29) ^^ rk @@ (u - 4)).
Definition next_group (c : counter) (rk : list Z) (u : nat) : quad :=
  if Nat.odd (u / 32) then group_nl c rk u else group_lin rk u.

Definition key_ok (c : counter) (msg rk : list Z) : Prop :=
  (∀ i, (i < 32)%nat → rk @@ i = sph_dec32le_aligned (drop (4 * i) msg)) ∧
  (∀ g, (8 <= g)%nat → (4 * g + 4 <= length rk)%nat →
    quad_at rk (4 * g) = next_group c rk (4 * g)).

Lemma quad_at_app_l l k i : (i + 3 < length l)%nat → quad_at (l ++ k) i = quad_at l i.
Proof. intros. unfold quad_at. by rewrite !at_app_l by lia. Qed.

(** The equations only look back. *)
Lemma next_group_app c rk k u :
  (32 <= u <= length rk)%nat → next_group c (rk ++ k) u = next_group c rk u.
Proof.
  intros Hu. unfold next_group, group_nl, group_lin.
  by rewrite !at_app_l, quad_at_app_l by lia.
Qed.

Lemma key_ok_app c msg rk k0 k1 k2 k3 g :
  length rk = (4 * g)%nat → (8 <= g)%nat → key_ok c msg rk →
  (k0, k1, k2, k3) = next_group c rk (4 * g) → key_ok c msg (rk ++ [k0; k1; k2; k3]).
Proof.
  intros Hl Hg [H0 H1] E. split.
  - intros i Hi. rewrite at_app_l by lia. by apply H0.
  - intros g' Hg' Hle. rewrite length_app in Hle. cbn [length] in Hle.
    destruct (decide (g' = g)) as [->|Hne].
    + rewrite next_group_app, <-E by lia. unfold quad_at, at_. rewrite <-Hl.
      rewrite app_nth2_plus, app_nth2, Nat.sub_diag by lia.
      replace (length rk + 1)%nat with (length rk + 1)%nat by lia.
      by rewrite !app_nth2_plus.
    + rewrite next_group_app, quad_at_app_l by lia. apply H1; lia.
Qed.

Lemma rk_group_eq c rk u :
  Nat.odd (u / 32) = true →
  ∃ k0 k1 k2 k3, rk_group c rk u = rk ++ [k0; k1; k2; k3] ∧
    (k0, k1, k2, k3) = next_group c rk u.
Proof.
  intros Ho. unfold rk_group, next_group. rewrite Ho. unfold group_nl, inj_at. cbv zeta.
  set (k := quad_xor (AES_ROUND_NOKEY _) _).
  destruct (u =? 32)%nat; [|destruct (u =? 440)%nat; [|destruct (u =? 164)%nat;
    [|destruct (u =? 316)%nat]]];
    [destruct (quad_xor k _) as [[[??]?]?]..|destruct k as [[[??]?]?]]; eauto 10.
Qed.

Lemma rk_linear_eq c rk u :
  Nat.odd (u / 32) = false →
  ∃ k0 k1 k2 k3, rk_linear rk u = rk ++ [k0; k1; k2; k3] ∧
    (k0, k1, k2, k3) = next_group c rk u.
Proof.
  intros Ho. unfold rk_linear, next_group. rewrite Ho. unfold group_lin. eauto 10.
Qed.

(** Eight groups. *)
Lemma groups_ok c msg (step : list Z → nat → list Z) G rk :
  (1 <= G)%nat → length rk = (32 * G)%nat → key_ok c msg rk →
  (∀ rk u, (32 * G <= u < 32 * G + 32)%nat → ∃ k0 k1 k2 k3,
     step rk u = rk ++ [k0; k1; k2; k3] ∧ (k0, k1, k2, k3) = next_group c rk u) →
  let rk' := fold_left (λ rk s, step rk (32 * G + 4 * s)%nat) (seq 0 8) rk in
  length rk' = (32 * (G + 1))%nat ∧ key_ok c msg rk'.
Proof.
  intros HG Hl Hk Hstep.
  assert (H : ∀ k, (k <= 8)%nat →
    let rk' := fold_left (λ rk s, step rk (32 * G + 4 * s)%nat) (seq 0 k) rk in
    length rk' = (32 * G + 4 * k)%nat ∧ key_ok c msg rk').
  { induction k as [|k IH]; intros Hle; [split; [simpl; lia|done]|].
    destruct IH as [Hlk Hkk]; [lia|]. cbv zeta. rewrite seq_S, fold_left_app. cbn [fold_left].
    rewrite Nat.add_0_l. set (r := fold_left _ _ _) in *.
    destruct (Hstep r (32 * G + 4 * k)%nat) as (k0 & k1 & k2 & k3 & -> & E); [lia|].
    split; [rewrite length_app; cbn [length]; lia|].
    apply (key_ok_app c msg r _ _ _ _ (8 * G + k)); [lia..|done|].
    rewrite E. f_equal. lia. }
  destruct (H 8%nat ltac:(lia)) as [H1 H2]. split; [rewrite H1; lia|done].
Qed.

Lemma odd_round G u :
  (32 * G <= u < 32 * G + 32)%nat → Nat.odd (u / 32) = Nat.odd G.
Proof. intros Hu. f_equal. symmetry. apply (Nat.div_unique _ _ _ (u - 32 * G)); lia. Qed.

Lemma nonlinear_ok c msg G rk :
  (1 <= G)%nat → Nat.odd G = true → length rk = (32 * G)%nat → key_ok c msg rk →
  length (nonlinear c rk (32 * G)) = (32 * (G + 1))%nat ∧ key_ok c msg (nonlinear c rk (32 * G)).
Proof.
  intros HG Ho Hl Hk. apply (groups_ok c msg (rk_group c)); [done..|].
  intros r u Hu. apply rk_group_eq. by rewrite (odd_round G).
Qed.

Lemma linear_ok c msg G rk :
  (1 <= G)%nat → Nat.odd G = false → length rk = (32 * G)%nat → key_ok c msg rk →
  length (linear rk (32 * G)) = (32 * (G + 1))%nat ∧ key_ok c msg (linear rk (32 * G)).
Proof.
  intros HG Ho Hl Hk. apply (groups_ok c msg rk_linear); [done..|].
  intros r u Hu. apply rk_linear_eq. by rewrite (odd_round G).
Qed.

Lemma expand_rk_ok c msg : length (expand_rk c msg) = 448%nat ∧ key_ok c msg (expand_rk c msg).
Proof.
  unfold expand_rk. cbv zeta.
  set (rk0 := (λ i, sph_dec32le_aligned (drop (4 * i) msg)) <$> seq 0 32).
  assert (Hl0 : length rk0 = 32%nat) by (unfold rk0; by rewrite length_fmap, length_seq).
  assert (H0 : key_ok c msg rk0).
  { split.
    - intros i Hi. unfold rk0. by apply at_fmap_seq.
    - intros g Hg Hle. lia. }
  assert (H : ∀ k, let rk := fold_left (λ rk i,
      linear (nonlinear c rk (32 + 64 * i)) (64 + 64 * i)) (seq 0 k) rk0 in
    length rk = (32 * (2 * k + 1))%nat ∧ key_ok c msg rk).
  { induction k as [|k [Hl Hk]]; [exact (conj Hl0 H0)|]. cbv zeta.
    rewrite seq_S, fold_left_app. cbn [fold_left]. rewrite Nat.add_0_l.
    replace (32 + 64 * k)%nat with (32 * (2 * k + 1))%nat by lia.
    replace (64 + 64 * k)%nat with (32 * (2 * k + 2))%nat by lia.
    destruct (nonlinear_ok c msg (2 * k + 1) _ ltac:(lia)
      ltac:(by rewrite Nat.add_1_r, Nat.odd_succ, Nat.even_mul) Hl Hk) as [Hl1 Hk1].
    replace (2 * k + 1 + 1)%nat with (2 * k + 2)%nat in Hl1 by lia.
    destruct (linear_ok c msg (2 * k + 2) _ ltac:(lia)
      ltac:(replace (2 * k + 2)%nat with (S (2 * k + 1)) by lia;
            rewrite Nat.odd_succ, Nat.add_1_r, Nat.even_succ, Nat.odd_mul; done) Hl1 Hk1)
      as [Hl2 Hk2]. split; [rewrite Hl2; lia|done]. }
  destruct (H 6%nat) as [Hl Hk]. exact (nonlinear_ok c msg 13 _ ltac:(lia) eq_refl Hl Hk).
Qed.

(** ** The window of the default form *)

Definition win (RK : list Z) (R s : nat) (ring : list Z) : Prop :=
  length ring = 32%nat ∧
  ∀ i, (i < 32)%nat → (i < 4 * s ∨ 1 <= R)%nat →
    ring @@ i = RK @@ (if (i <? 4 * s)%nat then 32 * R + i else 32 * R + i - 32)%nat.

Lemma win_next RK R ring : win RK R 8 ring → win RK (R + 1) 0 ring.
Proof.
  intros [Hl H]. split; [done|]. intros i Hi _. rewrite H by lia.
  destruct (Nat.ltb_spec i (4 * 8)), (Nat.ltb_spec i (4 * 0)); lia || f_equal; lia.
Qed.

(** Writing group [s] moves the window. *)
Lemma win_set RK R s ring x :
  (s < 8)%nat → win RK R s ring → x = quad_at RK (32 * R + 4 * s) →
  win RK R (s + 1) (quad_set ring (4 * s) x).
Proof.
  intros Hs [Hl H] ->. split; [by rewrite length_quad_set|]. intros i Hi HR.
  rewrite quad_set_at by lia. unfold quad_at.
  destruct (Nat.eqb_spec i (4 * s)), (Nat.eqb_spec i (4 * s + 1)), (Nat.eqb_spec i (4 * s + 2)),
    (Nat.eqb_spec i (4 * s + 3)), (Nat.ltb_spec i (4 * (s + 1))); try lia; try (f_equal; lia).
  - rewrite H by lia. destruct (Nat.ltb_spec i (4 * s)); [done|lia].
  - destruct HR as [HR|HR]; [lia|]. rewrite H by lia.
    destruct (Nat.ltb_spec i (4 * s)); [lia|done].
Qed.

(** An update of the key words that follows [RK] in round [R]. *)
Definition tracks (RK : list Z) (R : nat) (upd : nat → list Z → list Z) : Prop :=
  ∀ s ring, (s < 8)%nat → win RK R s ring → win RK R (s + 1) (upd s ring).

(** Quads that do not overlap. *)
Definition apart (i j : nat) : Prop := (i + 3 < j ∨ j + 3 < i)%nat.

(** Side conditions on the places of the quads. *)
Ltac places := unfold apart; lia.

Section Key.
  Context (c : counter) (msg RK : list Z) (HK : key_ok c msg RK) (HL : length RK = 448%nat).

Lemma tracks_load : tracks RK 0 (rk_load msg).
Proof.
  intros s ring Hs Hw. apply win_set; [done..|]. destruct HK as [H0 _].
  unfold quad_at. rewrite !H0 by lia.
  replace (16 * s)%nat with (4 * (32 * 0 + 4 * s))%nat by lia.
  by rewrite !Nat.mul_add_distr_l.
Qed.

(** A word of the window, by its distance from the group being made. *)
Lemma win_back R s ring d :
  (1 <= R)%nat → (s < 8)%nat → (1 <= d <= 32)%nat → win RK R s ring →
  ring @@ ((4 * s + (32 - d)) mod 32) = RK @@ (32 * R + 4 * s - d).
Proof.
  intros HR Hs Hd [Hl H].
  destruct (decide (4 * s + (32 - d) < 32)%nat) as [Hlt|Hge].
  - rewrite Nat.mod_small, H by lia.
    destruct (Nat.ltb_spec (4 * s + (32 - d)) (4 * s)); [lia|]. f_equal. lia.
  - replace ((4 * s + (32 - d)) mod 32)%nat with (4 * s - d)%nat.
    2: { apply (Nat.mod_unique _ _ 1); lia. }
    rewrite H by lia. destruct (Nat.ltb_spec (4 * s - d) (4 * s)); [|lia]. f_equal. lia.
Qed.

Lemma key_group R s :
  (1 <= R)%nat → (R < 14)%nat → (s < 8)%nat →
  quad_at RK (32 * R + 4 * s) = next_group c RK (32 * R + 4 * s).
Proof.
  intros HR HR' Hs. destruct HK as [_ H1]. replace (32 * R + 4 * s)%nat with (4 * (8 * R + s))%nat by lia.
  apply H1; lia.
Qed.

Lemma tracks_expand R inj :
  (1 <= R < 14)%nat → Nat.odd R = true →
  (∀ s, (s < 8)%nat → inj s = inj_at c (32 * R + 4 * s)) →
  tracks RK R (rk_expand inj).
Proof.
  intros HR Ho Hinj s ring Hs Hw. apply win_set; [done..|].
  rewrite key_group by lia. unfold next_group. rewrite (odd_round R), Ho by lia.
  unfold group_nl. rewrite Hinj by done.
  assert (Hb := λ d, win_back R s ring d).
  assert (E1 : KEY_EXPAND_ELT (quad_at ring (4 * s)) =
    AES_ROUND_NOKEY (RK @@ (32 * R + 4 * s - 31), RK @@ (32 * R + 4 * s - 30),
      RK @@ (32 * R + 4 * s - 29), RK @@ (32 * R + 4 * s - 32))).
  { rewrite <-(Hb 31%nat), <-(Hb 30%nat), <-(Hb 29%nat), <-(Hb 32%nat) by (done || lia).
    rewrite !Nat.mod_small by lia. rewrite Nat.sub_diag, Nat.add_0_r.
    unfold quad_at, KEY_EXPAND_ELT. change (32 - 31)%nat with 1%nat.
    change (32 - 30)%nat with 2%nat. change (32 - 29)%nat with 3%nat.
    by destruct (AES_ROUND_NOKEY _) as [[[??]?]?]. }
  assert (E2 : quad_at ring ((4 * s + 28) mod 32) = quad_at RK (32 * R + 4 * s - 4)).
  { unfold quad_at. rewrite <-(Hb 4%nat) by (done || lia).
    replace (32 * R + 4 * s - 4 + 1)%nat with (32 * R + 4 * s - 3)%nat by lia.
    replace (32 * R + 4 * s - 4 + 2)%nat with (32 * R + 4 * s - 2)%nat by lia.
    replace (32 * R + 4 * s - 4 + 3)%nat with (32 * R + 4 * s - 1)%nat by lia.
    rewrite <-(Hb 3%nat), <-(Hb 2%nat), <-(Hb 1%nat) by (done || lia).
    clear - Hs. do 8 (destruct s as [|s]; [reflexivity|]). lia. }
  by rewrite E1, E2.
Qed.

Lemma rk_xor_set s ring :
  (s < 8)%nat → length ring = 32%nat →
  rk_xor s ring = quad_set ring (4 * s)
    (ring @@ (4 * s) ^^ ring @@ ((4 * s + (32 - 7)) mod 32),
     ring @@ (4 * s + 1) ^^ ring @@ ((4 * s + (32 - 6)) mod 32),
     ring @@ (4 * s + 2) ^^ ring @@ ((4 * s + (32 - 5)) mod 32),
     ring @@ (4 * s + 3) ^^ ring @@ ((4 * s + (32 - 4)) mod 32)).
Proof.
  intros Hs Hl.
  do 32 (destruct ring as [|? ring]; [discriminate Hl|]).
  destruct ring; [|discriminate Hl]. clear Hl.
  do 8 (destruct s as [|s]; [reflexivity|]). lia.
Qed.

Lemma tracks_xor R :
  (1 <= R < 14)%nat → Nat.odd R = false → tracks RK R rk_xor.
Proof.
  intros HR Ho s ring Hs Hw. rewrite rk_xor_set by (done || apply Hw). apply win_set; [done..|].
  rewrite key_group by lia. unfold next_group. rewrite (odd_round R), Ho by lia.
  unfold group_lin. assert (Hb := λ d, win_back R s ring d).
  rewrite !(Hb 7%nat), !(Hb 6%nat), !(Hb 5%nat), !(Hb 4%nat) by (done || lia).
  rewrite <-(Hb 31%nat), <-(Hb 30%nat), <-(Hb 29%nat), <-(Hb 32%nat) by (done || lia).
  rewrite !(Nat.mod_small (4 * s + _)) by lia. by rewrite Nat.sub_diag, Nat.add_0_r.
Qed.
Lemma win_group R s ring :
  (s < 8)%nat → win RK R (s + 1) ring → quad_at ring (4 * s) = quad_at RK (32 * R + 4 * s).
Proof.
  intros Hs [Hl H]. unfold quad_at. rewrite !H by lia.
  repeat match goal with |- context [(?a <? ?b)%nat] => destruct (Nat.ltb_spec a b); [|lia] end.
  by rewrite !Nat.add_assoc.
Qed.

(** [k] groups of a half round. *)
Lemma half_groups R upd s0 x ring k :
  tracks RK R upd → win RK R s0 ring → (s0 + k <= 8)%nat →
  ∃ ring',
    fold_left (half_step upd) (seq s0 k) (x, ring) =
    (fold_left (λ x i, AES_ROUND_NOKEY (quad_xor x (quad_at RK (32 * R + 4 * s0 + 4 * i))))
      (seq 0 k) x, ring') ∧
    win RK R (s0 + k) ring'.
Proof.
  intros Ht Hw. induction k as [|k IH]; intros Hk.
  { exists ring. by rewrite Nat.add_0_r. }
  destruct IH as (ring' & E & Hw'); [lia|]. exists (upd (s0 + k)%nat ring').
  rewrite !seq_S, !fold_left_app, E. cbn [fold_left half_step]. cbv zeta. rewrite Nat.add_0_l.
  assert (Hn : win RK R (s0 + k + 1) (upd (s0 + k)%nat ring')) by (apply Ht; [lia|done]).
  rewrite (win_group R) by (lia || done).
  replace (32 * R + 4 * (s0 + k))%nat with (32 * R + 4 * s0 + 4 * k)%nat by lia.
  replace (s0 + S k)%nat with (s0 + k + 1)%nat by lia. done.
Qed.

Lemma half_round_elt R upd s0 l r p ring :
  tracks RK R upd → win RK R s0 ring → (s0 + 4 <= 8)%nat →
  ∃ ring', half_round upd s0 l r (p, ring) =
    (quad_set p l (C512_ELT RK (32 * R + 4 * s0) (quad_at p l) (quad_at p r)), ring') ∧
    win RK R (s0 + 4) ring'.
Proof.
  intros Ht Hw Hs. destruct (half_groups R upd s0 (quad_at p r) ring 4 Ht Hw Hs) as (ring' & E & Hw').
  exists ring'. unfold half_round. by rewrite E.
Qed.

(** The places in [p] of the four quads that the small form keeps in order:
    each round moves the last one to the front. *)
Definition quads (p : list Z) (l1 r1 l2 r2 : nat) : quad * quad * quad * quad :=
  (quad_at p l1, quad_at p r1, quad_at p l2, quad_at p r2).

Definition follows (st : list Z * list Z) (l1 r1 l2 r2 R : nat) (q : quad * quad * quad * quad)
    : Prop :=
  length (fst st) = 16%nat ∧ win RK R 0 (snd st) ∧ quads (fst st) l1 r1 l2 r2 = q.

#[local] Opaque C512_ELT.
Lemma round_follows upd st l1 r1 l2 r2 R q :
  (l1 < 13)%nat → (l2 < 13)%nat → apart l1 r1 → apart l1 l2 → apart l1 r2 → apart l2 r1 →
  apart l2 r2 → tracks RK R upd → follows st l1 r1 l2 r2 R q →
  follows (round upd l1 r1 l2 r2 st) r2 l1 r1 l2 (R + 1) (small_round RK q R).
Proof.
  intros Hl1 Hl2 H1 H2 H3 H4 H5 Ht (Hp & Hw & <-). destruct st as [p ring]. cbn [fst snd] in *.
  unfold apart in *.
  destruct (half_round_elt R upd 0 l1 r1 p ring Ht Hw ltac:(lia)) as (ring1 & E1 & Hw1).
  unfold round. rewrite E1. set (p1 := quad_set p l1 _).
  destruct (half_round_elt R upd 4 l2 r2 p1 ring1 Ht Hw1 ltac:(lia)) as (ring2 & E2 & Hw2).
  rewrite E2. split; [|split]; cbn [fst snd].
  - unfold p1. by rewrite !length_quad_set.
  - by apply win_next.
  - assert (Hp1 : length p1 = 16%nat) by (unfold p1; by rewrite length_quad_set).
    unfold quads, small_round. rewrite (quad_at_set_ne p1 l2 r2), (quad_at_set_ne p1 l2 l1),
      (quad_at_set_ne p1 l2 r1), quad_at_set by lia.
    unfold p1. rewrite (quad_at_set_ne p l1 r2), (quad_at_set_ne p l1 r1),
      (quad_at_set_ne p l1 l2), quad_at_set by lia.
    rewrite Nat.mul_0_r, Nat.add_0_r. done.
Qed.

Lemma tracks_inj1 r :
  (r < 3)%nat → tracks RK (4 * r + 1) (rk_expand (inj1 c r)).
Proof.
  intros Hr. apply tracks_expand; [lia|by destruct r as [|[|[|]]]; [..|lia]|].
  intros s Hs. destruct r as [|[|[|r]]]; [..|lia];
    do 8 (destruct s as [|s]; [reflexivity|]); lia.
Qed.

Lemma tracks_none r :
  (r < 3)%nat → tracks RK (4 * r + 3) (rk_expand (λ _, None)).
Proof.
  intros Hr. apply tracks_expand; [lia|by destruct r as [|[|[|]]]; [..|lia]|].
  intros s Hs. destruct r as [|[|[|r]]]; [..|lia];
    do 8 (destruct s as [|s]; [reflexivity|]); lia.
Qed.

Lemma tracks_inj13 : tracks RK 13 (rk_expand (inj13 c)).
Proof.
  apply tracks_expand; [lia|done|].
  intros s Hs. do 8 (destruct s as [|s]; [reflexivity|]); lia.
Qed.

Definition four_small (q : quad * quad * quad * quad) (r : nat) :=
  small_round RK (small_round RK (small_round RK (small_round RK q (4 * r + 1)) (4 * r + 1 + 1))
    (4 * r + 1 + 1 + 1)) (4 * r + 1 + 1 + 1 + 1).

Lemma four_rounds_follows st r q :
  (r < 3)%nat → follows st 12 0 4 8 (4 * r + 1) q →
  follows (four_rounds c st r) 12 0 4 8 (4 * S r + 1) (four_small q r).
Proof.
  intros Hr H. unfold four_rounds, four_small. cbv zeta.
  replace (4 * S r + 1)%nat with (4 * r + 1 + 1 + 1 + 1 + 1)%nat by lia.
  apply round_follows; [places..| |].
  { apply tracks_xor; [lia|by destruct r as [|[|[|]]]; [..|lia]]. }
  apply round_follows; [places..| |].
  { replace (4 * r + 1 + 1 + 1)%nat with (4 * r + 3)%nat by lia. by apply tracks_none. }
  apply round_follows; [places..| |].
  { apply tracks_xor; [lia|by destruct r as [|[|[|]]]; [..|lia]]. }
  apply round_follows; [places..| |done]. by apply tracks_inj1.
Qed.

(** The fourteen rounds of the small form, grouped as the default form does. *)
Lemma small_rounds_grouped {A} (f : A → nat → A) x :
  fold_left f (seq 0 14) x =
  f (fold_left (λ x r, f (f (f (f x (4 * r + 1)) (4 * r + 1 + 1)) (4 * r + 1 + 1 + 1))
    (4 * r + 1 + 1 + 1 + 1)) (seq 0 3) (f x 0))%nat 13%nat.
Proof. reflexivity. Qed.

Lemma loop_follows st q k :
  (k <= 3)%nat → follows st 12 0 4 8 1 q →
  follows (fold_left (four_rounds c) (seq 0 k) st) 12 0 4 8 (4 * k + 1)
    (fold_left four_small (seq 0 k) q).
Proof.
  intros Hk H. induction k as [|k IH]; [done|]. rewrite !seq_S, !fold_left_app. cbn [fold_left].
  rewrite Nat.add_0_l. apply four_rounds_follows; [lia|]. apply IH. lia.
Qed.
End Key.

Lemma c512_small_eq h c msg : length h = 16%nat → c512 h c msg = c512_small h c msg.
Proof.
  intros Hh. destruct (expand_rk_ok c msg) as [HL HK].
  unfold c512, c512_small. cbv zeta. set (RK := expand_rk c msg) in *. clearbody RK.
  set (q := (quad_at h 0, quad_at h 4, quad_at h 8, quad_at h 12)).
  assert (H0 : follows RK (h, replicate 32 0) 0 4 8 12 0 q).
  { split; [done|]. split; [|done]. split; [done|]. intros i Hi [?|?]; lia. }
  apply (round_follows RK HL (rk_load msg)) in H0; [|places..|by apply (tracks_load c)].
  apply (loop_follows c msg RK HK HL _ _ 3) in H0; [|lia].
  apply (round_follows RK HL (rk_expand (inj13 c))) in H0; [|places..|by apply (tracks_inj13 c msg)].
  rewrite small_rounds_grouped.
  change (λ x r, _) with (four_small RK).
  change (4 * 3 + 1)%nat with 13%nat in H0.
  set (st := round (rk_expand (inj13 c)) _ _ _ _ _) in *.
  set (q' := small_round _ _ 13) in *. clearbody st q'. destruct st as [p ring].
  destruct H0 as (Hp & _ & <-). cbn [fst] in *. unfold quads, quad_at.
  do 16 (destruct h as [|? h]; [discriminate Hh|]). destruct h; [|discriminate Hh]. reflexivity.
Qed.

(** ** Specification of the streaming interface *)

(** The last 18 bytes: the message length in bits, the digest length in
    bits, both little endian. *)
Definition shavite_trailer (w : nat) (l : Z) : list Z :=
  le_split 16 l ++ le_split 2 (32 * Z.of_nat w).

Definition shavite_blocks : Z → Z → list (list Z) → list Z → list Z :=
  counted_run (λ t b h, c512 h (counter_of t) b) 1024.

Definition shavite_out (w : nat) (h : list Z) : list Z :=
  concat ((λ u, sph_enc32le (h @@ u)) <$> seq 0 w).

Definition shavite_spec (w : nat) (iv msg : list Z) (ub : Z) (n : nat) : list Z :=
  let l := bit_length msg n in
  shavite_out w (shavite_blocks l 0
    (full_blocks 128 (msg ++ md_padding 128 18 (pad_byte ub n) (shavite_trailer w l) (length msg)))
    iv).

(** ** The counter *)

(** The code's step adds 1024 to the counter. *)
Lemma count_block_step t :
  t mod 1024 = 0 → count_block (counter_of t) = counter_of (t + 1024).
Proof.
  intros Hm. unfold count_block. cbn [count0 counter_of]. cbv zeta.
  assert (Hm' : t mod 2 ^ 32 mod 1024 = 0)
    by (rewrite Z.mod_mod_divide; [done|by exists (2 ^ 22)]).
  pose proof (carry t 1024 Hm' eq_refl eq_refl) as E.
  replace (SPH_T32 (t mod 2 ^ 32 + 1024)) with ((t + 1024) mod 2 ^ 32) in *
    by (by rewrite SPH_T32_mod, Zplus_mod_idemp_l).
  destruct ((t + 1024) mod 2 ^ 32 =? 0); [by apply bump_counter|].
  unfold counter_of. cbn [count1 count2 count3]. by rewrite E.
Qed.

(** In [shavite_big_close] the low word takes the bits of the last block
    without a carry. *)
Lemma count_close k bl :
  0 <= bl < 1024 →
  let c := counter_of (1024 * k) in
  mk_counter (SPH_T32 (count0 c + bl)) (count1 c) (count2 c) (count3 c) =
  counter_of (1024 * k + bl).
Proof.
  intros Hb. cbv zeta. unfold counter_of. cbn [count0 count1 count2 count3].
  rewrite SPH_T32_mod, Zplus_mod_idemp_l.
  replace ((1024 * k + bl) / 2 ^ 32) with (1024 * k / 2 ^ 32)
    by (Z.to_euclidean_division_equations; lia).
  done.
Qed.

(** The six writes at the end of the buffer are the trailer. *)
Lemma write_trailer b0 l w :
  length b0 = 128%nat →
  let c := counter_of l in
  let b := memcpy b0 110 (sph_enc32le (count0 c)) in
  let b := memcpy b 114 (sph_enc32le (count1 c)) in
  let b := memcpy b 118 (sph_enc32le (count2 c)) in
  let b := memcpy b 122 (sph_enc32le (count3 c)) in
  let b := <[126%nat := u8 (Z.of_nat w ≪ 5)]> b in
  <[127%nat := u8 (Z.of_nat w ≫ 3)]> b = take 110 b0 ++ shavite_trailer w l.
Proof.
  revert b0. intros b Hb. cbv zeta.
  set (e0 := sph_enc32le (count0 (counter_of l))).
  set (e1 := sph_enc32le (count1 (counter_of l))).
  set (e2 := sph_enc32le (count2 (counter_of l))).
  set (e3 := sph_enc32le (count3 (counter_of l))).
  assert (He : length e0 = 4%nat ∧ length e1 = 4%nat ∧ length e2 = 4%nat ∧ length e3 = 4%nat)
    by done.
  destruct He as (H0 & H1 & H2 & H3).
  rewrite (memcpy_memcpy b e0 e1), (memcpy_memcpy b _ e2), (memcpy_memcpy b _ e3)
    by (rewrite ?length_app; lia).
  assert (Hl : ∀ d : list Z, length d = 16%nat → length (memcpy b 110 d) = 128%nat)
    by (intros; rewrite length_memcpy; lia).
  set (b' := memcpy b 110 _).
  assert (Hb' : length b' = 128%nat) by (apply Hl; rewrite !length_app; lia).
  rewrite <-(memcpy_nil (<[127%nat := _]> _) 128), insert_memcpy, insert_memcpy
    by (rewrite ?length_insert; simpl; lia).
  unfold b'. rewrite memcpy_memcpy by (rewrite ?length_app; cbn [length]; lia).
  rewrite memcpy_full by (rewrite ?length_app; cbn [length]; lia).
  unfold shavite_trailer. rewrite <-enc_counter. fold e0 e1 e2 e3.
  rewrite <-!app_assoc. do 5 f_equal.
  replace (32 * Z.of_nat w) with (Z.of_nat w ≪ 5) by (rewrite Z.shiftl_mul_pow2; lia).
  cbn [le_split]. by rewrite Z.shiftr_shiftl_r by lia.
Qed.

(** ** The streaming interface hashes the whole message *)

#[local] Opaque c512.

Definition ctx_ok (sc : sph_shavite_big_context) : Prop := buf_ok 128 (buf sc) (ptr sc).
Definition cview (sc : sph_shavite_big_context) : list Z * (list Z * counter) :=
  view (buf sc, ptr sc, (h sc, count sc)).

Lemma shavite_big_core_view sc data :
  ctx_ok sc →
  ctx_ok (shavite_big_core sc data) ∧
  cview (shavite_big_core sc data) = absorb 128 shavite_block (cview sc) data.
Proof.
  intros Hok.
  pose proof (absorb_loop_spec 128 shavite_block (length data) (buf sc) (ptr sc) data
    (h sc, count sc) (le_n _) Hok) as [H1 H2].
  unfold ctx_ok, cview, shavite_big_core.
  by destruct (absorb_loop _ _ _ _ _ _ _) as [[b p] [hh c]].
Qed.

Lemma run_shavite bs hh l :
  1024 * Z.of_nat (length bs) <= l →
  run shavite_block bs (hh, counter_of 0) =
  (shavite_blocks l 0 bs hh, counter_of (1024 * Z.of_nat (length bs))).
Proof.
  intros Hl.
  apply (run_counted _ shavite_block (λ h t, (h, counter_of t)) 1024 l (l + 1) bs hh 0); [|lia..].
  intros b h0 t _ Hm _. unfold shavite_block. by rewrite count_block_step.
Qed.

Lemma pad_byte_0 ub : pad_byte ub 0 = 0x80.
Proof.
  apply (word_ext 8); [apply byte_pad_byte|by split|]. intros i Hi. unfold pad_byte.
  change (Z.shiftr 0x80 (Z.of_nat 0)) with 0x80. rewrite Z.land_spec, Z.lor_spec, Z.land_spec.
  assert (Hc : i = 0 ∨ i = 1 ∨ i = 2 ∨ i = 3 ∨ i = 4 ∨ i = 5 ∨ i = 6 ∨ i = 7) by lia.
  by repeat destruct Hc as [->|Hc]; [..|subst i]; cbn; rewrite ?andb_false_r, ?orb_true_r.
Qed.

Lemma close_blocks sc ub n w k hh pend :
  ctx_ok sc → cview sc = (pend, (hh, counter_of (1024 * k))) → (n < 8)%nat →
  let l := 1024 * k + Z.of_nat (8 * length pend + n) in
  fst (shavite_big_close sc ub n w) =
  shavite_out w (shavite_blocks l k (full_blocks 128
    (pend ++ md_padding 128 18 (pad_byte ub n) (shavite_trailer w l) (length pend))) hh).
Proof.
  intros [Hb Hp] Hv Hn l.
  assert (Hpend : length pend = ptr sc) by (inversion Hv; rewrite length_take; lia).
  assert (Ht : length (shavite_trailer w l) = 18%nat)
    by (unfold shavite_trailer; rewrite length_app, !length_le_split; done).
  injection Hv as Hpe Hh Hc. unfold shavite_big_close. rewrite Hh, Hc, <-Hpend in *.
  pose proof (count_close k (Z.of_nat (8 * length pend + n)) ltac:(lia)) as Ec.
  cbv zeta in Ec. cbv zeta. rewrite Ec. fold l. clear Ec.
  assert (E : ∀ b hh cc, length b = 128%nat →
    fst (let '(b, hh, cc) := (b, hh, cc) in
     let c := counter_of l in
     let b := memcpy b 110 (sph_enc32le (count0 c)) in
     let b := memcpy b 114 (sph_enc32le (count1 c)) in
     let b := memcpy b 118 (sph_enc32le (count2 c)) in
     let b := memcpy b 122 (sph_enc32le (count3 c)) in
     let b := <[126%nat := u8 (Z.of_nat w ≪ 5)]> b in
     let b := <[127%nat := u8 (Z.of_nat w ≫ 3)]> b in
     let hh := c512 hh cc b in
     (concat ((λ u, sph_enc32le (hh @@ u)) <$> seq 0 w), mk_ctx b (length pend) hh cc)) =
    shavite_out w (c512 hh cc (take 110 b ++ shavite_trailer w l))).
  { intros b hh' cc Hl. pose proof (write_trailer b l w Hl) as Ew. cbv zeta in Ew.
    cbv zeta iota beta. rewrite Ew. done. }
  cbv zeta in E.
  destruct ((length pend =? 0)%nat && (n =? 0)%nat) eqn:E0.
  - apply andb_true_iff in E0 as [H0%Nat.eqb_eq Hn0%Nat.eqb_eq].
    rewrite E by (rewrite length_memset; rewrite length_insert; lia).
    pose proof (pad_zeros 128 (buf sc) 0 0x80 110 Hb ltac:(lia)) as Ez.
    change (110 - 1)%nat with 109%nat in Ez. rewrite Ez. rewrite md_one by lia.
    cbn [shavite_blocks counted_run]. rewrite counter_at_0 by lia.
    apply nil_length_inv in H0 as ->. rewrite Hn0, pad_byte_0. rewrite take_0. done.
  - assert (Hl : counter_at 1024 l k = l).
    { apply andb_false_iff in E0. rewrite !Nat.eqb_neq in E0.
      apply (counter_at_last 1024 l k (Z.of_nat (8 * length pend + n))); lia. }
    destruct (Nat.ltb_spec (length pend) 110).
    + rewrite E by (rewrite length_memset; rewrite length_insert; lia).
      rewrite (pad_zeros 128) by lia. rewrite Hpe, md_one by lia.
      cbn [shavite_blocks counted_run]. by rewrite Hl, <-app_assoc.
    + rewrite (pad_fill 128), Hpe by lia.
      set (b1 := pend ++ _).
      assert (Hb1 : length b1 = 128%nat)
        by (unfold b1; rewrite length_app; cbn [length]; rewrite length_replicate; lia).
      rewrite E by (rewrite length_memset; lia). rewrite memset_start by lia.
      rewrite md_two by lia. fold b1.
      cbn [shavite_blocks counted_run].
      rewrite Hl, counter_at_0 by lia. done.
Qed.

Lemma shavite_big_correct cc iv chunks ub n w :
  length (buf cc) = 128%nat → (n < 8)%nat →
  fst (shavite_big_close (fold_left shavite_big_core chunks (shavite_big_init cc iv)) ub n w) =
  shavite_spec w iv (concat chunks) ub n.
Proof.
  intros Hb Hn. set (msg := concat chunks).
  destruct (updates_view 128 shavite_block shavite_big_core ctx_ok cview chunks
    (shavite_big_init cc iv)) as [Hok Hv].
  { apply shavite_big_core_view. } { split; [done|simpl; lia]. }
  set (sc := fold_left _ _ _) in *.
  replace (cview (shavite_big_init cc iv)) with (@nil Z, (iv, counter_of 0)) in Hv by done.
  fold msg in Hv. rewrite absorb_message in Hv by lia.
  set (k := Z.of_nat (length (full_blocks 128 msg))) in *.
  assert (Hlen : Z.of_nat (length msg) = 128 * k + Z.of_nat (length (rest 128 msg))).
  { subst k. rewrite length_full_blocks, length_rest by lia.
    pose proof (Nat.div_mod_eq (length msg) 128). lia. }
  rewrite (run_shavite _ _ (bit_length msg n)) in Hv by (unfold bit_length; fold k; lia).
  fold k in Hv.
  rewrite (close_blocks sc ub n w k _ (rest 128 msg)) by done.
  unfold shavite_spec, shavite_blocks.
  rewrite (full_blocks_pad 128 msg), counted_run_app by lia. fold k.
  replace (1024 * k + Z.of_nat (8 * length (rest 128 msg) + n)) with (bit_length msg n)
    by (unfold bit_length; lia).
  by rewrite length_rest, md_padding_mod by lia.
Qed.

(** SHAvite-512 over its streaming interface: initialise, update with any
    sequence of chunks, close with [n] extra bits gives the SHAvite-512 hash
    of the concatenated data, each block keyed by the 128-bit count of message
    bits hashed so far (0 for a block of padding only); the four 32-bit
    counter words of the code carry into each other correctly for every
    length. *)
Theorem sph_shavite512_correct cc chunks ub n :
  length (buf cc) = 128%nat → (n < 8)%nat →
  fst (sph_shavite512_addbits_and_close
         (fold_left sph_shavite512 chunks (sph_shavite512_init cc)) ub n) =
  shavite_spec 16 IV512 (concat chunks) ub n.
Proof.
  intros. rewrite <-(shavite_big_correct cc IV512 chunks ub n 16) by done.
  unfold sph_shavite512_addbits_and_close. by destruct (shavite_big_close _ _ _ _).
Qed.

(** The default form of [c512], which updates 32 key words in place, computes the
    same as the small-footprint form, which expands all 448 key words first. *)
Lemma c512_forms h c msg : length h = 16%nat → c512 h c msg = c512_small h c msg.
Proof. apply c512_small_eq. Qed.

End Shavite.
