(* ===== verification/Skein.v ===== *)
(** * Skein: crypto/x11/skein.c, sph_skein.h

    The fourth hash of the X11 chain: Skein-512 with 224 to 512 bits of output.
    The cipher Threefish-512 is written without moving words: the macros
    [TFBIG_MIX8] are called with the words in permuted order, and the subkey
    words are picked through the tables [M9] and [M3].  The buffering is lazy:
    a full block waits in the buffer until more data comes, since the last
    block is processed with the final flag.  The theorems relate the code to
    Threefish and the chaining mode UBI as Skein defines them. *)
From S2P Require Import Prelude SphTypes Stream Padding.

Module Skein.

(** ** Constants *)

Definition IV224 : list Z :=
  [0xCCD0616248677224; 0xCBA65CF3A92339EF; 0x8CCD69D652FF4B64; 0x398AED7B3AB890B4;
   0x0F59D1B1457D2BD0; 0x6776FE6575D4EB3D; 0x99FBC70E997413E9; 0x9E2CFCCFE1C41EF7].
Definition IV256 : list Z :=
  [0xCCD044A12FDB3E13; 0xE83590301A79A9EB; 0x55AEA0614F816E6F; 0x2A2767A4AE9B94DB;
   0xEC06025E74DD7683; 0xE7A436CDC4746251; 0xC36FBAF9393AD185; 0x3EEDBA1833EDFC13].
Definition IV384 : list Z :=
  [0xA3F6C6BF3A75EF5F; 0xB0FEF9CCFD84FAA4; 0x9D77DD663D770CFE; 0xD798CBF3B468FDDA;
   0x1BC4A6668A0E4465; 0x7ED7D434E5807407; 0x548FC1ACD4EC44D6; 0x266E17546AA18FF8].
Definition IV512 : list Z :=
  [0x4903ADFF749C51CE; 0x0D95DE399746DF03; 0x8FD1934127C79BCE; 0x9A255629FF352CB1;
   0x5DB62599DF6CA7B0; 0xEABE394CA9D5C3F4; 0x991112C71A75B523; 0xAE18A40B660FCC33].

(** [M9_s_i] and [M3_s_i]. *)
Definition M9 : list (list nat) :=
  [[0; 1; 2; 3; 4; 5; 6; 7]; [1; 2; 3; 4; 5; 6; 7; 8];
   [2; 3; 4; 5; 6; 7; 8; 0]; [3; 4; 5; 6; 7; 8; 0; 1];
   [4; 5; 6; 7; 8; 0; 1; 2]; [5; 6; 7; 8; 0; 1; 2; 3];
   [6; 7; 8; 0; 1; 2; 3; 4]; [7; 8; 0; 1; 2; 3; 4; 5];
   [8; 0; 1; 2; 3; 4; 5; 6]; [0; 1; 2; 3; 4; 5; 6; 7];
   [1; 2; 3; 4; 5; 6; 7; 8]; [2; 3; 4; 5; 6; 7; 8; 0];
   [3; 4; 5; 6; 7; 8; 0; 1]; [4; 5; 6; 7; 8; 0; 1; 2];
   [5; 6; 7; 8; 0; 1; 2; 3]; [6; 7; 8; 0; 1; 2; 3; 4];
   [7; 8; 0; 1; 2; 3; 4; 5]; [8; 0; 1; 2; 3; 4; 5; 6];
   [0; 1; 2; 3; 4; 5; 6; 7]]%nat.
Definition M3 : list (list nat) :=
  [[0; 1]; [1; 2]; [2; 0]; [0; 1]; [1; 2]; [2; 0]; [0; 1];
   [1; 2]; [2; 0]; [0; 1]; [1; 2]; [2; 0]; [0; 1]; [1; 2];
   [2; 0]; [0; 1]; [1; 2]; [2; 0]; [0; 1]]%nat.

(** ** Threefish *)

(** [TFBIG_KINIT]: the ninth key word and the third tweak word. *)
Definition TFBIG_KINIT (k : list Z) (t0 t1 : Z) : list Z * list Z :=
  let k8 := ((k @@ 0 ^^ k @@ 1) ^^ (k @@ 2 ^^ k @@ 3)) ^^ ((k @@ 4 ^^ k @@ 5) ^^ (k @@ 6 ^^ k @@ 7))
            ^^ 0x1BD11BDAA9FC1A22 in
  (take 8 k ++ [k8], [t0; t1; t0 ^^ t1]).

(** [SKBI(k, s, i)] and [SKBT(t, s, v)]. *)
Definition SKBI (k : list Z) (s i : nat) : Z := k @@ nth i (nth s M9 []) 0%nat.
Definition SKBT (t : list Z) (s v : nat) : Z := t @@ nth v (nth s M3 []) 0%nat.

Definition TFBIG_ADDKEY (k t : list Z) (s : nat) (p : list Z) : list Z :=
  [SPH_T64 (p @@ 0 + SKBI k s 0);
   SPH_T64 (p @@ 1 + SKBI k s 1);
   SPH_T64 (p @@ 2 + SKBI k s 2);
   SPH_T64 (p @@ 3 + SKBI k s 3);
   SPH_T64 (p @@ 4 + SKBI k s 4);
   SPH_T64 (p @@ 5 + SKBI k s 5 + SKBT t s 0);
   SPH_T64 (p @@ 6 + SKBI k s 6 + SKBT t s 1);
   SPH_T64 (p @@ 7 + SKBI k s 7 + Z.of_nat s)].

(** [TFBIG_MIX] on the words at the places [x0] and [x1]. *)
Definition TFBIG_MIX (x0 x1 : nat) (rc : Z) (p : list Z) : list Z :=
  let p := <[x0 := SPH_T64 (p @@ x0 + p @@ x1)]> p in
  <[x1 := SPH_ROTL64 (p @@ x1) rc ^^ p @@ x0]> p.

Definition TFBIG_MIX8 (w : list nat) (rc : list Z) (p : list Z) : list Z :=
  let w i := nth i w 0%nat in
  let p := TFBIG_MIX (w 0%nat) (w 1%nat) (rc @@ 0) p in
  let p := TFBIG_MIX (w 2%nat) (w 3%nat) (rc @@ 1) p in
  let p := TFBIG_MIX (w 4%nat) (w 5%nat) (rc @@ 2) p in
  TFBIG_MIX (w 6%nat) (w 7%nat) (rc @@ 3) p.

(** The four rounds of [TFBIG_4e] and of [TFBIG_4o], after the key. *)
Definition mix_4e (p : list Z) : list Z :=
  let p := TFBIG_MIX8 [0; 1; 2; 3; 4; 5; 6; 7]%nat [46; 36; 19; 37] p in
  let p := TFBIG_MIX8 [2; 1; 4; 7; 6; 5; 0; 3]%nat [33; 27; 14; 42] p in
  let p := TFBIG_MIX8 [4; 1; 6; 3; 0; 5; 2; 7]%nat [17; 49; 36; 39] p in
  let p := TFBIG_MIX8 [6; 1; 0; 7; 2; 5; 4; 3]%nat [44; 9; 54; 56] p in
  p.
Definition mix_4o (p : list Z) : list Z :=
  let p := TFBIG_MIX8 [0; 1; 2; 3; 4; 5; 6; 7]%nat [39; 30; 34; 24] p in
  let p := TFBIG_MIX8 [2; 1; 4; 7; 6; 5; 0; 3]%nat [13; 50; 10; 17] p in
  let p := TFBIG_MIX8 [4; 1; 6; 3; 0; 5; 2; 7]%nat [25; 29; 39; 43] p in
  let p := TFBIG_MIX8 [6; 1; 0; 7; 2; 5; 4; 3]%nat [8; 35; 56; 22] p in
  p.
Definition TFBIG_4e (k t : list Z) (s : nat) (p : list Z) : list Z :=
  mix_4e (TFBIG_ADDKEY k t s p).
Definition TFBIG_4o (k t : list Z) (s : nat) (p : list Z) : list Z :=
  mix_4o (TFBIG_ADDKEY k t s p).

(** The tweak words of [UBI_BIG(etype, extra)]. *)
Definition tweak0 (bcount extra : Z) : Z := SPH_T64 (SPH_T64 (bcount ≪ 6) + extra).
Definition tweak1 (bcount etype : Z) : Z := SPH_T64 ((bcount ≫ 58) + SPH_T64 (etype ≪ 55)).

Definition UBI_BIG (buf h : list Z) (bcount etype extra : Z) : list Z :=
  let m := (λ i, sph_dec64le_aligned (drop (8 * i) buf)) <$> seq 0 8 in
  let '(k, t) := TFBIG_KINIT h (tweak0 bcount extra) (tweak1 bcount etype) in
  let p := TFBIG_4e k t 0 m in
  let p := TFBIG_4o k t 1 p in
  let p := TFBIG_4e k t 2 p in
  let p := TFBIG_4o k t 3 p in
  let p := TFBIG_4e k t 4 p in
  let p := TFBIG_4o k t 5 p in
  let p := TFBIG_4e k t 6 p in
  let p := TFBIG_4o k t 7 p in
  let p := TFBIG_4e k t 8 p in
  let p := TFBIG_4o k t 9 p in
  let p := TFBIG_4e k t 10 p in
  let p := TFBIG_4o k t 11 p in
  let p := TFBIG_4e k t 12 p in
  let p := TFBIG_4o k t 13 p in
  let p := TFBIG_4e k t 14 p in
  let p := TFBIG_4o k t 15 p in
  let p := TFBIG_4e k t 16 p in
  let p := TFBIG_4o k t 17 p in
  let p := TFBIG_ADDKEY k t 18 p in
  zip_with Z.lxor m p.

(** ** The small-footprint form: an array of 27 key words, the tweak rotated *)

Definition ADDKEY_small (h : list Z) (s : nat) (tt0 tt1 : Z) (p : list Z) : list Z :=
  [SPH_T64 (p @@ 0 + h @@ (s + 0));
   SPH_T64 (p @@ 1 + h @@ (s + 1));
   SPH_T64 (p @@ 2 + h @@ (s + 2));
   SPH_T64 (p @@ 3 + h @@ (s + 3));
   SPH_T64 (p @@ 4 + h @@ (s + 4));
   SPH_T64 (p @@ 5 + h @@ (s + 5) + tt0);
   SPH_T64 (p @@ 6 + h @@ (s + 6) + tt1);
   SPH_T64 (p @@ 7 + h @@ (s + 7) + Z.of_nat s)].

(** [h[u + 9] = h[u]; ...] for [u = 0, 3, .., 15]: the nine words three times. *)
Definition extend_key (h : list Z) : list Z :=
  fold_left (λ h q, let u := (3 * q)%nat in
    <[(u + 11)%nat := h @@ (u + 2)]> (<[(u + 10)%nat := h @@ (u + 1)]>
      (<[(u + 9)%nat := h @@ (u + 0)]> h))) (seq 0 6) h.

(** The body of the loop: eight rounds and the rotation of the tweak. *)
Definition small_step (h : list Z) (st : list Z * (Z * Z * Z)) (u : nat) : list Z * (Z * Z * Z) :=
  let '(p, (t0, t1, t2)) := st in
  let s := (2 * u)%nat in
  let p := mix_4e (ADDKEY_small h s t0 t1 p) in
  let p := mix_4o (ADDKEY_small h (s + 1) t1 t2 p) in
  (p, (t2, t0, t1)).

Definition UBI_BIG_small (buf h : list Z) (bcount etype extra : Z) : list Z :=
  let m := (λ i, sph_dec64le_aligned (drop (8 * i) buf)) <$> seq 0 8 in
  let '(k, t) := TFBIG_KINIT h (tweak0 bcount extra) (tweak1 bcount etype) in
  let h := extend_key (k ++ replicate 18 0) in
  let '(p, (t0, t1, t2)) :=
    fold_left (small_step h) (seq 0 9) (m, (t @@ 0, t @@ 1, t @@ 2)) in
  let p := ADDKEY_small h 18 t0 t1 p in
  zip_with Z.lxor m p.

(** ** The context and its operations *)

Record sph_skein_big_context := mk_ctx { buf : list Z; ptr : nat; h : list Z; bcount : Z }.

Definition skein_big_init (sc : sph_skein_big_context) (iv : list Z) : sph_skein_big_context :=
  mk_ctx (buf sc) 0 iv 0.

(** [(bcount == 0) << 7]. *)
Definition first_of (bcount : Z) : Z := if bcount =? 0 then 128 else 0.

(** One block in the loop of [skein_big_core]. *)
Definition skein_block (b : list Z) (st : list Z * Z * Z) : list Z * Z * Z :=
  let '(h, bcount, first) := st in
  let bcount := SPH_T64 (bcount + 1) in
  (UBI_BIG b h bcount (96 + first) 0, bcount, 0).

Definition skein_big_core (sc : sph_skein_big_context) (data : list Z) : sph_skein_big_context :=
  let '(b, p, (h, c, _)) :=
    lazy_core 64 skein_block (buf sc) (ptr sc) data (h sc, bcount sc, first_of (bcount sc)) in
  mk_ctx b p h c.

Definition skein_big_close (sc : sph_skein_big_context) (ub : Z) (n out_len : nat)
    : list Z * sph_skein_big_context :=
  let sc := if (n =? 0)%nat then sc else skein_big_core sc [pad_byte ub n] in
  let b := memset (buf sc) (ptr sc) 0 (64 - ptr sc) in
  let et := 352 + first_of (bcount sc) + (if (n =? 0)%nat then 0 else 1) in
  let hh := UBI_BIG b (h sc) (bcount sc) et (Z.of_nat (ptr sc)) in
  let b := memset b 0 0 64 in
  let hh := UBI_BIG b hh 0 510 8 in
  let b := fold_left (λ b u, memcpy b (8 * u) (sph_enc64le_aligned (hh @@ u))) (seq 0 8) b in
  (take out_len b, mk_ctx b (ptr sc) (h sc) (bcount sc)).

Definition sph_skein224_init sc := skein_big_init sc IV224.
Definition sph_skein224 := skein_big_core.
Definition sph_skein224_addbits_and_close (sc : sph_skein_big_context) (ub : Z) (n : nat) :=
  let '(dst, sc) := skein_big_close sc ub n 28 in (dst, skein_big_init sc IV224).
Definition sph_skein224_close (sc : sph_skein_big_context) :=
  sph_skein224_addbits_and_close sc 0 0.

Definition sph_skein256_init sc := skein_big_init sc IV256.
Definition sph_skein256 := skein_big_core.
Definition sph_skein256_addbits_and_close (sc : sph_skein_big_context) (ub : Z) (n : nat) :=
  let '(dst, sc) := skein_big_close sc ub n 32 in (dst, skein_big_init sc IV256).
Definition sph_skein256_close (sc : sph_skein_big_context) :=
  sph_skein256_addbits_and_close sc 0 0.

Definition sph_skein384_init sc := skein_big_init sc IV384.
Definition sph_skein384 := skein_big_core.
Definition sph_skein384_addbits_and_close (sc : sph_skein_big_context) (ub : Z) (n : nat) :=
  let '(dst, sc) := skein_big_close sc ub n 48 in (dst, skein_big_init sc IV384).
Definition sph_skein384_close (sc : sph_skein_big_context) :=
  sph_skein384_addbits_and_close sc 0 0.

Definition sph_skein512_init sc := skein_big_init sc IV512.
Definition sph_skein512 := skein_big_core.
Definition sph_skein512_addbits_and_close (sc : sph_skein_big_context) (ub : Z) (n : nat) :=
  let '(dst, sc) := skein_big_close sc ub n 64 in (dst, skein_big_init sc IV512).
Definition sph_skein512_close (sc : sph_skein_big_context) :=
  sph_skein512_addbits_and_close sc 0 0.

(** ** Specification: Threefish-512 and UBI *)

Definition rotation_table : list (list Z) :=
  [[46; 36; 19; 37]; [33; 27; 14; 42]; [17; 49; 36; 39]; [44; 9; 54; 56];
   [39; 30; 34; 24]; [13; 50; 10; 17]; [25; 29; 39; 43]; [8; 35; 56; 22]].

(** MIX on the four pairs of words of round [d]. *)
Definition mix_pair (r x0 x1 : Z) : Z * Z :=
  let y0 := SPH_T64 (x0 + x1) in (y0, SPH_ROTL64 x1 r ^^ y0).
Definition mix (d : nat) (v : list Z) : list Z :=
  concat ((λ j, let '(y0, y1) :=
    mix_pair (nth d rotation_table [] @@ j) (v @@ (2 * j)) (v @@ (2 * j + 1)) in [y0; y1])
    <$> seq 0 4).

(** The word permutation after a round. *)
Definition permute (v : list Z) : list Z :=
  (λ i, v @@ i) <$> [2; 1; 4; 7; 6; 5; 0; 3]%nat.

(** Subkey [s] of the extended key (nine words) and tweak (three words). *)
Definition subkey_word (k t : list Z) (s i : nat) : Z :=
  k @@ ((s + i) mod 9) +
  match i with
  | 5%nat => t @@ (s mod 3)
  | 6%nat => t @@ ((s + 1) mod 3)
  | 7%nat => Z.of_nat s
  | _ => 0
  end.
Definition add_subkey (k t : list Z) (s : nat) (v : list Z) : list Z :=
  (λ i, SPH_T64 (v @@ i + subkey_word k t s i)) <$> seq 0 8.

Definition tf_round (k t : list Z) (v : list Z) (d : nat) : list Z :=
  let e := if (d mod 4 =? 0)%nat then add_subkey k t (d / 4) v else v in
  permute (mix (d mod 8) e).

Definition extend (k : list Z) : list Z := k ++ [fold_left Z.lxor k 0x1BD11BDAA9FC1A22].

Definition threefish (key : list Z) (tweak : Z) (v : list Z) : list Z :=
  let k := extend key in
  let t := [tweak mod 2 ^ 64; tweak / 2 ^ 64; (tweak mod 2 ^ 64) ^^ (tweak / 2 ^ 64)] in
  add_subkey k t 18 (fold_left (tf_round k t) (seq 0 72) v).

(** The words of a block and one step of UBI. *)
Definition block_words (b : list Z) : list Z :=
  (λ i, le_join (take 8 (drop (8 * i) b))) <$> seq 0 8.
Definition ubi_block (h : list Z) (tweak : Z) (b : list Z) : list Z :=
  zip_with Z.lxor (block_words b) (threefish h tweak (block_words b)).

(** The tweak: position, type and the flags for the first block, the last
    block, and a last block with padding bits. *)
Definition ubi_tweak (pos type : Z) (first last pad : bool) : Z :=
  pos + 2 ^ 119 * Z.b2z pad + 2 ^ 120 * type + 2 ^ 126 * Z.b2z first + 2 ^ 127 * Z.b2z last.

Definition skein_data (msg : list Z) (ub : Z) (n : nat) : list Z :=
  msg ++ if (n =? 0)%nat then [] else [pad_byte ub n].

(** Block [i] of the data, completed with zeros. *)
Definition data_block (D : list Z) (i : nat) : list Z :=
  let b := take 64 (drop (i * 64) D) in b ++ replicate (64 - length b) 0.

(** UBI over the message (type 48): at least one block, the last one flagged. *)
Definition ubi_step (D : list Z) (pad : bool) (h : list Z) (i : nat) : list Z :=
  let last := (i =? lazy_count 64 (length D))%nat in
  let pos := Z.of_nat (Nat.min (64 * (i + 1)) (length D)) in
  ubi_block h (ubi_tweak pos 48 (i =? 0)%nat last (last && pad)) (data_block D i).
Definition ubi_message (D : list Z) (pad : bool) (h : list Z) : list Z :=
  fold_left (ubi_step D pad) (seq 0 (S (lazy_count 64 (length D)))) h.

(** The output block (type 63): eight zero bytes, one block. *)
Definition skein_output (h : list Z) : list Z :=
  ubi_block h (ubi_tweak 8 63 true true false) (replicate 64 0).

Definition skein_spec (iv : list Z) (out_len : nat) (msg : list Z) (ub : Z) (n : nat) : list Z :=
  let h := ubi_message (skein_data msg ub n) (negb (n =? 0)%nat) iv in
  take out_len (concat (sph_enc64le <$> skein_output h)).

(** ** The code's Threefish *)

Lemma mix_4e_rounds p :
  length p = 8%nat →
  mix_4e p = fold_left (λ v d, permute (mix d v)) (seq 0 4) p.
Proof.
  intros Hl. do 8 (destruct p as [|? p]; [discriminate Hl|]). destruct p; [|discriminate Hl].
  cbv -[Z.add Z.lxor SPH_T64 SPH_ROTL64]. reflexivity.
Qed.

Lemma mix_4o_rounds p :
  length p = 8%nat →
  mix_4o p = fold_left (λ v d, permute (mix d v)) (seq 4 4) p.
Proof.
  intros Hl. do 8 (destruct p as [|? p]; [discriminate Hl|]). destruct p; [|discriminate Hl].
  cbv -[Z.add Z.lxor SPH_T64 SPH_ROTL64]. reflexivity.
Qed.

(** The tables [M9] and [M3] are sums modulo 9 and 3. *)
Lemma key_tables :
  Forall (λ s, nth s M9 [] = (λ i, ((s + i) mod 9)%nat) <$> seq 0 8 ∧
    nth s M3 [] = (λ i, ((s + i) mod 3)%nat) <$> seq 0 2) (seq 0 19).
Proof. apply (bool_decide_unpack _). by vm_compute. Qed.

Lemma TFBIG_ADDKEY_subkey k t s p :
  (s < 19)%nat → TFBIG_ADDKEY k t s p = add_subkey k t s p.
Proof.
  intros Hs. pose proof key_tables as H. rewrite Forall_seq in H.
  destruct (H s ltac:(lia)) as [E9 E3]. unfold TFBIG_ADDKEY, add_subkey, SKBI, SKBT, subkey_word.
  rewrite E9, E3. cbn [seq fmap list_fmap nth]. rewrite !Z.add_0_r, !Z.add_assoc, !Nat.add_0_r. done.
Qed.

(** Rounds in groups of four. *)
Lemma fold_groups4 {A} (f : A → nat → A) n v :
  fold_left f (seq 0 (4 * n)) v =
  fold_left (λ v s, f (f (f (f v (4 * s)) (4 * s + 1)) (4 * s + 2)) (4 * s + 3))%nat (seq 0 n) v.
Proof.
  induction n as [|n IH]; [done|]. replace (4 * S n)%nat with (4 * n + 4)%nat by lia.
  rewrite seq_app, fold_left_app, IH, (seq_S n 0), fold_left_app, !Nat.add_0_l.
  cbn [seq fold_left].
  replace (S (4 * n)) with (4 * n + 1)%nat by lia. replace (S (4 * n + 1)) with (4 * n + 2)%nat by lia.
  by replace (S (4 * n + 2)) with (4 * n + 3)%nat by lia.
Qed.

Definition tf_four (k t : list Z) (v : list Z) (s : nat) : list Z :=
  if Nat.even s then TFBIG_4e k t s v else TFBIG_4o k t s v.

Lemma tf_four_rounds k t v s :
  (s < 18)%nat →
  tf_round k t (tf_round k t (tf_round k t (tf_round k t v (4 * s)) (4 * s + 1)) (4 * s + 2))
    (4 * s + 3) = tf_four k t v s.
Proof.
  intros Hs. unfold tf_four, TFBIG_4e, TFBIG_4o. rewrite TFBIG_ADDKEY_subkey by lia.
  rewrite mix_4e_rounds, mix_4o_rounds by done. unfold tf_round.
  set (e := add_subkey k t s v).
  assert (E : (4 * s / 4)%nat = s) by (rewrite Nat.mul_comm; apply Nat.div_mul; lia).
  do 18 (destruct s as [|s]; [reflexivity|]). lia.
Qed.

(** The sequence of [UBI_BIG] written as a fold. *)
Lemma alternate_unrolled {A} (F G : nat → A → A) v :
  G 17%nat (F 16%nat (G 15%nat (F 14%nat (G 13%nat (F 12%nat (G 11%nat (F 10%nat (G 9%nat
    (F 8%nat (G 7%nat (F 6%nat (G 5%nat (F 4%nat (G 3%nat (F 2%nat (G 1%nat (F 0%nat
    v))))))))))))))))) =
  fold_left (λ v s, if Nat.even s then F s v else G s v) (seq 0 18) v.
Proof. reflexivity. Qed.

#[local] Opaque TFBIG_4e TFBIG_4o TFBIG_ADDKEY add_subkey.

Lemma fold_rounds k t v :
  fold_left (tf_round k t) (seq 0 72) v = fold_left (tf_four k t) (seq 0 18) v.
Proof.
  change 72%nat with (4 * 18)%nat. rewrite fold_groups4. apply fold_left_ext_in.
  intros a s Hs%in_seq. apply tf_four_rounds. lia.
Qed.

(** The flags and the position of a tweak as the code packs them. *)
Lemma tweak_words bc etype extra :
  0 <= bc → 0 <= extra → 64 * bc + extra < 2 ^ 64 → 0 <= etype < 512 →
  let T := 64 * bc + extra + 2 ^ 119 * etype in
  tweak0 bc extra = T mod 2 ^ 64 ∧ tweak1 bc etype = T / 2 ^ 64.
Proof.
  intros Hb He Hp Ht. cbv zeta. unfold tweak0, tweak1.
  rewrite !SPH_T64_mod, !Z.shiftl_mul_pow2, Z.shiftr_div_pow2 by lia.
  split.
  - rewrite Zplus_mod_idemp_l. replace (2 ^ 119 * etype) with (2 ^ 55 * etype * 2 ^ 64) by lia.
    rewrite Z_mod_plus_full. f_equal. lia.
  - rewrite (Z.div_small bc) by lia. rewrite Z.add_0_l, Z.mod_mod by lia.
    rewrite Z.mod_small by lia.
    replace (2 ^ 119 * etype) with (2 ^ 55 * etype * 2 ^ 64) by lia.
    rewrite Z.div_add, (Z.div_small (64 * bc + extra)) by lia. lia.
Qed.

Lemma KINIT_extend k t0 t1 :
  length k = 8%nat → TFBIG_KINIT k t0 t1 = (extend k, [t0; t1; t0 ^^ t1]).
Proof.
  intros Hl. do 8 (destruct k as [|? k]; [discriminate Hl|]). destruct k; [|discriminate Hl].
  unfold TFBIG_KINIT, extend. cbn [take app fold_left at_ nth]. do 9 f_equal.
  f_equal. unfold at_. cbn [nth]. xor_ac.
Qed.

(** [UBI_BIG] is a step of UBI. *)
Lemma UBI_BIG_ubi b h bc etype extra :
  length h = 8%nat → 0 <= bc → 0 <= extra → 64 * bc + extra < 2 ^ 64 → 0 <= etype < 512 →
  UBI_BIG b h bc etype extra = ubi_block h (64 * bc + extra + 2 ^ 119 * etype) b.
Proof.
  intros Hl Hb He Hp Ht. destruct (tweak_words bc etype extra Hb He Hp Ht) as [E0 E1].
  unfold UBI_BIG, ubi_block, threefish. rewrite KINIT_extend, E0, E1 by done. cbv zeta.
  set (T := 64 * bc + extra + 2 ^ 119 * etype). set (t := [_; _; _]).
  change ((λ i, sph_dec64le_aligned (drop (8 * i) b)) <$> seq 0 8) with (block_words b).
  rewrite (alternate_unrolled (TFBIG_4e (extend h) t) (TFBIG_4o (extend h) t)).
  rewrite fold_rounds, TFBIG_ADDKEY_subkey by lia. done.
Qed.

(** ** The small-footprint form *)

Lemma extend_key_nine k :
  length k = 9%nat → extend_key (k ++ replicate 18 0) = k ++ k ++ k.
Proof.
  intros Hl. do 9 (destruct k as [|? k]; [discriminate Hl|]). destruct k; [|discriminate Hl].
  reflexivity.
Qed.

Lemma nine_times k j : length k = 9%nat → (j < 27)%nat → (k ++ k ++ k) @@ j = k @@ (j mod 9).
Proof.
  intros Hl Hj. do 9 (destruct k as [|? k]; [discriminate Hl|]). destruct k; [|discriminate Hl].
  do 27 (destruct j as [|j]; [reflexivity|]). lia.
Qed.

#[local] Transparent add_subkey.
Lemma ADDKEY_small_eq k t s p :
  length k = 9%nat → (s < 19)%nat →
  ADDKEY_small (k ++ k ++ k) s (t @@ (s mod 3)) (t @@ ((s + 1) mod 3)) p = TFBIG_ADDKEY k t s p.
Proof.
  intros Hl Hs. rewrite TFBIG_ADDKEY_subkey by done. unfold ADDKEY_small, add_subkey, subkey_word.
  rewrite !nine_times by (done || lia). cbn [seq fmap list_fmap].
  by rewrite !Z.add_0_r, !Z.add_assoc.
Qed.
#[local] Opaque add_subkey.

#[local] Transparent TFBIG_4e TFBIG_4o.
Lemma tf_four_even k t v n : tf_four k t v (2 * n) = mix_4e (TFBIG_ADDKEY k t (2 * n) v).
Proof. unfold tf_four. by rewrite Nat.even_mul. Qed.

Lemma tf_four_odd k t v n : tf_four k t v (2 * n + 1) = mix_4o (TFBIG_ADDKEY k t (2 * n + 1) v).
Proof. unfold tf_four. by rewrite Nat.add_1_r, Nat.even_succ, Nat.odd_mul. Qed.

Lemma small_loop k t v n :
  length k = 9%nat → (n <= 9)%nat →
  fold_left (small_step (k ++ k ++ k)) (seq 0 n) (v, (t @@ 0, t @@ 1, t @@ 2)) =
  (fold_left (tf_four k t) (seq 0 (2 * n)) v,
   (t @@ ((2 * n) mod 3), t @@ ((2 * n + 1) mod 3), t @@ ((2 * n + 2) mod 3))).
Proof.
  intros Hk. induction n as [|n IH]; intros Hn; [done|].
  rewrite seq_S, fold_left_app, IH by lia. cbn [fold_left small_step]. cbv zeta. rewrite Nat.add_0_l.
  rewrite ADDKEY_small_eq by (done || lia).
  replace (2 * n + 2)%nat with (2 * n + 1 + 1)%nat at 1 by lia.
  rewrite ADDKEY_small_eq by (done || lia).
  replace (2 * S n)%nat with (S (S (2 * n))) by lia. rewrite !(seq_S _ 0), !fold_left_app.
  cbn [fold_left]. rewrite !Nat.add_0_l.
  replace (S (2 * n)) with (2 * n + 1)%nat by lia. rewrite tf_four_even, tf_four_odd.
  set (X := fold_left _ (seq 0 (2 * n)) v). f_equal.
  replace (S (2 * n + 1)) with (2 * n + 2)%nat by lia.
  replace (2 * n + 2 + 1)%nat with (2 * n + 1 * 3)%nat by lia.
  replace (2 * n + 2 + 2)%nat with (2 * n + 1 + 1 * 3)%nat by lia.
  by rewrite !Nat.Div0.mod_add.
Qed.

Lemma UBI_small_eq b h bc etype extra :
  length h = 8%nat → UBI_BIG b h bc etype extra = UBI_BIG_small b h bc etype extra.
Proof.
  intros Hl. unfold UBI_BIG, UBI_BIG_small. rewrite KINIT_extend by done. cbv zeta.
  set (m := _ <$> seq 0 8). set (t := [_; _; _]).
  assert (Hk : length (extend h) = 9%nat) by (unfold extend; rewrite length_app, Hl; done).
  rewrite extend_key_nine, (small_loop (extend h) t m 9) by (done || lia).
  rewrite (alternate_unrolled (TFBIG_4e (extend h) t) (TFBIG_4o (extend h) t)).
  f_equal. symmetry. apply (ADDKEY_small_eq (extend h) t 18); [done|lia].
Qed.

(** ** The streaming interface *)

#[local] Opaque UBI_BIG ubi_block.

Lemma length_ubi_block h T b : length (ubi_block h T b) = 8%nat.
Proof.
  #[local] Transparent ubi_block. unfold ubi_block, threefish. #[local] Opaque ubi_block.
  rewrite length_zip_with. unfold block_words. rewrite length_fmap, length_seq.
  #[local] Transparent add_subkey. unfold add_subkey. #[local] Opaque add_subkey.
  by rewrite length_fmap, length_seq.
Qed.

Lemma length_ubi_steps D pad l iv :
  length iv = 8%nat → length (fold_left (ubi_step D pad) l iv) = 8%nat.
Proof.
  revert iv. induction l as [|i l IH]; intros iv Hl; [done|]. cbn [fold_left]. apply IH.
  apply length_ubi_block.
Qed.

(** The flags of the code as the flags of the tweak. *)
Lemma tweak_flags pos k (last pad : bool) :
  pos + 2 ^ 119 * ((if last then 352 else 96) + first_of (Z.of_nat k) + Z.b2z pad) =
  ubi_tweak pos 48 (k =? 0)%nat last pad.
Proof.
  unfold ubi_tweak, first_of.
  destruct (Z.eqb_spec (Z.of_nat k) 0), (Nat.eqb_spec k 0), last, pad; try lia; cbn [Z.b2z]; lia.
Qed.

(** A block that is not the last one. *)
Lemma skein_block_step D pad hh k :
  length hh = 8%nat → (k < lazy_count 64 (length D))%nat → Z.of_nat (length D) < 2 ^ 64 →
  skein_block (take 64 (drop (k * 64) D)) (hh, Z.of_nat k, first_of (Z.of_nat k)) =
  (ubi_step D pad hh k, Z.of_nat (S k), first_of (Z.of_nat (S k))).
Proof.
  intros Hl Hk Hlen. unfold skein_block.
  assert (Hkk : (64 * (k + 1) < length D)%nat).
  { unfold lazy_count in Hk. pose proof (Nat.Div0.mul_div_le (length D - 1) 64). lia. }
  assert (ET : SPH_T64 (Z.of_nat k + 1) = Z.of_nat (S k)).
  { rewrite SPH_T64_id; [lia|]. split; lia. }
  assert (Hf : 0 <= 96 + first_of (Z.of_nat k) < 512)
    by (unfold first_of; destruct (Z.of_nat k =? 0); lia).
  rewrite ET, UBI_BIG_ubi by lia. unfold ubi_step.
  destruct (Nat.eqb_spec k (lazy_count 64 (length D))); [lia|]. cbn [andb].
  rewrite Nat.min_l by lia.
  assert (Eb : data_block D k = take 64 (drop (k * 64) D)).
  { unfold data_block. rewrite length_take, length_drop, Nat.min_l, Nat.sub_diag by lia.
    apply app_nil_r. }
  rewrite Eb. unfold first_of at 2. destruct (Z.eqb_spec (Z.of_nat (S k)) 0); [lia|].
  rewrite <-(tweak_flags _ k false false). cbn [Z.b2z].
  replace (64 * Z.of_nat (S k) + 0) with (Z.of_nat (64 * (k + 1))) by lia.
  by rewrite Z.add_0_r.
Qed.

Lemma run_skein D pad iv k :
  length iv = 8%nat → (k <= lazy_count 64 (length D))%nat → Z.of_nat (length D) < 2 ^ 64 →
  run skein_block ((λ i, take 64 (drop (i * 64) D)) <$> seq 0 k) (iv, 0, 128) =
  (fold_left (ubi_step D pad) (seq 0 k) iv, Z.of_nat k, first_of (Z.of_nat k)).
Proof.
  intros Hl. induction k as [|k IH]; intros Hk Hlen; [done|].
  rewrite seq_S, fmap_app, run_app, IH, fold_left_app by lia. cbn [fmap list_fmap fold_left].
  rewrite run_cons, (skein_block_step D pad) by (lia || by apply length_ubi_steps). done.
Qed.

Lemma lazy_blocks_before D :
  take (lazy_count 64 (length D)) (full_blocks 64 D) =
  (λ i, take 64 (drop (i * 64) D)) <$> seq 0 (lazy_count 64 (length D)).
Proof.
  unfold full_blocks. rewrite <-fmap_take, take_seq. do 2 f_equal. apply Nat.min_l.
  unfold lazy_count. apply Nat.Div0.div_le_mono. lia.
Qed.

(** The state of a context after the data [D]. *)
Definition ctx_at (iv D : list Z) (sc : sph_skein_big_context) : Prop :=
  lazy_ok 64 (buf sc, ptr sc, 0) ∧
  (take (ptr sc) (buf sc), (h sc, bcount sc, first_of (bcount sc))) =
    lazy_absorb 64 skein_block ([], (iv, 0, 128)) D.

Lemma core_at iv D sc d :
  length iv = 8%nat → Z.of_nat (length (D ++ d)) < 2 ^ 64 → ctx_at iv D sc →
  ctx_at iv (D ++ d) (skein_big_core sc d).
Proof.
  intros Hiv Hlen [Hok Hv].
  destruct (lazy_core_spec 64 skein_block ltac:(lia) (buf sc) (ptr sc) d
    (h sc, bcount sc, first_of (bcount sc)) Hok) as [Hok' Hv'].
  rewrite Hv, <-lazy_app in Hv'. unfold skein_big_core, ctx_at.
  destruct (lazy_core _ _ _ _ _ _) as [[b p] [[hh c] f]]. cbn [view buf ptr h bcount] in *.
  split; [done|]. rewrite <-Hv'. rewrite lazy_message, lazy_blocks_before in Hv' by lia.
  rewrite (run_skein _ false) in Hv' by (done || lia). by injection Hv' as _ _ -> ->.
Qed.

Lemma updates_at iv D sc chunks :
  length iv = 8%nat → Z.of_nat (length (D ++ concat chunks)) < 2 ^ 64 → ctx_at iv D sc →
  ctx_at iv (D ++ concat chunks) (fold_left skein_big_core chunks sc).
Proof.
  intros Hiv. revert D sc. induction chunks as [|d chunks IH]; intros D sc Hlen Hsc.
  { cbn [concat]. by rewrite app_nil_r. }
  cbn [concat fold_left] in *. rewrite app_assoc in *. apply IH; [done|].
  apply core_at; [done| |done]. rewrite length_app in Hlen. lia.
Qed.

(** Closing a context that has taken all the data, padding bits included. *)
Lemma close_at iv D sc pad :
  length iv = 8%nat → Z.of_nat (length D) < 2 ^ 64 → ctx_at iv D sc →
  UBI_BIG (memset (buf sc) (ptr sc) 0 (64 - ptr sc)) (h sc) (bcount sc)
    (352 + first_of (bcount sc) + Z.b2z pad) (Z.of_nat (ptr sc)) = ubi_message D pad iv.
Proof.
  intros Hiv Hlen [[Hb Hp] Hv]. rewrite lazy_message, lazy_blocks_before in Hv by lia.
  rewrite (run_skein _ pad) in Hv by (done || lia). set (k := lazy_count 64 (length D)) in *.
  injection Hv as Hpend -> ->. 
  assert (Hk : (k * 64 <= length D ∧ length D <= k * 64 + 64)%nat).
  { unfold k, lazy_count. pose proof (Nat.Div0.mul_div_le (length D - 1) 64).
    pose proof (Nat.mul_succ_div_gt (length D - 1) 64). lia. }
  assert (Hptr : ptr sc = (length D - k * 64)%nat).
  { apply (f_equal length) in Hpend. rewrite length_take, length_drop in Hpend. lia. }
  assert (Hbuf : memset (buf sc) (ptr sc) 0 (64 - ptr sc) = data_block D k).
  { unfold memset. rewrite memcpy_full by (rewrite length_replicate; lia). rewrite Hpend.
    unfold data_block. rewrite (take_ge (drop _ _)) by (rewrite length_drop; lia).
    rewrite length_drop. by rewrite Hptr. }
  assert (Hf : 0 <= first_of (Z.of_nat k) <= 128) by (unfold first_of; destruct (_ =? _); lia).
  assert (Hpad : 0 <= Z.b2z pad <= 1) by (destruct pad; simpl; lia).
  rewrite Hbuf, UBI_BIG_ubi by (lia || by apply length_ubi_steps).
  unfold ubi_message. fold k. rewrite seq_S, fold_left_app. cbn [fold_left]. rewrite Nat.add_0_l.
  unfold ubi_step at 2. fold k. rewrite Nat.eqb_refl. cbn [andb]. rewrite Nat.min_r by lia.
  rewrite <-(tweak_flags _ k true pad).
  by replace (64 * Z.of_nat k + Z.of_nat (ptr sc)) with (Z.of_nat (length D)) by lia.
Qed.

Lemma output_block h b :
  length h = 8%nat → length b = 64%nat →
  UBI_BIG (memset b 0 0 64) h 0 510 8 = skein_output h.
Proof.
  intros Hl Hb. rewrite UBI_BIG_ubi by lia. unfold skein_output.
  assert (E : memset b 0 0 64 = replicate 64 0).
  { pose proof (memset_start b 0 64 ltac:(lia)) as E.
    rewrite take_ge in E by (rewrite length_memset; lia). done. }
  by rewrite E.
Qed.

Lemma output_bytes hh b out_len :
  length hh = 8%nat → length b = 64%nat → (out_len <= 64)%nat →
  take out_len (fold_left (λ b u, memcpy b (8 * u) (sph_enc64le_aligned (hh @@ u))) (seq 0 8) b) =
  take out_len (concat (sph_enc64le <$> hh)).
Proof.
  intros Hl Hb Ho.
  destruct (write_loop (λ u, sph_enc64le_aligned (hh @@ u)) 8 8 b) as [Hlen E];
    [intros; apply length_le_split|lia|].
  rewrite (take_ge (fold_left _ _ _)) in E by lia. rewrite E. do 2 f_equal.
  do 8 (destruct hh as [|? hh]; [discriminate Hl|]). destruct hh; [|discriminate Hl].
  cbn [seq fmap list_fmap]. by rewrite !enc64le_aligned_eq.
Qed.

Lemma skein_correct cc iv chunks ub n out_len :
  length (buf cc) = 64%nat → length iv = 8%nat → (out_len <= 64)%nat →
  Z.of_nat (length (concat chunks)) + 1 < 2 ^ 64 →
  fst (skein_big_close (fold_left skein_big_core chunks (skein_big_init cc iv)) ub n out_len) =
  skein_spec iv out_len (concat chunks) ub n.
Proof.
  intros Hb Hiv Ho Hlen. set (msg := concat chunks) in *.
  assert (H0 : ctx_at iv [] (skein_big_init cc iv)) by (split; [split; simpl; lia|done]).
  apply (updates_at iv [] _ chunks) in H0; [|done|cbn [app]; fold msg; lia].
  cbn [app] in H0. fold msg in H0. set (sc := fold_left _ _ _) in *.
  unfold skein_big_close. set (sc' := if (n =? 0)%nat then sc else _).
  assert (H1 : ctx_at iv (skein_data msg ub n) sc').
  { unfold sc', skein_data. destruct (n =? 0)%nat; [by rewrite app_nil_r|].
    apply core_at; [done| |done]. rewrite length_app. cbn [length]. lia. }
  assert (Hl : Z.of_nat (length (skein_data msg ub n)) < 2 ^ 64).
  { unfold skein_data. destruct (n =? 0)%nat; rewrite length_app; cbn [length]; lia. }
  pose proof (close_at iv _ sc' (negb (n =? 0)%nat) Hiv Hl H1) as E.
  destruct H1 as [[Hbuf Hptr] _]. cbn [fst].
  replace (if (n =? 0)%nat then 0 else 1) with (Z.b2z (negb (n =? 0)%nat))
    by by destruct (n =? 0)%nat.
  rewrite E. unfold skein_spec. set (hh := ubi_message _ _ _).
  assert (Hhh : length hh = 8%nat) by (apply length_ubi_steps; done).
  rewrite output_block by (done || rewrite length_memset; lia).
  apply output_bytes; [apply length_ubi_block| |done].
  rewrite !length_memset; [done|lia|rewrite length_memset; lia].
Qed.

(** Skein-512-512 over its streaming interface: initialise, update with
    any sequence of chunks, close with [n] extra bits gives the Skein hash of
    the concatenated data (Threefish-512 in UBI chaining with the position,
    type, first, final and bit-pad fields of the tweak, then the output
    block), whatever the context held before; the update keeps a full buffer
    back until more data or the close arrives, so that the last block is the
    one compressed with the final flag. *)
Theorem sph_skein512_correct cc chunks ub n :
  length (buf cc) = 64%nat → Z.of_nat (length (concat chunks)) + 1 < 2 ^ 64 →
  fst (sph_skein512_addbits_and_close
         (fold_left sph_skein512 chunks (sph_skein512_init cc)) ub n) =
  skein_spec IV512 64 (concat chunks) ub n.
Proof.
  intros. rewrite <-(skein_correct cc IV512 chunks ub n 64) by (done || lia).
  unfold sph_skein512_addbits_and_close. by destruct (skein_big_close _ _ _ _).
Qed.

(** [UBI_BIG] is the UBI chaining of Threefish-512. *)
Lemma UBI_BIG_correct b h bc etype extra :
  length h = 8%nat → 0 <= bc → 0 <= extra → 64 * bc + extra < 2 ^ 64 → 0 <= etype < 512 →
  UBI_BIG b h bc etype extra = ubi_block h (64 * bc + extra + 2 ^ 119 * etype) b ∧
  UBI_BIG_small b h bc etype extra = UBI_BIG b h bc etype extra.
Proof. intros. split; [by apply UBI_BIG_ubi|by rewrite UBI_small_eq]. Qed.

(** The initial values are UBI of the configuration block (type 4): the
    string SHA3, version 1, and the digest length in bits. *)
Definition config_block (bits : Z) : list Z :=
  [0x53; 0x48; 0x41; 0x33; 1; 0; 0; 0] ++ le_split 8 bits ++ replicate 48 0.
Definition config_iv (bits : Z) : list Z :=
  ubi_block (replicate 8 0) (ubi_tweak 32 4 true true false) (config_block bits).

(** The tables of initial values. *)
Lemma skein_initial_values :
  IV224 = config_iv 224 ∧ IV256 = config_iv 256 ∧ IV384 = config_iv 384 ∧ IV512 = config_iv 512.
Proof. refine (conj _ (conj _ (conj _ _))); vm_compute; reflexivity. Qed.

(** The two tweak words of a block that ends at byte 2^64 are those of its tweak
    but for the carry of the position into the high word, which is not added. *)
Theorem tweak_carry_lost :
  let bc := 2 ^ 58 - 1 in
  let T := 64 * bc + 64 + 2 ^ 119 * 352 in
  tweak0 bc 64 = T mod 2 ^ 64 ∧ tweak1 bc 352 = T / 2 ^ 64 - 1.
Proof. split; vm_compute; reflexivity. Qed.

End Skein.
