(* ===== verification/SimdFft.v ===== *)
(** The number-theoretic transform of SIMD: the message expansion of
    [src/crypto/x11/simd.c].

    The transform is straight-line code over [s32] values, written with
    additions, shifts, products by table entries and the partial reductions
    [REDS1] and [REDS2].  The arithmetic is a parameter of the model (class
    [Arith]), and the same code runs

    - on the integers, the values the program computes;
    - on [option Z], where an operation whose result does not fit an [s32]
      gives [None];
    - on intervals, to bound every value for every block;
    - on linear forms in the 128 block bytes modulo 257, to find what each
      output computes.

    One simulation lemma ([sim_FFT256]) transports a relation between two
    arithmetics through the code.  A left shift of a negative value multiplies,
    and a right shift of one rounds down, as the supported compilers define
    them. *)
From S2P Require Import Prelude SphTypes.

Module SimdFft.

(** ** Tables *)

Definition alpha_tab : list Z :=
  [1; 41; 139; 45; 46; 87; 226; 14; 60; 147; 116; 130; 190; 80; 196; 69;
   2; 82; 21; 90; 92; 174; 195; 28; 120; 37; 232; 3; 123; 160; 135; 138;
   4; 164; 42; 180; 184; 91; 133; 56; 240; 74; 207; 6; 246; 63; 13; 19;
   8; 71; 84; 103; 111; 182; 9; 112; 223; 148; 157; 12; 235; 126; 26; 38;
   16; 142; 168; 206; 222; 107; 18; 224; 189; 39; 57; 24; 213; 252; 52; 76;
   32; 27; 79; 155; 187; 214; 36; 191; 121; 78; 114; 48; 169; 247; 104; 152;
   64; 54; 158; 53; 117; 171; 72; 125; 242; 156; 228; 96; 81; 237; 208; 47;
   128; 108; 59; 106; 234; 85; 144; 250; 227; 55; 199; 192; 162; 217; 159; 94;
   256; 216; 118; 212; 211; 170; 31; 243; 197; 110; 141; 127; 67; 177; 61; 188;
   255; 175; 236; 167; 165; 83; 62; 229; 137; 220; 25; 254; 134; 97; 122; 119;
   253; 93; 215; 77; 73; 166; 124; 201; 17; 183; 50; 251; 11; 194; 244; 238;
   249; 186; 173; 154; 146; 75; 248; 145; 34; 109; 100; 245; 22; 131; 231; 219;
   241; 115; 89; 51; 35; 150; 239; 33; 68; 218; 200; 233; 44; 5; 205; 181;
   225; 230; 178; 102; 70; 43; 221; 66; 136; 179; 143; 209; 88; 10; 153; 105;
   193; 203; 99; 204; 140; 86; 185; 132; 15; 101; 29; 161; 176; 20; 49; 210;
   129; 149; 198; 151; 23; 172; 113; 7; 30; 202; 58; 65; 95; 40; 98; 163].
Definition yoff_s_n : list Z :=
  [1; 98; 95; 58; 30; 113; 23; 198; 129; 49; 176; 29; 15; 185; 140; 99;
   193; 153; 88; 143; 136; 221; 70; 178; 225; 205; 44; 200; 68; 239; 35; 89;
   241; 231; 22; 100; 34; 248; 146; 173; 249; 244; 11; 50; 17; 124; 73; 215;
   253; 122; 134; 25; 137; 62; 165; 236; 255; 61; 67; 141; 197; 31; 211; 118;
   256; 159; 162; 199; 227; 144; 234; 59; 128; 208; 81; 228; 242; 72; 117; 158;
   64; 104; 169; 114; 121; 36; 187; 79; 32; 52; 213; 57; 189; 18; 222; 168;
   16; 26; 235; 157; 223; 9; 111; 84; 8; 13; 246; 207; 240; 133; 184; 42;
   4; 135; 123; 232; 120; 195; 92; 21; 2; 196; 190; 116; 60; 226; 46; 139].
Definition yoff_s_f : list Z :=
  [2; 156; 118; 107; 45; 212; 111; 162; 97; 249; 211; 3; 49; 101; 151; 223;
   189; 178; 253; 204; 76; 82; 232; 65; 96; 176; 161; 47; 189; 61; 248; 107;
   0; 131; 133; 113; 17; 33; 12; 111; 251; 103; 57; 148; 47; 65; 249; 143;
   189; 8; 204; 230; 205; 151; 187; 227; 247; 111; 140; 6; 77; 10; 21; 149;
   255; 101; 139; 150; 212; 45; 146; 95; 160; 8; 46; 254; 208; 156; 106; 34;
   68; 79; 4; 53; 181; 175; 25; 192; 161; 81; 96; 210; 68; 196; 9; 150;
   0; 126; 124; 144; 240; 224; 245; 146; 6; 154; 200; 109; 210; 192; 8; 114;
   68; 249; 53; 27; 52; 106; 70; 30; 10; 146; 117; 251; 180; 247; 236; 108].
Definition yoff_b_n : list Z :=
  [1; 163; 98; 40; 95; 65; 58; 202; 30; 7; 113; 172; 23; 151; 198; 149;
   129; 210; 49; 20; 176; 161; 29; 101; 15; 132; 185; 86; 140; 204; 99; 203;
   193; 105; 153; 10; 88; 209; 143; 179; 136; 66; 221; 43; 70; 102; 178; 230;
   225; 181; 205; 5; 44; 233; 200; 218; 68; 33; 239; 150; 35; 51; 89; 115;
   241; 219; 231; 131; 22; 245; 100; 109; 34; 145; 248; 75; 146; 154; 173; 186;
   249; 238; 244; 194; 11; 251; 50; 183; 17; 201; 124; 166; 73; 77; 215; 93;
   253; 119; 122; 97; 134; 254; 25; 220; 137; 229; 62; 83; 165; 167; 236; 175;
   255; 188; 61; 177; 67; 127; 141; 110; 197; 243; 31; 170; 211; 212; 118; 216;
   256; 94; 159; 217; 162; 192; 199; 55; 227; 250; 144; 85; 234; 106; 59; 108;
   128; 47; 208; 237; 81; 96; 228; 156; 242; 125; 72; 171; 117; 53; 158; 54;
   64; 152; 104; 247; 169; 48; 114; 78; 121; 191; 36; 214; 187; 155; 79; 27;
   32; 76; 52; 252; 213; 24; 57; 39; 189; 224; 18; 107; 222; 206; 168; 142;
   16; 38; 26; 126; 235; 12; 157; 148; 223; 112; 9; 182; 111; 103; 84; 71;
   8; 19; 13; 63; 246; 6; 207; 74; 240; 56; 133; 91; 184; 180; 42; 164;
   4; 138; 135; 160; 123; 3; 232; 37; 120; 28; 195; 174; 92; 90; 21; 82;
   2; 69; 196; 80; 190; 130; 116; 147; 60; 14; 226; 87; 46; 45; 139; 41].
Definition yoff_b_f : list Z :=
  [2; 203; 156; 47; 118; 214; 107; 106; 45; 93; 212; 20; 111; 73; 162; 251;
   97; 215; 249; 53; 211; 19; 3; 89; 49; 207; 101; 67; 151; 130; 223; 23;
   189; 202; 178; 239; 253; 127; 204; 49; 76; 236; 82; 137; 232; 157; 65; 79;
   96; 161; 176; 130; 161; 30; 47; 9; 189; 247; 61; 226; 248; 90; 107; 64;
   0; 88; 131; 243; 133; 59; 113; 115; 17; 236; 33; 213; 12; 191; 111; 19;
   251; 61; 103; 208; 57; 35; 148; 248; 47; 116; 65; 119; 249; 178; 143; 40;
   189; 129; 8; 163; 204; 227; 230; 196; 205; 122; 151; 45; 187; 19; 227; 72;
   247; 125; 111; 121; 140; 220; 6; 107; 77; 69; 10; 101; 21; 65; 149; 171;
   255; 54; 101; 210; 139; 43; 150; 151; 212; 164; 45; 237; 146; 184; 95; 6;
   160; 42; 8; 204; 46; 238; 254; 168; 208; 50; 156; 190; 106; 127; 34; 234;
   68; 55; 79; 18; 4; 130; 53; 208; 181; 21; 175; 120; 25; 100; 192; 178;
   161; 96; 81; 127; 96; 227; 210; 248; 68; 10; 196; 31; 9; 167; 150; 193;
   0; 169; 126; 14; 124; 198; 144; 142; 240; 21; 224; 44; 245; 66; 146; 238;
   6; 196; 154; 49; 200; 222; 109; 9; 210; 141; 192; 138; 8; 79; 114; 217;
   68; 128; 249; 94; 53; 30; 27; 61; 52; 135; 106; 212; 70; 238; 30; 185;
   10; 132; 146; 136; 117; 37; 251; 150; 180; 188; 247; 156; 236; 192; 108; 86].

(** ** The code *)

Definition REDS1 (x : Z) : Z := Z.land x 0xFF - (x ≫ 8).
Definition REDS2 (x : Z) : Z := Z.land x 0xFFFF + (x ≫ 16).

Class Arith (T : Type) := {
  f_zero : T;
  f_add : T → T → T;
  f_sub : T → T → T;
  f_shl : T → Z → T;
  f_mul : T → Z → T;
  f_reds1 : T → T;
  f_reds2 : T → T }.

Section Code.
  Context {T : Type} `{Arith T}.

(** One butterfly of the loop, on [q[u]] and [q[u + hk]]. *)
Definition butterfly (hk as_ : nat) (q : list T) (u : nat) : list T :=
  let m := nth u q f_zero in
  let n := nth (u + hk) q f_zero in
  let t := f_reds2 (f_mul n (alpha_tab @@ (u * as_))) in
  <[(u + hk)%nat := f_sub m t]> (<[u := f_add m t]> q).

(** [q] is the segment [q[rb .. rb + 2*hk)] of the code.  The first butterfly
    has no product; the loop, unrolled by four and entered at its second
    butterfly, does the others. *)
Definition FFT_LOOP (hk as_ : nat) (q : list T) : list T :=
  let m := nth 0 q f_zero in
  let n := nth hk q f_zero in
  let q := <[hk := f_sub m n]> (<[0%nat := f_add m n]> q) in
  fold_left (butterfly hk as_) (seq 1 (hk - 1)) q.

(** [x] is the byte pointer; the result is [d0..d7]. *)
Definition FFT8 (x : nat → T) (xb xs : nat) : list T :=
  let x0 := x xb in
  let x1 := x (xb + xs)%nat in
  let x2 := x (xb + 2 * xs)%nat in
  let x3 := x (xb + 3 * xs)%nat in
  let a0 := f_add x0 x2 in
  let a1 := f_add x0 (f_shl x2 4) in
  let a2 := f_sub x0 x2 in
  let a3 := f_sub x0 (f_shl x2 4) in
  let b0 := f_add x1 x3 in
  let b1 := f_reds1 (f_add (f_shl x1 2) (f_shl x3 6)) in
  let b2 := f_sub (f_shl x1 4) (f_shl x3 4) in
  let b3 := f_reds1 (f_add (f_shl x1 6) (f_shl x3 2)) in
  [f_add a0 b0; f_add a1 b1; f_add a2 b2; f_add a3 b3;
   f_sub a0 b0; f_sub a1 b1; f_sub a2 b2; f_sub a3 b3].

(** The result is the segment [q[rb .. rb + 16)]. *)
Definition FFT16 (x : nat → T) (xb xs : nat) : list T :=
  let d1 := FFT8 x xb (2 * xs) in
  let d2 := FFT8 x (xb + xs) (2 * xs) in
  let e (i : nat) := if (i =? 0)%nat then nth 0 d2 f_zero
                     else f_shl (nth i d2 f_zero) (Z.of_nat i) in
  ((λ i, f_add (nth i d1 f_zero) (e i)) <$> seq 0 8) ++
  ((λ i, f_sub (nth i d1 f_zero) (e i)) <$> seq 0 8).

Definition FFT32 (x : nat → T) (xb xs : nat) : list T :=
  FFT_LOOP 16 8 (FFT16 x xb (2 * xs) ++ FFT16 x (xb + xs) (2 * xs)).

(** The macro [FFT64] and the function [fft64]. *)
Definition FFT64 (x : nat → T) (xb xs : nat) : list T :=
  FFT_LOOP 32 4 (FFT32 x xb (2 * xs) ++ FFT32 x (xb + xs) (2 * xs)).

Definition FFT128 (x : nat → T) (xb xs : nat) : list T :=
  FFT_LOOP 64 2 (FFT64 x xb (2 * xs) ++ FFT64 x (xb + xs) (2 * xs)).

(** The small-footprint form, over the function [fft32]. *)
Definition FFT128_small (x : nat → T) (xb xs : nat) : list T :=
  let lo := FFT_LOOP 32 4 (FFT32 x (xb + xs * 0) (4 * xs) ++ FFT32 x (xb + xs * 2) (4 * xs)) in
  let hi := FFT_LOOP 32 4 (FFT32 x (xb + xs * 1) (4 * xs) ++ FFT32 x (xb + xs * 3) (4 * xs)) in
  FFT_LOOP 64 2 (lo ++ hi).

Definition FFT256 (x : nat → T) (xb xs : nat) : list T :=
  let lo := FFT_LOOP 64 2 (FFT64 x (xb + xs * 0) (4 * xs) ++ FFT64 x (xb + xs * 2) (4 * xs)) in
  let hi := FFT_LOOP 64 2 (FFT64 x (xb + xs * 1) (4 * xs) ++ FFT64 x (xb + xs * 3) (4 * xs)) in
  FFT_LOOP 128 1 (lo ++ hi).

End Code.

(** The program's own arithmetic. *)
#[export] Instance arith_Z : Arith Z := {|
  f_zero := 0; f_add := Z.add; f_sub := Z.sub; f_shl := Z.shiftl; f_mul := Z.mul;
  f_reds1 := REDS1; f_reds2 := REDS2 |}.

(** The loop body after the transform: [tq = q[i] + yoff[i]], reduced to
    [-128..128]. *)
Definition reduce (tq : Z) : Z :=
  let tq := REDS2 tq in
  let tq := REDS1 tq in
  let tq := REDS1 tq in
  if tq <=? 128 then tq else tq - 257.

Definition add_yoff (yoff q : list Z) : list Z := zip_with (λ q y, reduce (q + y)) q yoff.

(** The expanded message of a block of 128 or of 64 bytes. *)
Definition expand_big (buf : list Z) (last : bool) : list Z :=
  add_yoff (if last then yoff_b_f else yoff_b_n) (FFT256 (at_ buf) 0 1).

Definition expand_small (buf : list Z) (last : bool) : list Z :=
  add_yoff (if last then yoff_s_f else yoff_s_n) (FFT128 (at_ buf) 0 1).

Definition expand_small_footprint (buf : list Z) (last : bool) : list Z :=
  add_yoff (if last then yoff_s_f else yoff_s_n) (FFT128_small (at_ buf) 0 1).

Lemma FFT128_small_eq {T} `{Arith T} (x : nat → T) : FFT128_small x 0 1 = FFT128 x 0 1.
Proof. unfold FFT128_small, FFT128, FFT64. cbn [Nat.add Nat.mul]. reflexivity. Qed.

(** ** Simulation between two arithmetics *)

Class Sim {S T} (A : Arith S) (B : Arith T) (R : S → T → Prop) : Prop := {
  sim_zero : R f_zero f_zero;
  sim_add : ∀ x y x' y', R x x' → R y y' → R (f_add x y) (f_add x' y');
  sim_sub : ∀ x y x' y', R x x' → R y y' → R (f_sub x y) (f_sub x' y');
  sim_shl : ∀ x x' k, 0 <= k → R x x' → R (f_shl x k) (f_shl x' k);
  sim_mul : ∀ x x' c, 0 <= c → R x x' → R (f_mul x c) (f_mul x' c);
  sim_reds1 : ∀ x x', R x x' → R (f_reds1 x) (f_reds1 x');
  sim_reds2 : ∀ x x', R x x' → R (f_reds2 x) (f_reds2 x') }.

Lemma alpha_tab_nonneg i : 0 <= alpha_tab @@ i.
Proof.
  assert (H : words 9 alpha_tab) by (apply (bool_decide_unpack _); vm_compute; exact I).
  apply (words_at 9 alpha_tab i) in H; [apply H|done].
Qed.

Section Simulation.
  Context {S T} {A : Arith S} {B : Arith T} (R : S → T → Prop) `{!Sim A B R}.

Lemma sim_nth q q' i : Forall2 R q q' → R (nth i q f_zero) (nth i q' f_zero).
Proof.
  intros Hq. revert i. induction Hq; intros [|i]; simpl; [apply sim_zero..|done|auto].
Qed.

(** Relates two values computed by the same operations. *)
Ltac sim :=
  repeat first
    [assumption | apply sim_nth | apply sim_add | apply sim_sub | apply sim_reds1
    | apply sim_reds2 | apply sim_shl; [lia|] | apply sim_mul; [apply alpha_tab_nonneg|]].

Lemma sim_butterfly hk as_ q q' u :
  Forall2 R q q' → Forall2 R (butterfly hk as_ q u) (butterfly hk as_ q' u).
Proof. intros. unfold butterfly. apply Forall2_insert; [apply Forall2_insert; [done|]|]; sim. Qed.

Lemma sim_FFT_LOOP hk as_ q q' :
  Forall2 R q q' → Forall2 R (FFT_LOOP hk as_ q) (FFT_LOOP hk as_ q').
Proof.
  intros Hq. unfold FFT_LOOP.
  apply (fold_left_sim (Forall2 R) (λ _, True)); [intros; by apply sim_butterfly|by apply Forall_true|].
  apply Forall2_insert; [apply Forall2_insert; [done|]|]; sim.
Qed.

Context (x : nat → S) (y : nat → T) (Hxy : ∀ i, R (x i) (y i)).

Lemma sim_FFT8 xb xs : Forall2 R (FFT8 x xb xs) (FFT8 y xb xs).
Proof. unfold FFT8. cbv zeta. repeat apply Forall2_cons_2; [sim; apply Hxy..|apply Forall2_nil_2]. Qed.

Lemma sim_FFT16 xb xs : Forall2 R (FFT16 x xb xs) (FFT16 y xb xs).
Proof.
  pose proof (sim_FFT8 xb (2 * xs)) as H1. pose proof (sim_FFT8 (xb + xs) (2 * xs)) as H2.
  unfold FFT16. apply Forall2_app; cbn [seq fmap list_fmap Nat.eqb];
    (repeat apply Forall2_cons_2; [sim..|apply Forall2_nil_2]).
Qed.

Lemma sim_FFT32 xb xs : Forall2 R (FFT32 x xb xs) (FFT32 y xb xs).
Proof. apply sim_FFT_LOOP, Forall2_app; apply sim_FFT16. Qed.

Lemma sim_FFT64 xb xs : Forall2 R (FFT64 x xb xs) (FFT64 y xb xs).
Proof. apply sim_FFT_LOOP, Forall2_app; apply sim_FFT32. Qed.

Lemma sim_FFT128 xb xs : Forall2 R (FFT128 x xb xs) (FFT128 y xb xs).
Proof. apply sim_FFT_LOOP, Forall2_app; apply sim_FFT64. Qed.

Lemma sim_FFT256 xb xs : Forall2 R (FFT256 x xb xs) (FFT256 y xb xs).
Proof.
  apply sim_FFT_LOOP, Forall2_app; apply sim_FFT_LOOP, Forall2_app; apply sim_FFT64.
Qed.

End Simulation.

(** ** No signed overflow *)

Definition s32 (z : Z) : bool := (- 2 ^ 31 <=? z) && (z <? 2 ^ 31).

(** [s32] arithmetic that stops at an overflow. *)
Definition checked (z : Z) : option Z := if s32 z then Some z else None.
Definition lift1 (f : Z → Z) (x : option Z) : option Z := x ≫= λ x, checked (f x).
Definition lift2 (f : Z → Z → Z) (x y : option Z) : option Z :=
  x ≫= λ x, y ≫= λ y, checked (f x y).

#[export] Instance arith_checked : Arith (option Z) := {|
  f_zero := Some 0; f_add := lift2 Z.add; f_sub := lift2 Z.sub;
  f_shl x k := lift1 (λ x, Z.shiftl x k) x; f_mul x c := lift1 (λ x, x * c) x;
  f_reds1 := lift1 REDS1; f_reds2 := lift1 REDS2 |}.

(** Intervals inside [s32]. *)
Definition ival (lo hi : Z) : option (Z * Z) :=
  if s32 lo && s32 hi then Some (lo, hi) else None.
Definition iv1 (f : Z * Z → Z * Z) (x : option (Z * Z)) : option (Z * Z) :=
  x ≫= λ x, ival (f x).1 (f x).2.
Definition iv2 (f : Z * Z → Z * Z → Z * Z) (x y : option (Z * Z)) : option (Z * Z) :=
  x ≫= λ x, y ≫= λ y, ival (f x y).1 (f x y).2.

#[export] Instance arith_interval : Arith (option (Z * Z)) := {|
  f_zero := Some (0, 0);
  f_add := iv2 (λ x y, (x.1 + y.1, x.2 + y.2));
  f_sub := iv2 (λ x y, (x.1 - y.2, x.2 - y.1));
  f_shl x k := iv1 (λ x, (x.1 * 2 ^ k, x.2 * 2 ^ k)) x;
  f_mul x c := iv1 (λ x, (x.1 * c, x.2 * c)) x;
  f_reds1 := iv1 (λ x, (- (x.2 / 256), 255 - x.1 / 256));
  f_reds2 := iv1 (λ x, (x.1 / 65536, 65535 + x.2 / 65536)) |}.

Lemma REDS1_value x : REDS1 x = x mod 256 - x / 256.
Proof.
  unfold REDS1. change 0xFF with (Z.ones 8). by rewrite Z.land_ones, Z.shiftr_div_pow2.
Qed.

Lemma REDS2_value x : REDS2 x = x mod 65536 + x / 65536.
Proof.
  unfold REDS2. change 0xFFFF with (Z.ones 16). by rewrite Z.land_ones, Z.shiftr_div_pow2.
Qed.

(** The two relations: a checked value is the value when there is one, and it
    lies in its interval, when there is one. *)
Definition exact (z : Z) (c : option Z) : Prop := c = Some z ∨ c = None.
Definition inside (c : option Z) (i : option (Z * Z)) : Prop :=
  match i with
  | Some (lo, hi) => ∃ z, c = Some z ∧ lo <= z <= hi ∧ s32 lo ∧ s32 hi
  | None => True
  end.

#[export] Instance sim_exact : Sim arith_Z arith_checked exact.
Proof.
  split; unfold exact; intros; simpl;
    repeat match goal with H : _ ∨ _ |- _ => destruct H as [->| ->] end; simpl; auto;
    unfold checked; (destruct (s32 _)); auto.
Qed.

Lemma s32_iff z : s32 z ↔ - 2 ^ 31 <= z < 2 ^ 31.
Proof. unfold s32. rewrite andb_True, !Is_true_true, Z.leb_le, Z.ltb_lt. done. Qed.

Lemma inside_checked z lo hi :
  lo <= z <= hi → inside (checked z) (ival lo hi).
Proof.
  intros Hz. unfold ival. destruct (s32 lo && s32 hi) eqn:E; [|done].
  apply andb_true_iff in E as [E1 E2]. exists z. unfold checked.
  apply Is_true_true in E1, E2. assert (E3 : s32 z) by (rewrite s32_iff in *; lia).
  apply Is_true_true in E3. rewrite E3. apply Is_true_true in E3. auto.
Qed.

Lemma inside_2 f g c c' i i' :
  (∀ a b l h l' h', l <= a <= h → l' <= b <= h' →
    (g (l, h) (l', h')).1 <= f a b <= (g (l, h) (l', h')).2) →
  inside c i → inside c' i' → inside (lift2 f c c') (iv2 g i i').
Proof.
  intros Hf Hi Hi'. destruct i as [[l h]|], i' as [[l' h']|]; try done.
  destruct Hi as (a & -> & Ha & _), Hi' as (b & -> & Hb & _).
  by apply inside_checked, Hf.
Qed.

Lemma inside_1 f g c i :
  (∀ a l h, l <= a <= h → (g (l, h)).1 <= f a <= (g (l, h)).2) →
  inside c i → inside (lift1 f c) (iv1 g i).
Proof.
  intros Hf Hi. destruct i as [[l h]|]; [|done]. destruct Hi as (a & -> & Ha & _).
  by apply inside_checked, Hf.
Qed.

#[export] Instance sim_inside : Sim arith_checked arith_interval inside.
Proof.
  split.
  - exists 0. repeat split; lia || done.
  - intros. apply inside_2; [simpl; lia|done..].
  - intros. apply inside_2; [simpl; lia|done..].
  - intros x x' k Hk. apply inside_1. intros a l h Ha. simpl. rewrite Z.shiftl_mul_pow2 by done. nia.
  - intros x x' c Hc. apply inside_1. intros a l h Ha. simpl. nia.
  - intros x x'. apply inside_1. intros a l h Ha. simpl. rewrite REDS1_value.
    pose proof (Z.mod_pos_bound a 256). pose proof (Z.div_le_mono l a 256).
    pose proof (Z.div_le_mono a h 256). lia.
  - intros x x'. apply inside_1. intros a l h Ha. simpl. rewrite REDS2_value.
    pose proof (Z.mod_pos_bound a 65536). pose proof (Z.div_le_mono l a 65536).
    pose proof (Z.div_le_mono a h 65536). lia.
Qed.

Definition within_ (B : Z) (i : option (Z * Z)) : bool :=
  match i with Some (lo, hi) => (- B <=? lo) && (hi <=? B) | None => false end.

Lemma checked_run B zq cq iq :
  Forall2 exact zq cq → Forall2 inside cq iq → forallb (within_ B) iq = true →
  cq = Some <$> zq ∧ Forall (λ z, Z.abs z <= B) zq.
Proof.
  intros Hz. revert iq. induction Hz as [|z c zq cq Hc Hz IH]; intros iq Hi Hb.
  - inversion Hi. split; [done|constructor].
  - inversion Hi as [|? i ? iq' Hin Hi']; subst. simpl in Hb. apply andb_true_iff in Hb as [Hb Hbs].
    destruct (IH _ Hi' Hbs) as [-> HB]. destruct i as [[lo hi]|]; [|done].
    destruct Hin as (z' & -> & Hz' & _). destruct Hc as [[= ->]|?]; [|done].
    split; [done|]. apply Forall_cons; [|done]. simpl in Hb.
    apply andb_true_iff in Hb as [?%Z.leb_le ?%Z.leb_le]. lia.
Qed.

(** The pointers of the three runs. *)
Definition checked_bytes (buf : list Z) (i : nat) : option Z := Some (buf @@ i).
Definition any_byte (i : nat) : option (Z * Z) := Some (0, 255).

Lemma exact_bytes buf i : exact (at_ buf i) (checked_bytes buf i).
Proof. by left. Qed.

Lemma inside_bytes buf i : bytes buf → inside (checked_bytes buf i) (any_byte i).
Proof.
  intros H. apply (words_at 8 buf i ltac:(lia)) in H. unfold word in H. simpl.
  exists (buf @@ i). repeat split; lia || done.
Qed.

Section Ranges.
  Context (buf : list Z) (Hb : bytes buf).

Lemma FFT256_checked :
  FFT256 (checked_bytes buf) 0 1 = Some <$> FFT256 (at_ buf) 0 1 ∧
  Forall (λ z, Z.abs z <= 9467568) (FFT256 (at_ buf) 0 1).
Proof.
  apply (checked_run _ _ _ (FFT256 any_byte 0 1)).
  - apply sim_FFT256; [apply sim_exact|apply exact_bytes].
  - apply sim_FFT256; [apply sim_inside|intros; by apply inside_bytes].
  - vm_compute. reflexivity.
Qed.

Lemma FFT128_checked :
  FFT128 (checked_bytes buf) 0 1 = Some <$> FFT128 (at_ buf) 0 1 ∧
  Forall (λ z, Z.abs z <= 4733784) (FFT128 (at_ buf) 0 1).
Proof.
  apply (checked_run _ _ _ (FFT128 any_byte 0 1)).
  - apply sim_FFT128; [apply sim_exact|apply exact_bytes].
  - apply sim_FFT128; [apply sim_inside|intros; by apply inside_bytes].
  - vm_compute. reflexivity.
Qed.

Lemma FFT64_checked xb xs : Forall (λ z, Z.abs z <= 2366892) (FFT64 (at_ buf) xb xs).
Proof.
  apply (checked_run _ _ (FFT64 (checked_bytes buf) xb xs) (FFT64 any_byte xb xs)).
  - apply sim_FFT64; [apply sim_exact|apply exact_bytes].
  - apply sim_FFT64; [apply sim_inside|intros; by apply inside_bytes].
  - vm_compute. reflexivity.
Qed.

Lemma FFT32_checked xb xs : Forall (λ z, Z.abs z <= 1183446) (FFT32 (at_ buf) xb xs).
Proof.
  apply (checked_run _ _ (FFT32 (checked_bytes buf) xb xs) (FFT32 any_byte xb xs)).
  - apply sim_FFT32; [apply sim_exact|apply exact_bytes].
  - apply sim_FFT32; [apply sim_inside|intros; by apply inside_bytes].
  - vm_compute. reflexivity.
Qed.

End Ranges.

(** C40: No operation of the transforms [FFT256] and [FFT128] leaves the range
    of a signed 32-bit integer, for any block of bytes: the run with every
    intermediate result checked succeeds and gives the same values. The ranges
    the comments of simd.c give for the results of [FFT32] to [FFT256] hold.
    *)
Theorem FFT_no_overflow buf :
  bytes buf →
  FFT256 (checked_bytes buf) 0 1 = Some <$> FFT256 (at_ buf) 0 1 ∧
  FFT128 (checked_bytes buf) 0 1 = Some <$> FFT128 (at_ buf) 0 1 ∧
  Forall (λ z, Z.abs z <= 9467568) (FFT256 (at_ buf) 0 1) ∧
  Forall (λ z, Z.abs z <= 4733784) (FFT128 (at_ buf) 0 1) ∧
  (∀ xb xs, Forall (λ z, Z.abs z <= 2366892) (FFT64 (at_ buf) xb xs)) ∧
  (∀ xb xs, Forall (λ z, Z.abs z <= 1183446) (FFT32 (at_ buf) xb xs)).
Proof.
  intros Hb. destruct (FFT256_checked buf Hb), (FFT128_checked buf Hb).
  repeat split; auto using FFT64_checked, FFT32_checked.
Qed.

Lemma FFT_no_overflow_witness :
  let buf := replicate 128 255 in
  FFT256 (checked_bytes buf) 0 1 = Some <$> FFT256 (at_ buf) 0 1.
Proof.
  refine (proj1 (FFT_no_overflow (replicate 128 255) _)).
  apply (bool_decide_unpack _). vm_compute. exact I.
Defined.

(** ** What the transform computes *)

(** The value at [w ^ i] of the polynomial with the coefficients [X], the first
    of degree [j]. *)
Fixpoint eval_from (w : Z) (i j : nat) (X : list Z) : Z :=
  match X with
  | [] => 0
  | a :: X => a * w ^ Z.of_nat (i * j) + eval_from w i (S j) X
  end.

(** The transform of [X] with the root [w], at [i]: the sum of
    [X_j * w ^ (i * j)] over [j]. *)
Definition ntt (w : Z) (X : list Z) (i : nat) : Z := eval_from w i 0 X.

(** A linear form in the bytes of the block, as its list of coefficients. *)
Fixpoint dot (l x : list Z) : Z :=
  match l, x with a :: l, b :: x => a * b + dot l x | _, _ => 0 end.

Section Forms.
  Context (N : nat).

#[export] Instance arith_form : Arith (list Z) := {|
  f_zero := replicate N 0;
  f_add := zip_with (λ a b, (a + b) mod 257);
  f_sub := zip_with (λ a b, (a - b) mod 257);
  f_shl l k := (λ a, (a * 2 ^ k) mod 257) <$> l;
  f_mul l c := (λ a, (a * c) mod 257) <$> l;
  f_reds1 l := l;
  f_reds2 l := l |}.

Context (buf : list Z).

Definition computes (z : Z) (l : list Z) : Prop :=
  length l = N ∧ z mod 257 = dot l buf mod 257.

Lemma dot_zip (f : Z → Z → Z) l k :
  (f = Z.add ∨ f = Z.sub) → length l = length k →
  dot (zip_with (λ a b, f a b mod 257) l k) buf mod 257 = f (dot l buf) (dot k buf) mod 257.
Proof.
  intros Hf. revert k buf. induction l as [|a l IH]; intros [|b k] x Hl; try done.
  - by destruct Hf; subst.
  - destruct x as [|c x]; [by destruct Hf; subst|]. simpl. injection Hl as Hl.
    rewrite <-Z.add_mod_idemp_r, IH, Z.add_mod_idemp_r by done.
    rewrite <-Z.add_mod_idemp_l, Z.mul_mod_idemp_l, Z.add_mod_idemp_l by done.
    f_equal. destruct Hf; subst; lia.
Qed.

Lemma dot_scale c l : dot ((λ a, (a * c) mod 257) <$> l) buf mod 257 = dot l buf * c mod 257.
Proof.
  revert buf. induction l as [|a l IH]; intros [|b x]; try done. simpl.
  rewrite <-Z.add_mod_idemp_r, IH, Z.add_mod_idemp_r by done.
  rewrite <-Z.add_mod_idemp_l, Z.mul_mod_idemp_l, Z.add_mod_idemp_l by done. f_equal. lia.
Qed.

Lemma REDS1_mod x : REDS1 x mod 257 = x mod 257.
Proof.
  rewrite REDS1_value. rewrite <-(Z_mod_plus_full (x mod 256 - x / 256) (x / 256) 257).
  f_equal. pose proof (Z.div_mod x 256). lia.
Qed.

Lemma REDS2_mod x : REDS2 x mod 257 = x mod 257.
Proof.
  rewrite REDS2_value. rewrite <-(Z_mod_plus_full (x mod 65536 + x / 65536) (255 * (x / 65536)) 257).
  f_equal. pose proof (Z.div_mod x 65536). lia.
Qed.

#[export] Instance sim_computes : Sim arith_Z arith_form computes.
Proof.
  split; unfold computes; simpl.
  - split; [apply length_replicate|]. f_equal. clear. revert buf.
    induction N as [|k IH]; intros [|b x]; simpl; [done..|]. by rewrite <-IH.
  - intros x y x' y' [Hl H1] [Hl' H2]. split; [rewrite length_zip_with; lia|].
    rewrite (dot_zip Z.add) by (auto; congruence).
    by rewrite Z.add_mod, H1, H2, <-Z.add_mod.
  - intros x y x' y' [Hl H1] [Hl' H2]. split; [rewrite length_zip_with; lia|].
    rewrite (dot_zip Z.sub) by (auto; congruence).
    by rewrite Zminus_mod, H1, H2, <-Zminus_mod.
  - intros x x' k Hk [Hl H1]. split; [by rewrite length_fmap|].
    rewrite dot_scale, Z.shiftl_mul_pow2 by done. by rewrite Z.mul_mod, H1, <-Z.mul_mod.
  - intros x x' c Hc [Hl H1]. split; [by rewrite length_fmap|].
    rewrite dot_scale. by rewrite Z.mul_mod, H1, <-Z.mul_mod.
  - intros x x' [Hl H1]. split; [done|]. by rewrite REDS1_mod.
  - intros x x' [Hl H1]. split; [done|]. by rewrite REDS2_mod.
Qed.

(** The form that selects byte [i]. *)
Definition unit_form (i : nat) : list Z := (λ j, if (j =? i)%nat then 1 else 0) <$> seq 0 N.

Lemma dot_unit_past k m i x :
  (i < m)%nat → dot ((λ j, if (j =? i)%nat then 1 else 0) <$> seq m k) x = 0.
Proof.
  revert m x. induction k as [|k IH]; intros m [|b x] Hm; [done..|]. simpl.
  destruct (Nat.eqb_spec m i); [lia|]. rewrite IH by lia. done.
Qed.

Lemma dot_unit k m i x :
  (m <= i)%nat → length x = k →
  dot ((λ j, if (j =? i)%nat then 1 else 0) <$> seq m k) x = x @@ (i - m).
Proof.
  revert m x. induction k as [|k IH]; intros m [|b x] Hm Hx; try done.
  - by destruct (i - m)%nat.
  - injection Hx as Hx. simpl. destruct (Nat.eqb_spec m i) as [->|Hne].
    + rewrite dot_unit_past, Nat.sub_diag by lia. rewrite Z.mul_1_l. apply Z.add_0_r.
    + rewrite IH by (done || lia). by replace (i - m)%nat with (S (i - S m)) by lia.
Qed.

Lemma computes_bytes i : length buf = N → computes (at_ buf i) (unit_form i).
Proof.
  intros Hl. split; [unfold unit_form; by rewrite length_fmap, length_seq|].
  unfold unit_form. rewrite dot_unit by (done || lia). by rewrite Nat.sub_0_r.
Qed.

End Forms.

(** Powers of the root, as the table has them. *)
Lemma alpha_power k : 41 ^ Z.of_nat k mod 257 = alpha_tab @@ (k mod 256).
Proof.
  assert (H : ∀ b q, b mod 257 = 1 → b ^ Z.of_nat q mod 257 = 1).
  { intros b q Hb. induction q as [|q IH]; [done|]. rewrite Nat2Z.inj_succ, Z.pow_succ_r by lia.
    by rewrite Z.mul_mod, IH, Hb by done. }
  assert (T : alpha_tab = (λ i, 41 ^ Z.of_nat i mod 257) <$> seq 0 256) by (vm_compute; reflexivity).
  rewrite T, at_fmap_seq by (apply Nat.mod_upper_bound; lia).
  rewrite (Nat.div_mod_eq k 256) at 1.
  rewrite Nat2Z.inj_add, Nat2Z.inj_mul, Z.pow_add_r, Z.pow_mul_r by lia.
  rewrite Z.mul_mod, H, Z.mul_1_l, Z.mod_mod by done. done.
Qed.

(** [41 ^ (r * i * j)], with the exponent reduced in binary. *)
Definition root_power (r i j : nat) : Z :=
  alpha_tab @@ Z.to_nat ((Z.of_nat r * (Z.of_nat i * Z.of_nat j)) mod 256).

Lemma root_power_mod r i j : root_power r i j = (41 ^ Z.of_nat r) ^ Z.of_nat (i * j) mod 257.
Proof.
  rewrite <-Z.pow_mul_r, <-Nat2Z.inj_mul, alpha_power by lia. unfold root_power. f_equal.
  rewrite <-!Nat2Z.inj_mul. change 256 with (Z.of_nat 256). rewrite <-Nat2Z.inj_mod. apply Nat2Z.id.
Qed.

(** The coefficients of output [i] of the transform with the root [41 ^ r]. *)
Definition coefficients (r n i : nat) : list Z :=
  (λ j, root_power r i j) <$> seq 0 n.

Lemma dot_eval r i k m x :
  length x = k →
  dot ((λ j, root_power r i j) <$> seq m k) x mod 257 =
  eval_from (41 ^ Z.of_nat r) i m x mod 257.
Proof.
  revert m x. induction k as [|k IH]; intros m [|b x] Hx; try done. injection Hx as Hx.
  cbn [seq fmap list_fmap dot eval_from]. rewrite Z.add_mod, IH, <-Z.add_mod by done.
  rewrite <-Z.add_mod_idemp_l, root_power_mod, Z.mul_mod_idemp_l, Z.add_mod_idemp_l by done.
  f_equal. lia.
Qed.

Lemma ntt_coefficients r buf i :
  dot (coefficients r (length buf) i) buf mod 257 = ntt (41 ^ Z.of_nat r) buf i mod 257.
Proof. by apply dot_eval. Qed.

Lemma forms_ntt r n N buf q fq i :
  length buf = N → Forall2 (computes N buf) q fq → fq = coefficients r N <$> seq 0 n → (i < n)%nat →
  (q @@ i) mod 257 = ntt (41 ^ Z.of_nat r) buf i mod 257.
Proof.
  intros Hl Hq Hf Hi. rewrite <-ntt_coefficients, Hl.
  destruct (Forall2_lookup_r _ _ _ i (coefficients r N i) Hq) as (z & Hz & _ & Hc).
  - by rewrite Hf, list_lookup_fmap, lookup_seq_lt.
  - by rewrite (at_lookup _ _ _ Hz).
Qed.

Lemma FFT256_ntt buf i :
  length buf = 128%nat → (i < 256)%nat →
  (FFT256 (at_ buf) 0 1 @@ i) mod 257 = ntt 41 buf i mod 257.
Proof.
  intros Hl Hi.
  apply (forms_ntt 1 256 128 buf _ (@FFT256 _ (arith_form 128) (unit_form 128) 0 1)); [done| | |done].
  - apply sim_FFT256; [apply sim_computes|intros; by apply computes_bytes].
  - vm_compute. reflexivity.
Qed.

Lemma FFT128_ntt buf i :
  length buf = 64%nat → (i < 128)%nat →
  (FFT128 (at_ buf) 0 1 @@ i) mod 257 = ntt (41 ^ 2) buf i mod 257.
Proof.
  intros Hl Hi.
  apply (forms_ntt 2 128 64 buf _ (@FFT128 _ (arith_form 64) (unit_form 64) 0 1)); [done| | |done].
  - apply sim_FFT128; [apply sim_computes|intros; by apply computes_bytes].
  - vm_compute. reflexivity.
Qed.

(** The representative in [-128..128]. *)
Definition centered (y : Z) : Z := let r := y mod 257 in if r <=? 128 then r else r - 257.

Lemma centered_mod x y : x mod 257 = y mod 257 → centered x = centered y.
Proof. unfold centered. by intros ->. Qed.

Lemma reduce_centered x : Z.abs x <= 10000000 → reduce x = centered x.
Proof.
  intros Hx. unfold reduce, centered. cbv zeta.
  set (y := REDS1 (REDS1 (REDS2 x))).
  assert (Hm : y mod 257 = x mod 257) by (subst y; by rewrite !REDS1_mod, REDS2_mod).
  assert (Hy : -1 <= y <= 256).
  { subst y. rewrite !REDS1_value, REDS2_value.
    pose proof (Z.mod_pos_bound x 65536). assert (-153 <= x / 65536 <= 152) by (split; [apply Z.div_le_lower_bound|apply Z.lt_succ_r, Z.div_lt_upper_bound]; lia).
    set (a := x mod 65536 + x / 65536). assert (Ha : -153 <= a <= 65687) by lia. clearbody a.
    pose proof (Z.mod_pos_bound a 256). pose proof (Z.div_mod a 256).
    assert (-1 <= a / 256 <= 256) by lia.
    set (c := a mod 256 - a / 256). assert (Hc : -256 <= c <= 256) by lia. clearbody c.
    pose proof (Z.mod_pos_bound c 256). pose proof (Z.div_mod c 256). lia. }
  rewrite <-Hm. destruct (Z.leb_spec y 128).
  - destruct (decide (y = -1)) as [->|]; [done|]. rewrite Z.mod_small by lia.
    destruct (Z.leb_spec y 128); lia.
  - rewrite Z.mod_small by lia. destruct (Z.leb_spec y 128); lia.
Qed.

(** The block as SIMD pads it before the transform: zeros, a one in the last
    position and, for the last block, a one two positions before it. *)
Definition ntt_input (buf : list Z) (last : bool) : list Z :=
  buf ++ replicate (length buf - 3) 0 ++ [if last then 1 else 0; 0; 1].

Lemma eval_app w i j x y :
  eval_from w i j (x ++ y) = eval_from w i j x + eval_from w i (j + length x) y.
Proof.
  revert j. induction x as [|a x IH]; intros j; simpl; [by rewrite Nat.add_0_r|].
  rewrite IH. replace (S j + length x)%nat with (j + S (length x))%nat by lia. lia.
Qed.

Lemma eval_zeros w i j n : eval_from w i j (replicate n 0) = 0.
Proof. revert j. induction n as [|n IH]; intros j; simpl; [done|]. rewrite IH. lia. Qed.

(** What the padding adds to output [i]. *)
Definition offset (w : Z) (n : nat) (last : bool) (i : nat) : Z :=
  w ^ Z.of_nat (i * (2 * n - 1)) + if last then w ^ Z.of_nat (i * (2 * n - 3)) else 0.

Lemma ntt_padded w buf last i :
  (3 <= length buf)%nat →
  ntt w (ntt_input buf last) i = ntt w buf i + offset w (length buf) last i.
Proof.
  intros. unfold ntt, ntt_input, offset. rewrite !eval_app, eval_zeros, length_replicate.
  replace (0 + length buf + (length buf - 3))%nat with (2 * length buf - 3)%nat by lia.
  cbn [eval_from]. replace (S (S (2 * length buf - 3))) with (2 * length buf - 1)%nat by lia.
  destruct last; lia.
Qed.

(** The offset tables hold the contributions of the padding. *)
Definition offset_row (r n : nat) (last : bool) (i : nat) : Z :=
  (root_power r i (2 * n - 1) + if last then root_power r i (2 * n - 3) else 0) mod 257.

Lemma offset_row_mod r n last i : offset_row r n last i = offset (41 ^ Z.of_nat r) n last i mod 257.
Proof.
  unfold offset_row, offset. rewrite !root_power_mod. destruct last.
  - by rewrite <-Z.add_mod.
  - by rewrite Z.add_mod_idemp_l.
Qed.

Lemma yoff_tables (last : bool) :
  (if last then yoff_b_f else yoff_b_n) = offset_row 1 128 last <$> seq 0 256 ∧
  (if last then yoff_s_f else yoff_s_n) = offset_row 2 64 last <$> seq 0 128.
Proof. destruct last; split; vm_compute; reflexivity. Qed.

Lemma add_yoff_at r n m last q buf i :
  let w := 41 ^ Z.of_nat r in
  length buf = m → (3 <= m)%nat → length q = n → (i < n)%nat → Forall (λ z, Z.abs z <= 9467568) q →
  (q @@ i) mod 257 = ntt w buf i mod 257 →
  add_yoff (offset_row r m last <$> seq 0 n) q @@ i =
  centered (ntt w (ntt_input buf last) i).
Proof.
  intros w <- Hb Hl Hi Hq Hm. unfold add_yoff.
  assert (Hqi : q !! i = Some (q @@ i)) by (apply lookup_at; lia).
  rewrite (at_lookup _ i (reduce (q @@ i + offset_row r (length buf) last i))).
  - rewrite reduce_centered.
    + apply centered_mod. rewrite ntt_padded, offset_row_mod by done.
      by rewrite Z.add_mod_idemp_r, Z.add_mod, Hm, <-Z.add_mod by done.
    + apply (Forall_lookup_1 _ _ _ _ Hq) in Hqi.
      pose proof (offset_row_mod r (length buf) last i) as E.
      pose proof (Z.mod_pos_bound (offset w (length buf) last i) 257 ltac:(lia)). fold w in E. lia.
  - rewrite lookup_zip_with, Hqi, list_lookup_fmap, lookup_seq_lt by done. done.
Qed.

#[local] Opaque FFT256 FFT128 alpha_tab yoff_b_n yoff_b_f yoff_s_n yoff_s_f offset_row.

Lemma length_FFT256 buf : length (FFT256 (at_ buf) 0 1) = 256%nat.
Proof.
  rewrite (Forall2_length (sim_FFT256 exact (at_ buf) (checked_bytes buf) (exact_bytes buf) 0 1)).
  vm_compute. reflexivity.
Qed.

Lemma length_FFT128 buf : length (FFT128 (at_ buf) 0 1) = 128%nat.
Proof.
  rewrite (Forall2_length (sim_FFT128 exact (at_ buf) (checked_bytes buf) (exact_bytes buf) 0 1)).
  vm_compute. reflexivity.
Qed.

(** The expanded message SIMD defines. *)
Definition expanded (w : Z) (n : nat) (buf : list Z) (last : bool) : list Z :=
  (λ i, centered (ntt w (ntt_input buf last) i)) <$> seq 0 n.

Lemma expand_big_ntt buf last :
  bytes buf → length buf = 128%nat → expand_big buf last = expanded 41 256 buf last.
Proof.
  intros Hb Hl. destruct (FFT256_checked buf Hb) as [_ HB]. unfold expand_big.
  rewrite (proj1 (yoff_tables last)). apply at_ext.
  - unfold add_yoff. rewrite length_zip_with, length_FFT256, !length_fmap, !length_seq. done.
  - intros i Hi. unfold add_yoff in Hi. rewrite length_zip_with, length_FFT256 in Hi.
    unfold expanded. rewrite at_fmap_seq by lia.
    apply (add_yoff_at 1 256 128); [done|lia|apply length_FFT256|lia|done|].
    apply FFT256_ntt; [done|lia].
Qed.

Lemma expand_small_ntt buf last :
  bytes buf → length buf = 64%nat → expand_small buf last = expanded (41 ^ 2) 128 buf last.
Proof.
  intros Hb Hl. destruct (FFT128_checked buf Hb) as [_ HB]. unfold expand_small.
  rewrite (proj2 (yoff_tables last)). apply at_ext.
  - unfold add_yoff. rewrite length_zip_with, length_FFT128, !length_fmap, !length_seq. done.
  - intros i Hi. unfold add_yoff in Hi. rewrite length_zip_with, length_FFT128 in Hi.
    unfold expanded. rewrite at_fmap_seq by lia.
    apply (add_yoff_at 2 128 64); [done|lia|apply length_FFT128|lia| |].
    + revert HB. apply Forall_impl. intros z Hz. lia.
    + apply FFT128_ntt; [done|lia].
Qed.

(** The message expansion of simd.c (the recursive transform with its
    [alpha_tab], the offset tables and the partial reductions) computes the
    number-theoretic transform modulo 257 of the block, at the powers of 41,
    plus the offsets of the last or an earlier block, reduced to the centered
    representative; the small-footprint transform computes the same. *)
Theorem expand_correct buf last :
  bytes buf →
  (length buf = 128%nat → expand_big buf last = expanded 41 256 buf last) ∧
  (length buf = 64%nat → expand_small buf last = expanded (41 ^ 2) 128 buf last ∧
    expand_small_footprint buf last = expand_small buf last).
Proof.
  intros Hb. split; [exact (expand_big_ntt buf last Hb)|].
  intros Hl. split; [exact (expand_small_ntt buf last Hb Hl)|].
  unfold expand_small_footprint, expand_small. rewrite FFT128_small_eq. reflexivity.
Qed.

End SimdFft.
