(* ===== verification/Simd.v ===== *)
(** SIMD-224/256/384/512: [src/crypto/x11/simd.c].

    The message expansion is in [SimdFft]; here are the Feistel steps, the
    compression functions [compress_small] (4 lanes, 64-byte blocks) and
    [compress_big] (8 lanes, 128-byte blocks) in their default and
    small-footprint forms, and the streaming interface.  The two sizes are
    written out twice in the source; the model has one definition over the
    number of lanes and the tables.

    [sph_simd512_correct] states what the interface computes for messages of
    fewer than 4096 blocks; [encode_count_big_value] says what the length field
    is in general, which from 4096 blocks on is not the length of the
    message. *)
From S2P Require Import Prelude SphTypes Stream Padding SimdFft.

Module Simd.
Import SimdFft.

(** ** Tables *)

Definition IV224 : list Z :=
  [0x33586E9F; 0x12FFF033; 0xB2D9F64D; 0x6F8FEA53; 0xDE943106; 0x2742E439; 0x4FBAB5AC; 0x62B9FF96;
   0x22E7B0AF; 0xC862B3A8; 0x33E00CDC; 0x236B86A6; 0xF64AE77C; 0xFA373B76; 0x7DC1EE5B; 0x7FB29CE8].
Definition IV256 : list Z :=
  [0x4D567983; 0x07190BA9; 0x8474577B; 0x39D726E9; 0xAAF3D925; 0x3EE20B03; 0xAFD5E751; 0xC96006D3;
   0xC2C2BA14; 0x49B3BCB4; 0xF67CAF46; 0x668626C9; 0xE2EAA8D2; 0x1FF47833; 0xD0C661A5; 0x55693DE1].
Definition IV384 : list Z :=
  [0x8A36EEBC; 0x94A3BD90; 0xD1537B83; 0xB25B070B; 0xF463F1B5; 0xB6F81E20; 0x0055C339; 0xB4D144D1;
   0x7360CA61; 0x18361A03; 0x17DCB4B9; 0x3414C45A; 0xA699A9D2; 0xE39E9664; 0x468BFE77; 0x51D062F8;
   0xB9E3BFE8; 0x63BECE2A; 0x8FE506B9; 0xF8CC4AC2; 0x7AE11542; 0xB1AADDA1; 0x64B06794; 0x28D2F462;
   0xE64071EC; 0x1DEB91A8; 0x8AC8DB23; 0x3F782AB5; 0x039B5CB8; 0x71DDD962; 0xFADE2CEA; 0x1416DF71].
Definition IV512 : list Z :=
  [0x0BA16B95; 0x72F999AD; 0x9FECC2AE; 0xBA3264FC; 0x5E894929; 0x8E9F30E5; 0x2F1DAA37; 0xF0F2C558;
   0xAC506643; 0xA90635A5; 0xE25B878B; 0xAAB7878F; 0x88817F7A; 0x0A02892B; 0x559A7550; 0x598F657E;
   0x7EEF60A1; 0x6B70E3E8; 0x9C1714D1; 0xB958E2A8; 0xAB02675E; 0xED1C014F; 0xCD8D65BB; 0xFDB7A257;
   0x09254899; 0xD699C7BC; 0x9019B6DC; 0x2B9022E4; 0x8FA14956; 0x21BF9BD3; 0xB94D0943; 0x6FFDDC22].

(** The arguments [sb, o1, o2, mm] of [WS_i_j] and [WB_i_j]. *)
Definition WS : list (list (Z * Z * Z * Z)) :=
  [[(4, 0, 1, 185); (6, 0, 1, 185); (0, 0, 1, 185); (2, 0, 1, 185);
    (7, 0, 1, 185); (5, 0, 1, 185); (3, 0, 1, 185); (1, 0, 1, 185)];
   [(15, 0, 1, 185); (11, 0, 1, 185); (12, 0, 1, 185); (8, 0, 1, 185);
    (9, 0, 1, 185); (13, 0, 1, 185); (10, 0, 1, 185); (14, 0, 1, 185)];
   [(17, -128, -64, 233); (18, -128, -64, 233); (23, -128, -64, 233); (20, -128, -64, 233);
    (22, -128, -64, 233); (21, -128, -64, 233); (16, -128, -64, 233); (19, -128, -64, 233)];
   [(30, -191, -127, 233); (24, -191, -127, 233); (25, -191, -127, 233); (31, -191, -127, 233);
    (27, -191, -127, 233); (29, -191, -127, 233); (28, -191, -127, 233); (26, -191, -127, 233)]].
Definition WB : list (list (Z * Z * Z * Z)) :=
  [[(4, 0, 1, 185); (6, 0, 1, 185); (0, 0, 1, 185); (2, 0, 1, 185);
    (7, 0, 1, 185); (5, 0, 1, 185); (3, 0, 1, 185); (1, 0, 1, 185)];
   [(15, 0, 1, 185); (11, 0, 1, 185); (12, 0, 1, 185); (8, 0, 1, 185);
    (9, 0, 1, 185); (13, 0, 1, 185); (10, 0, 1, 185); (14, 0, 1, 185)];
   [(17, -256, -128, 233); (18, -256, -128, 233); (23, -256, -128, 233); (20, -256, -128, 233);
    (22, -256, -128, 233); (21, -256, -128, 233); (16, -256, -128, 233); (19, -256, -128, 233)];
   [(30, -383, -255, 233); (24, -383, -255, 233); (25, -383, -255, 233); (31, -383, -255, 233);
    (27, -383, -255, 233); (29, -383, -255, 233); (28, -383, -255, 233); (26, -383, -255, 233)]].
Definition PP4 : list (list nat) :=
  [[1; 0; 3; 2]; [2; 3; 0; 1]; [3; 2; 1; 0]]%nat.
Definition PP8 : list (list nat) :=
  [[1; 0; 3; 2; 5; 4; 7; 6];
   [6; 7; 4; 5; 2; 3; 0; 1];
   [2; 3; 0; 1; 6; 7; 4; 5];
   [3; 2; 1; 0; 7; 6; 5; 4];
   [5; 4; 7; 6; 1; 0; 3; 2];
   [7; 6; 5; 4; 3; 2; 1; 0];
   [4; 5; 6; 7; 0; 1; 2; 3]]%nat.
(** The renamings [M3_k_isp] and [M7_k_isp], a row per [isp]. *)
Definition M3 : list (list nat) :=
  [[0; 1; 2; 0; 1; 2; 0; 1];
   [1; 2; 0; 1; 2; 0; 1; 2];
   [2; 0; 1; 2; 0; 1; 2; 0]]%nat.
Definition M7 : list (list nat) :=
  [[0; 1; 2; 3; 4; 5; 6; 0];
   [1; 2; 3; 4; 5; 6; 0; 1];
   [2; 3; 4; 5; 6; 0; 1; 2];
   [3; 4; 5; 6; 0; 1; 2; 3]]%nat.

(** ** Steps *)

(** The products of two [int]s, converted to [u32]. *)
Definition INNER (l h mm : Z) : Z :=
  SPH_T32 (Z.land (SPH_T32 (l * mm)) 0xFFFF + SPH_T32 (SPH_T32 (h * mm) ≪ 16)).

Definition IF (x y z : Z) : Z := Z.land (y ^^ z) x ^^ z.
Definition MAJ (x y z : Z) : Z := Z.lor (Z.land x y) (Z.land (Z.lor x y) z).

(** The registers [A0.., B0.., C0.., D0..]. *)
Definition regs : Type := list Z * list Z * list Z * list Z.

Section Lanes.
  Context (L : nat).

(** [W_SMALL] and [W_BIG]: the [L] words of a step. *)
Definition W_ (q : list Z) (e : Z * Z * Z * Z) : list Z :=
  let '(sb, o1, o2, mm) := e in
  let at_q o (k : nat) := q @@ Z.to_nat (2 * Z.of_nat L * sb + 2 * Z.of_nat k + o) in
  (λ k, INNER (at_q o1 k) (at_q o2 k) mm) <$> seq 0 L.

Definition STEP_ELT (f : Z → Z → Z → Z) (s : Z) (w tA : list Z) (pp : list nat) (st : regs)
    (n : nat) : Z :=
  let '(A, B, C, D) := st in
  let tt := SPH_T32 (D @@ n + w @@ n + f (A @@ n) (B @@ n) (C @@ n)) in
  SPH_T32 (SPH_ROTL32 tt s + tA @@ nth n pp 0%nat).

(** [STEP_SMALL] and [STEP_BIG]: the lanes read only their own words and the
    rotated copies. *)
Definition STEP (w : list Z) (f : Z → Z → Z → Z) (r s : Z) (pp : list nat) (st : regs) : regs :=
  let '(A, B, C, D) := st in
  let tA := (λ n, SPH_ROTL32 (A @@ n) r) <$> seq 0 L in
  (STEP_ELT f s w tA pp st <$> seq 0 L, tA, B, C).

Definition READ_STATE (s : list Z) : regs :=
  (take L s, take L (drop L s), take L (drop (2 * L) s), take L (drop (3 * L) s)).
Definition WRITE_STATE (st : regs) : list Z := let '(A, B, C, D) := st in A ++ B ++ C ++ D.

Context (WT : list (list (Z * Z * Z * Z))) (PP M : list (list nat)).

(** The four rotation amounts of a round. *)
Definition rot (p : list Z) (k : nat) : Z := p @@ (k mod 4).

(** [ONE_ROUND_SMALL] and [ONE_ROUND_BIG]: eight steps. *)
Definition ONE_ROUND (q : list Z) (ri isp : nat) (p : list Z) (st : regs) : regs :=
  fold_left (λ st k,
    STEP (W_ q (nth k (nth ri WT []) (0, 0, 0, 0))) (if (k <? 4)%nat then IF else MAJ)
      (rot p k) (rot p (S k)) (nth (nth k (nth isp M []) 0%nat) PP []) st)
    (seq 0 8) st.

(** The four steps on the saved chaining value, with the permutations [fin]. *)
Definition feed_forward (fin : list nat) (state : list Z) (st : regs) : regs :=
  let saved k := take L (drop (k * L) state) in
  let st := STEP (saved 0%nat) IF 4 13 (nth (nth 0 fin 0%nat) PP []) st in
  let st := STEP (saved 1%nat) IF 13 10 (nth (nth 1 fin 0%nat) PP []) st in
  let st := STEP (saved 2%nat) IF 10 25 (nth (nth 2 fin 0%nat) PP []) st in
  STEP (saved 3%nat) IF 25 4 (nth (nth 3 fin 0%nat) PP []) st.

(** The body of [compress_small] and [compress_big] after the expansion. *)
Definition compress (isps fin : list nat) (q x state : list Z) : list Z :=
  let st := READ_STATE ((λ i, state @@ i ^^ sph_dec32le_aligned (drop (4 * i) x)) <$> seq 0 (4 * L)) in
  let st := ONE_ROUND q 0 (nth 0 isps 0%nat) [3; 23; 17; 27] st in
  let st := ONE_ROUND q 1 (nth 1 isps 0%nat) [28; 19; 22; 7] st in
  let st := ONE_ROUND q 2 (nth 2 isps 0%nat) [29; 9; 15; 5] st in
  let st := ONE_ROUND q 3 (nth 3 isps 0%nat) [4; 13; 10; 25] st in
  WRITE_STATE (feed_forward fin state st).

(** ** The small-footprint form *)

Definition STEP2_ELT (f : Z → Z → Z → Z) (s : Z) (w tA : list Z) (ppb : Z) (st : regs)
    (n : nat) : Z :=
  let '(A, B, C, D) := st in
  let tt := SPH_T32 (D @@ n + w @@ n + f (A @@ n) (B @@ n) (C @@ n)) in
  SPH_T32 (SPH_ROTL32 tt s + tA @@ Z.to_nat (ppb ^^ Z.of_nat n)).

Definition STEP2 (w : list Z) (f : Z → Z → Z → Z) (r s ppb : Z) (st : regs) : regs :=
  let '(A, B, C, D) := st in
  let tA := (λ n, SPH_ROTL32 (A @@ n) r) <$> seq 0 L in
  (STEP2_ELT f s w tA ppb st <$> seq 0 L, tA, B, C).

Context (ppk wp : list Z).

(** [WSREAD] and [WBREAD]: the words of the eight steps of a round. *)
Definition WREAD (q : list Z) (sb : nat) (o1 o2 mm : Z) : list Z :=
  concat ((λ u, let v := wp @@ (u + sb) in
    (λ k, INNER (q @@ Z.to_nat (v + 2 * Z.of_nat k + o1)) (q @@ Z.to_nat (v + 2 * Z.of_nat k + o2)) mm)
      <$> seq 0 L) <$> seq 0 8).

Definition one_round (w : list Z) (isp : nat) (p : list Z) (st : regs) : regs :=
  fold_left (λ st k,
    STEP2 (take L (drop (k * L) w)) (if (k <? 4)%nat then IF else MAJ)
      (rot p k) (rot p (S k)) (ppk @@ (isp + k)) st)
    (seq 0 8) st.

Context (o1 o2 o3 o4 : Z).

Definition compress_footprint (isps fin : list nat) (q x state : list Z) : list Z :=
  let st := READ_STATE ((λ i, state @@ i ^^ sph_dec32le_aligned (drop (4 * i) x)) <$> seq 0 (4 * L)) in
  let st := one_round (WREAD q 0 0 1 185) (nth 0 isps 0%nat) [3; 23; 17; 27] st in
  let st := one_round (WREAD q 8 0 1 185) (nth 1 isps 0%nat) [28; 19; 22; 7] st in
  let st := one_round (WREAD q 16 o1 o2 233) (nth 2 isps 0%nat) [29; 9; 15; 5] st in
  let st := one_round (WREAD q 24 o3 o4 233) (nth 3 isps 0%nat) [4; 13; 10; 25] st in
  WRITE_STATE (feed_forward fin state st).

End Lanes.

Definition wsp : list Z :=
  (λ v, v ≪ 3) <$> [4; 6; 0; 2; 7; 5; 3; 1; 15; 11; 12; 8; 9; 13; 10; 14; 17; 18; 23; 20; 22; 21; 16; 19; 30; 24; 25; 31; 27; 29; 28; 26].
Definition wbp : list Z :=
  (λ v, v ≪ 4) <$> [4; 6; 0; 2; 7; 5; 3; 1; 15; 11; 12; 8; 9; 13; 10; 14; 17; 18; 23; 20; 22; 21; 16; 19; 30; 24; 25; 31; 27; 29; 28; 26].
Definition pp4k : list Z := [1; 2; 3; 1; 2; 3; 1; 2; 3; 1; 2].
Definition pp8k : list Z := [1; 6; 2; 3; 5; 7; 4; 1; 6; 2; 3].

Definition compress_small (buf : list Z) (last : bool) (state : list Z) : list Z :=
  compress 4 WS PP4 M3 [0; 2; 1; 0]%nat [2; 0; 1; 2]%nat (expand_small buf last) buf state.

Definition compress_big (buf : list Z) (last : bool) (state : list Z) : list Z :=
  compress 8 WB PP8 M7 [0; 1; 2; 3]%nat [4; 5; 6; 0]%nat (expand_big buf last) buf state.

Definition compress_small_footprint (buf : list Z) (last : bool) (state : list Z) : list Z :=
  compress_footprint 4 PP4 pp4k wsp (-128) (-64) (-191) (-127) [0; 2; 1; 0]%nat [2; 0; 1; 2]%nat
    (expand_small_footprint buf last) buf state.

Definition compress_big_footprint (buf : list Z) (last : bool) (state : list Z) : list Z :=
  compress_footprint 8 PP8 pp8k wbp (-256) (-128) (-383) (-255) [0; 1; 2; 3]%nat [4; 5; 6; 0]%nat
    (expand_big buf last) buf state.

(** ** The contexts and their operations *)

Record sph_simd_context := mk_ctx {
  buf : list Z; ptr : nat; state : list Z; count_low : Z; count_high : Z }.

Definition simd_init (sc : sph_simd_context) (iv : list Z) : sph_simd_context :=
  mk_ctx (buf sc) 0 iv 0 0.
Definition init_small := simd_init.
Definition init_big := simd_init.

Section Streaming.
  Context (BUF : nat) (shift : Z) (compress_ : list Z → bool → list Z → list Z).

Definition simd_block (b : list Z) (st : list Z * Z * Z) : list Z * Z * Z :=
  let '(s, low, high) := st in
  let s := compress_ b false s in
  let low := SPH_T32 (low + 1) in
  let high := if low =? 0 then SPH_T32 (high + 1) else high in
  (s, low, high).

Definition simd_update (sc : sph_simd_context) (data : list Z) : sph_simd_context :=
  let '(b, p, (s, low, high)) :=
    absorb_loop BUF simd_block (length data) (buf sc) (ptr sc) data
      (state sc, count_low sc, count_high sc) in
  mk_ctx b p s low high.

(** [low] is shifted before [high] takes its top bits. *)
Definition encode_count (dst : list Z) (low high : Z) (ptr n : nat) : list Z :=
  let low := SPH_T32 (low ≪ shift) in
  let high := SPH_T32 (SPH_T32 (high ≪ shift) + (low ≫ (32 - shift))) in
  let low := SPH_T32 (low + ((Z.of_nat ptr ≪ 3) + Z.of_nat n)) in
  memcpy (memcpy dst 0 (sph_enc32le low)) 4 (sph_enc32le high).

Definition simd_finalize (sc : sph_simd_context) (ub : Z) (n dst_len : nat)
    : list Z * sph_simd_context :=
  let '(b, s) :=
    if (0 <? ptr sc)%nat || (0 <? n)%nat then
      let b := memset (buf sc) (ptr sc) 0 (BUF - ptr sc) in
      let b := <[ptr sc := u8 (Z.land ub (0xFF ≪ (8 - Z.of_nat n)))]> b in
      (b, compress_ b false (state sc))
    else (buf sc, state sc) in
  let b := memset b 0 0 BUF in
  let b := encode_count b (count_low sc) (count_high sc) (ptr sc) n in
  let s := compress_ b true s in
  (concat ((λ u, sph_enc32le (s @@ u)) <$> seq 0 dst_len),
   mk_ctx b (ptr sc) s (count_low sc) (count_high sc)).

End Streaming.

Definition update_small := simd_update 64 compress_small.
Definition encode_count_small := encode_count 9.
Definition finalize_small := simd_finalize 64 9 compress_small.

Definition update_big := simd_update 128 compress_big.
Definition encode_count_big := encode_count 10.
Definition finalize_big := simd_finalize 128 10 compress_big.

Definition sph_simd224_init (sc : sph_simd_context) := init_small sc IV224.
Definition sph_simd224 := update_small.
Definition sph_simd224_addbits_and_close (sc : sph_simd_context) (ub : Z) (n : nat) :=
  let '(dst, sc) := finalize_small sc ub n 7 in (dst, sph_simd224_init sc).
Definition sph_simd224_close (sc : sph_simd_context) := sph_simd224_addbits_and_close sc 0 0.

Definition sph_simd256_init (sc : sph_simd_context) := init_small sc IV256.
Definition sph_simd256 := update_small.
Definition sph_simd256_addbits_and_close (sc : sph_simd_context) (ub : Z) (n : nat) :=
  let '(dst, sc) := finalize_small sc ub n 8 in (dst, sph_simd256_init sc).
Definition sph_simd256_close (sc : sph_simd_context) := sph_simd256_addbits_and_close sc 0 0.

Definition sph_simd384_init (sc : sph_simd_context) := init_big sc IV384.
Definition sph_simd384 := update_big.
Definition sph_simd384_addbits_and_close (sc : sph_simd_context) (ub : Z) (n : nat) :=
  let '(dst, sc) := finalize_big sc ub n 12 in (dst, sph_simd384_init sc).
Definition sph_simd384_close (sc : sph_simd_context) := sph_simd384_addbits_and_close sc 0 0.

Definition sph_simd512_init (sc : sph_simd_context) := init_big sc IV512.
Definition sph_simd512 := update_big.
Definition sph_simd512_addbits_and_close (sc : sph_simd_context) (ub : Z) (n : nat) :=
  let '(dst, sc) := finalize_big sc ub n 16 in (dst, sph_simd512_init sc).
Definition sph_simd512_close (sc : sph_simd_context) := sph_simd512_addbits_and_close sc 0 0.

(** ** The compression function SIMD defines *)

Section Spec.
  Context (L : nat) (pk : list Z) (o1 o2 o3 o4 : Z).

(** The message permutation [P]. *)
Definition P : list Z :=
  [4; 6; 0; 2; 7; 5; 3; 1; 15; 11; 12; 8; 9; 13; 10; 14;
   17; 18; 23; 20; 22; 21; 16; 19; 30; 24; 25; 31; 27; 29; 28; 26].

(** The inner code packs two values, multiplied by a constant, in a word. *)
Definition inner_code (mm l h : Z) : Z := (l * mm) mod 2 ^ 16 + 2 ^ 16 * ((h * mm) mod 2 ^ 16).

(** The [L] words of step [t < 32]: the rows of [P], under the code 185 for the
    first half and 233 for the two quarters of the second. *)
Definition step_words (y : list Z) (t : nat) : list Z :=
  let i := P @@ t in
  let at_y o (j : nat) := y @@ Z.to_nat (2 * Z.of_nat L * i + 2 * Z.of_nat j + o) in
  let code mm a b := (λ j, inner_code mm (at_y a j) (at_y b j)) <$> seq 0 L in
  if i <? 16 then code 185 0 1 else if i <? 24 then code 233 o1 o2 else code 233 o3 o4.

(** The rotations of the four rounds; the feed-forward steps use the last. *)
Definition rotations : list (list Z) :=
  [[3; 23; 17; 27]; [28; 19; 22; 7]; [29; 9; 15; 5]; [4; 13; 10; 25]].

(** Step [t] of the Feistel network: the lanes exchange their rotated words
    through the involution [n ↦ n xor pk_(t mod (L-1))]. *)
Definition feistel (w : list Z) (t : nat) (st : regs) : regs :=
  let p := nth (Nat.min (t / 8) 3) rotations [] in
  STEP2 L w (if (t mod 8 <? 4)%nat then IF else MAJ) (rot p t) (rot p (S t)) (pk @@ (t mod (L - 1))) st.

(** The compression of a block under the expanded message [y]: 32 steps from
    the chaining value xored with the block, then four steps on the rows of the
    chaining value. *)
Definition simd_compress (y x h : list Z) : list Z :=
  let st := READ_STATE L ((λ i, h @@ i ^^ sph_dec32le_aligned (drop (4 * i) x)) <$> seq 0 (4 * L)) in
  let st := fold_left (λ st t, feistel (step_words y t) t st) (seq 0 32) st in
  let st := fold_left (λ st k, feistel (take L (drop (k * L) h)) (32 + k) st) (seq 0 4) st in
  WRITE_STATE st.

End Spec.

Definition simd_compress_big (x : list Z) (last : bool) (h : list Z) : list Z :=
  simd_compress 8 [1; 6; 2; 3; 5; 7; 4] (-256) (-128) (-383) (-255) (expanded 41 256 x last) x h.

Definition simd_compress_small (x : list Z) (last : bool) (h : list Z) : list Z :=
  simd_compress 4 [1; 2; 3] (-128) (-64) (-191) (-127) (expanded (41 ^ 2) 128 x last) x h.

Lemma mod_32_16 x : x mod 2 ^ 32 mod 2 ^ 16 = x mod 2 ^ 16.
Proof.
  change (2 ^ 32) with (2 ^ 16 * 2 ^ 16). rewrite Z.rem_mul_r by lia.
  by rewrite Z.mul_comm, Z_mod_plus_full, Z.mod_mod.
Qed.

Lemma INNER_code l h mm : INNER l h mm = inner_code mm l h.
Proof.
  unfold INNER, inner_code. change 0xFFFF with (Z.ones 16).
  rewrite Z.land_ones, !SPH_T32_mod, Z.shiftl_mul_pow2, mod_32_16 by lia.
  assert (E : (h * mm) mod 2 ^ 32 * 2 ^ 16 mod 2 ^ 32 = 2 ^ 16 * ((h * mm) mod 2 ^ 16)).
  { change (2 ^ 32) with (2 ^ 16 * 2 ^ 16) at 2. rewrite Z.mul_mod_distr_r, mod_32_16 by lia. lia. }
  rewrite E. pose proof (Z.mod_pos_bound (l * mm) (2 ^ 16)).
  pose proof (Z.mod_pos_bound (h * mm) (2 ^ 16)). apply Z.mod_small. lia.
Qed.

(** A step with a table is a step with the xor the table lists. *)
Lemma STEP_xor L w f r s pp ppb st :
  pp = (λ n, Z.to_nat (ppb ^^ Z.of_nat n)) <$> seq 0 L →
  STEP L w f r s pp st = STEP2 L w f r s ppb st.
Proof.
  intros ->. destruct st as [[[A B] C] D]. unfold STEP, STEP2. do 3 (apply (f_equal2 pair); [|done]).
  apply list_fmap_ext. intros i n Hn. apply lookup_seq in Hn as [-> Hn]. unfold STEP_ELT, STEP2_ELT.
  do 3 f_equal. apply nth_lookup_Some. by rewrite list_lookup_fmap, lookup_seq_lt.
Qed.

(** A row of the table of words is the words of its step. *)
Definition row_ok (o1 o2 o3 o4 : Z) (t : nat) (e : Z * Z * Z * Z) : bool :=
  let i := P @@ t in
  bool_decide (e = if i <? 16 then (i, 0, 1, 185)
                   else if i <? 24 then (i, o1, o2, 233) else (i, o3, o4, 233)).

Lemma W_words L o1 o2 o3 o4 q t e :
  row_ok o1 o2 o3 o4 t e = true → W_ L q e = step_words L o1 o2 o3 o4 q t.
Proof.
  intros ->%bool_decide_eq_true. unfold step_words, W_. cbv zeta.
  destruct (P @@ t <? 16); [|destruct (P @@ t <? 24)];
    apply list_fmap_ext; intros; apply INNER_code.
Qed.

Lemma fold_left_fmap {A B X} (f : A → B → A) (g : X → B) l a :
  fold_left f (g <$> l) a = fold_left (λ a x, f a (g x)) l a.
Proof. revert a. induction l; intros; simpl; auto. Qed.

Section Rounds.
  Context (L : nat) (WT : list (list (Z * Z * Z * Z))) (PP M : list (list nat)) (ppk wp pk : list Z)
    (o1 o2 o3 o4 : Z).

Definition spec_steps (y : list Z) (ri : nat) (st : regs) : regs :=
  fold_left (λ st t, feistel L pk (step_words L o1 o2 o3 o4 y t) t st) (seq (8 * ri) 8) st.

Lemma rot_add p ri k : rot p (8 * ri + k) = rot p k.
Proof.
  unfold rot. f_equal. replace (8 * ri + k)%nat with (k + 2 * ri * 4)%nat by lia.
  apply Nat.Div0.mod_add.
Qed.

(** What the tables of a round must hold for its eight steps to be the steps
    [8 * ri ..] of the network. *)
Definition step_ok (ri : nat) (p : list Z) (k : nat) : bool :=
  bool_decide (nth (Nat.min ((8 * ri + k) / 8) 3) rotations [] = p).
Definition table_ok (ri isp : nat) (p : list Z) (k : nat) : bool :=
  step_ok ri p k &&
  row_ok o1 o2 o3 o4 (8 * ri + k) (nth k (nth ri WT []) (0, 0, 0, 0)) &&
  bool_decide (nth (nth k (nth isp M []) 0%nat) PP [] =
    (λ n, Z.to_nat (pk @@ ((8 * ri + k) mod (L - 1)) ^^ Z.of_nat n)) <$> seq 0 L).

Lemma feistel_at ri p w k st :
  step_ok ri p k = true → (k < 8)%nat →
  feistel L pk w (8 * ri + k) st =
  STEP2 L w (if (k <? 4)%nat then IF else MAJ) (rot p k) (rot p (S k))
    (pk @@ ((8 * ri + k) mod (L - 1))) st.
Proof.
  intros Hp%bool_decide_eq_true Hk. unfold feistel. cbv zeta. rewrite Hp.
  replace (S (8 * ri + k))%nat with (8 * ri + S k)%nat by lia. rewrite !rot_add.
  replace ((8 * ri + k) mod 8)%nat with k; [done|].
  rewrite Nat.add_comm, Nat.mul_comm, Nat.Div0.mod_add. by rewrite Nat.mod_small.
Qed.

Lemma round_steps (g : regs → nat → regs) y ri st :
  (∀ st k, (k < 8)%nat →
    g st k = feistel L pk (step_words L o1 o2 o3 o4 y (8 * ri + k)) (8 * ri + k) st) →
  fold_left g (seq 0 8) st = spec_steps y ri st.
Proof.
  intros E. unfold spec_steps. replace (seq (8 * ri) 8) with (Nat.add (8 * ri) <$> seq 0 8)
    by (rewrite fmap_add_seq; f_equal; lia).
  rewrite fold_left_fmap. apply fold_left_ext_in. intros a k [_ Hk]%in_seq. apply E. lia.
Qed.

Lemma ONE_ROUND_feistel q ri isp p st :
  forallb (table_ok ri isp p) (seq 0 8) = true →
  ONE_ROUND L WT PP M q ri isp p st = spec_steps q ri st.
Proof.
  rewrite forallb_forall. intros H. unfold ONE_ROUND. apply round_steps. intros st' k Hk.
  specialize (H k ltac:(apply in_seq; lia)).
  apply andb_true_iff in H as [[Hs Hr]%andb_true_iff Hpp%bool_decide_eq_true].
  rewrite (feistel_at ri p _ k) by done. rewrite (W_words _ _ _ _ _ _ _ _ Hr). by apply STEP_xor.
Qed.

(** The same for the small-footprint form. *)
Definition footprint_ok (ri sb isp : nat) (a b mm : Z) (p : list Z) (k : nat) : bool :=
  step_ok ri p k && (wp @@ (k + sb) =? 2 * Z.of_nat L * P @@ (8 * ri + k)) &&
  row_ok o1 o2 o3 o4 (8 * ri + k) (P @@ (8 * ri + k), a, b, mm) &&
  (ppk @@ (isp + k) =? pk @@ ((8 * ri + k) mod (L - 1))).

Lemma slice_concat (f : nat → list Z) n k :
  (∀ u, length (f u) = L) → (k < n)%nat →
  take L (drop (k * L) (concat (f <$> seq 0 n))) = f k.
Proof.
  intros Hf Hk. replace n with (k + S (n - S k))%nat by lia.
  rewrite seq_app, fmap_app, concat_app, drop_app_length'.
  - cbn [seq fmap list_fmap concat]. by rewrite take_app_length' by (symmetry; apply Hf).
  - rewrite (length_concat_map f L), length_seq by done. lia.
Qed.

Lemma one_round_feistel q ri sb isp a b mm p st :
  forallb (footprint_ok ri sb isp a b mm p) (seq 0 8) = true →
  one_round L ppk (WREAD L wp q sb a b mm) isp p st = spec_steps q ri st.
Proof.
  rewrite forallb_forall. intros H. unfold one_round. apply round_steps. intros st' k Hk.
  specialize (H k ltac:(apply in_seq; lia)).
  apply andb_true_iff in H as [[[Hs Hw%Z.eqb_eq]%andb_true_iff Hr]%andb_true_iff Hpp%Z.eqb_eq].
  rewrite (feistel_at ri p _ k) by done. rewrite Hpp. f_equal. unfold WREAD.
  rewrite slice_concat by (done || (intros; by rewrite length_fmap, length_seq)).
  rewrite <-(W_words _ _ _ _ _ _ _ _ Hr), Hw. done.
Qed.

(** The feed-forward steps. *)
Definition fin_ok (fin : list nat) (k : nat) : bool :=
  bool_decide (nth (nth k fin 0%nat) PP [] =
    (λ n, Z.to_nat (pk @@ ((8 * 4 + k) mod (L - 1)) ^^ Z.of_nat n)) <$> seq 0 L).

Lemma fin_feistel fin k w st :
  fin_ok fin k = true → (k < 4)%nat →
  feistel L pk w (32 + k) st =
  STEP L w IF (rot [4; 13; 10; 25] k) (rot [4; 13; 10; 25] (S k)) (nth (nth k fin 0%nat) PP []) st.
Proof.
  intros H%bool_decide_eq_true Hk. rewrite (STEP_xor _ _ _ _ _ _ _ _ H).
  rewrite (feistel_at 4 [4; 13; 10; 25] _ k); [|do 4 (destruct k as [|k]; [done|]); lia|lia].
  by destruct (Nat.ltb_spec k 4); [|lia].
Qed.

Lemma steps_32 q st :
  fold_left (λ st t, feistel L pk (step_words L o1 o2 o3 o4 q t) t st) (seq 0 32) st =
  spec_steps q 3 (spec_steps q 2 (spec_steps q 1 (spec_steps q 0 st))).
Proof.
  unfold spec_steps. rewrite <-!fold_left_app.
  change (((seq (8 * 0) 8 ++ seq (8 * 1) 8) ++ seq (8 * 2) 8) ++ seq (8 * 3) 8) with (seq 0 32). done.
Qed.

Lemma feed_forward_feistel fin h st :
  forallb (fin_ok fin) (seq 0 4) = true →
  feed_forward L PP fin h st =
  fold_left (λ st k, feistel L pk (take L (drop (k * L) h)) (32 + k) st) (seq 0 4) st.
Proof.
  rewrite forallb_forall. intros H. cbn [seq fold_left].
  rewrite (fin_feistel fin 0), (fin_feistel fin 1), (fin_feistel fin 2), (fin_feistel fin 3)
    by (lia || (apply H, in_seq; lia)).
  reflexivity.
Qed.

Lemma compress_simd isps fin q x h :
  forallb (table_ok 0 (nth 0 isps 0%nat) [3; 23; 17; 27]) (seq 0 8) = true →
  forallb (table_ok 1 (nth 1 isps 0%nat) [28; 19; 22; 7]) (seq 0 8) = true →
  forallb (table_ok 2 (nth 2 isps 0%nat) [29; 9; 15; 5]) (seq 0 8) = true →
  forallb (table_ok 3 (nth 3 isps 0%nat) [4; 13; 10; 25]) (seq 0 8) = true →
  forallb (fin_ok fin) (seq 0 4) = true →
  compress L WT PP M isps fin q x h = simd_compress L pk o1 o2 o3 o4 q x h.
Proof.
  intros H0 H1 H2 H3 H4. unfold compress, simd_compress. cbv zeta.
  rewrite (ONE_ROUND_feistel _ 0), (ONE_ROUND_feistel _ 1), (ONE_ROUND_feistel _ 2),
    (ONE_ROUND_feistel _ 3) by assumption.
  rewrite <-steps_32, (feed_forward_feistel _ _ _ H4). reflexivity.
Qed.

Lemma footprint_simd isps fin q x h :
  forallb (footprint_ok 0 0 (nth 0 isps 0%nat) 0 1 185 [3; 23; 17; 27]) (seq 0 8) = true →
  forallb (footprint_ok 1 8 (nth 1 isps 0%nat) 0 1 185 [28; 19; 22; 7]) (seq 0 8) = true →
  forallb (footprint_ok 2 16 (nth 2 isps 0%nat) o1 o2 233 [29; 9; 15; 5]) (seq 0 8) = true →
  forallb (footprint_ok 3 24 (nth 3 isps 0%nat) o3 o4 233 [4; 13; 10; 25]) (seq 0 8) = true →
  forallb (fin_ok fin) (seq 0 4) = true →
  compress_footprint L PP ppk wp o1 o2 o3 o4 isps fin q x h = simd_compress L pk o1 o2 o3 o4 q x h.
Proof.
  intros H0 H1 H2 H3 H4. unfold compress_footprint, simd_compress. cbv zeta.
  rewrite (one_round_feistel _ 0 0), (one_round_feistel _ 1 8), (one_round_feistel _ 2 16),
    (one_round_feistel _ 3 24) by assumption.
  rewrite <-steps_32, (feed_forward_feistel _ _ _ H4). reflexivity.
Qed.

End Rounds.

#[local] Opaque expand_big expand_small expand_small_footprint expanded simd_compress.

Lemma compress_big_simd x last h :
  compress_big x last h =
  simd_compress 8 [1; 6; 2; 3; 5; 7; 4] (-256) (-128) (-383) (-255) (expand_big x last) x h.
Proof.
  unfold compress_big. apply (compress_simd 8 WB PP8 M7 [1; 6; 2; 3; 5; 7; 4] (-256) (-128) (-383) (-255));
    vm_compute; reflexivity.
Qed.

Lemma compress_small_simd x last h :
  compress_small x last h =
  simd_compress 4 [1; 2; 3] (-128) (-64) (-191) (-127) (expand_small x last) x h.
Proof.
  unfold compress_small. apply (compress_simd 4 WS PP4 M3 [1; 2; 3] (-128) (-64) (-191) (-127)); vm_compute; reflexivity.
Qed.

Lemma compress_big_spec x last h :
  bytes x → length x = 128%nat → compress_big x last h = simd_compress_big x last h.
Proof. intros. rewrite compress_big_simd, expand_big_ntt by done. reflexivity. Qed.

Lemma compress_small_spec x last h :
  bytes x → length x = 64%nat → compress_small x last h = simd_compress_small x last h.
Proof. intros. rewrite compress_small_simd, expand_small_ntt by done. reflexivity. Qed.

(** Both compression functions compute the specification. *)
Lemma compress_correct x last h :
  bytes x →
  (length x = 128%nat → compress_big x last h = simd_compress_big x last h) ∧
  (length x = 64%nat → compress_small x last h = simd_compress_small x last h).
Proof. intros Hb. split; intros; [by apply compress_big_spec|by apply compress_small_spec]. Qed.

Lemma expand_small_footprint_eq x last : expand_small_footprint x last = expand_small x last.
Proof. Transparent expand_small expand_small_footprint. unfold expand_small_footprint, expand_small. by rewrite FFT128_small_eq. Qed.
#[local] Opaque expand_small expand_small_footprint.

Lemma compress_big_footprint_eq x last h : compress_big_footprint x last h = compress_big x last h.
Proof.
  transitivity (simd_compress 8 [1; 6; 2; 3; 5; 7; 4] (-256) (-128) (-383) (-255) (expand_big x last) x h);
    [|symmetry; exact (compress_big_simd x last h)].
  unfold compress_big_footprint.
  apply (footprint_simd 8 PP8 pp8k wbp [1; 6; 2; 3; 5; 7; 4] (-256) (-128) (-383) (-255));
    vm_compute; reflexivity.
Qed.

Lemma compress_small_footprint_eq x last h :
  compress_small_footprint x last h = compress_small x last h.
Proof.
  transitivity (simd_compress 4 [1; 2; 3] (-128) (-64) (-191) (-127) (expand_small x last) x h);
    [|symmetry; exact (compress_small_simd x last h)].
  unfold compress_small_footprint. rewrite (expand_small_footprint_eq x last).
  apply (footprint_simd 4 PP4 pp4k wsp [1; 2; 3] (-128) (-64) (-191) (-127));
    vm_compute; reflexivity.
Qed.

(** The small-footprint forms agree with the default ones. *)
Lemma compress_footprint_equiv x last h :
  compress_big_footprint x last h = compress_big x last h ∧
  compress_small_footprint x last h = compress_small x last h.
Proof. exact (conj (compress_big_footprint_eq x last h) (compress_small_footprint_eq x last h)). Qed.

(** The ASCII string "SIMD-<digest bits> v1.1". *)
Definition version_string (a b c : Z) : list Z :=
  [83; 73; 77; 68; 45; a; b; c; 32; 118; 49; 46; 49].

(** The tables of initial values. *)
Lemma simd_initial_values :
  let iv_small d := compress_small (d ++ replicate 51 0) false (replicate 16 0) in
  let iv_big d := compress_big (d ++ replicate 115 0) false (replicate 32 0) in
  IV224 = iv_small (version_string 50 50 52) ∧ IV256 = iv_small (version_string 50 53 54) ∧
  IV384 = iv_big (version_string 51 56 52) ∧ IV512 = iv_big (version_string 53 49 50).
Proof. refine (conj _ (conj _ (conj _ _))); vm_compute; reflexivity. Qed.

(** ** The length field *)

(** The 64-bit number [encode_count] writes. *)
Definition count_value (shift low high : Z) (ptr n : nat) : Z :=
  let low' := low * 2 ^ shift mod 2 ^ 32 in
  (low' + (8 * Z.of_nat ptr + Z.of_nat n)) mod 2 ^ 32
  + 2 ^ 32 * ((high * 2 ^ shift + low' / 2 ^ (32 - shift)) mod 2 ^ 32).

Lemma encode_count_split shift dst low high ptr n :
  0 <= shift <= 32 → (8 <= length dst)%nat →
  encode_count shift dst low high ptr n =
  memcpy dst 0 (le_split 8 (count_value shift low high ptr n)).
Proof.
  intros Hs Hd. unfold encode_count, count_value. cbv zeta.
  rewrite !enc32le_split, !SPH_T32_mod, !Z.shiftl_mul_pow2, Z.shiftr_div_pow2 by lia.
  rewrite !Z.add_mod_idemp_l by done. change (2 ^ 3) with 8. rewrite (Z.mul_comm (Z.of_nat ptr) 8).
  set (a := (_ + _) mod 2 ^ 32). set (c := (_ + _) mod 2 ^ 32). rewrite (enc32le_split c).
  assert (Ha : 0 <= a < 2 ^ 32) by (apply Z.mod_pos_bound; lia).
  rewrite memcpy_memcpy by (rewrite ?length_le_split; lia). f_equal.
  rewrite (le_split_app 4 4). f_equal.
  - rewrite <-(le_split_mod 4 (a + _)). change (2 ^ (8 * Z.of_nat 4)) with (2 ^ 32).
    by rewrite Z.mul_comm, Z_mod_plus_full, Z.mod_small.
  - f_equal. change (8 * Z.of_nat 4) with 32. rewrite Z.shiftr_div_pow2 by lia.
    by rewrite Z.mul_comm, Z.div_add, Z.div_small by lia.
Qed.

(** The count is the length in bits as long as the shifted low word has none of
    its top [shift] bits. *)
Lemma count_value_exact shift k r n :
  0 < shift <= 16 → 0 <= k → k * 2 ^ shift < 2 ^ (32 - shift) →
  8 * Z.of_nat r + Z.of_nat n < 2 ^ shift →
  count_value shift k 0 r n = k * 2 ^ shift + 8 * Z.of_nat r + Z.of_nat n.
Proof.
  intros Hs Hk Hlt Hr. unfold count_value. cbv zeta.
  assert (2 ^ (32 - shift) * 2 ^ shift = 2 ^ 32) by (rewrite <-Z.pow_add_r by lia; f_equal; lia).
  assert (0 < 2 ^ shift) by lia. assert (0 < 2 ^ (32 - shift)) by lia.
  assert (2 <= 2 ^ shift) by (change 2 with (2 ^ 1) at 1; apply Z.pow_le_mono_r; lia).
  assert (2 ^ shift <= 2 ^ 16) by (apply Z.pow_le_mono_r; lia).
  assert (2 ^ (32 - shift) <= 2 ^ 31) by (apply Z.pow_le_mono_r; lia).
  rewrite (Z.mod_small (k * 2 ^ shift)), (Z.div_small (k * 2 ^ shift)) by nia.
  rewrite Z.mod_small by lia. rewrite Z.mul_0_l, Z.mod_0_l by lia. lia.
Qed.

(** What [encode_count_big] writes in the length field: the length of the
    message in bits up to 4095 full blocks; from 4096 blocks (512 KiB) on,
    because the high word is computed from the already shifted low word, the
    length plus 2^32 times the number of blocks divided by 4096. *)
Theorem encode_count_big_value dst k r n :
  (8 <= length dst)%nat → 0 <= k → (r < 128)%nat → (n < 8)%nat →
  let low := k mod 2 ^ 32 in let high := (k / 2 ^ 32) mod 2 ^ 32 in
  (k < 4096 → encode_count_big dst low high r n =
    memcpy dst 0 (le_split 8 (1024 * k + 8 * Z.of_nat r + Z.of_nat n))) ∧
  (4096 <= k < 2 ^ 22 → encode_count_big dst low high r n =
    memcpy dst 0 (le_split 8 (1024 * k + 8 * Z.of_nat r + Z.of_nat n + 2 ^ 32 * (k / 4096)))).
Proof.
  intros Hd Hk Hr Hn low high. subst low high.
  unfold encode_count_big. rewrite encode_count_split by lia.
  split; intros Hlt; do 2 f_equal;
    rewrite (Z.mod_small k), (Z.div_small k), Z.mod_0_l by lia.
  - rewrite count_value_exact by lia. lia.
  - unfold count_value. cbv zeta. rewrite (Z.mod_small (k * 2 ^ 10)), Z.mod_small by lia.
    change (2 ^ (32 - 10)) with (2 ^ 10 * 4096). rewrite (Z.mul_comm k (2 ^ 10)), Z.div_mul_cancel_l by lia.
    rewrite (Z.mod_small (0 * 2 ^ 10 + _)).
    + lia.
    + assert (0 <= k / 4096 < 1024) by (split; [apply Z.div_pos|apply Z.div_lt_upper_bound]; lia). lia.
Qed.

(** ** Specification of the hash *)

Definition zero_pad (BUF : nat) (D : list Z) : list Z :=
  D ++ replicate ((BUF - length D mod BUF) mod BUF) 0.

(** The message with the [n] extra bits, as bytes. *)
Definition simd_data (msg : list Z) (ub : Z) (n : nat) : list Z :=
  msg ++ if (n =? 0)%nat then [] else [u8 (Z.land ub (0xFF ≪ (8 - Z.of_nat n)))].

(** The blocks of the message, padded with zeros, then a last block that holds
    the length in bits, under a compression function [C]. *)
Definition simd_spec (BUF : nat) (C : list Z → bool → list Z → list Z) (iv : list Z) (w : nat)
    (msg : list Z) (ub : Z) (n : nat) : list Z :=
  let h := run (λ b h, C b false h) (full_blocks BUF (zero_pad BUF (simd_data msg ub n))) iv in
  let h := C (le_split 8 (bit_length msg n) ++ replicate (BUF - 8) 0) true h in
  concat ((λ u, le_split 4 (h @@ u)) <$> seq 0 w).

Section StreamingProof.
  Context (BUF : nat) (shift : Z) (C : list Z → bool → list Z → list Z).
  Context (HB : (8 < BUF)%nat) (Hshift : 8 * Z.of_nat BUF = 2 ^ shift) (Hs : 0 < shift <= 16).

Definition ctx_ok (sc : sph_simd_context) : Prop := buf_ok BUF (buf sc) (ptr sc).
Definition cview (sc : sph_simd_context) : list Z * (list Z * Z * Z) :=
  (take (ptr sc) (buf sc), (state sc, count_low sc, count_high sc)).

Lemma update_view sc data :
  ctx_ok sc →
  ctx_ok (simd_update BUF C sc data) ∧
  cview (simd_update BUF C sc data) = absorb BUF (simd_block C) (cview sc) data.
Proof.
  intros Hok. unfold simd_update.
  destruct (absorb_loop_spec BUF (simd_block C) (length data) (buf sc) (ptr sc) data
    (state sc, count_low sc, count_high sc) (le_n _) Hok) as [H1 H2].
  destruct (absorb_loop _ _ _ _ _ _ _) as [[b p] [[s lo] hi]]. split; [exact H1|exact H2].
Qed.

(** The counter of a short message: no carry into the high word. *)
Lemma run_simd_block bs iv :
  Z.of_nat (length bs) < 2 ^ 32 →
  run (simd_block C) bs (iv, 0, 0) = (run (λ b h, C b false h) bs iv, Z.of_nat (length bs), 0).
Proof.
  induction bs as [|b bs IH] using rev_ind; [done|].
  rewrite length_app, !run_app. cbn [length]. intros Hl. rewrite IH by lia.
  cbn [run fold_left simd_block]. rewrite SPH_T32_id by (unfold word; lia).
  destruct (Z.eqb_spec (Z.of_nat (length bs) + 1) 0); [lia|]. f_equal. f_equal. lia.
Qed.

Lemma mask_full ub : u8 (Z.land ub (0xFF ≪ (8 - Z.of_nat 0))) = 0.
Proof.
  rewrite u8_mod. change (0xFF ≪ (8 - Z.of_nat 0)) with 0xFF00. apply Z.bits_inj'. intros i Hi.
  rewrite Z.bits_0. destruct (decide (i < 8)).
  - rewrite Z.mod_pow2_bits_low, Z.land_spec by lia. change 0xFF00 with (0xFF ≪ 8).
    rewrite Z.shiftl_spec_low by lia. apply andb_false_r.
  - by rewrite Z.mod_pow2_bits_high by lia.
Qed.

(** The last partial block, when there is one. *)
Lemma simd_padded_blocks msg ub n :
  (0 < length msg mod BUF)%nat ∨ (0 < n)%nat →
  full_blocks BUF (zero_pad BUF (simd_data msg ub n)) =
  full_blocks BUF msg ++ [rest BUF msg ++ u8 (Z.land ub (0xFF ≪ (8 - Z.of_nat n)))
    :: replicate (BUF - S (length msg mod BUF)) 0].
Proof.
  intros Hn. set (x := u8 _). set (r := (length msg mod BUF)%nat) in *.
  assert (Hr : (r < BUF)%nat) by (apply Nat.mod_upper_bound; lia).
  assert (E : zero_pad BUF (simd_data msg ub n) = msg ++ x :: replicate (BUF - S r) 0).
  { unfold zero_pad, simd_data. destruct (Nat.eqb_spec n 0) as [->|Hn0].
    - rewrite app_nil_r. fold r. subst x. rewrite mask_full.
      rewrite Nat.mod_small by lia. by replace (BUF - r)%nat with (S (BUF - S r)) by lia.
    - fold x. rewrite <-app_assoc. simpl. do 3 f_equal. rewrite length_app. simpl.
      rewrite <-Nat.Div0.add_mod_idemp_l. fold r. destruct (decide (S r = BUF)) as [Hf|].
      + replace (r + 1)%nat with BUF by lia. rewrite Nat.Div0.mod_same, Nat.sub_0_r, Nat.Div0.mod_same. lia.
      + rewrite (Nat.mod_small (r + 1)) by lia. rewrite Nat.mod_small by lia. lia. }
  rewrite E, full_blocks_pad by lia. f_equal. apply full_blocks_one; [lia|].
  rewrite length_app, length_rest by lia. fold r. cbn [length]. rewrite length_replicate. lia.
Qed.

Lemma partial_block b msg x :
  length b = BUF → take (length msg mod BUF) b = rest BUF msg →
  <[(length msg mod BUF)%nat := x]> (memset b (length msg mod BUF) 0 (BUF - length msg mod BUF)) =
  rest BUF msg ++ x :: replicate (BUF - S (length msg mod BUF)) 0.
Proof.
  intros Hb <-. pose proof (Nat.mod_upper_bound (length msg) BUF ltac:(lia)) as Hr.
  set (r := (length msg mod BUF)%nat) in *. unfold memset.
  rewrite memcpy_full by (rewrite length_replicate; lia).
  replace (BUF - r)%nat with (S (BUF - S r)) by lia. cbn [replicate].
  rewrite insert_app_r_alt by (rewrite length_take; lia).
  rewrite length_take, Nat.min_l, Nat.sub_diag by lia. reflexivity.
Qed.

Lemma simd_correct cc iv chunks ub n w :
  let msg := concat chunks in
  length (buf cc) = BUF → (n < 8)%nat → 8 * Z.of_nat (length msg) < 2 ^ (32 - shift) →
  fst (simd_finalize BUF shift C (fold_left (simd_update BUF C) chunks (simd_init cc iv)) ub n w) =
  simd_spec BUF C iv w msg ub n.
Proof.
  intros msg Hb Hn Hl.
  destruct (updates_view BUF (simd_block C) (simd_update BUF C) ctx_ok cview chunks (simd_init cc iv))
    as [Hok Hv]; [apply update_view|split; simpl; [done|lia]|].
  set (sc := fold_left _ _ _) in *. fold msg in Hv.
  change (cview (simd_init cc iv)) with (@nil Z, (iv, 0, 0)) in Hv.
  pose proof (Nat.div_mod_eq (length msg) BUF) as Hd.
  pose proof (Nat.mod_upper_bound (length msg) BUF ltac:(lia)) as Hr.
  assert (Hpow : 2 ^ (32 - shift) < 2 ^ 32) by (apply Z.pow_lt_mono_r; lia).
  assert (Hk : Z.of_nat (length msg / BUF) * 2 ^ shift < 2 ^ (32 - shift)) by nia.
  rewrite absorb_message, run_simd_block in Hv by (rewrite ?length_full_blocks; nia).
  rewrite length_full_blocks in Hv.
  destruct Hok as [Hlen Hptr]. injection Hv as Hpend Hst Hlow Hhigh.
  assert (Hp : ptr sc = (length msg mod BUF)%nat).
  { apply (f_equal length) in Hpend. rewrite length_take, length_rest in Hpend by lia. lia. }
  set (r := (length msg mod BUF)%nat) in *.
  unfold simd_finalize. rewrite Hp, Hlow, Hhigh, Hst.
  set (pr := if _ || _ then _ else _).
  assert (Hpr : length pr.1 = BUF ∧ pr.2 = run (λ b h, C b false h)
    (full_blocks BUF (zero_pad BUF (simd_data msg ub n))) iv).
  { subst pr. destruct (Nat.ltb_spec 0 r) as [Hr0|Hr0]; [|destruct (Nat.ltb_spec 0 n) as [Hn0|Hn0]]; simpl.
    3: { split; [done|]. assert (n = 0%nat) as -> by lia. unfold zero_pad, simd_data. simpl.
         rewrite app_nil_r. fold r. replace r with 0%nat by lia.
         by rewrite Nat.sub_0_r, Nat.Div0.mod_same, app_nil_r. }
    all: split; [by rewrite length_insert, length_memset by lia|].
    all: rewrite simd_padded_blocks by (fold r; lia); rewrite run_app; cbn [run fold_left].
    all: subst r; rewrite partial_block by congruence; reflexivity. }
  destruct pr as [b s]. cbn [fst snd] in Hpr. destruct Hpr as [Hbl ->].
  unfold simd_spec. cbv zeta. cbn [fst].
  rewrite encode_count_split, count_value_exact by (rewrite ?length_memset by lia; nia).
  assert (Hmem : memcpy (memset b 0 0 BUF) 0 (le_split 8 (Z.of_nat (length msg / BUF) * 2 ^ shift
      + 8 * Z.of_nat r + Z.of_nat n)) =
    le_split 8 (bit_length msg n) ++ replicate (BUF - 8) 0).
  { unfold memcpy, memset. rewrite take_0, app_nil_l, length_le_split. f_equal.
    - f_equal. unfold bit_length. nia.
    - rewrite memcpy_full by (rewrite length_replicate; lia). rewrite take_0. apply drop_replicate. }
  rewrite Hmem. reflexivity.
Qed.

End StreamingProof.

(** The specification depends on the compression of whole blocks of bytes only. *)
Lemma simd_spec_ext BUF C C' iv w msg ub n :
  (8 < BUF)%nat → bytes msg →
  (∀ b last h, bytes b → length b = BUF → C b last h = C' b last h) →
  simd_spec BUF C iv w msg ub n = simd_spec BUF C' iv w msg ub n.
Proof.
  intros HB Hm E. unfold simd_spec. cbv zeta.
  assert (Hz : ∀ k, bytes (replicate k 0)) by (intros; by apply Forall_replicate).
  assert (Hp : bytes (zero_pad BUF (simd_data msg ub n))).
  { unfold zero_pad, simd_data. rewrite !Forall_app. split; [split; [done|]|done].
    destruct (n =? 0)%nat; repeat constructor; apply byte_u8. }
  rewrite E.
  - replace (run (λ b h, C b false h)) with (run (λ b h, C b false h)) by done.
    assert (R : ∀ bs h, Forall bytes bs → Forall (λ b, length b = BUF) bs →
      run (λ b h, C b false h) bs h = run (λ b h, C' b false h) bs h).
    { intros bs. induction bs as [|b bs IH]; intros h Hb Hl; [done|]. rewrite !run_cons.
      apply Forall_cons_1 in Hb as [??]. apply Forall_cons_1 in Hl as [??].
      rewrite (E b) by done. by apply IH. }
    rewrite R; [done|by apply full_blocks_Forall|apply full_blocks_len; lia].
  - rewrite Forall_app. split; [apply bytes_le_split|done].
  - rewrite length_app, length_le_split, length_replicate. lia.
Qed.

#[local] Opaque compress_big compress_small simd_compress_big simd_compress_small.

Lemma simd512_correct cc iv chunks ub n w :
  length (buf cc) = 128%nat → (n < 8)%nat → bytes (concat chunks) →
  Z.of_nat (length (concat chunks)) < 4096 * 128 →
  fst (finalize_big (fold_left update_big chunks (init_big cc iv)) ub n w) =
  simd_spec 128 simd_compress_big iv w (concat chunks) ub n.
Proof.
  intros Hb Hn Hm Hl. unfold finalize_big, update_big, init_big.
  rewrite (simd_correct 128 10) by (done || lia).
  apply simd_spec_ext; [lia|done|]. intros. by apply compress_big_spec.
Qed.

Lemma simd256_correct cc iv chunks ub n w :
  length (buf cc) = 64%nat → (n < 8)%nat → bytes (concat chunks) →
  Z.of_nat (length (concat chunks)) < 16384 * 64 →
  fst (finalize_small (fold_left update_small chunks (init_small cc iv)) ub n w) =
  simd_spec 64 simd_compress_small iv w (concat chunks) ub n.
Proof.
  intros Hb Hn Hm Hl. unfold finalize_small, update_small, init_small.
  rewrite (simd_correct 64 9) by (done || lia).
  apply simd_spec_ext; [lia|done|]. intros. by apply compress_small_spec.
Qed.

(** SIMD-512 over its streaming interface refines the specification
    (number-theoretic transform modulo 257, two multiplicative codes, 32
    Feistel steps and the feed-forward): initialise, update with any sequence
    of chunks of together fewer than 4096 blocks, close with [n] extra bits
    gives the SIMD hash of the concatenated data, whatever the context held
    before. *)
Theorem sph_simd512_correct cc chunks ub n :
  length (buf cc) = 128%nat → (n < 8)%nat → bytes (concat chunks) →
  Z.of_nat (length (concat chunks)) < 4096 * 128 →
  fst (sph_simd512_addbits_and_close (fold_left sph_simd512 chunks (sph_simd512_init cc)) ub n) =
  simd_spec 128 simd_compress_big IV512 16 (concat chunks) ub n.
Proof.
  intros. rewrite <-(simd512_correct cc) by done.
  unfold sph_simd512_addbits_and_close, sph_simd512, sph_simd512_init.
  by destruct (finalize_big _ _ _ _).
Qed.

End Simd.
