(* ===== verification/Echo.v ===== *)
(** ECHO-224/256/384/512: [src/crypto/x11/echo.c], in the 64-bit configuration
    ([SPH_ECHO_64]).

    The state [W[16][2]] is a flat list of 32 words, the chaining value
    [Vb[n][2]] of [2 * n] words ([n] is 4 for ECHO-224/256, 8 for ECHO-384/512).
    The specification is at the level of bytes: sixteen words of sixteen bytes
    each, under the AES round of [AesHelper] and the AES matrix across words.
    [sph_echo512_correct] relates the two over the streaming interface. *)
From S2P Require Import Prelude SphTypes Stream Padding Counter AesHelper.

Module Echo.
Import Aes.

(** ** The rounds *)

(** [if ((K0 = T32(K0 + 1)) == 0) ...]: the next key. *)
Definition incr_key (k : counter) : counter :=
  let k0 := SPH_T32 (count0 k + 1) in
  let k := mk_counter k0 (count1 k) (count2 k) (count3 k) in
  if k0 =? 0 then bump k else k.

(** The two words of [W[i]]. *)
Definition AES_2ROUNDS_word (x0 x1 : Z) (k : counter) : Z * Z :=
  let X0 := SPH_T32 x0 in
  let X1 := SPH_T32 (x0 ≫ 32) in
  let X2 := SPH_T32 x1 in
  let X3 := SPH_T32 (x1 ≫ 32) in
  let '(Y0, Y1, Y2, Y3) := AES_ROUND_LE X0 X1 X2 X3 (count0 k) (count1 k) (count2 k) (count3 k) in
  let '(X0, X1, X2, X3) := AES_ROUND_NOKEY_LE Y0 Y1 Y2 Y3 in
  (Z.lor X0 (X1 ≪ 32), Z.lor X2 (X3 ≪ 32)).

Definition AES_2ROUNDS (st : list Z * counter) (i : nat) : list Z * counter :=
  let '(W, k) := st in
  let '(x0, x1) := AES_2ROUNDS_word (W @@ (2 * i)) (W @@ (2 * i + 1)) k in
  (<[(2 * i + 1)%nat := x1]> (<[(2 * i)%nat := x0]> W), incr_key k).

Definition BIG_SUB_WORDS (st : list Z * counter) : list Z * counter :=
  fold_left AES_2ROUNDS (seq 0 16) st.

(** The rotation of the words [n] of four entries. *)
Definition shift_half (a b c d n : nat) (W : list Z) : list Z :=
  let tmp := W @@ (2 * a + n) in
  let W := <[(2 * a + n)%nat := W @@ (2 * b + n)]> W in
  let W := <[(2 * b + n)%nat := W @@ (2 * c + n)]> W in
  let W := <[(2 * c + n)%nat := W @@ (2 * d + n)]> W in
  <[(2 * d + n)%nat := tmp]> W.

Definition SHIFT_ROW1 (a b c d : nat) (W : list Z) : list Z :=
  shift_half a b c d 1 (shift_half a b c d 0 W).

(** The exchange of the words [n] of two entries. *)
Definition swap_half (a c n : nat) (W : list Z) : list Z :=
  let tmp := W @@ (2 * a + n) in
  let W := <[(2 * a + n)%nat := W @@ (2 * c + n)]> W in
  <[(2 * c + n)%nat := tmp]> W.

Definition SHIFT_ROW2 (a b c d : nat) (W : list Z) : list Z :=
  swap_half b d 1 (swap_half a c 1 (swap_half b d 0 (swap_half a c 0 W))).

Definition SHIFT_ROW3 (a b c d : nat) (W : list Z) : list Z := SHIFT_ROW1 d c b a W.

Definition BIG_SHIFT_ROWS (W : list Z) : list Z :=
  let W := SHIFT_ROW1 1 5 9 13 W in
  let W := SHIFT_ROW2 2 6 10 14 W in
  SHIFT_ROW3 3 7 11 15 W.

(** The product by [x] in GF(2^8) of the eight bytes of a word. *)
Definition xtime64 (x : Z) : Z :=
  SPH_T64 ((Z.land x 0x8080808080808080 ≫ 7) * 27)
  ^^ SPH_T64 (Z.land x 0x7F7F7F7F7F7F7F7F ≪ 1).

Definition MIX_COLUMN1 (ia ib ic id n : nat) (W : list Z) : list Z :=
  let a := W @@ (2 * ia + n) in
  let b := W @@ (2 * ib + n) in
  let c := W @@ (2 * ic + n) in
  let d := W @@ (2 * id + n) in
  let ab := a ^^ b in
  let bc := b ^^ c in
  let cd := c ^^ d in
  let abx := xtime64 ab in
  let bcx := xtime64 bc in
  let cdx := xtime64 cd in
  let W := <[(2 * ia + n)%nat := abx ^^ bc ^^ d]> W in
  let W := <[(2 * ib + n)%nat := bcx ^^ a ^^ cd]> W in
  let W := <[(2 * ic + n)%nat := cdx ^^ ab ^^ d]> W in
  <[(2 * id + n)%nat := abx ^^ bcx ^^ cdx ^^ ab ^^ c]> W.

Definition MIX_COLUMN (a b c d : nat) (W : list Z) : list Z :=
  MIX_COLUMN1 a b c d 1 (MIX_COLUMN1 a b c d 0 W).

Definition BIG_MIX_COLUMNS (W : list Z) : list Z :=
  let W := MIX_COLUMN 0 1 2 3 W in
  let W := MIX_COLUMN 4 5 6 7 W in
  let W := MIX_COLUMN 8 9 10 11 W in
  MIX_COLUMN 12 13 14 15 W.

Definition BIG_ROUND (st : list Z * counter) : list Z * counter :=
  let '(W, k) := BIG_SUB_WORDS st in
  (BIG_MIX_COLUMNS (BIG_SHIFT_ROWS W), k).

(** [INPUT_BLOCK_SMALL] ([nv = 4]) and [INPUT_BLOCK_BIG] ([nv = 8]). *)
Definition INPUT_BLOCK (nv : nat) (V buf : list Z) : list Z :=
  V ++ ((λ j, sph_dec64le_aligned (drop (8 * j) buf)) <$> seq 0 (2 * (16 - nv))).

Definition FINAL_SMALL (V buf W : list Z) : list Z :=
  (λ u, V @@ u ^^ (sph_dec64le_aligned (drop (8 * u) buf)
    ^^ sph_dec64le_aligned (drop (8 * u + 64) buf) ^^ sph_dec64le_aligned (drop (8 * u + 128) buf)
    ^^ W @@ u ^^ W @@ (u + 8) ^^ W @@ (u + 16) ^^ W @@ (u + 24))) <$> seq 0 8.

Definition FINAL_BIG (V buf W : list Z) : list Z :=
  (λ u, V @@ u ^^ (sph_dec64le_aligned (drop (8 * u) buf) ^^ W @@ u ^^ W @@ (u + 16))) <$> seq 0 16.

Definition COMPRESS_SMALL (V : list Z) (c : counter) (buf : list Z) : list Z :=
  let '(W, _) := fold_left (λ st _, BIG_ROUND st) (seq 0 8) (INPUT_BLOCK 4 V buf, c) in
  FINAL_SMALL V buf W.

Definition COMPRESS_BIG (V : list Z) (c : counter) (buf : list Z) : list Z :=
  let '(W, _) := fold_left (λ st _, BIG_ROUND st) (seq 0 10) (INPUT_BLOCK 8 V buf, c) in
  FINAL_BIG V buf W.

(** ** The contexts and their operations *)

Record sph_echo_context := mk_ctx { buf : list Z; ptr : nat; V : list Z; C : counter }.

Definition INCR_COUNTER (c : counter) (val : Z) : counter :=
  let c0 := SPH_T32 (count0 c + val) in
  let c := mk_counter c0 (count1 c) (count2 c) (count3 c) in
  if c0 <? val then bump c else c.

Definition zero_counter : counter := mk_counter 0 0 0 0.

(** [nv] entries [Vb[i] = (out_len, 0)]. *)
Definition echo_init (nv : nat) (sc : sph_echo_context) (out_len : Z) : sph_echo_context :=
  mk_ctx (buf sc) 0 (concat (replicate nv [out_len; 0])) zero_counter.

Section Streaming.
  Context (nv BUF : nat) (COMPRESS : list Z → counter → list Z → list Z).

Definition echo_block (b : list Z) (st : list Z * counter) : list Z * counter :=
  let '(v, c) := st in
  let c := INCR_COUNTER c (8 * Z.of_nat BUF) in
  (COMPRESS v c b, c).

Definition echo_core (sc : sph_echo_context) (data : list Z) : sph_echo_context :=
  let '(b, p, (v, c)) := absorb_core BUF echo_block (buf sc) (ptr sc) data (V sc, C sc) in
  mk_ctx b p v c.

(** [u] is the initial content of the local [u.tmp]. *)
Definition echo_close (sc : sph_echo_context) (ub : Z) (n out_size_w32 : nat) (u : list Z)
    : list Z * sph_echo_context :=
  let p := ptr sc in
  let elen := Z.of_nat (8 * p + n) in
  let c := INCR_COUNTER (C sc) elen in
  let u := memcpy u 0 (sph_enc32le_aligned (count0 c)) in
  let u := memcpy u 4 (sph_enc32le_aligned (count1 c)) in
  let u := memcpy u 8 (sph_enc32le_aligned (count2 c)) in
  let u := memcpy u 12 (sph_enc32le_aligned (count3 c)) in
  let c := if elen =? 0 then zero_counter else c in
  let b := <[p := pad_byte ub n]> (buf sc) in
  let p := S p in
  let b := memset b p 0 (BUF - p) in
  let '(b, v, c) :=
    if (BUF - 18 <? p)%nat
    then (memset b 0 0 BUF, COMPRESS (V sc) c b, zero_counter)
    else (b, V sc, c) in
  let b := memcpy b (BUF - 18) (sph_enc16le (Z.of_nat out_size_w32 ≪ 5)) in
  let b := memcpy b (BUF - 16) (take 16 u) in
  let v := COMPRESS v c b in
  let u := fold_left (λ u k, memcpy u (8 * k) (sph_enc64le_aligned (v @@ k)))
             (seq 0 ((out_size_w32 + 1) / 2)) u in
  (take (4 * out_size_w32) u,
   echo_init nv (mk_ctx b p v c) (Z.of_nat out_size_w32 ≪ 5)).

End Streaming.

Definition echo_small_init := echo_init 4.
Definition echo_small_compress := COMPRESS_SMALL.
Definition echo_small_core := echo_core 192 echo_small_compress.
Definition echo_small_close := echo_close 4 192 echo_small_compress.

Definition echo_big_init := echo_init 8.
Definition echo_big_compress := COMPRESS_BIG.
Definition echo_big_core := echo_core 128 echo_big_compress.
Definition echo_big_close := echo_close 8 128 echo_big_compress.

Definition sph_echo224_init (sc : sph_echo_context) := echo_small_init sc 224.
Definition sph_echo224 := echo_small_core.
Definition sph_echo224_addbits_and_close (sc : sph_echo_context) (ub : Z) (n : nat) (u : list Z) :=
  echo_small_close sc ub n 7 u.
Definition sph_echo224_close (sc : sph_echo_context) (u : list Z) := echo_small_close sc 0 0 7 u.

Definition sph_echo256_init (sc : sph_echo_context) := echo_small_init sc 256.
Definition sph_echo256 := echo_small_core.
Definition sph_echo256_addbits_and_close (sc : sph_echo_context) (ub : Z) (n : nat) (u : list Z) :=
  echo_small_close sc ub n 8 u.
Definition sph_echo256_close (sc : sph_echo_context) (u : list Z) := echo_small_close sc 0 0 8 u.

Definition sph_echo384_init (sc : sph_echo_context) := echo_big_init sc 384.
Definition sph_echo384 := echo_big_core.
Definition sph_echo384_addbits_and_close (sc : sph_echo_context) (ub : Z) (n : nat) (u : list Z) :=
  echo_big_close sc ub n 12 u.
Definition sph_echo384_close (sc : sph_echo_context) (u : list Z) := echo_big_close sc 0 0 12 u.

Definition sph_echo512_init (sc : sph_echo_context) := echo_big_init sc 512.
Definition sph_echo512 := echo_big_core.
Definition sph_echo512_addbits_and_close (sc : sph_echo_context) (ub : Z) (n : nat) (u : list Z) :=
  echo_big_close sc ub n 16 u.
Definition sph_echo512_close (sc : sph_echo_context) (u : list Z) := echo_big_close sc 0 0 16 u.

(** ** Specification, on words of sixteen bytes *)

(** Two AES rounds, the first under the counter [k], the second under a zero
    salt. *)
Definition aes2 (k : Z) (w : list Z) : list Z :=
  aes_round (aes_round w (le_split 16 k)) (replicate 16 0).

Definition big_sub_words (k : Z) (ws : list (list Z)) : list (list Z) :=
  (λ i, aes2 (k + Z.of_nat i) (nth i ws [])) <$> seq 0 16.

(** The words form a 4x4 matrix, column by column; row [r] is rotated left by
    [r] columns, as in AES. *)
Definition big_shift_rows (ws : list (list Z)) : list (list Z) :=
  (λ i, nth (i mod 4 + 4 * ((i / 4 + i mod 4) mod 4)) ws []) <$> seq 0 16.

(** The AES matrix applied to the bytes [p] of four words: row [r]. *)
Definition mix_words (r : nat) (a b c d : list Z) : list Z :=
  (λ p, mix_column (a @@ p) (b @@ p) (c @@ p) (d @@ p) @@ r) <$> seq 0 16.

Definition big_mix_columns (ws : list (list Z)) : list (list Z) :=
  (λ i, let c := (i / 4)%nat in
        mix_words (i mod 4) (nth (4 * c) ws []) (nth (4 * c + 1) ws [])
          (nth (4 * c + 2) ws []) (nth (4 * c + 3) ws [])) <$> seq 0 16.

Definition echo_round (k : Z) (ws : list (list Z)) (r : nat) : list (list Z) :=
  big_mix_columns (big_shift_rows (big_sub_words (k + 16 * Z.of_nat r) ws)).

Definition xor_bytes : list Z → list Z → list Z := zip_with Z.lxor.

(** The compression of a block [b] under the counter [t]: [R] rounds on the
    chaining value and the block, then the sum of the input and the output,
    folded to [nv] words. *)
Definition echo_compress (nv R : nat) (t : Z) (b : list Z) (v : list (list Z)) : list (list Z) :=
  let x := v ++ ((λ j, take 16 (drop (16 * j) b)) <$> seq 0 (16 - nv)) in
  let y := fold_left (echo_round t) (seq 0 R) x in
  (λ i, foldr (λ j acc, xor_bytes (xor_bytes (nth (i + nv * j) x []) (nth (i + nv * j) y [])) acc)
    (replicate 16 0) (seq 0 (16 / nv))) <$> seq 0 nv.

(** ** From words to bytes *)

Definition entry (W : list Z) (i : nat) : list Z :=
  le_split 8 (W @@ (2 * i)) ++ le_split 8 (W @@ (2 * i + 1)).

(** The first [m] entries of a flat array. *)
Definition entries (m : nat) (W : list Z) : list (list Z) := entry W <$> seq 0 m.

Lemma nth_entries m W i : (i < m)%nat → nth i (entries m W) [] = entry W i.
Proof.
  intros. apply nth_lookup_Some. unfold entries. by rewrite list_lookup_fmap, lookup_seq_lt.
Qed.

Lemma split_halves x : le_split 4 (SPH_T32 x) ++ le_split 4 (SPH_T32 (x ≫ 32)) = le_split 8 x.
Proof.
  rewrite !SPH_T32_mod. change (2 ^ 32) with (2 ^ (8 * Z.of_nat 4)). rewrite !le_split_mod.
  by rewrite (le_split_app 4 4).
Qed.

Lemma join_halves x y : word 32 x → le_split 8 (Z.lor x (y ≪ 32)) = le_split 4 x ++ le_split 4 y.
Proof.
  intros Hx. rewrite (le_split_app 4 4). f_equal.
  - assert (E : Z.lor x (y ≪ 32) mod 2 ^ (8 * Z.of_nat 4) = x mod 2 ^ (8 * Z.of_nat 4)).
    { change (8 * Z.of_nat 4) with 32. rewrite <-(Z.land_ones (Z.lor _ _)), Z.land_lor_distr_l by lia.
      rewrite !Z.land_ones by lia. rewrite Z.shiftl_mul_pow2, Z_mod_mult by lia. apply Z.lor_0_r. }
    rewrite <-(le_split_mod 4 (Z.lor _ _)), E. apply le_split_mod.
  - f_equal. change (8 * Z.of_nat 4) with 32. rewrite Z.shiftr_lor, Z.shiftr_shiftl_l by lia.
    rewrite Z.sub_diag, Z.shiftl_0_r, (Z.shiftr_div_pow2 x), Z.div_small by (done || lia).
    apply Z.lor_0_l.
Qed.

Lemma columns_zero : columns (0, 0, 0, 0) = replicate 16 0.
Proof. reflexivity. Qed.

Lemma columns_counter k :
  columns (count0 (counter_of k), count1 (counter_of k), count2 (counter_of k), count3 (counter_of k)) =
  le_split 16 k.
Proof.
  rewrite <-enc_counter. generalize (counter_of k). intros [k0 k1 k2 k3]. reflexivity.
Qed.

Lemma AES_2ROUNDS_word_bytes x0 x1 k :
  let '(y0, y1) := AES_2ROUNDS_word x0 x1 (counter_of k) in
  le_split 8 y0 ++ le_split 8 y1 = aes2 k (le_split 8 x0 ++ le_split 8 x1).
Proof.
  unfold AES_2ROUNDS_word, AES_ROUND_NOKEY_LE, aes2.
  assert (E : columns (SPH_T32 x0, SPH_T32 (x0 ≫ 32), SPH_T32 x1, SPH_T32 (x1 ≫ 32)) =
    le_split 8 x0 ++ le_split 8 x1).
  { cbn [columns]. rewrite <-(split_halves x0), <-(split_halves x1). by rewrite <-!app_assoc. }
  rewrite <-E, <-columns_counter, <-AES_ROUND_LE_correct, <-columns_zero.
  destruct (AES_ROUND_LE _ _ _ _ _ _ _ _) as [[[y0 y1] y2] y3].
  rewrite <-AES_ROUND_LE_correct.
  pose proof (AES_ROUND_LE_words y0 y1 y2 y3 0 0 0 0) as Hw.
  destruct (AES_ROUND_LE y0 y1 y2 y3 0 0 0 0) as [[[z0 z1] z2] z3].
  destruct Hw as (H0 & H1 & H2 & H3); [by apply word_0..|].
  rewrite !join_halves by done. cbn [columns]. by rewrite <-!app_assoc.
Qed.

Lemma incr_key_step k : incr_key (counter_of k) = counter_of (k + 1).
Proof.
  unfold incr_key. cbn [count0 counter_of]. cbv zeta.
  pose proof (carry k 1 (Z.mod_1_r _) ltac:(lia) (Z.mod_1_r _)) as E. rewrite T32_succ in *.
  destruct ((k + 1) mod 2 ^ 32 =? 0); [by apply bump_counter|].
  unfold counter_of. cbn [count1 count2 count3]. by rewrite E.
Qed.

(** The loop of [BIG_SUB_WORDS] after [n] entries. *)
Lemma sub_words_loop W k n :
  length W = 32%nat → (n <= 16)%nat →
  let '(W', k') := fold_left AES_2ROUNDS (seq 0 n) (W, counter_of k) in
  k' = counter_of (k + Z.of_nat n) ∧ length W' = 32%nat ∧
  ∀ i, (i < 16)%nat →
    entry W' i = if (i <? n)%nat then aes2 (k + Z.of_nat i) (entry W i) else entry W i.
Proof.
  intros HW. induction n as [|n IH]; intros Hn.
  { simpl. rewrite Z.add_0_r. done. }
  rewrite seq_S, fold_left_app. specialize (IH ltac:(lia)).
  destruct (fold_left _ (seq 0 n) _) as [W' k'] eqn:E. destruct IH as (-> & HW' & IH).
  cbn [fold_left AES_2ROUNDS Nat.add].
  pose proof (AES_2ROUNDS_word_bytes (W' @@ (2 * n)) (W' @@ (2 * n + 1)) (k + Z.of_nat n)) as Hr.
  destruct (AES_2ROUNDS_word _ _ _) as [y0 y1]. fold (entry W' n) in Hr.
  rewrite incr_key_step. split; [f_equal; lia|]. split; [by rewrite !length_insert|].
  intros i Hi. unfold entry at 1. rewrite !at_insert by (rewrite ?length_insert; lia).
  destruct (Nat.ltb_spec i (S n)) as [Hlt|Hlt].
  - destruct (decide (i = n)) as [->|Hne].
    + rewrite Nat.eqb_refl. destruct (Nat.eqb_spec (2 * n) (2 * n + 1)); [lia|].
      rewrite Nat.eqb_refl, Hr, IH by lia. by destruct (Nat.ltb_spec n n); [lia|].
    + destruct (Nat.eqb_spec (2 * i) (2 * n + 1)); [lia|]. destruct (Nat.eqb_spec (2 * i) (2 * n)); [lia|].
      destruct (Nat.eqb_spec (2 * i + 1) (2 * n + 1)); [lia|].
      destruct (Nat.eqb_spec (2 * i + 1) (2 * n)); [lia|].
      fold (entry W' i). rewrite IH by lia. by destruct (Nat.ltb_spec i n); [|lia].
  - destruct (Nat.eqb_spec (2 * i) (2 * n + 1)); [lia|]. destruct (Nat.eqb_spec (2 * i) (2 * n)); [lia|].
    destruct (Nat.eqb_spec (2 * i + 1) (2 * n + 1)); [lia|].
    destruct (Nat.eqb_spec (2 * i + 1) (2 * n)); [lia|].
    fold (entry W' i). rewrite IH by lia. by destruct (Nat.ltb_spec i n); [lia|].
Qed.

Lemma BIG_SUB_WORDS_bytes W k :
  length W = 32%nat →
  let '(W', k') := BIG_SUB_WORDS (W, counter_of k) in
  k' = counter_of (k + 16) ∧ length W' = 32%nat ∧ entries 16 W' = big_sub_words k (entries 16 W).
Proof.
  intros HW. pose proof (sub_words_loop W k 16 HW (le_n _)) as H. unfold BIG_SUB_WORDS.
  destruct (fold_left _ _ _) as [W' k']. destruct H as (-> & Hl & H). split; [done|]. split; [done|].
  unfold entries at 1, big_sub_words. apply list_fmap_ext. intros j i Hj.
  apply lookup_seq in Hj as [-> Hj]. rewrite Nat.add_0_l, nth_entries, H by lia.
  by destruct (Nat.ltb_spec j 16); [|lia].
Qed.

Lemma BIG_SHIFT_ROWS_bytes W :
  length W = 32%nat →
  length (BIG_SHIFT_ROWS W) = 32%nat ∧
  entries 16 (BIG_SHIFT_ROWS W) = big_shift_rows (entries 16 W).
Proof.
  intros HW. do 32 (destruct W as [|? W]; [discriminate HW|]). destruct W; [|discriminate HW].
  split; [reflexivity|]. cbv -[le_split app]. reflexivity.
Qed.

(** ** The product by x on packed bytes *)

(** Bitwise operations on [b + 256 * y], byte by byte. *)
Lemma bit_cons b y i :
  byte b → 0 <= i →
  Z.testbit (b + 256 * y) i = if i <? 8 then Z.testbit b i else Z.testbit y (i - 8).
Proof.
  intros Hb Hi. replace (256 * y) with (y * 2 ^ 8) by lia. destruct (Z.ltb_spec i 8).
  - rewrite <-(Z.mod_pow2_bits_low (b + _) 8), Z_mod_plus_full by lia. by rewrite Z.mod_small.
  - replace i with ((i - 8) + 8) at 1 by lia. rewrite <-Z.div_pow2_bits by lia.
    rewrite Z.div_add, Z.div_small by (done || lia). done.
Qed.

Lemma lxor_cons b c y z :
  byte b → byte c → (b + 256 * y) ^^ (c + 256 * z) = (b ^^ c) + 256 * (y ^^ z).
Proof.
  intros Hb Hc. apply Z.bits_inj'. intros i Hi.
  rewrite Z.lxor_spec, !bit_cons by (done || by apply word_lxor).
  destruct (i <? 8); by rewrite Z.lxor_spec.
Qed.

Lemma land_cons b c y z :
  byte b → byte c → Z.land (b + 256 * y) (c + 256 * z) = Z.land b c + 256 * Z.land y z.
Proof.
  intros Hb Hc. apply Z.bits_inj'. intros i Hi.
  rewrite Z.land_spec, !bit_cons by (done || by apply word_land_l).
  destruct (i <? 8); by rewrite Z.land_spec.
Qed.

Definition xtime_packed (h m x : Z) : Z := ((Z.land x h ≫ 7) * 27) ^^ (Z.land x m ≪ 1).

Lemma xtime_byte b :
  byte b → ∃ β, 0 <= β <= 1 ∧ Z.land b 0x80 = 128 * β ∧ byte (2 * Z.land b 0x7F) ∧
  xtime b = (27 * β) ^^ (2 * Z.land b 0x7F).
Proof.
  intros Hb. exists (Z.land b 0x80 / 128).
  assert (H : Forall (λ i,
    0 <= Z.land (Z.of_nat i) 0x80 / 128 <= 1 ∧
    Z.land (Z.of_nat i) 0x80 = 128 * (Z.land (Z.of_nat i) 0x80 / 128) ∧
    byte (2 * Z.land (Z.of_nat i) 0x7F) ∧
    xtime (Z.of_nat i) = (27 * (Z.land (Z.of_nat i) 0x80 / 128)) ^^ (2 * Z.land (Z.of_nat i) 0x7F))
    (seq 0 256)) by (apply (bool_decide_unpack _); vm_compute; exact I).
  rewrite Forall_seq in H. unfold word in Hb. specialize (H (Z.to_nat b) ltac:(lia)). simpl in H.
  rewrite Z2Nat.id in H by lia. tauto.
Qed.

Lemma xtime_join l :
  bytes l →
  let h := le_join (replicate (length l) 0x80) in
  let m := le_join (replicate (length l) 0x7F) in
  (∃ η, Z.land (le_join l) h = 128 * η) ∧
  xtime_packed h m (le_join l) = le_join (xtime <$> l).
Proof.
  induction 1 as [|b l Hb Hl [[η Hη] IH]]; [split; [by exists 0|done]|].
  cbn [length replicate fmap list_fmap]. rewrite !le_join_cons by (done || by split).
  destruct (xtime_byte b Hb) as (β & Hβ & Hb8 & Hb7 & Ex).
  assert (Hx : byte (xtime b)).
  { rewrite Ex. apply word_lxor; [lia| |done]. split; lia. }
  rewrite (le_join_cons (xtime b)) by done. unfold xtime_packed in *.
  rewrite !land_cons, Hb8, Hη by (done || by split).
  split; [exists (β + 256 * η); lia|].
  rewrite Hη in IH. rewrite <-IH, Ex. rewrite !Z.shiftr_div_pow2, !Z.shiftl_mul_pow2 by lia.
  change (2 ^ 7) with 128. change (2 ^ 1) with 2.
  replace (128 * β + 256 * (128 * η)) with ((β + 256 * η) * 128) by lia.
  rewrite (Z.mul_comm 128 η), !Z.div_mul by lia.
  replace ((β + 256 * η) * 27) with (27 * β + 256 * (η * 27)) by lia.
  replace ((Z.land b 0x7F + 256 * Z.land (le_join l) (le_join (replicate (length l) 0x7F))) * 2)
    with (2 * Z.land b 0x7F + 256 * (Z.land (le_join l) (le_join (replicate (length l) 0x7F)) * 2)) by lia.
  apply lxor_cons; [split; lia|done].
Qed.

Lemma land_low64 x m : word 64 m → Z.land (x mod 2 ^ 64) m = Z.land x m.
Proof.
  intros Hm. rewrite <-Z.land_ones, <-Z.land_assoc by lia. f_equal.
  rewrite Z.land_comm, Z.land_ones by lia. by apply Z.mod_small.
Qed.

Lemma le_split_T64 x : le_split 8 (SPH_T64 x) = le_split 8 x.
Proof. rewrite SPH_T64_mod. apply (le_split_mod 8). Qed.

Lemma xtime64_bytes x : le_split 8 (xtime64 x) = xtime <$> le_split 8 x.
Proof.
  destruct (xtime_join (le_split 8 x) (bytes_le_split 8 x)) as [_ E].
  rewrite length_le_split, le_join_split in E. unfold xtime_packed in E.
  change (le_join (replicate 8 0x80)) with 0x8080808080808080 in E.
  change (le_join (replicate 8 0x7F)) with 0x7F7F7F7F7F7F7F7F in E.
  change (8 * Z.of_nat 8) with 64 in E. rewrite !land_low64 in E by by split.
  unfold xtime64. rewrite le_split_lxor, !le_split_T64, <-le_split_lxor, E.
  rewrite <-(le_split_join (xtime <$> le_split 8 x)) at 2.
  - by rewrite length_fmap, length_le_split.
  - apply Forall_fmap. refine (Forall_impl _ _ (bytes_le_split 8 x)). intros b Hb. by apply byte_xtime.
Qed.

(** ** The matrix across words *)

(** The four outputs of [MIX_COLUMN1]. *)
Definition mixed_word (r : nat) (a b c d : Z) : Z :=
  let ab := a ^^ b in let bc := b ^^ c in let cd := c ^^ d in
  match r with
  | 0%nat => xtime64 ab ^^ bc ^^ d
  | 1%nat => xtime64 bc ^^ a ^^ cd
  | 2%nat => xtime64 cd ^^ ab ^^ d
  | _ => xtime64 ab ^^ xtime64 bc ^^ xtime64 cd ^^ ab ^^ c
  end.

Definition mixed_byte (r : nat) (a b c d : Z) : Z :=
  let ab := a ^^ b in let bc := b ^^ c in let cd := c ^^ d in
  match r with
  | 0%nat => xtime ab ^^ bc ^^ d
  | 1%nat => xtime bc ^^ a ^^ cd
  | 2%nat => xtime cd ^^ ab ^^ d
  | _ => xtime ab ^^ xtime bc ^^ xtime cd ^^ ab ^^ c
  end.

Lemma mixed_byte_column r a b c d :
  byte a → byte b → byte c → byte d → (r < 4)%nat →
  mixed_byte r a b c d = mix_column a b c d @@ r.
Proof.
  intros Ha Hb Hc Hd Hr. unfold mixed_byte, mix_column. cbv zeta.
  do 4 (destruct r as [|r]; [rewrite ?xtime_lxor by done; cbn [at_ nth]; xor_ac|]). lia.
Qed.

Lemma mixed_word_bytes r a b c d :
  (r < 4)%nat →
  le_split 8 (mixed_word r a b c d) =
  (λ p, mix_column (le_split 8 a @@ p) (le_split 8 b @@ p) (le_split 8 c @@ p)
     (le_split 8 d @@ p) @@ r) <$> seq 0 8.
Proof.
  intros Hr.
  transitivity ((λ p, mixed_byte r (le_split 8 a @@ p) (le_split 8 b @@ p) (le_split 8 c @@ p)
     (le_split 8 d @@ p)) <$> seq 0 8).
  - unfold mixed_word, mixed_byte. cbv zeta.
    do 4 (destruct r as [|r]; [repeat rewrite ?le_split_lxor, ?xtime64_bytes; reflexivity|]). lia.
  - apply list_fmap_ext. intros i p _. apply mixed_byte_column; [..|done];
      apply (words_at 8); (lia || apply bytes_le_split).
Qed.

(** The entries of one column. *)
Lemma mix_words_entry r a0 a1 b0 b1 c0 c1 d0 d1 :
  (r < 4)%nat →
  le_split 8 (mixed_word r a0 b0 c0 d0) ++ le_split 8 (mixed_word r a1 b1 c1 d1) =
  mix_words r (le_split 8 a0 ++ le_split 8 a1) (le_split 8 b0 ++ le_split 8 b1)
    (le_split 8 c0 ++ le_split 8 c1) (le_split 8 d0 ++ le_split 8 d1).
Proof. intros Hr. rewrite !mixed_word_bytes by done. reflexivity. Qed.

Lemma BIG_MIX_COLUMNS_bytes W :
  length W = 32%nat →
  length (BIG_MIX_COLUMNS W) = 32%nat ∧
  entries 16 (BIG_MIX_COLUMNS W) = big_mix_columns (entries 16 W).
Proof.
  intros HW. do 32 (destruct W as [|? W]; [discriminate HW|]). destruct W; [|discriminate HW].
  split; [reflexivity|].
  cbv -[le_split app xtime64 Z.lxor mix_words].
  repeat (apply (f_equal2 cons); [first
    [exact (mix_words_entry 0 _ _ _ _ _ _ _ _ ltac:(lia)) | exact (mix_words_entry 1 _ _ _ _ _ _ _ _ ltac:(lia))
    |exact (mix_words_entry 2 _ _ _ _ _ _ _ _ ltac:(lia)) | exact (mix_words_entry 3 _ _ _ _ _ _ _ _ ltac:(lia))]|]).
  reflexivity.
Qed.

(** ** The compression function *)

#[local] Opaque BIG_SUB_WORDS BIG_SHIFT_ROWS BIG_MIX_COLUMNS big_sub_words big_shift_rows
  big_mix_columns.

Lemma rounds_bytes R W t :
  length W = 32%nat →
  let '(W', k) := fold_left (λ st _, BIG_ROUND st) (seq 0 R) (W, counter_of t) in
  k = counter_of (t + 16 * Z.of_nat R) ∧ length W' = 32%nat ∧
  entries 16 W' = fold_left (echo_round t) (seq 0 R) (entries 16 W).
Proof.
  intros HW. induction R as [|R IH]; [simpl; by rewrite Z.add_0_r|].
  rewrite seq_S, !fold_left_app. destruct (fold_left _ (seq 0 R) (W, _)) as [W' k].
  destruct IH as (-> & HW' & IH). cbn [fold_left BIG_ROUND Nat.add].
  pose proof (BIG_SUB_WORDS_bytes W' (t + 16 * Z.of_nat R) HW') as H.
  unfold BIG_ROUND. destruct (BIG_SUB_WORDS _) as [W1 k1]. destruct H as (-> & HW1 & E1).
  destruct (BIG_SHIFT_ROWS_bytes W1 HW1) as [HW2 E2].
  destruct (BIG_MIX_COLUMNS_bytes (BIG_SHIFT_ROWS W1) HW2) as [HW3 E3].
  split; [f_equal; lia|]. split; [done|]. by rewrite E3, E2, E1, IH.
Qed.

Lemma dec64_bytes b j :
  bytes b → (8 * j + 8 <= length b)%nat →
  le_split 8 (sph_dec64le_aligned (drop (8 * j) b)) = take 8 (drop (8 * j) b).
Proof.
  intros Hb Hj. unfold sph_dec64le_aligned.
  assert (Hl : length (take 8 (drop (8 * j) b)) = 8%nat) by (rewrite length_take, length_drop; lia).
  rewrite <-Hl at 1. apply le_split_join. by apply Forall_take, Forall_drop.
Qed.

Section Input.
  Context (nv : nat) (v b : list Z) (Hv : length v = (2 * nv)%nat) (Hb : bytes b)
    (Hl : length b = (16 * (16 - nv))%nat) (Hn : (nv <= 16)%nat).

Lemma input_low u : (u < 2 * nv)%nat → INPUT_BLOCK nv v b @@ u = v @@ u.
Proof using Hv. clear Hl Hn. intros. unfold INPUT_BLOCK, at_. apply app_nth1. lia. Qed.

Lemma input_high u :
  (u < 2 * (16 - nv))%nat →
  INPUT_BLOCK nv v b @@ (u + 2 * nv) = sph_dec64le_aligned (drop (8 * u) b).
Proof using Hv.
  clear Hl Hn. intros. unfold INPUT_BLOCK, at_. rewrite app_nth2 by lia.
  replace (u + 2 * nv - length v)%nat with u by lia.
  apply (at_fmap_seq (λ j, sph_dec64le_aligned (drop (8 * j) b))). done.
Qed.

Lemma length_input : length (INPUT_BLOCK nv v b) = 32%nat.
Proof using Hv Hn. clear Hl. unfold INPUT_BLOCK. rewrite length_app, length_fmap, length_seq. lia. Qed.

Lemma input_entries :
  entries 16 (INPUT_BLOCK nv v b) =
  entries nv v ++ ((λ j, take 16 (drop (16 * j) b)) <$> seq 0 (16 - nv)).
Proof.
  unfold entries. replace 16%nat with (nv + (16 - nv))%nat at 1 by lia.
  rewrite seq_app, fmap_app. f_equal.
  - apply list_fmap_ext. intros i u Hu. apply lookup_seq in Hu as [-> Hu]. unfold entry.
    by rewrite !input_low by lia.
  - replace (seq (0 + nv) (16 - nv)) with (Nat.add nv <$> seq 0 (16 - nv))
      by (rewrite fmap_add_seq; f_equal; lia).
    rewrite <-list_fmap_compose. apply list_fmap_ext. intros i u Hu.
    apply lookup_seq in Hu as [-> Hu]. unfold compose, entry.
    replace (2 * (nv + (0 + i)))%nat with (2 * i + 2 * nv)%nat by lia.
    replace (2 * i + 2 * nv + 1)%nat with ((2 * i + 1) + 2 * nv)%nat by lia.
    rewrite !input_high, !dec64_bytes by (done || lia).
    replace (16 * (0 + i))%nat with (8 * (2 * i))%nat by lia.
    replace (8 * (2 * i + 1))%nat with (8 * (2 * i) + 8)%nat by lia.
    rewrite <-drop_drop. generalize (drop (8 * (2 * i)) b). intros c.
    rewrite <-(take_drop 8 (take 16 c)). rewrite take_take. f_equal.
    apply take_drop_commute.
Qed.

End Input.

(** The feed-forward, entry by entry. *)
Lemma entry_fmap (f : nat → Z) m i :
  (2 * i + 1 < m)%nat → entry (f <$> seq 0 m) i = le_split 8 (f (2 * i)%nat) ++ le_split 8 (f (2 * i + 1)%nat).
Proof. intros. unfold entry. by rewrite !at_fmap_seq by lia. Qed.

(** Compares two xors of entries byte by byte. *)
Ltac entries_ac :=
  unfold xor_bytes, entry; rewrite !le_split_lxor; cbn [le_split app zip_with replicate];
  repeat (apply (f_equal2 cons); [xor_ac|]); reflexivity.

Lemma FINAL_BIG_bytes v b W :
  length v = 16%nat → bytes b → length b = 128%nat →
  let X := INPUT_BLOCK 8 v b in
  entries 8 (FINAL_BIG v b W) =
  (λ i, foldr (λ j acc, xor_bytes (xor_bytes (nth (i + 8 * j) (entries 16 X) [])
      (nth (i + 8 * j) (entries 16 W) [])) acc) (replicate 16 0) (seq 0 2)) <$> seq 0 8.
Proof.
  intros Hv Hb Hl X. unfold entries at 1. apply list_fmap_ext. intros j i Hi.
  apply lookup_seq in Hi as [-> Hi]. cbn [seq foldr Nat.add].
  rewrite !nth_entries by lia. unfold FINAL_BIG. rewrite entry_fmap by lia.
  rewrite <-(input_low 8 v b Hv), <-(input_low 8 v b Hv (2 * j + 1)%nat),
    <-!(input_high 8 v b Hv) by lia. fold X. unfold entry.
  replace (2 * (j + 8 * 0))%nat with (2 * j)%nat by lia.
  replace (2 * (j + 8 * 1))%nat with (2 * j + 16)%nat by lia.
  replace (2 * j + 16 + 1)%nat with (2 * j + 1 + 16)%nat by lia.
  change (2 * 8)%nat with 16%nat. entries_ac.
Qed.

Lemma FINAL_SMALL_bytes v b W :
  length v = 8%nat → bytes b → length b = 192%nat →
  let X := INPUT_BLOCK 4 v b in
  entries 4 (FINAL_SMALL v b W) =
  (λ i, foldr (λ j acc, xor_bytes (xor_bytes (nth (i + 4 * j) (entries 16 X) [])
      (nth (i + 4 * j) (entries 16 W) [])) acc) (replicate 16 0) (seq 0 4)) <$> seq 0 4.
Proof.
  intros Hv Hb Hl X. unfold entries at 1. apply list_fmap_ext. intros j i Hi.
  apply lookup_seq in Hi as [-> Hi]. cbn [seq foldr Nat.add].
  rewrite !nth_entries by lia. unfold FINAL_SMALL. rewrite entry_fmap by lia.
  assert (H1 : ∀ u, (8 * u + 64)%nat = (8 * (u + 8 * 1))%nat) by lia.
  assert (H2 : ∀ u, (8 * u + 128)%nat = (8 * (u + 8 * 2))%nat) by lia.
  rewrite !H1, !H2.
  rewrite <-(input_low 4 v b Hv), <-(input_low 4 v b Hv (2 * j + 1)%nat),
    <-!(input_high 4 v b Hv) by lia. fold X. unfold entry.
  replace (2 * (j + 4 * 0))%nat with (2 * j)%nat by lia.
  replace (2 * (j + 4 * 1))%nat with (2 * j + 8)%nat by lia.
  replace (2 * (j + 4 * 2))%nat with (2 * j + 16)%nat by lia.
  replace (2 * (j + 4 * 3))%nat with (2 * j + 24)%nat by lia.
  replace (2 * j + 8 + 1)%nat with (2 * j + 1 + 8)%nat by lia.
  replace (2 * j + 16 + 1)%nat with (2 * j + 1 + 16)%nat by lia.
  replace (2 * j + 24 + 1)%nat with (2 * j + 1 + 24)%nat by lia.
  replace (2 * j + 8 * 1 + 2 * 4)%nat with (2 * j + 16)%nat by lia.
  replace (2 * j + 8 * 2 + 2 * 4)%nat with (2 * j + 24)%nat by lia.
  replace (2 * j + 1 + 8 * 1 + 2 * 4)%nat with (2 * j + 1 + 16)%nat by lia.
  replace (2 * j + 1 + 8 * 2 + 2 * 4)%nat with (2 * j + 1 + 24)%nat by lia.
  change (2 * 4)%nat with 8%nat. entries_ac.
Qed.

Lemma COMPRESS_BIG_bytes v t b :
  length v = 16%nat → bytes b → length b = 128%nat →
  length (COMPRESS_BIG v (counter_of t) b) = 16%nat ∧
  entries 8 (COMPRESS_BIG v (counter_of t) b) = echo_compress 8 10 t b (entries 8 v).
Proof.
  intros Hv Hb Hl. unfold COMPRESS_BIG, echo_compress. cbv zeta.
  pose proof (rounds_bytes 10 (INPUT_BLOCK 8 v b) t (length_input 8 v b Hv ltac:(lia))) as H.
  destruct (fold_left _ _ _) as [W k]. destruct H as (_ & HW & E).
  split; [unfold FINAL_BIG; by rewrite length_fmap, length_seq|].
  pose proof (FINAL_BIG_bytes v b W Hv Hb Hl) as F. cbv zeta in F.
  rewrite E, (input_entries 8 v b Hv Hb Hl ltac:(lia)) in F. change (16 / 8)%nat with 2%nat. exact F.
Qed.

Lemma COMPRESS_SMALL_bytes v t b :
  length v = 8%nat → bytes b → length b = 192%nat →
  length (COMPRESS_SMALL v (counter_of t) b) = 8%nat ∧
  entries 4 (COMPRESS_SMALL v (counter_of t) b) = echo_compress 4 8 t b (entries 4 v).
Proof.
  intros Hv Hb Hl. unfold COMPRESS_SMALL, echo_compress. cbv zeta.
  pose proof (rounds_bytes 8 (INPUT_BLOCK 4 v b) t (length_input 4 v b Hv ltac:(lia))) as H.
  destruct (fold_left _ _ _) as [W k]. destruct H as (_ & HW & E).
  split; [unfold FINAL_SMALL; by rewrite length_fmap, length_seq|].
  pose proof (FINAL_SMALL_bytes v b W Hv Hb Hl) as F. cbv zeta in F.
  rewrite E, (input_entries 4 v b Hv Hb Hl ltac:(lia)) in F. change (16 / 4)%nat with 4%nat. exact F.
Qed.

(** ** Specification of the hash *)

Definition echo_trailer (w : nat) (l : Z) : list Z :=
  le_split 2 (32 * Z.of_nat w) ++ le_split 16 l.

Definition echo_spec (nv R BUF w : nat) (msg : list Z) (ub : Z) (n : nat) : list Z :=
  let l := bit_length msg n in
  let blocks := full_blocks BUF
    (msg ++ md_padding BUF 18 (pad_byte ub n) (echo_trailer w l) (length msg)) in
  let v := counted_run (echo_compress nv R) (8 * Z.of_nat BUF) l 0 blocks
    (replicate nv (le_split 16 (32 * Z.of_nat w))) in
  take (4 * w) (concat v).

(** ** The streaming interface *)

Lemma INCR_COUNTER_step t val :
  0 <= val < 2 ^ 32 → INCR_COUNTER (counter_of t) val = counter_of (t + val).
Proof.
  intros Hv. unfold INCR_COUNTER. cbn [count0 counter_of]. cbv zeta.
  rewrite SPH_T32_mod, Zplus_mod_idemp_l.
  pose proof (Z.div_mod t (2 ^ 32) ltac:(lia)) as Et.
  pose proof (Z.mod_pos_bound t (2 ^ 32) ltac:(lia)) as Hr.
  pose proof (Z.div_mod (t + val) (2 ^ 32) ltac:(lia)) as Eu.
  pose proof (Z.mod_pos_bound (t + val) (2 ^ 32) ltac:(lia)) as Hs.
  destruct (Z.ltb_spec ((t + val) mod 2 ^ 32) val).
  - apply bump_counter. lia.
  - assert (E : (t + val) / 2 ^ 32 = t / 2 ^ 32) by lia.
    unfold counter_of. cbn [count1 count2 count3]. by rewrite E.
Qed.

Section Close.
  Context (nv BUF : nat) (COMPRESS : list Z → counter → list Z → list Z) (HB : (18 < BUF <= 256)%nat).

Definition ctx_ok (sc : sph_echo_context) : Prop := buf_ok BUF (buf sc) (ptr sc).
Definition cview (sc : sph_echo_context) : list Z * (list Z * counter) :=
  view (buf sc, ptr sc, (V sc, C sc)).

Lemma echo_core_view sc data :
  ctx_ok sc →
  ctx_ok (echo_core BUF COMPRESS sc data) ∧
  cview (echo_core BUF COMPRESS sc data) = absorb BUF (echo_block BUF COMPRESS) (cview sc) data.
Proof.
  intros Hok.
  pose proof (absorb_core_spec BUF (echo_block BUF COMPRESS) (buf sc) (ptr sc) data (V sc, C sc) Hok)
    as [H1 H2].
  unfold ctx_ok, cview, echo_core.
  by destruct (absorb_core _ _ _ _ _ _) as [[b p] [v c]].
Qed.

Definition counted (t : Z) (b v : list Z) : list Z := COMPRESS v (counter_of t) b.

Definition bits : Z := 8 * Z.of_nat BUF.

Lemma run_echo bs v l :
  bits * Z.of_nat (length bs) <= l →
  run (echo_block BUF COMPRESS) bs (v, counter_of 0) =
  (counted_run counted bits l 0 bs v, counter_of (bits * Z.of_nat (length bs))).
Proof.
  intros Hl.
  assert (Hb : 0 < bits) by (unfold bits; lia).
  rewrite <-(Z.mul_0_r bits), <-(Z.add_0_l (Z.of_nat (length bs))) at 1.
  apply (run_counted counted (echo_block BUF COMPRESS) (λ h t, (h, counter_of t)) bits l (l + 1));
    [|lia..].
  intros b h0 t _ Hm _. unfold echo_block. rewrite INCR_COUNTER_step by lia. reflexivity.
Qed.

Definition echo_out (w : nat) (v : list Z) : list Z :=
  take (4 * w) (concat ((λ k, le_split 8 (v @@ k)) <$> seq 0 ((w + 1) / 2))).

Lemma counter_bytes (u : list Z) l :
  (16 <= length u)%nat →
  let c := counter_of l in
  let u1 := memcpy u 0 (sph_enc32le_aligned (count0 c)) in
  let u2 := memcpy u1 4 (sph_enc32le_aligned (count1 c)) in
  let u3 := memcpy u2 8 (sph_enc32le_aligned (count2 c)) in
  let u' := memcpy u3 12 (sph_enc32le_aligned (count3 c)) in
  take 16 u' = le_split 16 l ∧ length u' = length u.
Proof.
  intros Hu. cbv zeta. unfold sph_enc32le_aligned. rewrite <-columns_counter. cbn [columns].
  set (e0 := le_split 4 (count0 _)). set (e1 := le_split 4 (count1 _)).
  set (e2 := le_split 4 (count2 _)). set (e3 := le_split 4 (count3 _)).
  assert (H : length e0 = 4%nat ∧ length e1 = 4%nat ∧ length e2 = 4%nat ∧ length e3 = 4%nat) by done.
  destruct H as (H0 & H1 & H2 & H3).
  rewrite (memcpy_memcpy u e0 e1), (memcpy_memcpy u _ e2), (memcpy_memcpy u _ e3)
    by (rewrite ?length_app; lia).
  rewrite <-!app_assoc, length_memcpy by (rewrite ?length_app; lia).
  split; [|done]. apply take_memcpy_0. rewrite !length_app. lia.
Qed.

Lemma trailer_write (b : list Z) w e :
  length b = BUF → length e = 16%nat →
  memcpy (memcpy b (BUF - 18) (sph_enc16le (Z.of_nat w ≪ 5))) (BUF - 16) e =
  take (BUF - 18) b ++ le_split 2 (32 * Z.of_nat w) ++ e.
Proof.
  intros Hb He. rewrite enc16le_split. replace (Z.of_nat w ≪ 5) with (32 * Z.of_nat w)
    by (rewrite Z.shiftl_mul_pow2; lia).
  rewrite memcpy_memcpy by (rewrite ?length_le_split; lia).
  apply memcpy_full. rewrite length_app, length_le_split. lia.
Qed.

(** The output loop. *)
Lemma output_loop w v (c : list Z) :
  (8 * ((w + 1) / 2) <= length c)%nat → (4 * w <= 8 * ((w + 1) / 2))%nat →
  take (4 * w) (fold_left (λ u k, memcpy u (8 * k) (sph_enc64le_aligned (v @@ k)))
    (seq 0 ((w + 1) / 2)) c) = echo_out w v.
Proof.
  intros Hc Hw.
  destruct (write_loop (λ k, sph_enc64le_aligned (v @@ k)) 8 ((w + 1) / 2) c) as [_ E];
    [intros; apply length_le_split|done|].
  unfold echo_out, sph_enc64le_aligned in *. rewrite <-E, take_take. by rewrite Nat.min_l by lia.
Qed.

(** The blocks the closing function compresses, from a context with [k] blocks
    behind it. *)
Lemma echo_close_blocks sc ub n w k v pend u :
  ctx_ok sc → cview sc = (pend, (v, counter_of (bits * k))) → (n < 8)%nat →
  (16 <= length u)%nat → (8 * ((w + 1) / 2) <= length u)%nat → (4 * w <= 8 * ((w + 1) / 2))%nat →
  let l := bits * k + Z.of_nat (8 * length pend + n) in
  fst (echo_close nv BUF COMPRESS sc ub n w u) =
  echo_out w (counted_run counted bits l k (full_blocks BUF
    (pend ++ md_padding BUF 18 (pad_byte ub n) (echo_trailer w l) (length pend))) v).
Proof.
  intros [Hb Hp] Hv Hn Hu Hw Hw' l.
  assert (Hpend : length pend = ptr sc) by (inversion Hv; rewrite length_take; lia).
  injection Hv as Hpe Hvv Hc. unfold echo_close. rewrite Hvv, Hc, <-Hpend in *.
  rewrite INCR_COUNTER_step by lia. fold l.
  destruct (counter_bytes u l Hu) as [Hu16 Hul]. cbv zeta in Hu16, Hul |- *.
  set (u' := memcpy _ 12 _) in *. clearbody u'. rewrite Hu16.
  assert (Hcnt : (if Z.of_nat (8 * length pend + n) =? 0 then zero_counter else counter_of l) =
    counter_of (counter_at bits l k)).
  { destruct (Z.eqb_spec (Z.of_nat (8 * length pend + n)) 0) as [E|E].
    - rewrite counter_at_0 by lia. done.
    - rewrite (counter_at_last bits l k (Z.of_nat (8 * length pend + n)));
        [done|reflexivity|unfold bits; lia]. }
  rewrite Hcnt. set (pb := pad_byte ub n). rewrite (pad_fill BUF), Hpe by lia.
  set (b1 := pend ++ pb :: _).
  assert (Hb1 : length b1 = BUF)
    by (unfold b1; rewrite length_app; cbn [length]; rewrite length_replicate; lia).
  assert (Ht : length (echo_trailer w l) = 18%nat)
    by (unfold echo_trailer; by rewrite length_app, !length_le_split).
  destruct (Nat.ltb_spec (BUF - 18) (S (length pend))) as [Hlt|Hge]; cbn [fst].
  - rewrite output_loop by lia.
    rewrite trailer_write by (rewrite ?length_memset; rewrite ?length_le_split; lia).
    unfold memset. rewrite memcpy_full by (rewrite length_replicate; lia).
    rewrite take_0, app_nil_l, take_replicate, Nat.min_l by lia. fold (echo_trailer w l). rewrite (md_two BUF 18) by lia. fold b1. cbn [counted_run].
    rewrite (counter_at_0 _ _ (k + 1)) by (subst l; unfold bits; lia). done.
  - rewrite output_loop by lia. rewrite trailer_write by (rewrite ?length_le_split; lia).
    fold (echo_trailer w l). rewrite (md_one BUF 18) by lia. cbn [counted_run].
    assert (E : take (BUF - 18) b1 = pend ++ pb :: replicate (BUF - 18 - S (length pend)) 0).
    { unfold b1. rewrite take_app_ge by lia.
      replace (BUF - 18 - length pend)%nat with (S (BUF - 18 - S (length pend))) by lia.
      cbn [take]. by rewrite take_replicate, Nat.min_l by lia. }
    rewrite E, <-app_assoc. reflexivity.
Qed.

Lemma echo_run_correct cc chunks ub n w v0 u :
  let msg := concat chunks in
  length (buf cc) = BUF → ptr cc = 0%nat → V cc = v0 → C cc = zero_counter → (n < 8)%nat →
  (16 <= length u)%nat → (8 * ((w + 1) / 2) <= length u)%nat → (4 * w <= 8 * ((w + 1) / 2))%nat →
  fst (echo_close nv BUF COMPRESS (fold_left (echo_core BUF COMPRESS) chunks cc) ub n w u) =
  echo_out w (counted_run counted bits (bit_length msg n) 0 (full_blocks BUF
    (msg ++ md_padding BUF 18 (pad_byte ub n) (echo_trailer w (bit_length msg n)) (length msg))) v0).
Proof.
  intros msg Hb Hptr HV HC Hn Hu Hw Hw'.
  destruct (updates_view BUF (echo_block BUF COMPRESS) (echo_core BUF COMPRESS) ctx_ok cview chunks cc)
    as [Hok Hv]; [apply echo_core_view|split; [done|lia]|].
  set (sc := fold_left _ _ _) in *.
  replace (cview cc) with (@nil Z, (v0, counter_of 0)) in Hv
    by (unfold cview, view; by rewrite Hptr, HV, HC).
  fold msg in Hv. rewrite absorb_message in Hv by lia.
  set (k := Z.of_nat (length (full_blocks BUF msg))) in *.
  assert (Hlen : Z.of_nat (length msg) = Z.of_nat BUF * k + Z.of_nat (length (rest BUF msg))).
  { subst k. rewrite length_full_blocks, length_rest by lia.
    pose proof (Nat.div_mod_eq (length msg) BUF). lia. }
  rewrite (run_echo _ _ (bit_length msg n)) in Hv by (unfold bit_length, bits; fold k; lia).
  fold k in Hv.
  rewrite (echo_close_blocks sc ub n w k _ (rest BUF msg) u) by done.
  rewrite (full_blocks_pad BUF msg), counted_run_app by lia. fold k.
  replace (bits * k + Z.of_nat (8 * length (rest BUF msg) + n)) with (bit_length msg n)
    by (unfold bit_length, bits; lia).
  by rewrite length_rest, md_padding_mod by lia.
Qed.

End Close.

(** The flat words and the entries have the same bytes. *)
Lemma concat_entries m v : concat (entries m v) = concat ((λ k, le_split 8 (v @@ k)) <$> seq 0 (2 * m)).
Proof.
  unfold entries. induction m as [|m IH]; [done|].
  replace (2 * S m)%nat with (S (S (2 * m))) by lia.
  rewrite !seq_S, !fmap_app, !concat_app, IH. cbn [fmap list_fmap concat Nat.add]. unfold entry.
  rewrite !app_nil_r, app_assoc, Nat.add_1_r. reflexivity.
Qed.

Lemma echo_out_entries w nv v :
  (4 * w <= 8 * ((w + 1) / 2))%nat → ((w + 1) / 2 <= 2 * nv)%nat →
  echo_out w v = take (4 * w) (concat (entries nv v)).
Proof.
  intros Hw Hn. unfold echo_out. rewrite concat_entries.
  replace (2 * nv)%nat with ((w + 1) / 2 + (2 * nv - (w + 1) / 2))%nat by lia.
  rewrite seq_app, fmap_app, concat_app, take_app_le; [done|].
  by rewrite (length_concat_map _ 8), length_seq by (intros; apply length_le_split).
Qed.

Lemma entries_iv m x : word 64 x → entries m (concat (replicate m [x; 0])) = replicate m (le_split 16 x).
Proof.
  intros Hx.
  assert (E : ∀ k i, (i < k)%nat → concat (replicate k [x; 0]) @@ (2 * i) = x ∧
    concat (replicate k [x; 0]) @@ (2 * i + 1) = 0).
  { induction k as [|k IH]; intros i Hi; [lia|]. destruct i as [|i]; [done|].
    replace (2 * S i)%nat with (S (S (2 * i))) by lia. apply IH. lia. }
  apply list_eq. intros i. destruct (decide (i < m)%nat) as [Hi|Hi].
  - unfold entries. rewrite list_lookup_fmap, lookup_seq_lt, lookup_replicate_2 by done.
    change (Some (entry (concat (replicate m [x; 0])) i) = Some (le_split (8 + 8) x)). f_equal.
    unfold entry. destruct (E m i Hi) as [-> ->]. rewrite (le_split_app 8 8). do 2 f_equal.
    rewrite Z.shiftr_div_pow2, Z.div_small by (done || lia). done.
  - rewrite !lookup_ge_None_2; [done|rewrite length_replicate; lia|].
    unfold entries. rewrite length_fmap, length_seq. lia.
Qed.

Lemma bytes_padded BUF k msg pb trailer len :
  bytes msg → byte pb → bytes trailer → bytes (msg ++ md_padding BUF k pb trailer len).
Proof.
  intros Hm Hp Ht. rewrite Forall_app. split; [done|]. unfold md_padding. apply Forall_cons; [done|].
  rewrite Forall_app. split; [by apply Forall_replicate|done].
Qed.

Section Final.
  Context (nv R BUF w : nat) (COMPRESS : list Z → counter → list Z → list Z).
  Context (HB : (18 < BUF <= 256)%nat) (Hw : (4 * w <= 8 * ((w + 1) / 2))%nat)
    (Hnv : ((w + 1) / 2 <= 2 * nv)%nat).
  Context (HC : ∀ v t b, length v = (2 * nv)%nat → bytes b → length b = BUF →
    length (COMPRESS v (counter_of t) b) = (2 * nv)%nat ∧
    entries nv (COMPRESS v (counter_of t) b) = echo_compress nv R t b (entries nv v)).

(** The chaining value of the code after the blocks [bs] is the entries of the
    specification's. *)
Lemma echo_state bs l :
  (w <= 16)%nat → Forall (λ b, bytes b ∧ length b = BUF) bs →
  let v := counted_run (counted COMPRESS) (bits BUF) l 0 bs (concat (replicate nv [32 * Z.of_nat w; 0])) in
  length v = (2 * nv)%nat ∧
  entries nv v = counted_run (echo_compress nv R) (bits BUF) l 0 bs
    (replicate nv (le_split 16 (32 * Z.of_nat w))).
Proof.
  intros Hw16 Hbs. rewrite <-(entries_iv nv (32 * Z.of_nat w)) by (unfold word; lia).
  apply (counted_run_sim (counted COMPRESS) (echo_compress nv R)
    (λ v x, length v = (2 * nv)%nat ∧ entries nv v = x) (λ b, bytes b ∧ length b = BUF));
    [|done|].
  - intros t b v x [Hbb Hbl] [Hv <-]. by apply HC.
  - split; [|done]. clear. induction nv as [|m IH]; [done|]. cbn [replicate concat app length]. lia.
Qed.

Lemma padded_blocks msg ub n :
  bytes msg → Forall (λ b, bytes b ∧ length b = BUF) (full_blocks BUF
    (msg ++ md_padding BUF 18 (pad_byte ub n) (echo_trailer w (bit_length msg n)) (length msg))).
Proof.
  intros Hm. apply Forall_and; [|apply full_blocks_len; lia]. apply full_blocks_Forall, bytes_padded;
    [done|apply byte_pad_byte|]. unfold echo_trailer. rewrite Forall_app. split; apply bytes_le_split.
Qed.

(** The digest is bytes of the last chaining value. *)
Lemma echo_spec_out msg ub n :
  (w <= 16)%nat → bytes msg →
  echo_spec nv R BUF w msg ub n =
  echo_out w (counted_run (counted COMPRESS) (bits BUF) (bit_length msg n) 0 (full_blocks BUF
    (msg ++ md_padding BUF 18 (pad_byte ub n) (echo_trailer w (bit_length msg n)) (length msg)))
    (concat (replicate nv [32 * Z.of_nat w; 0]))).
Proof.
  intros Hw16 Hm. rewrite (echo_out_entries w nv) by done. unfold echo_spec. cbv zeta.
  destruct (echo_state _ (bit_length msg n) Hw16 (padded_blocks msg ub n Hm)) as [_ ->]. reflexivity.
Qed.

Lemma echo_correct cc chunks ub n u :
  length (buf cc) = BUF → (n < 8)%nat → bytes (concat chunks) →
  (16 <= length u)%nat → (8 * ((w + 1) / 2) <= length u)%nat → (w <= 16)%nat →
  fst (echo_close nv BUF COMPRESS
    (fold_left (echo_core BUF COMPRESS) chunks (echo_init nv cc (32 * Z.of_nat w))) ub n w u) =
  echo_spec nv R BUF w (concat chunks) ub n.
Proof.
  intros Hb Hn Hm Hu Hu' Hw16. rewrite (echo_spec_out _ _ _ Hw16 Hm).
  by apply (echo_run_correct nv BUF COMPRESS HB).
Qed.

End Final.

Lemma echo512_correct cc chunks ub n u :
  length (buf cc) = 128%nat → (n < 8)%nat → bytes (concat chunks) → length u = 64%nat →
  fst (echo_big_close (fold_left echo_big_core chunks (echo_big_init cc 512)) ub n 16 u) =
  echo_spec 8 10 128 16 (concat chunks) ub n.
Proof.
  intros Hb Hn Hm Hu.
  apply (echo_correct 8 10 128 16 COMPRESS_BIG);
    [lia|simpl; lia|simpl; lia| |done|done|done|simpl; lia|simpl; lia|lia].
  intros. by apply COMPRESS_BIG_bytes.
Qed.

Lemma echo256_correct cc chunks ub n u :
  length (buf cc) = 192%nat → (n < 8)%nat → bytes (concat chunks) → length u = 32%nat →
  fst (echo_small_close (fold_left echo_small_core chunks (echo_small_init cc 256)) ub n 8 u) =
  echo_spec 4 8 192 8 (concat chunks) ub n.
Proof.
  intros Hb Hn Hm Hu.
  apply (echo_correct 4 8 192 8 COMPRESS_SMALL);
    [lia|simpl; lia|simpl; lia| |done|done|done|simpl; lia|simpl; lia|lia].
  intros. by apply COMPRESS_SMALL_bytes.
Qed.

Lemma echo512_out msg ub n :
  bytes msg → ∃ v, echo_spec 8 10 128 16 msg ub n = echo_out 16 v.
Proof.
  intros Hm. eexists.
  apply (echo_spec_out 8 10 128 16 COMPRESS_BIG); [lia|simpl; lia|simpl; lia| |lia|done].
  intros. by apply COMPRESS_BIG_bytes.
Qed.

(** C37: ECHO-512 over its streaming interface refines the byte-level
    specification: initialise, update with any sequence of chunks, close with
    [n] extra bits gives the ECHO hash defined on a 4 by 4 matrix of AES
    states (two AES rounds keyed by the message counter per entry, big shift
    of rows, big mix of columns), although the code packs each state in two
    64-bit words and multiplies eight field elements at a time. *)
Theorem sph_echo512_correct cc chunks ub n u :
  length (buf cc) = 128%nat → (n < 8)%nat → bytes (concat chunks) → length u = 64%nat →
  fst (sph_echo512_addbits_and_close (fold_left sph_echo512 chunks (sph_echo512_init cc)) ub n u) =
  echo_spec 8 10 128 16 (concat chunks) ub n.
Proof. apply echo512_correct. Qed.

Lemma sph_echo512_correct_witness :
  let cc := mk_ctx (replicate 128 1) 5 [] (mk_counter 9 9 9 9) in
  fst (sph_echo512_addbits_and_close (fold_left sph_echo512 [[97; 98]; [99]] (sph_echo512_init cc)) 0xA0 3
         (replicate 64 0xEE)) =
  echo_spec 8 10 128 16 (concat [[97; 98]; [99]]) 0xA0 3.
Proof.
  apply sph_echo512_correct; [reflexivity|lia| |reflexivity].
  apply (bool_decide_unpack _). vm_compute. exact I.
Defined.

End Echo.
