(* ===== verification/HashX11.v ===== *)
(** The X11 hash of Dash block headers: [src/hash_x11.h], and the trimming of
    its result ([uint512::trim256] of [src/uint256.h]).

    [HashX11] runs the eleven 64-byte hashes of crypto/x11 in a chain.  What
    one of them promises to the chain is the interface [hash] (its operations)
    with the class [Promises] (its laws): whatever its context and the local
    buffer of its closing function hold, it maps a message that fits to a
    digest that depends on the message only, and the digest has 64 bytes.  The
    eleven instances discharge it; [HashX11_correct] is proved from the
    interface alone. *)
From S2P Require Import Prelude SphTypes Stream Padding Counter Blake Bmw Keccak Cubehash.
From S2P Require Import Jh Luffa AesHelper Shavite Groestl Skein SimdFft Simd Echo.

(** ** The interface *)

(** A context, the three entry points, and the local buffer of the closing
    function (its content before the call is the last argument). *)
Record hash := mk_hash {
  h_ctx : Type;
  h_init : h_ctx → h_ctx;
  h_update : h_ctx → list Z → h_ctx;
  h_close : h_ctx → list Z → list Z * h_ctx }.

Definition digest (d : list Z) : Prop := length d = 64%nat ∧ bytes d.

Class Promises (H : hash) (room : h_ctx H → list Z → Prop) (fits : list Z → Prop)
    (spec : list Z → list Z) : Prop := {
  law_hash : ∀ c u chunks, room c u → fits (concat chunks) →
    fst (h_close H (fold_left (h_update H) chunks (h_init H c)) u) = spec (concat chunks);
  law_digest : ∀ msg, fits msg → digest (spec msg) }.

(** One stage of the chain: initialise, one update, close. *)
Definition stage (H : hash) (c : h_ctx H) (u data : list Z) : list Z :=
  fst (h_close H (h_update H (h_init H c) data) u).

Lemma stage_spec H room fits spec `{P : !Promises H room fits spec} c u data :
  room c u → fits data → stage H c u data = spec data ∧ digest (spec data).
Proof.
  intros Hr Hf. pose proof (law_hash c u [data] Hr) as E. simpl in E. rewrite app_nil_r in E.
  split; [by apply E|by apply (law_digest (Promises := P))].
Qed.

(** ** Digests *)

Lemma digest_concat (f : nat → list Z) k m :
  (∀ i, length (f i) = k) → (∀ i, bytes (f i)) → (k * m)%nat = 64%nat →
  digest (concat (f <$> seq 0 m)).
Proof.
  intros Hl Hb Hm. split; [by rewrite (length_concat_map f k), length_seq|].
  apply Forall_concat, Forall_fmap, Forall_true. intros i. apply Hb.
Qed.

Lemma digest_words {A} (f : A → list Z) k l :
  (∀ i, length (f i) = k) → (∀ i, bytes (f i)) → (64 <= k * length l)%nat →
  digest (take 64 (concat (f <$> l))).
Proof.
  intros Hl Hb Hm. split.
  - rewrite length_take, (length_concat_map f k) by done. lia.
  - apply Forall_take, Forall_concat, Forall_fmap, Forall_true. intros i. apply Hb.
Qed.

(** ** The eleven hashes *)

Definition blake512 : hash := mk_hash _ Blake.sph_blake512_init Blake.sph_blake512 Blake.sph_blake512_close.
Definition bmw512 : hash :=
  mk_hash _ Bmw.sph_bmw512_init Bmw.sph_bmw512 (λ c _, Bmw.sph_bmw512_close c).
Definition groestl512 : hash :=
  mk_hash _ Groestl.sph_groestl512_init Groestl.sph_groestl512 Groestl.sph_groestl512_close.
Definition skein512 : hash :=
  mk_hash _ Skein.sph_skein512_init Skein.sph_skein512 (λ c _, Skein.sph_skein512_close c).
Definition jh512 : hash := mk_hash _ Jh.sph_jh512_init Jh.sph_jh512 Jh.sph_jh512_close.
Definition keccak512 : hash :=
  mk_hash _ Keccak.sph_keccak512_init Keccak.sph_keccak512 Keccak.sph_keccak512_close.
Definition luffa512 : hash :=
  mk_hash _ Luffa.sph_luffa512_init Luffa.sph_luffa512 (λ c _, Luffa.sph_luffa512_close c).
Definition cubehash512 : hash :=
  mk_hash _ Cubehash.sph_cubehash512_init Cubehash.sph_cubehash512 (λ c _, Cubehash.sph_cubehash512_close c).
Definition shavite512 : hash :=
  mk_hash _ Shavite.sph_shavite512_init Shavite.sph_shavite512 (λ c _, Shavite.sph_shavite512_close c).
Definition simd512 : hash :=
  mk_hash _ Simd.sph_simd512_init Simd.sph_simd512 (λ c _, Simd.sph_simd512_close c).
Definition echo512 : hash := mk_hash _ Echo.sph_echo512_init Echo.sph_echo512 Echo.sph_echo512_close.

(** ** The chain *)

(** What the stack holds when [HashX11] is called: the contexts and the local
    buffers of the closing functions. *)
Record stack := mk_stack {
  ctx_blake : Blake.sph_blake_big_context; u_blake : list Z;
  ctx_bmw : Bmw.sph_bmw_context;
  ctx_groestl : Groestl.sph_groestl_context; u_groestl : list Z;
  ctx_skein : Skein.sph_skein_big_context;
  ctx_jh : Jh.sph_jh_context; u_jh : list Z;
  ctx_keccak : Keccak.sph_keccak_context; u_keccak : list Z;
  ctx_luffa : Luffa.sph_luffa_context;
  ctx_cubehash : Cubehash.sph_cubehash_context;
  ctx_shavite : Shavite.sph_shavite_big_context;
  ctx_simd : Simd.sph_simd_context;
  ctx_echo : Echo.sph_echo_context; u_echo : list Z }.

Definition trim256 (h : list Z) : list Z := take 32 h.

Definition HashX11 (s : stack) (data : list Z) : list Z :=
  let hash0 := stage blake512 (ctx_blake s) (u_blake s) data in
  let hash1 := stage bmw512 (ctx_bmw s) [] hash0 in
  let hash2 := stage groestl512 (ctx_groestl s) (u_groestl s) hash1 in
  let hash3 := stage skein512 (ctx_skein s) [] hash2 in
  let hash4 := stage jh512 (ctx_jh s) (u_jh s) hash3 in
  let hash5 := stage keccak512 (ctx_keccak s) (u_keccak s) hash4 in
  let hash6 := stage luffa512 (ctx_luffa s) [] hash5 in
  let hash7 := stage cubehash512 (ctx_cubehash s) [] hash6 in
  let hash8 := stage shavite512 (ctx_shavite s) [] hash7 in
  let hash9 := stage simd512 (ctx_simd s) [] hash8 in
  let hash10 := stage echo512 (ctx_echo s) (u_echo s) hash9 in
  trim256 hash10.

(** The sizes the declarations give. *)
Definition stack_ok (s : stack) : Prop :=
  length (Blake.buf (ctx_blake s)) = 128%nat ∧ length (u_blake s) = 128%nat ∧
  length (Bmw.buf (ctx_bmw s)) = 128%nat ∧
  length (Groestl.buf (ctx_groestl s)) = 128%nat ∧ length (u_groestl s) = 136%nat ∧
  length (Skein.buf (ctx_skein s)) = 64%nat ∧
  length (Jh.buf (ctx_jh s)) = 64%nat ∧ length (u_jh s) = 128%nat ∧
  length (Keccak.buf (ctx_keccak s)) = 144%nat ∧ length (u_keccak s) = 73%nat ∧
  length (Luffa.buf (ctx_luffa s)) = 32%nat ∧
  length (Cubehash.buf (ctx_cubehash s)) = 32%nat ∧
  length (Shavite.buf (ctx_shavite s)) = 128%nat ∧
  length (Simd.buf (ctx_simd s)) = 128%nat ∧
  length (Echo.buf (ctx_echo s)) = 128%nat ∧ length (u_echo s) = 64%nat.

(** A stack of zeros. *)
Definition zero_stack : stack :=
  mk_stack (Blake.mk_ctx (replicate 128 0) 0 (Blake.mk_state64 [] [] 0 0)) (replicate 128 0)
    (Bmw.mk_ctx (replicate 128 0) 0 [] 0) (Groestl.mk_ctx (replicate 128 0) 0 [] 0) (replicate 136 0)
    (Skein.mk_ctx (replicate 64 0) 0 [] 0) (Jh.mk_ctx (replicate 64 0) 0 [] 0) (replicate 128 0)
    (Keccak.mk_ctx (replicate 144 0) 0 0 []) (replicate 73 0) (Luffa.mk_ctx (replicate 32 0) 0 [])
    (Cubehash.mk_ctx (replicate 32 0) 0 [])
    (Shavite.mk_ctx (replicate 128 0) 0 [] (mk_counter 0 0 0 0))
    (Simd.mk_ctx (replicate 128 0) 0 [] 0 0)
    (Echo.mk_ctx (replicate 128 0) 0 [] (mk_counter 0 0 0 0)) (replicate 64 0).

Lemma zero_stack_ok : stack_ok zero_stack.
Proof. repeat split. Qed.

(** The specification: the composition of the specifications. *)
Definition x11_spec (data : list Z) : list Z :=
  take 32
    (Echo.echo_spec 8 10 128 16
    (Simd.simd_spec 128 Simd.simd_compress_big Simd.IV512 16
    (Shavite.shavite_spec 16 Shavite.IV512
    (Cubehash.cubehash_spec Cubehash.IV512
    (Luffa.luffa512_spec
    (Keccak.keccak_spec 64 72
    (Jh.jh_spec Jh.IV512
    (Skein.skein_spec Skein.IV512 64
    (Groestl.groestl_spec Groestl.groestl_1024 64
    (Bmw.bmw_spec 128 sph_enc64le_aligned Bmw.compress_big Bmw.final_b Bmw.IV512
    (Blake.blake_spec 8 Blake.IV512 Blake.salt_zero_big data 0 0)
    0 0 8) 0 0) 0 0) 0 0 16) 0 0) 0 0) 0 0 16) 0 0) 0 0) 0 0).

(** ** The instances *)

Definition short (msg : list Z) : Prop := bytes msg ∧ Z.of_nat (length msg) < 4096 * 128.

#[export] Instance blake512_promises :
  Promises blake512 (λ c u, length (Blake.buf c) = 128%nat ∧ length u = 128%nat)
    (λ msg, bit_length msg 0 < 2 ^ 128)
    (λ msg, Blake.blake_spec 8 Blake.IV512 Blake.salt_zero_big msg 0 0).
Proof.
  split.
  - intros c u chunks [Hc Hu] Hf.
    rewrite <-(Blake.blake64_correct c _ _ chunks 0 0 8 u) by (done || lia). cbn [h_close h_update h_init blake512].
    unfold Blake.sph_blake512_close, Blake.sph_blake512_addbits_and_close.
    by destruct (Blake.blake64_close _ _ _ _ _).
  - intros msg _. unfold Blake.blake_spec, Blake.blake_out.
    apply (digest_concat _ 8); [done|intros; apply bytes_enc64be|done].
Qed.

#[export] Instance bmw512_promises :
  Promises bmw512 (λ c _, length (Bmw.buf c) = 128%nat) (λ _, True)
    (λ msg, Bmw.bmw_spec 128 sph_enc64le_aligned Bmw.compress_big Bmw.final_b Bmw.IV512 msg 0 0 8).
Proof.
  split.
  - intros c u chunks Hc _.
    pose proof (Bmw.bmw_correct 128 sph_enc64le_aligned Bmw.compress_big Bmw.final_b ltac:(lia)
      ltac:(intros; apply (length_concat_map _ 8); intros; apply length_le_split)
      c Bmw.IV512 chunks 0 0 8 Hc) as E.
    rewrite <-E. cbn [h_close h_update h_init bmw512].
    unfold Bmw.sph_bmw512_close, Bmw.sph_bmw512_addbits_and_close, Bmw.bmw64_close.
    by destruct (Bmw.bmw_close _ _ _ _ _ _ _ _).
  - intros msg _. unfold Bmw.bmw_spec. cbv zeta.
    apply (digest_concat _ 8); [intros; apply length_le_split|intros; apply bytes_le_split|done].
Qed.

#[export] Instance skein512_promises :
  Promises skein512 (λ c _, length (Skein.buf c) = 64%nat) (λ msg, Z.of_nat (length msg) + 1 < 2 ^ 64)
    (λ msg, Skein.skein_spec Skein.IV512 64 msg 0 0).
Proof.
  split.
  - intros c u chunks Hc Hf.
    rewrite <-(Skein.skein_correct c Skein.IV512 chunks 0 0 64) by (done || lia).
    cbn [h_close h_update h_init skein512].
    unfold Skein.sph_skein512_close, Skein.sph_skein512_addbits_and_close.
    by destruct (Skein.skein_big_close _ _ _ _).
  - intros msg _. unfold Skein.skein_spec, Skein.skein_output. cbv zeta.
    apply (digest_words _ 8); [done|apply bytes_enc64le|rewrite Skein.length_ubi_block; lia].
Qed.

#[export] Instance jh512_promises :
  Promises jh512 (λ c u, length (Jh.buf c) = 64%nat ∧ length u = 128%nat)
    (λ msg, bit_length msg 0 < 2 ^ 73) (λ msg, Jh.jh_spec Jh.IV512 msg 0 0 16).
Proof.
  split.
  - intros c u chunks [Hc Hu] Hf. cbn [h_close h_update h_init jh512].
    unfold Jh.sph_jh512_close, Jh.sph_jh512, Jh.sph_jh512_init.
    exact (Jh.jh_correct c Jh.IV512 Jh.IV512 chunks 0 0 16 u Hc eq_refl Hu ltac:(lia) ltac:(lia) Hf).
  - intros msg _. unfold Jh.jh_spec. cbv zeta. change (4 * (16 - 16))%nat with 0%nat. rewrite drop_0.
    apply (digest_words _ 8); [apply length_le_split|apply bytes_le_split|].
    rewrite length_drop, Jh.length_run_F8 by done. lia.
Qed.

#[export] Instance cubehash512_promises :
  Promises cubehash512 (λ c _, length (Cubehash.buf c) = 32%nat) (λ _, True)
    (λ msg, Cubehash.cubehash_spec Cubehash.IV512 msg 0 0 16).
Proof.
  split.
  - intros c u chunks Hc _. rewrite <-(Cubehash.cubehash_correct c Cubehash.IV512 chunks 0 0 16) by done.
    cbn [h_close h_update h_init cubehash512].
    unfold Cubehash.sph_cubehash512_close, Cubehash.sph_cubehash512_addbits_and_close.
    by destruct (Cubehash.cubehash_close _ _ _ _).
  - intros msg _. unfold Cubehash.cubehash_spec. cbv zeta.
    apply (digest_concat _ 4); [intros; apply length_le_split|intros; apply bytes_le_split|done].
Qed.

#[export] Instance shavite512_promises :
  Promises shavite512 (λ c _, length (Shavite.buf c) = 128%nat) (λ _, True)
    (λ msg, Shavite.shavite_spec 16 Shavite.IV512 msg 0 0).
Proof.
  split.
  - intros c u chunks Hc _.
    rewrite <-(Shavite.shavite_big_correct c Shavite.IV512 chunks 0 0 16) by (done || lia).
    cbn [h_close h_update h_init shavite512]. unfold Shavite.sph_shavite512_close.
    by destruct (Shavite.shavite_big_close _ _ _ _).
  - intros msg _. unfold Shavite.shavite_spec, Shavite.shavite_out. cbv zeta.
    apply (digest_concat _ 4); [done|intros; apply bytes_enc32le|done].
Qed.

#[export] Instance simd512_promises :
  Promises simd512 (λ c _, length (Simd.buf c) = 128%nat) short
    (λ msg, Simd.simd_spec 128 Simd.simd_compress_big Simd.IV512 16 msg 0 0).
Proof.
  split.
  - intros c u chunks Hc [Hb Hl].
    rewrite <-(Simd.simd512_correct c Simd.IV512 chunks 0 0 16) by (done || lia).
    cbn [h_close h_update h_init simd512].
    unfold Simd.sph_simd512_close, Simd.sph_simd512_addbits_and_close.
    by destruct (Simd.finalize_big _ _ _ _).
  - intros msg _. unfold Simd.simd_spec. cbv zeta.
    apply (digest_concat _ 4); [intros; apply length_le_split|intros; apply bytes_le_split|done].
Qed.

#[export] Instance echo512_promises :
  Promises echo512 (λ c u, length (Echo.buf c) = 128%nat ∧ length u = 64%nat) bytes
    (λ msg, Echo.echo_spec 8 10 128 16 msg 0 0).
Proof.
  split.
  - intros c u chunks [Hc Hu] Hb. cbn [h_close h_update h_init echo512].
    unfold Echo.sph_echo512_close, Echo.sph_echo512, Echo.sph_echo512_init.
    exact (Echo.echo512_correct c chunks 0 0 u Hc ltac:(lia) Hb Hu).
  - intros msg Hm.
    destruct (Echo.echo512_out msg 0 0 Hm) as [v ->]. unfold Echo.echo_out.
    change (4 * 16)%nat with 64%nat.
    apply (digest_words _ 8); [intros; apply length_le_split|intros; apply bytes_le_split|].
    rewrite length_seq. simpl. lia.
Qed.

#[export] Instance luffa512_promises :
  Promises luffa512 (λ c _, length (Luffa.buf c) = 32%nat) bytes (λ msg, Luffa.luffa512_spec msg 0 0).
Proof.
  split.
  - intros c u chunks Hc Hb. rewrite <-(Luffa.luffa512_correct c chunks 0 0) by done.
    cbn [h_close h_update h_init luffa512].
    unfold Luffa.sph_luffa512_close, Luffa.sph_luffa512_addbits_and_close.
    by destruct (Luffa.luffa5_close _ _ _).
  - intros msg Hm. unfold Luffa.luffa512_spec. cbv zeta.
    set (bs := full_blocks 32 _).
    assert (Hbs : Forall (λ b, bytes b ∧ length b = 32%nat) bs).
    { apply Luffa.blocks_bytes. rewrite Forall_app. split; [done|]. unfold md_padding.
      apply Forall_cons; [apply byte_pad_byte|]. rewrite Forall_app.
      split; [by apply Forall_replicate|constructor]. }
    assert (Hz : bytes (replicate 32 0)) by by apply Forall_replicate.
    assert (HI : Luffa.state5 Luffa.V_INIT)
      by (split; [done|]; apply (bool_decide_unpack _); by vm_compute).
    destruct (Luffa.run_luffa5 bs Luffa.V_INIT Hbs HI) as [_ S0].
    destruct (Luffa.P5_step (replicate 32 0) _ Hz eq_refl S0) as [_ S1].
    destruct (Luffa.P5_step (replicate 32 0) _ Hz eq_refl S1) as [_ S2].
    apply Luffa.out_words_row in S1 as [L1 _], S2 as [L2 _]. split.
    + rewrite length_app, !(length_concat_map _ 4), L1, L2 by done. done.
    + rewrite Forall_app. split; apply Forall_concat, Forall_fmap, Forall_true; apply bytes_enc32be.
Qed.

#[export] Instance keccak512_promises :
  Promises keccak512 (λ c u, length (Keccak.buf c) = 144%nat ∧ length u = 73%nat) bytes
    (λ msg, Keccak.keccak_spec 64 72 msg 0 0).
Proof.
  split.
  - intros c u chunks [Hc Hu] Hb. cbn [h_close h_update h_init keccak512].
    unfold Keccak.sph_keccak512_close, Keccak.sph_keccak512_addbits_and_close.
    apply (Keccak.keccak_correct 72 ltac:(lia) eq_refl 64 c 512 chunks 0 0 u Hc Hb ltac:(lia) Hu).
    apply Nat.leb_le. reflexivity.
  - intros msg Hm. unfold Keccak.keccak_spec. cbv zeta. set (bs := full_blocks 72 _).
    assert (Hs : Keccak.stands_for
      (run (Keccak.keccak_block 72) bs (Keccak.xorv (replicate 25 0) Keccak.cmask))
      (run (Keccak.sponge_block 72) bs (replicate 25 0))).
    { unfold run. apply (fold_left_sim Keccak.stands_for bytes).
      - intros. by apply (Keccak.keccak_block_stands 72 ltac:(lia) eq_refl).
      - apply full_blocks_Forall, Forall_app_2; [done|apply (Keccak.bytes_keccak_padding 72 ltac:(lia) eq_refl); lia].
      - split; [done|]. split; [done|]. apply Forall_replicate. by apply word_0. }
    destruct Hs as (_ & HA & _).
    apply (digest_words _ 8); [apply length_le_split|apply bytes_le_split|rewrite HA; lia].
Qed.

#[export] Instance groestl512_promises :
  Promises groestl512 (λ c u, length (Groestl.buf c) = 128%nat ∧ length u = 136%nat) bytes
    (λ msg, Groestl.groestl_spec Groestl.groestl_1024 64 msg 0 0).
Proof.
  split.
  - intros c u chunks [Hc Hu] Hb. exact (Groestl.groestl512_correct c chunks 0 0 u Hc Hu ltac:(lia) Hb).
  - intros msg Hm. unfold Groestl.groestl_spec. cbv zeta. set (bs := full_blocks _ _).
    set (c := Groestl.mk_ctx [] 0 [] 0).
    assert (Hbs : Forall (λ b, bytes b ∧ length b = 128%nat) bs).
    { apply Forall_and; [|apply full_blocks_len; simpl; lia].
      apply full_blocks_Forall, Forall_app_2; [done|apply Groestl.bytes_padding]. }
    pose proof (Groestl.run_block Groestl.groestl_1024 Groestl.PERM_BIG_P Groestl.PERM_BIG_Q
      Groestl.refines_big bs _ 0 _ Hbs (word_0 64 ltac:(lia)) (Groestl.shows_iv512 c)) as Hr.
    destruct (run (Groestl.groestl_block _) bs _) as [Hw cnt]. destruct Hr as [Hs _].
    apply (Groestl.final_shows _ _ _ Groestl.refines_big) in Hs as (Hl & _ & <-).
    change (8 * Groestl.v_cols Groestl.groestl_1024 - 64)%nat with 64%nat.
    change (Groestl.v_cols Groestl.groestl_1024) with 16%nat in Hl.
    assert (HL : length (concat (Groestl.cols (Groestl.final Groestl.PERM_BIG_P Hw))) = 128%nat).
    { unfold Groestl.cols. rewrite (length_concat_map _ 8) by (intros; apply length_le_split).
      rewrite Hl. done. }
    split; [rewrite length_drop, HL; done|].
    apply Forall_drop, Forall_concat. unfold Groestl.cols.
    apply Forall_fmap, Forall_true. intros. apply bytes_le_split.
Qed.

(** ** The chain refines the composition *)

Lemma digest_fits d :
  digest d → bytes d ∧ short d ∧ bit_length d 0 < 2 ^ 73 ∧ Z.of_nat (length d) + 1 < 2 ^ 64.
Proof. intros [Hl Hb]. unfold short, bit_length. rewrite Hl. repeat split; done || lia. Qed.

#[local] Opaque stage Echo.echo_spec Simd.simd_spec Shavite.shavite_spec Cubehash.cubehash_spec
  Luffa.luffa512_spec Keccak.keccak_spec Jh.jh_spec Skein.skein_spec Groestl.groestl_spec
  Bmw.bmw_spec Blake.blake_spec.

(** Replaces the next stage by its specification, named [d]. *)
Ltac next_stage P c u data R F d D :=
  destruct (stage_spec _ _ _ _ (P := P) c u data R F) as [-> D]; cbv beta in D |- *;
  match type of D with digest ?x => set (d := x) in *; clearbody d end.

Lemma HashX11_spec s data :
  stack_ok s → bit_length data 0 < 2 ^ 128 →
  HashX11 s data = x11_spec data ∧ length (x11_spec data) = 32%nat ∧ bytes (x11_spec data).
Proof.
  intros (R0 & U0 & R1 & R2 & U2 & R3 & R4 & U4 & R5 & U5 & R6 & R7 & R8 & R9 & R10 & U10) Hd.
  unfold HashX11, x11_spec. cbv zeta.
  next_stage blake512_promises (ctx_blake s) (u_blake s) data (conj R0 U0) Hd d0 D0.
  next_stage bmw512_promises (ctx_bmw s) (@nil Z) d0 R1 I d1 D1.
  destruct (digest_fits d1 D1) as (F1 & _ & _ & _).
  next_stage groestl512_promises (ctx_groestl s) (u_groestl s) d1 (conj R2 U2) F1 d2 D2.
  destruct (digest_fits d2 D2) as (_ & _ & _ & F2).
  next_stage skein512_promises (ctx_skein s) (@nil Z) d2 R3 F2 d3 D3.
  destruct (digest_fits d3 D3) as (_ & _ & F3 & _).
  next_stage jh512_promises (ctx_jh s) (u_jh s) d3 (conj R4 U4) F3 d4 D4.
  destruct (digest_fits d4 D4) as (F4 & _ & _ & _).
  next_stage keccak512_promises (ctx_keccak s) (u_keccak s) d4 (conj R5 U5) F4 d5 D5.
  destruct (digest_fits d5 D5) as (F5 & _ & _ & _).
  next_stage luffa512_promises (ctx_luffa s) (@nil Z) d5 R6 F5 d6 D6.
  next_stage cubehash512_promises (ctx_cubehash s) (@nil Z) d6 R7 I d7 D7.
  next_stage shavite512_promises (ctx_shavite s) (@nil Z) d7 R8 I d8 D8.
  destruct (digest_fits d8 D8) as (_ & F8 & _ & _).
  next_stage simd512_promises (ctx_simd s) (@nil Z) d8 R9 F8 d9 D9.
  destruct (digest_fits d9 D9) as (F9 & _ & _ & _).
  next_stage echo512_promises (ctx_echo s) (u_echo s) d9 (conj R10 U10) F9 d10 D10.
  destruct D10 as [L10 B10]. split; [reflexivity|]. split; [rewrite length_take, L10; lia|].
  by apply Forall_take.
Qed.

(** C1: Dash's proof-of-work hash [HashX11] is the composition of the
    specifications of its eleven hashes: for any message of fewer than 2^128
    bits and whatever the eleven contexts and the local buffers on the stack
    hold before the call, the result is the first 32 bytes of ECHO-512 of
    SIMD-512 of ... of BLAKE-512 of the message; it is 32 bytes long. *)
Theorem HashX11_correct s data :
  stack_ok s → bit_length data 0 < 2 ^ 128 →
  HashX11 s data = x11_spec data ∧ length (x11_spec data) = 32%nat ∧ bytes (x11_spec data).
Proof. apply HashX11_spec. Qed.

Lemma HashX11_correct_witness :
  HashX11 zero_stack [97; 98; 99] = x11_spec [97; 98; 99] ∧ length (x11_spec [97; 98; 99]) = 32%nat ∧
  bytes (x11_spec [97; 98; 99]).
Proof. apply HashX11_correct; [exact zero_stack_ok|reflexivity]. Defined.
