(* ===== verification/Configurations.v ===== *)
(** Statements that range over the hash functions of [src/crypto/x11]: the
    tables of initial values against what the specifications derive them from,
    and the alternative forms of the code that the configuration macros select
    (unroll counts, compact loops) against each other. *)
From S2P Require Import Prelude SphTypes Stream Padding Counter Blake Bmw Keccak Cubehash Jh Luffa Skein SimdFft Simd Shavite Groestl.

#[local] Opaque Jh.F8 Cubehash.initial_state Skein.config_iv Simd.compress_small Simd.compress_big
  Shavite.c512 Shavite.c512_small Groestl.PERM_BIG_P Groestl.PERM_BIG_Q Groestl.PERM_BIG_P_small Groestl.PERM_BIG_Q_small.

(** The tables of initial values of JH, CubeHash, Skein and SIMD, four
    digest sizes each, are what the specifications derive them from: the JH
    compression function on the digest length, 160 CubeHash rounds on the
    parameters, the UBI of Skein's configuration block, and the SIMD
    compression function on the version string. *)
Theorem initial_values :
  let jh bits := Jh.F8 (replicate 64 0) (Jh.C64e (bits ≪ 48) :: replicate 15 0) in
  let simd_small d := Simd.compress_small (d ++ replicate 51 0) false (replicate 16 0) in
  let simd_big d := Simd.compress_big (d ++ replicate 115 0) false (replicate 32 0) in
  [Jh.IV224; Jh.IV256; Jh.IV384; Jh.IV512] = jh <$> [224; 256; 384; 512] ∧
  [Cubehash.IV224; Cubehash.IV256; Cubehash.IV384; Cubehash.IV512] =
    Cubehash.initial_state <$> [28; 32; 48; 64] ∧
  [Skein.IV224; Skein.IV256; Skein.IV384; Skein.IV512] = Skein.config_iv <$> [224; 256; 384; 512] ∧
  Simd.IV224 = simd_small (Simd.version_string 50 50 52) ∧
  Simd.IV256 = simd_small (Simd.version_string 50 53 54) ∧
  Simd.IV384 = simd_big (Simd.version_string 51 56 52) ∧
  Simd.IV512 = simd_big (Simd.version_string 53 49 50).
Proof.
  destruct Jh.jh_initial_values as (J1 & J2 & J3 & J4).
  destruct Cubehash.cubehash_initial_values as (C1 & C2 & C3 & C4).
  destruct Skein.skein_initial_values as (S1 & S2 & S3 & S4).
  cbv zeta. cbn [fmap list_fmap].
  rewrite <-J1, <-J2, <-J3, <-J4, <-C1, <-C2, <-C3, <-C4, <-S1, <-S2, <-S3, <-S4.
  exact (conj eq_refl (conj eq_refl (conj eq_refl Simd.simd_initial_values))).
Qed.

(** The unroll counts of the configuration macros compute the same: JH's
    [E8] with 42 rounds written out and as a loop, CubeHash's sixteen rounds
    with the counts 2, 4, 8 and 16, and the Keccak permutation with the counts
    1, 2, 4, 6, 8, 12 and 24, whose lane moves [Pn_TO_P0] undo the renaming of
    the unrolled rounds. *)
Theorem unroll_counts h x a :
  length a = 25%nat →
  Jh.E8 h = Jh.E8_small h ∧
  Forall (λ f, f x = Cubehash.SIXTEEN_ROUNDS x)
    [Cubehash.SIXTEEN_ROUNDS_unroll2; Cubehash.SIXTEEN_ROUNDS_unroll4;
     Cubehash.SIXTEEN_ROUNDS_unroll8] ∧
  Forall (λ f, f a = Keccak.KECCAK_F_1600 a)
    [Keccak.KECCAK_F_1600_unroll1; Keccak.KECCAK_F_1600_unroll2; Keccak.KECCAK_F_1600_unroll4;
     Keccak.KECCAK_F_1600_unroll6; Keccak.KECCAK_F_1600_unroll12; Keccak.KECCAK_F_1600_unroll0].
Proof.
  intros Ha. destruct (Cubehash.SIXTEEN_ROUNDS_unroll_counts x) as (C1 & C2 & C3).
  destruct (Keccak.KECCAK_F_1600_unroll_counts a Ha) as (K1 & K2 & K3 & K4 & K5 & K6).
  split; [exact (Jh.E8_unrolled_loop h)|].
  exact (conj (Forall_cons_2 _ _ _ C1 (Forall_cons_2 _ _ _ C2 (Forall_cons_2 _ _ _ C3 (Forall_nil_2 _))))
    (Forall_cons_2 _ _ _ K1 (Forall_cons_2 _ _ _ K2 (Forall_cons_2 _ _ _ K3 (Forall_cons_2 _ _ _ K4
      (Forall_cons_2 _ _ _ K5 (Forall_cons_2 _ _ _ K6 (Forall_nil_2 _)))))))).
Qed.

(** The forms that the configuration macros select compute the same:
    BLAKE-512 (message words renamed through the macros [Zri] against the loop
    over [sigma]), BMW-512, both sizes of SIMD (unrolled steps against loops
    over rounds), SHAvite's [c512] (32 key words updated in place against 448
    words expanded first), Groestl's permutations (eight tables against two
    tables with rotations, unrolled against loops over the columns), and
    Luffa's permutations (two rows packed into 64-bit words against row by
    row). *)
Theorem compact_compressions b s data h x last c msg a V :
  length h = 16%nat → words 64 a → Forall Luffa.row V →
  Blake.COMPRESS64 b s = Blake.COMPRESS64_compact b s ∧
  Bmw.compress_big data h = Bmw.compress_big_small data h ∧
  Simd.compress_big_footprint x last h = Simd.compress_big x last h ∧
  Simd.compress_small_footprint x last h = Simd.compress_small x last h ∧
  Shavite.c512 h c msg = Shavite.c512_small h c msg ∧
  (length a = 8%nat →
    Groestl.PERM_SMALL_P_small a = Groestl.PERM_SMALL_P a ∧ Groestl.PERM_SMALL_Q_small a = Groestl.PERM_SMALL_Q a) ∧
  (length a = 16%nat →
    Groestl.PERM_BIG_P_small a = Groestl.PERM_BIG_P a ∧ Groestl.PERM_BIG_Q_small a = Groestl.PERM_BIG_Q a) ∧
  (length V = 3%nat → Luffa.P3 V = Luffa.P3_seq V) ∧ (length V = 4%nat → Luffa.P4 V = Luffa.P4_seq V) ∧
  (length V = 5%nat → Luffa.P5 V = Luffa.P5_seq V).
Proof.
  intros Hh Ha HV. destruct (Simd.compress_footprint_equiv x last h) as [S1 S2].
  destruct (Groestl.PERM_small_footprint a Ha) as [G1 G2].
  split; [exact (Blake.COMPRESS64_unrolled_compact b s)|]. split; [exact (Bmw.compress_big_small_footprint data h)|].
  split; [exact S1|]. split; [exact S2|]. split; [exact (Shavite.c512_forms h c msg Hh)|].
  split; [exact G1|]. split; [exact G2|]. exact (Luffa.permutations_parallel V HV).
Qed.

(** The bit-sliced layers at each bit position: Luffa's [SUB_CRUMB] is
    its 4-bit S-box, JH's [Sb] is the S-box the round constant's bit selects
    and [Lb] the MDS code over GF(2^4); Luffa's message injections [MI3],
    [MI4] and [MI5] are products with the matrices of its specification. *)
Theorem bit_layers a0 a1 a2 a3 b0 b1 b2 b3 c i buf V :
  (0 <= i < 32 →
    Luffa.nibble (Luffa.SUB_CRUMB a0 a1 a2 a3) i =
    Luffa.sbox @@ Z.to_nat (Luffa.nibble (a0, a1, a2, a3) i)) ∧
  (0 <= i < 64 →
    Jh.nibble (Jh.Sb a0 a1 a2 a3 c) i =
    (if Z.testbit c i then Jh.S1 else Jh.S0) @@ Z.to_nat (Jh.nibble (a0, a1, a2, a3) i)) ∧
  (let '(a, b) := Jh.Lb a0 a1 a2 a3 b0 b1 b2 b3 in
   (Jh.nibble a i, Jh.nibble b i) =
   Jh.Lmds (Jh.nibble (a0, a1, a2, a3) i) (Jh.nibble (b0, b1, b2, b3) i)) ∧
  (length V = 3%nat → Luffa.MI3 buf V = Luffa.mat_mul Luffa.matrix3 (V ++ [Luffa.load_M buf])) ∧
  (length V = 4%nat → Luffa.MI4 buf V = Luffa.mat_mul Luffa.matrix4 (V ++ [Luffa.load_M buf])) ∧
  (length V = 5%nat → Luffa.MI5 buf V = Luffa.mat_mul Luffa.matrix5 (V ++ [Luffa.load_M buf])).
Proof.
  split; [apply Luffa.SUB_CRUMB_sbox|]. split; [apply Jh.Sb_sbox|]. split; [apply Jh.Lb_mds|].
  apply Luffa.message_injection.
Qed.
