(* ===== verification/Serialize.v ===== *)
(** Serialization: the byte streams of [src/streams.h] and the integer formats
    of [src/serialize.h].

    The templates of serialize.h work with any stream that has [write] or
    [read]; those are the classes [Writer] and [Reader].  What a stream promises
    to the formats is [WriterLaws] (what is written is appended) and
    [ReaderLaws] (what is read is taken from the front, or the read throws);
    [CVectorWriter], [DataStream] and [SpanReader] discharge them.  The formats
    are proved against the laws: [puts] says that a serializer writes given
    bytes, [gets] that a deserializer takes given bytes off the front and
    returns a value. *)
From S2P Require Import Prelude SphTypes.

(** The exceptions, and the two outcomes that are not exceptions of the code:
    a write outside of a vector, and the end of the model's fuel. *)
Inductive failure :=
  | end_of_data
  | non_canonical
  | size_too_large
  | varint_too_large
  | out_of_range_bits
  | out_of_bounds_index
  | offset_overflow
  | invalid_isVarInts
  | oversized_message
  | write_outside_vector
  | out_of_fuel.

#[export] Instance failure_eq_dec : EqDecision failure.
Proof. solve_decision. Defined.

(** ** Streams *)

Class Writer (S : Type) := write : S → list Z → S.
Class Reader (S : Type) := read : S → nat → failure + list Z * S.

(** Deserializers: a state monad with exceptions. *)
Definition parser (S A : Type) : Type := S → failure + A * S.
Definition ret {S A} (a : A) : parser S A := λ s, inr (a, s).
Definition throw {S A} (e : failure) : parser S A := λ _, inl e.
Definition pbind {S A B} (m : parser S A) (k : A → parser S B) : parser S B :=
  λ s, match m s with inl e => inl e | inr (a, s') => k a s' end.
Notation "'let!' x := m 'in' k" := (pbind m (λ x, k))
  (at level 10, x pattern, m at level 100, k at level 200).

(** *** CVectorWriter *)

Record CVectorWriter := mk_writer { vchData : list Z; nPos : nat }.

(** The constructor: grow the vector to the starting position. *)
Definition CVectorWriter_at (vchDataIn : list Z) (nPosIn : nat) : CVectorWriter :=
  mk_writer (if (length vchDataIn <? nPosIn)%nat
             then vchDataIn ++ replicate (nPosIn - length vchDataIn) 0 else vchDataIn) nPosIn.

Definition CVectorWriter_write (s : CVectorWriter) (src : list Z) : CVectorWriter :=
  let nOverwrite := Nat.min (length src) (length (vchData s) - nPos s) in
  let v := if (nOverwrite =? 0)%nat then vchData s
           else memcpy (vchData s) (nPos s) (take nOverwrite src) in
  let v := if (nOverwrite <? length src)%nat then v ++ drop nOverwrite src else v in
  mk_writer v (nPos s + length src).

#[export] Instance CVectorWriter_writer : Writer CVectorWriter := CVectorWriter_write.

(** *** DataStream *)

Record DataStream := mk_stream { vch : list Z; m_read_pos : nat }.

Definition CheckedAdd (i j : Z) : option Z := if i + j <? 2 ^ 64 then Some (i + j) else None.

(** Where a read or a skip of [n] bytes ends, or [None] when it throws. *)
Definition next_read_pos (s : DataStream) (n : nat) : option nat :=
  match CheckedAdd (Z.of_nat (m_read_pos s)) (Z.of_nat n) with
  | Some p => if Z.of_nat (length (vch s)) <? p then None else Some (Z.to_nat p)
  | None => None
  end.

(** A stream read to its end is emptied. *)
Definition advance (s : DataStream) (p : nat) : DataStream :=
  if (p =? length (vch s))%nat then mk_stream [] 0 else mk_stream (vch s) p.

Definition DataStream_read (s : DataStream) (n : nat) : failure + list Z * DataStream :=
  if (n =? 0)%nat then inr ([], s)
  else match next_read_pos s n with
    | None => inl end_of_data
    | Some p => inr (take n (drop (m_read_pos s) (vch s)), advance s p)
    end.

Definition DataStream_ignore (s : DataStream) (num_ignore : nat) : failure + unit * DataStream :=
  match next_read_pos s num_ignore with
  | None => inl end_of_data
  | Some p => inr (tt, advance s p)
  end.

Definition DataStream_write (s : DataStream) (src : list Z) : DataStream :=
  mk_stream (vch s ++ src) (m_read_pos s).

#[export] Instance DataStream_writer : Writer DataStream := DataStream_write.
#[export] Instance DataStream_reader : Reader DataStream := DataStream_read.

Definition Compact (s : DataStream) : DataStream := mk_stream (drop (m_read_pos s) (vch s)) 0.

Definition Rewind (s : DataStream) (n : option nat) : bool * DataStream :=
  match n with
  | None => (true, mk_stream (vch s) 0)
  | Some n => if (m_read_pos s <? n)%nat then (false, s)
              else (true, mk_stream (vch s) (m_read_pos s - n))
  end.

(** *** SpanReader *)

Record SpanReader := mk_span { m_data : list Z }.

(** The constructor checks [pos] against the data and then moves its parameter,
    not the member: reading starts at the first byte whatever [pos] is. *)
Definition SpanReader_at (data : list Z) (pos : nat) : failure + SpanReader :=
  if (length data <? pos)%nat then inl end_of_data else inr (mk_span data).

Definition SpanReader_read (s : SpanReader) (n : nat) : failure + list Z * SpanReader :=
  if (n =? 0)%nat then inr ([], s)
  else if (length (m_data s) <? n)%nat then inl end_of_data
  else inr (take n (m_data s), mk_span (drop n (m_data s))).

#[export] Instance SpanReader_reader : Reader SpanReader := SpanReader_read.

(** ** Integers *)

Section Integers.
Context {S : Type} `{!Writer S} `{!Reader S}.

Definition ser_writedata8 (s : S) (obj : Z) : S := write s (le_split 1 obj).
Definition ser_writedata16 (s : S) (obj : Z) : S := write s (le_split 2 obj).
Definition ser_writedata32 (s : S) (obj : Z) : S := write s (le_split 4 obj).
Definition ser_writedata64 (s : S) (obj : Z) : S := write s (le_split 8 obj).

(** Read [n] bytes as an unsigned integer. *)
Definition ser_readdata (n : nat) : parser S Z :=
  let! obj := (λ s, read s n) in ret (le_join obj).
Definition ser_readdata8 : parser S Z := ser_readdata 1.
Definition ser_readdata16 : parser S Z := ser_readdata 2.
Definition ser_readdata32 : parser S Z := ser_readdata 4.
Definition ser_readdata64 : parser S Z := ser_readdata 8.

(** The conversion of an unsigned value to a signed type of [w] bits. *)
Definition to_signed (w x : Z) : Z := if x <? 2 ^ (w - 1) then x else x - 2 ^ w.

(** *** CompactSize *)

Definition MAX_SIZE : Z := 0x02000000.

Definition GetSizeOfCompactSize (nSize : Z) : nat :=
  if nSize <? 253 then 1 else if nSize <=? 0xFFFF then 1 + 2
  else if nSize <=? 0xFFFFFFFF then 1 + 4 else 1 + 8.

Definition WriteCompactSize (os : S) (nSize : Z) : S :=
  if nSize <? 253 then ser_writedata8 os nSize
  else if nSize <=? 0xFFFF then ser_writedata16 (ser_writedata8 os 253) nSize
  else if nSize <=? 0xFFFFFFFF then ser_writedata32 (ser_writedata8 os 254) nSize
  else ser_writedata64 (ser_writedata8 os 255) nSize.

(** The canonical range of a width. *)
Definition at_least (lo n : Z) : parser S Z := if n <? lo then throw non_canonical else ret n.

Definition ReadCompactSize (range_check : bool) : parser S Z :=
  let! chSize := ser_readdata8 in
  let! nSizeRet :=
    (if chSize <? 253 then ret chSize
     else if chSize =? 253 then let! n := ser_readdata16 in at_least 253 n
     else if chSize =? 254 then let! n := ser_readdata32 in at_least 0x10000 n
     else let! n := ser_readdata64 in at_least 0x100000000 n) in
  if range_check && (MAX_SIZE <? nSizeRet) then throw size_too_large else ret nSizeRet.

(** *** Vectors, with the serializer of an element *)

Definition Vector_Ser {A} (ser : S → A → S) (s : S) (v : list A) : S :=
  fold_left ser v (WriteCompactSize s (Z.of_nat (length v))).

(** *** VarInt, for an unsigned type of [w] bits *)

(** The loop of [WriteVarInt]: [tmp], the last digit first.  [len] digits are
    already there; [fuel] bounds the digits to come. *)
Fixpoint varint_digits (fuel len : nat) (n : Z) : list Z :=
  match fuel with
  | O => []
  | Datatypes.S fuel =>
      let d := Z.lor (Z.land n 0x7F) (if (len =? 0)%nat then 0 else 0x80) in
      if n <=? 0x7F then [d] else d :: varint_digits fuel (len + 1) ((n ≫ 7) - 1)
  end.

(** The array has [(w + 6) / 7] entries. *)
Definition varint_room (w : Z) : nat := Z.to_nat ((w + 6) / 7).

Definition WriteVarInt (w : Z) (os : S) (n : Z) : S :=
  fold_left ser_writedata8 (rev (varint_digits (varint_room w) 0 n)) os.

Fixpoint ReadVarInt_loop (w : Z) (fuel : nat) (n : Z) : parser S Z :=
  match fuel with
  | O => throw out_of_fuel
  | Datatypes.S fuel =>
      let! chData := ser_readdata8 in
      if (2 ^ w - 1) ≫ 7 <? n then throw varint_too_large else
      let n := Z.lor (n ≪ 7) (Z.land chData 0x7F) in
      if Z.land chData 0x80 =? 0 then ret n
      else if n =? 2 ^ w - 1 then throw varint_too_large
      else ReadVarInt_loop w fuel (n + 1)
  end.

(** Each digit but the first multiplies by 128, so the check on [n] ends the loop
    after at most one digit more than the array has. *)
Definition ReadVarInt (w : Z) : parser S Z := ReadVarInt_loop w (varint_room w + 1) 0.

End Integers.

(** ** What a stream promises *)

Class WriterLaws (S : Type) `{!Writer S} (ok : S → Prop) (out : S → list Z) : Prop := {
  write_ok s b : ok s → ok (write s b);
  write_out s b : ok s → out (write s b) = out s ++ b }.

Class ReaderLaws (S : Type) `{!Reader S} (ok : S → Prop) (rest : S → list Z) : Prop := {
  read_enough s n : ok s → (n <= length (rest s))%nat →
    ∃ s', read s n = inr (take n (rest s), s') ∧ ok s' ∧ rest s' = drop n (rest s);
  read_short s n : ok s → (length (rest s) < n)%nat → read s n = inl end_of_data }.

Definition writer_ok (s : CVectorWriter) : Prop := (nPos s <= length (vchData s))%nat.
Definition writer_out (s : CVectorWriter) : list Z := take (nPos s) (vchData s).

#[export] Instance CVectorWriter_laws : WriterLaws CVectorWriter writer_ok writer_out.
Proof.
  assert (H : ∀ s b, writer_ok s → writer_ok (write s b) ∧ writer_out (write s b) = writer_out s ++ b).
  { intros [v p] b Hp. unfold writer_ok, writer_out in *. unfold write, CVectorWriter_writer, CVectorWriter_write.
    cbn [vchData nPos] in *. set (k := Nat.min (length b) (length v - p)).
    assert (E : (if (k =? 0)%nat then v else memcpy v p (take k b)) = memcpy v p (take k b)).
    { destruct (Nat.eqb_spec k 0) as [->|]; [by rewrite take_0, memcpy_nil|done]. }
    rewrite E. clear E.
    assert (Hk : memcpy v p (take k b) = take p v ++ take k b ++ drop (p + k) v).
    { unfold memcpy. by rewrite length_take, (Nat.min_l k) by lia. }
    rewrite Hk. destruct (Nat.ltb_spec k (length b)) as [Hlt|Hge].
    - assert (k = length v - p)%nat as Ek by lia. rewrite (drop_ge v (p + k)) by lia.
      rewrite app_nil_r, <-app_assoc, take_drop.
      rewrite !length_app, length_take. split; [lia|].
      apply take_ge. rewrite length_app, length_take. lia.
    - rewrite (take_ge b k) by lia. rewrite !length_app, length_take, length_drop.
      split; [lia|]. rewrite app_assoc, take_app_le by (rewrite length_app, length_take; lia).
      apply take_ge. rewrite length_app, length_take. lia. }
  split; intros s b Hs; by destruct (H s b Hs).
Qed.

Definition stream_ok (s : DataStream) : Prop :=
  (m_read_pos s <= length (vch s))%nat ∧ Z.of_nat (length (vch s)) < 2 ^ 64.
Definition stream_pos_ok (s : DataStream) : Prop := (m_read_pos s <= length (vch s))%nat.
Definition unread (s : DataStream) : list Z := drop (m_read_pos s) (vch s).

#[export] Instance DataStream_writer_laws : WriterLaws DataStream stream_pos_ok unread.
Proof.
  split; intros [v p] b Hp; unfold stream_pos_ok, unread in *;
    unfold write, DataStream_writer, DataStream_write; cbn [vch m_read_pos] in *.
  - rewrite length_app. lia.
  - by rewrite drop_app_le.
Qed.

Lemma next_read_pos_spec s n :
  stream_ok s →
  next_read_pos s n = if (length (unread s) <? n)%nat then None else Some (m_read_pos s + n)%nat.
Proof.
  intros [Hp Hv]. unfold next_read_pos, CheckedAdd, unread. rewrite length_drop.
  destruct (Z.ltb_spec (Z.of_nat (m_read_pos s) + Z.of_nat n) (2 ^ 64)).
  - destruct (Z.ltb_spec (Z.of_nat (length (vch s))) (Z.of_nat (m_read_pos s) + Z.of_nat n)),
      (Nat.ltb_spec (length (vch s) - m_read_pos s) n); try lia; [done|]. f_equal. lia.
  - destruct (Nat.ltb_spec (length (vch s) - m_read_pos s) n); [done|lia].
Qed.

Lemma advance_spec s n :
  stream_ok s → (n <= length (unread s))%nat →
  stream_ok (advance s (m_read_pos s + n)) ∧ unread (advance s (m_read_pos s + n)) = drop n (unread s).
Proof.
  intros [Hp Hv]. unfold unread, advance, stream_ok. rewrite length_drop. intros Hn.
  destruct (Nat.eqb_spec (m_read_pos s + n) (length (vch s))) as [E|E]; cbn [vch m_read_pos].
  - split; [cbn; lia|]. rewrite drop_drop, (drop_ge (vch s)) by lia. done.
  - split; [lia|]. by rewrite drop_drop.
Qed.

#[export] Instance DataStream_reader_laws : ReaderLaws DataStream stream_ok unread.
Proof.
  split; intros s n Hs Hn; unfold read, DataStream_reader, DataStream_read.
  - destruct (Nat.eqb_spec n 0) as [->|Hz]; [by exists s; rewrite take_0, drop_0|].
    rewrite next_read_pos_spec by done. destruct (Nat.ltb_spec (length (unread s)) n); [lia|].
    exists (advance s (m_read_pos s + n)). destruct (advance_spec s n Hs Hn) as [Ho Hu].
    by rewrite Hu.
  - destruct (Nat.eqb_spec n 0) as [->|Hz]; [lia|].
    rewrite next_read_pos_spec by done. by destruct (Nat.ltb_spec (length (unread s)) n); [|lia].
Qed.

#[export] Instance SpanReader_laws : ReaderLaws SpanReader (λ _, True) m_data.
Proof.
  split; intros s n _ Hn; unfold read, SpanReader_reader, SpanReader_read.
  - destruct (Nat.eqb_spec n 0) as [->|Hz]; [by exists s; rewrite take_0, drop_0|].
    destruct (Nat.ltb_spec (length (m_data s)) n); [lia|]. eauto.
  - destruct (Nat.eqb_spec n 0) as [->|Hz]; [lia|].
    by destruct (Nat.ltb_spec (length (m_data s)) n); [|lia].
Qed.

Lemma pbind_assoc {S A B C} (m : parser S A) (k : A → parser S B) (l : B → parser S C) s :
  pbind (pbind m k) l s = pbind m (λ a, pbind (k a) l) s.
Proof. unfold pbind. by destruct (m s) as [|[a s']]. Qed.

(** ** Reasoning about serializers and deserializers *)

Section Formats.
Context {S : Type} `{!Writer S} `{!Reader S} {wok rok : S → Prop} {out rest : S → list Z}.
Context `{W : !WriterLaws S wok out} `{R : !ReaderLaws S rok rest}.

(** [f] writes the bytes [b]. *)
Definition puts (f : S → S) (b : list Z) : Prop :=
  ∀ s, wok s → wok (f s) ∧ out (f s) = out s ++ b.

(** [m] takes the bytes [b] off the front and returns [a]. *)
Definition gets {A} (m : parser S A) (b : list Z) (a : A) : Prop :=
  ∀ s tail, rok s → rest s = b ++ tail → ∃ s', m s = inr (a, s') ∧ rok s' ∧ rest s' = tail.

(** With the bytes [b] at the front, [m] throws [e]. *)
Definition fails {A} (m : parser S A) (b : list Z) (e : failure) : Prop :=
  ∀ s tail, rok s → rest s = b ++ tail → m s = inl e.

(** Whenever [m] returns [a], it took bytes [b] with [P a b]. *)
Definition takes {A} (m : parser S A) (P : A → list Z → Prop) : Prop :=
  ∀ s a s', rok s → bytes (rest s) → m s = inr (a, s') →
    rok s' ∧ ∃ b, rest s = b ++ rest s' ∧ P a b.

Lemma puts_write b : puts (λ s, write s b) b.
Proof. intros s Hs. split; [by apply (write_ok (WriterLaws := W))|by apply (write_out (WriterLaws := W))]. Qed.

Lemma puts_id : puts (λ s, s) [].
Proof. intros s Hs. by rewrite app_nil_r. Qed.

Lemma puts_seq f g b c : puts f b → puts g c → puts (λ s, g (f s)) (b ++ c).
Proof.
  intros Hf Hg s Hs. destruct (Hf s Hs) as [H1 E1]. destruct (Hg (f s) H1) as [H2 E2].
  split; [done|]. by rewrite E2, E1, <-app_assoc.
Qed.

Lemma puts_fold {A} (f : S → A → S) (enc : A → list Z) l :
  (∀ x, x ∈ l → puts (λ s, f s x) (enc x)) → puts (λ s, fold_left f l s) (concat (enc <$> l)).
Proof.
  induction l as [|x l IH]; intros H; cbn [fmap list_fmap concat fold_left]; [apply puts_id|].
  apply (puts_seq (λ s, f s x)); [apply H; left|]. apply IH. intros y Hy. apply H. by right.
Qed.

Lemma puts_ext f g b : (∀ s, f s = g s) → puts g b → puts f b.
Proof. intros E H s Hs. rewrite E. by apply H. Qed.

(** A serializer that is a sequence of writes. *)
Lemma puts_list f l : (∀ s, f s = fold_left write l s) → puts f (concat l).
Proof.
  intros E. apply (puts_ext _ (λ s, fold_left write l s)); [done|].
  pose proof (puts_fold write id l) as H. rewrite list_fmap_id in H. apply H. intros b _. apply puts_write.
Qed.

Lemma gets_ret {A} (a : A) : gets (ret a) [] a.
Proof. intros s tail Hs E. by exists s. Qed.

Lemma gets_bind {A B} (m : parser S A) (k : A → parser S B) b c a r :
  gets m b a → gets (k a) c r → gets (pbind m k) (b ++ c) r.
Proof.
  intros Hm Hk s tail Hs E. rewrite <-app_assoc in E. destruct (Hm s _ Hs E) as (s' & E1 & Hs' & E2).
  unfold pbind. rewrite E1. by apply Hk.
Qed.

(** A step that returns without reading the rest of its bytes. *)
Lemma gets_bind_nil {A B} (m : parser S A) (k : A → parser S B) b a r :
  gets m b a → gets (k a) [] r → gets (pbind m k) b r.
Proof. intros Hm Hk. rewrite <-(app_nil_r b). by apply gets_bind with a. Qed.

Lemma gets_read n b : length b = n → gets (λ s, read s n) b b.
Proof.
  intros Hl s tail Hs E. destruct (read_enough (ReaderLaws := R) s n Hs) as (s' & E1 & Hs' & E2).
  { rewrite E, length_app. lia. }
  exists s'. rewrite E1, E2, E, take_app_le, drop_app_le, take_ge, drop_ge by lia. done.
Qed.

Lemma fails_bind {A B} (m : parser S A) (k : A → parser S B) b e :
  fails m b e → fails (pbind m k) b e.
Proof. intros Hm s tail Hs E. unfold pbind. by rewrite (Hm s tail Hs E). Qed.

Lemma fails_after {A B} (m : parser S A) (k : A → parser S B) b c a e :
  gets m b a → fails (k a) c e → fails (pbind m k) (b ++ c) e.
Proof.
  intros Hm Hk s tail Hs E. rewrite <-app_assoc in E. destruct (Hm s _ Hs E) as (s' & E1 & Hs' & E2).
  unfold pbind. rewrite E1. by apply Hk with tail.
Qed.

Lemma gets_ext {A} (m m' : parser S A) b a : (∀ s, m s = m' s) → gets m' b a → gets m b a.
Proof. intros E H s tail Hs Eb. rewrite E. by apply H. Qed.

Lemma takes_ext {A} (m m' : parser S A) P : (∀ s, m s = m' s) → takes m' P → takes m P.
Proof. intros E H s a s' Hs Hb Em. rewrite E in Em. by apply (H s a s'). Qed.

Lemma takes_ret {A} (a : A) (P : A → list Z → Prop) : P a [] → takes (ret a) P.
Proof. intros HP s x s' Hs _ [= <- <-]. split; [done|]. by exists []. Qed.

Lemma takes_throw {A} e (P : A → list Z → Prop) : takes (throw e) P.
Proof. intros s x s' Hs _ [=]. Qed.

Lemma takes_bind {A B} (m : parser S A) (k : A → parser S B) (P : A → list Z → Prop)
    (Q : B → list Z → Prop) :
  takes m P → (∀ a b, bytes b → P a b → takes (k a) (λ r c, Q r (b ++ c))) → takes (pbind m k) Q.
Proof.
  intros Hm Hk s r s' Hs Hb E. unfold pbind in E. destruct (m s) as [|[a s1]] eqn:E1; [done|].
  destruct (Hm s a s1 Hs Hb E1) as (Hs1 & b & Eb & HP). rewrite Eb in Hb. apply Forall_app in Hb as [Hb Hr].
  destruct (Hk a b Hb HP s1 r s' Hs1 Hr E) as (Hs' & c & Ec & HQ).
  split; [done|]. exists (b ++ c). by rewrite Eb, Ec, <-app_assoc.
Qed.

Lemma takes_read n : takes (λ s, read s n) (λ a b, b = a ∧ length a = n).
Proof.
  intros s a s' Hs _ E. destruct (decide (n <= length (rest s))%nat) as [Hn|Hn].
  - destruct (read_enough (ReaderLaws := R) s n Hs Hn) as (t & E1 & Ht & E2).
    rewrite E1 in E. injection E as <- <-. split; [done|]. exists (take n (rest s)).
    rewrite E2, take_drop, length_take. split; [done|]. split; [done|lia].
  - rewrite (read_short (ReaderLaws := R) s n Hs) in E by lia. done.
Qed.
End Formats.

(** ** The integer formats *)

(** The bytes of a CompactSize. *)
Definition compact_bytes (n : Z) : list Z :=
  if n <? 253 then le_split 1 n
  else if n <=? 0xFFFF then 253 :: le_split 2 n
  else if n <=? 0xFFFFFFFF then 254 :: le_split 4 n
  else 255 :: le_split 8 n.

Lemma le_split_1 b : byte b → le_split 1 b = [b].
Proof. intros Hb. cbn [le_split]. by rewrite u8_id. Qed.

Lemma le_join_1 l : length l = 1%nat → bytes l → [le_join l] = l.
Proof.
  intros Hl Hb. rewrite <-(le_split_join l Hb) at 2. rewrite Hl. symmetry. apply le_split_1.
  apply (word_le_join l) in Hb. by rewrite Hl in Hb.
Qed.

Section IntegerFormats.
Context {S : Type} `{!Writer S} `{!Reader S} {wok rok : S → Prop} {out rest : S → list Z}.
Context `{W : !WriterLaws S wok out} `{R : !ReaderLaws S rok rest}.
#[local] Abbreviation puts := (puts (wok := wok) (out := out)).
#[local] Abbreviation gets := (gets (rok := rok) (rest := rest)).
#[local] Abbreviation fails := (fails (rok := rok) (rest := rest)).
#[local] Abbreviation takes := (takes (rok := rok) (rest := rest)).

Lemma puts_byte b : byte b → puts (λ s, ser_writedata8 s b) [b].
Proof. intros Hb. rewrite <-(le_split_1 b Hb). apply puts_write. Qed.

Lemma gets_readdata n v :
  0 <= v < 2 ^ (8 * Z.of_nat n) → gets (ser_readdata n) (le_split n v) v.
Proof.
  intros Hv. apply gets_bind_nil with (le_split n v); [apply gets_read, length_le_split|].
  rewrite le_join_split, Z.mod_small by done. apply gets_ret.
Qed.

Lemma gets_byte b : byte b → gets ser_readdata8 [b] b.
Proof. intros Hb. rewrite <-(le_split_1 b Hb) at 1. by apply gets_readdata. Qed.

Lemma takes_readdata n :
  takes (ser_readdata n) (λ v b, b = le_split n v ∧ 0 <= v < 2 ^ (8 * Z.of_nat n)).
Proof.
  apply takes_bind with (1 := takes_read n). intros a b Hb [-> Hl].
  apply takes_ret. rewrite app_nil_r, <-Hl. split; [by rewrite le_split_join|by apply word_le_join].
Qed.

Lemma takes_byte : takes ser_readdata8 (λ v b, b = [v] ∧ byte v).
Proof.
  intros s a s' Hs Hb E. destruct (takes_readdata 1 s a s' Hs Hb E) as (Hs' & b & Eb & -> & Ha).
  split; [done|]. exists [a]. rewrite Eb, (le_split_1 a Ha). done.
Qed.

Lemma WriteCompactSize_puts n :
  0 <= n < 2 ^ 64 → puts (λ s, WriteCompactSize s n) (compact_bytes n).
Proof.
  intros Hn. unfold WriteCompactSize, compact_bytes. destruct (n <? 253); [apply puts_write|].
  destruct (n <=? 0xFFFF); [|destruct (n <=? 0xFFFFFFFF)].
  - apply (puts_seq (λ s, ser_writedata8 s 253) (λ s, ser_writedata16 s n) [253]);
      [by apply puts_byte|apply puts_write].
  - apply (puts_seq (λ s, ser_writedata8 s 254) (λ s, ser_writedata32 s n) [254]);
      [by apply puts_byte|apply puts_write].
  - apply (puts_seq (λ s, ser_writedata8 s 255) (λ s, ser_writedata64 s n) [255]);
      [by apply puts_byte|apply puts_write].
Qed.

(** The number a CompactSize encodes, before the range check. *)
Definition compact_value (chSize : Z) : parser S Z :=
  if chSize <? 253 then ret chSize
  else if chSize =? 253 then let! n := ser_readdata16 in at_least 253 n
  else if chSize =? 254 then let! n := ser_readdata32 in at_least 0x10000 n
  else let! n := ser_readdata64 in at_least 0x100000000 n.

Lemma gets_at_least lo k n :
  lo <= n < 2 ^ (8 * Z.of_nat k) → 0 <= lo →
  gets (let! n := ser_readdata k in at_least lo n) (le_split k n) n.
Proof.
  intros Hn Hlo. apply gets_bind_nil with n; [apply gets_readdata; lia|].
  unfold at_least. destruct (Z.ltb_spec n lo); [lia|apply gets_ret].
Qed.

Lemma compact_value_gets n :
  0 <= n < 2 ^ 64 →
  gets (let! chSize := ser_readdata8 in compact_value chSize) (compact_bytes n) n.
Proof.
  intros Hn. unfold compact_bytes. destruct (Z.ltb_spec n 253).
  { apply gets_bind_nil with n.
    - apply gets_readdata. change (8 * Z.of_nat 1) with 8. lia.
    - unfold compact_value. destruct (Z.ltb_spec n 253); [apply gets_ret|lia]. }
  destruct (Z.leb_spec n 0xFFFF); [|destruct (Z.leb_spec n 0xFFFFFFFF)].
  - apply (gets_bind _ _ [253] _ 253); [by apply gets_byte|].
    apply (gets_at_least 253 2); [change (8 * Z.of_nat 2) with 16; lia|lia].
  - apply (gets_bind _ _ [254] _ 254); [by apply gets_byte|].
    apply (gets_at_least 0x10000 4); [change (8 * Z.of_nat 4) with 32; lia|lia].
  - apply (gets_bind _ _ [255] _ 255); [by apply gets_byte|].
    apply (gets_at_least 0x100000000 8); [change (8 * Z.of_nat 8) with 64; lia|lia].
Qed.

Lemma takes_at_least lo k :
  takes (let! n := ser_readdata k in at_least lo n)
    (λ v b, b = le_split k v ∧ lo <= v < 2 ^ (8 * Z.of_nat k)).
Proof.
  apply takes_bind with (1 := takes_readdata k). intros n b _ [-> Hn]. unfold at_least.
  destruct (Z.ltb_spec n lo); [apply takes_throw|]. apply takes_ret. rewrite app_nil_r. split; [done|lia].
Qed.

Lemma compact_value_takes :
  takes (let! chSize := ser_readdata8 in compact_value chSize)
    (λ n b, b = compact_bytes n ∧ 0 <= n < 2 ^ 64).
Proof.
  apply takes_bind with (1 := takes_byte). intros ch b _ [-> Hch]. unfold compact_value, compact_bytes.
  assert (Hk : ∀ lo k, (∀ v, lo <= v < 2 ^ (8 * Z.of_nat k) →
     ch :: le_split k v = compact_bytes v ∧ 0 <= v < 2 ^ 64) →
     takes (let! n := ser_readdata k in at_least lo n)
       (λ n c, [ch] ++ c = compact_bytes n ∧ 0 <= n < 2 ^ 64)).
  { intros lo k HQ s a s' Hs Hb E.
    destruct (takes_at_least lo k s a s' Hs Hb E) as (Hs' & c & Ec & -> & Ha).
    split; [done|]. exists (le_split k a). split; [done|]. by apply HQ. }
  unfold word in Hch. destruct (Z.ltb_spec ch 253).
  { apply takes_ret. rewrite app_nil_r. destruct (Z.ltb_spec ch 253); [|lia].
    rewrite le_split_1 by (unfold word; lia). split; [done|lia]. }
  destruct (Z.eqb_spec ch 253) as [->|]; [|destruct (Z.eqb_spec ch 254) as [->|]];
    [apply (Hk 253 2%nat)|apply (Hk 0x10000 4%nat)
    |assert (ch = 255) as -> by lia; apply (Hk 0x100000000 8%nat)];
    intros v Hv; cbn in Hv; unfold compact_bytes;
    (destruct (Z.ltb_spec v 253); [lia|]); destruct (Z.leb_spec v 0xFFFF); try lia;
    try (destruct (Z.leb_spec v 0xFFFFFFFF); try lia); (split; [done|lia]).
Qed.

Lemma ReadCompactSize_value rc s :
  ReadCompactSize (S := S) rc s =
  (let! n := (let! chSize := ser_readdata8 in compact_value chSize) in
   if rc && (MAX_SIZE <? n) then throw size_too_large else ret n) s.
Proof. unfold ReadCompactSize. by rewrite pbind_assoc. Qed.

Lemma ReadCompactSize_gets rc n :
  0 <= n < 2 ^ 64 → (rc = true → n <= MAX_SIZE) → gets (ReadCompactSize rc) (compact_bytes n) n.
Proof.
  intros Hn Hrc. apply (gets_ext _ _ _ _ (ReadCompactSize_value rc)).
  apply gets_bind_nil with n; [by apply compact_value_gets|].
  destruct rc; cbn [andb]; [|apply gets_ret]. specialize (Hrc eq_refl).
  destruct (Z.ltb_spec MAX_SIZE n); [lia|apply gets_ret].
Qed.

Lemma ReadCompactSize_fails n :
  MAX_SIZE < n < 2 ^ 64 → fails (ReadCompactSize true) (compact_bytes n) size_too_large.
Proof.
  intros Hn s tail Hs E. rewrite ReadCompactSize_value. revert s tail Hs E.
  rewrite <-(app_nil_r (compact_bytes n)). unfold MAX_SIZE in Hn.
  apply fails_after with n; [apply compact_value_gets; lia|]. cbn [andb].
  unfold MAX_SIZE. by destruct (Z.ltb_spec 0x02000000 n); [|lia].
Qed.

Lemma ReadCompactSize_takes rc :
  takes (ReadCompactSize rc) (λ n b, b = compact_bytes n ∧ 0 <= n < 2 ^ 64 ∧ (rc = true → n <= MAX_SIZE)).
Proof.
  apply (takes_ext _ _ _ (ReadCompactSize_value rc)).
  apply takes_bind with (1 := compact_value_takes). intros n b _ [-> Hn].
  destruct rc; cbn [andb]; [destruct (Z.ltb_spec MAX_SIZE n); [apply takes_throw|]|];
    apply takes_ret; rewrite app_nil_r; (split; [done|split; [done|intros; (done || lia)]]).
Qed.

Lemma length_compact_bytes n : length (compact_bytes n) = GetSizeOfCompactSize n.
Proof.
  unfold compact_bytes, GetSizeOfCompactSize.
  destruct (n <? 253); [done|]. destruct (n <=? 0xFFFF); [done|]. by destruct (n <=? 0xFFFFFFFF).
Qed.

(** The CompactSize format, over any stream: [WriteCompactSize] writes
    [GetSizeOfCompactSize] bytes, [ReadCompactSize] reads them back, throws
    when the range check is on and the size exceeds [MAX_SIZE], and accepts no
    other bytes: whenever it returns a value, what it took off the stream is
    the encoding of that value. *)
Theorem compact_size_codec n rc :
  0 <= n < 2 ^ 64 →
  puts (λ s, WriteCompactSize s n) (compact_bytes n) ∧
  length (compact_bytes n) = GetSizeOfCompactSize n ∧
  (rc = false ∨ n <= MAX_SIZE → gets (ReadCompactSize rc) (compact_bytes n) n) ∧
  (MAX_SIZE < n → fails (ReadCompactSize true) (compact_bytes n) size_too_large) ∧
  takes (ReadCompactSize rc) (λ v b, b = compact_bytes v).
Proof.
  intros Hn. split; [by apply WriteCompactSize_puts|]. split; [apply length_compact_bytes|].
  split; [intros [->|Hm]; by apply ReadCompactSize_gets|].
  split; [intros Hm; apply ReadCompactSize_fails; lia|].
  intros s v s' Hs Hb E. destruct (ReadCompactSize_takes rc s v s' Hs Hb E) as (Hs' & b & Eb & -> & _).
  eauto.
Qed.
End IntegerFormats.

(** *** VarInt *)

Lemma land_7F n : Z.land n 0x7F = n mod 128.
Proof. change 0x7F with (Z.ones 7). by rewrite Z.land_ones. Qed.

(** A digit with the continuation bit. *)
Lemma digit_flagged n : Z.lor (Z.land n 0x7F) 0x80 = n mod 128 + 128.
Proof.
  rewrite land_7F, Z.lor_comm, (Z.add_comm (n mod 128)).
  apply (lor_shiftl_add 7 1); [lia|]. apply Z.mod_pos_bound. lia.
Qed.

(** The loop's next [n] for the digit [ch]. *)
Lemma digit_step n ch : Z.lor (n ≪ 7) (Z.land ch 0x7F) = n * 128 + ch mod 128.
Proof. rewrite land_7F, lor_shiftl_add; [done|done|apply Z.mod_pos_bound; lia]. Qed.

Lemma digit_flag ch : byte ch → (Z.land ch 0x80 =? 0) = (ch <? 128).
Proof.
  intros Hc. assert (H : ∀ c : nat, (c < 256)%nat → (Z.land (Z.of_nat c) 0x80 =? 0) = (Z.of_nat c <? 128)).
  { intros c Hl. do 256 (destruct c as [|c]; [reflexivity|]). lia. }
  rewrite <-(Z2Nat.id ch) by (unfold word in Hc; lia). apply H. unfold word in Hc. lia.
Qed.

(** The digits of [WriteVarInt], last first, do not depend on the fuel when it
    is enough. *)
Lemma varint_digits_enough f f' len n :
  n < 128 ^ Z.of_nat f → (f <= f')%nat → (0 < f)%nat → varint_digits f len n = varint_digits f' len n.
Proof.
  revert f' len n. induction f as [|f IH]; intros f' len n Hn Hf H0; [lia|].
  destruct f' as [|f']; [lia|]. cbn [varint_digits]. destruct (Z.leb_spec n 0x7F); [done|].
  f_equal. rewrite Z.shiftr_div_pow2 by lia. change (2 ^ 7) with 128.
  destruct f as [|f]; [cbn in Hn; lia|].
  apply IH; [|lia|lia]. rewrite Nat2Z.inj_succ, Z.pow_succ_r in Hn by lia.
  assert (n / 128 < 128 ^ Z.of_nat (Datatypes.S f)) by (apply Z.div_lt_upper_bound; lia). lia.
Qed.

Lemma varint_room_pos w : 0 < w → (0 < varint_room w)%nat.
Proof.
  intros Hw. unfold varint_room. assert (1 <= (w + 6) / 7) by (apply Z.div_le_lower_bound; lia). lia.
Qed.

(** With the continuation bit on every digit. *)
Definition varint_prefix (w n : Z) : list Z := rev (varint_digits (varint_room w) 1 n).
Definition varint_bytes (w n : Z) : list Z := rev (varint_digits (varint_room w) 0 n).

Lemma varint_room_enough w n : 0 < w → n < 2 ^ w → n < 128 ^ Z.of_nat (varint_room w).
Proof.
  intros Hw Hn. unfold varint_room. rewrite Z2Nat.id by (apply Z.div_pos; lia).
  change 128 with (2 ^ 7). rewrite <-Z.pow_mul_r by (try apply Z.div_pos; lia).
  eapply Z.lt_le_trans; [exact Hn|]. apply Z.pow_le_mono_r; [lia|].
  pose proof (Z.div_mod (w + 6) 7 ltac:(lia)). pose proof (Z.mod_pos_bound (w + 6) 7 ltac:(lia)). lia.
Qed.

Lemma varint_digits_flagged f len n : varint_digits f (len + 1) n = varint_digits f 1 n.
Proof.
  revert len n. induction f as [|f IH]; intros len n; [done|]. cbn [varint_digits].
  replace (len + 1 =? 0)%nat with false by (symmetry; apply Nat.eqb_neq; lia). cbn [Nat.eqb].
  rewrite (IH (len + 1)%nat), (IH 1%nat). done.
Qed.

(** One digit of the loop: the last one, and the rest with the bit set. *)
Lemma varint_unfold w len n :
  0 < w → 0 <= n < 2 ^ w →
  rev (varint_digits (varint_room w) len n) =
  (if n <=? 0x7F then [] else varint_prefix w (n / 128 - 1)) ++
  [n mod 128 + if (len =? 0)%nat then 0 else 128].
Proof.
  intros Hw Hn. pose proof (varint_room_enough w n Hw ltac:(lia)) as Hr.
  pose proof (varint_room_pos w Hw) as H0. destruct (varint_room w) as [|f] eqn:Er; [lia|].
  cbn [varint_digits].
  assert (E : Z.lor (Z.land n 0x7F) (if (len =? 0)%nat then 0 else 0x80) =
              n mod 128 + if (len =? 0)%nat then 0 else 128).
  { destruct (len =? 0)%nat; [by rewrite Z.lor_0_r, land_7F, Z.add_0_r|apply digit_flagged]. }
  rewrite E. destruct (Z.leb_spec n 0x7F); [done|]. cbn [rev]. f_equal.
  rewrite varint_digits_flagged, Z.shiftr_div_pow2 by lia. change (2 ^ 7) with 128.
  rewrite Nat2Z.inj_succ, Z.pow_succ_r in Hr by lia.
  assert (n / 128 < 128 ^ Z.of_nat f) by (apply Z.div_lt_upper_bound; lia).
  assert (1 <= n / 128) by (apply Z.div_le_lower_bound; lia).
  destruct f as [|f]; [cbn in *; lia|]. unfold varint_prefix. rewrite Er. f_equal.
  apply varint_digits_enough; lia.
Qed.

Lemma varint_prefix_eq w n :
  0 < w → 0 <= n < 2 ^ w →
  varint_prefix w n =
  (if n <=? 0x7F then [] else varint_prefix w (n / 128 - 1)) ++ [n mod 128 + 128].
Proof. intros. by apply (varint_unfold w 1). Qed.

Lemma varint_bytes_eq w n :
  0 < w → 0 <= n < 2 ^ w →
  varint_bytes w n =
  (if n <=? 0x7F then [] else varint_prefix w (n / 128 - 1)) ++ [n mod 128].
Proof. intros. unfold varint_bytes. by rewrite (varint_unfold w 0), Z.add_0_r. Qed.

(** The bytes read before the loop has [n]. *)
Definition varint_read (w n : Z) : list Z := if n =? 0 then [] else varint_prefix w (n - 1).

(** The two ways a digit continues the bytes read so far. *)
Lemma varint_read_last w n d :
  0 < w → 0 <= n → 0 <= d < 128 → n * 128 + d < 2 ^ w →
  varint_read w n ++ [d] = varint_bytes w (n * 128 + d).
Proof.
  intros Hw Hn Hd Hv. rewrite varint_bytes_eq by lia. unfold varint_read.
  rewrite (Z.add_comm (n * 128)), Z_mod_plus_full, Z.div_add, (Z.mod_small d), (Z.div_small d) by lia.
  destruct (Z.eqb_spec n 0), (Z.leb_spec (d + n * 128) 0x7F); try lia; done.
Qed.

Lemma varint_read_next w n d :
  0 < w → 0 <= n → 0 <= d < 128 → n * 128 + d < 2 ^ w →
  varint_read w n ++ [d + 128] = varint_read w (n * 128 + d + 1).
Proof.
  intros Hw Hn Hd Hv. unfold varint_read at 2. destruct (Z.eqb_spec (n * 128 + d + 1) 0); [lia|].
  rewrite Z.add_simpl_r, varint_prefix_eq by lia. unfold varint_read.
  rewrite (Z.add_comm (n * 128)), Z_mod_plus_full, Z.div_add, (Z.mod_small d), (Z.div_small d) by lia.
  destruct (Z.eqb_spec n 0), (Z.leb_spec (d + n * 128) 0x7F); try lia; done.
Qed.

Lemma length_varint_digits f len n : (length (varint_digits f len n) <= f)%nat.
Proof.
  revert len n. induction f as [|f IH]; intros len n; [done|]. cbn [varint_digits].
  destruct (n <=? 0x7F); cbn [length]; [lia|]. specialize (IH (len + 1)%nat ((n ≫ 7) - 1)). lia.
Qed.

Lemma bytes_varint_digits f len n : bytes (varint_digits f len n).
Proof.
  revert len n. induction f as [|f IH]; intros len n; cbn [varint_digits]; [done|].
  assert (byte (Z.lor (Z.land n 0x7F) (if (len =? 0)%nat then 0 else 0x80))).
  { apply word_lor; [lia| |destruct (len =? 0)%nat; unfold word; lia].
    apply word_land_r; [lia|unfold word; lia]. }
  destruct (n <=? 0x7F); [by apply Forall_singleton|]. by apply Forall_cons.
Qed.

Section VarInt.
Context {S : Type} `{!Writer S} `{!Reader S} {wok rok : S → Prop} {out rest : S → list Z}.
Context `{W : !WriterLaws S wok out} `{R : !ReaderLaws S rok rest}.
#[local] Abbreviation puts := (puts (wok := wok) (out := out)).
#[local] Abbreviation gets := (gets (rok := rok) (rest := rest)).
#[local] Abbreviation takes := (takes (rok := rok) (rest := rest)).
Context (w : Z) (Hw : 7 <= w).

Lemma WriteVarInt_puts n : puts (λ s, WriteVarInt w s n) (varint_bytes w n).
Proof.
  assert (Hb : bytes (varint_bytes w n)) by (apply Forall_rev, bytes_varint_digits).
  assert (E : concat ((λ b, [b]) <$> varint_bytes w n) = varint_bytes w n).
  { clear Hb. induction (varint_bytes w n) as [|b l IH]; [done|]. cbn in *. by rewrite IH. }
  pose proof (puts_fold (wok := wok) (out := out) ser_writedata8 (λ b, [b]) (varint_bytes w n)) as H. rewrite E in H. apply H.
  rewrite Forall_forall in Hb. intros x Hx. apply (puts_byte (W := W)). by apply Hb, list_elem_of_In.
Qed.

Lemma read8_failure (s : S) e : ser_readdata8 s = inl e → rok s → e = end_of_data.
Proof.
  unfold ser_readdata8, ser_readdata, pbind. intros E Hs.
  destruct (decide (1 <= length (rest s))%nat) as [Hn|Hn].
  - destruct (read_enough (ReaderLaws := R) s 1 Hs Hn) as (t & E1 & _). by rewrite E1 in E.
  - rewrite (read_short (ReaderLaws := R) s 1 Hs) in E by lia. congruence.
Qed.

(** One turn of the loop. *)
Lemma varint_loop_step fuel n ch (s s' : S) :
  ser_readdata8 s = inr (ch, s') → byte ch →
  ReadVarInt_loop w (Datatypes.S fuel) n s =
  if 2 ^ w <=? n * 128 then inl varint_too_large
  else if ch <? 128 then inr (n * 128 + ch mod 128, s')
  else if n * 128 + ch mod 128 =? 2 ^ w - 1 then inl varint_too_large
  else ReadVarInt_loop w fuel (n * 128 + ch mod 128 + 1) s'.
Proof.
  intros Hr Hc. cbn [ReadVarInt_loop]. unfold pbind. rewrite Hr. cbv zeta.
  rewrite digit_step, digit_flag, Z.shiftr_div_pow2 by (done || lia). change (2 ^ 7) with 128.
  assert (E : ((2 ^ w - 1) / 128 <? n) = (2 ^ w <=? n * 128)).
  { destruct (Z.leb_spec (2 ^ w) (n * 128)) as [H|H].
    - apply Z.ltb_lt, Z.div_lt_upper_bound; lia.
    - apply Z.ltb_ge, Z.div_le_lower_bound; lia. }
  rewrite E. destruct (2 ^ w <=? n * 128); [done|]. destruct (ch <? 128); [done|].
  by destruct (n * 128 + ch mod 128 =? 2 ^ w - 1).
Qed.

Lemma varint_gets_next fuel m d c r :
  0 <= m → 0 <= d < 128 → m * 128 + d < 2 ^ w - 1 →
  gets (ReadVarInt_loop w fuel (m * 128 + d + 1)) c r →
  gets (ReadVarInt_loop w (Datatypes.S fuel) m) ([d + 128] ++ c) r.
Proof.
  intros Hm Hd Hv Hk s tail Hs E. rewrite <-app_assoc in E.
  assert (Hb : byte (d + 128)) by (unfold word; lia).
  destruct (gets_byte (R := R) (d + 128) Hb s _ Hs E) as (s' & E1 & Hs' & E2).
  rewrite (varint_loop_step fuel m (d + 128) s s' E1 Hb).
  replace ((d + 128) mod 128) with d by (rewrite <-(Z.mul_1_l 128) at 1; rewrite Z_mod_plus_full, Z.mod_small; lia).
  destruct (Z.leb_spec (2 ^ w) (m * 128)); [lia|]. destruct (Z.ltb_spec (d + 128) 128); [lia|].
  destruct (Z.eqb_spec (m * 128 + d) (2 ^ w - 1)); [lia|]. by apply Hk.
Qed.

Lemma varint_gets_last fuel m d :
  0 <= m → 0 <= d < 128 → m * 128 + d < 2 ^ w →
  gets (ReadVarInt_loop w (Datatypes.S fuel) m) [d] (m * 128 + d).
Proof.
  intros Hm Hd Hv s tail Hs E. assert (Hb : byte d) by (unfold word; lia).
  destruct (gets_byte (R := R) d Hb s _ Hs E) as (s' & E1 & Hs' & E2).
  rewrite (varint_loop_step fuel m d s s' E1 Hb), Z.mod_small by lia.
  destruct (Z.leb_spec (2 ^ w) (m * 128)); [lia|]. destruct (Z.ltb_spec d 128); [|lia]. eauto.
Qed.

(** The loop reaches [n] after the bytes [varint_read w n]. *)
Lemma varint_gets_prefix n fuel c r :
  0 <= n < 2 ^ w →
  gets (ReadVarInt_loop w fuel n) c r →
  gets (ReadVarInt_loop w (length (varint_read w n) + fuel) 0) (varint_read w n ++ c) r.
Proof.
  revert fuel c. induction n as [n IH] using (well_founded_induction (Z.lt_wf 0)).
  intros fuel c Hn Hk. destruct (decide (n = 0)) as [->|Hz]; [exact Hk|].
  pose proof (Z.div_mod (n - 1) 128 ltac:(lia)) as E. pose proof (Z.mod_pos_bound (n - 1) 128 ltac:(lia)) as Hd.
  set (m := (n - 1) / 128) in *. set (d := (n - 1) mod 128) in *.
  assert (Hm : 0 <= m) by (apply Z.div_pos; lia). clearbody m d.
  assert (En : n = m * 128 + d + 1) by lia. subst n.
  rewrite <-(varint_read_next w m d) by lia. rewrite <-app_assoc, length_app, <-Nat.add_assoc.
  apply IH; [lia|lia|]. apply varint_gets_next; lia || done.
Qed.

Lemma varint_loop_more fuel k n (s : S) x :
  ReadVarInt_loop w fuel n s = inr x → ReadVarInt_loop w (fuel + k) n s = inr x.
Proof.
  revert n s. induction fuel as [|fuel IH]; intros n s; [done|]. cbn [ReadVarInt_loop Nat.add].
  unfold pbind. destruct (ser_readdata8 s) as [|[ch s']]; [done|].
  destruct (_ <? n); [done|]. destruct (_ =? 0); [done|]. destruct (_ =? 2 ^ w - 1); [done|]. apply IH.
Qed.

Lemma ReadVarInt_gets v : 0 <= v < 2 ^ w → gets (ReadVarInt w) (varint_bytes w v) v.
Proof.
  intros Hv. pose proof (Z.div_mod v 128 ltac:(lia)) as E. pose proof (Z.mod_pos_bound v 128 ltac:(lia)) as Hd.
  set (m := v / 128) in *. set (d := v mod 128) in *. assert (Hm : 0 <= m) by (apply Z.div_pos; lia).
  clearbody m d. assert (Ev : v = m * 128 + d) by lia. clear E. subst v.
  rewrite <-varint_read_last by lia. intros s tail Hs Eb.
  destruct (varint_gets_prefix m 1 [d] (m * 128 + d) ltac:(lia) (varint_gets_last 0 m d Hm Hd ltac:(lia))
    s tail Hs Eb) as (s' & E1 & H').
  exists s'. split; [|exact H']. unfold ReadVarInt.
  assert (Hl : (length (varint_read w m) <= varint_room w)%nat).
  { unfold varint_read. destruct (m =? 0); [cbn; lia|]. unfold varint_prefix.
    rewrite length_rev. apply length_varint_digits. }
  replace (varint_room w + 1)%nat with (length (varint_read w m) + 1 + (varint_room w - length (varint_read w m)))%nat by lia.
  by apply varint_loop_more.
Qed.

Lemma varint_loop_takes fuel n :
  0 <= n < 2 ^ w →
  takes (ReadVarInt_loop w fuel n) (λ v b, varint_read w n ++ b = varint_bytes w v ∧ 0 <= v < 2 ^ w).
Proof.
  revert n. induction fuel as [|fuel IH]; intros n Hn s v s' Hs Hb E; [done|].
  destruct (ser_readdata8 s) as [|[ch s1]] eqn:E1; [cbn [ReadVarInt_loop] in E; unfold pbind in E; by rewrite E1 in E|].
  destruct (takes_byte (R := R) s ch s1 Hs Hb E1) as (Hs1 & b & Eb & -> & Hc).
  rewrite (varint_loop_step fuel n ch s s1 E1 Hc) in E. rewrite Eb in Hb. apply Forall_app in Hb as [_ Hb].
  destruct (Z.leb_spec (2 ^ w) (n * 128)) as [|Hlt]; [done|].
  pose proof (Z.mod_pos_bound ch 128 ltac:(lia)) as Hd. unfold word in Hc.
  assert (Hmax : n * 128 + ch mod 128 < 2 ^ w).
  { assert (E2 : 2 ^ w = 128 * 2 ^ (w - 7)) by (change 128 with (2 ^ 7); rewrite <-Z.pow_add_r by lia; f_equal; lia).
    lia. }
  destruct (Z.ltb_spec ch 128).
  - injection E as <- <-. split; [done|]. exists [ch]. split; [done|].
    rewrite (Z.mod_small ch) in * by lia. split; [apply varint_read_last; lia|lia].
  - destruct (Z.eqb_spec (n * 128 + ch mod 128) (2 ^ w - 1)); [done|].
    destruct (IH (n * 128 + ch mod 128 + 1) ltac:(lia) s1 v s' Hs1 Hb E) as (Hs' & c & Ec & Ev & Hv).
    split; [done|]. exists (ch :: c). split; [by rewrite Eb, Ec|]. split; [|done].
    rewrite <-Ev, <-varint_read_next by lia. rewrite <-app_assoc. cbn [app]. do 2 f_equal.
    rewrite (Z.mod_eq ch 128) by lia. assert (ch / 128 = 1) as -> by (symmetry; apply (Z.div_unique _ _ _ (ch - 128)); lia).
    lia.
Qed.

(** The exceptions of [ReadVarInt]; the end of the fuel is not among them. *)
Definition varint_error (e : failure) : Prop := e = end_of_data ∨ e = varint_too_large.

Lemma varint_loop_errors fuel n (s : S) e :
  rok s → bytes (rest s) → 2 ^ w <= n * 128 ^ Z.of_nat fuel → (0 < fuel)%nat →
  ReadVarInt_loop w fuel n s = inl e → varint_error e.
Proof.
  revert n s. induction fuel as [|fuel IH]; intros n s Hs Hb Hn H0; [lia|].
  destruct (ser_readdata8 s) as [e'|[ch s1]] eqn:E1.
  { cbn [ReadVarInt_loop]. unfold pbind. rewrite E1. intros [= <-]. left. by apply read8_failure in E1. }
  destruct (takes_byte (R := R) s ch s1 Hs Hb E1) as (Hs1 & b & Eb & -> & Hc).
  rewrite (varint_loop_step fuel n ch s s1 E1 Hc). rewrite Eb in Hb. apply Forall_app in Hb as [_ Hb].
  destruct (Z.leb_spec (2 ^ w) (n * 128)) as [|Hlt]; [intros [= <-]; by right|]. destruct (ch <? 128); [done|].
  destruct (_ =? 2 ^ w - 1); [intros [= <-]; by right|]. rewrite Nat2Z.inj_succ, Z.pow_succ_r in Hn by lia.
  pose proof (Z.mod_pos_bound ch 128 ltac:(lia)).
  destruct fuel as [|fuel]; [cbn in Hn; lia|].
  assert (0 < 128 ^ Z.of_nat (Datatypes.S fuel)) by lia.
  apply IH; [done|done|nia|lia].
Qed.

Lemma ReadVarInt_errors (s : S) e :
  rok s → bytes (rest s) → ReadVarInt w s = inl e → varint_error e.
Proof.
  intros Hs Hb. unfold ReadVarInt. rewrite Nat.add_1_r.
  pose proof (varint_room_pos w ltac:(lia)) as H0.
  pose proof (varint_room_enough w (2 ^ w - 1) ltac:(lia) ltac:(lia)) as Hr.
  destruct (ser_readdata8 s) as [e'|[ch s1]] eqn:E1.
  { cbn [ReadVarInt_loop]. unfold pbind. rewrite E1. intros [= <-]. left. by apply read8_failure in E1. }
  destruct (takes_byte (R := R) s ch s1 Hs Hb E1) as (Hs1 & b & Eb & -> & Hc).
  rewrite (varint_loop_step _ 0 ch s s1 E1 Hc). rewrite Eb in Hb. apply Forall_app in Hb as [_ Hb].
  destruct (2 ^ w <=? 0 * 128); [intros [= <-]; by right|]. destruct (ch <? 128); [done|].
  destruct (_ =? 2 ^ w - 1); [intros [= <-]; by right|].
  pose proof (Z.mod_pos_bound ch 128 ltac:(lia)). apply varint_loop_errors; [done|done|nia|done].
Qed.

Lemma ReadVarInt_takes : takes (ReadVarInt w) (λ v b, b = varint_bytes w v ∧ 0 <= v < 2 ^ w).
Proof. apply (varint_loop_takes (varint_room w + 1) 0). lia. Qed.

(** The VarInt format for an unsigned type of at least 7 bits, over any
    stream: what [WriteVarInt] writes [ReadVarInt] reads back, each number has
    exactly one encoding that [ReadVarInt] accepts, and the unbounded loop of
    [ReadVarInt] ends on every input: it returns, or throws at the end of the
    data or when the number no longer fits the type. *)
Theorem varint_codec v :
  0 <= v < 2 ^ w →
  puts (λ s, WriteVarInt w s v) (varint_bytes w v) ∧
  gets (ReadVarInt w) (varint_bytes w v) v ∧
  takes (ReadVarInt w) (λ v b, b = varint_bytes w v ∧ 0 <= v < 2 ^ w) ∧
  (∀ s e, rok s → bytes (rest s) → ReadVarInt w s = inl e → e = end_of_data ∨ e = varint_too_large).
Proof.
  intros Hv. split; [apply WriteVarInt_puts|]. split; [by apply ReadVarInt_gets|].
  split; [apply ReadVarInt_takes|exact ReadVarInt_errors].
Qed.
End VarInt.

