(* ===== verification/Script.v ===== *)
(** * Scripts: script/script.h, script/script.cpp

    A script is its list of bytes; an iterator into it is the rest of the
    script.  [CScriptNum] is the number type of the interpreter with its codec
    of little-endian bytes with a sign bit; the pushes [operator<<] and the
    reader [GetScriptOp] are the printer and the parser of scripts; the
    classification and the counting of signature operations use the reader.
    The theorems: a byte string is minimal exactly when it is what [serialize]
    writes, [MinimallyEncode] computes that form from any encoding, and a
    script built by pushes reads back as what was pushed. *)
From S2P Require Import Prelude SphTypes Serialize Sha256.

Module Script.
Import Sha256.

(** ** Limits *)

Definition MAX_SCRIPT_ELEMENT_SIZE : nat := 520.
Definition MAX_OPS_PER_SCRIPT : Z := 201.
Definition MAX_PUBKEYS_PER_MULTISIG : Z := 20.
Definition MAX_SCRIPT_SIZE : Z := 10000.
Definition MAX_STACK_SIZE : nat := 1000.
Definition LOCKTIME_THRESHOLD : Z := 500000000.

(** ** Opcodes: the values of the enumeration *)

Definition OP_0 : Z := 0x00.
Definition OP_FALSE : Z := OP_0.
Definition OP_PUSHDATA1 : Z := 0x4c.
Definition OP_PUSHDATA2 : Z := 0x4d.
Definition OP_PUSHDATA4 : Z := 0x4e.
Definition OP_1NEGATE : Z := 0x4f.
Definition OP_RESERVED : Z := 0x50.
Definition OP_1 : Z := 0x51.
Definition OP_TRUE : Z := OP_1.
Definition OP_2 : Z := 0x52.
Definition OP_3 : Z := 0x53.
Definition OP_4 : Z := 0x54.
Definition OP_5 : Z := 0x55.
Definition OP_6 : Z := 0x56.
Definition OP_7 : Z := 0x57.
Definition OP_8 : Z := 0x58.
Definition OP_9 : Z := 0x59.
Definition OP_10 : Z := 0x5a.
Definition OP_11 : Z := 0x5b.
Definition OP_12 : Z := 0x5c.
Definition OP_13 : Z := 0x5d.
Definition OP_14 : Z := 0x5e.
Definition OP_15 : Z := 0x5f.
Definition OP_16 : Z := 0x60.
Definition OP_NOP : Z := 0x61.
Definition OP_VER : Z := 0x62.
Definition OP_IF : Z := 0x63.
Definition OP_NOTIF : Z := 0x64.
Definition OP_VERIF : Z := 0x65.
Definition OP_VERNOTIF : Z := 0x66.
Definition OP_ELSE : Z := 0x67.
Definition OP_ENDIF : Z := 0x68.
Definition OP_VERIFY : Z := 0x69.
Definition OP_RETURN : Z := 0x6a.
Definition OP_TOALTSTACK : Z := 0x6b.
Definition OP_FROMALTSTACK : Z := 0x6c.
Definition OP_2DROP : Z := 0x6d.
Definition OP_2DUP : Z := 0x6e.
Definition OP_3DUP : Z := 0x6f.
Definition OP_2OVER : Z := 0x70.
Definition OP_2ROT : Z := 0x71.
Definition OP_2SWAP : Z := 0x72.
Definition OP_IFDUP : Z := 0x73.
Definition OP_DEPTH : Z := 0x74.
Definition OP_DROP : Z := 0x75.
Definition OP_DUP : Z := 0x76.
Definition OP_NIP : Z := 0x77.
Definition OP_OVER : Z := 0x78.
Definition OP_PICK : Z := 0x79.
Definition OP_ROLL : Z := 0x7a.
Definition OP_ROT : Z := 0x7b.
Definition OP_SWAP : Z := 0x7c.
Definition OP_TUCK : Z := 0x7d.
Definition OP_CAT : Z := 0x7e.
Definition OP_SPLIT : Z := 0x7f.
Definition OP_SIZE : Z := 0x82.
Definition OP_NUM2BIN : Z := 0x80.
Definition OP_BIN2NUM : Z := 0x81.
Definition OP_INVERT : Z := 0x83.
Definition OP_AND : Z := 0x84.
Definition OP_OR : Z := 0x85.
Definition OP_XOR : Z := 0x86.
Definition OP_EQUAL : Z := 0x87.
Definition OP_EQUALVERIFY : Z := 0x88.
Definition OP_RESERVED1 : Z := 0x89.
Definition OP_RESERVED2 : Z := 0x8a.
Definition OP_1ADD : Z := 0x8b.
Definition OP_1SUB : Z := 0x8c.
Definition OP_2MUL : Z := 0x8d.
Definition OP_2DIV : Z := 0x8e.
Definition OP_NEGATE : Z := 0x8f.
Definition OP_ABS : Z := 0x90.
Definition OP_NOT : Z := 0x91.
Definition OP_0NOTEQUAL : Z := 0x92.
Definition OP_ADD : Z := 0x93.
Definition OP_SUB : Z := 0x94.
Definition OP_MUL : Z := 0x95.
Definition OP_DIV : Z := 0x96.
Definition OP_MOD : Z := 0x97.
Definition OP_LSHIFT : Z := 0x98.
Definition OP_RSHIFT : Z := 0x99.
Definition OP_BOOLAND : Z := 0x9a.
Definition OP_BOOLOR : Z := 0x9b.
Definition OP_NUMEQUAL : Z := 0x9c.
Definition OP_NUMEQUALVERIFY : Z := 0x9d.
Definition OP_NUMNOTEQUAL : Z := 0x9e.
Definition OP_LESSTHAN : Z := 0x9f.
Definition OP_GREATERTHAN : Z := 0xa0.
Definition OP_LESSTHANOREQUAL : Z := 0xa1.
Definition OP_GREATERTHANOREQUAL : Z := 0xa2.
Definition OP_MIN : Z := 0xa3.
Definition OP_MAX : Z := 0xa4.
Definition OP_WITHIN : Z := 0xa5.
Definition OP_RIPEMD160 : Z := 0xa6.
Definition OP_SHA1 : Z := 0xa7.
Definition OP_SHA256 : Z := 0xa8.
Definition OP_HASH160 : Z := 0xa9.
Definition OP_HASH256 : Z := 0xaa.
Definition OP_CODESEPARATOR : Z := 0xab.
Definition OP_CHECKSIG : Z := 0xac.
Definition OP_CHECKSIGVERIFY : Z := 0xad.
Definition OP_CHECKMULTISIG : Z := 0xae.
Definition OP_CHECKMULTISIGVERIFY : Z := 0xaf.
Definition OP_NOP1 : Z := 0xb0.
Definition OP_CHECKLOCKTIMEVERIFY : Z := 0xb1.
Definition OP_NOP2 : Z := OP_CHECKLOCKTIMEVERIFY.
Definition OP_CHECKSEQUENCEVERIFY : Z := 0xb2.
Definition OP_NOP3 : Z := OP_CHECKSEQUENCEVERIFY.
Definition OP_NOP4 : Z := 0xb3.
Definition OP_NOP5 : Z := 0xb4.
Definition OP_NOP6 : Z := 0xb5.
Definition OP_NOP7 : Z := 0xb6.
Definition OP_NOP8 : Z := 0xb7.
Definition OP_NOP9 : Z := 0xb8.
Definition OP_NOP10 : Z := 0xb9.
Definition OP_CHECKDATASIG : Z := 0xba.
Definition OP_CHECKDATASIGVERIFY : Z := 0xbb.
Definition OP_INVALIDOPCODE : Z := 0xff.

(** ** Numbers *)

(** [while (absvalue) { result.push_back(absvalue & 0xff); absvalue >>= 8; }] on 64 bits. *)
Fixpoint serialize_loop (fuel : nat) (absvalue : Z) (result : list Z) : list Z :=
  match fuel with
  | O => result
  | S fuel =>
      if absvalue =? 0 then result
      else serialize_loop fuel (absvalue ≫ 8) (result ++ [Z.land absvalue 0xff])
  end.

Definition back (v : list Z) : Z := List.last v 0.
Definition set_back (v : list Z) (x : Z) : list Z := removelast v ++ [x].
(** A byte used as a condition. *)
Definition isset (x : Z) : bool := negb (x =? 0).

Definition serialize (value : Z) : list Z :=
  if value =? 0 then [] else
  let neg := value <? 0 in
  let absvalue := if neg then SPH_T64 (SPH_T64 (Z.lnot (SPH_T64 value)) + 1) else SPH_T64 value in
  let result := serialize_loop 8 absvalue [] in
  if isset (Z.land (back result) 0x80) then result ++ [if neg then 0x80 else 0]
  else if neg then set_back result (Z.lor (back result) 0x80)
  else result.

(** The bytes as [int64_t]: [result |= static_cast<int64_t>(vch[i]) << 8*i]. *)
Definition set_vch_loop (vch : list Z) : Z :=
  fold_left (λ result '(i, b), Z.lor result (to_signed 64 (SPH_T64 (b ≪ (8 * Z.of_nat i)))))
    (zip (seq 0 (length vch)) vch) 0.

Definition set_vch (vch : list Z) : Z :=
  match vch with
  | [] => 0
  | _ =>
      let result := set_vch_loop vch in
      if isset (Z.land (back vch) 0x80)
      then - to_signed 64 (Z.land (SPH_T64 result)
                             (SPH_T64 (Z.lnot (SPH_T64 (0x80 ≪ (8 * (Z.of_nat (length vch) - 1)))))))
      else result
  end.

Definition IsMinimallyEncoded (vch : list Z) (nMaxNumSize : nat) : bool :=
  if (nMaxNumSize <? length vch)%nat then false
  else if (0 <? length vch)%nat && (Z.land (back vch) 0x7f =? 0) &&
          ((length vch <=? 1)%nat || (Z.land (vch @@ (length vch - 2)) 0x80 =? 0))
  then false else true.

(** [for (size_t i = data.size() - 1; i > 0; i--)], the vector after the loop. *)
Fixpoint trim_loop (i : nat) (data : list Z) (last : Z) : list Z :=
  match i with
  | O => []
  | S j =>
      if isset (data @@ j)
      then if isset (Z.land (data @@ j) 0x80)
           then take (i + 1) (<[i := last]> data)
           else take i (<[j := Z.lor (data @@ j) last]> data)
      else trim_loop j data last
  end.

(** Whether the vector changed, and the vector. *)
Definition MinimallyEncode (data : list Z) : bool * list Z :=
  if (length data =? 0)%nat then (false, data) else
  let last := back data in
  if isset (Z.land last 0x7f) then (false, data)
  else if (length data =? 1)%nat then (true, [])
  else if isset (Z.land (data @@ (length data - 2)) 0x80) then (false, data)
  else (true, trim_loop (length data - 1) data last).

(** The exception of the constructor; its value is what it holds. *)
Inductive scriptnum_error := script_number_overflow | not_minimally_encoded.
Definition CScriptNum (vch : list Z) (fRequireMinimal : bool) (nMaxNumSize : nat) : scriptnum_error + Z :=
  if (nMaxNumSize <? length vch)%nat then inl script_number_overflow
  else if fRequireMinimal && negb (IsMinimallyEncoded vch nMaxNumSize) then inl not_minimally_encoded
  else inr (set_vch vch).
Definition nDefaultMaxNumSize : nat := 4.

Definition INT_MAX : Z := 2 ^ 31 - 1.
Definition INT_MIN : Z := - 2 ^ 31.
Definition getint (m_value : Z) : Z :=
  if INT_MAX <? m_value then INT_MAX else if m_value <? INT_MIN then INT_MIN else m_value.

(** ** Pushes *)

Definition ReadLE16 (ptr : list Z) : Z := le_join (take 2 ptr).
Definition WriteLE16 (x : Z) : list Z := le_split 2 x.

Definition push_data (script b : list Z) : list Z :=
  let size := Z.of_nat (length b) in
  (if size <? OP_PUSHDATA1 then script ++ [size]
   else if size <=? 0xff then script ++ [OP_PUSHDATA1] ++ [size]
   else if size <=? 0xffff then script ++ [OP_PUSHDATA2] ++ WriteLE16 (size mod 2 ^ 16)
   else script ++ [OP_PUSHDATA4] ++ WriteLE32 (size mod 2 ^ 32)) ++ b.

Definition push_int64 (script : list Z) (n : Z) : list Z :=
  if (n =? -1) || ((1 <=? n) && (n <=? 16)) then script ++ [n + (OP_1 - 1)]
  else if n =? 0 then script ++ [OP_0]
  else push_data script (serialize n).

(** [None] is the exception. *)
Definition push_opcode (script : list Z) (opcode : Z) : option (list Z) :=
  if (opcode <? 0) || (0xff <? opcode) then None else Some (script ++ [opcode]).

Definition push_num (script : list Z) (b : Z) : list Z := push_data script (serialize b).

(** [None] is a failed assertion. *)
Definition DecodeOP_N (opcode : Z) : option Z :=
  if opcode =? OP_0 then Some 0
  else if (OP_1 <=? opcode) && (opcode <=? OP_16) then Some (opcode - (OP_1 - 1)) else None.
Definition EncodeOP_N (n : Z) : option Z :=
  if (0 <=? n) && (n <=? 16) then Some (if n =? 0 then OP_0 else OP_1 + n - 1) else None.

(** ** Reading *)

(** The result, the iterator, the opcode and the data after the call. *)
Definition GetScriptOp (pc : list Z) : bool * list Z * Z * list Z :=
  match pc with
  | [] => (false, [], OP_INVALIDOPCODE, [])
  | opcode :: pc =>
      if opcode <=? OP_PUSHDATA4 then
        let '(ok, nSize, pc) :=
          if opcode <? OP_PUSHDATA1 then (true, opcode, pc)
          else if opcode =? OP_PUSHDATA1
          then match pc with [] => (false, 0, pc) | b :: pc => (true, b, pc) end
          else if opcode =? OP_PUSHDATA2
          then if (length pc <? 2)%nat then (false, 0, pc) else (true, ReadLE16 pc, drop 2 pc)
          else if (length pc <? 4)%nat then (false, 0, pc) else (true, ReadLE32 pc, drop 4 pc) in
        if negb ok then (false, pc, OP_INVALIDOPCODE, [])
        else if Z.of_nat (length pc) <? nSize then (false, pc, OP_INVALIDOPCODE, [])
        else (true, drop (Z.to_nat nSize) pc, opcode, take (Z.to_nat nSize) pc)
      else (true, pc, opcode, [])
  end.

(** ** Classification *)

Definition IsPayToPublicKeyHash (script : list Z) : bool :=
  (length script =? 25)%nat && (script @@ 0 =? OP_DUP) && (script @@ 1 =? OP_HASH160) &&
  (script @@ 2 =? 0x14) && (script @@ 23 =? OP_EQUALVERIFY) && (script @@ 24 =? OP_CHECKSIG).

Definition IsPayToScriptHash (script : list Z) : bool :=
  (length script =? 23)%nat && (script @@ 0 =? OP_HASH160) && (script @@ 1 =? 0x14) && (script @@ 22 =? OP_EQUAL).

Definition IsPayToPublicKey (script : list Z) : bool :=
  if (length script =? 35)%nat
  then ((script @@ 1 =? 0x02) || (script @@ 1 =? 0x03)) && (script @@ 34 =? OP_CHECKSIG)
  else if (length script =? 67)%nat then (script @@ 1 =? 0x04) && (script @@ 66 =? OP_CHECKSIG)
  else false.

Definition IsUnspendable (script : list Z) : bool :=
  ((0 <? length script)%nat && (script @@ 0 =? OP_RETURN)) || (MAX_SCRIPT_SIZE <? Z.of_nat (length script)).

(** The loops over a script, one call of [GetOp] a turn; each call takes a byte at least. *)
Fixpoint IsPushOnly_loop (fuel : nat) (pc : list Z) : bool :=
  match fuel, pc with
  | _, [] => true
  | O, _ => false
  | S fuel, _ =>
      let '(ok, pc, opcode, _) := GetScriptOp pc in
      if negb ok then false else if OP_16 <? opcode then false else IsPushOnly_loop fuel pc
  end.
Definition IsPushOnly (script : list Z) : bool := IsPushOnly_loop (length script) script.

Fixpoint sigop_loop (fuel : nat) (fAccurate : bool) (pc : list Z) (lastOpcode n : Z) : Z :=
  match fuel, pc with
  | _, [] => n
  | O, _ => n
  | S fuel, _ =>
      let '(ok, pc, opcode, _) := GetScriptOp pc in
      if negb ok then n else
      let n :=
        if (opcode =? OP_CHECKSIG) || (opcode =? OP_CHECKSIGVERIFY) then SPH_T32 (n + 1)
        else if (opcode =? OP_CHECKMULTISIG) || (opcode =? OP_CHECKMULTISIGVERIFY)
        then if fAccurate && (OP_1 <=? lastOpcode) && (lastOpcode <=? OP_16)
             then SPH_T32 (n + match DecodeOP_N lastOpcode with Some k => k | None => 0 end)
             else SPH_T32 (n + MAX_PUBKEYS_PER_MULTISIG)
        else n in
      sigop_loop fuel fAccurate pc opcode n
  end.
Definition GetSigOpCount (script : list Z) (fAccurate : bool) : Z :=
  sigop_loop (length script) fAccurate script OP_INVALIDOPCODE 0.

(** The last data pushed by [scriptSig], [None] for the early returns. *)
Fixpoint last_push_loop (fuel : nat) (pc vData : list Z) : option (list Z) :=
  match fuel, pc with
  | _, [] => Some vData
  | O, _ => None
  | S fuel, _ =>
      let '(ok, pc, opcode, vData) := GetScriptOp pc in
      if negb ok then None else if OP_16 <? opcode then None else last_push_loop fuel pc vData
  end.
Definition GetSigOpCount_P2SH (script scriptSig : list Z) : Z :=
  if negb (IsPayToScriptHash script) then GetSigOpCount script true
  else match last_push_loop (length scriptSig) scriptSig [] with
       | None => 0
       | Some subscript => GetSigOpCount subscript true
       end.


(** ** Bytes with a sign bit *)

Lemma bytes_checked (P : Z → bool) :
  forallb P (Z.of_nat <$> seq 0 256) = true → ∀ b, byte b → P b = true.
Proof.
  rewrite forallb_forall. intros H b Hb. apply H. apply list_elem_of_In, list_elem_of_fmap.
  exists (Z.to_nat b). unfold byte, word in Hb. split; [lia|]. apply elem_of_seq. lia.
Qed.

Lemma sign_bit b : byte b → isset (Z.land b 0x80) = (128 <=? b).
Proof.
  intros Hb. apply eqb_true_iff.
  exact (bytes_checked (λ b, Bool.eqb (isset (Z.land b 0x80)) (128 <=? b)) ltac:(vm_compute; reflexivity) b Hb).
Qed.
Lemma sign_bit_clear b : byte b → (Z.land b 0x80 =? 0) = (b <? 128).
Proof.
  intros Hb. pose proof (sign_bit b Hb) as E. unfold isset in E.
  destruct (Z.land b 0x80 =? 0), (Z.leb_spec 128 b), (Z.ltb_spec b 128); try done; lia.
Qed.
Lemma low_bits b : Z.land b 0x7f = b mod 128.
Proof. exact (Z.land_ones b 7 ltac:(lia)). Qed.
Lemma with_sign b s : 0 <= b < 128 → s = 0 ∨ s = 128 → Z.lor b s = b + s.
Proof.
  intros Hb [-> | ->]; [by rewrite Z.lor_0_r; lia|].
  assert (H : byte b) by (unfold byte, word; lia).
  pose proof (bytes_checked (λ b, (128 <=? b) || (Z.lor b 128 =? b + 128)) ltac:(vm_compute; reflexivity) b H) as E.
  cbn beta in E. destruct (Z.leb_spec 128 b); [lia|]. cbn in E. by apply Z.eqb_eq in E.
Qed.

Lemma back_snoc v b : back (v ++ [b]) = b.
Proof. apply last_last. Qed.
Lemma snoc_view (v : list Z) : v = [] ∨ ∃ u b, v = u ++ [b].
Proof. destruct v as [|b u _] using rev_ind; [by left|right; eauto]. Qed.

Lemma bytes_snoc u b : bytes (u ++ [b]) ↔ bytes u ∧ byte b.
Proof.
  rewrite Forall_app. split; intros [H1 H2]; (split; [done|]); [by apply Forall_cons_1 in H2 as [? _]|by apply Forall_cons_2; [|apply Forall_nil_2]].
Qed.

(** The number that bytes represent: little-endian, the highest bit is the sign. *)
Definition magnitude (v : list Z) : Z :=
  le_join (removelast v) + 256 ^ (Z.of_nat (length v) - 1) * (back v mod 128).
Definition num_value (v : list Z) : Z := if 128 <=? back v then - magnitude v else magnitude v.

(** No shorter encoding has the same value. *)
Definition minimal (v : list Z) : Prop :=
  v = [] ∨ back v mod 128 ≠ 0 ∨ (1 < length v)%nat ∧ 128 <= v @@ (length v - 2).

Lemma magnitude_snoc u b : magnitude (u ++ [b]) = le_join u + 256 ^ Z.of_nat (length u) * (b mod 128).
Proof.
  unfold magnitude. rewrite removelast_last, back_snoc, length_app. cbn [length]. do 3 f_equal. lia.
Qed.

Lemma pow256_bits n : 2 ^ (8 * Z.of_nat n) = 256 ^ Z.of_nat n.
Proof. by rewrite Z.pow_mul_r by lia. Qed.

Lemma le_join_bound u : bytes u → 0 <= le_join u < 256 ^ Z.of_nat (length u).
Proof. intros H. apply word_le_join in H. unfold word in H. by rewrite pow256_bits in H. Qed.

(** A minimal encoding of [k + 1] bytes has a magnitude in its own range. *)
Definition in_range (k : nat) (m : Z) : Prop :=
  match k with O => 1 <= m < 128 | S j => 128 * 256 ^ Z.of_nat j <= m < 128 * 256 ^ Z.of_nat k end.

Lemma minimal_range u b : bytes (u ++ [b]) → minimal (u ++ [b]) → in_range (length u) (magnitude (u ++ [b])).
Proof.
  intros [Hu Hb]%bytes_snoc Hm. rewrite magnitude_snoc. pose proof (le_join_bound u Hu) as Hj.
  unfold byte, word in Hb. pose proof (Z.mod_pos_bound b 128 ltac:(lia)).
  destruct Hm as [E|Hm]; [by destruct u|]. rewrite back_snoc, length_app in Hm. cbn [length] in Hm.
  destruct (snoc_view u) as [->|(t & c & ->)].
  - cbn in *. destruct Hm as [?|[? _]]; [lia|lia].
  - rewrite length_app in *. cbn [length] in *. replace (length t + 1)%nat with (S (length t)) in * by lia. cbn [in_range].
    apply bytes_snoc in Hu as [Ht Hc]. unfold byte, word in Hc.
    pose proof (le_join_bound t Ht) as Hjt.
    rewrite le_join_app in * by done. cbn [le_join] in *. rewrite Z.shiftl_0_l, Z.lor_0_r, pow256_bits in *.
    rewrite Nat2Z.inj_succ, Z.pow_succ_r in * by lia. set (p := 256 ^ Z.of_nat (length t)) in *.
    assert (0 < p) by (apply Z.pow_pos_nonneg; lia).
    assert (En : ((t ++ [c]) ++ [b]) @@ (S (length t) + 1 - 2) = c).
    { rewrite at_app_l by (rewrite length_app; cbn; lia). replace (S (length t) + 1 - 2)%nat with (length t) by lia.
      unfold at_. by rewrite app_nth2, Nat.sub_diag by lia. }
    destruct Hm as [Hm|[_ Hm]]; [|rewrite En in Hm]; nia.
Qed.

Lemma in_range_inj j k m : in_range j m → in_range k m → j = k.
Proof.
  assert (L : ∀ j k, (j < k)%nat → in_range j m → in_range k m → False).
  { intros a c Hac Ha Hc. destruct c as [|c]; [lia|]. cbn [in_range] in Hc.
    assert (256 ^ Z.of_nat a <= 256 ^ Z.of_nat c) by (apply Z.pow_le_mono_r; lia).
    destruct a; cbn [in_range] in Ha; [|lia]. change (256 ^ Z.of_nat 0) with 1 in *. lia. }
  intros Hj Hk. destruct (Nat.lt_trichotomy j k) as [?|[?|?]]; [exfalso; eauto|done|exfalso; eauto].
Qed.

Lemma magnitude_nonneg v : bytes v → 0 <= magnitude v.
Proof.
  intros H. destruct (snoc_view v) as [->|(u & b & ->)]; [vm_compute; done|].
  apply bytes_snoc in H as [Hu Hb]. rewrite magnitude_snoc. pose proof (le_join_bound u Hu).
  pose proof (Z.mod_pos_bound b 128 ltac:(lia)).
  assert (0 < 256 ^ Z.of_nat (length u)) by (apply Z.pow_pos_nonneg; lia). nia.
Qed.

Lemma minimal_value u b : bytes (u ++ [b]) → minimal (u ++ [b]) → 0 < magnitude (u ++ [b]).
Proof.
  intros Hb Hm. pose proof (minimal_range u b Hb Hm) as H. unfold in_range in H.
  destruct (length u) as [|j]; [lia|]. assert (0 < 256 ^ Z.of_nat j) by (apply Z.pow_pos_nonneg; lia). lia.
Qed.

Lemma le_join_inj u v : bytes u → bytes v → length u = length v → le_join u = le_join v → u = v.
Proof.
  intros Hu Hv El Ej. rewrite <-(le_split_join u), <-(le_split_join v) by done. by rewrite El, Ej.
Qed.

(** A number has one minimal encoding. *)
Lemma minimal_unique u v : bytes u → bytes v → minimal u → minimal v → num_value u = num_value v → u = v.
Proof.
  intros Hu Hv Mu Mv E.
  destruct (snoc_view u) as [->|(u' & b & ->)], (snoc_view v) as [->|(v' & c & ->)]; [done| | |].
  1-2: exfalso; unfold num_value in E; cbn [back List.last] in E;
    change (magnitude []) with 0 in E; change (128 <=? 0) with false in E.
  - pose proof (minimal_value v' c Hv Mv). destruct (128 <=? back _); lia.
  - pose proof (minimal_value u' b Hu Mu). destruct (128 <=? back _); lia.
  - pose proof (minimal_value u' b Hu Mu) as Pu. pose proof (minimal_value v' c Hv Mv) as Pv.
    unfold num_value in E. rewrite !back_snoc in E.
    assert (Em : magnitude (u' ++ [b]) = magnitude (v' ++ [c]) ∧ (128 <=? b) = (128 <=? c))
      by (destruct (128 <=? b), (128 <=? c); split; try done; lia).
    destruct Em as [Em Es].
    assert (El : length u' = length v').
    { apply (in_range_inj _ _ (magnitude (u' ++ [b]))); [by apply minimal_range|rewrite Em; by apply minimal_range]. }
    rewrite !magnitude_snoc, El in Em. apply bytes_snoc in Hu as [Hu Hb]. apply bytes_snoc in Hv as [Hv Hc].
    pose proof (le_join_bound u' Hu) as Ju. pose proof (le_join_bound v' Hv) as Jv. rewrite El in Ju.
    set (p := 256 ^ Z.of_nat (length v')) in *.
    unfold byte, word in Hb, Hc.
    assert (Ebc : b mod 128 = c mod 128) by nia. assert (le_join u' = le_join v') by nia.
    f_equal; [by apply le_join_inj|]. f_equal.
    pose proof (Z.div_mod b 128 ltac:(lia)). pose proof (Z.div_mod c 128 ltac:(lia)).
    destruct (Z.leb_spec 128 b), (Z.leb_spec 128 c); try done.
    + assert (Q : ∀ x, 128 <= x < 2 ^ 8 → x / 128 = 1)
        by (intros x Hx; symmetry; apply Z.div_unique_pos with (r := x - 128); lia).
      rewrite (Q b), (Q c) in * by lia. lia.
    + rewrite !Z.mod_small in Ebc by lia. done.
Qed.


(** ** Writing a number *)

Lemma serialize_loop_ok fuel a acc :
  0 <= a < 256 ^ Z.of_nat fuel →
  ∃ d, serialize_loop fuel a acc = acc ++ d ∧ bytes d ∧ le_join d = a ∧ (d = [] ∨ back d ≠ 0).
Proof.
  revert a acc. induction fuel as [|fuel IH]; intros a acc Ha.
  - exists []. cbn in *. rewrite app_nil_r. split; [done|]. split; [by apply Forall_nil_2|]. split; [cbn; lia|by left].
  - cbn [serialize_loop]. destruct (Z.eqb_spec a 0) as [->|Hz].
    + exists []. rewrite app_nil_r. split; [done|]. split; [by apply Forall_nil_2|]. split; [done|by left].
    + rewrite Nat2Z.inj_succ, Z.pow_succ_r in Ha by lia.
      change (Z.land a 0xff) with (Z.land a (Z.ones 8)). rewrite Z.land_ones, Z.shiftr_div_pow2 by lia.
      change (2 ^ 8) with 256.
      pose proof (Z.div_mod a 256 ltac:(lia)) as Hdm. pose proof (Z.mod_pos_bound a 256 ltac:(lia)) as Hr.
      assert (Hd : 0 <= a / 256 < 256 ^ Z.of_nat fuel).
      { split; [apply Z.div_pos; lia|apply Z.div_lt_upper_bound; lia]. }
      destruct (IH (a / 256) (acc ++ [a mod 256]) Hd) as (d & E & Hb & Hj & Hn).
      exists (a mod 256 :: d). rewrite E, <-app_assoc. split; [done|].
      assert (Hr' : byte (a mod 256)) by (unfold byte, word; lia).
      split; [by apply Forall_cons_2|]. split; [rewrite le_join_cons by done; lia|].
      right. destruct d as [|x d]; [|destruct Hn as [?|Hn]; [done|exact Hn]].
      cbn in *. lia.
Qed.

Lemma num_value_snoc u b : num_value (u ++ [b]) = if 128 <=? b then - magnitude (u ++ [b]) else magnitude (u ++ [b]).
Proof. unfold num_value. by rewrite back_snoc. Qed.

Lemma at_second_last u b c : (u ++ [b]) ++ [c] = u ++ [b; c] ∧ (u ++ [b; c]) @@ (length (u ++ [b; c]) - 2) = b.
Proof.
  split; [by rewrite <-app_assoc|]. rewrite length_app. cbn [length].
  replace (length u + 2 - 2)%nat with (length u) by lia. unfold at_. by rewrite app_nth2, Nat.sub_diag by lia.
Qed.

(** A nonnegative number below 2^64 and a sign, as bytes. *)
Lemma signed_bytes d (neg : bool) :
  bytes d → d ≠ [] → back d ≠ 0 →
  let r := if isset (Z.land (back d) 0x80) then d ++ [if neg then 0x80 else 0]
           else if neg then set_back d (Z.lor (back d) 0x80) else d in
  bytes r ∧ minimal r ∧ num_value r = if neg then - le_join d else le_join d.
Proof.
  intros Hd Hne Hz r. destruct (snoc_view d) as [->|(u & b & ->)]; [done|]. clear Hne.
  rewrite back_snoc in Hz. apply bytes_snoc in Hd as [Hu Hb]. subst r. rewrite back_snoc, sign_bit by done.
  assert (Hu' : bytes (u ++ [b])) by (by apply bytes_snoc). pose proof (le_join_app u [b] Hu) as Ej.
  cbn [le_join] in Ej. rewrite Z.shiftl_0_l, Z.lor_0_r, pow256_bits in Ej.
  unfold byte, word in Hb. destruct (Z.leb_spec 128 b) as [Hs|Hs].
  - assert (Hc : byte (if neg then 128 else 0)) by (unfold byte, word; destruct neg; lia).
    split; [by apply bytes_snoc|]. rewrite num_value_snoc, magnitude_snoc.
    replace ((if neg then 128 else 0) mod 128) with 0 by (by destruct neg). split; [|destruct neg; cbn; lia].
    right. right. rewrite (proj1 (at_second_last u b _)), (proj2 (at_second_last u b _)).
    rewrite length_app. cbn [length]. split; lia.
  - assert (Hm : b mod 128 = b) by (by apply Z.mod_small; lia). destruct neg.
    + unfold set_back. rewrite removelast_last, with_sign by (lia || auto).
      assert (Hb' : (b + 128) mod 128 = b) by (rewrite Z.add_mod, Z.mod_same, Z.add_0_r, Z.mod_mod; lia).
      split; [apply bytes_snoc; unfold byte, word; split; [done|lia]|].
      rewrite num_value_snoc, magnitude_snoc, Hb', Ej. destruct (Z.leb_spec 128 (b + 128)); [|lia].
      split; [|lia]. right. left. rewrite back_snoc, Hb'. lia.
    + split; [done|]. rewrite num_value_snoc, magnitude_snoc, Hm, Ej.
      destruct (Z.leb_spec 128 b); [lia|]. split; [|lia]. right. left. rewrite back_snoc, Hm. lia.
Qed.

Lemma serialize_ok n : - 2 ^ 63 <= n < 2 ^ 63 → bytes (serialize n) ∧ minimal (serialize n) ∧ num_value (serialize n) = n.
Proof.
  intros Hn. unfold serialize. destruct (Z.eqb_spec n 0) as [->|Hz].
  { split; [by apply Forall_nil_2|]. split; [by left|done]. }
  set (a := if n <? 0 then _ else _).
  assert (Ha : a = Z.abs n).
  { subst a. rewrite !SPH_T64_mod. destruct (Z.ltb_spec n 0).
    - rewrite Zplus_mod_idemp_l. unfold Z.lnot, Z.pred.
      replace (- (n mod 2 ^ 64) + -1 + 1) with (- (n mod 2 ^ 64)) by lia.
      rewrite <-(Z_mod_plus_full n 1 (2 ^ 64)), (Z.mod_small (n + _)) by lia.
      rewrite <-(Z_mod_plus_full _ 1 (2 ^ 64)), Z.mod_small; lia.
    - rewrite Z.mod_small; lia. }
  rewrite Ha. destruct (serialize_loop_ok 8 (Z.abs n) []) as (d & E & Hd & Hj & Hb); [change (256 ^ Z.of_nat 8) with (2 ^ 64); lia|].
  rewrite app_nil_l in E. rewrite E.
  assert (Hne : d ≠ []) by (intros ->; cbn in Hj; lia). destruct Hb as [?|Hb]; [done|].
  destruct (signed_bytes d (n <? 0) Hd Hne Hb) as (H1 & H2 & H3).
  split; [exact H1|]. split; [exact H2|]. rewrite H3, Hj. destruct (Z.ltb_spec n 0); lia.
Qed.

Lemma minimal_length v k : bytes v → minimal v → Z.abs (num_value v) < 128 * 256 ^ Z.of_nat k → (length v <= S k)%nat.
Proof.
  intros Hv Hm Hk. destruct (snoc_view v) as [->|(u & b & ->)]; [cbn; lia|].
  pose proof (minimal_range u b Hv Hm) as Hr. pose proof (minimal_value u b Hv Hm) as Hp.
  assert (Ha : Z.abs (num_value (u ++ [b])) = magnitude (u ++ [b])) by (rewrite num_value_snoc; destruct (128 <=? b); lia).
  rewrite Ha in Hk. rewrite length_app. cbn [length]. destruct (length u) as [|j]; [lia|]. cbn [in_range] in Hr.
  assert (j < k)%nat; [|lia]. destruct (Nat.lt_ge_cases j k) as [|Hge]; [done|].
  assert (256 ^ Z.of_nat k <= 256 ^ Z.of_nat j) by (apply Z.pow_le_mono_r; lia). lia.
Qed.

Lemma serialize_length n k :
  - 2 ^ 63 <= n < 2 ^ 63 → Z.abs n < 128 * 256 ^ Z.of_nat k → (length (serialize n) <= S k)%nat.
Proof.
  intros Hn Hk. destruct (serialize_ok n Hn) as (H1 & H2 & H3). apply minimal_length; [done..|by rewrite H3].
Qed.


(** ** Reading a number *)

Lemma to_signed_small x : 0 <= x < 2 ^ 63 → to_signed 64 x = x.
Proof. intros H. unfold to_signed. change (2 ^ (64 - 1)) with (2 ^ 63). by destruct (Z.ltb_spec x (2 ^ 63)); [|lia]. Qed.

Lemma le_join_snoc u b : bytes u → le_join (u ++ [b]) = le_join u + 256 ^ Z.of_nat (length u) * b.
Proof. intros Hu. rewrite le_join_app by done. cbn [le_join]. by rewrite Z.shiftl_0_l, Z.lor_0_r, pow256_bits. Qed.

Lemma pow256_le k : (k <= 6)%nat → 256 ^ Z.of_nat k <= 2 ^ 48.
Proof. intros H. change (2 ^ 48) with (256 ^ 6). apply Z.pow_le_mono_r; lia. Qed.

Lemma set_vch_loop_ok v : bytes v → (length v <= 7)%nat → set_vch_loop v = le_join v.
Proof.
  induction v as [|b u IH] using rev_ind; intros Hv Hl; [done|].
  apply bytes_snoc in Hv as [Hu Hb]. rewrite length_app in Hl. cbn [length] in Hl.
  unfold set_vch_loop. rewrite length_app. cbn [length]. rewrite Nat.add_1_r, seq_S, zip_with_app by (by rewrite length_seq).
  cbn [zip_with]. rewrite fold_left_app. cbn [fold_left]. rewrite Nat.add_0_l.
  change (fold_left _ (zip (seq 0 (length u)) u) 0) with (set_vch_loop u). rewrite IH by (done || lia).
  rewrite le_join_snoc by done. pose proof (le_join_bound u Hu) as Hj. pose proof (pow256_le (length u) ltac:(lia)) as Hp.
  unfold byte, word in Hb.
  assert (Hs : b ≪ (8 * Z.of_nat (length u)) = 256 ^ Z.of_nat (length u) * b).
  { rewrite Z.shiftl_mul_pow2, pow256_bits by lia. lia. }
  rewrite Hs, SPH_T64_id by (unfold word; nia). rewrite to_signed_small by nia.
  rewrite <-Hs. apply Z.bits_inj'; intros i Hi. rewrite Z.lor_spec.
  rewrite Z.shiftl_mul_pow2, Z.mul_comm by lia. rewrite <-pow256_bits in Hj.
  rewrite <-(Z.mod_small (le_join u) (2 ^ (8 * Z.of_nat (length u)))) by done.
  assert (Hd : 0 <= 8 * Z.of_nat (length u)) by lia. set (w := 8 * Z.of_nat (length u)) in *.
  rewrite <-(Z.lor_spec), (Z.mul_comm (2 ^ w) b), <-(Z.shiftl_mul_pow2 b w) by lia.
  rewrite <-Z.lxor_lor, Z.add_nocarry_lxor; [done| |].
  all: apply Z.bits_inj'; intros j Hjj; rewrite Z.land_spec, Z.bits_0; destruct (Z.lt_ge_cases j w);
    [rewrite Z.shiftl_spec_low by lia; apply andb_false_r|rewrite Z.mod_pow2_bits_high by lia; done].
Qed.

Lemma clear_top_bit r j : 0 <= j → 2 ^ j <= r < 2 ^ (j + 1) → j < 64 →
  Z.land r (SPH_T64 (Z.lnot (2 ^ j))) = r - 2 ^ j.
Proof.
  intros Hj Hr Hw. assert (Hr64 : r < 2 ^ 64) by (assert (2 ^ (j + 1) <= 2 ^ 64) by (apply Z.pow_le_mono_r; lia); lia).
  rewrite Z.sub_nocarry_ldiff.
  - rewrite SPH_T64_mod. apply Z.bits_inj'; intros i Hi. rewrite Z.land_spec, Z.ldiff_spec.
    destruct (Z.lt_ge_cases i 64).
    + by rewrite Z.mod_pow2_bits_low, Z.lnot_spec by lia.
    + rewrite (Z.bits_above_log2 r i); [done|lia|]. apply Z.log2_lt_pow2; [lia|].
      assert (2 ^ 64 <= 2 ^ i) by (apply Z.pow_le_mono_r; lia). lia.
  - apply Z.bits_inj'; intros i Hi. rewrite Z.ldiff_spec, Z.pow2_bits_eqb, Z.bits_0 by lia.
    destruct (Z.eqb_spec j i) as [->|]; [|done]. replace (Z.testbit r i) with true; [done|].
    symmetry. apply Z.testbit_true; [lia|]. replace (r / 2 ^ i) with 1; [done|].
    apply Z.div_unique_pos with (r := r - 2 ^ i); rewrite Z.pow_add_r in Hr by lia; lia.
Qed.

Lemma set_vch_ok v : bytes v → (length v <= 7)%nat → set_vch v = num_value v.
Proof.
  intros Hv Hl. destruct (snoc_view v) as [->|(u & b & ->)]; [done|].
  unfold set_vch. destruct (u ++ [b]) as [|x y] eqn:E; [by destruct u|]. rewrite <-E in *. clear x y E.
  rewrite set_vch_loop_ok, num_value_snoc, back_snoc, magnitude_snoc by done.
  apply bytes_snoc in Hv as [Hu Hb]. rewrite sign_bit, le_join_snoc by done.
  rewrite length_app in *. cbn [length] in *.
  pose proof (le_join_bound u Hu) as Hj. pose proof (pow256_le (length u) ltac:(lia)) as Hp.
  assert (Hpos : 0 < 256 ^ Z.of_nat (length u)) by (apply Z.pow_pos_nonneg; lia).
  unfold byte, word in Hb. destruct (Z.leb_spec 128 b) as [Hs|Hs]; [|by rewrite Z.mod_small by lia].
  assert (Hm : b mod 128 = b - 128) by (symmetry; apply Z.mod_unique_pos with (q := 1); lia).
  replace (8 * (Z.of_nat (length u + 1) - 1)) with (8 * Z.of_nat (length u)) by lia.
  assert (E2 : 0x80 ≪ (8 * Z.of_nat (length u)) = 2 ^ (8 * Z.of_nat (length u) + 7)).
  { rewrite Z.shiftl_mul_pow2, Z.pow_add_r by lia. change (2 ^ 7) with 128. lia. }
  assert (E3 : 2 ^ (8 * Z.of_nat (length u) + 7) = 256 ^ Z.of_nat (length u) * 128)
    by (rewrite Z.pow_add_r, pow256_bits by lia; done).
  rewrite E2, (SPH_T64_id (le_join _ + _)), (SPH_T64_id (2 ^ _)) by (unfold word; nia). rewrite clear_top_bit.
  - rewrite E3, Hm, to_signed_small; nia.
  - lia.
  - rewrite (Z.pow_add_r 2 (_ + 7) 1), E3 by lia. nia.
  - lia.
Qed.

Lemma IsMinimallyEncoded_ok v n : bytes v → IsMinimallyEncoded v n = true ↔ minimal v ∧ (length v <= n)%nat.
Proof.
  intros Hv. unfold IsMinimallyEncoded, minimal. destruct (Nat.ltb_spec n (length v)); [split; [done|lia]|].
  destruct (snoc_view v) as [->|(u & b & ->)]; [cbn; split; [by auto with lia|done]|].
  rewrite low_bits, back_snoc. destruct (Nat.ltb_spec 0 (length (u ++ [b]))) as [_|]; [|rewrite length_app in *; cbn in *; lia].
  assert (Hne : u ++ [b] ≠ []) by (by destruct u).
  destruct (Z.eqb_spec (b mod 128) 0) as [Hz|Hz]; cbn [andb]; [|split; [by auto with lia|done]].
  destruct (Nat.leb_spec (length (u ++ [b])) 1); cbn [orb].
  - split; [done|]. intros [[?|[?|[? _]]] _]; [done|done|lia].
  - assert (Hb : byte ((u ++ [b]) @@ (length (u ++ [b]) - 2))) by (apply (Forall_nth byte); [done|lia]).
    rewrite sign_bit_clear by done. destruct (Z.ltb_spec ((u ++ [b]) @@ (length (u ++ [b]) - 2)) 128).
    + split; [done|]. intros [[?|[?|[_ ?]]] _]; [done|done|lia].
    + split; [|done]. intros _. split; [|lia]. right. right. lia.
Qed.


(** ** The minimal form of an encoding *)

Lemma take_insert_snoc (l : list Z) i a : (i < length l)%nat → take (S i) (<[i := a]> l) = take i l ++ [a].
Proof.
  intros Hi. rewrite insert_take_drop by done. replace (S i) with (length (take i l) + 1)%nat by (rewrite length_take; lia).
  by rewrite take_app_add.
Qed.

Lemma le_join_zeros u i : bytes u → (∀ j, (i <= j < length u)%nat → u @@ j = 0) → le_join u = le_join (take i u).
Proof.
  intros Hu Hz. rewrite <-(take_drop i u) at 1. rewrite le_join_app by (by apply Forall_take).
  assert (E : drop i u = replicate (length u - i) 0).
  { apply at_ext; [by rewrite length_drop, length_replicate|]. intros j Hj. rewrite length_drop in Hj.
    rewrite (at_lookup (replicate _ _) j 0) by (apply lookup_replicate_2; lia).
    unfold at_. rewrite nth_skipn. apply (Hz (i + j)%nat). lia. }
  rewrite E. assert (H0 : ∀ n, le_join (replicate n 0) = 0) by (induction n as [|n IH]; [done|cbn; by rewrite IH]).
  rewrite H0. lia.
Qed.

(** What is behind the sign byte [last] has the sign and no magnitude. *)
Lemma num_value_sign u last : last = 0 ∨ last = 128 → num_value (u ++ [last]) = if last =? 0 then le_join u else - le_join u.
Proof.
  intros Hl. rewrite num_value_snoc, magnitude_snoc. destruct Hl as [-> | ->].
  - change (0 mod 128) with 0. cbn - [Z.mul Z.pow]. lia.
  - change (128 mod 128) with 0. cbn - [Z.mul Z.pow]. lia.
Qed.

Lemma trim_loop_ok u last i :
  bytes u → last = 0 ∨ last = 128 → (i <= length u)%nat → (∀ j, (i <= j < length u)%nat → u @@ j = 0) →
  let r := trim_loop i (u ++ [last]) last in
  bytes r ∧ minimal r ∧ num_value r = num_value (u ++ [last]).
Proof.
  intros Hu Hl. induction i as [|j IH]; intros Hi Hz.
  - cbn. split; [by apply Forall_nil_2|]. split; [by left|]. rewrite num_value_sign by done.
    rewrite (le_join_zeros u 0 Hu Hz), take_0. by destruct (last =? 0).
  - cbn [trim_loop]. rewrite at_app_l by lia. assert (Hx : byte (u @@ j)) by (apply (Forall_nth byte); [done|lia]).
    assert (Hlb : byte last) by (unfold byte, word; lia).
    assert (Ht : bytes (take j u)) by (by apply Forall_take).
    assert (Ew : take (S j) u = take j u ++ [u @@ j]).
    { apply take_S_r. destruct (lookup_lt_is_Some_2 u j ltac:(lia)) as [y Ey]. by rewrite (at_lookup u j y Ey). }
    assert (Ev : le_join u = le_join (take j u) + 256 ^ Z.of_nat (length (take j u)) * (u @@ j))
      by (by rewrite (le_join_zeros u (S j) Hu Hz), Ew, le_join_snoc).
    change (isset (u @@ j)) with (negb (u @@ j =? 0)). destruct (Z.eqb_spec (u @@ j) 0) as [E|E]; cbn [negb].
    { apply IH; [lia|]. intros k Hk. destruct (Nat.eq_dec k j) as [->|]; [done|apply Hz; lia]. }
    rewrite sign_bit by done. unfold byte, word in Hx. destruct (Z.leb_spec 128 (u @@ j)) as [Hs|Hs].
    + replace (S j + 1)%nat with (S (S j)) by lia. rewrite take_insert_snoc by (rewrite length_app; cbn; lia).
      rewrite take_app_le, Ew by lia. rewrite (num_value_sign u), (num_value_sign (take j u ++ _)), le_join_snoc, Ev by done.
      split; [by apply bytes_snoc; split; [apply bytes_snoc; split|]|]. split; [|done].
      right. right. rewrite (proj1 (at_second_last (take j u) _ _)), (proj2 (at_second_last (take j u) _ _)), length_app.
      cbn [length]. split; lia.
    + rewrite take_insert_snoc by (rewrite length_app; cbn; lia). rewrite take_app_le by lia.
      rewrite with_sign by (lia || done).
      assert (Em : (u @@ j + last) mod 128 = u @@ j).
      { destruct Hl as [-> | ->]; [by rewrite Z.add_0_r, Z.mod_small by lia|].
        symmetry; apply Z.mod_unique_pos with (q := 1); lia. }
      split; [apply bytes_snoc; unfold byte, word; split; [done|lia]|].
      split; [right; left; by rewrite back_snoc, Em|].
      rewrite (num_value_sign u), num_value_snoc, magnitude_snoc, Em, Ev by done.
      destruct Hl as [-> | ->]; destruct (Z.leb_spec 128 (u @@ j + 0)), (Z.leb_spec 128 (u @@ j + 128)); try lia; done.
Qed.

Lemma MinimallyEncode_ok v :
  bytes v → let '(changed, r) := MinimallyEncode v in
  bytes r ∧ minimal r ∧ num_value r = num_value v ∧ (changed = false → r = v) ∧ (changed = true → ¬ minimal v).
Proof.
  intros Hv. unfold MinimallyEncode. destruct (snoc_view v) as [->|(u & b & ->)].
  { cbn. split; [done|]. split; [by left|done]. }
  rewrite length_app, back_snoc. cbn [length]. destruct (Nat.eqb_spec (length u + 1) 0); [lia|].
  pose proof Hv as [Hu Hb]%bytes_snoc. unfold isset at 1. rewrite low_bits.
  destruct (Z.eqb_spec (b mod 128) 0) as [Hm|Hm]; cbn [negb].
  2: { split; [done|]. split; [right; left; by rewrite back_snoc|done]. }
  assert (Hnm : (length u + 1 = 1)%nat ∨ (u ++ [b]) @@ (length u + 1 - 2) < 128 → ¬ minimal (u ++ [b])).
  { intros Hc [E|[E|E]]; [by destruct u|by rewrite back_snoc in E|rewrite length_app in E; cbn [length] in E; lia]. }
  assert (Hl : b = 0 ∨ b = 128).
  { unfold byte, word in Hb. pose proof (Z.div_mod b 128 ltac:(lia)).
    assert (0 <= b / 128 < 2) by (split; [apply Z.div_pos|apply Z.div_lt_upper_bound]; lia). lia. }
  destruct (Nat.eqb_spec (length u + 1) 1) as [E1|E1].
  { specialize (Hnm (or_introl E1)). destruct u; [|cbn in E1; lia]. split; [by apply Forall_nil_2|]. split; [by left|].
    split; [by destruct Hl as [-> | ->]|done]. }
  assert (Hx : byte ((u ++ [b]) @@ (length u + 1 - 2))) by (apply (Forall_nth byte); [done|rewrite length_app; cbn; lia]).
  rewrite sign_bit by done. destruct (Z.leb_spec 128 ((u ++ [b]) @@ (length u + 1 - 2))) as [Hs|Hs].
  - split; [done|]. split; [|done]. right. right. rewrite length_app. cbn [length]. split; [lia|done].
  - replace (length u + 1 - 1)%nat with (length u) by lia.
    destruct (trim_loop_ok u b (length u) Hu Hl ltac:(lia)) as (H1 & H2 & H3); [lia|].
    split; [done|]. split; [done|]. split; [done|]. split; [done|]. intros _. apply Hnm. by right.
Qed.


Lemma num_value_bound v k : bytes v → (length v <= S k)%nat → Z.abs (num_value v) < 128 * 256 ^ Z.of_nat k.
Proof.
  intros Hv Hl. destruct (snoc_view v) as [->|(u & b & ->)].
  { assert (0 < 256 ^ Z.of_nat k) by (apply Z.pow_pos_nonneg; lia). vm_compute (Z.abs _). lia. }
  rewrite length_app in Hl. cbn [length] in Hl. apply bytes_snoc in Hv as [Hu Hb].
  rewrite num_value_snoc, magnitude_snoc. pose proof (le_join_bound u Hu) as Hj.
  pose proof (Z.mod_pos_bound b 128 ltac:(lia)).
  assert (256 ^ Z.of_nat (length u) <= 256 ^ Z.of_nat k) by (apply Z.pow_le_mono_r; lia).
  destruct (128 <=? b); nia.
Qed.

Lemma serialize_value v : bytes v → (length v <= 7)%nat → minimal v → serialize (num_value v) = v.
Proof.
  intros Hv Hl Hm. pose proof (num_value_bound v 6 Hv Hl) as Hr. change (128 * 256 ^ Z.of_nat 6) with (2 ^ 55) in Hr.
  destruct (serialize_ok (num_value v)) as (H1 & H2 & H3); [lia|]. by apply minimal_unique.
Qed.

Lemma CScriptNum_serialize n max fRequireMinimal :
  - 2 ^ 63 <= n < 2 ^ 63 → (length (serialize n) <= max <= 7)%nat →
  CScriptNum (serialize n) fRequireMinimal max = inr n.
Proof.
  intros Hn Hl. destruct (serialize_ok n Hn) as (H1 & H2 & H3). unfold CScriptNum.
  destruct (Nat.ltb_spec max (length (serialize n))); [lia|].
  rewrite (proj2 (IsMinimallyEncoded_ok _ max H1)) by (split; [done|lia]).
  cbn [negb]. rewrite andb_false_r, set_vch_ok, H3 by (done || lia). done.
Qed.

(** ** Reading scripts *)

(** A successful call takes the opcode and its data off the front. *)
Lemma GetScriptOp_takes pc pc' opcode d :
  GetScriptOp pc = (true, pc', opcode, d) → ∃ head, pc = opcode :: head ++ d ++ pc'.
Proof.
  unfold GetScriptOp. destruct pc as [|op pc]; [done|].
  assert (G : ∀ nSize rest head, pc = head ++ rest → (Z.of_nat (length rest) <? nSize) = false →
    ∃ head', op :: pc = op :: head' ++ take (Z.to_nat nSize) rest ++ drop (Z.to_nat nSize) rest).
  { intros nSize rest head -> _. exists head. by rewrite take_drop. }
  destruct (op <=? OP_PUSHDATA4); [|intros [= <- <- <-]; by exists []].
  destruct (op <? OP_PUSHDATA1); [|destruct (op =? OP_PUSHDATA1); [destruct pc as [|b pc]|destruct (op =? OP_PUSHDATA2);
    [destruct (Nat.ltb_spec (length pc) 2)|destruct (Nat.ltb_spec (length pc) 4)]]]; cbn [negb]; try discriminate.
  all: match goal with |- context [Z.of_nat ?n <? ?m] => destruct (Z.of_nat n <? m) eqn:E; [discriminate|] end;
    intros [= <- <- <-].
  - by apply (G _ _ []).
  - by apply (G _ _ [b]).
  - apply (G _ _ (take 2 pc)); [by rewrite take_drop|done].
  - apply (G _ _ (take 4 pc)); [by rewrite take_drop|done].
Qed.

Lemma GetScriptOp_shorter pc pc' opcode d :
  GetScriptOp pc = (true, pc', opcode, d) → (length pc' < length pc)%nat.
Proof. intros (h & ->)%GetScriptOp_takes. cbn [length]. rewrite !length_app. lia. Qed.

Lemma GetScriptOp_bytes pc pc' opcode d :
  bytes pc → GetScriptOp pc = (true, pc', opcode, d) → bytes pc' ∧ bytes d ∧ byte opcode.
Proof.
  intros Hb (h & ->)%GetScriptOp_takes. apply Forall_cons_1 in Hb as [Ho Hb].
  apply Forall_app in Hb as [_ Hb]. by apply Forall_app in Hb as [Hd Hp].
Qed.

(** Opcodes above the pushes have no data. *)
Lemma GetScriptOp_op opcode rest : OP_PUSHDATA4 < opcode → GetScriptOp (opcode :: rest) = (true, rest, opcode, []).
Proof. intros H. unfold GetScriptOp. by destruct (Z.leb_spec opcode OP_PUSHDATA4); [lia|]. Qed.

(** The opcode that [operator<<] takes for data. *)
Definition opcode_of (b : list Z) : Z :=
  let size := Z.of_nat (length b) in
  if size <? OP_PUSHDATA1 then size else if size <=? 0xff then OP_PUSHDATA1
  else if size <=? 0xffff then OP_PUSHDATA2 else OP_PUSHDATA4.

Lemma push_data_app script b : push_data script b = script ++ push_data [] b.
Proof. unfold push_data. repeat case_match; by rewrite <-!app_assoc. Qed.

Lemma read_size n x rest :
  0 <= x < 256 ^ Z.of_nat n → le_join (take n (le_split n x ++ rest)) = x ∧ drop n (le_split n x ++ rest) = rest.
Proof.
  intros Hx. rewrite take_app_length', drop_app_length' by (by rewrite length_le_split). split; [|done].
  rewrite le_join_split, pow256_bits. by apply Z.mod_small.
Qed.

Lemma GetScriptOp_push b rest :
  Z.of_nat (length b) < 2 ^ 32 → GetScriptOp (push_data [] b ++ rest) = (true, rest, opcode_of b, b).
Proof.
  intros Hl. set (size := Z.of_nat (length b)) in *.
  assert (D : ∀ r, (if Z.of_nat (length (b ++ rest)) <? size then r else
    (true, drop (Z.to_nat size) (b ++ rest), opcode_of b, take (Z.to_nat size) (b ++ rest))) = (true, rest, opcode_of b, b)).
  { intros r. unfold size. rewrite length_app, Nat2Z.id. destruct (Z.ltb_spec (Z.of_nat (length b + length rest)) (Z.of_nat (length b))); [lia|].
    by rewrite drop_app_length, take_app_length. }
  unfold push_data, opcode_of in *. fold size in D |- *. unfold GetScriptOp, OP_PUSHDATA1, OP_PUSHDATA2, OP_PUSHDATA4 in *.
  destruct (Z.ltb_spec size 0x4c) as [H1|H1].
  - cbn [app]. destruct (Z.leb_spec size 0x4e); [|lia]. destruct (Z.ltb_spec size 0x4c); [|lia]. cbn [negb]. apply D.
  - destruct (Z.leb_spec size 0xff) as [H2|H2]; [cbn; apply D|].
    destruct (Z.leb_spec size 0xffff) as [H3|H3]; cbn [app]; rewrite Z.mod_small by lia; unfold WriteLE16, WriteLE32, ReadLE16, ReadLE32.
    + rewrite <-app_assoc. cbn [app]. destruct (read_size 2 size (b ++ rest)) as [E1 E2]; [cbn; lia|].
      change (77 <=? 78) with true. change (77 <? 76) with false. change (77 =? 76) with false. change (77 =? 77) with true.
      rewrite E1, E2. destruct (Nat.ltb_spec (length (le_split 2 size ++ b ++ rest)) 2); [rewrite length_app, length_le_split in *; lia|].
      cbn [negb]. apply D.
    + rewrite <-app_assoc. cbn [app]. destruct (read_size 4 size (b ++ rest)) as [E1 E2]; [cbn; lia|].
      change (78 <=? 78) with true. change (78 <? 76) with false. change (78 =? 76) with false. change (78 =? 77) with false.
      rewrite E1, E2. destruct (Nat.ltb_spec (length (le_split 4 size ++ b ++ rest)) 4); [rewrite length_app, length_le_split in *; lia|].
      cbn [negb]. apply D.
Qed.


(** ** Scripts as lists of operations *)

(** What the reader finds in a script, [None] when it fails. *)
Fixpoint ops_loop (fuel : nat) (pc : list Z) : option (list (Z * list Z)) :=
  match fuel, pc with
  | _, [] => Some []
  | O, _ => None
  | S fuel, _ =>
      let '(ok, pc, opcode, d) := GetScriptOp pc in
      if ok then cons (opcode, d) <$> ops_loop fuel pc else None
  end.
Definition read_script (script : list Z) : option (list (Z * list Z)) := ops_loop (length script) script.

(** What a program appends to a script with [operator<<]. *)
Inductive item := Data (b : list Z) | Int64 (n : Z) | Opcode (opcode : Z).
Definition append (script : list Z) (i : item) : option (list Z) :=
  match i with
  | Data b => Some (push_data script b)
  | Int64 n => Some (push_int64 script n)
  | Opcode o => push_opcode script o
  end.
Definition build (items : list item) : option (list Z) :=
  fold_left (λ s i, s ≫= λ s, append s i) items (Some []).
(** What is read for it. *)
Definition operation (i : item) : Z * list Z :=
  match i with
  | Data b => (opcode_of b, b)
  | Int64 n =>
      if (n =? -1) || ((1 <=? n) && (n <=? 16)) then (n + (OP_1 - 1), [])
      else if n =? 0 then (OP_0, []) else (opcode_of (serialize n), serialize n)
  | Opcode o => (o, [])
  end.
(** Data and integers of the types that the operators take; of the opcodes, OP_0 and those above
    OP_PUSHDATA4.  The opcodes between take the bytes after them for their data, so that a script in
    which one is appended alone has no operation of its own for it. *)
Definition item_ok (i : item) : Prop :=
  match i with
  | Data b => Z.of_nat (length b) < 2 ^ 32
  | Int64 n => - 2 ^ 63 <= n < 2 ^ 63
  | Opcode o => o = OP_0 ∨ OP_PUSHDATA4 < o <= 0xff
  end.

Lemma append_ok i :
  item_ok i → ∃ b, (∀ script, append script i = Some (script ++ b)) ∧
    ∀ rest, GetScriptOp (b ++ rest) = (true, rest, fst (operation i), snd (operation i)).
Proof.
  destruct i as [b|n|o]; cbn [item_ok append operation]; intros H.
  - exists (push_data [] b). split; [intros; by rewrite push_data_app|]. intros. by apply GetScriptOp_push.
  - unfold push_int64. destruct ((n =? -1) || _) eqn:E1; [|destruct (Z.eqb_spec n 0) as [->|]].
    + exists [n + (OP_1 - 1)]. split; [done|]. intros rest. cbn [app fst snd]. apply GetScriptOp_op.
      unfold OP_1, OP_PUSHDATA4. apply orb_true_iff in E1 as [E1|E1].
      * apply Z.eqb_eq in E1. lia.
      * apply andb_true_iff in E1 as [E1%Z.leb_le E2%Z.leb_le]. lia.
    + exists [OP_0]. split; [done|]. intros rest. exact (GetScriptOp_push [] rest eq_refl).
    + exists (push_data [] (serialize n)). split; [intros; by rewrite push_data_app|]. intros rest. apply GetScriptOp_push.
      pose proof (serialize_length n 8 H) as Hl. change (128 * 256 ^ Z.of_nat 8) with (2 ^ 71) in Hl. specialize (Hl ltac:(lia)). cbn [snd]. lia.
  - exists [o]. unfold push_opcode. destruct H as [->|H]; [by split; [|intros rest; exact (GetScriptOp_push [] rest eq_refl)]|].
    destruct (Z.ltb_spec o 0); [unfold OP_PUSHDATA4 in H; lia|].
    destruct (Z.ltb_spec 0xff o); [lia|]. split; [done|]. intros rest. exact (GetScriptOp_op o rest (proj1 H)).
Qed.

Lemma ops_loop_more fuel fuel' pc : (length pc <= fuel)%nat → (length pc <= fuel')%nat → ops_loop fuel pc = ops_loop fuel' pc.
Proof.
  revert fuel' pc. induction fuel as [|fuel IH]; intros fuel' pc H1 H2.
  - destruct pc; [by destruct fuel'|cbn in H1; lia].
  - destruct pc as [|x pc]; [by destruct fuel'|]. destruct fuel' as [|fuel']; [cbn in H2; lia|]. cbn [ops_loop].
    destruct (GetScriptOp (x :: pc)) as [[[ok pc'] op] d] eqn:E. destruct ok; [|done].
    pose proof (GetScriptOp_shorter _ _ _ _ E). f_equal. apply IH; lia.
Qed.

Lemma read_build_app items script :
  Forall item_ok items →
  ∃ b, fold_left (λ s i, s ≫= λ s, append s i) items (Some script) = Some (script ++ b) ∧
       read_script b = Some (operation <$> items).
Proof.
  intros Hi. revert script. induction Hi as [|i items Hi _ IH]; intros script.
  - exists []. cbn [fold_left]. by rewrite app_nil_r.
  - destruct (append_ok i Hi) as (b & Eb & Hb). cbn [fold_left]. unfold mbind, option_bind at 2. rewrite Eb.
    destruct (IH (script ++ b)) as (b' & E & Hr). exists (b ++ b'). rewrite <-app_assoc in E. split; [exact E|].
    unfold read_script. specialize (Hb b').
    assert (Hne : ∃ x y, b ++ b' = x :: y) by (destruct (b ++ b'); [done|eauto]).
    destruct Hne as (x & y & Exy). rewrite Exy in *. cbn [length ops_loop]. rewrite Hb.
    pose proof (GetScriptOp_shorter _ _ _ _ Hb) as Hs. cbn [length] in Hs.
    rewrite (ops_loop_more _ (length b')) by lia. unfold read_script in Hr. rewrite Hr. cbn. by destruct (operation i).
Qed.

(** C19: Script numbers: every 64-bit value is written in at most 9 bytes,
    minimally, and numbers of at most 7 bytes read back under either reading;
    a string of at most 7 bytes reads as its value, under the minimal reading
    exactly when it is what [serialize] writes, and [MinimallyEncode] turns it
    into that and reports whether it changed; [MinimallyEncode] keeps the
    value of a string of any length and makes it minimal. *)
Theorem script_numbers :
  (∀ n, - 2 ^ 63 <= n < 2 ^ 63 →
    bytes (serialize n) ∧ (length (serialize n) <= 9)%nat ∧ MinimallyEncode (serialize n) = (false, serialize n) ∧
    ∀ b max, (length (serialize n) <= max <= 7)%nat → CScriptNum (serialize n) b max = inr n) ∧
  (∀ v max, bytes v → (length v <= max <= 7)%nat →
    CScriptNum v false max = inr (set_vch v) ∧
    (CScriptNum v true max = inr (set_vch v) ↔ serialize (set_vch v) = v) ∧
    snd (MinimallyEncode v) = serialize (set_vch v) ∧
    (fst (MinimallyEncode v) = true ↔ serialize (set_vch v) ≠ v)) ∧
  (∀ v, bytes v → let r := snd (MinimallyEncode v) in
    num_value r = num_value v ∧ IsMinimallyEncoded r (length r) = true).
Proof.
  split; [|split].
  - intros n Hn. destruct (serialize_ok n Hn) as (H1 & H2 & H3). split; [done|].
    pose proof (serialize_length n 8 Hn) as Hl. change (128 * 256 ^ Z.of_nat 8) with (2 ^ 71) in Hl. specialize (Hl ltac:(lia)).
    split; [lia|]. split; [|intros; by apply CScriptNum_serialize].
    pose proof (MinimallyEncode_ok (serialize n) H1) as M. destruct (MinimallyEncode (serialize n)) as [c r].
    destruct M as (_ & _ & _ & M1 & M2). destruct c; [by destruct (M2 eq_refl)|]. by rewrite M1.
  - intros v max Hv Hl. pose proof (MinimallyEncode_ok v Hv) as M. unfold CScriptNum.
    destruct (Nat.ltb_spec max (length v)); [lia|]. rewrite set_vch_ok by (done || lia).
    assert (I : minimal v ↔ serialize (num_value v) = v).
    { split; [intros; apply serialize_value; done || lia|]. intros <-. apply serialize_ok.
      pose proof (num_value_bound v 6 Hv ltac:(lia)) as Hr. change (128 * 256 ^ Z.of_nat 6) with (2 ^ 55) in Hr. lia. }
    split; [done|]. split.
    { cbn [andb]. pose proof (IsMinimallyEncoded_ok v max Hv) as E. destruct (IsMinimallyEncoded v max); cbn [negb].
      - split; [|done]. intros _. apply I. by apply E.
      - split; [done|]. intros F%I. assert (false = true) by (by apply E; split; [|lia]). done. }
    destruct (MinimallyEncode v) as [c r]. destruct M as (M1 & M2 & M3 & M4 & M5). cbn [fst snd].
    assert (Hs : ∀ m, Z.abs m < 2 ^ 55 → bytes (serialize m) ∧ minimal (serialize m) ∧ num_value (serialize m) = m)
      by (intros m Hm; apply serialize_ok; lia).
    pose proof (num_value_bound v 6 Hv ltac:(lia)) as Hr. change (128 * 256 ^ Z.of_nat 6) with (2 ^ 55) in Hr.
    destruct (Hs _ Hr) as (S1 & S2 & S3). split; [apply minimal_unique; [done..|by rewrite S3]|].
    rewrite <-I. destruct c; [split; [auto|done]|]. split; [done|]. intros Hn. exfalso. apply Hn. by rewrite <-M4.
  - intros v Hv. pose proof (MinimallyEncode_ok v Hv) as M. destruct (MinimallyEncode v) as [c r].
    destruct M as (M1 & M2 & M3 & _). cbn [snd]. split; [done|]. apply IsMinimallyEncoded_ok; [done|]. split; [done|lia].
Qed.

(** C18: A script that is built with the operators of [CScript] from data,
    64-bit integers and opcodes, of these OP_0 and those above OP_PUSHDATA4,
    parses by [GetScriptOp] into the operations of that sequence, with the
    data pushed by the shortest of the four forms; the opcodes from 0x01 to
    OP_PUSHDATA4 are left out, since [GetScriptOp] takes the bytes after them
    for their data; an opcode outside of a byte makes the operator throw. *)
Theorem script_roundtrip items :
  Forall item_ok items →
  (∃ script, build items = Some script ∧ read_script script = Some (operation <$> items)) ∧
  ∀ o, o < 0 ∨ 0xff < o → build (items ++ [Opcode o]) = None.
Proof.
  intros Hi. destruct (read_build_app items [] Hi) as (b & E & Hr). split; [by exists b|]. intros o Ho.
  unfold build in *. rewrite fold_left_app, E. cbn. unfold push_opcode.
  by replace ((o <? 0) || (0xff <? o)) with true by (symmetry; apply orb_true_iff; rewrite !Z.ltb_lt; lia).
Qed.

Lemma script_roundtrip_witness :
  ∃ script, build [Data [1; 2]; Int64 1000; Opcode OP_0; Opcode OP_CHECKSIG] = Some script ∧
  read_script script = Some (operation <$> [Data [1; 2]; Int64 1000; Opcode OP_0; Opcode OP_CHECKSIG]).
Proof.
  apply (proj1 (script_roundtrip [Data [1; 2]; Int64 1000; Opcode OP_0; Opcode OP_CHECKSIG]
    ltac:(repeat apply Forall_cons_2; [cbn; lia|cbn; lia|by left|right; split; reflexivity || discriminate|apply Forall_nil_2]))).
Defined.

End Script.
