(* ===== verification/Interpreter.v ===== *)
(** * The script interpreter: script/interpreter.cpp, script/interpreter.h, script/script_error.h

    [EvalScript] runs a script on a stack of byte strings, [VerifyScript] runs
    the two (or, for a script hash, three) scripts of an input.  The stack is a
    list, the top first; [stacktop s i] is [stacktop(-i)].  A run ends in the
    monad [M]: with a script error, with a C++ exception (a number that does
    not parse, [at] out of range, [popstack] on an empty stack), in a failed
    assertion, or with the new state; [EvalScript] turns exceptions into
    [SCRIPT_ERR_UNKNOWN_ERROR].  The switch over the opcode is split by the
    groups that the source marks by its comments.  The signature checker is
    the class [BaseSignatureChecker]; the hash functions and the curve are the
    record [Crypto]. *)
From S2P Require Import Prelude SphTypes Serialize Script.

Module Interpreter.
Import Script.

Inductive ScriptError :=
  | SCRIPT_ERR_OK | SCRIPT_ERR_UNKNOWN_ERROR | SCRIPT_ERR_EVAL_FALSE
  | SCRIPT_ERR_OP_RETURN | SCRIPT_ERR_SCRIPT_SIZE | SCRIPT_ERR_PUSH_SIZE
  | SCRIPT_ERR_OP_COUNT | SCRIPT_ERR_STACK_SIZE | SCRIPT_ERR_SIG_COUNT
  | SCRIPT_ERR_PUBKEY_COUNT | SCRIPT_ERR_VERIFY | SCRIPT_ERR_EQUALVERIFY
  | SCRIPT_ERR_CHECKMULTISIGVERIFY | SCRIPT_ERR_CHECKSIGVERIFY | SCRIPT_ERR_CHECKDATASIGVERIFY
  | SCRIPT_ERR_NUMEQUALVERIFY | SCRIPT_ERR_BAD_OPCODE | SCRIPT_ERR_DISABLED_OPCODE
  | SCRIPT_ERR_INVALID_STACK_OPERATION | SCRIPT_ERR_INVALID_ALTSTACK_OPERATION | SCRIPT_ERR_UNBALANCED_CONDITIONAL
  | SCRIPT_ERR_INVALID_SPLIT_RANGE | SCRIPT_ERR_INVALID_OPERAND_SIZE | SCRIPT_ERR_INVALID_NUMBER_RANGE
  | SCRIPT_ERR_IMPOSSIBLE_ENCODING | SCRIPT_ERR_DIV_BY_ZERO | SCRIPT_ERR_MOD_BY_ZERO
  | SCRIPT_ERR_NEGATIVE_LOCKTIME | SCRIPT_ERR_UNSATISFIED_LOCKTIME | SCRIPT_ERR_SIG_HASHTYPE
  | SCRIPT_ERR_SIG_DER | SCRIPT_ERR_MINIMALDATA | SCRIPT_ERR_SIG_PUSHONLY
  | SCRIPT_ERR_SIG_HIGH_S | SCRIPT_ERR_SIG_NULLDUMMY | SCRIPT_ERR_PUBKEYTYPE
  | SCRIPT_ERR_CLEANSTACK | SCRIPT_ERR_SIG_NULLFAIL | SCRIPT_ERR_DISCOURAGE_UPGRADABLE_NOPS
  | SCRIPT_ERR_OP_CODESEPARATOR | SCRIPT_ERR_SIG_FINDANDDELETE.

#[export] Instance ScriptError_eq_dec : EqDecision ScriptError.
Proof. solve_decision. Defined.

Inductive exception := number_error (e : scriptnum_error) | at_out_of_range | popstack_empty.
Inductive stop := error (e : ScriptError) | throws (x : exception) | assertion_fails | fuel_ends.

Definition M (A : Type) : Type := stop + A.
#[export] Instance M_ret : MRet M := λ A a, inr a.
#[export] Instance M_bind : MBind M := λ A B f m, match m with inl x => inl x | inr a => f a end.

(** [if (!b) return set_error(serror, e);] *)
Definition require (b : bool) (e : ScriptError) : M unit := if b then mret tt else inl (error e).
Definition assert_that (b : bool) : M unit := if b then mret tt else inl assertion_fails.

Abbreviation valtype := (list Z).

(** ** Flags *)

Definition SCRIPT_VERIFY_P2SH : Z := 1 ≪ 0.
Definition SCRIPT_VERIFY_STRICTENC : Z := 1 ≪ 1.
Definition SCRIPT_VERIFY_DERSIG : Z := 1 ≪ 2.
Definition SCRIPT_VERIFY_LOW_S : Z := 1 ≪ 3.
Definition SCRIPT_VERIFY_NULLDUMMY : Z := 1 ≪ 4.
Definition SCRIPT_VERIFY_SIGPUSHONLY : Z := 1 ≪ 5.
Definition SCRIPT_VERIFY_MINIMALDATA : Z := 1 ≪ 6.
Definition SCRIPT_VERIFY_DISCOURAGE_UPGRADABLE_NOPS : Z := 1 ≪ 7.
Definition SCRIPT_VERIFY_CLEANSTACK : Z := 1 ≪ 8.
Definition SCRIPT_VERIFY_CHECKLOCKTIMEVERIFY : Z := 1 ≪ 9.
Definition SCRIPT_VERIFY_CHECKSEQUENCEVERIFY : Z := 1 ≪ 10.
Definition SCRIPT_VERIFY_NULLFAIL : Z := 1 ≪ 14.
Definition SCRIPT_VERIFY_CONST_SCRIPTCODE : Z := 1 ≪ 16.

(** [(flags & flag) != 0] *)
Definition has (flags flag : Z) : bool := negb (Z.land flags flag =? 0).

Definition SIGHASH_ALL : Z := 1.
Definition SIGHASH_NONE : Z := 2.
Definition SIGHASH_SINGLE : Z := 3.
Definition SIGHASH_ANYONECANPAY : Z := 0x80.
Definition SEQUENCE_LOCKTIME_DISABLE_FLAG : Z := 1 ≪ 31.

Inductive SigVersion := BASE.

(** What the interpreter asks of the transaction that it is run for. *)
Class BaseSignatureChecker := {
  CheckSig : valtype → valtype → list Z → SigVersion → bool;
  CheckLockTime : Z → bool;
  CheckSequence : Z → bool }.

(** The hash functions, and the curve: [secp256k1_verify key hash sig] is the parsing of the
    key and of the signature with the verification, [CheckLowS] the test on a signature. *)
Record Crypto := {
  hash_ripemd160 : list Z → list Z;
  hash_sha1 : list Z → list Z;
  hash_sha256 : list Z → list Z;
  hash_hash160 : list Z → list Z;
  hash_hash256 : list Z → list Z;
  secp256k1_verify : list Z → list Z → list Z → bool;
  CheckLowS : list Z → bool }.

(** ** Public keys (pubkey.h) *)

Definition SIZE : nat := 65.
Definition COMPRESSED_SIZE : nat := 33.
Definition GetLen (chHeader : Z) : nat :=
  if (chHeader =? 2) || (chHeader =? 3) then COMPRESSED_SIZE
  else if (chHeader =? 4) || (chHeader =? 6) || (chHeader =? 7) then SIZE else 0.
(** The key that [Set] stores: the invalid key is the single byte 0xFF. *)
Definition CPubKey (vch : list Z) : list Z :=
  let len := match vch with [] => 0%nat | h :: _ => GetLen h end in
  if negb (len =? 0)%nat && (len =? length vch)%nat then vch else [0xff].
Definition IsValid (key : list Z) : bool := (0 <? GetLen (key @@ 0))%nat.
Definition Verify (c : Crypto) (key hash vchSig : list Z) : bool :=
  if negb (IsValid key) then false else secp256k1_verify c key hash vchSig.

(** ** Stack elements *)

Fixpoint CastToBool (vch : valtype) : bool :=
  match vch with
  | [] => false
  | b :: rest =>
      if isset b then negb (match rest with [] => b =? 0x80 | _ => false end) else CastToBool rest
  end.

Definition stacktop (stack : list valtype) (i : nat) : M valtype :=
  match stack !! (i - 1)%nat with
  | Some v => if (i =? 0)%nat then inl (throws at_out_of_range) else mret v
  | None => inl (throws at_out_of_range)
  end.
Definition popstack (stack : list valtype) : M (list valtype) :=
  match stack with [] => inl (throws popstack_empty) | _ :: stack => mret stack end.
(** [swap(stacktop(-i), stacktop(-j))] *)
Definition swap (stack : list valtype) (i j : nat) : M (list valtype) :=
  a ← stacktop stack i; b ← stacktop stack j; mret (<[(j - 1)%nat := a]> (<[(i - 1)%nat := b]> stack)).

Definition vchFalse : valtype := [].
Definition vchTrue : valtype := [1].
Definition vch_of (b : bool) : valtype := if b then vchTrue else vchFalse.

(** The constructor of [CScriptNum] on a stack element. *)
Definition number (fRequireMinimal : bool) (v : valtype) (nMaxNumSize : nat) : M Z :=
  match CScriptNum v fRequireMinimal nMaxNumSize with
  | inl e => inl (throws (number_error e))
  | inr n => mret n
  end.

(** The operators of [CScriptNum] that assert that nothing overflows. *)
Definition INT64_MAX : Z := 2 ^ 63 - 1.
Definition INT64_MIN : Z := - 2 ^ 63.
Definition add_assign (m_value rhs : Z) : M Z :=
  _ ← assert_that ((rhs =? 0) || ((0 <? rhs) && (m_value <=? INT64_MAX - rhs)) ||
                   ((rhs <? 0) && (INT64_MIN - rhs <=? m_value)));
  mret (m_value + rhs).
Definition sub_assign (m_value rhs : Z) : M Z :=
  _ ← assert_that ((rhs =? 0) || ((0 <? rhs) && (INT64_MIN + rhs <=? m_value)) ||
                   ((rhs <? 0) && (m_value <=? INT64_MAX + rhs)));
  mret (m_value - rhs).
Definition negate (m_value : Z) : M Z :=
  _ ← assert_that (negb (m_value =? INT64_MIN)); mret (- m_value).

(** ** Encodings *)

Definition IsCompressedOrUncompressedPubKey (vchPubKey : valtype) : bool :=
  if (length vchPubKey <? COMPRESSED_SIZE)%nat then false
  else if vchPubKey @@ 0 =? 0x04 then (length vchPubKey =? SIZE)%nat
  else if (vchPubKey @@ 0 =? 0x02) || (vchPubKey @@ 0 =? 0x03) then (length vchPubKey =? COMPRESSED_SIZE)%nat
  else false.

Definition IsValidSignatureEncoding (sig : valtype) : bool :=
  let size := Z.of_nat (length sig) in
  let at_ (i : Z) := sig @@ Z.to_nat i in
  if size <? 9 then false
  else if 73 <? size then false
  else if negb (at_ 0 =? 0x30) then false
  else if negb (at_ 1 =? size - 3) then false else
  let lenR := at_ 3 in
  if size <=? 5 + lenR then false else
  let lenS := at_ (5 + lenR) in
  if negb (lenR + lenS + 7 =? size) then false
  else if negb (at_ 2 =? 0x02) then false
  else if lenR =? 0 then false
  else if isset (Z.land (at_ 4) 0x80) then false
  else if (1 <? lenR) && (at_ 4 =? 0x00) && negb (isset (Z.land (at_ 5) 0x80)) then false
  else if negb (at_ (lenR + 4) =? 0x02) then false
  else if lenS =? 0 then false
  else if isset (Z.land (at_ (lenR + 6)) 0x80) then false
  else if (1 <? lenS) && (at_ (lenR + 6) =? 0x00) && negb (isset (Z.land (at_ (lenR + 7)) 0x80)) then false
  else true.

Definition IsLowDERSignature (c : Crypto) (vchSig : valtype) : M unit :=
  _ ← require (IsValidSignatureEncoding vchSig) SCRIPT_ERR_SIG_DER;
  let vchSigCopy := removelast vchSig in
  require (CheckLowS c vchSigCopy) SCRIPT_ERR_SIG_HIGH_S.

Definition IsDefinedHashtypeSignature (vchSig : valtype) : bool :=
  if (length vchSig =? 0)%nat then false else
  let nHashType := u8 (Z.land (back vchSig) (Z.lnot SIGHASH_ANYONECANPAY)) in
  negb ((nHashType <? SIGHASH_ALL) || (SIGHASH_SINGLE <? nHashType)).

Definition CheckSignatureEncoding (c : Crypto) (flags : Z) (vchSig : valtype) : M unit :=
  if (length vchSig =? 0)%nat then mret tt
  else if has flags (Z.lor (Z.lor SCRIPT_VERIFY_DERSIG SCRIPT_VERIFY_LOW_S) SCRIPT_VERIFY_STRICTENC) &&
          negb (IsValidSignatureEncoding vchSig)
  then inl (error SCRIPT_ERR_SIG_DER) else
  _ ← (if has flags SCRIPT_VERIFY_LOW_S then IsLowDERSignature c vchSig else mret tt);
  require (negb (has flags SCRIPT_VERIFY_STRICTENC && negb (IsDefinedHashtypeSignature vchSig)))
    SCRIPT_ERR_SIG_HASHTYPE.

Definition CheckPubKeyEncoding (flags : Z) (vchPubKey : valtype) : M unit :=
  require (negb (has flags SCRIPT_VERIFY_STRICTENC && negb (IsCompressedOrUncompressedPubKey vchPubKey)))
    SCRIPT_ERR_PUBKEYTYPE.

Definition CheckMinimalPush (data : valtype) (opcode : Z) : M bool :=
  _ ← assert_that ((0 <=? opcode) && (opcode <=? OP_PUSHDATA4));
  let size := Z.of_nat (length data) in
  mret (if size =? 0 then opcode =? OP_0
        else if (size =? 1) && (1 <=? data @@ 0) && (data @@ 0 <=? 16) then false
        else if (size =? 1) && (data @@ 0 =? 0x81) then false
        else if size <=? 75 then opcode =? size
        else if size <=? 255 then opcode =? OP_PUSHDATA1
        else if size <=? 65535 then opcode =? OP_PUSHDATA2
        else true).

(** ** FindAndDelete *)

(** [while (end - pc >= b.size() && std::equal(b.begin(), b.end(), pc)) { pc = pc + b.size(); ++nFound; }] *)
Fixpoint skip_loop (fuel : nat) (b pc : list Z) (nFound : Z) : option (list Z * Z) :=
  if (length b <=? length pc)%nat && bool_decide (take (length b) pc = b)
  then match fuel with
       | O => None
       | S fuel => skip_loop fuel b (drop (length b) pc) (nFound + 1)
       end
  else Some (pc, nFound).

(** The bytes from [pc2] to [pc] are copied, then occurrences are skipped, then an operation is read. *)
Fixpoint delete_loop (fuel : nat) (b result pc2 pc : list Z) (nFound : Z) : option (list Z * list Z * Z) :=
  let result := result ++ take (length pc2 - length pc) pc2 in
  match skip_loop (length pc) b pc nFound with
  | None => None
  | Some (pc, nFound) =>
      let pc2 := pc in
      let '(ok, pc, _, _) := GetScriptOp pc in
      if ok then match fuel with O => None | S fuel => delete_loop fuel b result pc2 pc nFound end
      else Some (result, pc2, nFound)
  end.

(** The number of occurrences and the script after the call. *)
Definition FindAndDelete (script b : list Z) : M (Z * list Z) :=
  if (length b =? 0)%nat then mret (0, script)
  else match delete_loop (length script) b [] script script 0 with
       | None => inl fuel_ends
       | Some (result, pc2, nFound) =>
           mret (nFound, if 0 <? nFound then result ++ pc2 else script)
       end.

(** ** The condition stack *)

Definition NO_FALSE : Z := 2 ^ 32 - 1.
Record ConditionStack := mk_conditions { m_stack_size : Z; m_first_false_pos : Z }.
Definition no_conditions : ConditionStack := mk_conditions 0 NO_FALSE.
Definition conditions_empty (c : ConditionStack) : bool := m_stack_size c =? 0.
Definition all_true (c : ConditionStack) : bool := m_first_false_pos c =? NO_FALSE.
Definition push_condition (c : ConditionStack) (f : bool) : ConditionStack :=
  mk_conditions (SPH_T32 (m_stack_size c + 1))
    (if (m_first_false_pos c =? NO_FALSE) && negb f then m_stack_size c else m_first_false_pos c).
Definition pop_condition (c : ConditionStack) : M ConditionStack :=
  _ ← assert_that (0 <? m_stack_size c);
  let size := SPH_T32 (m_stack_size c - 1) in
  mret (mk_conditions size (if m_first_false_pos c =? size then NO_FALSE else m_first_false_pos c)).
Definition toggle_top (c : ConditionStack) : M ConditionStack :=
  _ ← assert_that (0 <? m_stack_size c);
  mret (mk_conditions (m_stack_size c)
    (if m_first_false_pos c =? NO_FALSE then SPH_T32 (m_stack_size c - 1)
     else if m_first_false_pos c =? SPH_T32 (m_stack_size c - 1) then NO_FALSE
     else m_first_false_pos c)).


(** ** The operations *)

Definition one_of (opcode : Z) (l : list Z) : bool := existsb (Z.eqb opcode) l.
Definition b2z (b : bool) : Z := if b then 1 else 0.

(** The variables of the loop: the iterators [pc] and [pbegincodehash] as the rest of the script. *)
Record state := mk_state {
  pc : list Z; pbegincodehash : list Z; vfExec : ConditionStack;
  stack : list valtype; altstack : list valtype; nOpCount : Z }.
Definition with_stack (s : state) (stk : list valtype) : state :=
  mk_state (pc s) (pbegincodehash s) (vfExec s) stk (altstack s) (nOpCount s).
Definition with_conditions (s : state) (c : ConditionStack) : state :=
  mk_state (pc s) (pbegincodehash s) c (stack s) (altstack s) (nOpCount s).

Section Operations.
Context (c : Crypto) (flags : Z) `{BaseSignatureChecker}.

Definition fRequireMinimal : bool := has flags SCRIPT_VERIFY_MINIMALDATA.
Definition INVALID_STACK := SCRIPT_ERR_INVALID_STACK_OPERATION.
(** [if (stack.size() < n) return set_error(serror, SCRIPT_ERR_INVALID_STACK_OPERATION);] *)
Definition need (stk : list valtype) (n : nat) : M unit := require (n <=? length stk)%nat INVALID_STACK.

(** *** Push value, control *)

Definition op_small_integer (opcode : Z) (stk : list valtype) : M (list valtype) :=
  mret (serialize (opcode - (OP_1 - 1)) :: stk).

Definition op_checklocktimeverify (stk : list valtype) : M (list valtype) :=
  if negb (has flags SCRIPT_VERIFY_CHECKLOCKTIMEVERIFY) then mret stk else
  _ ← need stk 1;
  v ← stacktop stk 1; nLockTime ← number fRequireMinimal v 5;
  _ ← require (negb (nLockTime <? 0)) SCRIPT_ERR_NEGATIVE_LOCKTIME;
  _ ← require (CheckLockTime nLockTime) SCRIPT_ERR_UNSATISFIED_LOCKTIME;
  mret stk.

Definition op_checksequenceverify (stk : list valtype) : M (list valtype) :=
  if negb (has flags SCRIPT_VERIFY_CHECKSEQUENCEVERIFY) then mret stk else
  _ ← need stk 1;
  v ← stacktop stk 1; nSequence ← number fRequireMinimal v 5;
  _ ← require (negb (nSequence <? 0)) SCRIPT_ERR_NEGATIVE_LOCKTIME;
  if negb (Z.land nSequence SEQUENCE_LOCKTIME_DISABLE_FLAG =? 0) then mret stk else
  _ ← require (CheckSequence nSequence) SCRIPT_ERR_UNSATISFIED_LOCKTIME;
  mret stk.

Definition op_upgradable_nop (stk : list valtype) : M (list valtype) :=
  _ ← require (negb (has flags SCRIPT_VERIFY_DISCOURAGE_UPGRADABLE_NOPS)) SCRIPT_ERR_DISCOURAGE_UPGRADABLE_NOPS;
  mret stk.

Definition op_if (opcode : Z) (fExec : bool) (s : state) : M state :=
  '(fValue, stk) ←
    (if fExec
     then _ ← require (1 <=? length (stack s))%nat SCRIPT_ERR_UNBALANCED_CONDITIONAL;
          vch ← stacktop (stack s) 1;
          let fValue := CastToBool vch in
          let fValue := if opcode =? OP_NOTIF then negb fValue else fValue in
          stk ← popstack (stack s);
          mret (fValue, stk)
     else mret (false, stack s));
  mret (with_conditions (with_stack s stk) (push_condition (vfExec s) fValue)).

Definition op_else (s : state) : M state :=
  _ ← require (negb (conditions_empty (vfExec s))) SCRIPT_ERR_UNBALANCED_CONDITIONAL;
  v ← toggle_top (vfExec s); mret (with_conditions s v).

Definition op_endif (s : state) : M state :=
  _ ← require (negb (conditions_empty (vfExec s))) SCRIPT_ERR_UNBALANCED_CONDITIONAL;
  v ← pop_condition (vfExec s); mret (with_conditions s v).

Definition op_verify (stk : list valtype) : M (list valtype) :=
  _ ← need stk 1;
  v ← stacktop stk 1;
  if CastToBool v then popstack stk else inl (error SCRIPT_ERR_VERIFY).

(** *** Stack operations *)

Definition op_toaltstack (s : state) : M state :=
  _ ← need (stack s) 1;
  v ← stacktop (stack s) 1; stk ← popstack (stack s);
  mret (mk_state (pc s) (pbegincodehash s) (vfExec s) stk (v :: altstack s) (nOpCount s)).

Definition op_fromaltstack (s : state) : M state :=
  _ ← require (1 <=? length (altstack s))%nat SCRIPT_ERR_INVALID_ALTSTACK_OPERATION;
  v ← stacktop (altstack s) 1; alt ← popstack (altstack s);
  mret (mk_state (pc s) (pbegincodehash s) (vfExec s) (v :: stack s) alt (nOpCount s)).

Definition op_2drop (stk : list valtype) : M (list valtype) :=
  _ ← need stk 2; stk ← popstack stk; popstack stk.
Definition op_2dup (stk : list valtype) : M (list valtype) :=
  _ ← need stk 2;
  vch1 ← stacktop stk 2; vch2 ← stacktop stk 1; mret (vch2 :: vch1 :: stk).
Definition op_3dup (stk : list valtype) : M (list valtype) :=
  _ ← need stk 3;
  vch1 ← stacktop stk 3; vch2 ← stacktop stk 2; vch3 ← stacktop stk 1; mret (vch3 :: vch2 :: vch1 :: stk).
Definition op_2over (stk : list valtype) : M (list valtype) :=
  _ ← need stk 4;
  vch1 ← stacktop stk 4; vch2 ← stacktop stk 3; mret (vch2 :: vch1 :: stk).
Definition op_2rot (stk : list valtype) : M (list valtype) :=
  _ ← need stk 6;
  vch1 ← stacktop stk 6; vch2 ← stacktop stk 5;
  let stk := take 4 stk ++ drop 6 stk in
  mret (vch2 :: vch1 :: stk).
Definition op_2swap (stk : list valtype) : M (list valtype) :=
  _ ← need stk 4; stk ← swap stk 4 2; swap stk 3 1.
Definition op_ifdup (stk : list valtype) : M (list valtype) :=
  _ ← need stk 1;
  vch ← stacktop stk 1; mret (if CastToBool vch then vch :: stk else stk).
Definition op_depth (stk : list valtype) : M (list valtype) :=
  mret (serialize (Z.of_nat (length stk)) :: stk).
Definition op_drop (stk : list valtype) : M (list valtype) := _ ← need stk 1; popstack stk.
Definition op_dup (stk : list valtype) : M (list valtype) :=
  _ ← need stk 1; vch ← stacktop stk 1; mret (vch :: stk).
Definition op_nip (stk : list valtype) : M (list valtype) := _ ← need stk 2; mret (take 1 stk ++ drop 2 stk).
Definition op_over (stk : list valtype) : M (list valtype) :=
  _ ← need stk 2; vch ← stacktop stk 2; mret (vch :: stk).
Definition op_pick_roll (opcode : Z) (stk : list valtype) : M (list valtype) :=
  _ ← need stk 2;
  v ← stacktop stk 1; m ← number fRequireMinimal v nDefaultMaxNumSize;
  let n := getint m in
  stk ← popstack stk;
  if (n <? 0) || (Z.of_nat (length stk) <=? n) then inl (error INVALID_STACK) else
  let n := Z.to_nat n in
  vch ← stacktop stk (n + 1);
  let stk := if opcode =? OP_ROLL then take n stk ++ drop (n + 1) stk else stk in
  mret (vch :: stk).
Definition op_rot (stk : list valtype) : M (list valtype) :=
  _ ← need stk 3; stk ← swap stk 3 2; swap stk 2 1.
Definition op_swap (stk : list valtype) : M (list valtype) := _ ← need stk 2; swap stk 2 1.
Definition op_tuck (stk : list valtype) : M (list valtype) :=
  _ ← need stk 2; vch ← stacktop stk 1; mret (take 2 stk ++ vch :: drop 2 stk).
Definition op_size (stk : list valtype) : M (list valtype) :=
  _ ← need stk 1; v ← stacktop stk 1; mret (serialize (Z.of_nat (length v)) :: stk).

(** *** Bitwise logic *)

(** The last step of the operations with a [VERIFY] form: [b] is on top of the stack. *)
Definition verify_form (is_verify b : bool) (e : ScriptError) (stk : list valtype) : M (list valtype) :=
  if is_verify then if b then popstack stk else inl (error e) else mret stk.

Definition op_equal (opcode : Z) (stk : list valtype) : M (list valtype) :=
  _ ← need stk 2;
  vch1 ← stacktop stk 2; vch2 ← stacktop stk 1;
  let fEqual := bool_decide (vch1 = vch2) in
  stk ← popstack stk; stk ← popstack stk;
  verify_form (opcode =? OP_EQUALVERIFY) fEqual SCRIPT_ERR_EQUALVERIFY (vch_of fEqual :: stk).

(** [vch1] is changed in place, then [vch2] popped. *)
Definition op_bitwise (opcode : Z) (stk : list valtype) : M (list valtype) :=
  _ ← need stk 2;
  vch1 ← stacktop stk 2; vch2 ← stacktop stk 1;
  _ ← require (length vch1 =? length vch2)%nat SCRIPT_ERR_INVALID_OPERAND_SIZE;
  let f := if opcode =? OP_AND then Z.land else if opcode =? OP_OR then Z.lor else Z.lxor in
  popstack (<[1%nat := zip_with f vch1 vch2]> stk).

(** *** Numeric *)

Definition op_unary (opcode : Z) (stk : list valtype) : M (list valtype) :=
  _ ← need stk 1;
  v ← stacktop stk 1; bn ← number fRequireMinimal v nDefaultMaxNumSize;
  bn ← (if opcode =? OP_1ADD then add_assign bn 1
        else if opcode =? OP_1SUB then sub_assign bn 1
        else if opcode =? OP_NEGATE then negate bn
        else if opcode =? OP_ABS then if bn <? 0 then negate bn else mret bn
        else if opcode =? OP_NOT then mret (b2z (bn =? 0))
        else if opcode =? OP_0NOTEQUAL then mret (b2z (negb (bn =? 0)))
        else inl assertion_fails);
  stk ← popstack stk;
  mret (serialize bn :: stk).

Definition binary (opcode bn1 bn2 : Z) : M Z :=
  if opcode =? OP_ADD then mret (bn1 + bn2)
  else if opcode =? OP_SUB then mret (bn1 - bn2)
  else if opcode =? OP_DIV
  then _ ← require (negb (bn2 =? 0)) SCRIPT_ERR_DIV_BY_ZERO; mret (Z.quot bn1 bn2)
  else if opcode =? OP_MOD
  then _ ← require (negb (bn2 =? 0)) SCRIPT_ERR_MOD_BY_ZERO; mret (Z.rem bn1 bn2)
  else if opcode =? OP_BOOLAND then mret (b2z (negb (bn1 =? 0) && negb (bn2 =? 0)))
  else if opcode =? OP_BOOLOR then mret (b2z (negb (bn1 =? 0) || negb (bn2 =? 0)))
  else if opcode =? OP_NUMEQUAL then mret (b2z (bn1 =? bn2))
  else if opcode =? OP_NUMEQUALVERIFY then mret (b2z (bn1 =? bn2))
  else if opcode =? OP_NUMNOTEQUAL then mret (b2z (negb (bn1 =? bn2)))
  else if opcode =? OP_LESSTHAN then mret (b2z (bn1 <? bn2))
  else if opcode =? OP_GREATERTHAN then mret (b2z (bn2 <? bn1))
  else if opcode =? OP_LESSTHANOREQUAL then mret (b2z (bn1 <=? bn2))
  else if opcode =? OP_GREATERTHANOREQUAL then mret (b2z (bn2 <=? bn1))
  else if opcode =? OP_MIN then mret (if bn1 <? bn2 then bn1 else bn2)
  else if opcode =? OP_MAX then mret (if bn2 <? bn1 then bn1 else bn2)
  else inl assertion_fails.

Definition op_binary (opcode : Z) (stk : list valtype) : M (list valtype) :=
  _ ← need stk 2;
  v1 ← stacktop stk 2; bn1 ← number fRequireMinimal v1 nDefaultMaxNumSize;
  v2 ← stacktop stk 1; bn2 ← number fRequireMinimal v2 nDefaultMaxNumSize;
  bn ← binary opcode bn1 bn2;
  stk ← popstack stk; stk ← popstack stk;
  let stk := serialize bn :: stk in
  if opcode =? OP_NUMEQUALVERIFY
  then v ← stacktop stk 1; verify_form true (CastToBool v) SCRIPT_ERR_NUMEQUALVERIFY stk
  else mret stk.

Definition op_within (stk : list valtype) : M (list valtype) :=
  _ ← need stk 3;
  v1 ← stacktop stk 3; bn1 ← number fRequireMinimal v1 nDefaultMaxNumSize;
  v2 ← stacktop stk 2; bn2 ← number fRequireMinimal v2 nDefaultMaxNumSize;
  v3 ← stacktop stk 1; bn3 ← number fRequireMinimal v3 nDefaultMaxNumSize;
  let fValue := (bn2 <=? bn1) && (bn1 <? bn3) in
  stk ← popstack stk; stk ← popstack stk; stk ← popstack stk;
  mret (vch_of fValue :: stk).

(** *** Hashes and signatures *)

Definition op_hash (opcode : Z) (stk : list valtype) : M (list valtype) :=
  _ ← need stk 1;
  vch ← stacktop stk 1;
  let vchHash :=
    if opcode =? OP_RIPEMD160 then hash_ripemd160 c vch
    else if opcode =? OP_SHA1 then hash_sha1 c vch
    else if opcode =? OP_SHA256 then hash_sha256 c vch
    else if opcode =? OP_HASH160 then hash_hash160 c vch
    else hash_hash256 c vch in
  stk ← popstack stk;
  mret (vchHash :: stk).

(** The script code without the signature, which cannot sign itself. *)
Definition drop_signature (scriptCode vchSig : list Z) : M (list Z) :=
  '(found, scriptCode) ← FindAndDelete scriptCode (push_data [] vchSig);
  _ ← require (negb ((0 <? found) && has flags SCRIPT_VERIFY_CONST_SCRIPTCODE)) SCRIPT_ERR_SIG_FINDANDDELETE;
  mret scriptCode.

(** Whether the signature is good. *)
Definition EvalChecksig (vchSig vchPubKey scriptCode : list Z) : M bool :=
  scriptCode ← drop_signature scriptCode vchSig;
  _ ← CheckSignatureEncoding c flags vchSig; _ ← CheckPubKeyEncoding flags vchPubKey;
  let fSuccess := CheckSig vchSig vchPubKey scriptCode BASE in
  _ ← require (negb (negb fSuccess && has flags SCRIPT_VERIFY_NULLFAIL && (0 <? length vchSig)%nat)) SCRIPT_ERR_SIG_NULLFAIL;
  mret fSuccess.

Definition op_checksig (opcode : Z) (codehash : list Z) (stk : list valtype) : M (list valtype) :=
  _ ← need stk 2;
  vchSig ← stacktop stk 2; vchPubKey ← stacktop stk 1;
  fSuccess ← EvalChecksig vchSig vchPubKey codehash;
  stk ← popstack stk; stk ← popstack stk;
  verify_form (opcode =? OP_CHECKSIGVERIFY) fSuccess SCRIPT_ERR_CHECKSIGVERIFY (vch_of fSuccess :: stk).

Definition op_checkdatasig (opcode : Z) (stk : list valtype) : M (list valtype) :=
  _ ← need stk 3;
  vchSig ← stacktop stk 3; vchMessage ← stacktop stk 2; vchPubKey ← stacktop stk 1;
  _ ← CheckSignatureEncoding c flags vchSig; _ ← CheckPubKeyEncoding flags vchPubKey;
  let fSuccess :=
    if (0 <? length vchSig)%nat then Verify c (CPubKey vchPubKey) (hash_sha256 c vchMessage) vchSig else false in
  _ ← require (negb (negb fSuccess && has flags SCRIPT_VERIFY_NULLFAIL && (0 <? length vchSig)%nat)) SCRIPT_ERR_SIG_NULLFAIL;
  stk ← popstack stk; stk ← popstack stk; stk ← popstack stk;
  verify_form (opcode =? OP_CHECKDATASIGVERIFY) fSuccess SCRIPT_ERR_CHECKDATASIGVERIFY (vch_of fSuccess :: stk).

(** The signatures at positions [isig], [isig + 1], ... are dropped from the script code. *)
Fixpoint drop_signatures (n : nat) (stk : list valtype) (isig : nat) (scriptCode : list Z) : M (list Z) :=
  match n with
  | O => mret scriptCode
  | S n =>
      vchSig ← stacktop stk isig;
      scriptCode ← drop_signature scriptCode vchSig;
      drop_signatures n stk (isig + 1) scriptCode
  end.

(** The loop [while (fSuccess && nSigsCount > 0)]: [fSuccess]. *)
Fixpoint multisig_loop (fuel : nat) (stk : list valtype) (scriptCode : list Z) (isig ikey : nat)
    (nSigsCount nKeysCount : Z) : M bool :=
  if nSigsCount <=? 0 then mret true else
  match fuel with
  | O => inl fuel_ends
  | S fuel =>
      vchSig ← stacktop stk isig; vchPubKey ← stacktop stk ikey;
      _ ← CheckSignatureEncoding c flags vchSig; _ ← CheckPubKeyEncoding flags vchPubKey;
      let fOk := CheckSig vchSig vchPubKey scriptCode BASE in
      let '(isig, nSigsCount) := if fOk then ((isig + 1)%nat, nSigsCount - 1) else (isig, nSigsCount) in
      let nKeysCount := nKeysCount - 1 in
      if nKeysCount <? nSigsCount then mret false
      else multisig_loop fuel stk scriptCode isig (ikey + 1) nSigsCount nKeysCount
  end.

(** [while (i-- > 1)]: [n] turns. *)
Fixpoint clean_loop (n : nat) (fSuccess : bool) (ikey2 : nat) (stk : list valtype) : M (list valtype) :=
  match n with
  | O => mret stk
  | S n =>
      _ ← (if negb fSuccess && has flags SCRIPT_VERIFY_NULLFAIL && (ikey2 =? 0)%nat
           then v ← stacktop stk 1; require (length v =? 0)%nat SCRIPT_ERR_SIG_NULLFAIL
           else mret tt);
      stk ← popstack stk;
      clean_loop n fSuccess (ikey2 - 1) stk
  end.

(** The stack and [nOpCount]. *)
Definition op_checkmultisig (opcode : Z) (codehash : list Z) (stk : list valtype) (nOps : Z)
    : M (list valtype * Z) :=
  _ ← need stk 1;
  v ← stacktop stk 1; m ← number fRequireMinimal v nDefaultMaxNumSize;
  let nKeysCount := getint m in
  _ ← require (negb ((nKeysCount <? 0) || (MAX_PUBKEYS_PER_MULTISIG <? nKeysCount))) SCRIPT_ERR_PUBKEY_COUNT;
  let nOps := nOps + nKeysCount in
  _ ← require (negb (MAX_OPS_PER_SCRIPT <? nOps)) SCRIPT_ERR_OP_COUNT;
  let ikey := 2%nat in
  let ikey2 := (Z.to_nat nKeysCount + 2)%nat in
  let i := (2 + Z.to_nat nKeysCount)%nat in
  _ ← need stk i;
  v ← stacktop stk i; m ← number fRequireMinimal v nDefaultMaxNumSize;
  let nSigsCount := getint m in
  _ ← require (negb ((nSigsCount <? 0) || (nKeysCount <? nSigsCount))) SCRIPT_ERR_SIG_COUNT;
  let isig := (i + 1)%nat in
  let i := (isig + Z.to_nat nSigsCount)%nat in
  _ ← need stk i;
  scriptCode ← drop_signatures (Z.to_nat nSigsCount) stk isig codehash;
  fSuccess ← multisig_loop (Z.to_nat nKeysCount) stk scriptCode isig ikey nSigsCount nKeysCount;
  stk ← clean_loop (i - 1) fSuccess ikey2 stk;
  _ ← need stk 1;
  _ ← (if has flags SCRIPT_VERIFY_NULLDUMMY
       then v ← stacktop stk 1; require (length v =? 0)%nat SCRIPT_ERR_SIG_NULLDUMMY else mret tt);
  stk ← popstack stk;
  stk ← verify_form (opcode =? OP_CHECKMULTISIGVERIFY) fSuccess SCRIPT_ERR_CHECKMULTISIGVERIFY (vch_of fSuccess :: stk);
  mret (stk, nOps).

(** *** Splice and conversion operations *)

Definition op_cat (stk : list valtype) : M (list valtype) :=
  _ ← need stk 2;
  vch1 ← stacktop stk 2; vch2 ← stacktop stk 1;
  _ ← require (length vch1 + length vch2 <=? MAX_SCRIPT_ELEMENT_SIZE)%nat SCRIPT_ERR_PUSH_SIZE;
  popstack (<[1%nat := vch1 ++ vch2]> stk).

Definition op_split (stk : list valtype) : M (list valtype) :=
  _ ← need stk 2;
  vch ← stacktop stk 2; v ← stacktop stk 1; m ← number fRequireMinimal v nDefaultMaxNumSize;
  let nPosition := getint m in
  _ ← require (negb ((nPosition <? 0) || (Z.of_nat (length vch) <? nPosition))) SCRIPT_ERR_INVALID_SPLIT_RANGE;
  stk ← popstack stk; stk ← popstack stk;
  mret (if nPosition =? 0 then vch :: [] :: stk
        else if nPosition =? Z.of_nat (length vch) then [] :: vch :: stk
        else drop (Z.to_nat nPosition) vch :: take (Z.to_nat nPosition) vch :: stk).

Definition op_num2bin (stk : list valtype) : M (list valtype) :=
  _ ← need stk 2;
  v ← stacktop stk 1; m ← number fRequireMinimal v nDefaultMaxNumSize;
  let size := SPH_T64 (getint m) in
  _ ← require (negb (Z.of_nat MAX_SCRIPT_ELEMENT_SIZE <? size)) SCRIPT_ERR_PUSH_SIZE;
  let size := Z.to_nat size in
  stk ← popstack stk;
  v ← stacktop stk 1;
  let rawnum := snd (MinimallyEncode v) in
  _ ← require (length rawnum <=? size)%nat SCRIPT_ERR_IMPOSSIBLE_ENCODING;
  if (length rawnum =? size)%nat then mret (<[0%nat := rawnum]> stk) else
  let '(signbit, rawnum) :=
    if (0 <? length rawnum)%nat then (Z.land (back rawnum) 0x80, set_back rawnum (Z.land (back rawnum) 0x7f))
    else (0, rawnum) in
  let rawnum := rawnum ++ replicate (size - 1 - length rawnum) 0x00 in
  mret (<[0%nat := rawnum ++ [signbit]]> stk).

Definition op_bin2num (stk : list valtype) : M (list valtype) :=
  _ ← need stk 1;
  v ← stacktop stk 1;
  let n := snd (MinimallyEncode v) in
  _ ← require (IsMinimallyEncoded n nDefaultMaxNumSize) SCRIPT_ERR_INVALID_NUMBER_RANGE;
  mret (<[0%nat := n]> stk).

(** *** The switch *)

Definition on_stack (f : list valtype → M (list valtype)) (s : state) : M state :=
  stk ← f (stack s); mret (with_stack s stk).

Definition exec_control (opcode : Z) (fExec : bool) (s : state) : option (M state) :=
  if (opcode =? OP_1NEGATE) || ((OP_1 <=? opcode) && (opcode <=? OP_16))
  then Some (on_stack (op_small_integer opcode) s)
  else if opcode =? OP_NOP then Some (mret s)
  else if opcode =? OP_CHECKLOCKTIMEVERIFY then Some (on_stack op_checklocktimeverify s)
  else if opcode =? OP_CHECKSEQUENCEVERIFY then Some (on_stack op_checksequenceverify s)
  else if one_of opcode [OP_NOP1; OP_NOP4; OP_NOP5; OP_NOP6; OP_NOP7; OP_NOP8; OP_NOP9; OP_NOP10]
  then Some (on_stack op_upgradable_nop s)
  else if one_of opcode [OP_IF; OP_NOTIF] then Some (op_if opcode fExec s)
  else if opcode =? OP_ELSE then Some (op_else s)
  else if opcode =? OP_ENDIF then Some (op_endif s)
  else if opcode =? OP_VERIFY then Some (on_stack op_verify s)
  else if opcode =? OP_RETURN then Some (inl (error SCRIPT_ERR_OP_RETURN))
  else None.

Definition exec_stack (opcode : Z) (s : state) : option (M state) :=
  if opcode =? OP_TOALTSTACK then Some (op_toaltstack s)
  else if opcode =? OP_FROMALTSTACK then Some (op_fromaltstack s)
  else if opcode =? OP_2DROP then Some (on_stack op_2drop s)
  else if opcode =? OP_2DUP then Some (on_stack op_2dup s)
  else if opcode =? OP_3DUP then Some (on_stack op_3dup s)
  else if opcode =? OP_2OVER then Some (on_stack op_2over s)
  else if opcode =? OP_2ROT then Some (on_stack op_2rot s)
  else if opcode =? OP_2SWAP then Some (on_stack op_2swap s)
  else if opcode =? OP_IFDUP then Some (on_stack op_ifdup s)
  else if opcode =? OP_DEPTH then Some (on_stack op_depth s)
  else if opcode =? OP_DROP then Some (on_stack op_drop s)
  else if opcode =? OP_DUP then Some (on_stack op_dup s)
  else if opcode =? OP_NIP then Some (on_stack op_nip s)
  else if opcode =? OP_OVER then Some (on_stack op_over s)
  else if one_of opcode [OP_PICK; OP_ROLL] then Some (on_stack (op_pick_roll opcode) s)
  else if opcode =? OP_ROT then Some (on_stack op_rot s)
  else if opcode =? OP_SWAP then Some (on_stack op_swap s)
  else if opcode =? OP_TUCK then Some (on_stack op_tuck s)
  else if opcode =? OP_SIZE then Some (on_stack op_size s)
  else None.

Definition exec_data (opcode : Z) (s : state) : option (M state) :=
  if one_of opcode [OP_EQUAL; OP_EQUALVERIFY] then Some (on_stack (op_equal opcode) s)
  else if one_of opcode [OP_AND; OP_OR; OP_XOR] then Some (on_stack (op_bitwise opcode) s)
  else if one_of opcode [OP_1ADD; OP_1SUB; OP_NEGATE; OP_ABS; OP_NOT; OP_0NOTEQUAL]
  then Some (on_stack (op_unary opcode) s)
  else if one_of opcode [OP_ADD; OP_SUB; OP_DIV; OP_MOD; OP_BOOLAND; OP_BOOLOR; OP_NUMEQUAL; OP_NUMEQUALVERIFY;
    OP_NUMNOTEQUAL; OP_LESSTHAN; OP_GREATERTHAN; OP_LESSTHANOREQUAL; OP_GREATERTHANOREQUAL; OP_MIN; OP_MAX]
  then Some (on_stack (op_binary opcode) s)
  else if opcode =? OP_WITHIN then Some (on_stack op_within s)
  else None.

Definition exec_crypto (opcode : Z) (s : state) : option (M state) :=
  if one_of opcode [OP_RIPEMD160; OP_SHA1; OP_SHA256; OP_HASH160; OP_HASH256]
  then Some (on_stack (op_hash opcode) s)
  else if opcode =? OP_CODESEPARATOR
  then Some (mret (mk_state (pc s) (pc s) (vfExec s) (stack s) (altstack s) (nOpCount s)))
  else if one_of opcode [OP_CHECKSIG; OP_CHECKSIGVERIFY]
  then Some (on_stack (op_checksig opcode (pbegincodehash s)) s)
  else if one_of opcode [OP_CHECKDATASIG; OP_CHECKDATASIGVERIFY]
  then Some (on_stack (op_checkdatasig opcode) s)
  else if one_of opcode [OP_CHECKMULTISIG; OP_CHECKMULTISIGVERIFY]
  then Some ('(stk, nOps) ← op_checkmultisig opcode (pbegincodehash s) (stack s) (nOpCount s);
             mret (mk_state (pc s) (pbegincodehash s) (vfExec s) stk (altstack s) nOps))
  else None.

Definition exec_splice (opcode : Z) (s : state) : option (M state) :=
  if opcode =? OP_CAT then Some (on_stack op_cat s)
  else if opcode =? OP_SPLIT then Some (on_stack op_split s)
  else if opcode =? OP_NUM2BIN then Some (on_stack op_num2bin s)
  else if opcode =? OP_BIN2NUM then Some (on_stack op_bin2num s)
  else None.

(** Each group answers for its own cases; the default is the last one. *)
Definition switch (opcode : Z) (fExec : bool) (s : state) : M state :=
  match exec_control opcode fExec s with
  | Some m => m
  | None =>
  match exec_stack opcode s with
  | Some m => m
  | None =>
  match exec_data opcode s with
  | Some m => m
  | None =>
  match exec_crypto opcode s with
  | Some m => m
  | None =>
  match exec_splice opcode s with
  | Some m => m
  | None => inl (error SCRIPT_ERR_BAD_OPCODE)
  end end end end end.

(** ** The loop *)

Definition is_disabled (opcode : Z) : bool :=
  one_of opcode [OP_INVERT; OP_2MUL; OP_2DIV; OP_MUL; OP_LSHIFT; OP_RSHIFT].

Definition step (s : state) : M state :=
  let fExec := all_true (vfExec s) in
  let '(ok, pc', opcode, vchPushValue) := GetScriptOp (pc s) in
  _ ← require ok SCRIPT_ERR_BAD_OPCODE;
  _ ← require (length vchPushValue <=? MAX_SCRIPT_ELEMENT_SIZE)%nat SCRIPT_ERR_PUSH_SIZE;
  let nOps := if OP_16 <? opcode then nOpCount s + 1 else nOpCount s in
  _ ← require (negb ((OP_16 <? opcode) && (MAX_OPS_PER_SCRIPT <? nOps))) SCRIPT_ERR_OP_COUNT;
  _ ← require (negb (is_disabled opcode)) SCRIPT_ERR_DISABLED_OPCODE;
  _ ← require (negb ((opcode =? OP_CODESEPARATOR) && has flags SCRIPT_VERIFY_CONST_SCRIPTCODE))
        SCRIPT_ERR_OP_CODESEPARATOR;
  let s := mk_state pc' (pbegincodehash s) (vfExec s) (stack s) (altstack s) nOps in
  s ← (if fExec && (0 <=? opcode) && (opcode <=? OP_PUSHDATA4)
       then minimal ← (if fRequireMinimal then CheckMinimalPush vchPushValue opcode else mret true);
            _ ← require minimal SCRIPT_ERR_MINIMALDATA;
            mret (with_stack s (vchPushValue :: stack s))
       else if fExec || ((OP_IF <=? opcode) && (opcode <=? OP_ENDIF)) then switch opcode fExec s
       else mret s);
  _ ← require (length (stack s) + length (altstack s) <=? MAX_STACK_SIZE)%nat SCRIPT_ERR_STACK_SIZE;
  mret s.

Fixpoint eval_loop (fuel : nat) (s : state) : M state :=
  match pc s with
  | [] => mret s
  | _ => match fuel with O => inl fuel_ends | S fuel => s ← step s; eval_loop fuel s end
  end.

(** The stack when the script succeeds. *)
Definition EvalScript (stk : list valtype) (script : list Z) : M (list valtype) :=
  _ ← require (negb (MAX_SCRIPT_SIZE <? Z.of_nat (length script))) SCRIPT_ERR_SCRIPT_SIZE;
  match eval_loop (length script) (mk_state script script no_conditions stk [] 0) with
  | inl (throws _) => inl (error SCRIPT_ERR_UNKNOWN_ERROR)
  | inl x => inl x
  | inr s =>
      _ ← require (conditions_empty (vfExec s)) SCRIPT_ERR_UNBALANCED_CONDITIONAL;
      mret (stack s)
  end.

(** [if (stack.empty() || CastToBool(stack.back()) == false) return set_error(serror, SCRIPT_ERR_EVAL_FALSE);] *)
Definition require_true (stk : list valtype) : M unit :=
  match stk with
  | [] => inl (error SCRIPT_ERR_EVAL_FALSE)
  | v :: _ => require (CastToBool v) SCRIPT_ERR_EVAL_FALSE
  end.

Definition VerifyScript (scriptSig scriptPubKey : list Z) : M unit :=
  _ ← require (negb (has flags SCRIPT_VERIFY_SIGPUSHONLY && negb (IsPushOnly scriptSig))) SCRIPT_ERR_SIG_PUSHONLY;
  stk ← EvalScript [] scriptSig;
  let stackCopy := stk in
  stk ← EvalScript stk scriptPubKey;
  _ ← require_true stk;
  stk ←
    (if has flags SCRIPT_VERIFY_P2SH && IsPayToScriptHash scriptPubKey
     then _ ← require (IsPushOnly scriptSig) SCRIPT_ERR_SIG_PUSHONLY;
          _ ← assert_that (0 <? length stackCopy)%nat;
          pubKeySerialized ← stacktop stackCopy 1;
          stk ← popstack stackCopy;
          stk ← EvalScript stk pubKeySerialized;
          _ ← require_true stk;
          mret stk
     else mret stk);
  if has flags SCRIPT_VERIFY_CLEANSTACK
  then _ ← assert_that (has flags SCRIPT_VERIFY_P2SH);
       require (length stk =? 1)%nat SCRIPT_ERR_CLEANSTACK
  else mret tt.
End Operations.


(** ** Reasoning about runs *)

(** [m] stops with a script error or a number that does not parse, or returns a value with [Q]:
    no assertion fails, no access is out of range, and the fuel is enough. *)
Definition wp {A} (m : M A) (Q : A → Prop) : Prop :=
  match m with
  | inl (error _) | inl (throws (number_error _)) => True
  | inl _ => False
  | inr a => Q a
  end.

Lemma wp_bind {A B} (m : M A) (k : A → M B) Q : wp m (λ a, wp (k a) Q) → wp (m ≫= k) Q.
Proof. unfold mbind, M_bind. by destruct m as [[| [] | |]|]. Qed.
Lemma wp_mono {A} (m : M A) (P Q : A → Prop) : wp m P → (∀ a, P a → Q a) → wp m Q.
Proof. destruct m as [[| [] | |]|]; cbn; auto. Qed.
Lemma wp_ret {A} (a : A) (Q : A → Prop) : Q a → wp (mret a) Q.
Proof. done. Qed.
Lemma wp_require b e (Q : unit → Prop) : (b = true → Q tt) → wp (require b e) Q.
Proof. unfold require. destruct b; cbn; auto. Qed.
Lemma wp_assert b (Q : unit → Prop) : b = true → Q tt → wp (assert_that b) Q.
Proof. by intros ->. Qed.

(** A stack element; bytes, and no more than 520 of them. *)
Definition element (v : valtype) : Prop := bytes v ∧ (length v <= MAX_SCRIPT_ELEMENT_SIZE)%nat.

Lemma wp_number b v n (Q : Z → Prop) :
  bytes v → (n <= 7)%nat → (0 < n)%nat → (∀ m, Z.abs m < 128 * 256 ^ (Z.of_nat n - 1) → Q m) → wp (number b v n) Q.
Proof.
  intros Hv Hn Hn' HQ. unfold number, CScriptNum. destruct (Nat.ltb_spec n (length v)); [done|].
  destruct (b && _); [done|]. cbn. apply HQ. rewrite set_vch_ok by (done || lia).
  replace (Z.of_nat n - 1) with (Z.of_nat (n - 1)) by lia. apply num_value_bound; [done|lia].
Qed.

(** Numbers of four bytes. *)
Lemma wp_number4 b v (Q : Z → Prop) : bytes v → (∀ m, - 2 ^ 31 < m < 2 ^ 31 → Q m) → wp (number b v nDefaultMaxNumSize) Q.
Proof.
  intros Hv HQ. apply wp_number; [done|unfold nDefaultMaxNumSize; lia..|]. intros m Hm.
  change (128 * 256 ^ (Z.of_nat nDefaultMaxNumSize - 1)) with (2 ^ 31) in Hm. apply HQ. lia.
Qed.

Lemma getint_id m : - 2 ^ 31 < m < 2 ^ 31 → getint m = m.
Proof.
  intros Hm. unfold getint, INT_MAX, INT_MIN. destruct (Z.ltb_spec (2 ^ 31 - 1) m); [lia|]. by destruct (Z.ltb_spec m (- 2 ^ 31)); [lia|].
Qed.

Lemma wp_stacktop stk i (Q : valtype → Prop) :
  (1 <= i <= length stk)%nat → (∀ v, stk !! (i - 1)%nat = Some v → Q v) → wp (stacktop stk i) Q.
Proof.
  intros Hi HQ. unfold stacktop. destruct (lookup_lt_is_Some_2 stk (i - 1) ltac:(lia)) as [v E]. rewrite E.
  destruct (Nat.eqb_spec i 0); [lia|]. cbn. by apply HQ.
Qed.

Lemma element_serialize n : - 2 ^ 63 <= n < 2 ^ 63 → element (serialize n).
Proof.
  intros Hn. destruct (serialize_ok n Hn) as (H1 & _). split; [done|].
  pose proof (serialize_length n 8 Hn) as Hl. change (128 * 256 ^ Z.of_nat 8) with (2 ^ 71) in Hl.
  specialize (Hl ltac:(lia)). unfold MAX_SCRIPT_ELEMENT_SIZE. lia.
Qed.

Lemma element_vch_of b : element (vch_of b).
Proof. split; [apply (bool_decide_unpack _); by destruct b|destruct b; unfold MAX_SCRIPT_ELEMENT_SIZE; cbn; lia]. Qed.

Lemma element_nil : element [].
Proof. exact (element_vch_of false). Qed.

Lemma MinimallyEncode_shorter v : bytes v → (length (snd (MinimallyEncode v)) <= length v)%nat.
Proof.
  intros Hv. pose proof (MinimallyEncode_ok v Hv) as M. destruct (MinimallyEncode v) as [ch r].
  destruct M as (M1 & M2 & M3 & _). cbn [snd]. destruct v as [|x v].
  - assert (length r <= 1)%nat by (apply (minimal_length r 0); [done..|rewrite M3; vm_compute; done]).
    destruct r as [|y [|]]; [done| |cbn in *; lia]. exfalso.
    pose proof (minimal_value [] y M1 M2) as Hp. cbn [app] in Hp. pose proof (num_value_snoc [] y) as Ev. cbn [app] in Ev. rewrite Ev in M3.
    change (num_value []) with 0 in M3. destruct (128 <=? y); lia.
  - cbn [length]. apply minimal_length; [done..|]. rewrite M3. apply num_value_bound; [done|cbn; lia].
Qed.

Lemma element_minimal v : element v → element (snd (MinimallyEncode v)).
Proof.
  intros [Hv Hl]. pose proof (MinimallyEncode_shorter v Hv) as Hs. split; [|lia].
  pose proof (MinimallyEncode_ok v Hv) as M. destruct (MinimallyEncode v). by destruct M.
Qed.


(** ** Every operation is safe *)

Section Safety.
Context (c : Crypto) (flags : Z) `{BaseSignatureChecker}.

#[local] Opaque serialize number MinimallyEncode IsMinimallyEncoded CastToBool replicate.

(** What the hash functions return on a stack element. *)
Record crypto_ok : Prop := {
  ok_ripemd160 v : element v → bytes (hash_ripemd160 c v) ∧ length (hash_ripemd160 c v) = 20%nat;
  ok_sha1 v : element v → bytes (hash_sha1 c v) ∧ length (hash_sha1 c v) = 20%nat;
  ok_sha256 v : element v → bytes (hash_sha256 c v) ∧ length (hash_sha256 c v) = 32%nat;
  ok_hash160 v : element v → bytes (hash_hash160 c v) ∧ length (hash_hash160 c v) = 20%nat;
  ok_hash256 v : element v → bytes (hash_hash256 c v) ∧ length (hash_hash256 c v) = 32%nat }.
Context (Hc : crypto_ok).

Abbreviation elements := (Forall element).
Definition safe (f : list valtype → M (list valtype)) : Prop := ∀ stk, elements stk → (length stk <= MAX_STACK_SIZE)%nat → wp (f stk) elements.

(** The guard on the size of the stack, and the elements that it ensures. *)
Tactic Notation "needs" integer(n) :=
  apply wp_bind, wp_require; intros Hn%Nat.leb_le;
  do n (match goal with
        | Hn : context [length ?stk] |- _ =>
            is_var stk; let v := fresh "v" in destruct stk as [|v stk]; [cbn [length] in *; lia|]; cbn [length] in *
        end);
  repeat match goal with H : Forall element (_ :: _) |- _ => apply Forall_cons_1 in H as [??] end; cbn.
Ltac finish := repeat (apply Forall_cons_2); auto using element_vch_of, element_nil.

Lemma simple_ops :
  safe op_2drop ∧ safe op_2dup ∧ safe op_3dup ∧ safe op_2over ∧ safe op_2rot ∧ safe op_2swap ∧ safe op_ifdup ∧
  safe op_drop ∧ safe op_dup ∧ safe op_nip ∧ safe op_over ∧ safe op_rot ∧ safe op_swap ∧ safe op_tuck ∧ safe op_verify.
Proof.
  repeat split; intros stk Hs Hk.
  - unfold op_2drop. needs 2. done.
  - unfold op_2dup. needs 2. finish.
  - unfold op_3dup. needs 3. finish.
  - unfold op_2over. needs 4. finish.
  - unfold op_2rot. needs 6. finish.
  - unfold op_2swap. needs 4. finish.
  - unfold op_ifdup. needs 1. destruct (CastToBool v); finish.
  - unfold op_drop. needs 1. done.
  - unfold op_dup. needs 1. finish.
  - unfold op_nip. needs 2. finish.
  - unfold op_over. needs 2. finish.
  - unfold op_rot. needs 3. finish.
  - unfold op_swap. needs 2. finish.
  - unfold op_tuck. needs 2. finish.
  - unfold op_verify. needs 1. by destruct (CastToBool v).
Qed.

Lemma verify_form_safe b r e stk v : elements stk → element v → wp (verify_form b r e (v :: stk)) elements.
Proof. intros. unfold verify_form. destruct b; [destruct r|]; cbn; finish. Qed.

Lemma zip_with_element (f : Z → Z → Z) u v :
  (∀ a b, byte a → byte b → byte (f a b)) → element u → element v → length u = length v → element (zip_with f u v).
Proof.
  intros Hf [Hu Hlu] [Hv Hlv] E. split; [|rewrite length_zip_with; lia].
  clear Hlu Hlv. revert v Hv E. induction Hu as [|a u Ha Hu IH]; intros [|b v] Hv E; try done.
  apply Forall_cons_1 in Hv as [Hb Hv]. cbn. apply Forall_cons_2; [by apply Hf|]. apply IH; [done|by injection E].
Qed.

Lemma data_ops opcode : safe (op_equal opcode) ∧ safe (op_bitwise opcode) ∧ safe op_depth ∧ safe op_size ∧ safe op_cat.
Proof.
  assert (Hsize : ∀ n : nat, (Z.of_nat n < 2 ^ 63) → element (serialize (Z.of_nat n))) by (intros; apply element_serialize; lia).
  repeat split; intros stk Hs Hk.
  - unfold op_equal. needs 2. apply verify_form_safe; [done|apply element_vch_of].
  - unfold op_bitwise. needs 2. apply wp_bind, wp_require. intros E%Nat.eqb_eq. cbn. finish.
    apply zip_with_element; [|done..]. intros a b Ha Hb.
    destruct (opcode =? OP_AND); [by apply word_land_l|]. destruct (opcode =? OP_OR); [by apply word_lor|by apply word_lxor].
  - cbn. finish. apply Hsize. unfold MAX_STACK_SIZE in Hk. lia.
  - unfold op_size. needs 1. finish. apply Hsize. destruct H0 as [_ Hl]. unfold MAX_SCRIPT_ELEMENT_SIZE in Hl. lia.
  - unfold op_cat. needs 2. apply wp_bind, wp_require. intros E%Nat.leb_le. cbn. finish.
    destruct H0, H1. split; [by apply Forall_app_2|]. rewrite length_app. lia.
Qed.



Lemma locktime_ops : safe (op_checklocktimeverify flags) ∧ safe (op_checksequenceverify flags) ∧ safe (op_upgradable_nop flags).
Proof.
  repeat split; intros stk Hs Hk.
  - unfold op_checklocktimeverify. destruct (negb _); [done|]. needs 1. apply wp_bind, wp_number; [apply H0|lia..|].
    intros m _. apply wp_bind, wp_require. intros _. apply wp_bind, wp_require. intros _. finish.
  - unfold op_checksequenceverify. destruct (negb _); [done|]. needs 1. apply wp_bind, wp_number; [apply H0|lia..|].
    intros m _. apply wp_bind, wp_require. intros _. destruct (negb _); [finish|]. apply wp_bind, wp_require. intros _. finish.
  - unfold op_upgradable_nop. apply wp_bind, wp_require. intros _. done.
Qed.

(** A number from the top of the stack, and the values of the operations on it. *)
Ltac num m Hm := apply wp_bind, wp_number4; [match goal with H : element _ |- _ => by apply H end|intros m Hm].

Lemma bool_range (b : bool) : - 2 ^ 63 <= b2z b < 2 ^ 63.
Proof. destruct b; cbn; lia. Qed.

Lemma unary_safe opcode : one_of opcode [OP_1ADD; OP_1SUB; OP_NEGATE; OP_ABS; OP_NOT; OP_0NOTEQUAL] = true → safe (op_unary flags opcode).
Proof.
  intros Ho stk Hs Hk. unfold op_unary. needs 1. num m Hm.
  apply wp_bind, (wp_mono _ (λ n, - 2 ^ 63 <= n < 2 ^ 63)); [|intros n Hr; cbn; finish; by apply element_serialize].
  assert (Hneg : wp (negate m) (λ n, - 2 ^ 63 <= n < 2 ^ 63)).
  { unfold negate. apply wp_bind, wp_assert; [|cbn; lia]. unfold INT64_MIN. apply negb_true_iff, Z.eqb_neq. lia. }
  destruct (opcode =? OP_1ADD) eqn:E1.
  { unfold add_assign. apply wp_bind, wp_assert; [|cbn; lia]. unfold INT64_MAX. cbn [Z.eqb orb andb].
    change (0 <? 1) with true. destruct (Z.leb_spec m (2 ^ 63 - 1 - 1)); [done|lia]. }
  destruct (opcode =? OP_1SUB) eqn:E2.
  { unfold sub_assign. apply wp_bind, wp_assert; [|cbn; lia]. unfold INT64_MIN. cbn [Z.eqb orb andb].
    change (0 <? 1) with true. destruct (Z.leb_spec (- 2 ^ 63 + 1) m); [done|lia]. }
  destruct (opcode =? OP_NEGATE) eqn:E3; [done|].
  destruct (opcode =? OP_ABS) eqn:E4; [destruct (m <? 0); [done|cbn; lia]|].
  destruct (opcode =? OP_NOT) eqn:E5; [apply bool_range|].
  destruct (opcode =? OP_0NOTEQUAL) eqn:E6; [apply bool_range|].
  exfalso. unfold one_of in Ho. cbn [existsb] in Ho. by rewrite E1, E2, E3, E4, E5, E6 in Ho.
Qed.

Definition binary_opcodes : list Z :=
  [OP_ADD; OP_SUB; OP_DIV; OP_MOD; OP_BOOLAND; OP_BOOLOR; OP_NUMEQUAL; OP_NUMEQUALVERIFY;
   OP_NUMNOTEQUAL; OP_LESSTHAN; OP_GREATERTHAN; OP_LESSTHANOREQUAL; OP_GREATERTHANOREQUAL; OP_MIN; OP_MAX].

Lemma binary_range opcode a b :
  one_of opcode binary_opcodes = true → - 2 ^ 31 < a < 2 ^ 31 → - 2 ^ 31 < b < 2 ^ 31 →
  wp (binary opcode a b) (λ n, - 2 ^ 32 <= n <= 2 ^ 32).
Proof.
  intros Ho Ha Hb. assert (B : ∀ r : bool, wp (mret (b2z r) : M Z) (λ n, - 2 ^ 32 <= n <= 2 ^ 32)) by (intros []; cbn; lia).
  unfold binary.
  destruct (opcode =? OP_ADD) eqn:E1; [cbn; lia|]. destruct (opcode =? OP_SUB) eqn:E2; [cbn; lia|].
  destruct (opcode =? OP_DIV) eqn:E3.
  { apply wp_bind, wp_require. intros Hz%negb_true_iff%Z.eqb_neq. cbn.
    pose proof (Z.quot_abs a b Hz) as Hq. pose proof (Z.quot_le_upper_bound (Z.abs a) (Z.abs b) (2 ^ 31)) as Hu.
    assert (Z.abs a ÷ Z.abs b <= 2 ^ 31) by (apply Hu; nia).
    rewrite Hq in *. lia. }
  destruct (opcode =? OP_MOD) eqn:E4.
  { apply wp_bind, wp_require. intros Hz%negb_true_iff%Z.eqb_neq. cbn. pose proof (Z.rem_bound_abs a b Hz). lia. }
  destruct (opcode =? OP_BOOLAND) eqn:E5; [apply B|]. destruct (opcode =? OP_BOOLOR) eqn:E6; [apply B|].
  destruct (opcode =? OP_NUMEQUAL) eqn:E7; [apply B|]. destruct (opcode =? OP_NUMEQUALVERIFY) eqn:E8; [apply B|].
  destruct (opcode =? OP_NUMNOTEQUAL) eqn:E9; [apply B|]. destruct (opcode =? OP_LESSTHAN) eqn:E10; [apply B|].
  destruct (opcode =? OP_GREATERTHAN) eqn:E11; [apply B|]. destruct (opcode =? OP_LESSTHANOREQUAL) eqn:E12; [apply B|].
  destruct (opcode =? OP_GREATERTHANOREQUAL) eqn:E13; [apply B|].
  destruct (opcode =? OP_MIN) eqn:E14; [destruct (a <? b); cbn; lia|].
  destruct (opcode =? OP_MAX) eqn:E15; [destruct (b <? a); cbn; lia|].
  exfalso. unfold one_of, binary_opcodes in Ho. cbn [existsb] in Ho.
  by rewrite E1, E2, E3, E4, E5, E6, E7, E8, E9, E10, E11, E12, E13, E14, E15 in Ho.
Qed.

Lemma binary_safe opcode : one_of opcode binary_opcodes = true → safe (op_binary flags opcode).
Proof.
  intros Ho stk Hs Hk. unfold op_binary. needs 2. num a Ha. num b Hb.
  eapply wp_bind, wp_mono; [by apply binary_range|]. intros n Hn'. cbn beta in Hn'.
  assert (element (serialize n)) by (apply element_serialize; lia). cbn.
  destruct (opcode =? OP_NUMEQUALVERIFY); [by destruct (CastToBool _)|finish].
Qed.

Lemma number_ops opcode :
  safe (op_within flags) ∧ safe (op_pick_roll flags opcode) ∧ safe (op_split flags).
Proof.
  repeat split; intros stk Hs Hk.
  - unfold op_within. needs 3. num x Hx. num y Hy. num z Hz. finish.
  - unfold op_pick_roll. needs 2. num n Hn'. rewrite getint_id by done.
    destruct (Z.ltb_spec n 0); [done|]. cbn [orb].
    destruct (Z.leb_spec (Z.of_nat (S (length stk))) n); [done|].
    apply wp_bind, wp_stacktop; [cbn [length]; lia|]. intros v' Hv'.
    assert (Hall : elements (v0 :: stk)) by finish.
    assert (element v') by (by apply (Forall_lookup_1 _ _ _ _ Hall Hv')).
    cbn. finish. destruct (opcode =? OP_ROLL); [|done]. by apply Forall_app_2; [apply Forall_take|apply Forall_drop].
  - unfold op_split. needs 2. num n Hn'. rewrite getint_id by done. apply wp_bind, wp_require. intros _. cbn.
    assert (Hpart : element v0 ∧ ∀ k, element (take k v0) ∧ element (drop k v0)).
    { split; [done|]. intros k. destruct H1 as [H1 H1']. split; (split; [by (apply Forall_take || apply Forall_drop)|]);
      rewrite ?length_take, ?length_drop; lia. }
    destruct Hpart as [P1 P2]. destruct (n =? 0); [finish|]. destruct (n =? _); finish; apply P2.
Qed.

Lemma conversion_ops : safe (op_num2bin flags) ∧ safe op_bin2num.
Proof.
  split; intros stk Hs Hk.
  - unfold op_num2bin. needs 2. num n Hn'. rewrite getint_id by done. apply wp_bind, wp_require.
    intros Hsize%negb_true_iff%Z.ltb_ge. cbn.
    pose proof (element_minimal v0 H1) as Hr. set (r := (MinimallyEncode v0).2) in *. clearbody r.
    pose proof (word_T64 n) as Hw. unfold word in Hw. unfold MAX_SCRIPT_ELEMENT_SIZE in Hsize.
    set (size := Z.to_nat (SPH_T64 n)) in *. assert (Hs520 : (size <= 520)%nat) by (unfold size; lia). clearbody size.
    apply wp_bind, wp_require. intros Hle%Nat.leb_le. destruct (Nat.eqb_spec (length r) size); [finish|].
    assert (Hz : ∀ k, bytes (replicate k 0)) by (intros k; apply Forall_replicate; unfold byte, word; lia).
    destruct Hr as [Hr _].
    destruct (snoc_view r) as [->|(u & x & ->)].
    + cbn. finish. split.
      * apply bytes_snoc. split; [done|]. unfold byte, word. lia.
      * rewrite length_app, length_replicate. cbn [length] in *. unfold MAX_SCRIPT_ELEMENT_SIZE. lia.
    + assert (El : length (u ++ [x]) = S (length u)) by (rewrite length_app; cbn; lia). rewrite El in *. cbn [negb].
      rewrite back_snoc. unfold set_back. rewrite removelast_last. apply bytes_snoc in Hr as [Hu Hx]. cbn. finish.
      split.
      * apply bytes_snoc. split; [apply Forall_app_2; [|done]|]; [|apply (word_land_l 8); [lia|done]].
        apply bytes_snoc. split; [done|apply (word_land_l 8); [lia|done]].
      * rewrite !length_app, length_replicate in *. cbn [length] in *. unfold MAX_SCRIPT_ELEMENT_SIZE. lia.
  - unfold op_bin2num. needs 1. apply wp_bind, wp_require. intros _. cbn. finish. by apply element_minimal.
Qed.

Lemma hash_safe opcode : safe (op_hash c opcode).
Proof.
  intros stk Hs Hk. unfold op_hash. needs 1. finish.
  assert (G : ∀ h n, bytes h ∧ length h = n → (n <= 520)%nat → element h).
  { intros h n [Hb Hl] Hn'. split; [done|]. unfold MAX_SCRIPT_ELEMENT_SIZE. lia. }
  destruct (opcode =? OP_RIPEMD160); [apply (G _ 20%nat); [by apply (ok_ripemd160 Hc)|lia]|].
  destruct (opcode =? OP_SHA1); [apply (G _ 20%nat); [by apply (ok_sha1 Hc)|lia]|].
  destruct (opcode =? OP_SHA256); [apply (G _ 32%nat); [by apply (ok_sha256 Hc)|lia]|].
  destruct (opcode =? OP_HASH160); [apply (G _ 20%nat); [by apply (ok_hash160 Hc)|lia]|].
  apply (G _ 32%nat); [by apply (ok_hash256 Hc)|lia].
Qed.



(** *** Signatures *)

Lemma encodings_wp vchSig vchPubKey (Q : unit → Prop) :
  Q tt → wp (CheckSignatureEncoding c flags vchSig) Q ∧ wp (CheckPubKeyEncoding flags vchPubKey) Q.
Proof.
  intros HQ. split; [|apply wp_require; auto]. unfold CheckSignatureEncoding. destruct (_ =? 0)%nat; [done|].
  destruct (_ && _); [done|]. apply wp_bind.
  assert (L : wp (if has flags SCRIPT_VERIFY_LOW_S then IsLowDERSignature c vchSig else mret tt) (λ _, True)).
  { destruct (has _ _); [|done]. unfold IsLowDERSignature. apply wp_bind, wp_require. intros _. by apply wp_require. }
  eapply wp_mono; [exact L|]. intros [] _. apply wp_require. auto.
Qed.
Lemma signature_encoding_wp vchSig (Q : unit → Prop) : Q tt → wp (CheckSignatureEncoding c flags vchSig) Q.
Proof. intros HQ. apply (encodings_wp vchSig [] Q HQ). Qed.
Lemma pubkey_encoding_wp vchPubKey (Q : unit → Prop) : Q tt → wp (CheckPubKeyEncoding flags vchPubKey) Q.
Proof. intros HQ. apply (encodings_wp [] vchPubKey Q HQ). Qed.

Lemma skip_loop_ok fuel b pc n : b ≠ [] → (length pc <= fuel)%nat →
  ∃ pc' n', skip_loop fuel b pc n = Some (pc', n') ∧ (length pc' <= length pc)%nat.
Proof.
  intros Hb. revert pc n. induction fuel as [|fuel IH]; intros pc n Hf; cbn [skip_loop];
    (destruct (Nat.leb_spec (length b) (length pc)) as [Hl|Hl]; cbn [andb]; [|by eauto]);
    (destruct (bool_decide _); [|by eauto]).
  - exfalso. destruct b; [done|]. cbn in Hl. lia.
  - destruct (IH (drop (length b) pc) (n + 1)) as (pc' & n' & E & Hp);
      [rewrite length_drop; destruct b; [done|cbn in *; lia]|].
    exists pc', n'. split; [exact E|]. rewrite length_drop in Hp. lia.
Qed.

Lemma delete_loop_ok fuel b result pc2 pc n : b ≠ [] → (length pc <= fuel)%nat →
  ∃ r, delete_loop fuel b result pc2 pc n = Some r.
Proof.
  intros Hb. revert result pc2 pc n. induction fuel as [|fuel IH]; intros result pc2 pc n Hf; cbn [delete_loop].
  - destruct pc; [|cbn in Hf; lia]. destruct (skip_loop_ok 0 b [] n Hb) as (pc' & n' & E & Hp); [done|].
    cbn [length] in *. rewrite E. destruct pc'; [|cbn in Hp; lia]. cbn. eauto.
  - destruct (skip_loop_ok (length pc) b pc n Hb) as (pc' & n' & E & Hp); [done|]. rewrite E.
    destruct (GetScriptOp pc') as [[[ok pc''] op] d] eqn:G. destruct ok; [|by eauto].
    pose proof (GetScriptOp_shorter _ _ _ _ G). apply IH. lia.
Qed.

Lemma FindAndDelete_wp script b : wp (FindAndDelete script b) (λ _, True).
Proof.
  unfold FindAndDelete. destruct (Nat.eqb_spec (length b) 0) as [|Hb]; [done|].
  destruct (delete_loop_ok (length script) b [] script script 0) as ([[r pc2] n] & E); [by intros ->|done|].
  by rewrite E.
Qed.

Lemma drop_signature_wp scriptCode vchSig : wp (drop_signature flags scriptCode vchSig) (λ _, True).
Proof.
  unfold drop_signature. eapply wp_bind, wp_mono; [apply FindAndDelete_wp|]. intros [n s] _.
  apply wp_bind, wp_require. done.
Qed.

Lemma checksig_safe opcode code : safe (op_checksig c flags opcode code) ∧ safe (op_checkdatasig c flags opcode).
Proof.
  split; intros stk Hs Hk.
  - unfold op_checksig. needs 2. apply wp_bind, (wp_mono _ (λ _, True)).
    + unfold EvalChecksig. eapply wp_bind, wp_mono; [apply drop_signature_wp|]. intros s _.
      apply wp_bind, signature_encoding_wp, wp_bind, pubkey_encoding_wp, wp_bind, wp_require. done.
    + intros r _. apply verify_form_safe; [done|apply element_vch_of].
  - unfold op_checkdatasig. needs 3. apply wp_bind, signature_encoding_wp, wp_bind, pubkey_encoding_wp, wp_bind, wp_require.
    intros _. apply verify_form_safe; [done|apply element_vch_of].
Qed.

Lemma drop_signatures_wp n stk isig code :
  (1 <= isig)%nat → (isig + n <= length stk + 1)%nat → wp (drop_signatures flags n stk isig code) (λ _, True).
Proof.
  revert isig code. induction n as [|n IH]; intros isig code H1 H2; [done|]. cbn [drop_signatures].
  apply wp_bind, wp_stacktop; [lia|]. intros v _. eapply wp_bind, wp_mono; [apply drop_signature_wp|]. intros code' _.
  apply IH; lia.
Qed.

Lemma multisig_loop_wp fuel stk code isig ikey nSigs nKeys :
  (1 <= isig)%nat → (1 <= ikey)%nat → nSigs <= nKeys → nKeys <= Z.of_nat fuel →
  (Z.of_nat isig + nSigs <= Z.of_nat (length stk) + 1) → (Z.of_nat ikey + nKeys <= Z.of_nat (length stk) + 1) →
  wp (multisig_loop c flags fuel stk code isig ikey nSigs nKeys) (λ _, True).
Proof.
  revert isig ikey nSigs nKeys. induction fuel as [|fuel IH]; intros isig ikey nSigs nKeys H1 H2 H3 H4 H5 H6;
    cbn [multisig_loop]; (destruct (Z.leb_spec nSigs 0); [done|]); [lia|].
  apply wp_bind, wp_stacktop; [lia|]. intros vchSig _. apply wp_bind, wp_stacktop; [lia|]. intros vchPubKey _.
  apply wp_bind, signature_encoding_wp, wp_bind, pubkey_encoding_wp.
  destruct (CheckSig vchSig vchPubKey code BASE).
  - destruct (Z.ltb_spec (nKeys - 1) (nSigs - 1)); [done|]. apply IH; lia.
  - destruct (Z.ltb_spec (nKeys - 1) nSigs); [done|]. apply IH; lia.
Qed.

Lemma clean_loop_wp n r k stk :
  elements stk → (n <= length stk)%nat →
  wp (clean_loop flags n r k stk) (λ stk', elements stk' ∧ length stk' = (length stk - n)%nat).
Proof.
  revert k stk. induction n as [|n IH]; intros k stk Hs Hn; cbn [clean_loop].
  { cbn. split; [done|lia]. }
  destruct stk as [|v stk]; [cbn in Hn; lia|]. apply wp_bind.
  assert (G : wp (stk' ← popstack (v :: stk); clean_loop flags n r (k - 1) stk')
    (λ stk', elements stk' ∧ length stk' = (length (v :: stk) - S n)%nat)).
  { cbn [popstack length] in *. unfold mbind, M_bind. cbn. apply Forall_cons_1 in Hs as [_ Hs]. apply IH; [done|lia]. }
  destruct (_ && _); [|exact G]. apply wp_bind, wp_stacktop; [cbn; lia|]. intros v' _. apply wp_require. intros _. exact G.
Qed.

Lemma checkmultisig_safe opcode code stk nOps :
  elements stk → 0 <= nOps →
  wp (op_checkmultisig c flags opcode code stk nOps) (λ '(stk', nOps'), elements stk' ∧ nOps <= nOps' <= MAX_OPS_PER_SCRIPT).
Proof.
  intros Hs Ho. unfold op_checkmultisig. apply wp_bind, wp_require. intros Hn%Nat.leb_le.
  apply wp_bind, wp_stacktop; [lia|]. intros v Hv. apply wp_bind, wp_number4; [by apply (Forall_lookup_1 _ _ _ _ Hs Hv)|].
  intros nKeys Hr. rewrite getint_id by done. apply wp_bind, wp_require.
  intros [HK1%Z.ltb_ge HK2%Z.ltb_ge]%negb_true_iff%orb_false_iff.
  apply wp_bind, wp_require. intros HO%negb_true_iff%Z.ltb_ge. apply wp_bind, wp_require. intros HL%Nat.leb_le.
  apply wp_bind, wp_stacktop; [lia|]. intros w Hw. apply wp_bind, wp_number4; [by apply (Forall_lookup_1 _ _ _ _ Hs Hw)|].
  intros nSigs Hr'. rewrite getint_id by done. apply wp_bind, wp_require.
  intros [HS1%Z.ltb_ge HS2%Z.ltb_ge]%negb_true_iff%orb_false_iff. apply wp_bind, wp_require. intros HL'%Nat.leb_le.
  eapply wp_bind, wp_mono; [apply drop_signatures_wp; lia|]. intros code' _.
  eapply wp_bind, wp_mono; [apply multisig_loop_wp; lia|]. intros r _.
  eapply wp_bind, wp_mono; [apply clean_loop_wp; [done|lia]|]. intros stk' [Hs' Hl'].
  apply wp_bind, wp_require. intros Hn'%Nat.leb_le. destruct stk' as [|d stk']; [cbn in Hn'; lia|].
  apply Forall_cons_1 in Hs' as [_ Hs']. apply wp_bind, (wp_mono _ (λ _, True)).
  - destruct (has _ _); [|done]. apply wp_bind, wp_stacktop; [cbn; lia|]. intros. by apply wp_require.
  - intros [] _. cbn [popstack]. unfold mbind at 1, M_bind at 1. cbn beta iota. change (mret stk') with (@inr stop _ stk').
    cbn beta iota. eapply wp_bind, wp_mono; [apply verify_form_safe; [done|apply element_vch_of]|].
    intros stk'' Hs''. cbn. split; [done|lia].
Qed.



(** *** The loop *)

Record inv (s : state) : Prop := {
  inv_stack : elements (stack s);
  inv_altstack : elements (altstack s);
  inv_conditions : 0 <= m_stack_size (vfExec s) <= nOpCount s;
  inv_ops : nOpCount s <= MAX_OPS_PER_SCRIPT;
  inv_pc : bytes (pc s) }.
Definition small (s : state) : Prop := (length (stack s) + length (altstack s) <= MAX_STACK_SIZE)%nat.

Definition keeps (s s' : state) : Prop := inv s' ∧ pc s' = pc s.

Lemma on_stack_safe f s : safe f → inv s → small s → wp (on_stack f s) (keeps s).
Proof.
  intros Hf [H1 H2 H3 H4 H5] Hk. unfold on_stack. eapply wp_bind, wp_mono; [apply Hf; [done|unfold small in Hk; lia]|].
  intros stk Hs. cbn. split; [|done]. split; cbn; done.
Qed.

Lemma condition_ops opcode fExec s :
  inv s → m_stack_size (vfExec s) < nOpCount s →
  wp (op_if opcode fExec s) (keeps s) ∧ wp (op_else s) (keeps s) ∧ wp (op_endif s) (keeps s).
Proof.
  intros [H1 H2 H3 H4 H5] Hlt. unfold MAX_OPS_PER_SCRIPT in H4.
  assert (Hcond : ∀ stk k, elements stk → wp (mret (with_conditions (with_stack s stk) (push_condition (vfExec s) k)) : M state) (keeps s)).
  { intros stk k Hs. cbn. split; [|done]. split; cbn; [done..| | |done].
    - rewrite SPH_T32_id by (unfold word; lia). lia.
    - unfold MAX_OPS_PER_SCRIPT. lia. }
  split; [|split].
  - unfold op_if. destruct fExec; [|exact (Hcond (stack s) false H1)]. apply wp_bind, wp_bind, wp_require. intros Hn%Nat.leb_le.
    destruct (stack s) as [|v stk] eqn:Es; [cbn in Hn; lia|]. apply Forall_cons_1 in H1 as [_ H1]. exact (Hcond stk _ H1).
  - unfold op_else. apply wp_bind, wp_require. intros He%negb_true_iff%Z.eqb_neq. unfold toggle_top.
    apply wp_bind, wp_bind, wp_assert; [apply Z.ltb_lt; lia|]. cbn. split; [|done]. split; cbn; [done..| |done].
    unfold MAX_OPS_PER_SCRIPT. lia.
  - unfold op_endif. apply wp_bind, wp_require. intros He%negb_true_iff%Z.eqb_neq. unfold pop_condition.
    apply wp_bind, wp_bind, wp_assert; [apply Z.ltb_lt; lia|]. cbn. split; [|done]. split; cbn; [done..| | |done].
    + rewrite SPH_T32_id by (unfold word; lia). lia.
    + unfold MAX_OPS_PER_SCRIPT. lia.
Qed.

(** A group of the switch: when it answers, the run is safe. *)
Definition answers (s : state) (o : option (M state)) : Prop := match o with Some m => wp m (keeps s) | None => True end.

Ltac answer := match goal with |- answers _ (if ?b then _ else _) => destruct b eqn:?; [cbn [answers]|] end.

Lemma one_of_above opcode l : one_of opcode l = true → Forall (λ o, OP_16 < o) l → OP_16 < opcode.
Proof.
  intros Ho Hl. unfold one_of in Ho. apply existsb_exists in Ho as (o & Hin & ->%Z.eqb_eq).
  rewrite Forall_forall in Hl. by apply Hl.
Qed.

Section Groups.
Context (opcode : Z) (fExec : bool) (s : state) (Hi : inv s) (Hk : small s).
Context (Hlt : OP_16 < opcode → m_stack_size (vfExec s) < nOpCount s).

Lemma control_safe : answers s (exec_control flags opcode fExec s).
Proof.
  destruct locktime_ops as (L1 & L2 & L3). destruct simple_ops as (_ & _ & _ & _ & _ & _ & _ & _ & _ & _ & _ & _ & _ & _ & SV).
  unfold exec_control. answer.
  { apply on_stack_safe; [|done..]. intros stk Hs Hl. unfold op_small_integer. cbn. finish. apply element_serialize.
    apply orb_true_iff in Heqb as [->%Z.eqb_eq|[E1%Z.leb_le E2%Z.leb_le]%andb_true_iff]; unfold OP_1, OP_16, OP_1NEGATE in *; lia. }
  answer; [by split|]. answer; [by apply on_stack_safe|]. answer; [by apply on_stack_safe|]. answer; [by apply on_stack_safe|].
  answer; [apply condition_ops; [done|apply Hlt]; eapply one_of_above; [done|apply (bool_decide_unpack _); vm_compute; exact I]|].
  answer; [apply Z.eqb_eq in Heqb5; apply (condition_ops opcode fExec); [done|apply Hlt; subst; done]|].
  answer; [apply Z.eqb_eq in Heqb6; apply (condition_ops opcode fExec); [done|apply Hlt; subst; done]|].
  answer; [by apply on_stack_safe|]. answer; [done|]. done.
Qed.

Lemma stack_group_safe : answers s (exec_stack flags opcode s).
Proof.
  destruct simple_ops as (S1 & S2 & S3 & S4 & S5 & S6 & S7 & S8 & S9 & S10 & S11 & S12 & S13 & S14 & _).
  destruct (data_ops opcode) as (_ & _ & D1 & D2 & _). destruct (number_ops opcode) as (_ & N1 & _).
  unfold exec_stack. destruct Hi as [H1 H2 H3 H4 H5].
  answer.
  { unfold op_toaltstack. apply wp_bind, wp_require. intros Hn%Nat.leb_le. destruct (stack s) as [|v stk] eqn:Es; [cbn in Hn; lia|].
    apply Forall_cons_1 in H1 as [??]. cbn. split; [|done]. split; cbn; finish; apply H3. }
  answer.
  { unfold op_fromaltstack. apply wp_bind, wp_require. intros Hn%Nat.leb_le. destruct (altstack s) as [|v stk] eqn:Es; [cbn in Hn; lia|].
    apply Forall_cons_1 in H2 as [??]. cbn. split; [|done]. split; cbn; finish; apply H3. }
  repeat (answer; [by apply on_stack_safe|]). done.
Qed.

Lemma data_safe : answers s (exec_data flags opcode s).
Proof.
  destruct (data_ops opcode) as (D1 & D2 & _ & _ & _). destruct (number_ops opcode) as (N1 & _ & _).
  unfold exec_data. answer; [by apply on_stack_safe|]. answer; [by apply on_stack_safe|].
  answer; [by apply on_stack_safe; [apply unary_safe|..]|]. answer; [by apply on_stack_safe; [apply binary_safe|..]|].
  answer; [by apply on_stack_safe|]. done.
Qed.

Lemma crypto_safe : answers s (exec_crypto c flags opcode s).
Proof.
  destruct (checksig_safe opcode (pbegincodehash s)) as [C1 C2]. unfold exec_crypto. pose proof Hi as [H1 H2 H3 H4 H5].
  answer; [apply on_stack_safe; [apply hash_safe|done..]|]. answer; [by split|]. answer; [by apply on_stack_safe|].
  answer; [by apply on_stack_safe|]. answer; [|done].
  eapply wp_bind, wp_mono; [apply checkmultisig_safe; [done|lia]|]. intros [stk nOps] [Hs Ho]. cbn. split; [|done].
  split; cbn; [done..| | |done]; lia.
Qed.

Lemma splice_safe : answers s (exec_splice flags opcode s).
Proof.
  destruct (data_ops opcode) as (_ & _ & _ & _ & D). destruct (number_ops opcode) as (_ & _ & N).
  destruct conversion_ops as [C1 C2]. unfold exec_splice. repeat (answer; [by apply on_stack_safe|]). done.
Qed.

Lemma switch_safe : wp (switch c flags opcode fExec s) (keeps s).
Proof.
  pose proof control_safe as A1. pose proof stack_group_safe as A2. pose proof data_safe as A3.
  pose proof crypto_safe as A4. pose proof splice_safe as A5. unfold answers in *. unfold switch.
  destruct (exec_control flags opcode fExec s); [done|]. destruct (exec_stack flags opcode s); [done|].
  destruct (exec_data flags opcode s); [done|]. destruct (exec_crypto c flags opcode s); [done|].
  by destruct (exec_splice flags opcode s).
Qed.
End Groups.

Lemma step_safe s :
  inv s → small s → wp (step c flags s) (λ s', inv s' ∧ small s' ∧ (length (pc s') < length (pc s))%nat).
Proof.
  intros Hi Hk. unfold step. destruct (GetScriptOp (pc s)) as [[[ok pc'] opcode] d] eqn:G.
  apply wp_bind, wp_require. intros ->. pose proof (GetScriptOp_shorter _ _ _ _ G) as Hsh.
  destruct Hi as [H1 H2 H3 H4 H5]. destruct (GetScriptOp_bytes _ _ _ _ H5 G) as (Hpc & Hd & Hop).
  apply wp_bind, wp_require. intros Hl%Nat.leb_le. set (nOps := if OP_16 <? opcode then _ else _).
  apply wp_bind, wp_require. intros Ho%negb_true_iff. apply wp_bind, wp_require. intros _. apply wp_bind, wp_require. intros _.
  assert (Hops : nOpCount s <= nOps <= MAX_OPS_PER_SCRIPT ∧ (OP_16 < opcode → m_stack_size (vfExec s) < nOps)).
  { subst nOps. destruct (Z.ltb_spec OP_16 opcode); cbn [andb] in Ho; [apply Z.ltb_ge in Ho|]; split; lia. }
  set (s1 := mk_state _ _ _ _ _ _).
  assert (Hi1 : inv s1) by (split; cbn; [done..| | |done]; lia).
  apply wp_bind, (wp_mono _ (keeps s1)).
  - destruct (all_true (vfExec s)); cbn [andb orb].
    + destruct ((0 <=? opcode) && (opcode <=? OP_PUSHDATA4)) eqn:E.
      * apply wp_bind. assert (wp (if fRequireMinimal flags then CheckMinimalPush d opcode else mret true) (λ _, True)) as HM.
        { destruct (fRequireMinimal flags); [|done]. unfold CheckMinimalPush. by apply wp_bind, wp_assert. }
        eapply wp_mono; [exact HM|]. intros b _. apply wp_bind, wp_require. intros _. cbn. split; [|done].
        split; cbn; [|done..| | |done]; [|lia..]. by apply Forall_cons_2.
      * apply switch_safe; [done|done|apply Hops].
    + destruct ((OP_IF <=? opcode) && _); [|apply wp_ret; by split]. apply switch_safe; [done|done|apply Hops].
  - intros s' [Hi' Ep]. apply wp_bind, wp_require. intros Hsm%Nat.leb_le. cbn. split; [done|]. split; [done|].
    rewrite Ep. subst s1. cbn. done.
Qed.

Lemma eval_loop_safe fuel s :
  inv s → small s → (length (pc s) <= fuel)%nat → wp (eval_loop c flags fuel s) (λ s', inv s' ∧ small s').
Proof.
  revert s. induction fuel as [|fuel IH]; intros s Hi Hk Hf; cbn [eval_loop].
  - destruct (pc s); [done|cbn in Hf; lia].
  - destruct (pc s) as [|x l] eqn:Ep; [done|]. eapply wp_bind, wp_mono; [by apply step_safe|].
    intros s' (Hi' & Hk' & Hlt). apply IH; [done..|]. rewrite Ep in Hlt. cbn in Hlt, Hf. lia.
Qed.

(** A stack for a script, and one that a script leaves. *)
Definition stack_ok (stk : list valtype) : Prop := elements stk ∧ (length stk <= MAX_STACK_SIZE)%nat.

(** [EvalScript] returns a stack or a script error. *)
Lemma EvalScript_result stk script :
  stack_ok stk → bytes script →
  (∃ stk', EvalScript c flags stk script = inr stk' ∧ stack_ok stk') ∨ ∃ e, EvalScript c flags stk script = inl (error e).
Proof.
  intros [Hs Hl] Hb. unfold EvalScript. unfold require at 1. destruct (negb _); [|by right; eexists].
  unfold mbind at 1 3, M_bind at 1 3. change (mret tt) with (@inr stop _ tt). cbn beta iota.
  assert (Hi : inv (mk_state script script no_conditions stk [] 0)).
  { split; cbn; [done|by apply Forall_nil_2| | |done]; unfold MAX_OPS_PER_SCRIPT; lia. }
  pose proof (eval_loop_safe (length script) _ Hi) as W. unfold small in W. cbn [stack altstack pc length] in W.
  specialize (W ltac:(lia) ltac:(lia)). destruct (eval_loop c flags _ _) as [[e|[e| |]| |]|s]; cbn in W; try done; [by eauto..|].
  destruct W as [Hi' Hk']. unfold require. destruct (conditions_empty _); [|by right; eexists].
  left. exists (stack s). split; [done|]. split; [apply Hi'|]. unfold small in Hk'. lia.
Qed.



(** An empty stack fails on a script hash. *)
Lemma script_hash_needs_input script : IsPayToScriptHash script = true → ∀ stk, EvalScript c flags [] script ≠ inr stk.
Proof.
  intros Hp stk. unfold IsPayToScriptHash in Hp. rewrite !andb_true_iff in Hp. destruct Hp as [[[Hl H0] _] _].
  apply Nat.eqb_eq in Hl. apply Z.eqb_eq in H0. destruct script as [|x l]; [done|]. change (x = OP_HASH160) in H0. subst x.
  unfold EvalScript. rewrite Hl. cbn [require negb]. destruct (require _ _) as [?|[]]; [done|]. discriminate.
Qed.

(** [m] returns a value or a script error. *)
Definition fine {A} (m : M A) : Prop := match m with inl (error _) | inr _ => True | _ => False end.

Lemma fine_bind {A B} (m : M A) (k : A → M B) : fine m → (∀ a, m = inr a → fine (k a)) → fine (m ≫= k).
Proof. unfold mbind, M_bind. destruct m as [[]|a]; cbn; auto. Qed.
Lemma fine_require b e : fine (require b e).
Proof. by destruct b. Qed.
Lemma fine_require_true stk : fine (require_true stk).
Proof. destruct stk; [done|apply fine_require]. Qed.
Lemma fine_eval stk script : stack_ok stk → bytes script → fine (EvalScript c flags stk script).
Proof. intros H1 H2. by destruct (EvalScript_result stk script H1 H2) as [(stk' & -> & _)|(e & ->)]. Qed.
Lemma eval_stack_ok stk script stk' : stack_ok stk → bytes script → EvalScript c flags stk script = inr stk' → stack_ok stk'.
Proof. intros H1 H2 E. destruct (EvalScript_result stk script H1 H2) as [(s & E' & Hs)|(e & E')]; rewrite E in E'; [by injection E' as <-|done]. Qed.

Lemma VerifyScript_fine scriptSig scriptPubKey :
  bytes scriptSig → bytes scriptPubKey → (has flags SCRIPT_VERIFY_CLEANSTACK = true → has flags SCRIPT_VERIFY_P2SH = true) →
  fine (VerifyScript c flags scriptSig scriptPubKey).
Proof.
  intros Hs Hp Hclean. assert (E0 : stack_ok []) by (split; [by apply Forall_nil_2|cbn; lia]).
  unfold VerifyScript. apply fine_bind; [apply fine_require|]. intros [] _.
  apply fine_bind; [by apply fine_eval|]. intros stk1 E1. pose proof (eval_stack_ok _ _ _ E0 Hs E1) as O1.
  apply fine_bind; [by apply fine_eval|]. intros stk2 E2. apply fine_bind; [apply fine_require_true|]. intros [] _.
  apply fine_bind.
  - destruct (_ && _) eqn:EP; [|done]. apply andb_true_iff in EP as [_ EP].
    apply fine_bind; [apply fine_require|]. intros [] _.
    destruct stk1 as [|w stk1]; [by destruct (script_hash_needs_input _ EP stk2)|].
    destruct O1 as [O1 L1]. apply Forall_cons_1 in O1 as [[Hw _] O1]. cbn [length] in L1. cbn.
    apply fine_bind; [apply fine_eval; [split; [done|lia]|done]|]. intros stk3 _.
    apply fine_bind; [apply fine_require_true|]. done.
  - intros stk _. destruct (has flags SCRIPT_VERIFY_CLEANSTACK); [|done]. rewrite (Hclean eq_refl). cbn. apply fine_require.
Qed.
End Safety.

(** ** Flags are soft forks *)

(** Whatever [m'] returns, [m] returns. *)
Definition narrows {A} (m' m : M A) : Prop := ∀ a, m' = inr a → m = inr a.

Lemma narrows_refl {A} (m : M A) : narrows m m.
Proof. by intros a. Qed.
Lemma narrows_bind {A B} (m' m : M A) (k' k : A → M B) : narrows m' m → (∀ a, narrows (k' a) (k a)) → narrows (m' ≫= k') (m ≫= k).
Proof.
  intros Hm Hk b. unfold mbind, M_bind. destruct m' as [|a] eqn:E; [done|]. intros Hb. rewrite (Hm a eq_refl). by apply Hk.
Qed.
Lemma narrows_require b' b e : (b' = true → b = true) → narrows (require b' e) (require b e).
Proof. intros Hb []. unfold require. destruct b'; [by rewrite Hb|done]. Qed.
Lemma narrows_stop {A} x (m : M A) : narrows (inl x) m.
Proof. by intros a. Qed.

Section SoftForks.
Context (c : Crypto) (flags flags' : Z) `{BaseSignatureChecker}.
Context (Hf : ∀ flag, has flags flag = true → has flags' flag = true).

#[local] Opaque serialize MinimallyEncode IsMinimallyEncoded CastToBool CScriptNum FindAndDelete.

(** A check that applies under the flag only. *)
Lemma flag_check flag (b : bool) : negb (has flags' flag && b) = true → negb (has flags flag && b) = true.
Proof. destruct (has flags flag) eqn:E; [by rewrite (Hf flag E)|done]. Qed.

Lemma number_narrows v n : narrows (number (fRequireMinimal flags') v n) (number (fRequireMinimal flags) v n).
Proof.
  intros a. unfold number, fRequireMinimal. destruct (has flags SCRIPT_VERIFY_MINIMALDATA) eqn:E; [by rewrite (Hf _ E)|].
  Transparent CScriptNum. unfold CScriptNum. destruct (_ <? _)%nat; [done|]. cbn [andb].
  by destruct (has flags' _ && _).
Qed.
#[local] Opaque CScriptNum number.

(** Walk down two runs of the same code. *)
Ltac walk :=
  repeat first [ apply narrows_refl | apply narrows_stop | apply number_narrows
               | apply narrows_bind; [|intros ?] | apply narrows_require, flag_check
               | match goal with |- narrows (if ?b then _ else _) (if ?b then _ else _) => destruct b end
               | match goal with |- narrows (let '(_, _) := ?x in _) _ => destruct x end ].

Lemma locktime_narrows stk :
  narrows (op_checklocktimeverify flags' stk) (op_checklocktimeverify flags stk) ∧
  narrows (op_checksequenceverify flags' stk) (op_checksequenceverify flags stk) ∧
  narrows (op_upgradable_nop flags' stk) (op_upgradable_nop flags stk).
Proof.
  repeat split.
  - unfold op_checklocktimeverify. destruct (has flags SCRIPT_VERIFY_CHECKLOCKTIMEVERIFY) eqn:E; [rewrite (Hf _ E); walk|].
    cbn [negb]. destruct (negb _); [walk|]. intros a. unfold mbind, M_bind. destruct (need stk 1) as [|[]]; [done|].
    destruct (stacktop stk 1) as [|v]; [done|]. destruct (number _ v 5) as [|m]; [done|].
    destruct (require _ _) as [|[]]; [done|]. by destruct (require _ _) as [|[]].
  - unfold op_checksequenceverify. destruct (has flags SCRIPT_VERIFY_CHECKSEQUENCEVERIFY) eqn:E; [rewrite (Hf _ E); walk|].
    cbn [negb]. destruct (negb _); [walk|]. intros a. unfold mbind, M_bind. destruct (need stk 1) as [|[]]; [done|].
    destruct (stacktop stk 1) as [|v]; [done|]. destruct (number _ v 5) as [|m]; [done|].
    destruct (require _ _) as [|[]]; [done|]. destruct (negb _); [done|]. by destruct (require _ _) as [|[]].
  - unfold op_upgradable_nop. apply narrows_bind; [|intros; walk]. apply narrows_require.
    destruct (has flags _) eqn:E; [by rewrite (Hf _ E)|done].
Qed.

Lemma number_ops_narrow opcode stk :
  narrows (op_pick_roll flags' opcode stk) (op_pick_roll flags opcode stk) ∧
  narrows (op_unary flags' opcode stk) (op_unary flags opcode stk) ∧
  narrows (op_binary flags' opcode stk) (op_binary flags opcode stk) ∧
  narrows (op_within flags' stk) (op_within flags stk) ∧
  narrows (op_split flags' stk) (op_split flags stk) ∧
  narrows (op_num2bin flags' stk) (op_num2bin flags stk).
Proof. unfold op_pick_roll, op_unary, op_binary, op_within, op_split, op_num2bin. repeat split; walk. Qed.

Lemma encodings_narrow vchSig vchPubKey :
  narrows (CheckSignatureEncoding c flags' vchSig) (CheckSignatureEncoding c flags vchSig) ∧
  narrows (CheckPubKeyEncoding flags' vchPubKey) (CheckPubKeyEncoding flags vchPubKey).
Proof.
  split; [|unfold CheckPubKeyEncoding; walk]. unfold CheckSignatureEncoding. destruct (_ =? 0)%nat; [walk|].
  set (any := Z.lor _ _).
  destruct (has flags any) eqn:E; [rewrite (Hf _ E); destruct (IsValidSignatureEncoding vchSig); cbn [andb negb]; [|walk]|].
  2: cbn [andb]; destruct (has flags' any && _); [walk|].
  all: apply narrows_bind; [|intros; walk]; destruct (has flags SCRIPT_VERIFY_LOW_S) eqn:E2; [rewrite (Hf _ E2); walk|];
    destruct (has flags' SCRIPT_VERIFY_LOW_S); [by intros []|walk].
Qed.

Lemma drop_signature_narrows code vchSig : narrows (drop_signature flags' code vchSig) (drop_signature flags code vchSig).
Proof.
  unfold drop_signature. apply narrows_bind; [walk|]. intros [n s]. apply narrows_bind; [|intros []; walk]. apply narrows_require.
  rewrite !(andb_comm (0 <? n)). apply flag_check.
Qed.

#[local] Opaque drop_signature CheckSignatureEncoding CheckPubKeyEncoding.

Lemma nullfail_narrows (r : bool) (v : valtype) :
  narrows (require (negb (negb r && has flags' SCRIPT_VERIFY_NULLFAIL && (0 <? length v)%nat)) SCRIPT_ERR_SIG_NULLFAIL)
          (require (negb (negb r && has flags SCRIPT_VERIFY_NULLFAIL && (0 <? length v)%nat)) SCRIPT_ERR_SIG_NULLFAIL).
Proof. apply narrows_require. rewrite !(andb_comm (negb r)), <-!andb_assoc. apply flag_check. Qed.

Lemma checksig_narrows opcode code stk :
  narrows (op_checksig c flags' opcode code stk) (op_checksig c flags opcode code stk) ∧
  narrows (op_checkdatasig c flags' opcode stk) (op_checkdatasig c flags opcode stk).
Proof.
  split; unfold op_checksig, op_checkdatasig, EvalChecksig.
  - walk; [apply drop_signature_narrows|apply (encodings_narrow _ [])|apply (encodings_narrow [])|apply nullfail_narrows].
  - walk; [apply (encodings_narrow _ [])|apply (encodings_narrow [])|apply nullfail_narrows].
Qed.

Lemma multisig_loops_narrow n fuel stk code isig ikey nSigs nKeys :
  narrows (drop_signatures flags' n stk isig code) (drop_signatures flags n stk isig code) ∧
  narrows (multisig_loop c flags' fuel stk code isig ikey nSigs nKeys) (multisig_loop c flags fuel stk code isig ikey nSigs nKeys).
Proof.
  split.
  - revert isig code. induction n as [|n IH]; intros isig code; cbn [drop_signatures]; [walk|].
    apply narrows_bind; [walk|intros v]. apply narrows_bind; [apply drop_signature_narrows|intros code']. apply IH.
  - revert isig ikey nSigs nKeys. induction fuel as [|fuel IH]; intros isig ikey nSigs nKeys; cbn [multisig_loop];
      (destruct (nSigs <=? 0); [walk|]); [walk|].
    apply narrows_bind; [walk|intros v]. apply narrows_bind; [walk|intros w].
    apply narrows_bind; [apply (encodings_narrow _ [])|intros []]. apply narrows_bind; [apply (encodings_narrow [])|intros []].
    destruct (CheckSig v w code BASE); (destruct (_ <? _); [walk|apply IH]).
Qed.

Lemma clean_loop_narrows n r k stk : narrows (clean_loop flags' n r k stk) (clean_loop flags n r k stk).
Proof.
  revert k stk. induction n as [|n IH]; intros k stk; cbn [clean_loop]; [walk|].
  apply narrows_bind; [|intros []; apply narrows_bind; [walk|intros; apply IH]].
  destruct r; cbn [negb andb]; [walk|]. destruct (has flags SCRIPT_VERIFY_NULLFAIL) eqn:E; [rewrite (Hf _ E); walk|].
  cbn [andb]. destruct (_ && _); [by intros []|walk].
Qed.

#[local] Opaque drop_signatures multisig_loop clean_loop.

Lemma checkmultisig_narrows opcode code stk nOps :
  narrows (op_checkmultisig c flags' opcode code stk nOps) (op_checkmultisig c flags opcode code stk nOps).
Proof.
  unfold op_checkmultisig. walk;
    [apply (multisig_loops_narrow _ 0 _ _ _ 0%nat 0 0)|apply (multisig_loops_narrow 0)|apply clean_loop_narrows|].
  destruct (has flags SCRIPT_VERIFY_NULLDUMMY) eqn:E; [rewrite (Hf _ E); walk|]. destruct (has flags' _); [by intros []|walk].
Qed.



Lemma on_stack_narrows f' f s : (∀ stk, narrows (f' stk) (f stk)) → narrows (on_stack f' s) (on_stack f s).
Proof. intros Hn. unfold on_stack. apply narrows_bind; [apply Hn|intros; walk]. Qed.

(** Two groups of the switch answer for the same opcodes. *)
Definition narrow_answers (o' o : option (M state)) : Prop :=
  match o', o with Some m', Some m => narrows m' m | None, None => True | _, _ => False end.

Ltac cases := match goal with |- narrow_answers (if ?b then _ else _) (if ?b then _ else _) => destruct b; [cbn [narrow_answers]|] end.

Lemma groups_narrow opcode fExec s :
  narrow_answers (exec_control flags' opcode fExec s) (exec_control flags opcode fExec s) ∧
  narrow_answers (exec_stack flags' opcode s) (exec_stack flags opcode s) ∧
  narrow_answers (exec_data flags' opcode s) (exec_data flags opcode s) ∧
  narrow_answers (exec_crypto c flags' opcode s) (exec_crypto c flags opcode s) ∧
  narrow_answers (exec_splice flags' opcode s) (exec_splice flags opcode s).
Proof.
  split; [|split; [|split; [|split]]].
  - unfold exec_control. cases; [walk|]. cases; [walk|]. do 3 (cases; [apply on_stack_narrows; intros; apply locktime_narrows|]).
    repeat (cases; [walk|]). done.
  - unfold exec_stack. do 14 (cases; [walk|]). cases; [apply on_stack_narrows; intros; apply number_ops_narrow|].
    repeat (cases; [walk|]). done.
  - unfold exec_data. do 2 (cases; [walk|]). do 2 (cases; [apply on_stack_narrows; intros; apply number_ops_narrow|]).
    cases; [apply on_stack_narrows; intros; apply (number_ops_narrow 0)|]. done.
  - unfold exec_crypto. do 2 (cases; [walk|]). cases; [apply on_stack_narrows; intros; apply checksig_narrows|].
    cases; [apply on_stack_narrows; intros; apply (checksig_narrows opcode [])|].
    cases; [|done]. apply narrows_bind; [apply checkmultisig_narrows|intros []; walk].
  - unfold exec_splice. cases; [walk|]. do 2 (cases; [apply on_stack_narrows; intros; apply (number_ops_narrow 0)|]).
    cases; [walk|]. done.
Qed.

Lemma switch_narrows opcode fExec s : narrows (switch c flags' opcode fExec s) (switch c flags opcode fExec s).
Proof.
  destruct (groups_narrow opcode fExec s) as (G1 & G2 & G3 & G4 & G5). unfold switch, narrow_answers in *.
  destruct (exec_control flags' _ _ _), (exec_control flags _ _ _); [done..|].
  destruct (exec_stack flags' _ _), (exec_stack flags _ _); [done..|].
  destruct (exec_data flags' _ _), (exec_data flags _ _); [done..|].
  destruct (exec_crypto c flags' _ _), (exec_crypto c flags _ _); [done..|].
  destruct (exec_splice flags' _ _), (exec_splice flags _ _); [done..|walk].
Qed.

#[local] Opaque switch CheckMinimalPush.

Lemma eval_loop_narrows fuel s : narrows (eval_loop c flags' fuel s) (eval_loop c flags fuel s).
Proof.
  revert s. induction fuel as [|fuel IH]; intros s; cbn [eval_loop]; (destruct (pc s); [walk|]); [walk|].
  apply narrows_bind; [|apply IH]. unfold step. destruct (GetScriptOp (pc s)) as [[[ok pc'] opcode] d].
  do 4 (apply narrows_bind; [walk|intros []]). apply narrows_bind.
  { apply narrows_require. rewrite !(andb_comm (opcode =? _)). apply flag_check. }
  intros []. apply narrows_bind; [|intros; walk].
  destruct (_ && _); [|destruct (_ || _); [apply switch_narrows|walk]].
  intros a. unfold fRequireMinimal. destruct (has flags SCRIPT_VERIFY_MINIMALDATA) eqn:E; [by rewrite (Hf _ E)|].
  destruct (has flags' _); [|done]. unfold mbind, M_bind. destruct (CheckMinimalPush d opcode) as [|[]]; done.
Qed.

Lemma EvalScript_narrows stk script : narrows (EvalScript c flags' stk script) (EvalScript c flags stk script).
Proof.
  unfold EvalScript. apply narrows_bind; [walk|]. intros _ a Ha.
  destruct (eval_loop c flags' _ _) as [[]|s] eqn:E; [done..|].
  by rewrite (eval_loop_narrows _ _ _ E).
Qed.

#[local] Opaque EvalScript.

Lemma VerifyScript_narrows scriptSig scriptPubKey :
  (has flags SCRIPT_VERIFY_CLEANSTACK = true → has flags SCRIPT_VERIFY_P2SH = true) →
  narrows (VerifyScript c flags' scriptSig scriptPubKey) (VerifyScript c flags scriptSig scriptPubKey).
Proof.
  intros Hclean. unfold VerifyScript. apply narrows_bind; [walk|intros []].
  apply narrows_bind; [apply EvalScript_narrows|intros stk1]. apply narrows_bind; [apply EvalScript_narrows|intros stk2].
  apply narrows_bind; [walk|intros []]. destruct (has flags SCRIPT_VERIFY_P2SH) eqn:E.
  - rewrite (Hf _ E). apply narrows_bind.
    + destruct (true && _); [|walk]. do 2 (apply narrows_bind; [walk|intros []]). do 2 (apply narrows_bind; [walk|intros ?]).
      apply narrows_bind; [apply EvalScript_narrows|intros ?]. walk.
    + intros stk. destruct (has flags SCRIPT_VERIFY_CLEANSTACK) eqn:E2; [rewrite (Hf _ E2); walk|].
      destruct (has flags' SCRIPT_VERIFY_CLEANSTACK); [|walk]. by intros [].
  - destruct (has flags SCRIPT_VERIFY_CLEANSTACK); [by discriminate Hclean|]. by intros [] _.
Qed.

End SoftForks.

(** ** Multisignatures *)

(** Signatures go to keys in order: each to the first key that it fits. *)
Fixpoint matches (ok : valtype → valtype → bool) (sigs keys : list valtype) : bool :=
  match sigs, keys with
  | [], _ => true
  | _, [] => false
  | s :: ss, k :: ks => if ok s k then matches ok ss ks else matches ok sigs ks
  end.

(** The signatures fit some of the keys, in their order. *)
Definition signed_by (ok : valtype → valtype → bool) (sigs keys : list valtype) : Prop :=
  ∃ ks, sublist ks keys ∧ Forall2 (λ s k, ok s k = true) sigs ks.

Lemma signed_by_tail ok s ss keys : signed_by ok (s :: ss) keys → signed_by ok ss keys.
Proof.
  intros (ks & Hs & HF). apply Forall2_cons_inv_l in HF as (k & ks' & _ & HF & ->). exists ks'. split; [|done].
  etrans; [|exact Hs]. by apply sublist_cons.
Qed.

Lemma matches_spec ok sigs keys : matches ok sigs keys = true ↔ signed_by ok sigs keys.
Proof.
  revert sigs. induction keys as [|k ks IH]; intros [|s ss]; cbn [matches].
  - split; [|done]. intros _. exists []. by split.
  - split; [done|]. intros (l & Hs & HF). apply sublist_nil_r in Hs as ->. by inversion HF.
  - split; [|done]. intros _. exists []. split; [apply sublist_nil_l|done].
  - destruct (ok s k) eqn:E; rewrite IH; split.
    + intros (l & Hs & HF). exists (k :: l). split; [by apply sublist_skip|by constructor].
    + intros (l & Hs & HF). apply Forall2_cons_inv_l in HF as (k' & l' & Ek & HF & ->).
      apply sublist_cons_r in Hs as [Hs|(l'' & [= -> ->] & Hs)]; [|by exists l''].
      apply (signed_by_tail ok s). exists (k' :: l'). split; [done|by constructor].
    + intros (l & Hs & HF). exists l. split; [by apply sublist_cons|done].
    + intros (l & Hs & HF). apply sublist_cons_r in Hs as [Hs|(l' & -> & Hs)]; [by exists l|].
      apply Forall2_cons_inv_l in HF as (k' & l'' & Ek & _ & [= -> ->]). congruence.
Qed.

Lemma matches_length ok sigs keys : (length keys < length sigs)%nat → matches ok sigs keys = false.
Proof.
  intros Hl. destruct (matches ok sigs keys) eqn:E; [|done]. apply matches_spec in E as (l & Hs & HF).
  apply sublist_length in Hs. apply Forall2_length in HF. lia.
Qed.

Section Multisig.
Context (c : Crypto) (flags : Z) `{BaseSignatureChecker}.

(** The encodings that the flags ask for. *)
Definition encoded (sigs keys : list valtype) : Prop :=
  Forall (λ s, CheckSignatureEncoding c flags s = inr tt) sigs ∧ Forall (λ k, CheckPubKeyEncoding flags k = inr tt) keys.

Lemma stacktop_lookup stk i v : (1 <= i)%nat → stk !! (i - 1)%nat = Some v → stacktop stk i = inr v.
Proof. intros Hi E. unfold stacktop. rewrite E. by destruct (Nat.eqb_spec i 0); [lia|]. Qed.

Lemma multisig_loop_ok stk code sigs keys isig ikey fuel :
  encoded sigs keys → (length sigs <= length keys)%nat → (length keys <= fuel)%nat → (1 <= isig)%nat → (1 <= ikey)%nat →
  (∀ j v, sigs !! j = Some v → stk !! (isig - 1 + j)%nat = Some v) →
  (∀ j v, keys !! j = Some v → stk !! (ikey - 1 + j)%nat = Some v) →
  multisig_loop c flags fuel stk code isig ikey (Z.of_nat (length sigs)) (Z.of_nat (length keys)) =
  inr (matches (λ s k, CheckSig s k code BASE) sigs keys).
Proof.
  intros He Hl Hf Hi Hk Hs Hks. revert sigs isig ikey fuel He Hl Hf Hi Hk Hs Hks.
  induction keys as [|k ks IH]; intros sigs isig ikey fuel He Hl Hf Hi Hk Hs Hks.
  - destruct sigs; [by destruct fuel|cbn in Hl; lia].
  - destruct sigs as [|s ss]; [by destruct fuel|]. destruct fuel as [|fuel]; [cbn in Hf; lia|].
    cbn [multisig_loop matches]. destruct (Z.leb_spec (Z.of_nat (length (s :: ss))) 0); [cbn in *; lia|].
    destruct He as [[Es Ess]%Forall_cons_1 [Ek Eks]%Forall_cons_1]. pose proof (Hs 0%nat s eq_refl) as S0. pose proof (Hks 0%nat k eq_refl) as K0.
    rewrite Nat.add_0_r in S0, K0. rewrite (stacktop_lookup stk isig s), (stacktop_lookup stk ikey k) by done.
    unfold mbind, M_bind. rewrite Es, Ek. cbn [length] in *.
    destruct (CheckSig s k code BASE).
    + replace (Z.of_nat (S (length ks)) - 1) with (Z.of_nat (length ks)) by lia.
      replace (Z.of_nat (S (length ss)) - 1) with (Z.of_nat (length ss)) by lia.
      destruct (Z.ltb_spec (Z.of_nat (length ks)) (Z.of_nat (length ss))); [lia|].
      apply IH; [done|lia..| |].
      * intros j v Hj. replace (isig + 1 - 1 + j)%nat with (isig - 1 + S j)%nat by lia. by apply Hs.
      * intros j v Hj. replace (ikey + 1 - 1 + j)%nat with (ikey - 1 + S j)%nat by lia. by apply Hks.
    + replace (Z.of_nat (S (length ks)) - 1) with (Z.of_nat (length ks)) by lia.
      destruct (Z.ltb_spec (Z.of_nat (length ks)) (Z.of_nat (S (length ss)))) as [Hlt|Hge].
      { by rewrite matches_length by (cbn; lia). }
      change (S (length ss)) with (length (s :: ss)). apply IH; [by split; [constructor|]|cbn; lia|lia..|done|].
      intros j v Hj. replace (ikey + 1 - 1 + j)%nat with (ikey - 1 + S j)%nat by lia. by apply Hks.
Qed.

(** The arguments are taken off; a failure under NULLFAIL needs empty signatures. *)
Lemma clean_loop_keys keys r k stk :
  (length keys <= k)%nat → clean_loop flags (length keys) r k (keys ++ stk) = inr stk.
Proof.
  revert k. induction keys as [|v keys IH]; intros k Hk; [done|]. cbn [length clean_loop app] in *.
  destruct (Nat.eqb_spec k 0); [lia|]. rewrite andb_false_r. unfold mbind, M_bind. cbn. apply IH. lia.
Qed.

Lemma clean_loop_app m n r k stk :
  clean_loop flags (m + n) r k stk = clean_loop flags m r k stk ≫= clean_loop flags n r (k - m).
Proof.
  revert k stk. induction m as [|m IH]; intros k stk; cbn [clean_loop Nat.add]; [by rewrite Nat.sub_0_r|].
  unfold mbind, M_bind in *. destruct (if negb r && _ && _ then _ else _) as [|[]]; [done|].
  destruct (popstack stk); [done|]. rewrite IH. by replace (k - 1 - m)%nat with (k - S m)%nat by lia.
Qed.

Lemma clean_loop_sigs sigs r stk :
  clean_loop flags (length sigs) r 0 (sigs ++ stk) =
  if negb r && has flags SCRIPT_VERIFY_NULLFAIL && existsb (λ v, negb (length v =? 0)%nat) sigs
  then inl (error SCRIPT_ERR_SIG_NULLFAIL) else inr stk.
Proof.
  induction sigs as [|v sigs IH]; [by rewrite andb_false_r|]. cbn [length clean_loop app existsb].
  cbn [Nat.eqb]. rewrite andb_true_r. destruct (negb r && has flags SCRIPT_VERIFY_NULLFAIL); cbn [andb] in *.
  - unfold mbind, M_bind. cbn [stacktop lookup list_lookup Nat.sub Nat.eqb]. change (mret v) with (@inr stop _ v). cbn beta iota.
    unfold require. destruct (length v =? 0)%nat; cbn [negb orb]; [exact IH|done].
  - exact IH.
Qed.



Lemma number_small b n : 0 <= n < 128 → number b (serialize n) nDefaultMaxNumSize = inr n.
Proof.
  intros Hn. unfold number. rewrite CScriptNum_serialize; [done|lia|].
  pose proof (serialize_length n 0 ltac:(lia)) as Hl. change (128 * 256 ^ Z.of_nat 0) with 128 in Hl.
  specialize (Hl ltac:(lia)). unfold nDefaultMaxNumSize. lia.
Qed.

(** What the operation finds on the stack. *)
Definition multisig_stack (keys sigs : list valtype) (dummy : valtype) (rest : list valtype) : list valtype :=
  serialize (Z.of_nat (length keys)) :: keys ++ serialize (Z.of_nat (length sigs)) :: sigs ++ dummy :: rest.

Lemma multisig_stack_lookup keys sigs dummy rest :
  let stk := multisig_stack keys sigs dummy rest in
  (∀ j v, keys !! j = Some v → stk !! (2 - 1 + j)%nat = Some v) ∧
  stk !! (2 + length keys - 1)%nat = Some (serialize (Z.of_nat (length sigs))) ∧
  (∀ j v, sigs !! j = Some v → stk !! (2 + length keys + 1 - 1 + j)%nat = Some v) ∧
  length stk = (3 + length keys + length sigs + length rest)%nat ∧
  stk = (serialize (Z.of_nat (length keys)) :: keys ++ [serialize (Z.of_nat (length sigs))]) ++ sigs ++ dummy :: rest.
Proof.
  assert (C : ∀ (x : valtype) l n r, l !! n = r → (x :: l) !! S n = r) by done.
  unfold multisig_stack. split; [|split; [|split; [|split]]].
  - intros j v Hj. apply C. by apply lookup_app_l_Some.
  - replace (2 + length keys - 1)%nat with (S (length keys)) by lia. apply C. by rewrite lookup_app_r, Nat.sub_diag by lia.
  - intros j v Hj. replace (2 + length keys + 1 - 1 + j)%nat with (S (length keys + S j)) by lia. apply C.
    rewrite lookup_app_r by lia. replace (length keys + S j - length keys)%nat with (S j) by lia. apply C. by apply lookup_app_l_Some.
  - cbn [length]. rewrite length_app. cbn [length]. rewrite length_app. cbn [length]. lia.
  - cbn [app]. by rewrite <-app_assoc.
Qed.

Lemma op_checkmultisig_ok opcode code code' keys sigs dummy rest nOps :
  let stk := multisig_stack keys sigs dummy rest in
  (length sigs <= length keys <= 20)%nat → nOps + Z.of_nat (length keys) <= MAX_OPS_PER_SCRIPT → encoded sigs keys →
  (has flags SCRIPT_VERIFY_NULLDUMMY = true → dummy = []) →
  drop_signatures flags (length sigs) stk (length keys + 3) code = inr code' →
  let r := matches (λ s k, CheckSig s k code' BASE) sigs keys in
  op_checkmultisig c flags opcode code stk nOps =
  if negb r && has flags SCRIPT_VERIFY_NULLFAIL && existsb (λ v, negb (length v =? 0)%nat) sigs
  then inl (error SCRIPT_ERR_SIG_NULLFAIL)
  else stk ← verify_form (opcode =? OP_CHECKMULTISIGVERIFY) r SCRIPT_ERR_CHECKMULTISIGVERIFY (vch_of r :: rest);
       mret (stk, nOps + Z.of_nat (length keys)).
Proof.
  intros stk Hl Hops He Hd Hdrop r. destruct (multisig_stack_lookup keys sigs dummy rest) as (L1 & L2 & L3 & L4 & L5).
  fold stk in L1, L2, L3, L4, L5. unfold MAX_OPS_PER_SCRIPT in Hops.
  assert (N : ∀ n, (n <= length stk)%nat → need stk n = inr tt).
  { intros n Hn. unfold need. by rewrite (proj2 (Nat.leb_le _ _) Hn). }
  unfold op_checkmultisig. rewrite (N 1%nat) by lia. rewrite (stacktop_lookup stk 1 (serialize (Z.of_nat (length keys)))) by done.
  unfold mbind, M_bind. cbn beta iota. rewrite number_small by lia. cbn beta iota. rewrite getint_id by lia.
  destruct (Z.ltb_spec (Z.of_nat (length keys)) 0); [lia|]. unfold MAX_PUBKEYS_PER_MULTISIG, MAX_OPS_PER_SCRIPT.
  destruct (Z.ltb_spec 20 (Z.of_nat (length keys))); [lia|]. cbn [orb negb require].
  destruct (Z.ltb_spec 201 (nOps + Z.of_nat (length keys))); [lia|]. cbn [negb require].
  change (mret tt) with (@inr stop _ tt). cbn beta iota. rewrite !Nat2Z.id.
  rewrite (N (2 + length keys)%nat) by lia. rewrite (stacktop_lookup stk (2 + length keys) _ ltac:(lia) L2).
  cbn beta iota. rewrite number_small by lia. cbn beta iota. rewrite getint_id by lia.
  destruct (Z.ltb_spec (Z.of_nat (length sigs)) 0); [lia|].
  destruct (Z.ltb_spec (Z.of_nat (length keys)) (Z.of_nat (length sigs))); [lia|]. cbn [orb negb require].
  change (mret tt) with (@inr stop _ tt). cbn beta iota. rewrite !Nat2Z.id. rewrite (N _) by lia.
  replace (2 + length keys + 1)%nat with (length keys + 3)%nat by lia. rewrite Hdrop.
  rewrite (multisig_loop_ok stk code' sigs keys) by (done || lia || (intros j v Hj; rewrite <-(L3 j v Hj); f_equal; lia)). fold r.
  replace (length keys + 3 + length sigs - 1)%nat with ((length keys + 2) + length sigs)%nat by lia.
  rewrite clean_loop_app. replace (length keys + 2)%nat with (length (serialize (Z.of_nat (length keys)) :: keys ++ [serialize (Z.of_nat (length sigs))]))
    by (cbn [length]; rewrite length_app; cbn [length]; lia).
  rewrite L5, clean_loop_keys by lia. unfold mbind, M_bind. cbn beta iota.
  rewrite Nat.sub_diag, clean_loop_sigs. destruct (_ && _ && _); [done|].
  unfold need at 1. cbn [length Nat.leb require]. change (mret tt) with (@inr stop _ tt). cbn beta iota.
  destruct (has flags SCRIPT_VERIFY_NULLDUMMY); [rewrite (Hd eq_refl)|]; reflexivity.
Qed.

End Multisig.

(** ** The condition stack as a list of truth values *)

Fixpoint first_false (l : list bool) : option nat :=
  match l with [] => None | true :: l => S <$> first_false l | false :: _ => Some 0%nat end.

(** [l] has the conditions, the innermost last. *)
Definition represents (cs : ConditionStack) (l : list bool) : Prop :=
  m_stack_size cs = Z.of_nat (length l) ∧
  m_first_false_pos cs = match first_false l with Some i => Z.of_nat i | None => NO_FALSE end.

Lemma first_false_app l k : first_false (l ++ k) = match first_false l with Some i => Some i | None => (λ i, length l + i)%nat <$> first_false k end.
Proof.
  induction l as [|[] l IH]; cbn; [by destruct (first_false k)| |done]. rewrite IH.
  destruct (first_false l); [done|]. by destruct (first_false k).
Qed.
Lemma first_false_lt l i : first_false l = Some i → (i < length l)%nat.
Proof.
  revert i. induction l as [|[] l IH]; cbn; [done| |intros i [= <-]; lia].
  destruct (first_false l) as [j|]; [|done]. intros i [= <-]. specialize (IH j eq_refl). lia.
Qed.
Lemma first_false_None l : first_false l = None ↔ forallb id l = true.
Proof. induction l as [|[] l IH]; cbn; [done| |done]. rewrite <-IH. by destruct (first_false l). Qed.

(** C20: [ConditionStack], which keeps only a size and the position of the
    first false value, refines the stack of truth values of the open
    conditionals: each of its operations answers and acts as the operation on
    the list, and fails its assertion exactly on the empty one. *)
Theorem condition_stack_refines cs l :
  represents cs l → Z.of_nat (length l) + 1 < NO_FALSE →
  conditions_empty cs = bool_decide (l = []) ∧ all_true cs = forallb id l ∧
  (∀ f, represents (push_condition cs f) (l ++ [f])) ∧
  (∀ l' b, l = l' ++ [b] → ∃ popped toggled, pop_condition cs = inr popped ∧ represents popped l' ∧
    toggle_top cs = inr toggled ∧ represents toggled (l' ++ [negb b])) ∧
  (l = [] → pop_condition cs = inl assertion_fails ∧ toggle_top cs = inl assertion_fails).
Proof.
  intros [Hs Hp] Hlt. unfold NO_FALSE in Hlt.
  assert (HN : ∀ i, first_false l = Some i → Z.of_nat i ≠ NO_FALSE) by (intros i Hi%first_false_lt; unfold NO_FALSE; lia).
  split; [|split; [|split; [|split]]].
  - unfold conditions_empty. rewrite Hs. by destruct l.
  - unfold all_true. rewrite Hp. pose proof (first_false_None l) as E. destruct (first_false l) as [i|].
    + destruct (Z.eqb_spec (Z.of_nat i) NO_FALSE); [by destruct (HN i)|]. destruct (forallb id l); [by discriminate (proj2 E eq_refl)|done].
    + rewrite Z.eqb_refl. symmetry. by apply E.
  - intros f. unfold represents, push_condition. cbn [m_stack_size m_first_false_pos]. rewrite Hs, Hp, length_app, first_false_app.
    cbn [length]. split; [rewrite SPH_T32_id by (unfold word; lia); lia|].
    destruct (first_false l) as [i|]; [destruct (Z.eqb_spec (Z.of_nat i) NO_FALSE); [by destruct (HN i)|done]|].
    rewrite Z.eqb_refl. destruct f; cbn; [done|]. f_equal. lia.
  - intros l' b ->. rewrite first_false_app in Hp. rewrite length_app in *. cbn [length] in *.
    assert (E1 : SPH_T32 (m_stack_size cs - 1) = Z.of_nat (length l')) by (rewrite Hs, SPH_T32_id by (unfold word; lia); lia).
    unfold pop_condition, toggle_top, assert_that. destruct (Z.ltb_spec 0 (m_stack_size cs)); [|lia]. cbn. rewrite E1.
    eexists _, _. split; [done|]. split; [|split; [done|]]; unfold represents; cbn [m_stack_size m_first_false_pos].
    + split; [done|]. rewrite Hp. destruct (first_false l') as [i|] eqn:Ei.
      * pose proof (first_false_lt _ _ Ei). by destruct (Z.eqb_spec (Z.of_nat i) (Z.of_nat (length l'))); [lia|].
      * destruct b; cbn; [|by rewrite Nat.add_0_r, Z.eqb_refl].
        by destruct (NO_FALSE =? Z.of_nat (length l')).
    + rewrite length_app. cbn [length]. split; [done|]. rewrite first_false_app, Hp. destruct (first_false l') as [i|] eqn:Ei.
      * pose proof (first_false_lt _ _ Ei). destruct (Z.eqb_spec (Z.of_nat i) NO_FALSE); [unfold NO_FALSE in *; lia|].
        by destruct (Z.eqb_spec (Z.of_nat i) (Z.of_nat (length l'))); [lia|].
      * destruct b; cbn; [by rewrite Nat.add_0_r|]. rewrite Nat.add_0_r.
        destruct (Z.eqb_spec (Z.of_nat (length l')) NO_FALSE); [unfold NO_FALSE in *; lia|]. by rewrite Z.eqb_refl.
  - intros ->. cbn in Hs. unfold pop_condition, toggle_top. rewrite Hs. done.
Qed.

Lemma condition_stack_refines_witness :
  all_true (push_condition no_conditions false) = false ∧
  ∃ popped toggled, pop_condition (push_condition no_conditions false) = inr popped ∧ represents popped [] ∧
    toggle_top (push_condition no_conditions false) = inr toggled ∧ represents toggled [true].
Proof.
  assert (R : represents (push_condition no_conditions false) [false]) by (split; reflexivity).
  assert (L : Z.of_nat (length [false]) + 1 < NO_FALSE) by (unfold NO_FALSE; cbn; lia).
  destruct (condition_stack_refines (push_condition no_conditions false) [false] R L) as (_ & H2 & _ & H4 & _).
  split; [exact H2|]. exact (H4 [] false eq_refl).
Defined.

(** ** Runs of particular scripts *)

Section Runs.
Context (c : Crypto) (flags : Z) `{BaseSignatureChecker}.

Lemma eval_step fuel s s' : pc s ≠ [] → step c flags s = inr s' → eval_loop c flags (S fuel) s = eval_loop c flags fuel s'.
Proof. intros Hp Hs. cbn [eval_loop]. destruct (pc s); [done|]. unfold mbind, M_bind. by rewrite Hs. Qed.

Lemma eval_stop fuel s e : pc s ≠ [] → step c flags s = inl e → eval_loop c flags (S fuel) s = inl e.
Proof. intros Hp Hs. cbn [eval_loop]. destruct (pc s); [done|]. unfold mbind, M_bind. by rewrite Hs. Qed.

(** An executed operation that is not a push. *)
Lemma step_op opcode rest code cs stk alt nOps :
  OP_16 < opcode → is_disabled opcode = false → (opcode =? OP_CODESEPARATOR) = false → all_true cs = true →
  nOps < MAX_OPS_PER_SCRIPT →
  step c flags (mk_state (opcode :: rest) code cs stk alt nOps) =
  (s ← switch c flags opcode true (mk_state rest code cs stk alt (nOps + 1));
   _ ← require (length (stack s) + length (altstack s) <=? MAX_STACK_SIZE)%nat SCRIPT_ERR_STACK_SIZE; mret s).
Proof.
  intros Ho Hd Hcs Ht Hn. unfold step. cbn [pc vfExec nOpCount stack altstack pbegincodehash].
  rewrite GetScriptOp_op by (unfold OP_PUSHDATA4, OP_16 in *; lia). rewrite Ht, Hd, Hcs. cbn [andb negb require length].
  destruct (Z.ltb_spec OP_16 opcode); [|lia]. unfold MAX_OPS_PER_SCRIPT in *.
  destruct (Z.ltb_spec 201 (nOps + 1)); [lia|]. cbn [andb negb require Nat.leb MAX_SCRIPT_ELEMENT_SIZE].
  destruct (Z.leb_spec opcode OP_PUSHDATA4); [unfold OP_PUSHDATA4, OP_16 in *; lia|]. rewrite andb_false_r. done.
Qed.

(** A push of a few bytes. *)
Lemma step_push d rest code cs stk alt nOps :
  (2 <= length d <= 75)%nat → all_true cs = true → (length stk + length alt < MAX_STACK_SIZE)%nat →
  step c flags (mk_state (push_data [] d ++ rest) code cs stk alt nOps) = inr (mk_state rest code cs (d :: stk) alt nOps).
Proof.
  intros Hd Ht Hl. unfold step. cbn [pc vfExec nOpCount stack altstack pbegincodehash].
  rewrite GetScriptOp_push by lia. rewrite Ht.
  assert (Eo : opcode_of d = Z.of_nat (length d)).
  { unfold opcode_of, OP_PUSHDATA1. by destruct (Z.ltb_spec (Z.of_nat (length d)) 0x4c); [|lia]. }
  rewrite Eo. set (n := Z.of_nat (length d)) in *. assert (Hn : 2 <= n <= 75) by lia.
  cbn [require]. unfold MAX_SCRIPT_ELEMENT_SIZE. destruct (Nat.leb_spec (length d) 520); [|lia].
  destruct (Z.ltb_spec OP_16 n); [unfold OP_16 in *; lia|]. cbn [andb negb require].
  assert (Edis : is_disabled n = false).
  { unfold is_disabled, one_of. apply not_true_iff_false. intros (o & Ho & ->%Z.eqb_eq)%existsb_exists.
    cbn in Ho. repeat destruct Ho as [<-|Ho]; try done; vm_compute in Hn; lia. }
  rewrite Edis. destruct (Z.eqb_spec n OP_CODESEPARATOR); [unfold OP_CODESEPARATOR in *; lia|]. cbn [andb negb require].
  destruct (Z.leb_spec 0 n); [|lia]. destruct (Z.leb_spec n OP_PUSHDATA4); [|unfold OP_PUSHDATA4 in *; lia].
  cbn [andb]. unfold mbind, M_bind. change (mret tt) with (@inr stop _ tt). cbn beta iota.
  assert (Em : CheckMinimalPush d n = inr true).
  { unfold CheckMinimalPush. fold n. destruct (Z.leb_spec 0 n); [|lia]. destruct (Z.leb_spec n OP_PUSHDATA4); [|unfold OP_PUSHDATA4 in *; lia].
    cbn. destruct (Z.eqb_spec n 0); [lia|]. destruct (Z.eqb_spec n 1); [lia|]. cbn.
    destruct (Z.leb_spec n 75); [|lia]. by rewrite Z.eqb_refl. }
  assert (Em' : (if fRequireMinimal flags then CheckMinimalPush d n else mret true) = inr true) by (by destruct (fRequireMinimal flags)).
  rewrite Em'. unfold mret, M_ret, with_stack. cbn [require pc pbegincodehash vfExec altstack nOpCount].
  unfold mret, M_ret. cbn [stack altstack length]. unfold require.
  assert (El : (S (length stk) + length alt <=? MAX_STACK_SIZE)%nat = true) by (apply Nat.leb_le; lia).
  rewrite El. done.
Qed.



(** A script that [IsUnspendable] finds fails on every stack. *)
Lemma unspendable_fails script stk : IsUnspendable script = true → ∃ e, EvalScript c flags stk script = inl (error e).
Proof.
  intros Hu. unfold EvalScript. destruct (Z.ltb_spec MAX_SCRIPT_SIZE (Z.of_nat (length script))) as [Hl|Hl]; [by eexists|].
  unfold IsUnspendable in Hu. apply orb_true_iff in Hu as [[_ Hr%Z.eqb_eq]%andb_true_iff|Hu%Z.ltb_lt]; [|lia].
  destruct script as [|x l]; [done|]. change (x = OP_RETURN) in Hr. subst x. cbn [negb require length].
  exists SCRIPT_ERR_OP_RETURN. rewrite (eval_stop _ _ (error SCRIPT_ERR_OP_RETURN)); [done|done|].
  by rewrite step_op by done.
Qed.

(** *** Pay to public key hash *)

Definition pay_to_pubkey_hash (h : list Z) : list Z :=
  OP_DUP :: OP_HASH160 :: push_data [] h ++ [OP_EQUALVERIFY; OP_CHECKSIG].
Definition sign_with (sig pubkey : list Z) : list Z := push_data [] sig ++ push_data [] pubkey.

Lemma push_data_short d : (length d <= 75)%nat → push_data [] d = Z.of_nat (length d) :: d.
Proof. intros Hd. unfold push_data, OP_PUSHDATA1. by destruct (Z.ltb_spec (Z.of_nat (length d)) 0x4c); [|lia]. Qed.

Lemma eval_push fuel d rest code cs stk alt nOps :
  (2 <= length d <= 75)%nat → all_true cs = true → (length stk + length alt < MAX_STACK_SIZE)%nat →
  eval_loop c flags (S fuel) (mk_state (push_data [] d ++ rest) code cs stk alt nOps) =
  eval_loop c flags fuel (mk_state rest code cs (d :: stk) alt nOps).
Proof.
  intros Hd Ht Hl. apply eval_step; [|by apply step_push]. cbn [pc]. by rewrite push_data_short by lia.
Qed.

Lemma sign_with_runs sig pubkey :
  (2 <= length sig <= 75)%nat → (2 <= length pubkey <= 75)%nat →
  EvalScript c flags [] (sign_with sig pubkey) = inr [pubkey; sig].
Proof.
  intros Hs Hp. unfold EvalScript, sign_with.
  assert (Hl : length (push_data [] sig ++ push_data [] pubkey) = S (S (length sig + length pubkey)))
    by (rewrite !push_data_short by lia; rewrite length_app; cbn [length]; lia).
  rewrite Hl. unfold MAX_SCRIPT_SIZE. destruct (Z.ltb_spec 10000 (Z.of_nat (S (S (length sig + length pubkey))))); [lia|].
  set (code := push_data [] sig ++ _) at 2. cbn [negb require].
  rewrite eval_push by (done || cbn; unfold MAX_STACK_SIZE; lia).
  rewrite <-(app_nil_r (push_data [] pubkey)), eval_push by (done || cbn; unfold MAX_STACK_SIZE; lia).
  by destruct (length sig + length pubkey)%nat.
Qed.

(** Nothing is deleted from the output script unless the signature has 20 bytes. *)
Lemma nothing_deleted sig h :
  length h = 20%nat → (2 <= length sig <= 75)%nat → length sig ≠ 20%nat →
  drop_signature flags (pay_to_pubkey_hash h) sig = inr (pay_to_pubkey_hash h).
Proof.
  intros Hh Hs Hne.
  assert (Sk : ∀ x l n fuel, x ≠ Z.of_nat (length sig) → skip_loop fuel (push_data [] sig) (x :: l) n = Some (x :: l, n)).
  { intros x l n fuel Hx. rewrite push_data_short by lia. destruct fuel; cbn [skip_loop length];
      (destruct (_ <=? _)%nat; [|done]); cbn [andb take]; (rewrite bool_decide_eq_false_2; [done|]); by intros [= -> _]. }
  assert (Dl : ∀ fuel r pc2 x l l' op d n, x ≠ Z.of_nat (length sig) → GetScriptOp (x :: l) = (true, l', op, d) →
    delete_loop (S fuel) (push_data [] sig) r pc2 (x :: l) n =
    delete_loop fuel (push_data [] sig) (r ++ take (length pc2 - length (x :: l)) pc2) (x :: l) l' n).
  { intros fuel r pc2 x l l' op d n Hx Hg. cbn [delete_loop]. by rewrite (Sk x l n _ Hx), Hg. }
  unfold drop_signature, FindAndDelete. destruct (Nat.eqb_spec (length (push_data [] sig)) 0) as [E|_];
    [rewrite push_data_short in E by lia; done|].
  assert (Hl : length (pay_to_pubkey_hash h) = 25%nat)
    by (unfold pay_to_pubkey_hash; rewrite push_data_short by lia; cbn [length app]; rewrite length_app, Hh; done).
  rewrite Hl. unfold pay_to_pubkey_hash at 1 2.
  assert (Eh : ∀ t, GetScriptOp (Z.of_nat (length h) :: h ++ t) = (true, t, opcode_of h, h)).
  { intros t. rewrite <-(GetScriptOp_push h t) by lia. by rewrite push_data_short by lia. }
  rewrite (push_data_short h) by lia. cbn [app].
  rewrite (Dl _ _ _ OP_DUP _ _ OP_DUP []) by (unfold OP_DUP; lia || done).
  rewrite (Dl _ _ _ OP_HASH160 _ _ OP_HASH160 []) by (unfold OP_HASH160; lia || done).
  rewrite (Dl _ _ _ (Z.of_nat (length h)) _ _ _ _ _ ltac:(lia) (Eh _)).
  rewrite (Dl _ _ _ OP_EQUALVERIFY _ _ OP_EQUALVERIFY []) by (unfold OP_EQUALVERIFY; lia || done).
  rewrite (Dl _ _ _ OP_CHECKSIG _ _ OP_CHECKSIG []) by (unfold OP_CHECKSIG; lia || done).
  cbn [delete_loop length skip_loop]. rewrite push_data_short by lia. done.
Qed.


Lemma encoding_cases sig pubkey :
  (CheckSignatureEncoding c flags sig = inr tt ∨ ∃ e, CheckSignatureEncoding c flags sig = inl (error e)) ∧
  (CheckPubKeyEncoding flags pubkey = inr tt ∨ ∃ e, CheckPubKeyEncoding flags pubkey = inl (error e)).
Proof.
  unfold CheckSignatureEncoding, CheckPubKeyEncoding, IsLowDERSignature, require, mbind, M_bind.
  split; repeat case_match; simplify_eq; eauto.
Qed.

Lemma eval_op fuel opcode rest code cs stk alt nOps s' :
  OP_16 < opcode → is_disabled opcode = false → (opcode =? OP_CODESEPARATOR) = false → all_true cs = true →
  nOps < MAX_OPS_PER_SCRIPT →
  switch c flags opcode true (mk_state rest code cs stk alt (nOps + 1)) = inr s' →
  (length (stack s') + length (altstack s') <=? MAX_STACK_SIZE)%nat = true →
  eval_loop c flags (S fuel) (mk_state (opcode :: rest) code cs stk alt nOps) = eval_loop c flags fuel s'.
Proof.
  intros H1 H2 H3 H4 H5 E El. apply eval_step; [done|]. rewrite step_op by done. unfold mbind, M_bind. by rewrite E, El.
Qed.

Lemma eval_op_stop fuel opcode rest code cs stk alt nOps e :
  OP_16 < opcode → is_disabled opcode = false → (opcode =? OP_CODESEPARATOR) = false → all_true cs = true →
  nOps < MAX_OPS_PER_SCRIPT →
  switch c flags opcode true (mk_state rest code cs stk alt (nOps + 1)) = inl e →
  eval_loop c flags (S fuel) (mk_state (opcode :: rest) code cs stk alt nOps) = inl e.
Proof.
  intros H1 H2 H3 H4 H5 E. apply eval_stop; [done|]. rewrite step_op by done. unfold mbind, M_bind. by rewrite E.
Qed.

(** The last operation of the output script. *)
Lemma checksig_runs sig pubkey h :
  length h = 20%nat → (2 <= length sig <= 75)%nat → length sig ≠ 20%nat →
  op_checksig c flags OP_CHECKSIG (pay_to_pubkey_hash h) [pubkey; sig] =
  (_ ← CheckSignatureEncoding c flags sig; _ ← CheckPubKeyEncoding flags pubkey;
   if CheckSig sig pubkey (pay_to_pubkey_hash h) BASE then mret [vchTrue]
   else if has flags SCRIPT_VERIFY_NULLFAIL then inl (error SCRIPT_ERR_SIG_NULLFAIL) else mret [vchFalse]).
Proof.
  intros Hh Hs Hne. unfold op_checksig, EvalChecksig, mbind, M_bind. cbn [need length Nat.leb require stacktop lookup list_lookup Nat.sub Nat.eqb].
  unfold mret, M_ret. rewrite nothing_deleted by done.
  destruct (CheckSignatureEncoding c flags sig) as [|[]]; [done|]. destruct (CheckPubKeyEncoding flags pubkey) as [|[]]; [done|].
  destruct (Nat.ltb_spec 0 (length sig)); [|lia].
  destruct (CheckSig _ _ _ _); cbn [negb andb require]; [done|]. by destruct (has flags SCRIPT_VERIFY_NULLFAIL).
Qed.

Lemma output_runs sig pubkey h :
  length h = 20%nat → (2 <= length sig <= 75)%nat → length sig ≠ 20%nat →
  EvalScript c flags [pubkey; sig] (pay_to_pubkey_hash h) =
  (_ ← require (bool_decide (hash_hash160 c pubkey = h)) SCRIPT_ERR_EQUALVERIFY;
   op_checksig c flags OP_CHECKSIG (pay_to_pubkey_hash h) [pubkey; sig]).
Proof.
  intros Hh Hs Hne. pose proof (checksig_runs sig pubkey h Hh Hs Hne) as Hc. unfold EvalScript.
  assert (Hl : length (pay_to_pubkey_hash h) = 25%nat)
    by (unfold pay_to_pubkey_hash; rewrite push_data_short by lia; cbn [length app]; rewrite length_app, Hh; done).
  rewrite Hl. change (MAX_SCRIPT_SIZE <? Z.of_nat 25) with false. cbn [negb require].
  set (code := pay_to_pubkey_hash h) in *. unfold mbind at 1, M_bind at 1. unfold mret at 1, M_ret at 1. cbn beta iota.
  change (mk_state code code) with (mk_state (OP_DUP :: OP_HASH160 :: push_data [] h ++ [OP_EQUALVERIFY; OP_CHECKSIG]) code).
  rewrite (eval_op _ _ _ _ _ _ _ _ (mk_state (OP_HASH160 :: push_data [] h ++ [OP_EQUALVERIFY; OP_CHECKSIG]) code no_conditions
    [pubkey; pubkey; sig] [] 1)) by done.
  rewrite (eval_op _ _ _ _ _ _ _ _ (mk_state (push_data [] h ++ [OP_EQUALVERIFY; OP_CHECKSIG]) code no_conditions
    [hash_hash160 c pubkey; pubkey; sig] [] 2)) by done.
  rewrite eval_push by (done || cbn; unfold MAX_STACK_SIZE; lia).
  assert (Esw : ∀ s, stack s = [h; hash_hash160 c pubkey; pubkey; sig] →
    switch c flags OP_EQUALVERIFY true s =
    if bool_decide (hash_hash160 c pubkey = h) then inr (with_stack s [pubkey; sig]) else inl (error SCRIPT_ERR_EQUALVERIFY)).
  { intros s Es. change (switch c flags OP_EQUALVERIFY true s) with (on_stack (op_equal OP_EQUALVERIFY) s).
    unfold on_stack. rewrite Es. cbn. by destruct (bool_decide _). }
  destruct (bool_decide (hash_hash160 c pubkey = h)).
  2: { by rewrite (eval_op_stop _ _ _ _ _ _ _ _ (error SCRIPT_ERR_EQUALVERIFY)) by (done || by rewrite Esw). }
  rewrite (eval_op _ _ _ _ _ _ _ _ (mk_state [OP_CHECKSIG] code no_conditions [pubkey; sig] [] 3)) by (done || by rewrite Esw).
  assert (Ech : ∀ s, stack s = [pubkey; sig] → pbegincodehash s = code →
    switch c flags OP_CHECKSIG true s = (stk ← op_checksig c flags OP_CHECKSIG code [pubkey; sig]; mret (with_stack s stk))).
  { intros s Es Ep. change (switch c flags OP_CHECKSIG true s) with (on_stack (op_checksig c flags OP_CHECKSIG (pbegincodehash s)) s).
    unfold on_stack. by rewrite Es, Ep. }
  assert (Last : ∀ r, op_checksig c flags OP_CHECKSIG code [pubkey; sig] = r →
    (∀ e, r = inl e → ∃ e', e = error e') → (∀ stk, r = inr stk → (length stk <= 2)%nat) →
    match eval_loop c flags 21 (mk_state [OP_CHECKSIG] code no_conditions [pubkey; sig] [] 3) with
    | inl (throws _) => inl (error SCRIPT_ERR_UNKNOWN_ERROR)
    | inl x => inl x
    | inr s => _ ← require (conditions_empty (vfExec s)) SCRIPT_ERR_UNBALANCED_CONDITIONAL; mret (stack s)
    end = r).
  { intros r Er He Hk. destruct r as [e|stk].
    - rewrite (eval_op_stop _ _ _ _ _ _ _ _ e) by (done || by rewrite Ech, Er). by destruct (He e eq_refl) as (e' & ->).
    - rewrite (eval_op _ _ _ _ _ _ _ _ (mk_state [] code no_conditions stk [] 4)); [done|done..|by rewrite Ech, Er|].
      cbn. apply Nat.leb_le. specialize (Hk stk eq_refl). unfold MAX_STACK_SIZE. lia. }
  etrans; [apply (Last _ eq_refl)|done]; rewrite Hc; unfold mbind, M_bind, mret, M_ret;
    destruct (encoding_cases sig pubkey) as [[E1|(e1 & E1)] [E2|(e2 & E2)]]; rewrite E1, ?E2; intros ?;
    repeat case_match; intros [=]; subst; eauto.
Qed.

Lemma sign_with_push_only sig pubkey :
  (2 <= length sig <= 75)%nat → (2 <= length pubkey <= 75)%nat → IsPushOnly (sign_with sig pubkey) = true.
Proof.
  intros Hs Hp. unfold IsPushOnly, sign_with.
  assert (P : ∀ fuel d rest, (2 <= length d <= 75)%nat →
    IsPushOnly_loop (S fuel) (push_data [] d ++ rest) = IsPushOnly_loop fuel rest).
  { intros fuel d rest Hd. cbn [IsPushOnly_loop]. rewrite GetScriptOp_push by lia. cbn [negb].
    assert (Eo : opcode_of d = Z.of_nat (length d))
      by (unfold opcode_of, OP_PUSHDATA1; by destruct (Z.ltb_spec (Z.of_nat (length d)) 0x4c); [|lia]).
    rewrite Eo. destruct (Z.ltb_spec OP_16 (Z.of_nat (length d))); [unfold OP_16 in *; lia|].
    by rewrite push_data_short by lia. }
  assert (Hl : length (push_data [] sig ++ push_data [] pubkey) = S (S (length sig + length pubkey)))
    by (rewrite !push_data_short by lia; rewrite length_app; cbn [length]; lia).
  rewrite Hl, P by done. rewrite <-(app_nil_r (push_data [] pubkey)), P by done. by destruct (length sig + length pubkey)%nat.
Qed.

End Runs.
(** ** A sample of the parameters: hashes that cut their input, and a signature of a key is the key without its header. *)

Definition cut (n : nat) (v : list Z) : list Z := u8 <$> resize n 0 v.
Definition sample_crypto : Crypto :=
  Build_Crypto (cut 20) (cut 20) (cut 32) (cut 20) (cut 32) (λ key _ sig, bool_decide (sig = drop 1 key)) (λ _, true).
Definition sample_checker : BaseSignatureChecker :=
  Build_BaseSignatureChecker (λ sig key _ _, bool_decide (sig = drop 1 key)) (λ n, n <=? 100) (λ n, n <=? 100).

Lemma cut_ok n v : bytes (cut n v) ∧ length (cut n v) = n.
Proof.
  unfold cut. split; [|by rewrite length_fmap, length_resize]. apply Forall_fmap, Forall_true. intros x. apply byte_u8.
Qed.
Lemma sample_crypto_ok : crypto_ok sample_crypto.
Proof. split; intros v _; apply cut_ok. Qed.

(** ** The theorems *)

(** C14: The interpreter is total and does not crash: on every script of
    bytes, every stack in its limits (at most 1000 elements of at most 520
    bytes) and every set of flags, [EvalScript] ends with a script error or
    with a stack that is again in its limits; no assertion fails, nothing is
    popped from an empty stack or read outside of it, and the loop ends within
    the length of the script; the same holds of [VerifyScript] when CLEANSTACK
    comes with P2SH, which its assertion asks for.  The hash functions are
    assumed to return bytes of their lengths. *)
Theorem interpreter_safe (c : Crypto) `{BaseSignatureChecker} flags :
  crypto_ok c →
  (∀ stk script, stack_ok stk → bytes script →
    (∃ stk', EvalScript c flags stk script = inr stk' ∧ stack_ok stk') ∨ ∃ e, EvalScript c flags stk script = inl (error e)) ∧
  (∀ scriptSig scriptPubKey, bytes scriptSig → bytes scriptPubKey →
    (has flags SCRIPT_VERIFY_CLEANSTACK = true → has flags SCRIPT_VERIFY_P2SH = true) →
    VerifyScript c flags scriptSig scriptPubKey = inr tt ∨ ∃ e, VerifyScript c flags scriptSig scriptPubKey = inl (error e)).
Proof.
  intros Hc. split; [intros stk script; by apply EvalScript_result|]. intros scriptSig scriptPubKey H1 H2 H3.
  pose proof (VerifyScript_fine c flags Hc scriptSig scriptPubKey H1 H2 H3) as HF. unfold fine in HF.
  destruct (VerifyScript _ _ _ _) as [[]|[]]; eauto; done.
Qed.

Lemma interpreter_safe_witness :
  (∃ stk', @EvalScript sample_crypto 1 sample_checker [] [OP_1; OP_IF; OP_ENDIF] = inr stk' ∧ stack_ok stk') ∨
  ∃ e, @EvalScript sample_crypto 1 sample_checker [] [OP_1; OP_IF; OP_ENDIF] = inl (error e).
Proof.
  apply (proj1 (@interpreter_safe sample_crypto sample_checker 1 sample_crypto_ok)).
  - split; [apply Forall_nil_2|]. cbn. lia.
  - apply (bool_decide_unpack _). vm_compute. exact I.
Defined.

Lemma has_mono flags flags' flag : Z.land flags flags' = flags → has flags flag = true → has flags' flag = true.
Proof.
  unfold has. intros E Hf%negb_true_iff%Z.eqb_neq. apply negb_true_iff, Z.eqb_neq. intros E0. apply Hf.
  by rewrite <-E, <-Z.land_assoc, E0, Z.land_0_r.
Qed.

(** C15: The flags are soft forks, as interpreter.h intends: whatever script
    succeeds under a set of flags succeeds, with the same stack, under each
    subset of it, and an input that [VerifyScript] accepts under a set it
    accepts under each subset that has P2SH with CLEANSTACK. *)
Theorem flags_are_soft_forks (c : Crypto) `{BaseSignatureChecker} flags flags' :
  Z.land flags flags' = flags →
  (∀ stk script stk', EvalScript c flags' stk script = inr stk' → EvalScript c flags stk script = inr stk') ∧
  ((has flags SCRIPT_VERIFY_CLEANSTACK = true → has flags SCRIPT_VERIFY_P2SH = true) →
   ∀ scriptSig scriptPubKey,
     VerifyScript c flags' scriptSig scriptPubKey = inr tt → VerifyScript c flags scriptSig scriptPubKey = inr tt).
Proof.
  intros E. assert (Hf : ∀ flag, has flags flag = true → has flags' flag = true) by (intros flag; by apply has_mono).
  split; [intros stk script stk'; by apply EvalScript_narrows|]. intros Hp scriptSig scriptPubKey. by apply VerifyScript_narrows.
Qed.

Lemma flags_are_soft_forks_witness :
  @EvalScript sample_crypto 3 sample_checker [] [OP_1] = inr [[1]] ∧ @EvalScript sample_crypto 1 sample_checker [] [OP_1] = inr [[1]].
Proof.
  split; [vm_compute; reflexivity|].
  apply (proj1 (@flags_are_soft_forks sample_crypto sample_checker 1 3 eq_refl)). vm_compute. reflexivity.
Defined.

(** C17: CHECKMULTISIG with up to 20 keys and no more signatures than keys, of
    encodings that the flags ask for, with an extra element that is empty when
    NULLDUMMY is set, within the limit on operations, and where dropping the
    signatures from the script code gives no error: the operation takes the
    counts, the keys, the signatures and the extra element from the stack and
    leaves true exactly when the signatures fit, in order, a subsequence of
    the keys, although the loop gives up as soon as more signatures than keys
    are left; it charges one operation per key, and under NULLFAIL a failure
    with a signature that is not empty is an error. *)
Theorem checkmultisig_correct (c : Crypto) `{BaseSignatureChecker} flags opcode code code' keys sigs dummy rest nOps :
  let stk := multisig_stack keys sigs dummy rest in
  (length sigs <= length keys <= 20)%nat → nOps + Z.of_nat (length keys) <= MAX_OPS_PER_SCRIPT → encoded c flags sigs keys →
  (has flags SCRIPT_VERIFY_NULLDUMMY = true → dummy = []) →
  drop_signatures flags (length sigs) stk (length keys + 3) code = inr code' →
  ∃ r, (r = true ↔ signed_by (λ s k, CheckSig s k code' BASE) sigs keys) ∧
    op_checkmultisig c flags opcode code stk nOps =
    if negb r && has flags SCRIPT_VERIFY_NULLFAIL && existsb (λ v, negb (length v =? 0)%nat) sigs
    then inl (error SCRIPT_ERR_SIG_NULLFAIL)
    else stk ← verify_form (opcode =? OP_CHECKMULTISIGVERIFY) r SCRIPT_ERR_CHECKMULTISIGVERIFY (vch_of r :: rest);
         mret (stk, nOps + Z.of_nat (length keys)).
Proof.
  intros stk Hl Hops He Hd Hdrop. exists (matches (λ s k, CheckSig s k code' BASE) sigs keys).
  split; [apply matches_spec|]. by apply op_checkmultisig_ok.
Qed.

Lemma checkmultisig_correct_witness :
  ∃ r, (r = true ↔ signed_by (λ s k, @CheckSig sample_checker s k [OP_CHECKMULTISIG] BASE) [[1]; [3]] [[2; 1]; [2; 2]; [2; 3]]) ∧
  @op_checkmultisig sample_crypto 0 sample_checker OP_CHECKMULTISIG [OP_CHECKMULTISIG]
    (multisig_stack [[2; 1]; [2; 2]; [2; 3]] [[1]; [3]] [] []) 0 = inr ([vch_of r], 3).
Proof.
  destruct (@checkmultisig_correct sample_crypto sample_checker 0 OP_CHECKMULTISIG [OP_CHECKMULTISIG] [OP_CHECKMULTISIG]
    [[2; 1]; [2; 2]; [2; 3]] [[1]; [3]] [] [] 0) as (r & Hr & E).
  - cbn. lia.
  - unfold MAX_OPS_PER_SCRIPT. cbn. lia.
  - split; repeat apply Forall_cons_2; try reflexivity; apply Forall_nil_2.
  - reflexivity.
  - vm_compute. reflexivity.
  - exists r. split; [exact Hr|]. etransitivity; [exact E|]. destruct r; reflexivity.
Defined.

(** C21: An output that [IsUnspendable] finds, whose script starts with
    OP_RETURN or is too long, fails on every stack and under every set of
    flags, so no input unlocks it: dropping it from the set of coins loses
    nothing. *)
Theorem unspendable_outputs (c : Crypto) `{BaseSignatureChecker} flags scriptPubKey :
  IsUnspendable scriptPubKey = true →
  (∀ stk, ∃ e, EvalScript c flags stk scriptPubKey = inl (error e)) ∧
  (∀ scriptSig, VerifyScript c flags scriptSig scriptPubKey ≠ inr tt).
Proof.
  intros Hu. split; [intros stk; by apply unspendable_fails|]. intros scriptSig. unfold VerifyScript, mbind, M_bind.
  destruct (require _ _); [done|]. destruct (EvalScript c flags [] scriptSig) as [|stk]; [done|].
  by destruct (unspendable_fails c flags scriptPubKey stk Hu) as (e & ->).
Qed.

Lemma unspendable_outputs_witness :
  ∃ e, @EvalScript sample_crypto 0 sample_checker [[1]] [OP_RETURN; 1; 7] = inl (error e).
Proof. apply (proj1 (@unspendable_outputs sample_crypto sample_checker 0 [OP_RETURN; 1; 7] eq_refl)). Defined.

Lemma checksig_success (c : Crypto) `{BaseSignatureChecker} flags sig pubkey h :
  length h = 20%nat → (2 <= length sig <= 75)%nat → length sig ≠ 20%nat →
  let r := op_checksig c flags OP_CHECKSIG (pay_to_pubkey_hash h) [pubkey; sig] in
  (r = inr [vchTrue] ↔
    CheckSignatureEncoding c flags sig = inr tt ∧ CheckPubKeyEncoding flags pubkey = inr tt ∧
    CheckSig sig pubkey (pay_to_pubkey_hash h) BASE = true) ∧
  (∀ stk, r = inr stk → stk = [vchTrue] ∨ stk = [vchFalse]).
Proof.
  intros Hh Hs Hne r. subst r. rewrite checksig_runs by done. unfold mbind, M_bind, mret, M_ret.
  destruct (CheckSignatureEncoding c flags sig) as [|[]]; [naive_solver|].
  destruct (CheckPubKeyEncoding flags pubkey) as [|[]]; [naive_solver|].
  destruct (CheckSig _ _ _ _); [naive_solver|]. destruct (has flags SCRIPT_VERIFY_NULLFAIL); naive_solver.
Qed.

(** C16: Payment to a public-key hash: for every set of flags (with P2SH when
    CLEANSTACK is in it), the pushes of a signature and a key (each of 2 to 75
    bytes, the signature not of 20 bytes, for which the script code could lose
    the push of the hash) unlock the output script of a 20-byte hash exactly
    when the key has that hash, the encodings are those that the flags ask
    for, and the checker accepts the signature for the output script. *)
Theorem pay_to_pubkey_hash_correct (c : Crypto) `{BaseSignatureChecker} flags sig pubkey h :
  length h = 20%nat → (2 <= length sig <= 75)%nat → length sig ≠ 20%nat → (2 <= length pubkey <= 75)%nat →
  (has flags SCRIPT_VERIFY_CLEANSTACK = true → has flags SCRIPT_VERIFY_P2SH = true) →
  VerifyScript c flags (sign_with sig pubkey) (pay_to_pubkey_hash h) = inr tt ↔
  hash_hash160 c pubkey = h ∧ CheckSignatureEncoding c flags sig = inr tt ∧ CheckPubKeyEncoding flags pubkey = inr tt ∧
  CheckSig sig pubkey (pay_to_pubkey_hash h) BASE = true.
Proof.
  intros Hh Hs Hne Hp Hclean. destruct (checksig_success c flags sig pubkey h Hh Hs Hne) as [<- Hr]. unfold VerifyScript.
  rewrite sign_with_push_only, sign_with_runs by done. unfold mbind at 2, M_bind at 2. cbn beta iota zeta. rewrite output_runs by done.
  assert (E : IsPayToScriptHash (pay_to_pubkey_hash h) = false) by (unfold IsPayToScriptHash; by rewrite andb_false_r).
  rewrite E, !andb_false_r. unfold mbind, M_bind, mret, M_ret. cbn [negb require].
  case_bool_decide as Eh; cbn [require]; [|naive_solver].
  destruct (op_checksig _ _ _ _ _) as [|stk]; [naive_solver|].
  destruct (Hr stk eq_refl) as [-> | ->]; cbn; [|naive_solver].
  destruct (has flags SCRIPT_VERIFY_CLEANSTACK); [rewrite (Hclean eq_refl)|]; naive_solver.
Qed.

Lemma pay_to_pubkey_hash_correct_witness :
  @VerifyScript sample_crypto 1 sample_checker (sign_with [7; 1] [2; 7; 1])
    (pay_to_pubkey_hash (hash_hash160 sample_crypto [2; 7; 1])) = inr tt.
Proof.
  apply (@pay_to_pubkey_hash_correct sample_crypto sample_checker 1).
  - reflexivity.
  - cbn. lia.
  - discriminate.
  - cbn. lia.
  - discriminate.
  - split; [reflexivity|]. split; [reflexivity|]. split; reflexivity.
Defined.

End Interpreter.
