(* ===== verification/ScriptHashes.v ===== *)
(** * The hash operations of scripts: script/interpreter.cpp over crypto/ and hash.h

    The interpreter takes its hash functions from the record [Crypto]; here it
    gets the hashers of the repository, with what uninitialised memory holds as
    an argument.  They keep the promise [crypto_ok] that the interpreter's
    theorems rest on, and the operations on the stack compute the standard
    functions. *)
From S2P Require Import Prelude SphTypes Serialize Sha256 Hashers Hash160 Script Interpreter.

Module ScriptHashes.
Import Script Interpreter.

Section Functions.
Context (im : Sha256.Impl) (buf0 buf1 tmp : list Z) (verify : list Z → list Z → list Z → bool) (low_s : list Z → bool).

(** [valtype vchHash(20)] and [valtype vchHash(32)]: zeros. *)
Definition vchHash (n : nat) : list Z := replicate n 0.
Definition script_ripemd160 (vch : list Z) : list Z :=
  snd (Hash160.CRIPEMD160_Finalize (Hash160.CRIPEMD160_Write (Hash160.CRIPEMD160_new buf0) vch) (vchHash 20)).
Definition script_sha1 (vch : list Z) : list Z :=
  snd (Hash160.CSHA1_Finalize (Hash160.CSHA1_Write (Hash160.CSHA1_new buf0) vch) (vchHash 20)).
Definition script_sha256 (vch : list Z) : list Z :=
  snd (Sha256.Finalize im (Sha256.Write im (Sha256.CSHA256_new buf0) vch) (vchHash 32)).
(** [None], a failed assertion, does not happen: the size is 20, or 32. *)
Definition script_hash160 (vch : list Z) : list Z :=
  match Hash160.CHash160_Finalize im (Hash160.CHash160_Write im (Sha256.CSHA256_new buf0) vch) (vchHash 20) tmp buf1 with
  | Some (_, h) => h
  | None => []
  end.
Definition script_hash256 (vch : list Z) : list Z :=
  match Sha256.CHash256_Finalize im (Sha256.CHash256_Write im (Sha256.CSHA256_new buf0) vch) (vchHash 32) tmp with
  | Some (_, h) => h
  | None => []
  end.
Definition dash_crypto : Crypto :=
  Build_Crypto script_ripemd160 script_sha1 script_sha256 script_hash160 script_hash256 verify low_s.
End Functions.

Lemma script_hashes im buf0 buf1 tmp v :
  Sha256.impl_ok im → length buf0 = 64%nat → length buf1 = 64%nat → length tmp = 32%nat → element v →
  script_ripemd160 buf0 v = Hash160.ripemd160 v ∧ script_sha1 buf0 v = Hash160.sha1 v ∧
  script_sha256 im buf0 v = Sha256.sha256 v ∧ script_hash160 im buf0 buf1 tmp v = Hash160.hash160 v ∧
  script_hash256 im buf0 tmp v = Sha256.sha256d v.
Proof.
  intros Him Hb0 Hb1 Ht [Hv Hl]. unfold MAX_SCRIPT_ELEMENT_SIZE in Hl.
  assert (E : concat [v] = v) by apply app_nil_r.
  assert (HF : Forall bytes [v]) by (apply Forall_cons_2; [done|apply Forall_nil_2]).
  assert (Hlt : 8 * Z.of_nat (length (concat [v])) < 2 ^ 64) by (rewrite E; lia).
  assert (R : Hashers.has_read (Sha256.Write im (Sha256.CSHA256_new buf0) v) v).
  { rewrite <-E at 2. apply (Hashers.writes_ok im Him [v] _ []); [by apply Hashers.CSHA256_new_ok|done|cbn [app]; lia]. }
  rewrite E in Hlt. split; [|split; [|split; [|split]]].
  - etrans; [apply (Hash160.CRIPEMD160_writes buf0 [v]); rewrite ?E; done|by rewrite E].
  - etrans; [apply (Hash160.CSHA1_writes buf0 [v]); rewrite ?E; done|by rewrite E].
  - pose proof (Hashers.Finalize_ok im Him _ _ (vchHash 32) R Hlt eq_refl) as F. unfold script_sha256.
    destruct (Sha256.Finalize im _ _) as [c h]. apply F.
  - destruct (Hash160.CHash160_ok im buf0 buf1 [v] (vchHash 20) tmp) as (c & F); [done..|by rewrite E|].
    unfold script_hash160. rewrite E in F. cbn [fold_left] in F. by rewrite F.
  - destruct (Hashers.CHash256_ok im Him _ _ (vchHash 32) tmp R Hlt eq_refl Ht) as (c & F).
    unfold script_hash256, Sha256.CHash256_Write. by rewrite F.
Qed.

Lemma dash_crypto_ok im buf0 buf1 tmp verify low_s :
  Sha256.impl_ok im → length buf0 = 64%nat → length buf1 = 64%nat → length tmp = 32%nat →
  crypto_ok (dash_crypto im buf0 buf1 tmp verify low_s).
Proof.
  intros Him Hb0 Hb1 Ht.
  split; intros v Hv; destruct (script_hashes im buf0 buf1 tmp v Him Hb0 Hb1 Ht Hv) as (E1 & E2 & E3 & E4 & E5);
    unfold dash_crypto; cbn [hash_ripemd160 hash_sha1 hash_sha256 hash_hash160 hash_hash256];
    rewrite ?E1, ?E2, ?E3, ?E4, ?E5; unfold Hash160.hash160, Sha256.sha256d;
    (split; first [apply Sha256.bytes_sha256|apply Sha256.length_sha256|apply Hash160.hash160_ok]).
Qed.

(** C22: The hash operations of scripts with the hashers of the repository: on
    every stack element, OP_RIPEMD160, OP_SHA1, OP_SHA256, OP_HASH160 and
    OP_HASH256 replace it by the standard hash, whatever uninitialised memory
    holds and with every block function of SHA-256 that keeps its promise, and
    the functions keep the promise on which the interpreter's safety rests. *)
Theorem script_hashes_correct im buf0 buf1 tmp verify low_s :
  Sha256.impl_ok im → length buf0 = 64%nat → length buf1 = 64%nat → length tmp = 32%nat →
  let c := dash_crypto im buf0 buf1 tmp verify low_s in
  crypto_ok c ∧
  ∀ v stk, element v →
    op_hash c OP_RIPEMD160 (v :: stk) = inr (Hash160.ripemd160 v :: stk) ∧
    op_hash c OP_SHA1 (v :: stk) = inr (Hash160.sha1 v :: stk) ∧
    op_hash c OP_SHA256 (v :: stk) = inr (Sha256.sha256 v :: stk) ∧
    op_hash c OP_HASH160 (v :: stk) = inr (Hash160.ripemd160 (Sha256.sha256 v) :: stk) ∧
    op_hash c OP_HASH256 (v :: stk) = inr (Sha256.sha256 (Sha256.sha256 v) :: stk).
Proof.
  intros Him Hb0 Hb1 Ht c. split; [by apply dash_crypto_ok|]. intros v stk Hv.
  destruct (script_hashes im buf0 buf1 tmp v Him Hb0 Hb1 Ht Hv) as (E1 & E2 & E3 & E4 & E5).
  unfold Hash160.hash160, Sha256.sha256d in *. rewrite <-E1, <-E2, <-E3 at 1. rewrite <-E4, <-E5. done.
Qed.

Lemma script_hashes_correct_witness :
  crypto_ok (dash_crypto Sha256.standard (replicate 64 7) (replicate 64 9) (replicate 32 3) (λ _ _ _, true) (λ _, true)).
Proof.
  exact (proj1 (script_hashes_correct Sha256.standard (replicate 64 7) (replicate 64 9) (replicate 32 3) (λ _ _ _, true) (λ _, true)
    Sha256.standard_ok eq_refl eq_refl eq_refl)).
Defined.

End ScriptHashes.
