(* ===== verification/BitSet.v ===== *)
(** The bit-set formats of [src/serialize.h] (fixed, as VarInt offsets,
    whichever is smaller, and with a size in front), and the message
    [CSigSharesInv] of [src/llmq/signing_shares.h] that carries one.

    [ReadFixedVarIntsBitSet] writes to the index it computes from the offset
    without ruling out that the index is negative: [varints_write_outside] gives
    the inputs for which the vector is written outside of its bounds. *)
From S2P Require Import Prelude SphTypes Serialize.

Section Code.
Context {S : Type} `{!Writer S} `{!Reader S}.

(** ** Fixed size: one bit per entry *)

Definition GetSizeOfFixedBitSet (size : nat) : nat := (size + 7) / 8.

(** The loop of [WriteFixedBitSet]. *)
Definition pack_bits (vec : list bool) (size : nat) : list Z :=
  fold_left (λ vBytes p,
      <[(p / 8)%nat := Z.lor (vBytes @@ (p / 8)) (Z.b2z (nth p vec false) ≪ Z.of_nat (p mod 8))]> vBytes)
    (seq 0 (Nat.min size (length vec))) (replicate ((size + 7) / 8) 0).

Definition WriteFixedBitSet (s : S) (vec : list bool) (size : nat) : S := write s (pack_bits vec size).

Definition ReadFixedBitSet (size : nat) : parser S (list bool) :=
  let! vBytes := (λ s, read s ((size + 7) / 8)) in
  let vec := (λ p, negb (Z.land (vBytes @@ (p / 8)) (1 ≪ Z.of_nat (p mod 8)) =? 0)) <$> seq 0 size in
  if (length vBytes * 8 =? size)%nat then ret vec
  else
    let rem := (length vBytes * 8 - size)%nat in
    let m := u8 (Z.lnot (0xFF ≫ Z.of_nat rem)) in
    if Z.land (vBytes @@ (length vBytes - 1)) m =? 0 then ret vec else throw out_of_range_bits.

(** ** As offsets from one set bit to the next *)

Definition WriteFixedVarIntsBitSet (s : S) (vec : list bool) (size : nat) : S :=
  let '(s, _) := fold_left (λ '(s, last) i,
      if nth i vec false then (WriteVarInt 32 s ((Z.of_nat i - last) mod 2 ^ 32), Z.of_nat i)
      else (s, last)) (seq 0 (length vec)) (s, -1) in
  WriteVarInt 32 s 0.

(** [vec[idx] = true]: outside of the vector the behaviour is undefined. *)
Definition set_bit (vec : list bool) (idx : Z) : parser S (list bool) :=
  if (0 <=? idx) && (idx <? Z.of_nat (length vec)) then ret (<[Z.to_nat idx := true]> vec)
  else throw write_outside_vector.

Fixpoint read_offsets (fuel : nat) (vec : list bool) (size : nat) (last : Z) : parser S (list bool) :=
  match fuel with
  | O => throw out_of_fuel
  | Datatypes.S fuel =>
      let! offset := ReadVarInt 32 in
      if offset =? 0 then ret vec else
      let idx := to_signed 32 ((last + offset) mod 2 ^ 32) in
      if to_signed 32 (Z.of_nat size mod 2 ^ 32) <=? idx then throw out_of_bounds_index
      else if negb (last =? -1) && (idx <=? last) then throw offset_overflow
      else let! vec := set_bit vec idx in read_offsets fuel vec size idx
  end.

(** Every turn but the last sets a bit above the bits set before. *)
Definition ReadFixedVarIntsBitSet (size : nat) : parser S (list bool) :=
  read_offsets (size + 2) (replicate size false) size (-1).

(** ** With a size in front *)

Definition DynamicBitSet_Ser (s : S) (vec : list bool) : S :=
  WriteFixedBitSet (WriteCompactSize s (Z.of_nat (length vec))) vec (length vec).
Definition DynamicBitSet_Unser : parser S (list bool) :=
  let! size := ReadCompactSize true in ReadFixedBitSet (Z.to_nat size).

End Code.

(** ** Whichever of the two is smaller *)

(** The stream that counts bytes. *)
Record CSizeComputer := mk_size { nSize : nat }.
#[export] Instance CSizeComputer_writer : Writer CSizeComputer :=
  λ s src, mk_size (nSize s + length src).

Section Auto.
Context {S : Type} `{!Writer S} `{!Reader S}.

(** [None] is a failed assertion. *)
Definition WriteAutoBitSet (s : S) (vec : list bool) (size : nat) : option S :=
  if negb (length vec =? size)%nat then None else
  let size1 := nSize (WriteFixedBitSet (mk_size 0) vec size) in
  let size2 := nSize (WriteFixedVarIntsBitSet (mk_size 0) vec (length vec)) in
  if negb (size1 =? GetSizeOfFixedBitSet size)%nat then None else
  Some (if (size1 <? size2)%nat then WriteFixedBitSet (ser_writedata8 s 0) vec (length vec)
        else WriteFixedVarIntsBitSet (ser_writedata8 s 1) vec (length vec)).

Definition ReadAutoBitSet (size : nat) : parser S (list bool) :=
  let! isVarInts := ser_readdata8 in
  if negb (isVarInts =? 0) && negb (isVarInts =? 1) then throw invalid_isVarInts
  else if isVarInts =? 0 then ReadFixedBitSet size else ReadFixedVarIntsBitSet size.

(** ** CSigSharesInv *)

Record CSigSharesInv := mk_inv { sessionId : Z; inv : list bool }.

Definition CSigSharesInv_Serialize (s : S) (obj : CSigSharesInv) : option S :=
  let s := WriteVarInt 32 s (sessionId obj) in
  let s := WriteCompactSize s (Z.of_nat (length (inv obj))) in
  WriteAutoBitSet s (inv obj) (length (inv obj)).

Definition CSigSharesInv_Unserialize : parser S CSigSharesInv :=
  let! sessionId := ReadVarInt 32 in
  let! invSize := ReadCompactSize true in
  let! bitset := ReadAutoBitSet (Z.to_nat invSize) in
  ret (mk_inv sessionId bitset).
End Auto.

(** ** The fixed format *)

Lemma land_bit x k : 0 <= k → negb (Z.land x (1 ≪ k) =? 0) = Z.testbit x k.
Proof.
  intros Hk. assert (E : Z.land x (1 ≪ k) = if Z.testbit x k then 1 ≪ k else 0).
  { apply Z.bits_inj'. intros i Hi. rewrite Z.land_spec, Z.shiftl_1_l, Z.pow2_bits_eqb by lia.
    destruct (Z.eqb_spec k i) as [->|Hne].
    - destruct (Z.testbit x i); [by rewrite Z.pow2_bits_true by lia|by rewrite Z.bits_0].
    - rewrite andb_false_r. destruct (Z.testbit x k); [by rewrite Z.pow2_bits_false by lia|by rewrite Z.bits_0]. }
  rewrite E. destruct (Z.testbit x k); [|done]. rewrite Z.shiftl_1_l. destruct (Z.eqb_spec (2 ^ k) 0); lia.
Qed.

Lemma testbit_b2z_off b i : i ≠ 0 → Z.testbit (Z.b2z b) i = false.
Proof. intros Hi. destruct b; [exact (Z.pow2_bits_false 0 i ltac:(lia))|apply Z.bits_0]. Qed.

(** The bits of the packed bytes after [k] turns of the loop. *)
Lemma pack_loop_bits vec nb k :
  (k <= 8 * nb)%nat →
  let l := fold_left (λ vBytes p,
      <[(p / 8)%nat := Z.lor (vBytes @@ (p / 8)) (Z.b2z (nth p vec false) ≪ Z.of_nat (p mod 8))]> vBytes)
    (seq 0 k) (replicate nb 0) in
  length l = nb ∧ bytes l ∧
  ∀ j i, (j < nb)%nat →
    Z.testbit (l @@ j) (Z.of_nat i) = (i <? 8)%nat && (8 * j + i <? k)%nat && nth (8 * j + i) vec false.
Proof.
  induction k as [|k IH]; intros Hk.
  { cbn [seq fold_left]. split; [apply length_replicate|].
    split; [apply Forall_replicate; unfold word; lia|]. intros j i Hj.
    assert (E0 : replicate nb 0 @@ j = 0) by (apply at_lookup; by apply lookup_replicate_2).
    rewrite E0, Z.bits_0. symmetry.
    replace (8 * j + i <? 0)%nat with false by (symmetry; apply Nat.ltb_ge; lia). by rewrite andb_false_r. }
  rewrite seq_S, fold_left_app. cbn [Nat.add fold_left]. destruct (IH ltac:(lia)) as (Hl & Hb & IHk). clear IH.
  set (l := fold_left _ _ _) in *. clearbody l.
  pose proof (Nat.div_mod_eq k 8) as Ek. pose proof (Nat.mod_upper_bound k 8 ltac:(lia)) as Hm.
  split; [by rewrite length_insert|]. split.
  { apply Forall_insert; [done|]. apply word_lor; [lia|apply words_at; [lia|done]|].
    destruct (nth k vec false); [|rewrite Z.shiftl_0_l; unfold word; lia]. rewrite Z.shiftl_1_l. unfold word.
    split; [lia|]. apply Z.pow_lt_mono_r; lia. }
  intros j i Hj.
  rewrite at_insert by (rewrite Hl; apply Nat.Div0.div_lt_upper_bound; lia).
  destruct (Nat.eqb_spec j (k / 8)) as [->|Hne].
  - rewrite Z.lor_spec, (IHk _ i) by done. rewrite Z.shiftl_spec by lia.
    destruct (decide (i = k mod 8)%nat) as [->|Hi].
    + rewrite Z.sub_diag, <-Ek. replace (k <? k)%nat with false by (symmetry; apply Nat.ltb_irrefl).
      replace (k mod 8 <? 8)%nat with true by (symmetry; by apply Nat.ltb_lt).
      replace (k <? Datatypes.S k)%nat with true by (symmetry; apply Nat.ltb_lt; lia).
      cbn [andb orb]. by destruct (nth k vec false).
    + rewrite testbit_b2z_off by lia. rewrite orb_false_r. do 2 f_equal.
      destruct (Nat.ltb_spec (8 * (k / 8) + i) k), (Nat.ltb_spec (8 * (k / 8) + i) (Datatypes.S k)); lia || done.
  - rewrite IHk by done. destruct (Nat.ltb_spec i 8); [|done]. cbn [andb]. f_equal.
    destruct (Nat.ltb_spec (8 * j + i) k), (Nat.ltb_spec (8 * j + i) (Datatypes.S k)); lia || done.
Qed.

Lemma pack_bits_spec vec :
  let nb := ((length vec + 7) / 8)%nat in
  length (pack_bits vec (length vec)) = nb ∧ bytes (pack_bits vec (length vec)) ∧
  ∀ j i, (j < nb)%nat → (i < 8)%nat →
    Z.testbit (pack_bits vec (length vec) @@ j) (Z.of_nat i) = nth (8 * j + i) vec false.
Proof.
  intros nb. unfold pack_bits. rewrite Nat.min_id. fold nb.
  assert (Hn : (length vec <= 8 * nb)%nat).
  { subst nb. pose proof (Nat.div_mod_eq (length vec + 7) 8).
    pose proof (Nat.mod_upper_bound (length vec + 7) 8 ltac:(lia)). lia. }
  destruct (pack_loop_bits vec nb (length vec) Hn) as (Hl & Hbytes & Hb).
  set (l := fold_left _ _ _) in *. clearbody l. split; [done|]. split; [done|].
  assert (Hk : ∀ j i, (j < nb)%nat → Z.testbit (l @@ j) (Z.of_nat i) = (i <? 8)%nat && nth (8 * j + i) vec false).
  { intros j i Hj. rewrite Hb by done. rewrite <-andb_assoc. f_equal.
    destruct (Nat.ltb_spec (8 * j + i) (length vec)); [done|]. by rewrite nth_overflow. }
  intros j i Hj Hi. rewrite Hk by done. by replace (i <? 8)%nat with true by (symmetry; by apply Nat.ltb_lt).
Qed.

(** The bytes that [ReadFixedBitSet] accepts: those that pack the bits it returns. *)
Definition unpack_bits (vBytes : list Z) (size : nat) : list bool :=
  (λ p, Z.testbit (vBytes @@ (p / 8)) (Z.of_nat (p mod 8))) <$> seq 0 size.

Lemma byte_index p n : (p < n)%nat → (p / 8 < (n + 7) / 8)%nat.
Proof.
  intros Hp. pose proof (Nat.div_mod_eq p 8). pose proof (Nat.div_mod_eq (n + 7) 8).
  pose proof (Nat.mod_upper_bound p 8 ltac:(lia)). pose proof (Nat.mod_upper_bound (n + 7) 8 ltac:(lia)). lia.
Qed.

Lemma unpack_pack_bits vec : unpack_bits (pack_bits vec (length vec)) (length vec) = vec.
Proof.
  destruct (pack_bits_spec vec) as (Hl & _ & Hb). unfold unpack_bits. apply list_eq. intros p.
  destruct (decide (p < length vec)%nat) as [Hp|Hp].
  - rewrite list_lookup_fmap, lookup_seq_lt by done. cbn [fmap option_fmap option_map Nat.add].
    pose proof (Nat.div_mod_eq p 8). pose proof (Nat.mod_upper_bound p 8 ltac:(lia)).
    rewrite Hb by (by apply byte_index || lia).
    replace (8 * (p / 8) + p mod 8)%nat with p by lia.
    destruct (lookup_lt_is_Some_2 vec p Hp) as [b Eb]. rewrite Eb. by rewrite (nth_lookup_Some _ _ _ _ Eb).
  - rewrite !lookup_ge_None_2; [done|lia|]. rewrite length_fmap, length_seq. lia.
Qed.

(** The check of the bits above the size. *)
Definition spare_ok (vBytes : list Z) (size : nat) : bool :=
  (length vBytes * 8 =? size)%nat ||
  (Z.land (vBytes @@ (length vBytes - 1)) (u8 (Z.lnot (0xFF ≫ Z.of_nat (length vBytes * 8 - size)))) =? 0).

Lemma spare_mask rem i :
  (rem <= 8)%nat → (i < 8)%nat →
  Z.testbit (u8 (Z.lnot (0xFF ≫ Z.of_nat rem))) (Z.of_nat i) = (8 - rem <=? i)%nat.
Proof.
  intros Hr Hi. do 9 (destruct rem as [|rem]; [do 8 (destruct i as [|i]; [reflexivity|]); lia|]). lia.
Qed.

Lemma spare_ok_spec vBytes size :
  bytes vBytes → length vBytes = ((size + 7) / 8)%nat →
  spare_ok vBytes size = true ↔
  ∀ p, (size <= p < 8 * length vBytes)%nat →
    Z.testbit (vBytes @@ (p / 8)) (Z.of_nat (p mod 8)) = false.
Proof.
  intros Hb Hl. pose proof (Nat.div_mod_eq (size + 7) 8). pose proof (Nat.mod_upper_bound (size + 7) 8 ltac:(lia)).
  unfold spare_ok. destruct (Nat.eqb_spec (length vBytes * 8) size) as [E|E]; cbn [orb].
  { split; [|done]. intros _ p Hp. lia. }
  set (rem := (length vBytes * 8 - size)%nat). assert (Hr : (0 < rem < 8)%nat) by lia.
  set (m := u8 _). set (x := vBytes @@ (length vBytes - 1)).
  assert (Hx : byte x) by (apply words_at; [lia|done]).
  assert (Hp : ∀ p, (size <= p < 8 * length vBytes)%nat →
    (p / 8 = length vBytes - 1)%nat ∧ (8 - rem <= p mod 8)%nat).
  { intros p Hp. pose proof (Nat.div_mod_eq p 8). pose proof (Nat.mod_upper_bound p 8 ltac:(lia)). lia. }
  rewrite Z.eqb_eq. split.
  - intros E0 p Hpp. destruct (Hp p Hpp) as [-> Hm]. fold x.
    pose proof (Nat.mod_upper_bound p 8 ltac:(lia)).
    assert (Hbit : Z.testbit (Z.land x m) (Z.of_nat (p mod 8)) = false) by (rewrite E0; apply Z.bits_0).
    rewrite Z.land_spec in Hbit. unfold m in Hbit. rewrite spare_mask in Hbit by lia.
    replace (8 - rem <=? p mod 8)%nat with true in Hbit by (symmetry; apply Nat.leb_le; lia).
    by rewrite andb_true_r in Hbit.
  - intros Hz. apply (word_ext 8); [by apply word_land_l|unfold word; lia|]. intros i Hi.
    rewrite Z.bits_0, Z.land_spec. rewrite <-(Z2Nat.id i) by lia. unfold m. rewrite spare_mask by lia.
    destruct (Nat.leb_spec (8 - rem) (Z.to_nat i)); [|by rewrite andb_false_r].
    rewrite andb_true_r. specialize (Hz (8 * (length vBytes - 1) + Z.to_nat i)%nat ltac:(lia)).
    rewrite (Nat.mul_comm 8), Nat.div_add_l, (Nat.add_comm (_ * 8)), Nat.Div0.mod_add in Hz by lia.
    by rewrite Nat.div_small, Nat.mod_small, Nat.add_0_r in Hz by lia.
Qed.

Lemma pack_unpack vBytes size :
  bytes vBytes → length vBytes = ((size + 7) / 8)%nat → spare_ok vBytes size = true →
  pack_bits (unpack_bits vBytes size) size = vBytes.
Proof.
  intros Hb Hl Hs. assert (Hu : length (unpack_bits vBytes size) = size).
  { unfold unpack_bits. by rewrite length_fmap, length_seq. }
  destruct (pack_bits_spec (unpack_bits vBytes size)) as (Hl' & Hb' & Hbit). rewrite Hu in *.
  apply at_ext; [congruence|]. intros j Hj. rewrite Hl' in Hj.
  apply (word_ext 8); [apply words_at; [lia|done]|apply words_at; [lia|done]|]. intros i Hi.
  rewrite <-(Z2Nat.id i) by lia. set (k := Z.to_nat i). assert (Hk : (k < 8)%nat) by lia. rewrite Hbit by done.
  assert (Hd : ((8 * j + k) / 8 = j ∧ (8 * j + k) mod 8 = k)%nat).
  { rewrite (Nat.mul_comm 8), Nat.div_add_l, (Nat.add_comm (j * 8)), Nat.Div0.mod_add by lia.
    by rewrite Nat.div_small, Nat.mod_small, Nat.add_0_r by lia. }
  destruct (decide (8 * j + k < size)%nat) as [Hlt|Hge].
  - apply nth_lookup_Some. unfold unpack_bits. rewrite list_lookup_fmap, lookup_seq_lt by done.
    cbn [fmap option_fmap option_map Nat.add]. by destruct Hd as [-> ->].
  - rewrite nth_overflow by lia. symmetry.
    pose proof (proj1 (spare_ok_spec vBytes size Hb Hl) Hs (8 * j + k)%nat ltac:(lia)) as H0.
    by destruct Hd as [Hd1 Hd2]; rewrite Hd1, Hd2 in H0.
Qed.

(** ** The offsets *)

(** What [WriteFixedVarIntsBitSet] writes for the bits from position [i] on. *)
Fixpoint offset_bytes (last : Z) (i : nat) (vec : list bool) : list Z :=
  match vec with
  | [] => varint_bytes 32 0
  | true :: r => varint_bytes 32 (Z.of_nat i - last) ++ offset_bytes (Z.of_nat i) (Datatypes.S i) r
  | false :: r => offset_bytes last (Datatypes.S i) r
  end.

Section Formats.
Context {S : Type} `{!Writer S} `{!Reader S} {wok rok : S → Prop} {out rest : S → list Z}.
Context `{W : !WriterLaws S wok out} `{R : !ReaderLaws S rok rest}.
#[local] Abbreviation puts := (puts (wok := wok) (out := out)).
#[local] Abbreviation gets := (gets (rok := rok) (rest := rest)).
#[local] Abbreviation fails := (fails (rok := rok) (rest := rest)).
#[local] Abbreviation takes := (takes (rok := rok) (rest := rest)).

Lemma ReadFixedBitSet_eq size (s : S) :
  ReadFixedBitSet size s =
  (let! vBytes := (λ s, read s ((size + 7) / 8)) in
   if spare_ok vBytes size then ret (unpack_bits vBytes size) else throw out_of_range_bits) s.
Proof.
  unfold ReadFixedBitSet, pbind. destruct (read s _) as [|[v s']]; [done|]. cbv zeta. unfold spare_ok.
  assert (E : ∀ v, (λ p, negb (Z.land (v @@ (p / 8)) (1 ≪ Z.of_nat (p mod 8)) =? 0)) <$> seq 0 size =
                   unpack_bits v size).
  { intros v'. apply list_fmap_ext. intros i p _. apply land_bit. lia. }
  rewrite E. destruct (length v * 8 =? size)%nat; [done|]. by destruct (Z.land _ _ =? 0).
Qed.

Lemma ReadFixedBitSet_gets vec : gets (ReadFixedBitSet (length vec)) (pack_bits vec (length vec)) vec.
Proof.
  apply (gets_ext _ _ _ _ (ReadFixedBitSet_eq (length vec))).
  destruct (pack_bits_spec vec) as (Hl & Hb & Hbit).
  apply gets_bind_nil with (pack_bits vec (length vec)); [by apply gets_read|].
  rewrite (proj2 (spare_ok_spec _ _ Hb Hl)); [rewrite unpack_pack_bits; apply gets_ret|].
  intros p Hp. pose proof (Nat.div_mod_eq p 8). pose proof (Nat.mod_upper_bound p 8 ltac:(lia)).
  rewrite Hbit by lia. apply nth_overflow. lia.
Qed.

Lemma ReadFixedBitSet_takes size :
  takes (ReadFixedBitSet size) (λ vec b, b = pack_bits vec size ∧ length vec = size).
Proof.
  apply (takes_ext _ _ _ (ReadFixedBitSet_eq size)).
  apply takes_bind with (1 := takes_read (R := R) ((size + 7) / 8)). intros v b Hb [-> Hl].
  destruct (spare_ok v size) eqn:E; [|apply takes_throw]. apply takes_ret. rewrite app_nil_r.
  split; [by rewrite pack_unpack|]. unfold unpack_bits. by rewrite length_fmap, length_seq.
Qed.

(** The loop of [WriteFixedVarIntsBitSet] over the positions [ps]. *)
Definition write_offsets (vec : list bool) (ps : list nat) (s : S) (last : Z) : S :=
  let '(s, _) := fold_left (λ '(s, last) i,
      if nth i vec false then (WriteVarInt 32 s ((Z.of_nat i - last) mod 2 ^ 32), Z.of_nat i)
      else (s, last)) ps (s, last) in
  WriteVarInt 32 s 0.

Lemma write_offsets_cons vec i ps s last :
  write_offsets vec (i :: ps) s last =
  if nth i vec false then write_offsets vec ps (WriteVarInt 32 s ((Z.of_nat i - last) mod 2 ^ 32)) (Z.of_nat i)
  else write_offsets vec ps s last.
Proof. unfold write_offsets. cbn [fold_left]. by destruct (nth i vec false). Qed.

Lemma write_offsets_puts suf pre last :
  -1 <= last < Z.of_nat (length pre) → Z.of_nat (length (pre ++ suf)) < 2 ^ 31 →
  puts (λ s, write_offsets (pre ++ suf) (seq (length pre) (length suf)) s last)
    (offset_bytes last (length pre) suf).
Proof.
  revert pre last. induction suf as [|b suf IH]; intros pre last Hlast Hlen.
  { apply (WriteVarInt_puts (W := W) 32). }
  assert (E : pre ++ b :: suf = (pre ++ [b]) ++ suf) by (by rewrite <-app_assoc).
  assert (El : length (pre ++ [b]) = Datatypes.S (length pre)) by (rewrite length_app; cbn; lia).
  assert (Eb : nth (length pre) ((pre ++ [b]) ++ suf) false = b)
    by (rewrite <-app_assoc, app_nth2, Nat.sub_diag by lia; done).
  rewrite E in *. rewrite !length_app in Hlen. cbn in Hlen. cbn [length seq].
  specialize (IH (pre ++ [b])). rewrite El in IH. destruct b; cbn [offset_bytes].
  - refine (puts_ext _ _ _ _ (puts_seq (λ s, WriteVarInt 32 s (Z.of_nat (length pre) - last))
      (λ s, write_offsets _ _ s _) _ _ (WriteVarInt_puts (W := W) 32 _) (IH (Z.of_nat (length pre)) _ _))).
    + intros s. rewrite write_offsets_cons, Eb, Z.mod_small by lia. done.
    + lia.
    + rewrite !length_app; cbn; lia.
  - refine (puts_ext _ _ _ _ (IH last _ _)); [|lia|rewrite !length_app; cbn; lia].
    intros s. by rewrite write_offsets_cons, Eb.
Qed.

Lemma WriteFixedVarIntsBitSet_puts vec :
  Z.of_nat (length vec) < 2 ^ 31 →
  puts (λ s, WriteFixedVarIntsBitSet s vec (length vec)) (offset_bytes (-1) 0 vec).
Proof. intros Hl. apply (write_offsets_puts vec [] (-1)); [cbn; lia|done]. Qed.

(** One turn of the reading loop that sets the bit [k]. *)
Lemma read_offsets_set fuel (vec : list bool) size last k c r :
  -1 <= last < k → k < Z.of_nat size → Z.of_nat size < 2 ^ 31 → length vec = size →
  gets (read_offsets fuel (<[Z.to_nat k := true]> vec) size k) c r →
  gets (read_offsets (Datatypes.S fuel) vec size last) (varint_bytes 32 (k - last) ++ c) r.
Proof.
  intros Hlast Hk Hs Hv Hc. cbn [read_offsets].
  apply gets_bind with (k - last); [apply (ReadVarInt_gets (R := R) 32); lia|].
  destruct (Z.eqb_spec (k - last) 0); [lia|]. cbv zeta.
  replace (last + (k - last)) with k by lia. unfold to_signed. rewrite !Z.mod_small by lia.
  cbn [Z.sub]. destruct (Z.ltb_spec k (2 ^ (32 - 1))); [|lia].
  destruct (Z.ltb_spec (Z.of_nat size) (2 ^ (32 - 1))); [|lia].
  destruct (Z.leb_spec (Z.of_nat size) k); [lia|].
  destruct (Z.leb_spec k last); [lia|]. rewrite andb_false_r.
  unfold set_bit. rewrite Hv. destruct (Z.leb_spec 0 k); [|lia]. destruct (Z.ltb_spec k (Z.of_nat size)); [|lia].
  cbn [andb]. exact Hc.
Qed.

Lemma read_offsets_gets suf pre last fuel :
  -1 <= last < Z.of_nat (length pre) → Z.of_nat (length (pre ++ suf)) < 2 ^ 31 → (length suf < fuel)%nat →
  gets (read_offsets fuel (pre ++ replicate (length suf) false) (length (pre ++ suf)) last)
    (offset_bytes last (length pre) suf) (pre ++ suf).
Proof.
  revert pre last fuel. induction suf as [|b suf IH]; intros pre last fuel Hlast Hlen Hf.
  { destruct fuel as [|fuel]; [lia|]. cbn [read_offsets offset_bytes length replicate].
    apply gets_bind_nil with 0; [apply (ReadVarInt_gets (R := R) 32); lia|]. apply gets_ret. }
  assert (E : pre ++ b :: suf = (pre ++ [b]) ++ suf) by (by rewrite <-app_assoc).
  assert (El : length (pre ++ [b]) = Datatypes.S (length pre)) by (rewrite length_app; cbn; lia).
  assert (Ev : pre ++ replicate (length (b :: suf)) false = (pre ++ [false]) ++ replicate (length suf) false)
    by (by rewrite <-app_assoc).
  rewrite E in *. rewrite !length_app in Hlen. cbn in Hlen, Hf. specialize (IH (pre ++ [b])). rewrite El in IH.
  rewrite Ev. destruct b; cbn [offset_bytes].
  - destruct fuel as [|fuel]; [lia|].
    apply read_offsets_set; [lia| | | |]; rewrite ?length_app, ?length_replicate; cbn [length]; [lia..|].
    rewrite Nat2Z.id, <-app_assoc, insert_app_r_alt, Nat.sub_diag by lia. cbn [app].
    change (<[0%nat:=true]> (false :: replicate (length suf) false)) with ([true] ++ replicate (length suf) false).
    rewrite app_assoc. specialize (IH (Z.of_nat (length pre)) fuel). rewrite !length_app in IH. cbn [length] in IH.
    apply IH; lia.
  - apply IH; rewrite ?length_app; cbn; lia.
Qed.

Lemma ReadFixedVarIntsBitSet_gets vec :
  Z.of_nat (length vec) < 2 ^ 31 → gets (ReadFixedVarIntsBitSet (length vec)) (offset_bytes (-1) 0 vec) vec.
Proof. intros Hl. apply (read_offsets_gets vec [] (-1)); cbn; lia || done. Qed.

Lemma read_offsets_turn fuel vec size last (s : S) :
  read_offsets (Datatypes.S fuel) vec size last s =
  match ReadVarInt 32 s with
  | inl e => inl e
  | inr (offset, s1) =>
      if offset =? 0 then inr (vec, s1) else
      let idx := to_signed 32 ((last + offset) mod 2 ^ 32) in
      if to_signed 32 (Z.of_nat size mod 2 ^ 32) <=? idx then inl out_of_bounds_index
      else if negb (last =? -1) && (idx <=? last) then inl offset_overflow
      else if (0 <=? idx) && (idx <? Z.of_nat (length vec))
      then read_offsets fuel (<[Z.to_nat idx := true]> vec) size idx s1
      else inl write_outside_vector
  end.
Proof.
  cbn [read_offsets]. unfold pbind, set_bit. destruct (ReadVarInt 32 s) as [|[o s1]]; [done|].
  destruct (o =? 0); [done|]. cbv zeta. destruct (_ <=? _); [done|]. destruct (_ && _); [done|].
  by destruct (_ && _).
Qed.

(** Once a bit is set, every further index is above it and below the size, and
    the number of turns is bounded. *)
Lemma read_offsets_inside fuel vec size last (s : S) e :
  0 <= last < Z.of_nat size → Z.of_nat size < 2 ^ 31 → length vec = size →
  Z.of_nat size - last <= Z.of_nat fuel → rok s → bytes (rest s) →
  read_offsets fuel vec size last s = inl e → e ≠ write_outside_vector ∧ e ≠ out_of_fuel.
Proof.
  revert vec last s. induction fuel as [|fuel IH]; intros vec last s Hlast Hsize Hv Hf Hs Hb; [lia|].
  rewrite read_offsets_turn. destruct (ReadVarInt 32 s) as [e'|[o s1]] eqn:E1.
  { intros [= <-]. destruct (ReadVarInt_errors (R := R) 32 ltac:(lia) s e' Hs Hb E1) as [->| ->]; done. }
  destruct (ReadVarInt_takes (R := R) 32 ltac:(lia) s o s1 Hs Hb E1) as (Hs1 & b & Eb & _ & Ho).
  destruct (Z.eqb_spec o 0); [done|]. cbv zeta. set (idx := to_signed 32 ((last + o) mod 2 ^ 32)).
  unfold to_signed. rewrite (Z.mod_small (Z.of_nat size)) by lia.
  destruct (Z.ltb_spec (Z.of_nat size) (2 ^ (32 - 1))); [|lia].
  destruct (Z.leb_spec (Z.of_nat size) idx); [intros [= <-]; done|].
  destruct (Z.eqb_spec last (-1)); [lia|]. cbn [negb andb].
  destruct (Z.leb_spec idx last); [intros [= <-]; done|].
  rewrite Hv. destruct (Z.leb_spec 0 idx); [|lia].
  destruct (Z.ltb_spec idx (Z.of_nat size)); [|lia]. cbn [andb].
  rewrite Eb in Hb. apply Forall_app in Hb as [_ Hb].
  apply IH; [lia|lia|by rewrite length_insert|lia|done|done].
Qed.

Lemma ReadFixedVarIntsBitSet_outside size (s : S) e :
  Z.of_nat size < 2 ^ 31 → rok s → bytes (rest s) →
  ReadFixedVarIntsBitSet size s = inl e →
  e ≠ out_of_fuel ∧
  (e = write_outside_vector ↔ ∃ offset s', ReadVarInt 32 s = inr (offset, s') ∧ 2 ^ 31 < offset).
Proof.
  intros Hsize Hs Hb. unfold ReadFixedVarIntsBitSet. rewrite Nat.add_comm. cbn [Nat.add].
  rewrite read_offsets_turn. destruct (ReadVarInt 32 s) as [e'|[o s1]] eqn:E1.
  { intros [= <-]. destruct (ReadVarInt_errors (R := R) 32 ltac:(lia) s e' Hs Hb E1) as [->| ->];
      (split; [done|]); (split; [done|]); intros (? & ? & [=] & _). }
  destruct (ReadVarInt_takes (R := R) 32 ltac:(lia) s o s1 Hs Hb E1) as (Hs1 & b & Eb & _ & Ho).
  rewrite Eb in Hb. apply Forall_app in Hb as [_ Hb].
  destruct (Z.eqb_spec o 0); [done|]. cbv zeta. rewrite (Z.add_comm (-1)).
  rewrite (Z.mod_small (o + -1)) by lia.
  replace (to_signed 32 (Z.of_nat size mod 2 ^ 32)) with (Z.of_nat size)
    by (unfold to_signed; rewrite Z.mod_small by lia; by destruct (Z.ltb_spec (Z.of_nat size) (2 ^ (32 - 1))); [|lia]).
  assert (Hex : (∃ offset s', inr (o, s1) = inr (offset, s') :> failure + Z * S ∧ 2 ^ 31 < offset) ↔ 2 ^ 31 < o).
  { split; [intros (? & ? & [= <- <-] & ?); done|eauto]. }
  rewrite Hex. clear Hex. unfold to_signed. destruct (Z.ltb_spec (o + -1) (2 ^ (32 - 1))) as [Hlt|Hge].
  - destruct (Z.leb_spec (Z.of_nat size) (o + -1)) as [|Hin]; [intros [= <-]; split; [done|]; split; [done|lia]|].
    change (negb (-1 =? -1)) with false. cbn [andb]. rewrite length_replicate.
    destruct (Z.leb_spec 0 (o + -1)); [|lia].
    destruct (Z.ltb_spec (o + -1) (Z.of_nat size)); [|lia]. cbn [andb]. intros E.
    destruct (read_offsets_inside (Datatypes.S size) _ size (o + -1) s1 e ltac:(lia) Hsize
      ltac:(by rewrite length_insert, length_replicate) ltac:(lia) Hs1 Hb E) as [H1 H2].
    split; [done|]. split; [done|lia].
  - destruct (Z.leb_spec (Z.of_nat size) (o + -1 - 2 ^ 32)) as [|Hin]; [lia|].
    change (negb (-1 =? -1)) with false. cbn [andb].
    destruct (Z.leb_spec 0 (o + -1 - 2 ^ 32)); [lia|]. cbn [andb]. intros [= <-]. split; [done|]. split; [lia|done].
Qed.

(** ** The smaller of the two, and the message *)

Definition auto_bytes (vec : list bool) : list Z :=
  if (nSize (WriteFixedBitSet (mk_size 0) vec (length vec)) <?
      nSize (WriteFixedVarIntsBitSet (mk_size 0) vec (length vec)))%nat
  then [0] ++ pack_bits vec (length vec) else [1] ++ offset_bytes (-1) 0 vec.

Lemma WriteAutoBitSet_puts vec (s : S) :
  Z.of_nat (length vec) < 2 ^ 31 → wok s →
  ∃ s', WriteAutoBitSet s vec (length vec) = Some s' ∧ wok s' ∧ out s' = out s ++ auto_bytes vec.
Proof.
  intros Hl Hs. unfold WriteAutoBitSet, auto_bytes. rewrite Nat.eqb_refl. cbn [negb].
  replace (nSize (WriteFixedBitSet (mk_size 0) vec (length vec)) =? GetSizeOfFixedBitSet (length vec))%nat with true
    by (symmetry; apply Nat.eqb_eq; apply (pack_bits_spec vec)).
  cbn [negb]. destruct (_ <? _)%nat; eexists; (split; [reflexivity|]).
  - refine (puts_seq (λ s, ser_writedata8 s 0) (λ s, WriteFixedBitSet s vec (length vec)) _ _ _ _ s Hs);
      [by apply (puts_byte (W := W))|apply (puts_write (W := W))].
  - refine (puts_seq (λ s, ser_writedata8 s 1) (λ s, WriteFixedVarIntsBitSet s vec (length vec)) _ _ _ _ s Hs);
      [by apply (puts_byte (W := W))|by apply WriteFixedVarIntsBitSet_puts].
Qed.

Lemma ReadAutoBitSet_gets vec :
  Z.of_nat (length vec) < 2 ^ 31 → gets (ReadAutoBitSet (length vec)) (auto_bytes vec) vec.
Proof.
  intros Hl. unfold auto_bytes. destruct (_ <? _)%nat.
  - apply gets_bind with 0; [by apply (gets_byte (R := R))|apply ReadFixedBitSet_gets].
  - apply gets_bind with 1; [by apply (gets_byte (R := R))|by apply ReadFixedVarIntsBitSet_gets].
Qed.

Definition inv_bytes (obj : CSigSharesInv) : list Z :=
  varint_bytes 32 (sessionId obj) ++ compact_bytes (Z.of_nat (length (inv obj))) ++ auto_bytes (inv obj).

(** C39: A [CSigSharesInv] message is read back as it was written: session id
    as VarInt, size as CompactSize, and the bits in whichever of the two
    bit-set formats is smaller, the packed one or the one with the VarInt
    offsets between set bits. *)
Theorem CSigSharesInv_roundtrip obj (s : S) :
  0 <= sessionId obj < 2 ^ 32 → Z.of_nat (length (inv obj)) <= MAX_SIZE → wok s →
  (∃ s', CSigSharesInv_Serialize s obj = Some s' ∧ wok s' ∧ out s' = out s ++ inv_bytes obj) ∧
  gets CSigSharesInv_Unserialize (inv_bytes obj) obj.
Proof.
  intros Hid Hl Hs. unfold MAX_SIZE in Hl. split.
  - unfold CSigSharesInv_Serialize. cbv zeta.
    destruct (puts_seq _ _ _ _ (WriteVarInt_puts (W := W) 32 (sessionId obj))
      (WriteCompactSize_puts (W := W) (Z.of_nat (length (inv obj))) ltac:(lia)) s Hs) as [H1 E1].
    destruct (WriteAutoBitSet_puts (inv obj) _ ltac:(lia) H1) as (s' & E & H' & E').
    exists s'. split; [exact E|]. split; [done|]. rewrite E', E1. unfold inv_bytes. by rewrite <-!app_assoc.
  - apply gets_bind with (sessionId obj); [apply (ReadVarInt_gets (R := R) 32); lia|].
    apply gets_bind with (Z.of_nat (length (inv obj))).
    { apply (ReadCompactSize_gets (R := R)); [lia|]. unfold MAX_SIZE. lia. }
    rewrite Nat2Z.id. apply gets_bind_nil with (inv obj); [apply ReadAutoBitSet_gets; lia|].
    destruct obj. apply gets_ret.
Qed.

Lemma ReadFixedVarIntsBitSet_fails size offset :
  Z.of_nat size < 2 ^ 31 → 2 ^ 31 < offset < 2 ^ 32 →
  fails (ReadFixedVarIntsBitSet size) (varint_bytes 32 offset) write_outside_vector.
Proof.
  intros Hs Ho s tail Hok E. unfold ReadFixedVarIntsBitSet. rewrite Nat.add_comm. cbn [Nat.add].
  rewrite read_offsets_turn.
  destruct (ReadVarInt_gets (R := R) 32 ltac:(lia) offset ltac:(lia) s tail Hok E) as (s1 & -> & _).
  destruct (Z.eqb_spec offset 0); [lia|]. cbv zeta. unfold to_signed. rewrite !Z.mod_small by lia.
  destruct (Z.ltb_spec (-1 + offset) (2 ^ (32 - 1))); [lia|].
  destruct (Z.ltb_spec (Z.of_nat size) (2 ^ (32 - 1))); [|lia].
  destruct (Z.leb_spec (Z.of_nat size) (-1 + offset - 2 ^ 32)); [lia|].
  change (negb (-1 =? -1)) with false. cbn [andb].
  by destruct (Z.leb_spec 0 (-1 + offset - 2 ^ 32)); [lia|].
Qed.

(** C38: Reading a bit set given as offsets: a [CSigSharesInv] message whose
    first offset is greater than 2^31 makes [ReadFixedVarIntsBitSet] write
    outside of the vector, since the index is negative, below the size, and
    the check against the last index is skipped for the first one. That is the
    only way: every other input is read or refused with an exception, and the
    loop ends. *)
Theorem varints_write_outside size id offset :
  Z.of_nat size <= MAX_SIZE → 0 <= id < 2 ^ 32 → 2 ^ 31 < offset < 2 ^ 32 →
  fails CSigSharesInv_Unserialize
    (varint_bytes 32 id ++ compact_bytes (Z.of_nat size) ++ [1] ++ varint_bytes 32 offset)
    write_outside_vector ∧
  (∀ s e, rok s → bytes (rest s) → ReadFixedVarIntsBitSet size s = inl e →
    e ≠ out_of_fuel ∧
    (e = write_outside_vector ↔ ∃ offset s', ReadVarInt 32 s = inr (offset, s') ∧ 2 ^ 31 < offset)).
Proof.
  intros Hl Hid Ho. unfold MAX_SIZE in Hl. split.
  - apply fails_after with id; [apply (ReadVarInt_gets (R := R) 32); lia|].
    apply fails_after with (Z.of_nat size).
    { apply (ReadCompactSize_gets (R := R)); [lia|]. unfold MAX_SIZE. lia. }
    apply fails_bind. apply fails_after with 1; [by apply (gets_byte (R := R))|]. rewrite Nat2Z.id.
    apply ReadFixedVarIntsBitSet_fails; lia.
  - intros s e Hs Hb E. by apply ReadFixedVarIntsBitSet_outside with (size := size); [lia|..].
Qed.
End Formats.

Lemma varints_write_outside_witness :
  fails (rok := stream_ok) (rest := unread) CSigSharesInv_Unserialize
    (varint_bytes 32 1 ++ compact_bytes (Z.of_nat 50) ++ [1] ++ varint_bytes 32 (2 ^ 32 - 1))
    write_outside_vector.
Proof.
  apply (varints_write_outside (R := DataStream_reader_laws) 50 1 (2 ^ 32 - 1)); [vm_compute; discriminate|lia|lia].
Defined.

Lemma CSigSharesInv_roundtrip_witness :
  gets (rok := stream_ok) (rest := unread) CSigSharesInv_Unserialize
    (inv_bytes (mk_inv 5 [true; false; true])) (mk_inv 5 [true; false; true]).
Proof.
  refine (proj2 (CSigSharesInv_roundtrip (W := DataStream_writer_laws) (R := DataStream_reader_laws)
    (mk_inv 5 [true; false; true]) (mk_stream [] 0) _ _ _));
    [cbn; lia|vm_compute; discriminate|unfold stream_pos_ok; cbn; lia].
Defined.
