(* ===== verification/Uint256.v ===== *)
(** The 256-bit blobs of [src/uint256.h] and [src/uint256.cpp]: 32 bytes, printed
    and parsed as a hexadecimal number with the last byte first.  The character
    functions are those of [src/util/strencodings.h] and [strencodings.cpp].

    A string is the list of its character codes; reading past the end gives the
    terminating zero, for which every test of the code is false. *)
From S2P Require Import Prelude SphTypes.
From Stdlib Require Import String Ascii.
From stdpp Require Import list.
#[local] Open Scope Z_scope.

Fixpoint c_str (s : string) : list Z :=
  match s with
  | EmptyString => []
  | String c s => Z.of_nat (nat_of_ascii c) :: c_str s
  end.

Definition IsSpace (c : Z) : bool :=
  (c =? 32) || (c =? 12) || (c =? 10) || (c =? 13) || (c =? 9) || (c =? 11).
Definition ToLower (c : Z) : Z := if (65 <=? c) && (c <=? 90) then (c - 65) + 97 else c.

(** The table [p_util_hexdigit], with its two runs of letters and the digits. *)
Definition p_util_hexdigit : list Z :=
  replicate 48 (-1) ++ [0; 1; 2; 3; 4; 5; 6; 7; 8; 9] ++ replicate 7 (-1) ++
  [10; 11; 12; 13; 14; 15] ++ replicate 26 (-1) ++ [10; 11; 12; 13; 14; 15] ++ replicate 153 (-1).
Definition HexDigit (c : Z) : Z := p_util_hexdigit @@ Z.to_nat c.

Definition WIDTH : nat := 32.

Fixpoint skip_spaces (psz : list Z) : list Z :=
  match psz with
  | c :: r => if IsSpace c then skip_spaces r else psz
  | [] => []
  end.

Definition skip_0x (psz : list Z) : list Z :=
  match psz with
  | c :: d :: r => if (c =? 48) && (ToLower d =? 120) then r else psz
  | _ => psz
  end.

(** The leading hexadecimal digits. *)
Fixpoint hex_digits (psz : list Z) : list Z :=
  match psz with
  | c :: r => if HexDigit c =? -1 then [] else c :: hex_digits r
  | [] => []
  end.

(** The last loop of [SetHex] over the digits, the last one first, into [n]
    bytes that hold zeros. *)
Fixpoint fill_bytes (digits : list Z) (n : nat) : list Z :=
  match n with
  | O => []
  | S n =>
      match digits with
      | [] => replicate (S n) 0
      | [d] => HexDigit d :: replicate n 0
      | d :: e :: digits => Z.lor (HexDigit d) (u8 (HexDigit e ≪ 4)) :: fill_bytes digits n
      end
  end.

Definition SetHex (psz : list Z) : list Z :=
  fill_bytes (rev (hex_digits (skip_0x (skip_spaces psz)))) WIDTH.

Definition uint256S (s : string) : list Z := SetHex (c_str s).

(** The table [byte_to_hex]. *)
Definition hexmap : list Z := c_str "0123456789abcdef".
Definition byte_to_hex (v : Z) : list Z := [hexmap @@ Z.to_nat (v ≫ 4); hexmap @@ Z.to_nat (Z.land v 15)].
Definition HexStr (s : list Z) : list Z := concat (byte_to_hex <$> s).

Definition GetHex (m_data : list Z) : list Z :=
  let m_data_rev := (λ i, m_data @@ (WIDTH - 1 - i)) <$> seq 0 WIDTH in HexStr m_data_rev.

(** ** Printing and parsing *)

(** The characters [byte_to_hex] gives, byte by byte. *)
Definition hex_ok (v : Z) : bool :=
  match byte_to_hex v with
  | [a; b] =>
      negb (IsSpace a) && negb (ToLower b =? 120) && negb (HexDigit a =? -1) && negb (HexDigit b =? -1) &&
      (Z.lor (HexDigit b) (u8 (HexDigit a ≪ 4)) =? v)
  | _ => false
  end.

Lemma hex_ok_bytes v : byte v → hex_ok v = true.
Proof.
  intros Hv. assert (H : forallb (λ n, hex_ok (Z.of_nat n)) (seq 0 256) = true) by reflexivity.
  rewrite forallb_forall in H. rewrite <-(Z2Nat.id v) by (unfold word in Hv; lia).
  apply H, in_seq. unfold word in Hv. lia.
Qed.

Lemma byte_to_hex_pair v :
  byte v → ∃ a b, byte_to_hex v = [a; b] ∧ IsSpace a = false ∧ (ToLower b =? 120) = false ∧
    (HexDigit a =? -1) = false ∧ (HexDigit b =? -1) = false ∧ Z.lor (HexDigit b) (u8 (HexDigit a ≪ 4)) = v.
Proof.
  intros Hv. pose proof (hex_ok_bytes v Hv) as H. unfold hex_ok in H. unfold byte_to_hex in *.
  eexists _, _. split; [reflexivity|]. rewrite !andb_true_iff, !negb_true_iff, Z.eqb_eq in H. tauto.
Qed.

Lemma hex_digits_HexStr l : bytes l → hex_digits (HexStr l) = HexStr l.
Proof.
  induction 1 as [|v l Hv _ IH]; [done|]. unfold HexStr in *. cbn [fmap list_fmap concat].
  destruct (byte_to_hex_pair v Hv) as (a & b & -> & _ & _ & Ha & Hb & _).
  cbn [app hex_digits]. by rewrite Ha, Hb, IH.
Qed.

Lemma skip_HexStr l : bytes l → skip_0x (skip_spaces (HexStr l)) = HexStr l.
Proof.
  destruct 1 as [|v l Hv _]; [done|]. unfold HexStr. cbn [fmap list_fmap concat].
  destruct (byte_to_hex_pair v Hv) as (a & b & -> & Ha & Hb & _).
  cbn [app skip_spaces skip_0x]. rewrite Ha. cbn [skip_0x]. by rewrite Hb, andb_false_r.
Qed.

Lemma HexStr_snoc l v : HexStr (l ++ [v]) = HexStr l ++ byte_to_hex v.
Proof. unfold HexStr. rewrite fmap_app, concat_app. cbn. done. Qed.

Lemma fill_bytes_HexStr l : bytes l → fill_bytes (rev (HexStr (rev l))) (length l) = l.
Proof.
  induction 1 as [|v l Hv _ IH]; [done|]. cbn [rev length]. rewrite HexStr_snoc, rev_app_distr.
  destruct (byte_to_hex_pair v Hv) as (a & b & -> & _ & _ & _ & _ & E).
  cbn [rev app fill_bytes]. by rewrite IH, E.
Qed.

Lemma GetHex_rev m : length m = WIDTH → GetHex m = HexStr (rev m).
Proof.
  intros Hm. unfold GetHex. f_equal. apply at_ext; [by rewrite length_fmap, length_seq, length_rev|].
  intros i Hi. rewrite length_fmap, length_seq in Hi. rewrite at_fmap_seq by done.
  unfold at_. rewrite rev_nth by lia. by rewrite Hm.
Qed.

(** Printing and parsing. *)
Lemma GetHex_SetHex m : length m = WIDTH → bytes m → SetHex (GetHex m) = m.
Proof.
  intros Hm Hb. rewrite GetHex_rev by done. unfold SetHex.
  assert (Hr : bytes (rev m)) by by apply Forall_rev.
  rewrite skip_HexStr, hex_digits_HexStr by done. rewrite <-Hm. by apply fill_bytes_HexStr.
Qed.
