(* ===== verification/Block.v ===== *)
(** Block headers: [src/primitives/block.h] and [src/primitives/block.cpp], the
    headers2 messages of [src/net_processing.cpp], and the genesis blocks of
    [src/chainparams.cpp].

    A header's identity is the X11 hash of its 80 serialized bytes
    ([GetHash_correct]); the hashes asserted for the three genesis blocks are
    the hashes of the model ([genesis_blocks]).  A chain of headers survives
    compression, the wire and decompression ([headers2_roundtrip]), for both
    senders of the program, one of which does not record the version of the
    first header. *)
From S2P Require Import Prelude SphTypes Padding Serialize Uint256 HashX11.
From Stdlib Require Import String.
From stdpp Require Import list.
#[local] Open Scope Z_scope.

(** ** Headers *)

Record CBlockHeader := mk_header {
  nVersion : Z; hashPrevBlock : list Z; hashMerkleRoot : list Z; nTime : Z; nBits : Z; nNonce : Z }.

Definition uint256_null : list Z := replicate WIDTH 0.

Definition CBlockHeader_null : CBlockHeader := mk_header 0 uint256_null uint256_null 0 0 0.

Definition IsNull (h : CBlockHeader) : bool := nBits h =? 0.

Section Headers.
Context {S : Type} `{!Writer S} `{!Reader S}.

Definition uint256_Serialize (s : S) (m_data : list Z) : S := write s m_data.
Definition uint256_Unserialize : parser S (list Z) := λ s, read s WIDTH.

Definition CBlockHeader_Serialize (s : S) (obj : CBlockHeader) : S :=
  let s := ser_writedata32 s (nVersion obj) in
  let s := uint256_Serialize s (hashPrevBlock obj) in
  let s := uint256_Serialize s (hashMerkleRoot obj) in
  let s := ser_writedata32 s (nTime obj) in
  let s := ser_writedata32 s (nBits obj) in
  ser_writedata32 s (nNonce obj).

Definition CBlockHeader_Unserialize : parser S CBlockHeader :=
  let! nVersion := ser_readdata32 in
  let! hashPrevBlock := uint256_Unserialize in
  let! hashMerkleRoot := uint256_Unserialize in
  let! nTime := ser_readdata32 in
  let! nBits := ser_readdata32 in
  let! nNonce := ser_readdata32 in
  ret (mk_header (to_signed 32 nVersion) hashPrevBlock hashMerkleRoot nTime nBits nNonce).
End Headers.

(** The argument [stk] is what the stack holds when [HashX11] is called. *)
Definition GetHash (stk : stack) (h : CBlockHeader) : list Z :=
  let vch := replicate 80 0 in
  let ss := CBlockHeader_Serialize (CVectorWriter_at vch 0) h in
  HashX11 stk (vchData ss).

(** ** Compressed headers *)

(** The values of [Flag]. *)
Definition VERSION_BIT_MASK : Z := Z.lor (Z.lor (1 ≪ 0) (1 ≪ 1)) (1 ≪ 2).
Definition PREV_BLOCK_HASH : Z := 1 ≪ 3.
Definition TIMESTAMP : Z := 1 ≪ 4.
Definition NBITS : Z := 1 ≪ 5.

Definition IsCompressed (bit_field flag : Z) : bool := Z.land bit_field flag =? 0.
Definition MarkAsUncompressed (bit_field flag : Z) : Z := Z.lor bit_field flag.
Definition MarkAsCompressed (bit_field flag : Z) : Z := Z.land bit_field (u8 (Z.lnot flag)).
Definition SetVersionOffset (bit_field version : Z) : Z :=
  Z.lor (Z.land bit_field (u8 (Z.lnot VERSION_BIT_MASK))) (Z.land version VERSION_BIT_MASK).
Definition GetVersionOffset (bit_field : Z) : Z := Z.land bit_field VERSION_BIT_MASK.
Definition IsVersionCompressed (bit_field : Z) : bool := negb (GetVersionOffset bit_field =? 0).

Record CompressibleBlockHeader := mk_compressible {
  header : CBlockHeader; bit_field : Z; time_offset : Z }.

(** The constructor from a header: everything is marked as uncompressed. *)
Definition CompressibleBlockHeader_of (block_header : CBlockHeader) : CompressibleBlockHeader :=
  let bf := SetVersionOffset 0 0 in
  let bf := MarkAsUncompressed bf PREV_BLOCK_HASH in
  let bf := MarkAsUncompressed bf TIMESTAMP in
  let bf := MarkAsUncompressed bf NBITS in
  mk_compressible block_header bf 0.

Section Compressed.
Context {S : Type} `{!Writer S} `{!Reader S}.

Definition CompressibleBlockHeader_Serialize (s : S) (obj : CompressibleBlockHeader) : S :=
  let h := header obj in let bf := bit_field obj in
  let s := ser_writedata8 s bf in
  let s := if negb (IsVersionCompressed bf) then ser_writedata32 s (nVersion h) else s in
  let s := if negb (IsCompressed bf PREV_BLOCK_HASH) then uint256_Serialize s (hashPrevBlock h) else s in
  let s := uint256_Serialize s (hashMerkleRoot h) in
  let s := if negb (IsCompressed bf TIMESTAMP) then ser_writedata32 s (nTime h)
           else ser_writedata16 s (time_offset obj) in
  let s := if negb (IsCompressed bf NBITS) then ser_writedata32 s (nBits h) else s in
  ser_writedata32 s (nNonce h).

(** A field that is not on the wire keeps the value of the default constructor. *)
Definition CompressibleBlockHeader_Unserialize : parser S CompressibleBlockHeader :=
  let! bf := ser_readdata8 in
  let! nVersion :=
    (if negb (IsVersionCompressed bf) then let! v := ser_readdata32 in ret (to_signed 32 v)
     else ret (nVersion CBlockHeader_null)) in
  let! hashPrevBlock :=
    (if negb (IsCompressed bf PREV_BLOCK_HASH) then uint256_Unserialize
     else ret (hashPrevBlock CBlockHeader_null)) in
  let! hashMerkleRoot := uint256_Unserialize in
  let! time :=
    (if negb (IsCompressed bf TIMESTAMP) then let! t := ser_readdata32 in ret (t, 0)
     else let! o := ser_readdata16 in ret (nTime CBlockHeader_null, to_signed 16 o)) in
  let! nBits :=
    (if negb (IsCompressed bf NBITS) then ser_readdata32 else ret (nBits CBlockHeader_null)) in
  let! nNonce := ser_readdata32 in
  ret (mk_compressible (mk_header nVersion hashPrevBlock hashMerkleRoot (fst time) nBits nNonce) bf
         (snd time)).
End Compressed.

(** Move the version at position [i] to the front. *)
Definition MarkVersionAsMostRecent (last_unique_versions : list Z) (i : nat) : list Z :=
  if (i =? 0)%nat then last_unique_versions
  else last_unique_versions @@ i :: delete i last_unique_versions.

Definition SaveVersionAsMostRecent (last_unique_versions : list Z) (version : Z) : list Z :=
  let l := version :: last_unique_versions in
  if (7 <? length l)%nat then removelast l else l.

Definition Compress (self : CompressibleBlockHeader) (previous_blocks : list CompressibleBlockHeader)
    (last_unique_versions : list Z) : CompressibleBlockHeader * list Z :=
  let h := header self in
  match last previous_blocks with
  | None => (self, SaveVersionAsMostRecent last_unique_versions (nVersion h))
  | Some last_block =>
      let '(bf, versions) :=
        match list_find (λ v, v = nVersion h) last_unique_versions with
        | Some (i, _) =>
            (SetVersionOffset (bit_field self) ((Z.of_nat i + 1) mod 2 ^ 8),
             MarkVersionAsMostRecent last_unique_versions i)
        | None => (bit_field self, SaveVersionAsMostRecent last_unique_versions (nVersion h))
        end in
      let bf := MarkAsCompressed bf PREV_BLOCK_HASH in
      let time_diff := (nTime h - nTime (header last_block)) mod 2 ^ 32 in
      let '(bf, offset) :=
        if (time_diff <=? 32767) && (-32768 <=? time_diff)
        then (MarkAsCompressed bf TIMESTAMP, time_diff) else (bf, time_offset self) in
      let bf := if nBits h =? nBits (header last_block) then MarkAsCompressed bf NBITS else bf in
      (mk_compressible h bf offset, versions)
  end.

Definition Uncompress (stk : stack) (self : CompressibleBlockHeader) (previous_blocks : list CBlockHeader)
    (last_unique_versions : list Z) : CompressibleBlockHeader * list Z :=
  let h := header self in let bf := bit_field self in
  match last previous_blocks with
  | None => (self, SaveVersionAsMostRecent last_unique_versions (nVersion h))
  | Some last_block =>
      let '(version, versions) :=
        if IsVersionCompressed bf then
          let version_offset := Z.to_nat (GetVersionOffset bf) in
          if (version_offset <=? length last_unique_versions)%nat then
            (last_unique_versions @@ (version_offset - 1),
             MarkVersionAsMostRecent last_unique_versions (version_offset - 1))
          else (nVersion h, last_unique_versions)
        else (nVersion h, SaveVersionAsMostRecent last_unique_versions (nVersion h)) in
      let prev := if IsCompressed bf PREV_BLOCK_HASH then GetHash stk last_block else hashPrevBlock h in
      let time := if IsCompressed bf TIMESTAMP then (nTime last_block + time_offset self) mod 2 ^ 32
                  else nTime h in
      let bits := if IsCompressed bf NBITS then nBits last_block else nBits h in
      (mk_compressible (mk_header version prev (hashMerkleRoot h) time bits (nNonce h)) bf (time_offset self),
       versions)
  end.

(** ** The headers2 message *)

Definition MAX_HEADERS_UNCOMPRESSED_RESULT : Z := 2000.
Definition MAX_HEADERS_COMPRESSED_RESULT : Z := 8000.

(** [recent] is [pfrom.GetCommonVersion() >= INCREASE_MAX_HEADERS2_VERSION]. *)
Definition GetHeadersLimit (recent compressed : bool) : Z :=
  if recent && compressed then MAX_HEADERS_COMPRESSED_RESULT else MAX_HEADERS_UNCOMPRESSED_RESULT.

(** The headers of the active chain that answer a request: [chain] holds the
    headers from the first one on, with their hashes. *)
Fixpoint headers_to_send (nLimit : Z) (hashStop : list Z) (chain : list (CBlockHeader * list Z))
    : list CBlockHeader :=
  match chain with
  | [] => []
  | (h, hash) :: chain =>
      h :: (if (nLimit - 1 <=? 0) || bool_decide (hash = hashStop) then []
            else headers_to_send (nLimit - 1) hashStop chain)
  end.

(** The answer to GETHEADERS2: the first header is not passed to [Compress]. *)
Definition answer_getheaders2 (hs : list CBlockHeader) : list CompressibleBlockHeader * list Z :=
  fold_left (λ '(v_headers, versions) h,
    let c := CompressibleBlockHeader_of h in
    let '(c, versions) := match v_headers with
      | [] => (c, versions)
      | _ => Compress c v_headers versions
      end in
    (v_headers ++ [c], versions)) hs ([], []).

(** The announcement of new blocks: every header is. *)
Definition announce_headers2 (hs : list CBlockHeader) : list CompressibleBlockHeader * list Z :=
  fold_left (λ '(v_headers, versions) h,
    let '(c, versions) := Compress (CompressibleBlockHeader_of h) v_headers versions in
    (v_headers ++ [c], versions)) hs ([], []).

Section Messages.
Context {S : Type} `{!Writer S} `{!Reader S}.

Definition write_headers2 (s : S) (v : list CompressibleBlockHeader) : S :=
  Vector_Ser CompressibleBlockHeader_Serialize s v.

Fixpoint read_headers_loop (stks : nat → stack) (n : nat) (headers : list CBlockHeader)
    (versions : list Z) : parser S (list CBlockHeader) :=
  match n with
  | O => ret headers
  | Datatypes.S n =>
      let! c := CompressibleBlockHeader_Unserialize in
      let r := Uncompress (stks n) c headers versions in
      read_headers_loop stks n (headers ++ [header (fst r)]) (snd r)
  end.

(** Receiving a headers2 message. *)
Definition read_headers2 (limit : Z) (stks : nat → stack) : parser S (list CBlockHeader) :=
  let! nCount := ReadCompactSize true in
  if limit <? nCount then throw oversized_message
  else read_headers_loop stks (Z.to_nat nCount) [] [].
End Messages.

(** ** The genesis blocks *)

(** The header [CreateGenesisBlock] builds, with the Merkle root that
    chainparams.cpp asserts. *)
Definition genesis_header (time nonce bits : Z) (version : Z) : CBlockHeader :=
  mk_header version uint256_null
    (uint256S "0xe0028eb9648db56b1ac77cf090b99048a8007e2bb64b68f092c03c7f56a662c7"%string) time bits nonce.

Definition genesis_main : CBlockHeader := genesis_header 1390095618 28917698 0x1e0ffff0 1.
Definition genesis_testnet : CBlockHeader := genesis_header 1390666206 3861367235 0x1e0ffff0 1.
Definition genesis_regtest : CBlockHeader := genesis_header 1417713337 1096447 0x207fffff 1.

(** ** Serialized headers *)

(** The values the types of the fields allow. *)
Definition header_ok (h : CBlockHeader) : Prop :=
  - 2 ^ 31 <= nVersion h < 2 ^ 31 ∧
  length (hashPrevBlock h) = WIDTH ∧ bytes (hashPrevBlock h) ∧
  length (hashMerkleRoot h) = WIDTH ∧ bytes (hashMerkleRoot h) ∧
  word 32 (nTime h) ∧ word 32 (nBits h) ∧ word 32 (nNonce h).

Definition header_bytes (h : CBlockHeader) : list Z :=
  le_split 4 (nVersion h) ++ hashPrevBlock h ++ hashMerkleRoot h ++
  le_split 4 (nTime h) ++ le_split 4 (nBits h) ++ le_split 4 (nNonce h).

Lemma to_signed_mod w v : 0 < w → - 2 ^ (w - 1) <= v < 2 ^ (w - 1) → to_signed w (v mod 2 ^ w) = v.
Proof.
  intros Hw Hv. assert (E : 2 ^ w = 2 * 2 ^ (w - 1)) by (rewrite <-Z.pow_succ_r by lia; f_equal; lia).
  unfold to_signed. destruct (decide (0 <= v)) as [H0|H0].
  - rewrite Z.mod_small by lia. by destruct (Z.ltb_spec v (2 ^ (w - 1))); [|lia].
  - assert (Em : v mod 2 ^ w = v + 2 ^ w) by (symmetry; apply (Z.mod_unique_pos _ _ (-1)); lia).
    rewrite Em. destruct (Z.ltb_spec (v + 2 ^ w) (2 ^ (w - 1))); lia.
Qed.

Section Formats.
Context {S : Type} `{!Writer S} `{!Reader S} {wok rok : S → Prop} {out rest : S → list Z}.
Context `{W : !WriterLaws S wok out} `{R : !ReaderLaws S rok rest}.
#[local] Abbreviation puts := (puts (wok := wok) (out := out)).
#[local] Abbreviation gets := (gets (rok := rok) (rest := rest)).

Lemma gets_signed n w v :
  w = 8 * Z.of_nat n → 0 < w → - 2 ^ (w - 1) <= v < 2 ^ (w - 1) →
  gets (let! x := ser_readdata n in ret (to_signed w x)) (le_split n v) v.
Proof.
  intros -> Hw Hv. apply gets_bind_nil with (v mod 2 ^ (8 * Z.of_nat n)).
  - rewrite <-le_split_mod. apply (gets_readdata (R := R)). apply Z.mod_pos_bound. lia.
  - rewrite to_signed_mod by done. apply gets_ret.
Qed.

Lemma gets_u32 v : word 32 v → gets ser_readdata32 (le_split 4 v) v.
Proof. intros Hv. by apply (gets_readdata (R := R)). Qed.

Lemma gets_uint256 h : length h = WIDTH → gets uint256_Unserialize h h.
Proof. intros Hl. by apply (gets_read (R := R)). Qed.

Lemma CBlockHeader_writes (s : S) h :
  CBlockHeader_Serialize s h =
  fold_left write [le_split 4 (nVersion h); hashPrevBlock h; hashMerkleRoot h;
    le_split 4 (nTime h); le_split 4 (nBits h); le_split 4 (nNonce h)] s.
Proof. reflexivity. Qed.

Lemma CBlockHeader_puts h : puts (λ s, CBlockHeader_Serialize s h) (header_bytes h).
Proof.
  pose proof (puts_list (W := W) _ _ (λ s, CBlockHeader_writes s h)) as H.
  cbn [concat] in H. by rewrite app_nil_r in H.
Qed.

Lemma CBlockHeader_gets h : header_ok h → gets CBlockHeader_Unserialize (header_bytes h) h.
Proof.
  intros (Hv & Hp & _ & Hm & _ & Ht & Hb & Hn). unfold CBlockHeader_Unserialize, header_bytes.
  apply gets_bind with (nVersion h mod 2 ^ 32).
  { rewrite <-(le_split_mod 4). by apply gets_u32, word_mod. }
  apply gets_bind with (1 := gets_uint256 _ Hp). apply gets_bind with (1 := gets_uint256 _ Hm).
  apply gets_bind with (1 := gets_u32 _ Ht). apply gets_bind with (1 := gets_u32 _ Hb).
  apply gets_bind_nil with (1 := gets_u32 _ Hn). rewrite to_signed_mod by done. destruct h. apply gets_ret.
Qed.
End Formats.

(** ** The hash of a header *)

(** Writes that fit leave the size of the vector. *)
Lemma CVectorWriter_fits s b :
  (nPos s + length b <= length (vchData s))%nat →
  length (vchData (CVectorWriter_write s b)) = length (vchData s) ∧
  nPos (CVectorWriter_write s b) = (nPos s + length b)%nat.
Proof.
  intros Hb. unfold CVectorWriter_write. cbn [vchData nPos].
  rewrite Nat.min_l by lia. rewrite Nat.ltb_irrefl. split; [|done].
  destruct (_ =? 0)%nat; [done|]. rewrite length_memcpy; [done|]. rewrite length_take. lia.
Qed.

Lemma CVectorWriter_fill l s :
  writer_ok s → (nPos s + length (concat l) = length (vchData s))%nat →
  vchData (fold_left write l s) = writer_out s ++ concat l.
Proof.
  revert s. induction l as [|b l IH]; intros s Hs Hl; cbn [fold_left concat] in *.
  - rewrite app_nil_r. symmetry. apply take_ge. cbn in Hl. lia.
  - rewrite length_app in Hl. destruct (CVectorWriter_fits s b) as [Hv Hp]; [lia|].
    rewrite IH; [by rewrite (write_out (WriterLaws := CVectorWriter_laws)), <-app_assoc| |].
    + by apply (write_ok (WriterLaws := CVectorWriter_laws)).
    + unfold write, CVectorWriter_writer. rewrite Hv, Hp. lia.
Qed.

Lemma length_header_bytes h : header_ok h → length (header_bytes h) = 80%nat.
Proof.
  intros (_ & Hp & _ & Hm & _). unfold header_bytes. rewrite !length_app, !length_le_split, Hp, Hm. done.
Qed.

#[local] Opaque HashX11 x11_spec.

Lemma GetHash_bytes stk h : header_ok h → GetHash stk h = HashX11 stk (header_bytes h).
Proof.
  intros Hh. pose proof (length_header_bytes h Hh) as Hl. unfold GetHash. cbv zeta. apply (f_equal (HashX11 stk)).
  set (l := [le_split 4 (nVersion h); hashPrevBlock h; hashMerkleRoot h;
    le_split 4 (nTime h); le_split 4 (nBits h); le_split 4 (nNonce h)]).
  assert (E : concat l = header_bytes h) by (unfold l, header_bytes; cbn [concat]; by rewrite app_nil_r).
  set (w := CVectorWriter_at (replicate 80 0) 0).
  assert (Hw : writer_ok w ∧ nPos w = 0%nat ∧ length (vchData w) = 80%nat ∧ writer_out w = [])
    by (unfold writer_ok; cbn; auto with lia).
  destruct Hw as (Hok & Hp & Hv & Ho). clearbody w.
  rewrite CBlockHeader_writes. fold l.
  rewrite CVectorWriter_fill by (done || (rewrite E, Hl, Hp, Hv; done)). by rewrite Ho, E.
Qed.

Lemma GetHash_spec stk h :
  stack_ok stk → header_ok h →
  GetHash stk h = x11_spec (header_bytes h) ∧ length (GetHash stk h) = WIDTH ∧ bytes (GetHash stk h).
Proof.
  intros Hs Hh. rewrite (GetHash_bytes stk h Hh).
  destruct (HashX11_spec stk (header_bytes h) Hs) as (E & Hl & Hb).
  { unfold bit_length. rewrite (length_header_bytes h Hh). reflexivity. }
  rewrite E. exact (conj eq_refl (conj Hl Hb)).
Qed.

Lemma GetHash_stack stk stk' h :
  stack_ok stk → stack_ok stk' → header_ok h → GetHash stk h = GetHash stk' h.
Proof.
  intros Hs Hs' Hh. destruct (GetHash_spec stk h Hs Hh) as [-> _].
  destruct (GetHash_spec stk' h Hs' Hh) as [-> _]. reflexivity.
Qed.
#[local] Transparent HashX11 x11_spec.

Lemma genesis_ok t n b : word 32 t → word 32 n → word 32 b → header_ok (genesis_header t n b 1).
Proof.
  intros. unfold header_ok, genesis_header. cbn [nVersion hashPrevBlock hashMerkleRoot nTime nBits nNonce].
  split; [lia|]. split; [done|]. split; [apply Forall_replicate; unfold word; lia|].
  split; [by vm_compute|]. split; [|done]. apply (bool_decide_unpack _). by vm_compute.
Qed.

Lemma genesis_hashes stk :
  stack_ok stk →
  GetHash stk genesis_main =
    uint256S "0x00000ffd590b1485b3caadc19b22e6379c733355108f107a430458cdf3407ab6"%string ∧
  GetHash stk genesis_testnet =
    uint256S "0x00000bafbc94add76cb75e2ec92894837288a481e5c005f6563d91623bf8bc2c"%string ∧
  GetHash stk genesis_regtest =
    uint256S "0x000008ca1832a4baf228eb1553c03d3a2c8e02399550dd6ea8d65cec3ef23d2e"%string.
Proof.
  intros Hs. unfold genesis_main, genesis_testnet, genesis_regtest.
  assert (H : ∀ t n b, word 32 t → word 32 n → word 32 b →
    GetHash stk (genesis_header t n b 1) = GetHash zero_stack (genesis_header t n b 1)).
  { intros t n b Ht Hn Hb. exact (GetHash_stack stk zero_stack _ Hs zero_stack_ok (genesis_ok t n b Ht Hn Hb)). }
  rewrite (H 1390095618 28917698 0x1e0ffff0), (H 1390666206 3861367235 0x1e0ffff0),
    (H 1417713337 1096447 0x207fffff) by (unfold word; lia).
  split; [|split]; vm_compute; reflexivity.
Qed.

(** C2: The hashes that chainparams.cpp asserts for the genesis blocks of the
    main network, the test network and the regression-test network are the
    hashes of their headers, computed by the whole chain of the eleven hash
    functions on the 80 serialized bytes, whatever the stack holds. *)
Theorem genesis_blocks stk :
  stack_ok stk →
  GetHash stk genesis_main =
    uint256S "0x00000ffd590b1485b3caadc19b22e6379c733355108f107a430458cdf3407ab6"%string ∧
  GetHash stk genesis_testnet =
    uint256S "0x00000bafbc94add76cb75e2ec92894837288a481e5c005f6563d91623bf8bc2c"%string ∧
  GetHash stk genesis_regtest =
    uint256S "0x000008ca1832a4baf228eb1553c03d3a2c8e02399550dd6ea8d65cec3ef23d2e"%string.
Proof. exact (genesis_hashes stk). Qed.

Lemma genesis_blocks_witness :
  GetHash zero_stack genesis_main =
    uint256S "0x00000ffd590b1485b3caadc19b22e6379c733355108f107a430458cdf3407ab6"%string.
Proof. exact (proj1 (genesis_blocks zero_stack zero_stack_ok)). Defined.

(** C23: The identity of a block: [GetHash] is the X11 hash of the 80 bytes of
    the header (version, previous hash, Merkle root, time, bits, nonce,
    little-endian), whatever the stack holds; reading those bytes from a
    stream gives the header back and leaves the rest of the stream. *)
Theorem GetHash_correct stk h :
  stack_ok stk → header_ok h →
  GetHash stk h = x11_spec (header_bytes h) ∧ length (header_bytes h) = 80%nat ∧
  (∀ s tail, stream_ok s → unread s = header_bytes h ++ tail →
    ∃ s', CBlockHeader_Unserialize s = inr (h, s') ∧ stream_ok s' ∧ unread s' = tail).
Proof.
  intros Hs Hh. split; [by apply GetHash_spec|]. split; [by apply length_header_bytes|].
  exact (CBlockHeader_gets (R := DataStream_reader_laws) h Hh).
Qed.

Lemma GetHash_correct_witness :
  GetHash zero_stack genesis_main = x11_spec (header_bytes genesis_main) ∧
  length (header_bytes genesis_main) = 80%nat.
Proof.
  assert (H : header_ok genesis_main) by (apply genesis_ok; unfold word; lia).
  destruct (GetHash_correct zero_stack genesis_main zero_stack_ok H) as (E & L & _). exact (conj E L).
Defined.

(** ** Compressed headers on the wire *)

Definition compressible_ok (c : CompressibleBlockHeader) : Prop :=
  header_ok (header c) ∧ byte (bit_field c) ∧ - 2 ^ 15 <= time_offset c < 2 ^ 15.

(** The fields on the wire, in order. *)
Definition compressed_fields (c : CompressibleBlockHeader) : list (list Z) :=
  let h := header c in let bf := bit_field c in
  [le_split 1 bf] ++
  (if IsVersionCompressed bf then [] else [le_split 4 (nVersion h)]) ++
  (if IsCompressed bf PREV_BLOCK_HASH then [] else [hashPrevBlock h]) ++
  [hashMerkleRoot h] ++
  (if IsCompressed bf TIMESTAMP then [le_split 2 (time_offset c)] else [le_split 4 (nTime h)]) ++
  (if IsCompressed bf NBITS then [] else [le_split 4 (nBits h)]) ++
  [le_split 4 (nNonce h)].

Definition compressed_bytes (c : CompressibleBlockHeader) : list Z := concat (compressed_fields c).

(** What is left of a header after the wire. *)
Definition stripped (c : CompressibleBlockHeader) : CompressibleBlockHeader :=
  let h := header c in let bf := bit_field c in
  mk_compressible
    (mk_header (if IsVersionCompressed bf then 0 else nVersion h)
       (if IsCompressed bf PREV_BLOCK_HASH then uint256_null else hashPrevBlock h)
       (hashMerkleRoot h)
       (if IsCompressed bf TIMESTAMP then 0 else nTime h)
       (if IsCompressed bf NBITS then 0 else nBits h) (nNonce h))
    bf (if IsCompressed bf TIMESTAMP then time_offset c else 0).

Section CompressedFormats.
Context {S : Type} `{!Writer S} `{!Reader S} {wok rok : S → Prop} {out rest : S → list Z}.
Context `{W : !WriterLaws S wok out} `{R : !ReaderLaws S rok rest}.
#[local] Abbreviation puts := (puts (wok := wok) (out := out)).
#[local] Abbreviation gets := (gets (rok := rok) (rest := rest)).

Lemma Compressible_puts c : puts (λ s, CompressibleBlockHeader_Serialize s c) (compressed_bytes c).
Proof.
  apply (puts_list (W := W)). intros s. unfold CompressibleBlockHeader_Serialize, compressed_fields. cbv zeta.
  destruct (IsVersionCompressed (bit_field c)), (IsCompressed (bit_field c) PREV_BLOCK_HASH),
    (IsCompressed (bit_field c) TIMESTAMP), (IsCompressed (bit_field c) NBITS); reflexivity.
Qed.

(** A field that is read or not. *)
Lemma gets_optional {A} (absent : bool) (m : parser S A) b a d :
  gets m b a → gets (if negb absent then m else ret d) (concat (if absent then [] else [b])) (if absent then d else a).
Proof.
  intros Hm. destruct absent; cbn [negb concat]; [apply gets_ret|]. by rewrite app_nil_r.
Qed.

Lemma Compressible_gets c :
  compressible_ok c → gets CompressibleBlockHeader_Unserialize (compressed_bytes c) (stripped c).
Proof.
  intros ((Hv & Hp & _ & Hm & _ & Ht & Hb & Hn) & Hbf & Ho).
  unfold compressed_bytes, compressed_fields, CompressibleBlockHeader_Unserialize. cbv zeta.
  set (bf := bit_field c) in *. rewrite !concat_app. cbn [concat]. rewrite !app_nil_r.
  apply gets_bind with bf; [rewrite le_split_1 by done; by apply (gets_byte (R := R))|].
  apply gets_bind with (1 := gets_optional _ _ _ _ _ (gets_signed 4 32 (nVersion (header c)) eq_refl ltac:(lia) Hv)).
  apply gets_bind with (1 := gets_optional _ _ _ _ _ (gets_uint256 _ Hp)).
  apply gets_bind with (1 := gets_uint256 _ Hm).
  apply gets_bind with (if IsCompressed bf TIMESTAMP then (0, time_offset c) else (nTime (header c), 0)).
  { destruct (IsCompressed bf TIMESTAMP); cbn [negb concat]; rewrite app_nil_r.
    - apply gets_bind_nil with (time_offset c mod 2 ^ 16).
      + rewrite <-(le_split_mod 2). apply (gets_readdata (R := R)). apply Z.mod_pos_bound. lia.
      + rewrite to_signed_mod by done. apply gets_ret.
    - apply gets_bind_nil with (1 := gets_u32 _ Ht). apply gets_ret. }
  apply gets_bind with (1 := gets_optional _ _ _ _ _ (gets_u32 _ Hb)).
  apply gets_bind_nil with (1 := gets_u32 _ Hn).
  unfold stripped. fold bf. destruct (IsCompressed bf TIMESTAMP); apply gets_ret.
Qed.
End CompressedFormats.

(** ** Compressing and uncompressing *)

(** The bit field after [Compress]: the version's position, and whether the time
    and the target are left out. *)
Definition flags (o : nat) (t n : bool) : Z :=
  Z.of_nat o + (if t then 0 else 16) + (if n then 0 else 32).

Lemma flags_tests o t n :
  (o < 8)%nat →
  byte (flags o t n) ∧ Z.to_nat (GetVersionOffset (flags o t n)) = o ∧
  IsVersionCompressed (flags o t n) = negb (o =? 0)%nat ∧
  IsCompressed (flags o t n) PREV_BLOCK_HASH = true ∧
  IsCompressed (flags o t n) TIMESTAMP = t ∧ IsCompressed (flags o t n) NBITS = n.
Proof.
  intros Ho. do 8 (destruct o as [|o]; [destruct t, n; (repeat split; vm_compute; (reflexivity || discriminate))|]). lia.
Qed.

(** The bit field [Compress] computes from that of an uncompressed header. *)
Lemma flags_made o (t n : bool) :
  (o < 8)%nat →
  let bf := if (o =? 0)%nat then bit_field (CompressibleBlockHeader_of CBlockHeader_null)
            else SetVersionOffset (bit_field (CompressibleBlockHeader_of CBlockHeader_null)) (Z.of_nat o mod 2 ^ 8) in
  let bf := MarkAsCompressed bf PREV_BLOCK_HASH in
  let bf := if t then MarkAsCompressed bf TIMESTAMP else bf in
  (if n then MarkAsCompressed bf NBITS else bf) = flags o t n.
Proof.
  intros Ho. do 8 (destruct o as [|o]; [destruct t, n; vm_compute; reflexivity|]). lia.
Qed.

(** *** The lists of recent versions *)

Lemma Save_take l v : (length l <= 7)%nat → SaveVersionAsMostRecent l v = take 7 (v :: l).
Proof.
  intros Hl. unfold SaveVersionAsMostRecent. cbn [length]. destruct (Nat.ltb_spec 7 (Datatypes.S (length l))).
  - rewrite removelast_firstn_len. cbn [length Nat.pred]. replace (length l) with 7%nat by lia. done.
  - rewrite take_ge by (cbn; lia). done.
Qed.

Lemma Save_prefix l k v :
  (length (l ++ k) <= 7)%nat →
  SaveVersionAsMostRecent l v `prefix_of` SaveVersionAsMostRecent (l ++ k) v.
Proof.
  intros Hl. rewrite length_app in Hl. rewrite !Save_take by (rewrite ?length_app; lia).
  rewrite app_comm_cons, take_app. by apply prefix_app_r.
Qed.

Lemma length_Save l v : (length l <= 7)%nat → (length (SaveVersionAsMostRecent l v) <= 7)%nat.
Proof. intros Hl. rewrite Save_take, length_take by done. lia. Qed.

Lemma Mark_app l k i :
  (i < length l)%nat → MarkVersionAsMostRecent (l ++ k) i = MarkVersionAsMostRecent l i ++ k.
Proof.
  intros Hi. unfold MarkVersionAsMostRecent. destruct (i =? 0)%nat; [done|].
  assert (E : (l ++ k) @@ i = l @@ i) by (unfold at_; by rewrite app_nth1).
  rewrite E, !delete_take_drop, take_app_le, drop_app_le by lia. cbn [app]. by rewrite <-app_assoc.
Qed.

Lemma length_Mark l i : (i < length l)%nat → length (MarkVersionAsMostRecent l i) = length l.
Proof.
  intros Hi. unfold MarkVersionAsMostRecent. destruct (i =? 0)%nat; [done|]. cbn [length].
  rewrite delete_take_drop, length_app, length_take, length_drop. lia.
Qed.

(** The sender's list is a prefix of the receiver's, and neither is too long. *)
Definition in_step (vs vr : list Z) : Prop := vs `prefix_of` vr ∧ (length vr <= 7)%nat.

(** The position [Compress] sends for the version, 0 when it sends the version. *)
Definition version_position (vs : list Z) (v : Z) : nat :=
  match list_find (λ x, x = v) vs with Some (i, _) => Datatypes.S i | None => 0 end.

Definition versions_sent (vs : list Z) (v : Z) : list Z :=
  match list_find (λ x, x = v) vs with
  | Some (i, _) => MarkVersionAsMostRecent vs i
  | None => SaveVersionAsMostRecent vs v
  end.

Lemma version_step vs vr v :
  in_step vs vr →
  (version_position vs v < 8)%nat ∧
  (if (version_position vs v =? 0)%nat then in_step (versions_sent vs v) (SaveVersionAsMostRecent vr v)
   else (version_position vs v <= length vr)%nat ∧ vr @@ (version_position vs v - 1) = v ∧
     in_step (versions_sent vs v) (MarkVersionAsMostRecent vr (version_position vs v - 1))).
Proof.
  intros [[k ->] Hl]. unfold version_position, versions_sent.
  destruct (list_find (λ x, x = v) vs) as [[i x]|] eqn:E.
  - apply list_find_Some in E as (Hi & -> & _). pose proof (lookup_lt_Some _ _ _ Hi) as Hlt.
    rewrite length_app in *. split; [lia|]. cbn [Nat.eqb]. rewrite Nat.sub_1_r. cbn [Nat.pred].
    split; [lia|]. split; [apply at_lookup; by apply lookup_app_l_Some|].
    unfold in_step. rewrite Mark_app by done. split; [by apply prefix_app_r|].
    rewrite length_app, length_Mark by done. lia.
  - split; [lia|]. cbn [Nat.eqb]. split; [by apply Save_prefix|by apply length_Save].
Qed.

(** *** One header *)

(** The difference of the unsigned timestamps, as the code computes it. *)
Definition time_diff (t t' : Z) : Z := (t - t') mod 2 ^ 32.

Definition compressed_against (lb h : CBlockHeader) (o : nat) : CompressibleBlockHeader :=
  let t := time_diff (nTime h) (nTime lb) <=? 32767 in
  mk_compressible h (flags o t (nBits h =? nBits lb)) (if t then time_diff (nTime h) (nTime lb) else 0).

Lemma Compress_spec cs lb h vs :
  last cs = Some lb → (version_position vs (nVersion h) < 8)%nat →
  Compress (CompressibleBlockHeader_of h) cs vs =
  (compressed_against (header lb) h (version_position vs (nVersion h)), versions_sent vs (nVersion h)).
Proof.
  intros Hl. unfold Compress, compressed_against, version_position, versions_sent. rewrite Hl. cbv zeta.
  change (header (CompressibleBlockHeader_of h)) with h. fold (time_diff (nTime h) (nTime (header lb))).
  assert (Hd : (-32768 <=? time_diff (nTime h) (nTime (header lb))) = true).
  { apply Z.leb_le. unfold time_diff. pose proof (Z.mod_pos_bound (nTime h - nTime (header lb)) (2 ^ 32)). lia. }
  rewrite Hd, andb_true_r. set (td := time_diff _ _). set (b := nBits h =? _).
  destruct (list_find (λ x, x = nVersion h) vs) as [[i x]|]; intros Ho.
  - rewrite <-(flags_made (Datatypes.S i) (td <=? 32767) b Ho). cbv zeta. cbn [Nat.eqb].
    replace (Z.of_nat i + 1) with (Z.of_nat (Datatypes.S i)) by lia. by destruct (td <=? 32767).
  - rewrite <-(flags_made 0 (td <=? 32767) b Ho). cbv zeta. cbn [Nat.eqb]. by destruct (td <=? 32767).
Qed.

Lemma compressed_against_ok lb h o : header_ok h → (o < 8)%nat → compressible_ok (compressed_against lb h o).
Proof.
  intros Hh Ho. unfold compressible_ok, compressed_against. cbn [header bit_field time_offset].
  split; [done|]. split; [by apply flags_tests|].
  destruct (Z.leb_spec (time_diff (nTime h) (nTime lb)) 32767); [|lia].
  unfold time_diff in *. pose proof (Z.mod_pos_bound (nTime h - nTime lb) (2 ^ 32)). lia.
Qed.

Lemma time_restored t t' : word 32 t → (t' + time_diff t t') mod 2 ^ 32 = t.
Proof.
  intros Ht. unfold time_diff. rewrite Zplus_mod_idemp_r. replace (t' + (t - t')) with t by lia.
  by apply Z.mod_small.
Qed.

#[local] Opaque GetHash x11_spec.

(** The receiver gets the header back. *)
Lemma Uncompress_spec stk done lb h vs vr :
  last done = Some lb → in_step vs vr → header_ok h → header_ok lb → stack_ok stk →
  hashPrevBlock h = x11_spec (header_bytes lb) →
  let r := Uncompress stk (stripped (compressed_against lb h (version_position vs (nVersion h)))) done vr in
  header (fst r) = h ∧ in_step (versions_sent vs (nVersion h)) (snd r).
Proof.
  intros Hl Hin Hh Hlb Hs Hp. destruct (version_step vs vr (nVersion h) Hin) as [Ho Hv].
  set (o := version_position vs (nVersion h)) in *.
  destruct (GetHash_spec stk lb Hs Hlb) as [Eg _]. destruct Hh as (_ & _ & _ & _ & _ & Ht & _).
  unfold compressed_against. set (t := time_diff _ _ <=? 32767). set (n := nBits h =? nBits lb).
  destruct (flags_tests o t n Ho) as (_ & Eo & Ev & Ep & Et & En).
  unfold stripped, Uncompress. cbn [header bit_field time_offset]. cbv zeta. rewrite Hl, Ev, Eo, Ep, Et, En.
  cbn [nVersion hashPrevBlock hashMerkleRoot nTime nBits nNonce].
  assert (Etime : (if t then (nTime lb + (if t then time_diff (nTime h) (nTime lb) else 0)) mod 2 ^ 32
                   else nTime h) = nTime h) by (destruct t; [by apply time_restored|done]).
  assert (Ebits : (if n then nBits lb else nBits h) = nBits h)
    by (unfold n; by destruct (Z.eqb_spec (nBits h) (nBits lb)) as [<-|]).
  destruct (o =? 0)%nat; cbn [negb].
  - cbn [header fst snd]. split; [|exact Hv]. rewrite Eg, <-Hp.
    clear -Etime Ebits. destruct t, n, h; cbn in *; congruence.
  - destruct Hv as (Hle & Ever & Hv'). destruct (Nat.leb_spec o (length vr)); [|lia].
    cbn [header fst snd]. split; [|exact Hv']. rewrite Eg, <-Hp, Ever.
    clear -Etime Ebits. destruct t, n, h; cbn in *; congruence.
Qed.

(** *** The message *)

(** [hs] continues the chain after [prev]. *)
Fixpoint linked (prev : CBlockHeader) (hs : list CBlockHeader) : Prop :=
  match hs with
  | [] => True
  | h :: hs => header_ok h ∧ hashPrevBlock h = x11_spec (header_bytes prev) ∧ linked h hs
  end.

(** A chain of headers: the first one is any header. *)
Definition chain (hs : list CBlockHeader) : Prop :=
  match hs with [] => True | h :: hs => header_ok h ∧ linked h hs end.

(** The headers compressed after [cs], with the sender's versions [vs]. *)
Fixpoint compress_from (cs : list CompressibleBlockHeader) (vs : list Z) (hs : list CBlockHeader)
    : list CompressibleBlockHeader :=
  match hs with
  | [] => []
  | h :: hs =>
      let r := Compress (CompressibleBlockHeader_of h) cs vs in
      fst r :: compress_from (cs ++ [fst r]) (snd r) hs
  end.

Lemma announce_from hs cs vs :
  fst (fold_left (λ '(v_headers, versions) h,
    let '(c, versions) := Compress (CompressibleBlockHeader_of h) v_headers versions in
    (v_headers ++ [c], versions)) hs (cs, vs)) = cs ++ compress_from cs vs hs.
Proof.
  revert cs vs. induction hs as [|h hs IH]; intros cs vs; cbn [fold_left compress_from].
  - by rewrite app_nil_r.
  - destruct (Compress _ cs vs) as [c vs']. rewrite IH. cbn [fst snd]. by rewrite <-app_assoc.
Qed.

Lemma answer_from hs cs vs :
  cs ≠ [] →
  fst (fold_left (λ '(v_headers, versions) h,
    let c := CompressibleBlockHeader_of h in
    let '(c, versions) := match v_headers with
      | [] => (c, versions)
      | _ => Compress c v_headers versions
      end in
    (v_headers ++ [c], versions)) hs (cs, vs)) = cs ++ compress_from cs vs hs.
Proof.
  revert cs vs. induction hs as [|h hs IH]; intros cs vs Hcs; cbn [fold_left compress_from].
  - by rewrite app_nil_r.
  - destruct cs as [|c0 cs]; [done|]. cbv zeta. destruct (Compress _ (c0 :: cs) vs) as [c vs'].
    rewrite IH by done. cbn [fst snd]. by rewrite <-app_assoc.
Qed.

(** Both senders send the first header as it is; they differ in the versions. *)
Lemma senders h hs v :
  v = fst (answer_getheaders2 (h :: hs)) ∨ v = fst (announce_headers2 (h :: hs)) →
  ∃ vs, (vs = [] ∨ vs = [nVersion h]) ∧
    v = CompressibleBlockHeader_of h :: compress_from [CompressibleBlockHeader_of h] vs hs.
Proof.
  intros [-> | ->].
  - exists []. split; [by left|]. unfold answer_getheaders2. cbn [fold_left]. by rewrite answer_from.
  - exists [nVersion h]. split; [by right|]. unfold announce_headers2. cbn [fold_left].
    exact (announce_from hs [CompressibleBlockHeader_of h] [nVersion h]).
Qed.

Section MessageFormats.
Context {S : Type} `{!Writer S} `{!Reader S} {wok rok : S → Prop} {out rest : S → list Z}.
Context `{W : !WriterLaws S wok out} `{R : !ReaderLaws S rok rest}.
#[local] Abbreviation puts := (puts (wok := wok) (out := out)).
#[local] Abbreviation gets := (gets (rok := rok) (rest := rest)).
Context (stks : nat → stack) (Hstks : ∀ n, stack_ok (stks n)).

Lemma read_headers_gets hs cs vs vr prev lb :
  last cs = Some lb → header lb = prev → last (header <$> cs) = Some prev →
  header_ok prev → linked prev hs → in_step vs vr →
  gets (read_headers_loop stks (length hs) (header <$> cs) vr)
    (concat (compressed_bytes <$> compress_from cs vs hs)) ((header <$> cs) ++ hs).
Proof.
  revert cs vs vr prev lb. induction hs as [|h hs IH]; intros cs vs vr prev lb Hl Hlb Hd Hp Hc Hin.
  { rewrite app_nil_r. apply gets_ret. }
  destruct Hc as (Hh & Ehash & Hc). destruct (version_step vs vr (nVersion h) Hin) as [Ho _].
  cbn [compress_from]. rewrite (Compress_spec cs lb h vs Hl Ho), Hlb. cbn [fst snd].
  cbn [length read_headers_loop fmap list_fmap concat].
  set (c := compressed_against prev h (version_position vs (nVersion h))).
  apply gets_bind with (1 := Compressible_gets (R := R) c (compressed_against_ok prev h _ Hh Ho)).
  destruct (Uncompress_spec (stks (length hs)) (header <$> cs) prev h vs vr Hd Hin Hh Hp (Hstks _) Ehash)
    as [Er Hin']. fold c in Er, Hin'. rewrite Er.
  assert (Ec : header c = h) by done. rewrite (cons_middle h (header <$> cs) hs) , app_assoc.
  assert (Ed : (header <$> cs) ++ [h] = header <$> (cs ++ [c])) by (by rewrite fmap_app; cbn [fmap list_fmap]; rewrite Ec).
  rewrite Ed. apply (IH (cs ++ [c]) _ _ h c); [apply last_snoc|done| |done|done|done].
  rewrite <-Ed. apply last_snoc.
Qed.

Lemma first_gets h : header_ok h →
  gets CompressibleBlockHeader_Unserialize (compressed_bytes (CompressibleBlockHeader_of h))
    (CompressibleBlockHeader_of h).
Proof.
  intros Hh. pose proof (Compressible_gets (R := R) (CompressibleBlockHeader_of h)) as H.
  change (stripped (CompressibleBlockHeader_of h)) with
    (mk_compressible (mk_header (nVersion h) (hashPrevBlock h) (hashMerkleRoot h) (nTime h) (nBits h) (nNonce h))
       (bit_field (CompressibleBlockHeader_of h)) 0) in H.
  destruct h. apply H. split; [done|]. split; [by vm_compute|]. cbn [time_offset CompressibleBlockHeader_of]. lia.
Qed.

Definition headers2_bytes (v : list CompressibleBlockHeader) : list Z :=
  compact_bytes (Z.of_nat (length v)) ++ concat (compressed_bytes <$> v).

Lemma length_compress_from cs vs hs : length (compress_from cs vs hs) = length hs.
Proof.
  revert cs vs. induction hs as [|h hs IH]; intros cs vs; [done|]. cbn [compress_from length]. by rewrite IH.
Qed.

(** C24: A headers2 message carries a chain of headers faithfully: compressing
    each header against the one before it (position in the list of recent
    versions, previous hash left out, time offset, bits left out),
    serializing, reading back and uncompressing gives the same headers, for
    both senders of the program: the announcement, and the answer to
    getheaders2, which does not record the first header's version, so that the
    sender's list of recent versions is only a prefix of the receiver's. *)
Theorem headers2_roundtrip recent hs v :
  chain hs → Z.of_nat (length hs) <= GetHeadersLimit recent true →
  v = fst (answer_getheaders2 hs) ∨ v = fst (announce_headers2 hs) →
  puts (λ s, write_headers2 s v) (headers2_bytes v) ∧
  gets (read_headers2 (GetHeadersLimit recent true) stks) (headers2_bytes v) hs.
Proof.
  intros Hc Hl Hv. set (limit := GetHeadersLimit recent true) in *.
  assert (Hlim : limit <= 8000) by (unfold limit; by destruct recent).
  assert (El : length v = length hs).
  { destruct hs as [|h hs]; [by destruct Hv as [-> | ->]|].
    destruct (senders h hs v Hv) as (vs & _ & ->). cbn [length]. by rewrite length_compress_from. }
  unfold headers2_bytes. rewrite El. split.
  - unfold write_headers2, Vector_Ser. rewrite El.
    apply (puts_seq (λ s, WriteCompactSize s _) (λ s, fold_left CompressibleBlockHeader_Serialize v s)).
    + apply (WriteCompactSize_puts (W := W)). lia.
    + apply puts_fold. intros c _. apply (Compressible_puts (W := W)).
  - apply gets_bind with (Z.of_nat (length hs)).
    { apply (ReadCompactSize_gets (R := R)); [lia|]. unfold MAX_SIZE. lia. }
    destruct (Z.ltb_spec limit (Z.of_nat (length hs))); [lia|]. rewrite Nat2Z.id.
    destruct hs as [|h hs]; [by destruct v; [apply gets_ret|]|].
    destruct (senders h hs v Hv) as (vs & Hvs & ->). destruct Hc as [Hh Hc].
    cbn [length read_headers_loop fmap list_fmap concat].
    apply gets_bind with (1 := first_gets h Hh).
    change (Uncompress (stks (length hs)) (CompressibleBlockHeader_of h) [] []) with
      (CompressibleBlockHeader_of h, [nVersion h]). cbn [fst snd].
    apply (read_headers_gets hs [CompressibleBlockHeader_of h] vs [nVersion h] h (CompressibleBlockHeader_of h));
      try done.
    split; [destruct Hvs as [-> | ->]; [apply prefix_nil|done]|cbn; lia].
Qed.
End MessageFormats.

Lemma headers2_roundtrip_witness :
  gets (rok := stream_ok) (rest := unread) (read_headers2 (GetHeadersLimit true true) (λ _, zero_stack))
    (headers2_bytes (fst (announce_headers2 [genesis_main]))) [genesis_main].
Proof.
  refine (proj2 (headers2_roundtrip (W := DataStream_writer_laws) (R := DataStream_reader_laws)
    (λ _, zero_stack) (λ _, zero_stack_ok) true [genesis_main] (fst (announce_headers2 [genesis_main])) _ _
    (or_intror eq_refl))); [|vm_compute; discriminate].
  split; [apply genesis_ok; unfold word; lia|exact I].
Defined.
