(* ===== verification/Arith256.v ===== *)
(** 256-bit unsigned integers: [src/arith_uint256.h] and
    [src/arith_uint256.cpp].

    A number is its eight 32-bit limbs [pn], the low one first; a loop over the
    limbs is a recursion over the list.  [val] is the number the limbs stand
    for.  Every operation is proved to compute the operation of Z modulo 2^256,
    including the bit-by-bit division; the compact format of difficulty targets
    is proved against mantissa and exponent. *)
From S2P Require Import Prelude SphTypes Uint256.
From stdpp Require Import list.
#[local] Open Scope Z_scope.

Definition LIMBS : nat := 8.

(** ** The code *)

Definition base_uint_of (b : Z) : list Z :=
  SPH_T32 b :: SPH_T32 (b ≫ 32) :: replicate (LIMBS - 2) 0.

Definition GetLow64 (pn : list Z) : Z := Z.lor (pn @@ 0) (pn @@ 1 ≪ 32).

Definition bit_not (pn : list Z) : list Z := not32 <$> pn.

(** The loop of [operator+=] with the carry. *)
Fixpoint add_loop (pn b : list Z) (carry : Z) : list Z :=
  match pn, b with
  | x :: pn, y :: b =>
      let n := SPH_T64 (carry + x + y) in Z.land n 0xFFFFFFFF :: add_loop pn b (n ≫ 32)
  | _, _ => []
  end.
Definition add (pn b : list Z) : list Z := add_loop pn b 0.

(** [operator++] and [operator--]: stop at the first limb that does not wrap. *)
Fixpoint increment (pn : list Z) : list Z :=
  match pn with
  | [] => []
  | x :: pn => let x := SPH_T32 (x + 1) in x :: (if x =? 0 then increment pn else pn)
  end.
Fixpoint decrement (pn : list Z) : list Z :=
  match pn with
  | [] => []
  | x :: pn => let x := SPH_T32 (x - 1) in x :: (if x =? 0xFFFFFFFF then decrement pn else pn)
  end.

Definition neg (pn : list Z) : list Z := increment (bit_not pn).
Definition sub (pn b : list Z) : list Z := add pn (neg b).

Definition bit_xor (pn b : list Z) : list Z := zip_with Z.lxor pn b.
Definition bit_and (pn b : list Z) : list Z := zip_with Z.land pn b.
Definition bit_or (pn b : list Z) : list Z := zip_with Z.lor pn b.

(** The overloads on a 64-bit operand: [^=] and [|=] work on the two low limbs. *)
Definition xor64 (pn : list Z) (b : Z) : list Z :=
  <[1%nat := pn @@ 1 ^^ SPH_T32 (b ≫ 32)]> (<[0%nat := pn @@ 0 ^^ SPH_T32 b]> pn).
Definition or64 (pn : list Z) (b : Z) : list Z :=
  <[1%nat := Z.lor (pn @@ 1) (SPH_T32 (b ≫ 32))]> (<[0%nat := Z.lor (pn @@ 0) (SPH_T32 b)]> pn).
Definition add64 (pn : list Z) (b64 : Z) : list Z := add pn (base_uint_of b64).
Definition sub64 (pn : list Z) (b64 : Z) : list Z := add pn (neg (base_uint_of b64)).

(** [operator<<=]: [pn] starts at zero and collects the shifted limbs of [a]. *)
Definition shift_left (a : list Z) (shift : Z) : list Z :=
  let k := Z.to_nat (shift / 32) in
  let shift := shift mod 32 in
  fold_left (λ pn i,
      let pn := if ((i + k + 1 <? LIMBS)%nat && negb (shift =? 0))
                then <[(i + k + 1)%nat := Z.lor (pn @@ (i + k + 1)) (a @@ i ≫ (32 - shift))]> pn else pn in
      if (i + k <? LIMBS)%nat
      then <[(i + k)%nat := Z.lor (pn @@ (i + k)) (SPH_T32 (a @@ i ≪ shift))]> pn else pn)
    (seq 0 LIMBS) (replicate LIMBS 0).

Definition shift_right (a : list Z) (shift : Z) : list Z :=
  let k := Z.to_nat (shift / 32) in
  let shift := shift mod 32 in
  fold_left (λ pn i,
      let pn := if ((k + 1 <=? i)%nat && negb (shift =? 0))
                then <[(i - k - 1)%nat := Z.lor (pn @@ (i - k - 1)) (SPH_T32 (a @@ i ≪ (32 - shift)))]> pn else pn in
      if (k <=? i)%nat
      then <[(i - k)%nat := Z.lor (pn @@ (i - k)) (a @@ i ≫ shift)]> pn else pn)
    (seq 0 LIMBS) (replicate LIMBS 0).

(** [operator*=(uint32_t)]. *)
Fixpoint mul32_loop (pn : list Z) (b32 carry : Z) : list Z :=
  match pn with
  | [] => []
  | x :: pn => let n := SPH_T64 (carry + b32 * x) in Z.land n 0xFFFFFFFF :: mul32_loop pn b32 (n ≫ 32)
  end.
Definition mul32 (pn : list Z) (b32 : Z) : list Z := mul32_loop pn (SPH_T32 b32) 0.

(** The inner loop of [operator*=]: [p * b] is added to the limbs from [j] on. *)
Fixpoint mul_row (p : Z) (a b : list Z) (carry : Z) : list Z :=
  match a, b with
  | x :: a, y :: b =>
      let n := SPH_T64 (carry + x + p * y) in Z.land n 0xFFFFFFFF :: mul_row p a b (n ≫ 32)
  | _, _ => []
  end.
Definition mul (pn b : list Z) : list Z :=
  fold_left (λ a j, take j a ++ mul_row (pn @@ j) (drop j a) b 0) (seq 0 LIMBS) (replicate LIMBS 0).

(** [CompareTo], from the top limb: the limbs reversed. *)
Fixpoint compare_loop (a b : list Z) : Z :=
  match a, b with
  | x :: a, y :: b => if x <? y then -1 else if y <? x then 1 else compare_loop a b
  | _, _ => 0
  end.
Definition CompareTo (pn b : list Z) : Z := compare_loop (rev pn) (rev b).

Definition EqualTo (pn : list Z) (b : Z) : bool :=
  forallb (λ x, x =? 0) (drop 2 pn) && (pn @@ 1 =? b ≫ 32) && (pn @@ 0 =? Z.land b 0xFFFFFFFF).

(** The position of the highest bit of a limb: the loop from bit 31 down to 1. *)
Fixpoint high_bit (x : Z) (nbits : nat) : nat :=
  match nbits with
  | O => 1
  | S n => if negb (Z.land x (1 ≪ Z.of_nat nbits) =? 0) then nbits + 1 else high_bit x n
  end.

Fixpoint bits_loop (pn : list Z) (pos : nat) : Z :=
  match pos with
  | O => 0
  | S p => if negb (pn @@ p =? 0) then Z.of_nat (32 * p + high_bit (pn @@ p) 31) else bits_loop pn p
  end.
Definition bits (pn : list Z) : Z := bits_loop pn LIMBS.

(** The loop of [operator/=], [shift + 1] turns. *)
Fixpoint div_loop (turns : nat) (num div quot : list Z) : list Z * list Z :=
  match turns with
  | O => (quot, num)
  | S shift =>
      let '(num, quot) :=
        if 0 <=? CompareTo num div then
          (sub num div,
           <[(shift / 32)%nat := Z.lor (quot @@ (shift / 32)) (1 ≪ Z.land (Z.of_nat shift) 31)]> quot)
        else (num, quot) in
      div_loop shift num (shift_right div 1) quot
  end.

(** [None] is the exception on a division by zero. *)
Definition div (pn b : list Z) : option (list Z) :=
  let num_bits := bits pn in
  let div_bits := bits b in
  if div_bits =? 0 then None
  else if num_bits <? div_bits then Some (base_uint_of 0)
  else
    let shift := num_bits - div_bits in
    Some (fst (div_loop (Z.to_nat (shift + 1)) pn (shift_left b shift) (base_uint_of 0))).

(** *** The compact format *)

(** The number, [*pfNegative] and [*pfOverflow]. *)
Definition SetCompact (nCompact : Z) : list Z * bool * bool :=
  let nSize := nCompact ≫ 24 in
  let nWord := Z.land nCompact 0x007FFFFF in
  let '(n, nWord) :=
    if nSize <=? 3 then let w := nWord ≫ (8 * (3 - nSize)) in (base_uint_of w, w)
    else (shift_left (base_uint_of nWord) (8 * (nSize - 3)), nWord) in
  (n, negb (nWord =? 0) && negb (Z.land nCompact 0x00800000 =? 0),
   negb (nWord =? 0) && ((34 <? nSize) || ((0xFF <? nWord) && (33 <? nSize)) ||
                         ((0xFFFF <? nWord) && (32 <? nSize)))).

(** [None] is a failed assertion. *)
Definition GetCompact (pn : list Z) (fNegative : bool) : option Z :=
  let nSize := (bits pn + 7) / 8 in
  let nCompact :=
    if nSize <=? 3 then SPH_T32 (SPH_T64 (GetLow64 pn ≪ (8 * (3 - nSize))))
    else SPH_T32 (GetLow64 (shift_right pn (8 * (nSize - 3)))) in
  let '(nCompact, nSize) :=
    if negb (Z.land nCompact 0x00800000 =? 0) then (nCompact ≫ 8, nSize + 1) else (nCompact, nSize) in
  if negb (Z.land nCompact (not32 0x007FFFFF) =? 0) || negb (nSize <? 256) then None else
  let nCompact := Z.lor nCompact (SPH_T32 (nSize ≪ 24)) in
  Some (Z.lor nCompact
          (if fNegative && negb (Z.land nCompact 0x007FFFFF =? 0) then 0x00800000 else 0)).

(** *** Conversion to and from blobs *)

Definition ArithToUint256 (a : list Z) : list Z := concat (le_split 4 <$> a).
Definition UintToArith256 (a : list Z) : list Z :=
  (λ x, le_join (take 4 (drop (x * 4) a))) <$> seq 0 LIMBS.

(** *** Text *)

Definition arith_GetHex (pn : list Z) : list Z := GetHex (concat (le_split 4 <$> pn)).
Definition arith_SetHex (psz : list Z) : list Z :=
  let b := SetHex psz in (λ x, le_join (take 4 (drop (x * 4) b))) <$> seq 0 LIMBS.

(** ** The number the limbs stand for *)

Fixpoint val (l : list Z) : Z :=
  match l with [] => 0 | x :: l => x + 2 ^ 32 * val l end.

(** An [arith_uint256]: eight limbs of 32 bits. *)
Definition limbs (l : list Z) : Prop := length l = LIMBS ∧ words 32 l.

#[export] Instance limbs_dec l : Decision (limbs l).
Proof. unfold limbs. apply _. Defined.

Abbreviation width l := (32 * Z.of_nat (length l)).

Lemma width_cons (x : Z) l : width (x :: l) = 32 + width l.
Proof. cbn [length]. lia. Qed.

Lemma val_bound l : words 32 l → word (width l) (val l).
Proof.
  induction 1 as [|x l Hx Hl IH]; [by vm_compute|]. rewrite width_cons. unfold word in *. cbn [val].
  rewrite Z.pow_add_r by lia. nia.
Qed.

Lemma limbs_bound l : limbs l → word 256 (val l).
Proof. intros [Hn Hl]. pose proof (val_bound l Hl) as H. by rewrite Hn in H. Qed.

Lemma val_app a b : val (a ++ b) = val a + 2 ^ width a * val b.
Proof.
  induction a as [|x a IH]; cbn [app val]; [cbn; lia|].
  rewrite IH, width_cons, Z.pow_add_r by lia. lia.
Qed.

Lemma val_zeros n : val (replicate n 0) = 0.
Proof. induction n as [|n IH]; cbn [replicate val]; lia. Qed.

(** The bits of the number are the bits of its limbs. *)
Lemma val_testbit l i :
  words 32 l → 0 <= i → Z.testbit (val l) i = Z.testbit (l @@ Z.to_nat (i / 32)) (i mod 32).
Proof.
  intros Hl. revert i. induction Hl as [|x l Hx Hl IH]; intros i Hi.
  - unfold at_. cbn [val]. rewrite Z.bits_0. destruct (Z.to_nat (i / 32)); cbn; by rewrite Z.bits_0.
  - cbn [val]. rewrite Z.add_comm, Z.mul_comm.
    rewrite <-(lor_shiftl_add 32 (val l) x) by (done || lia).
    rewrite Z.lor_spec, Z.shiftl_spec by done.
    destruct (Z.lt_ge_cases i 32) as [Hlt|Hge].
    + rewrite Z.testbit_neg_r, Z.div_small, Z.mod_small by lia. done.
    + rewrite (word_testbit_high 32 x), orb_false_r, IH by (done || lia).
      assert (E : i / 32 = (i - 32) / 32 + 1) by (rewrite <-Z.div_add by lia; f_equal; lia).
      rewrite E, Z2Nat.inj_add, Nat.add_comm by (try apply Z.div_pos; lia).
      cbn [Z.to_nat Pos.to_nat Nat.add]. unfold at_. cbn [nth].
      f_equal. rewrite <-(Z.mod_add (i - 32) 1 32) by lia. f_equal. lia.
Qed.

Lemma val_inj a b : length a = length b → words 32 a → words 32 b → val a = val b → a = b.
Proof.
  intros Hn Ha. revert b Hn. induction Ha as [|x a Hx Ha IH]; intros [|y b] Hn Hb E;
    cbn [length] in Hn; try lia; [done|].
  apply Forall_cons_1 in Hb as [Hy Hb]. cbn [val] in E. unfold word in *.
  assert (x = y ∧ val a = val b) as [-> Ev] by lia. f_equal. apply IH; auto.
Qed.

(** ** Addition and multiplication *)

(** One step of a carry loop: the low half is kept, the high half carried. *)
Lemma carry_step n m v :
  0 <= m → n mod 2 ^ 32 + 2 ^ 32 * ((v + n / 2 ^ 32) mod 2 ^ m) =
  (n + 2 ^ 32 * v) mod 2 ^ (32 + m).
Proof.
  intros Hm. rewrite Z.pow_add_r, Z.rem_mul_r by lia.
  rewrite (Z.mul_comm _ v) at 1. rewrite Z.mod_add by lia. f_equal. f_equal.
  rewrite (Z.mul_comm _ v), Z.div_add by lia. f_equal. lia.
Qed.

Lemma mul_row_spec p a b c :
  word 32 p → words 32 a → words 32 b → word 32 c → (length a <= length b)%nat →
  val (mul_row p a b c) = (val a + p * val b + c) mod 2 ^ width a
  ∧ length (mul_row p a b c) = length a ∧ words 32 (mul_row p a b c).
Proof.
  intros Hp Ha. revert b c. induction Ha as [|x a Hx Ha IH]; intros [|y b] c Hb Hc Hn;
    cbn [length] in Hn; try lia; [by rewrite Z.mod_1_r|by rewrite Z.mod_1_r|].
  apply Forall_cons_1 in Hb as [Hy Hb]. cbn [mul_row].
  assert (Hn64 : 0 <= c + x + p * y < 2 ^ 64) by (unfold word in *; nia).
  rewrite (SPH_T64_id (c + x + p * y)) by done. set (n := c + x + p * y) in *.
  assert (Hc' : word 32 (n ≫ 32)).
  { rewrite Z.shiftr_div_pow2 by lia. split; [apply Z.div_pos; lia|]. apply Z.div_lt_upper_bound; lia. }
  destruct (IH b (n ≫ 32) Hb Hc' ltac:(lia)) as (E & El & Ew). split; [|split].
  - cbn [val]. rewrite E. change (Z.land n 0xFFFFFFFF) with (SPH_T32 n).
    rewrite SPH_T32_mod, Z.shiftr_div_pow2 by lia. rewrite carry_step by lia. rewrite width_cons.
    f_equal. unfold n. lia.
  - cbn [length]. lia.
  - constructor; [apply word_T32|done].
Qed.

Lemma add_loop_row a b c : add_loop a b c = mul_row 1 a b c.
Proof.
  revert b c. induction a as [|x a IH]; intros [|y b] c; try done.
  cbn [add_loop mul_row]. by rewrite Z.mul_1_l, IH.
Qed.

Lemma mul32_loop_row pn p c : mul32_loop pn p c = mul_row p (replicate (length pn) 0) pn c.
Proof.
  revert c. induction pn as [|x pn IH]; intros c; [done|].
  cbn [mul32_loop length replicate mul_row]. by rewrite Z.add_0_r, IH.
Qed.

(** An operation on 256-bit numbers that computes [v]. *)
Definition computes (r : list Z) (v : Z) : Prop := limbs r ∧ val r = v.

Lemma computes_val r v : computes r v → val r = v.
Proof. by intros [_ ?]. Qed.

Lemma words_zeros n : words 32 (replicate n 0).
Proof. apply Forall_replicate. by vm_compute. Qed.

Lemma limbs_width l : limbs l → width l = 256.
Proof. by intros [-> _]. Qed.

Lemma base_uint_of_spec b : word 64 b → computes (base_uint_of b) b.
Proof.
  intros Hb. repeat split.
  - unfold base_uint_of. repeat constructor; try apply word_T32; by vm_compute.
  - unfold base_uint_of. cbn [val]. rewrite val_zeros, !SPH_T32_mod, Z.shiftr_div_pow2 by lia.
    rewrite (Z.mod_small (b / _)) by (unfold word in Hb; split; [apply Z.div_pos; lia|apply Z.div_lt_upper_bound; lia]).
    pose proof (Z.div_mod b (2 ^ 32)). lia.
Qed.

Lemma add_spec a b : limbs a → limbs b → computes (add a b) ((val a + val b) mod 2 ^ 256).
Proof.
  intros Ha Hb. unfold add. rewrite add_loop_row.
  destruct (mul_row_spec 1 a b 0) as (E & El & Ew);
    [by vm_compute|apply Ha|apply Hb|by vm_compute|by destruct Ha as [-> _], Hb as [-> _]|].
  split; [split; [by rewrite El; apply Ha|done]|]. rewrite E, limbs_width by done. f_equal. lia.
Qed.

Lemma mul32_spec a p : limbs a → computes (mul32 a p) ((val a * (p mod 2 ^ 32)) mod 2 ^ 256).
Proof.
  intros Ha. unfold mul32. rewrite mul32_loop_row, SPH_T32_mod.
  destruct (mul_row_spec (p mod 2 ^ 32) (replicate (length a) 0) a 0) as (E & El & Ew);
    [by apply word_mod|apply words_zeros|apply Ha|by vm_compute|by rewrite length_replicate|].
  rewrite length_replicate in *. split; [split; [by rewrite El; apply Ha|done]|].
  rewrite E, limbs_width, val_zeros by done. f_equal. lia.
Qed.

Lemma take_S_at (l : list Z) i : (i < length l)%nat → take (S i) l = take i l ++ [l @@ i].
Proof. intros. by apply take_S_r, lookup_at. Qed.

(** After [j] rows the accumulator is the product with the low [j] limbs. *)
Lemma mul_rows a b j :
  limbs a → limbs b → (j <= LIMBS)%nat →
  computes (fold_left (λ r j, take j r ++ mul_row (a @@ j) (drop j r) b 0) (seq 0 j) (replicate LIMBS 0))
    ((val (take j a) * val b) mod 2 ^ 256).
Proof.
  intros Ha Hb. induction j as [|j IH]; intros Hj.
  { split; [split; [done|apply words_zeros]|done]. }
  rewrite seq_S, fold_left_app. cbn [fold_left Nat.add]. destruct IH as [[Hl Hw] E]; [lia|].
  set (r := fold_left _ _ _) in *. clearbody r.
  pose proof (words_at 32 a j ltac:(lia) (proj2 Ha)) as Hp.
  destruct (mul_row_spec (a @@ j) (drop j r) b 0) as (Er & El & Ew);
    [done|by apply Forall_drop|apply Hb|by vm_compute|rewrite length_drop; destruct Hb as [-> _]; lia|].
  rewrite length_drop in El, Er. assert (Ht : length (take j r) = j) by (rewrite length_take; lia).
  split; [split|].
  - rewrite length_app, El, Ht. lia.
  - apply Forall_app. split; [by apply Forall_take|done].
  - rewrite val_app, Er, Ht, Hl.
    rewrite take_S_at, val_app by (destruct Ha as [-> _]; lia). cbn [val].
    rewrite length_take_le by (destruct Ha as [-> _]; lia).
    replace 256 with (32 * Z.of_nat j + 32 * Z.of_nat (LIMBS - j)) in * by (unfold LIMBS in *; lia).
    assert (Ev : val r = val (take j r) + 2 ^ (32 * Z.of_nat j) * val (drop j r)).
    { rewrite <-(take_drop j r) at 1. by rewrite val_app, Ht. }
    pose proof (val_bound (take j r) ltac:(by apply Forall_take)) as Hb1. rewrite Ht in Hb1.
    rewrite Z.pow_add_r in * by lia.
    set (P := 2 ^ (32 * Z.of_nat j)) in *. set (Q := 2 ^ (32 * Z.of_nat (LIMBS - j))) in *.
    assert (0 < P) by (apply Z.pow_pos_nonneg; lia). assert (0 < Q) by (apply Z.pow_pos_nonneg; lia).
    transitivity ((val r + P * (a @@ j * val b)) mod (P * Q)).
    + rewrite Ev. rewrite (Z.rem_mul_r _ P Q) by lia.
      replace (val (take j r) + P * val (drop j r) + P * (a @@ j * val b))
        with (val (take j r) + (val (drop j r) + a @@ j * val b) * P) by lia.
      rewrite Z.mod_add, Z.div_add, (Z.mod_small (val _)), (Z.div_small (val (take j r))) by (done || lia).
      f_equal. f_equal. f_equal. lia.
    + rewrite E, Z.add_mod_idemp_l by lia. f_equal. lia.
Qed.

Lemma mul_spec a b : limbs a → limbs b → computes (mul a b) ((val a * val b) mod 2 ^ 256).
Proof.
  intros Ha Hb. pose proof (mul_rows a b LIMBS Ha Hb ltac:(lia)) as H.
  rewrite (take_ge a) in H by (destruct Ha as [-> _]; lia). done.
Qed.

(** ** Complement, increment, negation, subtraction *)

Lemma not32_val x : word 32 x → not32 x = 2 ^ 32 - 1 - x.
Proof.
  intros Hx. unfold not32. rewrite SPH_T32_mod. unfold word in Hx.
  replace (Z.lnot x) with (2 ^ 32 - 1 - x + (-1) * 2 ^ 32) by (unfold Z.lnot; lia).
  rewrite Z.mod_add by lia. apply Z.mod_small. lia.
Qed.

Lemma bit_not_spec a : words 32 a → words 32 (bit_not a) ∧ val (bit_not a) = 2 ^ width a - 1 - val a.
Proof.
  unfold bit_not. induction 1 as [|x a Hx Ha [IHw IH]]; [split; [constructor|done]|].
  split; [constructor; [apply word_not32|done]|].
  rewrite fmap_cons, width_cons. cbn [val]. rewrite IH, not32_val, Z.pow_add_r by (done || lia). lia.
Qed.

(** A wrapping step: the limb and its carry (or borrow) out. *)
Lemma increment_spec a :
  words 32 a → length (increment a) = length a ∧ words 32 (increment a)
  ∧ val (increment a) = (val a + 1) mod 2 ^ width a.
Proof.
  induction 1 as [|x a Hx Ha (IHl & IHw & IH)]; [by rewrite Z.mod_1_r|].
  cbn [increment]. cbv zeta. pose proof (val_bound a Ha) as Hv. unfold word in Hx, Hv.
  pose proof (word_T32 (x + 1)) as Hx'. pose proof (carry_step (x + 1) (width a) (val a) ltac:(lia)) as C.
  rewrite width_cons. cbn [val]. replace (x + 2 ^ 32 * val a + 1) with (x + 1 + 2 ^ 32 * val a) by lia.
  rewrite <-C. rewrite SPH_T32_mod in *.
  destruct (Z.eqb_spec ((x + 1) mod 2 ^ 32) 0) as [E|E]; (split; [cbn [length]; lia|]);
    (split; [by constructor|]); cbn [val].
  - rewrite IH. replace ((x + 1) / 2 ^ 32) with 1; [done|].
    destruct (decide (x + 1 < 2 ^ 32)); [rewrite Z.mod_small in E by lia; lia|].
    replace (x + 1) with (2 ^ 32) by lia. done.
  - destruct (decide (x + 1 = 2 ^ 32)) as [Ex|Ex]; [rewrite Ex in E; done|].
    rewrite (Z.div_small (x + 1)), Z.add_0_r, (Z.mod_small (val a)) by lia. done.
Qed.

Lemma decrement_spec a :
  words 32 a → length (decrement a) = length a ∧ words 32 (decrement a)
  ∧ val (decrement a) = (val a - 1) mod 2 ^ width a.
Proof.
  induction 1 as [|x a Hx Ha (IHl & IHw & IH)]; [by rewrite Z.mod_1_r|].
  cbn [decrement]. cbv zeta. pose proof (val_bound a Ha) as Hv. unfold word in Hx, Hv.
  pose proof (word_T32 (x - 1)) as Hx'. pose proof (carry_step (x - 1) (width a) (val a) ltac:(lia)) as C.
  rewrite width_cons. cbn [val]. replace (x + 2 ^ 32 * val a - 1) with (x - 1 + 2 ^ 32 * val a) by lia.
  rewrite <-C. rewrite SPH_T32_mod in *.
  destruct (Z.eqb_spec ((x - 1) mod 2 ^ 32) 0xFFFFFFFF) as [E|E]; (split; [cbn [length]; lia|]);
    (split; [by constructor|]); cbn [val].
  - rewrite IH. replace ((x - 1) / 2 ^ 32) with (-1); [done|].
    destruct (decide (x = 0)) as [->|]; [done|]. rewrite Z.mod_small in E by lia. lia.
  - destruct (decide (x = 0)) as [->|Ex]; [done|].
    rewrite (Z.div_small (x - 1)), Z.add_0_r, (Z.mod_small (val a)) by lia. done.
Qed.

Lemma length_bit_not a : length (bit_not a) = length a.
Proof. apply length_fmap. Qed.

Lemma neg_spec a : limbs a → computes (neg a) ((- val a) mod 2 ^ 256).
Proof.
  intros Ha. destruct (bit_not_spec a (proj2 Ha)) as [Hw E]. unfold neg.
  destruct (increment_spec (bit_not a) Hw) as (El & Ew & Ev). rewrite length_bit_not in *.
  split; [split; [by rewrite El; apply Ha|done]|]. rewrite Ev, E, limbs_width by done.
  rewrite <-(Z.mod_add (- val a) 1) by lia. f_equal. lia.
Qed.

Lemma sub_spec a b : limbs a → limbs b → computes (sub a b) ((val a - val b) mod 2 ^ 256).
Proof.
  intros Ha Hb. destruct (neg_spec b Hb) as [Hn En]. destruct (add_spec a (neg b) Ha Hn) as [Hl E].
  split; [done|]. unfold sub. rewrite E, En, Z.add_mod_idemp_r by lia. f_equal.
Qed.

(** ** Bitwise operations and shifts *)

Lemma limb_index i : 0 <= i < 256 → (Z.to_nat (i / 32) < LIMBS)%nat.
Proof. intros. unfold LIMBS. assert (i / 32 < 8) by (apply Z.div_lt_upper_bound; lia). lia. Qed.

(** A number is known from the bits of its limbs. *)
Lemma limbs_ext r v :
  limbs r → word 256 v →
  (∀ i, 0 <= i < 256 → Z.testbit (r @@ Z.to_nat (i / 32)) (i mod 32) = Z.testbit v i) → computes r v.
Proof.
  intros Hr Hv H. split; [done|]. apply (word_ext 256); [by apply limbs_bound|done|].
  intros i Hi. rewrite val_testbit by (apply Hr || lia). by apply H.
Qed.

Lemma bitwise_spec (f : Z → Z → Z) (g : bool → bool → bool) a b :
  (∀ x y i, Z.testbit (f x y) i = g (Z.testbit x i) (Z.testbit y i)) →
  (∀ w x y, 0 <= w → word w x → word w y → word w (f x y)) →
  limbs a → limbs b → computes (zip_with f a b) (f (val a) (val b)).
Proof.
  intros Hf Hw Ha Hb. apply limbs_ext.
  - split; [rewrite length_zip_with; destruct Ha as [-> _], Hb as [-> _]; done|].
    destruct Ha as [_ Ha], Hb as [_ Hb]. revert b Hb.
    induction Ha as [|x a Hx Ha IH]; intros [|y b] Hb; try constructor;
      apply Forall_cons_1 in Hb as [Hy Hb]; [apply Hw; (done || lia)|by apply IH].
  - apply Hw; [lia|by apply limbs_bound|by apply limbs_bound].
  - intros i Hi. pose proof (limb_index i Hi) as Hn.
    rewrite Hf, !val_testbit, <-Hf by (apply Ha || apply Hb || lia). f_equal.
    apply at_lookup. rewrite lookup_zip_with, !lookup_at by (destruct Ha, Hb; lia). done.
Qed.

Lemma bit_xor_spec a b : limbs a → limbs b → computes (bit_xor a b) (val a ^^ val b).
Proof. apply (bitwise_spec _ xorb); [intros; apply Z.lxor_spec|apply word_lxor]. Qed.
Lemma bit_or_spec a b : limbs a → limbs b → computes (bit_or a b) (Z.lor (val a) (val b)).
Proof. apply (bitwise_spec _ orb); [intros; apply Z.lor_spec|apply word_lor]. Qed.
Lemma bit_and_spec a b : limbs a → limbs b → computes (bit_and a b) (Z.land (val a) (val b)).
Proof. apply (bitwise_spec _ andb); [intros; apply Z.land_spec|intros; by apply word_land_l]. Qed.

(** The 64-bit overloads are the 256-bit ones on the widened operand. *)
Lemma xor64_eq a b : limbs a → xor64 a b = bit_xor a (base_uint_of b).
Proof. intros [Ha _]. destruct a as [|? [|? [|? [|? [|? [|? [|? [|? [|]]]]]]]]]; try done. unfold bit_xor, base_uint_of. cbn. by rewrite !Z.lxor_0_r. Qed.
Lemma or64_eq a b : limbs a → or64 a b = bit_or a (base_uint_of b).
Proof. intros [Ha _]. destruct a as [|? [|? [|? [|? [|? [|? [|? [|? [|]]]]]]]]]; try done. unfold bit_or, base_uint_of. cbn. by rewrite !Z.lor_0_r. Qed.

(** [pn[j] |= v], when the code's guard holds. *)
Definition or_in (c : bool) (j : nat) (v : Z) (pn : list Z) : list Z :=
  if c then <[j := Z.lor (pn @@ j) v]> pn else pn.

Lemma or_in_at c j v pn n :
  (c = true → (j < length pn)%nat) →
  or_in c j v pn @@ n = if c && (n =? j)%nat then Z.lor (pn @@ n) v else pn @@ n.
Proof.
  intros Hj. unfold or_in. destruct c; [|done]. rewrite at_insert by auto. cbn [andb].
  by destruct (Nat.eqb_spec n j) as [->|].
Qed.
Lemma length_or_in c j v pn : length (or_in c j v pn) = length pn.
Proof. unfold or_in. destruct c; [apply length_insert|done]. Qed.
Lemma words_or_in c j v pn : words 32 pn → word 32 v → words 32 (or_in c j v pn).
Proof. intros Hp Hv. unfold or_in. destruct c; [|done]. apply Forall_insert; [done|]. apply word_lor; [lia|by apply words_at|done]. Qed.

(** Limb [j] after [n] turns of a shift loop whose turn [i] ors two words in, at
    the limbs [p i] and [q i]. *)
Lemma shift_loop (c d : nat → bool) (p q : nat → nat) (v w : nat → Z) m pn0 n :
  length pn0 = m → words 32 pn0 → (∀ i, word 32 (v i)) → (∀ i, word 32 (w i)) →
  (∀ i, (i < n)%nat → c i = true → (p i < m)%nat) → (∀ i, (i < n)%nat → d i = true → (q i < m)%nat) →
  let pn := fold_left (λ pn i, or_in (d i) (q i) (w i) (or_in (c i) (p i) (v i) pn)) (seq 0 n) pn0 in
  length pn = m ∧ words 32 pn ∧
  ∀ j b, Z.testbit (pn @@ j) b = true ↔
    Z.testbit (pn0 @@ j) b = true
    ∨ ∃ i, (i < n)%nat ∧ ((c i = true ∧ j = p i ∧ Z.testbit (v i) b = true)
                          ∨ (d i = true ∧ j = q i ∧ Z.testbit (w i) b = true)).
Proof.
  intros Hl Hw Hv Hw'. induction n as [|n IH]; intros Hc Hd; cbv zeta.
  { split; [done|split; [done|]]. intros j b. split; [by left|]. intros [?|(i & ? & _)]; [done|lia]. }
  rewrite seq_S, fold_left_app. cbn [fold_left Nat.add].
  destruct IH as (IHl & IHw & IH); [auto|auto|]. set (pn := fold_left _ _ _) in *. clearbody pn.
  split; [by rewrite !length_or_in|]. split; [by repeat apply words_or_in|].
  intros j b. rewrite or_in_at by (rewrite length_or_in, IHl; auto).
  rewrite or_in_at by (rewrite IHl; auto). specialize (IH j b).
  assert (E : ∀ P : nat → Prop, (∃ i, (i < S n)%nat ∧ P i) ↔ (∃ i, (i < n)%nat ∧ P i) ∨ P n).
  { intros P. split.
    - intros (i & Hi & Pi). destruct (decide (i = n)) as [->|]; [by right|]. left. exists i. split; [lia|done].
    - intros [(i & Hi & Pi)|Pn]; [exists i|exists n]; (split; [lia|done]). }
  rewrite E. clear E.
  destruct (c n), (d n), (Nat.eqb_spec j (p n)), (Nat.eqb_spec j (q n)); cbn [andb];
    rewrite ?Z.lor_spec, ?orb_true_iff, IH; intuition congruence.
Qed.

Lemma val_bit_limb l y :
  words 32 l → Z.testbit (val l) y = true ↔
  ∃ i, (i < length l)%nat ∧ Z.testbit (l @@ i) (y - 32 * Z.of_nat i) = true.
Proof.
  intros Hl. split.
  - intros H. destruct (Z.lt_ge_cases y 0) as [Hy|Hy]; [by rewrite Z.testbit_neg_r in H by lia|].
    rewrite val_testbit in H by (done || lia). pose proof (Z.div_mod y 32 ltac:(lia)).
    pose proof (Z.div_pos y 32 Hy ltac:(lia)). exists (Z.to_nat (y / 32)). split.
    + destruct (decide (Z.to_nat (y / 32) < length l)%nat) as [|Hge]; [done|].
      unfold at_ in H. rewrite nth_overflow, Z.bits_0 in H by lia. done.
    + replace (y - 32 * Z.of_nat (Z.to_nat (y / 32))) with (y mod 32) by lia. done.
  - intros (i & Hi & H). pose proof (words_at 32 l i ltac:(lia) Hl) as Hw.
    destruct (Z.lt_ge_cases (y - 32 * Z.of_nat i) 0); [by rewrite Z.testbit_neg_r in H by lia|].
    destruct (Z.lt_ge_cases (y - 32 * Z.of_nat i) 32);
      [|by rewrite (word_testbit_high 32) in H by (done || lia)].
    rewrite val_testbit by (done || lia).
    assert (E : y / 32 = Z.of_nat i) by (symmetry; apply (Z.div_unique _ _ _ (y - 32 * Z.of_nat i)); lia).
    rewrite (Z.mod_eq y 32), E, Nat2Z.id by lia. done.
Qed.

(** A shift loop that moves every bit by [e], with guards that let through all
    the limbs that receive a bit. *)
Lemma shift_loop_bits (c d : nat → bool) (p q : nat → nat) (v w : nat → Z) a e :
  limbs a → (∀ i, word 32 (v i)) → (∀ i, word 32 (w i)) →
  (∀ i, c i = true → (i < LIMBS)%nat → (p i < LIMBS)%nat) → (∀ i, d i = true → (i < LIMBS)%nat → (q i < LIMBS)%nat) →
  (∀ i b, c i = true → 0 <= b < 32 → Z.testbit (v i) b = Z.testbit (a @@ i) (32 * Z.of_nat (p i) + b + e - 32 * Z.of_nat i)) →
  (∀ i b, d i = true → 0 <= b < 32 → Z.testbit (w i) b = Z.testbit (a @@ i) (32 * Z.of_nat (q i) + b + e - 32 * Z.of_nat i)) →
  (∀ i j b, (i < LIMBS)%nat → (j < LIMBS)%nat → 0 <= b < 32 → 0 <= 32 * Z.of_nat j + b + e - 32 * Z.of_nat i < 32 →
     (c i = true ∧ j = p i) ∨ (d i = true ∧ j = q i)) →
  let pn := fold_left (λ pn i, or_in (d i) (q i) (w i) (or_in (c i) (p i) (v i) pn)) (seq 0 LIMBS) (replicate LIMBS 0) in
  limbs pn ∧ ∀ x, 0 <= x < 256 → Z.testbit (val pn) x = Z.testbit (val a) (x + e).
Proof.
  intros [Hla Hwa] Hv Hw Hc Hd Ev Ew Hall pn.
  destruct (shift_loop c d p q v w LIMBS (replicate LIMBS 0) LIMBS) as (Hl & Hp & Hb);
    [done|apply words_zeros|done|done|auto|auto|]. fold pn in Hl, Hp, Hb. clearbody pn.
  split; [done|]. intros x Hx. apply eq_true_iff_eq.
  rewrite (val_bit_limb a), Hla, val_testbit, Hb by (done || lia).
  pose proof (Z.div_mod x 32 ltac:(lia)) as Ex. pose proof (Z.mod_pos_bound x 32 ltac:(lia)) as Hm.
  pose proof (limb_index x Hx) as Hj. pose proof (Z.div_pos x 32 ltac:(lia) ltac:(lia)) as HJ.
  set (j := Z.to_nat (x / 32)) in *. set (b := x mod 32) in *.
  assert (Exj : x = 32 * Z.of_nat j + b) by lia. clearbody j b.
  replace (replicate LIMBS 0 @@ j) with 0 by (symmetry; by apply at_lookup, lookup_replicate).
  rewrite Z.bits_0, Exj. split.
  - intros [?|(i & Hi & [(Ci & -> & T)|(Di & -> & T)])]; [done| |]; exists i; (split; [done|]).
    + by rewrite <-Ev.
    + by rewrite <-Ew.
  - intros (i & Hi & T). right. exists i. split; [done|].
    destruct (Hall i j b) as [[Ci Ej]|[Di Ej]]; [done|done|done| | |].
    + destruct (Z.lt_ge_cases (32 * Z.of_nat j + b + e - 32 * Z.of_nat i) 0); [by rewrite Z.testbit_neg_r in T|].
      split; [done|]. destruct (Z.lt_ge_cases (32 * Z.of_nat j + b + e - 32 * Z.of_nat i) 32); [done|].
      rewrite (word_testbit_high 32) in T by (try apply words_at; (done || lia)). done.
    + left. split; [done|]. split; [done|]. by rewrite Ev, <-Ej.
    + right. split; [done|]. split; [done|]. by rewrite Ew, <-Ej.
Qed.

Lemma shift_left_spec a s : limbs a → 0 <= s → computes (shift_left a s) ((val a * 2 ^ s) mod 2 ^ 256).
Proof.
  intros Ha Hs. pose proof (Z.div_mod s 32 ltac:(lia)) as Es.
  pose proof (Z.mod_pos_bound s 32 ltac:(lia)) as Ht. pose proof (Z.div_pos s 32 Hs ltac:(lia)) as Hk.
  unfold shift_left. set (t := s mod 32) in *. set (k := Z.to_nat (s / 32)).
  destruct (shift_loop_bits (λ i, (i + k + 1 <? LIMBS)%nat && negb (t =? 0)) (λ i, (i + k <? LIMBS)%nat)
    (λ i, (i + k + 1)%nat) (λ i, (i + k)%nat) (λ i, a @@ i ≫ (32 - t)) (λ i, SPH_T32 (a @@ i ≪ t))
    a (- s)) as [Hl Hb].
  - done.
  - intros i. apply word_shiftr; [lia|lia|by apply words_at, Ha].
  - intros i. apply word_T32.
  - intros i H _. apply andb_true_iff in H as [H _]. by apply Nat.ltb_lt.
  - intros i H _. by apply Nat.ltb_lt.
  - intros i b _ Hb. rewrite Z.shiftr_spec by lia. f_equal. lia.
  - intros i b _ Hb. rewrite testbit_T32, Z.shiftl_spec by lia. f_equal. lia.
  - intros i j b Hi Hj Hb H. destruct (decide (j = i + k)%nat).
    + right. split; [apply Nat.ltb_lt; lia|done].
    + left. rewrite andb_true_iff, negb_true_iff, Nat.ltb_lt, Z.eqb_neq. lia.
  - split; [exact Hl|]. apply (word_ext 256); [by apply limbs_bound|by apply word_mod|].
    intros x Hx. rewrite Z.mod_pow2_bits_low, <-Z.shiftl_mul_pow2, Z.shiftl_spec by lia. exact (Hb x Hx).
Qed.

Lemma shift_right_spec a s : limbs a → 0 <= s → computes (shift_right a s) (val a / 2 ^ s).
Proof.
  intros Ha Hs. pose proof (Z.div_mod s 32 ltac:(lia)) as Es.
  pose proof (Z.mod_pos_bound s 32 ltac:(lia)) as Ht. pose proof (Z.div_pos s 32 Hs ltac:(lia)) as Hk.
  unfold shift_right. set (t := s mod 32) in *. set (k := Z.to_nat (s / 32)).
  destruct (shift_loop_bits (λ i, (k + 1 <=? i)%nat && negb (t =? 0)) (λ i, (k <=? i)%nat)
    (λ i, (i - k - 1)%nat) (λ i, (i - k)%nat) (λ i, SPH_T32 (a @@ i ≪ (32 - t))) (λ i, a @@ i ≫ t)
    a s) as [Hl Hb].
  - done.
  - intros i. apply word_T32.
  - intros i. apply word_shiftr; [lia|lia|by apply words_at, Ha].
  - intros i _ ?. lia.
  - intros i _ ?. lia.
  - intros i b H Hb. rewrite testbit_T32, Z.shiftl_spec by lia.
    apply andb_true_iff in H as [H _]. apply Nat.leb_le in H. f_equal. lia.
  - intros i b H Hb. rewrite Z.shiftr_spec by lia. apply Nat.leb_le in H. f_equal. lia.
  - intros i j b Hi Hj Hb H. destruct (decide (j + k = i)%nat).
    + right. rewrite Nat.leb_le. lia.
    + left. rewrite andb_true_iff, negb_true_iff, Nat.leb_le, Z.eqb_neq. lia.
  - pose proof (limbs_bound a Ha) as Hv. split; [exact Hl|]. rewrite <-Z.shiftr_div_pow2 by done.
    apply (word_ext 256); [by apply limbs_bound|by apply word_shiftr|].
    intros x Hx. rewrite Z.shiftr_spec by lia. exact (Hb x Hx).
Qed.

(** ** Comparison and bit length *)

Lemma CompareTo_snoc a b x y : CompareTo (a ++ [x]) (b ++ [y]) =
  if x <? y then -1 else if y <? x then 1 else CompareTo a b.
Proof. unfold CompareTo. by rewrite !rev_app_distr. Qed.

Lemma CompareTo_sgn a b :
  length a = length b → words 32 a → words 32 b → CompareTo a b = Z.sgn (val a - val b).
Proof.
  revert b. induction a as [|x a IH] using rev_ind; intros b.
  { intros Hl _ _. destruct b; [done|discriminate]. }
  destruct b as [|y b _] using rev_ind; [rewrite length_app; cbn; lia|].
  rewrite !length_app, !Forall_app. cbn [length]. intros Hl [Ha Hx] [Hb Hy].
  assert (Hl' : length a = length b) by lia. rewrite CompareTo_snoc, !val_app, Hl'. cbn [val].
  pose proof (val_bound a Ha) as Va. pose proof (val_bound b Hb) as Vb. rewrite Hl' in Va. unfold word in *.
  destruct (Z.ltb_spec x y); [symmetry; apply Z.sgn_neg; nia|].
  destruct (Z.ltb_spec y x); [symmetry; apply Z.sgn_pos; nia|].
  rewrite IH by done. f_equal. replace y with x by lia. lia.
Qed.

Lemma CompareTo_spec a b : limbs a → limbs b → CompareTo a b = Z.sgn (val a - val b).
Proof. intros [? ?] [? ?]. apply CompareTo_sgn; congruence. Qed.

Lemma compare_ge a b : limbs a → limbs b → (0 <=? CompareTo a b) = (val b <=? val a).
Proof.
  intros. rewrite CompareTo_spec by done. destruct (Z.sgn_spec (val a - val b)) as [[? ->]|[[? ->]|[? ->]]];
    destruct (Z.leb_spec (val b) (val a)); (done || lia).
Qed.
Lemma compare_gt a b : limbs a → limbs b → (0 <? CompareTo a b) = (val b <? val a).
Proof.
  intros. rewrite CompareTo_spec by done. destruct (Z.sgn_spec (val a - val b)) as [[? ->]|[[? ->]|[? ->]]];
    destruct (Z.ltb_spec (val b) (val a)); (done || lia).
Qed.

Lemma val_high_zero l : words 32 l → forallb (λ x, x =? 0) l = (val l =? 0).
Proof.
  induction 1 as [|x l Hx Hl IH]; [done|]. cbn [forallb val]. rewrite IH.
  pose proof (val_bound l Hl) as Hv. unfold word in *.
  destruct (Z.eqb_spec x 0), (Z.eqb_spec (val l) 0), (Z.eqb_spec (x + 2 ^ 32 * val l) 0); (done || lia).
Qed.

Lemma EqualTo_spec a b : limbs a → word 64 b → EqualTo a b = (val a =? b).
Proof.
  intros [Hl Hw] Hb. destruct a as [|x [|y r]]; try done.
  apply Forall_cons_1 in Hw as [Hx Hw]. apply Forall_cons_1 in Hw as [Hy Hr].
  unfold EqualTo, at_. cbn [nth val]. change (drop 2 (x :: y :: r)) with (drop 0 r). rewrite drop_0, val_high_zero by done.
  change (Z.land b 0xFFFFFFFF) with (SPH_T32 b). rewrite SPH_T32_mod, Z.shiftr_div_pow2 by lia.
  pose proof (val_bound r Hr) as Hv.
  pose proof (Z.div_mod b (2 ^ 32) ltac:(lia)). pose proof (Z.mod_pos_bound b (2 ^ 32) ltac:(lia)).
  unfold word in *. assert (b / 2 ^ 32 < 2 ^ 32) by (apply Z.div_lt_upper_bound; lia).
  clear Hr Hl. change (2 ^ 64) with 18446744073709551616 in *. change (2 ^ 32) with 4294967296 in *.
  set (q := b / 4294967296) in *. set (m := b mod 4294967296) in *. clearbody q m.
  destruct (Z.eqb_spec (val r) 0), (Z.eqb_spec y q), (Z.eqb_spec x m),
    (Z.eqb_spec (x + 4294967296 * (y + 4294967296 * val r)) b); cbn [andb]; (done || lia).
Qed.

Lemma GetLow64_spec a : limbs a → GetLow64 a = val a mod 2 ^ 64.
Proof.
  intros [Hl Hw]. destruct a as [|x [|y r]]; try done. unfold GetLow64, at_. cbn [nth val].
  apply Forall_cons_1 in Hw as [Hx Hw]. apply Forall_cons_1 in Hw as [Hy Hw].
  rewrite Z.lor_comm, lor_shiftl_add by (done || lia). unfold word in *.
  apply (Z.mod_unique _ _ (val r)); lia.
Qed.

(** The bit length of a number. *)
Definition bitlen (v : Z) : Z := if v =? 0 then 0 else Z.log2 v + 1.

Lemma bitlen_bound v : 0 <= v → v < 2 ^ bitlen v ∧ (v ≠ 0 → 2 ^ (bitlen v - 1) <= v).
Proof.
  intros Hv. unfold bitlen. destruct (Z.eqb_spec v 0) as [->|Hne]; [done|].
  pose proof (Z.log2_spec v ltac:(lia)). replace (Z.log2 v + 1 - 1) with (Z.log2 v) by lia.
  rewrite Z.add_1_r. tauto.
Qed.

Lemma bitlen_unique v n : 0 < n → 2 ^ (n - 1) <= v < 2 ^ n → bitlen v = n.
Proof.
  intros Hn H. pose proof (Z.pow_pos_nonneg 2 (n - 1) ltac:(lia) ltac:(lia)).
  unfold bitlen. destruct (Z.eqb_spec v 0); [lia|].
  rewrite (Z.log2_unique v (n - 1)); [lia|lia|]. by replace (Z.succ (n - 1)) with n by lia.
Qed.

Lemma bitlen_range v w : 0 <= w → word w v → 0 <= bitlen v <= w.
Proof.
  intros Hw [H0 H1]. unfold bitlen. destruct (Z.eqb_spec v 0); [lia|].
  pose proof (Z.log2_nonneg v). pose proof (proj1 (Z.log2_lt_pow2 v w ltac:(lia)) H1). lia.
Qed.

Lemma test_mask x n : 0 <= n → negb (Z.land x (1 ≪ n) =? 0) = Z.testbit x n.
Proof.
  intros Hn. rewrite Z.shiftl_1_l. destruct (Z.testbit x n) eqn:E.
  - apply negb_true_iff, Z.eqb_neq. intros E0. assert (H : Z.testbit (Z.land x (2 ^ n)) n = false)
      by by rewrite E0, Z.bits_0. rewrite Z.land_spec, E, Z.pow2_bits_true in H by done. done.
  - apply negb_false_iff, Z.eqb_eq. apply Z.bits_inj'. intros i Hi.
    rewrite Z.land_spec, Z.pow2_bits_eqb, Z.bits_0 by done. destruct (Z.eqb_spec n i) as [->|]; [by rewrite E|apply andb_false_r].
Qed.

Lemma high_bit_spec x n :
  x ≠ 0 → word (Z.of_nat n + 1) x → Z.of_nat (high_bit x n) = Z.log2 x + 1.
Proof.
  intros Hx. induction n as [|n IH]; intros Hw.
  - cbn [high_bit]. assert (x = 1) as -> by (unfold word in Hw; cbn in Hw; lia). done.
  - unfold high_bit; fold high_bit. rewrite test_mask by lia.
    destruct (Z.testbit x (Z.of_nat (S n))) eqn:E.
    + rewrite (Z.log2_unique x (Z.of_nat (S n))); [lia|lia|]. unfold word in Hw. split; [|rewrite <-Z.add_1_r; apply Hw].
      destruct (Z.le_gt_cases (2 ^ Z.of_nat (S n)) x) as [|Hlt]; [done|].
      rewrite (word_testbit_high (Z.of_nat (S n)) x) in E by (unfold word; lia). done.
    + apply IH. apply word_of_bits; [lia|apply Hw|]. intros i Hi.
      destruct (decide (i = Z.of_nat (S n))) as [->|]; [done|]. apply (word_testbit_high _ _ _ Hw). lia.
Qed.

Lemma bits_loop_spec a p :
  words 32 a → (p <= length a)%nat → bits_loop a p = bitlen (val (take p a)).
Proof.
  intros Ha. induction p as [|p IH]; intros Hp; [done|]. cbn [bits_loop].
  rewrite take_S_at, val_app by lia. cbn [val]. rewrite length_take_le, Z.mul_0_r, Z.add_0_r by lia.
  pose proof (val_bound (take p a) ltac:(by apply Forall_take)) as Hv. rewrite length_take_le in Hv by lia.
  pose proof (words_at 32 a p ltac:(lia) Ha) as Hx. set (x := a @@ p) in *. unfold word in *.
  destruct (Z.eqb_spec x 0) as [->|Hx0]; cbn [negb]; [rewrite IH by lia; f_equal; lia|].
  pose proof (Z.log2_spec x ltac:(lia)) as Hlog. pose proof (Z.log2_nonneg x).
  rewrite Nat2Z.inj_add, high_bit_spec, Nat2Z.inj_mul by done. change (Z.of_nat 32) with 32.
  symmetry. apply bitlen_unique; [lia|].
  replace (32 * Z.of_nat p + (Z.log2 x + 1) - 1) with (32 * Z.of_nat p + Z.log2 x) by lia.
  rewrite !Z.add_1_r, !Z.pow_add_r by lia. nia.
Qed.

Lemma bits_spec a : limbs a → bits a = bitlen (val a).
Proof. intros [Hl Hw]. unfold bits. rewrite bits_loop_spec, take_ge by (done || lia). done. Qed.

(** ** Division *)

(** Setting a clear bit of the quotient adds its weight. *)
Lemma set_bit_spec q n :
  limbs q → (n < 256)%nat → Z.testbit (val q) (Z.of_nat n) = false →
  computes (<[(n / 32)%nat := Z.lor (q @@ (n / 32)) (1 ≪ Z.land (Z.of_nat n) 31)]> q) (val q + 2 ^ Z.of_nat n).
Proof.
  intros [Hl Hw] Hn Hb. change 31 with (Z.ones 5) at 1. rewrite Z.land_ones, Z.shiftl_1_l by lia.
  change (2 ^ 5) with 32. assert (Hi : (n / 32 < LIMBS)%nat) by (apply Nat.Div0.div_lt_upper_bound; unfold LIMBS; lia).
  assert (En : Z.of_nat n = 32 * Z.of_nat (n / 32) + Z.of_nat n mod 32)
    by (rewrite Nat2Z.inj_div; apply Z.div_mod; lia).
  pose proof (Z.mod_pos_bound (Z.of_nat n) 32 ltac:(lia)) as Hm.
  rewrite val_testbit in Hb by (done || lia). change 32 with (Z.of_nat 32) in Hb at 1.
  rewrite <-Nat2Z.inj_div, Nat2Z.id in Hb.
  set (j := (n / 32)%nat) in *. set (b := Z.of_nat n mod 32) in *. clearbody j b.
  assert (Hx : word 32 (q @@ j)) by by apply words_at.
  assert (Eor : Z.lor (q @@ j) (2 ^ b) = q @@ j + 2 ^ b).
  { rewrite <-Z.lxor_lor, <-Z.add_nocarry_lxor; [done| |];
      (apply Z.bits_inj'; intros i Hi'; rewrite Z.land_spec, Z.pow2_bits_eqb, Z.bits_0 by lia;
       destruct (Z.eqb_spec b i) as [<-|]; [by rewrite Hb|apply andb_false_r]). }
  split; [split; [by rewrite length_insert|]|].
  - apply Forall_insert; [done|]. apply word_lor; [lia|done|]. split; [lia|]. apply Z.pow_lt_mono_r; lia.
  - rewrite Eor, insert_take_drop, val_app by lia. cbn [val]. rewrite length_take_le by lia.
    rewrite <-(take_drop_middle q j (q @@ j)) at 4 by (apply lookup_at; lia).
    rewrite val_app, length_take_le by lia. cbn [val]. rewrite En, Z.pow_add_r by lia. lia.
Qed.

(** The loop with [n] turns left: the divisor is aligned, the remainder is below
    twice the aligned divisor and the low [n] bits of the quotient are clear. *)
Lemma div_loop_spec n D num div quot :
  (n <= 256)%nat → 0 < D → limbs num → limbs div → limbs quot →
  val div = D * 2 ^ Z.of_nat n / 2 → val num < D * 2 ^ Z.of_nat n →
  (∀ i, 0 <= i < Z.of_nat n → Z.testbit (val quot) i = false) →
  computes (fst (div_loop n num div quot)) (val quot + val num / D)
  ∧ computes (snd (div_loop n num div quot)) (val num mod D).
Proof.
  intros Hn HD. revert num div quot Hn. induction n as [|n IH]; intros num div quot Hn Hnum Hdiv Hq Ed Hlt Hz.
  { cbn [div_loop fst snd]. pose proof (limbs_bound num Hnum) as Hb. unfold word in Hb.
    change (2 ^ Z.of_nat 0) with 1 in Hlt. unfold computes. rewrite Z.div_small, Z.mod_small, Z.add_0_r by lia. done. }
  cbn [div_loop]. rewrite compare_ge by done.
  assert (E2 : 2 ^ Z.of_nat (S n) = 2 * 2 ^ Z.of_nat n) by (rewrite Nat2Z.inj_succ, Z.pow_succ_r; lia).
  assert (Ed' : val div = D * 2 ^ Z.of_nat n).
  { rewrite Ed, E2. replace (D * (2 * 2 ^ Z.of_nat n)) with (D * 2 ^ Z.of_nat n * 2) by lia. by apply Z.div_mul. }
  destruct (shift_right_spec div 1 Hdiv ltac:(lia)) as [Hdiv' Es]. change (2 ^ 1) with 2 in Es.
  pose proof (limbs_bound num Hnum) as Hb. pose proof (limbs_bound div Hdiv) as Hbd. unfold word in Hb, Hbd.
  destruct (Z.leb_spec (val div) (val num)) as [Hge|Hls].
  - destruct (set_bit_spec quot n Hq ltac:(lia) (Hz (Z.of_nat n) ltac:(lia))) as [Hq' Eq'].
    destruct (sub_spec num div Hnum Hdiv) as [Hnum' En']. rewrite Z.mod_small in En' by lia.
    set (quot' := <[_ := _]> quot) in *. clearbody quot'.
    destruct (IH (sub num div) (shift_right div 1) quot') as [IHq IHr]; try done; [lia|congruence|rewrite E2 in Hlt; lia| |].
    { intros i Hi. rewrite Eq'. rewrite <-(Z.mod_pow2_bits_low _ (Z.of_nat n)), <-Z.add_mod_idemp_r by lia.
      rewrite Z.mod_same, Z.add_0_r, Z.mod_pow2_bits_low by lia. apply Hz. lia. }
    rewrite En', Eq', Ed' in *. replace (val num - D * 2 ^ Z.of_nat n) with (val num + - 2 ^ Z.of_nat n * D) in * by lia.
    rewrite Z.div_add, Z.mod_add in * by lia. split; [|done]. destruct IHq as [? IHq]. split; [done|]. rewrite IHq. lia.
  - apply IH; try done; [lia|congruence|lia|]. intros i Hi. apply Hz. lia.
Qed.

Lemma div_spec a b :
  limbs a → limbs b →
  if val b =? 0 then div a b = None
  else ∃ q, div a b = Some q ∧ computes q (val a / val b).
Proof.
  intros Ha Hb. unfold div. rewrite !bits_spec by done.
  pose proof (limbs_bound a Ha) as Va. pose proof (limbs_bound b Hb) as Vb.
  pose proof (bitlen_range _ 256 ltac:(lia) Va) as La. pose proof (bitlen_range _ 256 ltac:(lia) Vb) as Lb.
  unfold word in Va, Vb. destruct (bitlen_bound (val a)) as [Ua Da]; [lia|].
  destruct (bitlen_bound (val b)) as [Ub Db]; [lia|].
  destruct (Z.eqb_spec (val b) 0) as [->|Hne]; [done|]. specialize (Db Hne).
  assert (Hb0 : bitlen (val b) ≠ 0) by (intros E; rewrite E in Ub; cbn in Ub; lia).
  rewrite (proj2 (Z.eqb_neq _ _) Hb0).
  destruct (Z.ltb_spec (bitlen (val a)) (bitlen (val b))) as [Hl|Hge].
  { eexists. split; [done|]. assert (val a < val b).
    { eapply Z.lt_le_trans; [exact Ua|]. etransitivity; [|exact Db]. apply Z.pow_le_mono_r; lia. }
    rewrite Z.div_small by lia. by apply base_uint_of_spec. }
  eexists. split; [done|]. set (sh := bitlen (val a) - bitlen (val b)) in *.
  destruct (shift_left_spec b sh Hb ltac:(lia)) as [Hs Es].
  assert (Hfit : val b * 2 ^ sh < 2 ^ 256).
  { apply (Z.lt_le_trans _ (2 ^ bitlen (val b) * 2 ^ sh)); [apply Z.mul_lt_mono_pos_r; lia|].
    rewrite <-Z.pow_add_r by lia. apply Z.pow_le_mono_r; lia. }
  rewrite Z.mod_small in Es by lia.
  destruct (div_loop_spec (Z.to_nat (sh + 1)) (val b) a (shift_left b sh) (base_uint_of 0)) as [H _];
    try done; try apply base_uint_of_spec; try done; [lia|lia| | |].
  - rewrite Es, Z2Nat.id, Z.add_1_r, Z.pow_succ_r by lia.
    replace (val b * (2 * 2 ^ sh)) with (val b * 2 ^ sh * 2) by lia. by rewrite Z.div_mul.
  - rewrite Z2Nat.id by lia. eapply Z.lt_le_trans; [exact Ua|].
    replace (bitlen (val a)) with ((bitlen (val b) - 1) + (sh + 1)) by lia.
    rewrite Z.pow_add_r by lia. apply Z.mul_le_mono_nonneg_r; lia.
  - intros i _. change (val (base_uint_of 0)) with 0. apply Z.bits_0.
Qed.

(** ** The compact format *)

(** The whole number that mantissa [m] and exponent [e] stand for. *)
Definition compact_value (m e : Z) : Z := if e <=? 3 then m / 256 ^ (3 - e) else m * 256 ^ (e - 3).

(** The unsigned number an [nBits] field encodes. *)
Definition decode_compact (c : Z) : Z := compact_value (c mod 2 ^ 23) (c / 2 ^ 24).

Lemma pow256 n : 0 <= n → 256 ^ n = 2 ^ (8 * n).
Proof. intros. change 256 with (2 ^ 8). by rewrite <-Z.pow_mul_r by lia. Qed.

Lemma pow256_pos n : 0 <= n → 0 < 256 ^ n.
Proof. intros. apply Z.pow_pos_nonneg; lia. Qed.

(** The code's overflow test is exact. *)
Lemma overflow_exact m e :
  0 <= m < 2 ^ 23 → 0 <= e →
  negb (m =? 0) && ((34 <? e) || ((0xFF <? m) && (33 <? e)) || ((0xFFFF <? m) && (32 <? e)))
  = (3 <? e) && (2 ^ 256 <=? m * 256 ^ (e - 3)).
Proof.
  intros Hm He. destruct (Z.ltb_spec 3 e) as [H3|H3]; cycle 1.
  { repeat match goal with |- context[?a <? e] => rewrite (proj2 (Z.ltb_ge a e)) by lia end. btauto. }
  cbn [andb]. pose proof (pow256_pos (e - 3) ltac:(lia)) as Hp.
  destruct (Z.eqb_spec m 0) as [->|Hm0]; [symmetry; by apply Z.leb_gt|]. cbn [negb andb].
  destruct (Z.lt_ge_cases 34 e) as [H34|H34].
  { rewrite (proj2 (Z.ltb_lt 34 e)) by done. symmetry. apply Z.leb_le.
    assert (256 ^ 32 <= 256 ^ (e - 3)) by (apply Z.pow_le_mono_r; lia). change (2 ^ 256) with (256 ^ 32). nia. }
  destruct (decide (e <= 32)) as [H32|H32].
  { repeat match goal with |- context[?a <? e] => rewrite (proj2 (Z.ltb_ge a e)) by lia end.
    rewrite !andb_false_r. symmetry. apply Z.leb_gt.
    assert (256 ^ (e - 3) <= 256 ^ 29) by (apply Z.pow_le_mono_r; lia).
    change (2 ^ 256) with (2 ^ 24 * 256 ^ 29). change (2 ^ 24) with 16777216. change (2 ^ 23) with 8388608 in *. nia. }
  assert (e = 33 ∨ e = 34) as [->| ->] by lia; cbn - [Z.mul Z.pow Z.ltb Z.leb];
    [change (256 ^ 30) with (2 ^ 240)|change (256 ^ 31) with (2 ^ 248)];
    destruct (Z.ltb_spec 0xFF m), (Z.ltb_spec 0xFFFF m), (Z.leb_spec (2 ^ 256) (m * 2 ^ 240)),
      (Z.leb_spec (2 ^ 256) (m * 2 ^ 248)); cbn; (done || lia).
Qed.

Lemma compact_fields c :
  word 32 c → word 8 (c / 2 ^ 24) ∧ word 23 (c mod 2 ^ 23) ∧
  c = c mod 2 ^ 23 + 2 ^ 23 * Z.b2z (Z.testbit c 23) + 2 ^ 24 * (c / 2 ^ 24).
Proof.
  intros Hc. unfold word in *. split; [split; [apply Z.div_pos; lia|apply Z.div_lt_upper_bound; lia]|].
  split; [apply Z.mod_pos_bound; lia|].
  rewrite Z.testbit_spec' by lia. change (2 ^ 24) with (2 ^ 23 * 2). rewrite <-Z.div_div by lia.
  pose proof (Z.div_mod c (2 ^ 23) ltac:(lia)). pose proof (Z.div_mod (c / 2 ^ 23) 2 ltac:(lia)). lia.
Qed.

Lemma SetCompact_spec c :
  word 32 c →
  ∃ r, SetCompact c = (r, negb (decode_compact c =? 0) && Z.testbit c 23, 2 ^ 256 <=? decode_compact c)
  ∧ computes r (decode_compact c mod 2 ^ 256).
Proof.
  intros Hc. destruct (compact_fields c Hc) as (He & Hm & _). unfold SetCompact, decode_compact, compact_value.
  change 0x007FFFFF with (Z.ones 23). rewrite Z.land_ones, Z.shiftr_div_pow2 by lia.
  change 0x00800000 with (1 ≪ 23). rewrite test_mask by lia.
  set (e := c / 2 ^ 24) in *. set (m := c mod 2 ^ 23) in *. clearbody e m. unfold word in He, Hm.
  destruct (Z.leb_spec e 3) as [H3|H3].
  - rewrite Z.shiftr_div_pow2, <-pow256 by lia. pose proof (pow256_pos (3 - e) ltac:(lia)).
    assert (Hw : 0 <= m / 256 ^ (3 - e) < 2 ^ 23).
    { split; [apply Z.div_pos; lia|]. apply Z.div_lt_upper_bound; nia. }
    set (w := m / 256 ^ (3 - e)) in *. clearbody w. eexists. rewrite overflow_exact by lia.
    rewrite (proj2 (Z.ltb_ge 3 e)), (proj2 (Z.leb_gt (2 ^ 256) w)) by lia.
    split; [done|]. rewrite Z.mod_small by lia. apply base_uint_of_spec. unfold word. lia.
  - pose proof (pow256_pos (e - 3) ltac:(lia)). eexists. rewrite overflow_exact by lia.
    rewrite (proj2 (Z.ltb_lt 3 e)) by lia. cbn [andb].
    replace (m * 256 ^ (e - 3) =? 0) with (m =? 0)
      by (destruct (Z.eqb_spec m 0), (Z.eqb_spec (m * 256 ^ (e - 3)) 0); (done || nia)).
    split; [done|]. rewrite pow256 by lia.
    destruct (base_uint_of_spec m ltac:(unfold word; lia)) as [Hb Eb]. rewrite <-Eb at 2.
    apply shift_left_spec; [done|lia].
Qed.

(** Mantissa and exponent of the encoding of [v]. *)
Definition compact_parts (v : Z) : Z * Z :=
  let s := (bitlen v + 7) / 8 in
  let m := if s <=? 3 then v * 256 ^ (3 - s) else v / 256 ^ (s - 3) in
  if 2 ^ 23 <=? m then (m / 256, s + 1) else (m, s).

(** The number of low bytes that an encoding with exponent [e] drops. *)
Definition dropped (e : Z) : Z := 256 ^ Z.max 0 (e - 3).

(** The three top bytes of a number of [s] bytes. *)
Lemma top_bytes v s :
  0 < v → s = (bitlen v + 7) / 8 →
  let m := if s <=? 3 then v * 256 ^ (3 - s) else v / 256 ^ (s - 3) in 1 <= s ∧ 2 ^ 16 <= m < 2 ^ 24.
Proof.
  intros Hv Es m. destruct (bitlen_bound v) as [Hu Hl]; [lia|]. specialize (Hl ltac:(lia)).
  assert (Hn : 1 <= bitlen v) by (unfold bitlen; destruct (Z.eqb_spec v 0); pose proof (Z.log2_nonneg v); lia).
  pose proof (Z.div_mod (bitlen v + 7) 8 ltac:(lia)). pose proof (Z.mod_pos_bound (bitlen v + 7) 8 ltac:(lia)).
  rewrite <-Es in *. split; [lia|].
  assert (L : 2 ^ (8 * (s - 1)) <= v).
  { etransitivity; [|exact Hl]. apply Z.pow_le_mono_r; lia. }
  assert (U : v < 2 ^ (8 * s)).
  { eapply Z.lt_le_trans; [exact Hu|]. apply Z.pow_le_mono_r; lia. }
  unfold m. destruct (Z.leb_spec s 3).
  - rewrite pow256 by lia. pose proof (Z.pow_pos_nonneg 2 (8 * (3 - s)) ltac:(lia) ltac:(lia)).
    replace 16 with (8 * (s - 1) + 8 * (3 - s)) by lia. replace 24 with (8 * s + 8 * (3 - s)) by lia.
    rewrite !Z.pow_add_r by lia. nia.
  - rewrite pow256 by lia. pose proof (Z.pow_pos_nonneg 2 (8 * (s - 3)) ltac:(lia) ltac:(lia)). split.
    + apply Z.div_le_lower_bound; [done|]. rewrite <-Z.pow_add_r by lia.
      by replace (8 * (s - 3) + 16) with (8 * (s - 1)) by lia.
    + apply Z.div_lt_upper_bound; [done|]. rewrite <-Z.pow_add_r by lia.
      by replace (8 * (s - 3) + 24) with (8 * s) by lia.
Qed.

Lemma compact_parts_bounds v :
  word 256 v → let '(m, e) := compact_parts v in
  0 <= m < 2 ^ 23 ∧ 0 <= e <= 33 ∧ (v = 0 → m = 0 ∧ e = 0) ∧ (v ≠ 0 → 2 ^ 15 <= m).
Proof.
  intros Hv. destruct (decide (v = 0)) as [->|Hne]; [vm_compute; intuition discriminate|].
  unfold compact_parts. destruct (top_bytes v _ ltac:(unfold word in Hv; lia) eq_refl) as [Hs Hm].
  pose proof (bitlen_range v 256 ltac:(lia) Hv).
  assert (Hs' : (bitlen v + 7) / 8 < 33) by (apply Z.div_lt_upper_bound; lia).
  set (s := (bitlen v + 7) / 8) in *. set (m := if s <=? 3 then _ else _) in *. clearbody s m.
  destruct (Z.leb_spec (2 ^ 23) m) as [Hb|Hb].
  - assert (2 ^ 15 <= m / 256) by (apply Z.div_le_lower_bound; lia).
    assert (m / 256 < 2 ^ 16) by (apply Z.div_lt_upper_bound; lia). lia.
  - lia.
Qed.

(** Decoding an encoding rounds the number down to the bytes that are kept. *)
Lemma compact_parts_value v :
  word 256 v → let '(m, e) := compact_parts v in compact_value m e = v / dropped e * dropped e.
Proof.
  intros Hv. destruct (decide (v = 0)) as [->|Hne]; [by vm_compute|].
  unfold compact_parts. destruct (top_bytes v _ ltac:(unfold word in Hv; lia) eq_refl) as [Hs Hm].
  set (s := (bitlen v + 7) / 8) in *. clearbody s. unfold compact_value, dropped.
  destruct (Z.leb_spec s 3) as [H3|H3].
  - pose proof (pow256_pos (3 - s) ltac:(lia)). destruct (Z.leb_spec (2 ^ 23) (v * 256 ^ (3 - s))).
    + destruct (Z.leb_spec (s + 1) 3).
      * rewrite Z.max_l by lia. rewrite Z.pow_0_r, Z.div_1_r, Z.mul_1_r.
        replace (3 - s) with (1 + (3 - (s + 1))) by lia. rewrite Z.pow_add_r, Z.pow_1_r by lia.
        rewrite Z.mul_assoc, Z.mul_shuffle0, Z.div_mul, Z.div_mul by (try apply Z.pow_nonzero; lia). done.
      * assert (s = 3) as -> by lia. done || (cbn; by rewrite Z.mul_1_r).
    + rewrite (proj2 (Z.leb_le s 3)) by done. rewrite Z.max_l, Z.pow_0_r, Z.div_1_r, Z.mul_1_r by lia.
      apply Z.div_mul. lia.
  - pose proof (pow256_pos (s - 3) ltac:(lia)). destruct (Z.leb_spec (2 ^ 23) (v / 256 ^ (s - 3))).
    + rewrite (proj2 (Z.leb_gt (s + 1) 3)), Z.max_r by lia. rewrite Z.div_div by lia.
      replace (s + 1 - 3) with (s - 3 + 1) by lia. by rewrite Z.pow_add_r, Z.pow_1_r by lia.
    + by rewrite (proj2 (Z.leb_gt s 3)), Z.max_r by lia.
Qed.

(** Rounding down to a power of two below the top bit keeps the bit length. *)
Lemma bitlen_round v k : 0 < v → 0 <= k <= bitlen v - 1 → bitlen (v / 2 ^ k * 2 ^ k) = bitlen v.
Proof.
  intros Hv Hk. destruct (bitlen_bound v) as [Hu Hl]; [lia|]. specialize (Hl ltac:(lia)).
  pose proof (Z.pow_pos_nonneg 2 k ltac:(lia) ltac:(lia)).
  pose proof (Z.mul_div_le v (2 ^ k) ltac:(lia)). apply bitlen_unique; [lia|]. split; [|lia].
  replace (bitlen v - 1) with (bitlen v - 1 - k + k) in * by lia. rewrite Z.pow_add_r in * by lia.
  apply Z.mul_le_mono_nonneg_r; [lia|]. apply Z.div_le_lower_bound; lia.
Qed.

Lemma compact_parts_idem v :
  word 256 v → let '(m, e) := compact_parts v in compact_parts (compact_value m e) = (m, e).
Proof.
  intros Hv. destruct (decide (v = 0)) as [->|Hne]; [by vm_compute|].
  pose proof (compact_parts_value v Hv) as Ev. destruct (compact_parts v) as [m e] eqn:E. rewrite Ev.
  unfold dropped. destruct (Z.le_gt_cases e 3) as [H3|H3].
  { rewrite Z.max_l, Z.pow_0_r, Z.div_1_r, Z.mul_1_r by lia. done. }
  rewrite Z.max_r by lia. assert (Hv0 : 0 < v) by (unfold word in Hv; lia).
  destruct (top_bytes v _ Hv0 eq_refl) as [Hs Hm]. unfold compact_parts in E.
  pose proof (Z.div_mod (bitlen v + 7) 8 ltac:(lia)). pose proof (Z.mod_pos_bound (bitlen v + 7) 8 ltac:(lia)).
  set (s := (bitlen v + 7) / 8) in *.
  assert (Hes : (e = s ∧ m = v / 256 ^ (s - 3) ∧ m < 2 ^ 23) ∨
                (e = s + 1 ∧ m = v / 256 ^ (s - 3) / 256 ∧ 2 ^ 23 <= v / 256 ^ (s - 3))).
  { destruct (Z.leb_spec s 3).
    - destruct (2 ^ 23 <=? v * 256 ^ (3 - s)) eqn:Hb; injection E as Em Ee; [|lia].
      apply Z.leb_le in Hb. right. assert (Es : s = 3) by lia. rewrite Es in *.
      change (256 ^ (3 - 3)) with 1 in *. rewrite Z.mul_1_r, Z.div_1_r in *. lia.
    - destruct (2 ^ 23 <=? v / 256 ^ (s - 3)) eqn:Hb; injection E as Em Ee;
        [apply Z.leb_le in Hb|apply Z.leb_gt in Hb]; lia. }
  clear E Ev Hm. unfold compact_parts. rewrite pow256, bitlen_round, <-pow256 by lia. fold s.
  set (t := v / 256 ^ (e - 3) * 256 ^ (e - 3)).
  replace (if s <=? 3 then t * 256 ^ (3 - s) else t / 256 ^ (s - 3)) with (t / 256 ^ (s - 3)); cycle 1.
  { destruct (Z.leb_spec s 3); [|done]. assert (s = 3) as -> by lia. by rewrite Z.div_1_r, Z.mul_1_r. }
  clearbody s. pose proof (pow256_pos (s - 3) ltac:(lia)) as Hp.
  destruct Hes as [(-> & -> & Hlt)|(-> & -> & Hge)]; unfold t.
  - rewrite Z.div_mul by lia. by rewrite (proj2 (Z.leb_gt _ _)) by done.
  - replace (s + 1 - 3) with (1 + (s - 3)) by lia. rewrite Z.pow_add_r, Z.pow_1_r by lia.
    rewrite Z.mul_assoc, Z.div_mul, (Z.mul_comm 256), <-Z.div_div, Z.div_mul by lia.
    rewrite (proj2 (Z.leb_le _ _)); [done|]. pose proof (Z.div_mod (v / 256 ^ (s - 3)) 256 ltac:(lia)).
    pose proof (Z.mod_pos_bound (v / 256 ^ (s - 3)) 256 ltac:(lia)). lia.
Qed.

(** The encoding the code builds, with its sign bit. *)
Definition encode_compact (v : Z) (neg : bool) : Z :=
  let '(m, e) := compact_parts v in m + 2 ^ 23 * Z.b2z (neg && negb (v =? 0)) + 2 ^ 24 * e.

Lemma top_bit m : word 24 m → Z.testbit m 23 = (2 ^ 23 <=? m).
Proof.
  intros Hm. unfold word in Hm. destruct (Z.leb_spec (2 ^ 23) m).
  - rewrite Z.testbit_true by lia. by replace (m / 2 ^ 23) with 1 by (apply (Z.div_unique _ _ _ (m - 2 ^ 23)); lia).
  - apply (word_testbit_high 23); [unfold word|]; lia.
Qed.

(** The last lines of [GetCompact], from a mantissa in range. *)
Lemma pack_compact m e (neg : bool) :
  0 <= m < 2 ^ 23 → 0 <= e <= 33 →
  (if negb (Z.land m (not32 0x007FFFFF) =? 0) || negb (e <? 256) then None else
   let nCompact := Z.lor m (SPH_T32 (e ≪ 24)) in
   Some (Z.lor nCompact (if neg && negb (Z.land nCompact 0x007FFFFF =? 0) then 0x00800000 else 0)))
  = Some (m + 2 ^ 23 * Z.b2z (neg && negb (m =? 0)) + 2 ^ 24 * e).
Proof.
  intros Hm He. change (not32 0x007FFFFF) with (Z.ones 9 ≪ 23).
  replace (Z.land m (Z.ones 9 ≪ 23)) with 0; cycle 1.
  { symmetry. apply Z.bits_inj'. intros i Hi. rewrite Z.land_spec, Z.shiftl_spec, Z.bits_0 by lia.
    destruct (Z.lt_ge_cases i 23); [rewrite (Z.testbit_neg_r _ (i - 23)) by lia; apply andb_false_r|].
    by rewrite (word_testbit_high 23 m i) by (unfold word; lia). }
  rewrite (proj2 (Z.ltb_lt e 256)) by lia. cbn [negb orb Z.eqb]. cbv zeta. f_equal.
  rewrite SPH_T32_id by (rewrite Z.shiftl_mul_pow2 by lia; unfold word; lia).
  rewrite (Z.lor_comm m), lor_shiftl_add by lia.
  change 0x007FFFFF with (Z.ones 23). rewrite Z.land_ones by lia.
  replace ((e * 2 ^ 24 + m) mod 2 ^ 23) with m by (apply (Z.mod_unique _ _ (e * 2)); lia).
  destruct (neg && negb (m =? 0)); cbn [Z.b2z]; [|rewrite Z.lor_0_r; lia].
  rewrite <-lor_shiftl_add by lia. rewrite <-Z.lor_assoc, (Z.lor_comm m).
  change 0x00800000 with (1 ≪ 23). rewrite (lor_shiftl_add 23 1 m), lor_shiftl_add by lia. lia.
Qed.

Lemma GetCompact_spec a neg : limbs a → GetCompact a neg = Some (encode_compact (val a) neg).
Proof.
  intros Ha. pose proof (limbs_bound a Ha) as Hv. unfold GetCompact, encode_compact.
  rewrite bits_spec by done. pose proof (compact_parts_bounds (val a) Hv) as Hb.
  destruct (compact_parts (val a)) as [m e] eqn:E.
  assert (E0 : negb (val a =? 0) = negb (m =? 0)).
  { destruct (Z.eqb_spec (val a) 0), (Z.eqb_spec m 0); (done || lia). }
  rewrite E0. rewrite <-pack_compact by lia. clear E0 Hb.
  unfold compact_parts in E. set (s := (bitlen (val a) + 7) / 8) in *.
  set (m0 := if s <=? 3 then val a * 256 ^ (3 - s) else val a / 256 ^ (s - 3)) in *.
  assert (Hm0 : 0 <= s ∧ word 24 m0).
  { destruct (decide (val a = 0)) as [Ez|Ez]; [unfold m0, s; rewrite Ez; by vm_compute|].
    destruct (top_bytes (val a) s) as [H1 H2]; [unfold word in Hv; lia|done|]. fold m0 in H2. unfold word. lia. }
  destruct Hm0 as [Hs Hm0].
  assert (Em : (if s <=? 3 then SPH_T32 (SPH_T64 (GetLow64 a ≪ (8 * (3 - s))))
                else SPH_T32 (GetLow64 (shift_right a (8 * (s - 3))))) = m0).
  { unfold word in *. destruct (Z.leb_spec s 3).
    - pose proof (pow256_pos (3 - s) ltac:(lia)).
      assert (val a < 2 ^ 24) by nia. rewrite GetLow64_spec, Z.mod_small by (done || lia).
      rewrite Z.shiftl_mul_pow2, <-pow256, SPH_T64_id, SPH_T32_id by (unfold word; lia). done.
    - destruct (shift_right_spec a (8 * (s - 3)) Ha ltac:(lia)) as [Hl Es].
      rewrite GetLow64_spec, Es, <-pow256 by (done || lia). fold m0.
      rewrite Z.mod_small by lia. apply SPH_T32_id. unfold word. lia. }
  rewrite Em. change 0x00800000 with (1 ≪ 23) at 1. rewrite test_mask, top_bit by (done || lia).
  destruct (2 ^ 23 <=? m0); injection E as <- <-; [rewrite Z.shiftr_div_pow2 by lia|]; done.
Qed.

Lemma encode_compact_fields v neg :
  word 256 v → let c := encode_compact v neg in
  word 32 c ∧ c mod 2 ^ 23 = fst (compact_parts v) ∧ c / 2 ^ 24 = snd (compact_parts v)
  ∧ Z.testbit c 23 = neg && negb (v =? 0).
Proof.
  intros Hv. pose proof (compact_parts_bounds v Hv) as Hb. unfold encode_compact.
  destruct (compact_parts v) as [m e]. cbn [fst snd]. destruct Hb as (Hm & He & _).
  set (sg := neg && negb (v =? 0)). assert (Hs : 0 <= Z.b2z sg <= 1) by (by destruct sg).
  set (z := Z.b2z sg) in *. split; [unfold word; lia|].
  split; [symmetry; apply (Z.mod_unique _ _ (z + 2 * e)); lia|].
  split; [symmetry; apply (Z.div_unique _ _ _ (m + 2 ^ 23 * z)); lia|].
  apply Z.b2z_inj. rewrite Z.testbit_spec' by lia. fold z.
  replace ((m + 2 ^ 23 * z + 2 ^ 24 * e) / 2 ^ 23) with (z + 2 * e)
    by (apply (Z.div_unique _ _ _ m); lia).
  symmetry. apply (Z.mod_unique _ _ e); lia.
Qed.

(** Decoding what was encoded: rounded down, with a relative error below 2^-15. *)
Lemma decode_encode_compact v neg :
  word 256 v → let t := decode_compact (encode_compact v neg) in
  0 <= t <= v ∧ (v - t) * 2 ^ 15 <= v ∧ compact_parts t = compact_parts v ∧ (t = 0 ↔ v = 0).
Proof.
  intros Hv. destruct (encode_compact_fields v neg Hv) as (_ & Em & Ee & _). cbv zeta.
  unfold decode_compact. rewrite Em, Ee. pose proof (compact_parts_bounds v Hv) as Hb.
  pose proof (compact_parts_value v Hv) as Ev. pose proof (compact_parts_idem v Hv) as Ei.
  destruct (compact_parts v) as [m e]. cbn [fst snd]. destruct Hb as (Hm & He & H0 & Hn).
  set (t := compact_value m e) in *. unfold word in Hv.
  assert (Hd : 0 < dropped e) by (apply pow256_pos; lia).
  pose proof (Z.div_mod v (dropped e) ltac:(lia)). pose proof (Z.mod_pos_bound v (dropped e) Hd).
  assert (Hp : (v - t) * 2 ^ 15 <= v).
  { destruct (Z.le_gt_cases e 3).
    - assert (E1 : dropped e = 1) by (unfold dropped; by rewrite Z.max_l by lia).
      rewrite E1, Z.div_1_r, Z.mul_1_r in Ev. lia.
    - assert (v ≠ 0) by (intros E; destruct (H0 E); lia). assert (Et : t = m * dropped e).
      { unfold t, compact_value, dropped. by rewrite (proj2 (Z.leb_gt e 3)), Z.max_r by lia. }
      assert (2 ^ 15 <= m) by auto. assert (2 ^ 15 * dropped e <= t) by (rewrite Et; apply Z.mul_le_mono_nonneg_r; lia). lia. }
  assert (0 <= v / dropped e) by (apply Z.div_pos; lia). assert (0 <= t) by (rewrite Ev; apply Z.mul_nonneg_nonneg; lia).
  split; [lia|]. split; [done|]. split; [done|]. lia.
Qed.

(** ** Blobs *)

Lemma ArithToUint256_join a : words 32 a → le_join (ArithToUint256 a) = val a.
Proof.
  unfold ArithToUint256. induction 1 as [|x a Hx Ha IH]; [done|]. rewrite fmap_cons. cbn [concat val].
  rewrite le_join_app, le_join_split, length_le_split, IH by apply bytes_le_split.
  by rewrite Z.mod_small.
Qed.

Lemma load_limbs n l :
  bytes l → length l = (4 * n)%nat →
  val ((λ x, le_join (take 4 (drop (x * 4) l))) <$> seq 0 n) = le_join l
  ∧ words 32 ((λ x, le_join (take 4 (drop (x * 4) l))) <$> seq 0 n).
Proof.
  revert l. induction n as [|n IH]; intros l Hb Hl.
  { destruct l; [|discriminate]. done. }
  cbn [seq]. rewrite fmap_cons, <-fmap_S_seq, <-list_fmap_compose. cbn [val Nat.mul].
  destruct (IH (drop 4 l)) as [Ev Ew]; [by apply Forall_drop|rewrite length_drop; lia|].
  rewrite (list_fmap_ext _ (λ x, le_join (take 4 (drop (x * 4) (drop 4 l)))))
    by (intros; cbn; rewrite drop_drop; do 3 f_equal; lia).
  rewrite Ev, drop_0. split.
  - rewrite <-(take_drop 4 l) at 3. rewrite le_join_app, length_take_le by (try apply Forall_take; (done || lia)). done.
  - constructor; [|done]. pose proof (word_le_join (take 4 l) ltac:(by apply Forall_take)) as H.
    by rewrite length_take_le in H by lia.
Qed.

Lemma UintToArith256_spec u :
  length u = WIDTH → bytes u → computes (UintToArith256 u) (le_join u).
Proof.
  intros Hl Hb. destruct (load_limbs LIMBS u Hb Hl) as [Ev Ew]. split; [split; [done|exact Ew]|exact Ev].
Qed.

Lemma ArithToUint256_shape a : limbs a → length (ArithToUint256 a) = WIDTH ∧ bytes (ArithToUint256 a).
Proof.
  intros [Hl Hw]. unfold ArithToUint256. split.
  - rewrite (length_concat_map _ 4) by (intros; apply length_le_split). by rewrite Hl.
  - clear. induction a as [|x a IH]; [constructor|]. rewrite fmap_cons. apply Forall_app. split; [apply bytes_le_split|done].
Qed.

Lemma blob_roundtrip a : limbs a → UintToArith256 (ArithToUint256 a) = a.
Proof.
  intros Ha. destruct (ArithToUint256_shape a Ha) as [Hl Hb].
  destruct (UintToArith256_spec _ Hl Hb) as [[Hl' Hw'] Ev]. destruct Ha as [Hla Hwa].
  apply val_inj; [congruence|done|done|]. by rewrite Ev, ArithToUint256_join.
Qed.

Lemma hex_roundtrip a : limbs a → arith_SetHex (arith_GetHex a) = a.
Proof.
  intros Ha. destruct (ArithToUint256_shape a Ha) as [Hl Hb]. unfold arith_SetHex, arith_GetHex.
  change (concat (le_split 4 <$> a)) with (ArithToUint256 a). rewrite GetHex_SetHex by done. by apply blob_roundtrip.
Qed.

Lemma increments_spec a :
  limbs a → computes (increment a) ((val a + 1) mod 2 ^ 256) ∧ computes (decrement a) ((val a - 1) mod 2 ^ 256)
  ∧ computes (bit_not a) (2 ^ 256 - 1 - val a).
Proof.
  intros Ha. destruct (increment_spec a (proj2 Ha)) as (Il & Iw & Iv).
  destruct (decrement_spec a (proj2 Ha)) as (Dl & Dw & Dv). destruct (bit_not_spec a (proj2 Ha)) as [Nw Nv].
  rewrite limbs_width in * by done. destruct Ha as [Hl _].
  repeat split; try done; [congruence|congruence|by rewrite length_bit_not].
Qed.

Lemma add64_spec a b :
  limbs a → word 64 b → computes (add64 a b) ((val a + b) mod 2 ^ 256) ∧ computes (sub64 a b) ((val a - b) mod 2 ^ 256).
Proof.
  intros Ha Hb. destruct (base_uint_of_spec b Hb) as [Hl Ev]. unfold add64, sub64. rewrite <-Ev at 2 4. split.
  - apply (add_spec a _ Ha Hl).
  - apply (sub_spec a _ Ha Hl).
Qed.

(** ** The theorems *)

(** C33: The operators of [base_uint<256>] on eight 32-bit limbs are the
    operations of the integers modulo 2^256: addition, subtraction, both
    multiplications (no 64-bit carry overflows), negation, increment and
    decrement, complement, the bitwise operations, both shifts by any amount,
    comparison, bit length, the overloads on 64-bit operands, and the
    conversions to a blob and to hexadecimal text and back. *)
Theorem arith_operations a b :
  limbs a → limbs b →
  computes (add a b) ((val a + val b) mod 2 ^ 256)
  ∧ computes (sub a b) ((val a - val b) mod 2 ^ 256)
  ∧ computes (mul a b) ((val a * val b) mod 2 ^ 256)
  ∧ (∀ n, computes (mul32 a n) ((val a * (n mod 2 ^ 32)) mod 2 ^ 256))
  ∧ computes (neg a) ((- val a) mod 2 ^ 256)
  ∧ computes (increment a) ((val a + 1) mod 2 ^ 256)
  ∧ computes (decrement a) ((val a - 1) mod 2 ^ 256)
  ∧ computes (bit_not a) (2 ^ 256 - 1 - val a)
  ∧ computes (bit_xor a b) (val a ^^ val b)
  ∧ computes (bit_and a b) (Z.land (val a) (val b))
  ∧ computes (bit_or a b) (Z.lor (val a) (val b))
  ∧ (∀ s, 0 <= s → computes (shift_left a s) ((val a * 2 ^ s) mod 2 ^ 256)
                   ∧ computes (shift_right a s) (val a / 2 ^ s))
  ∧ CompareTo a b = Z.sgn (val a - val b)
  ∧ bits a = bitlen (val a)
  ∧ (∀ n, word 64 n → EqualTo a n = (val a =? n)
        ∧ computes (add64 a n) ((val a + n) mod 2 ^ 256) ∧ computes (sub64 a n) ((val a - n) mod 2 ^ 256)
        ∧ computes (xor64 a n) (val a ^^ n) ∧ computes (or64 a n) (Z.lor (val a) n))
  ∧ UintToArith256 (ArithToUint256 a) = a ∧ arith_SetHex (arith_GetHex a) = a.
Proof.
  intros Ha Hb. destruct (increments_spec a Ha) as (Hi & Hd & Hn).
  do 3 (split; [auto using add_spec, sub_spec, mul_spec|]). split; [auto using mul32_spec|].
  split; [by apply neg_spec|]. do 3 (split; [done|]).
  do 3 (split; [auto using bit_xor_spec, bit_and_spec, bit_or_spec|]).
  split; [auto using shift_left_spec, shift_right_spec|]. split; [by apply CompareTo_spec|].
  split; [by apply bits_spec|]. split; [|split; [by apply blob_roundtrip|by apply hex_roundtrip]]. intros n Hw.
  destruct (add64_spec a n Ha Hw) as [H1 H2]. destruct (base_uint_of_spec n Hw) as [Hl Ev].
  split; [by apply EqualTo_spec|]. split; [done|]. split; [done|].
  rewrite xor64_eq, or64_eq by done. rewrite <-Ev at 2 4. auto using bit_xor_spec, bit_or_spec.
Qed.

Lemma arith_operations_witness :
  computes (mul (base_uint_of 5) (base_uint_of 7)) ((5 * 7) mod 2 ^ 256) ∧
  computes (sub (base_uint_of 5) (base_uint_of 7)) ((5 - 7) mod 2 ^ 256).
Proof.
  assert (L : ∀ n, word 64 n → limbs (base_uint_of n)) by (intros n Hn; exact (proj1 (base_uint_of_spec n Hn))).
  destruct (arith_operations (base_uint_of 5) (base_uint_of 7) (L 5 ltac:(unfold word; lia)) (L 7 ltac:(unfold word; lia)))
    as (_ & S & M & _). exact (conj M S).
Defined.

(** C34: The shift-and-subtract division of [base_uint<256>] returns for every
    pair of operands: the exception when the divisor is zero, and otherwise
    the quotient rounded down. *)
Theorem division_correct a b :
  limbs a → limbs b →
  (val b = 0 → div a b = None)
  ∧ (val b ≠ 0 → ∃ q, div a b = Some q ∧ computes q (val a / val b)).
Proof.
  intros Ha Hb. pose proof (div_spec a b Ha Hb) as H.
  destruct (Z.eqb_spec (val b) 0) as [E|E]; (split; [intros ?|intros ?]); done.
Qed.

Lemma division_correct_witness :
  (∃ q, div (base_uint_of 100) (base_uint_of 7) = Some q ∧ computes q (val (base_uint_of 100) / val (base_uint_of 7)))
  ∧ div (base_uint_of 100) (base_uint_of 0) = None.
Proof.
  assert (L : ∀ n, word 64 n → limbs (base_uint_of n)) by (intros n Hn; exact (proj1 (base_uint_of_spec n Hn))).
  split.
  - apply (division_correct (base_uint_of 100) (base_uint_of 7)); [apply L; unfold word; lia|apply L; unfold word; lia|].
    vm_compute. discriminate.
  - apply (division_correct (base_uint_of 100) (base_uint_of 0)); [apply L; unfold word; lia|apply L; unfold word; lia|].
    reflexivity.
Defined.

(** C35: The compact format of difficulty targets: [SetCompact] computes
    mantissa times 256^(exponent - 3) rounded down, its overflow flag is set
    exactly when that does not fit 256 bits and its negative flag exactly for
    the sign bit on a number other than zero; [GetCompact] never fails its
    assertions, and decoding what it encoded gives the number rounded down
    with a relative error of at most 2^-15, without overflow, which encodes to
    the same word again. *)
Theorem compact_target :
  (∀ c, word 32 c →
     ∃ r, SetCompact c = (r, negb (decode_compact c =? 0) && Z.testbit c 23, 2 ^ 256 <=? decode_compact c)
     ∧ computes r (decode_compact c mod 2 ^ 256))
  ∧ (∀ a neg, limbs a →
     ∃ c r, GetCompact a neg = Some c ∧ word 32 c
     ∧ SetCompact c = (r, negb (val a =? 0) && neg, false)
     ∧ limbs r ∧ val r <= val a ∧ (val a - val r) * 2 ^ 15 <= val a
     ∧ GetCompact r neg = Some c).
Proof.
  split; [apply SetCompact_spec|]. intros a ng Ha. pose proof (limbs_bound a Ha) as Hv.
  destruct (encode_compact_fields (val a) ng Hv) as (Hw & _ & _ & Hs).
  destruct (decode_encode_compact (val a) ng Hv) as (Ht & Hp & Hc & Hz).
  destruct (SetCompact_spec _ Hw) as (r & Er & Hr & Ev). unfold word in Hv.
  rewrite Z.mod_small in Ev by lia. exists (encode_compact (val a) ng), r.
  split; [by apply GetCompact_spec|]. split; [done|]. split.
  { rewrite Er, Hs, (proj2 (Z.leb_gt (2 ^ 256) _)) by lia. f_equal. f_equal.
    destruct (Z.eqb_spec (val a) 0), (Z.eqb_spec (decode_compact (encode_compact (val a) ng)) 0), ng; (done || tauto). }
  rewrite Ev. split; [done|]. split; [lia|]. split; [done|].
  rewrite GetCompact_spec, Ev by done. clear Er Hw Hs.
  set (t := decode_compact _) in *. clearbody t. unfold encode_compact. rewrite Hc.
  destruct (compact_parts (val a)) as [m e]. do 6 f_equal.
  apply eq_true_iff_eq. rewrite !negb_true_iff, !Z.eqb_neq. tauto.
Qed.

Lemma compact_target_witness :
  ∃ c r, GetCompact (base_uint_of 0x123456789) false = Some c ∧ SetCompact c = (r, false, false)
  ∧ val r <= 0x123456789 ∧ GetCompact r false = Some c.
Proof.
  destruct compact_target as [_ G].
  destruct (G (base_uint_of 0x123456789) false) as (c & r & E & _ & S & _ & L & _ & R);
    [apply base_uint_of_spec; unfold word; lia|].
  exists c, r. exact (conj E (conj S (conj L R))).
Defined.
