(* ===== verification/BlockIndex.v ===== *)
(** The tree of block headers: [CBlockIndex] of [src/chain.h], its ancestors and
    work in [src/chain.cpp], and [BlockManager::AddToBlockIndex] of
    [src/node/blockstorage.cpp].

    The entries live in the map [m_block_index]; a pointer to an entry is its
    key, the hash of the block.  An operation that runs into a failed assertion,
    a null pointer or a division by zero is [None].  Every tree that
    [AddToBlockIndex] builds satisfies the invariant of [block_index_invariant];
    on such a tree the walk over the skip list finds the ancestor that walking
    back block by block finds ([ancestors_correct]), and
    [LastCommonAncestor] the fork point. *)
From S2P Require Import Prelude SphTypes Serialize Uint256 Block Arith256.
From stdpp Require Import list gmap fin_sets sorting.
#[local] Open Scope Z_scope.

(** ** Entries *)

Abbreviation ptr := (list Z).

Record CBlockIndex := mk_index {
  pprev : option ptr; pskip : option ptr; nHeight : Z; nChainWork : list Z; nStatus : Z;
  nVersion : Z; hashMerkleRoot : list Z; nTime : Z; nBits : Z; nNonce : Z;
  nSequenceId : Z; nTimeMax : Z }.

Abbreviation BlockMap := (gmap ptr CBlockIndex).

(** The constructor from a header, with the default values of the other members. *)
Definition CBlockIndex_of (block : CBlockHeader) : CBlockIndex :=
  mk_index None None 0 (base_uint_of 0) 0 (Block.nVersion block) (Block.hashMerkleRoot block)
    (Block.nTime block) (Block.nBits block) (Block.nNonce block) 0 0.

Definition set_prev (q : ptr) (h : Z) (b : CBlockIndex) : CBlockIndex :=
  mk_index (Some q) (pskip b) h (nChainWork b) (nStatus b) (nVersion b) (hashMerkleRoot b)
    (nTime b) (nBits b) (nNonce b) (nSequenceId b) (nTimeMax b).
Definition set_skip (s : option ptr) (b : CBlockIndex) : CBlockIndex :=
  mk_index (pprev b) s (nHeight b) (nChainWork b) (nStatus b) (nVersion b) (hashMerkleRoot b)
    (nTime b) (nBits b) (nNonce b) (nSequenceId b) (nTimeMax b).
Definition set_time_max (t : Z) (b : CBlockIndex) : CBlockIndex :=
  mk_index (pprev b) (pskip b) (nHeight b) (nChainWork b) (nStatus b) (nVersion b) (hashMerkleRoot b)
    (nTime b) (nBits b) (nNonce b) (nSequenceId b) t.
Definition set_work (w : list Z) (b : CBlockIndex) : CBlockIndex :=
  mk_index (pprev b) (pskip b) (nHeight b) w (nStatus b) (nVersion b) (hashMerkleRoot b)
    (nTime b) (nBits b) (nNonce b) (nSequenceId b) (nTimeMax b).
Definition set_status (s : Z) (b : CBlockIndex) : CBlockIndex :=
  mk_index (pprev b) (pskip b) (nHeight b) (nChainWork b) s (nVersion b) (hashMerkleRoot b)
    (nTime b) (nBits b) (nNonce b) (nSequenceId b) (nTimeMax b).
Definition set_sequence (i : Z) (b : CBlockIndex) : CBlockIndex :=
  mk_index (pprev b) (pskip b) (nHeight b) (nChainWork b) (nStatus b) (nVersion b) (hashMerkleRoot b)
    (nTime b) (nBits b) (nNonce b) i (nTimeMax b).

(** *** Block status *)

Definition BLOCK_VALID_TREE : Z := 2.
Definition BLOCK_VALID_SCRIPTS : Z := 5.
Definition BLOCK_VALID_MASK : Z := Z.lor (Z.lor (Z.lor (Z.lor 1 2) 3) 4) 5.
Definition BLOCK_FAILED_MASK : Z := Z.lor 32 64.
Definition BLOCK_CONFLICT_CHAINLOCK : Z := 128.
Definition BLOCK_ASSUMED_VALID : Z := 256.

(** The new status and whether it changed. *)
Definition RaiseValidity (nStatus nUpTo : Z) : option (Z * bool) :=
  if negb (Z.land nUpTo (Z.lnot BLOCK_VALID_MASK) =? 0) then None
  else if negb (Z.land nStatus BLOCK_FAILED_MASK =? 0) then Some (nStatus, false)
  else if Z.land nStatus BLOCK_VALID_MASK <? nUpTo then
    let nStatus := if negb (Z.land nStatus BLOCK_ASSUMED_VALID =? 0) && (BLOCK_VALID_SCRIPTS <=? nUpTo)
                   then Z.land nStatus (not32 BLOCK_ASSUMED_VALID) else nStatus in
    Some (Z.lor (Z.land nStatus (not32 BLOCK_VALID_MASK)) nUpTo, true)
  else Some (nStatus, false).

Definition IsValid (nStatus nUpTo : Z) : option bool :=
  if negb (Z.land nUpTo (Z.lnot BLOCK_VALID_MASK) =? 0) then None
  else if negb (Z.land nStatus BLOCK_FAILED_MASK =? 0) then Some false
  else Some (nUpTo <=? Z.land nStatus BLOCK_VALID_MASK).

(** ** Ancestors *)

Definition InvertLowestOne (n : Z) : Z := Z.land n (n - 1).

Definition GetSkipHeight (height : Z) : Z :=
  if height <? 2 then 0
  else if negb (Z.land height 1 =? 0) then InvertLowestOne (InvertLowestOne (height - 1)) + 1
  else InvertLowestOne height.

(** The loop of [GetAncestor]; every turn lowers [heightWalk], so the height of
    the entry it starts from is enough fuel. *)
Fixpoint ancestor_loop (fuel : nat) (m : BlockMap) (pindexWalk : ptr) (heightWalk height : Z) : option ptr :=
  if height <? heightWalk then
    match fuel with
    | O => None
    | S fuel =>
        b ← m !! pindexWalk;
        let heightSkip := GetSkipHeight heightWalk in
        let heightSkipPrev := GetSkipHeight (heightWalk - 1) in
        match (s ← pskip b;
               if (heightSkip =? height) ||
                  ((height <? heightSkip) && negb ((heightSkipPrev <? heightSkip - 2) && (height <=? heightSkipPrev)))
               then Some s else None) with
        | Some s => ancestor_loop fuel m s heightSkip height
        | None => p ← pprev b; ancestor_loop fuel m p (heightWalk - 1) height
        end
    end
  else Some pindexWalk.

(** [Some None] is the null pointer. *)
Definition GetAncestor (m : BlockMap) (this : ptr) (height : Z) : option (option ptr) :=
  b ← m !! this;
  if (nHeight b <? height) || (height <? 0) then Some None
  else q ← ancestor_loop (Z.to_nat (nHeight b)) m this (nHeight b) height; Some (Some q).

Definition BuildSkip (m : BlockMap) (this : ptr) : option BlockMap :=
  b ← m !! this;
  match pprev b with
  | Some q => s ← GetAncestor m q (GetSkipHeight (nHeight b)); Some (<[this := set_skip s b]> m)
  | None => Some m
  end.

Definition has_height (m : BlockMap) (p : ptr) : option Z := nHeight <$> m !! p.

(** [pa != pb && pa && pb] over optional pointers. *)
Fixpoint common_loop (fuel : nat) (m : BlockMap) (pa pb : option ptr) : option (option ptr) :=
  match pa, pb with
  | Some a, Some b =>
      if decide (a = b) then Some pa else
      match fuel with
      | O => None
      | S fuel => ea ← m !! a; eb ← m !! b; common_loop fuel m (pprev ea) (pprev eb)
      end
  | None, None => Some None
  | _, _ => None
  end.

(** The arguments are not null; [Some None] is the null pointer, [None] a failed
    assertion. *)
Definition LastCommonAncestor (m : BlockMap) (pa pb : ptr) : option (option ptr) :=
  a ← m !! pa; b ← m !! pb;
  pa' ← (if nHeight b <? nHeight a then GetAncestor m pa (nHeight b) else Some (Some pa));
  pb' ← (if nHeight b <? nHeight a then Some (Some pb)
         else if nHeight a <? nHeight b then GetAncestor m pb (nHeight a) else Some (Some pb));
  common_loop (S (Z.to_nat (nHeight a))) m pa' pb'.

(** ** Work *)

Definition GetBlockProof (nBits : Z) : option (list Z) :=
  let '(bnTarget, fNegative, fOverflow) := SetCompact nBits in
  if fNegative || fOverflow || EqualTo bnTarget 0 then Some (base_uint_of 0)
  else q ← div (bit_not bnTarget) (add bnTarget (base_uint_of 1)); Some (add q (base_uint_of 1)).

(** The time to redo the difference in work at the tip's difficulty. *)
Definition GetBlockProofEquivalentTime (to from tip : CBlockIndex) (nPowTargetSpacing : Z) : option Z :=
  let '(r, sign) :=
    if 0 <? CompareTo (nChainWork to) (nChainWork from) then (sub (nChainWork to) (nChainWork from), 1)
    else (sub (nChainWork from) (nChainWork to), -1) in
  proof ← GetBlockProof (nBits tip);
  r ← div (mul r (base_uint_of (SPH_T64 nPowTargetSpacing))) proof;
  Some (if 63 <? bits r then sign * (2 ^ 63 - 1) else to_signed 64 (SPH_T64 (sign * GetLow64 r))).

(** ** Median time *)

Definition nMedianTimeSpan : nat := 11.

(** The times of at most [n] entries from [pindex] back. *)
Fixpoint past_times (n : nat) (m : BlockMap) (pindex : option ptr) : option (list Z) :=
  match n, pindex with
  | S n, Some p => b ← m !! p; l ← past_times n m (pprev b); Some (nTime b :: l)
  | _, _ => Some []
  end.

Definition GetMedianTimePast (m : BlockMap) (this : ptr) : option Z :=
  l ← past_times nMedianTimeSpan m (Some this);
  Some (merge_sort Z.le l @@ (length l / 2)).

(** ** The block manager *)

Record BlockManager := mk_manager {
  m_block_index : BlockMap; m_dirty_blockindex : gset ptr; m_prev_block_index : list (list Z * ptr) }.

Definition LookupBlockIndex (bm : BlockManager) (hash : list Z) : option ptr :=
  match m_block_index bm !! hash with Some _ => Some hash | None => None end.

(** The entry, the manager and [best_header] after the call. *)
Definition AddToBlockIndex (bm : BlockManager) (block : CBlockHeader) (hash : list Z)
    (best_header : option ptr) (status : Z) : option (ptr * BlockManager * option ptr) :=
  if negb (Z.land status BLOCK_FAILED_MASK =? 0) then None else
  match m_block_index bm !! hash with
  | Some _ => Some (hash, bm, best_header)
  | None =>
      let m := <[hash := set_sequence 0 (CBlockIndex_of block)]> (m_block_index bm) in
      m ← (match m !! hashPrevBlock block with
           | Some prev => BuildSkip (alter (set_prev (hashPrevBlock block) (nHeight prev + 1)) hash m) hash
           | None => Some m
           end);
      b ← m !! hash;
      prev ← (match pprev b with Some q => e ← m !! q; Some (Some e) | None => Some None end);
      let m := alter (set_time_max (match prev with Some e => Z.max (nTimeMax e) (nTime b) | None => nTime b end)) hash m in
      w ← GetBlockProof (nBits b);
      let work := add (match prev with Some e => nChainWork e | None => base_uint_of 0 end) w in
      let m := alter (set_work work) hash m in
      '(m, best_header) ←
        (if negb (Z.land status BLOCK_VALID_MASK =? 0) then
           '(st, _) ← RaiseValidity (nStatus b) status;
           let m := alter (set_status st) hash m in
           match best_header with
           | None => Some (m, Some hash)
           | Some bh => e ← m !! bh; Some (m, if CompareTo (nChainWork e) work <? 0 then Some hash else best_header)
           end
         else
           '(st, _) ← RaiseValidity (nStatus b) BLOCK_VALID_TREE;
           Some (alter (set_status (Z.lor st status)) hash m, best_header));
      Some (hash,
            mk_manager m ({[ hash ]} ∪ m_dirty_blockindex bm)
              (match pprev b with Some q => m_prev_block_index bm ++ [(q, hash)] | None => m_prev_block_index bm end),
            best_header)
  end.

(** ** The invariant of the tree *)

(** [n] steps back along [pprev]. *)
Fixpoint walk (m : BlockMap) (p : ptr) (n : nat) : option ptr :=
  match n with
  | O => Some p
  | S n => b ← m !! p; q ← pprev b; walk m q n
  end.

(** The expected number of hashes for a block with these [nBits]. *)
Definition block_work (nBits : Z) : Z :=
  let t := decode_compact nBits in
  if Z.testbit nBits 23 || (2 ^ 256 <=? t) || (t =? 0) then 0 else 2 ^ 256 / (t + 1).

(** What an entry's members are, from those of its predecessor. *)
Definition entry_ok (m : BlockMap) (b : CBlockIndex) : Prop :=
  word 32 (nBits b) ∧
  match pprev b with
  | None => nHeight b = 0 ∧ pskip b = None ∧ nTimeMax b = nTime b
            ∧ computes (nChainWork b) (block_work (nBits b))
  | Some q => ∃ c s, m !! q = Some c ∧ 0 <= nHeight c ∧ nHeight b = nHeight c + 1
            ∧ pskip b = Some s ∧ walk m q (Z.to_nat (nHeight c - GetSkipHeight (nHeight b))) = Some s
            ∧ nTimeMax b = Z.max (nTimeMax c) (nTime b)
            ∧ computes (nChainWork b) ((val (nChainWork c) + block_work (nBits b)) mod 2 ^ 256)
  end.

Definition index_ok (m : BlockMap) : Prop := ∀ p b, m !! p = Some b → entry_ok m b.

(** *** Skip heights *)

Lemma land_le a b : 0 <= a → Z.land a b <= a.
Proof.
  intros Ha. apply Z.ldiff_le; [done|]. apply Z.bits_inj'. intros i Hi.
  rewrite Z.ldiff_spec, Z.land_spec, Z.bits_0. btauto.
Qed.

Lemma InvertLowestOne_bound n : 1 <= n → 0 <= InvertLowestOne n < n.
Proof.
  intros Hn. unfold InvertLowestOne. split; [apply Z.land_nonneg; lia|].
  rewrite Z.land_comm. pose proof (land_le (n - 1) n). lia.
Qed.

Lemma GetSkipHeight_bound h : 1 <= h → 0 <= GetSkipHeight h < h.
Proof.
  intros Hh. unfold GetSkipHeight. destruct (Z.ltb_spec h 2); [lia|].
  destruct (negb _); [|by apply InvertLowestOne_bound].
  pose proof (InvertLowestOne_bound (h - 1) ltac:(lia)). set (k := InvertLowestOne (h - 1)) in *. clearbody k.
  destruct (Z.eq_dec k 0) as [->|]; [change (InvertLowestOne 0) with 0; lia|]. pose proof (InvertLowestOne_bound k). lia.
Qed.

(** *** Walking back *)

Lemma walk_add m p n k : walk m p (n + k) = q ← walk m p n; walk m q k.
Proof.
  revert p. induction n as [|n IH]; intros p; [done|]. cbn [walk Nat.add].
  destruct (m !! p) as [b|]; [|done]. cbn. destruct (pprev b) as [q|]; [|done]. cbn. apply IH.
Qed.

Lemma walk_fresh m h e p n q : m !! h = None → walk m p n = Some q → walk (<[h := e]> m) p n = Some q.
Proof.
  intros Hh. revert p. induction n as [|n IH]; intros p; [done|]. cbn [walk].
  destruct (m !! p) as [b|] eqn:Ep; [|done]. cbn. rewrite lookup_insert_ne by congruence. rewrite Ep. cbn.
  destruct (pprev b) as [r|]; [|done]. cbn. apply IH.
Qed.

Section Tree.
Context (m : BlockMap) (Hok : index_ok m).

Lemma height_nonneg p b : m !! p = Some b → 0 <= nHeight b.
Proof.
  intros Hp. destruct (Hok p b Hp) as [_ H]. destruct (pprev b) as [q|]; [|lia].
  destruct H as (c & s & ? & ? & ? & _). lia.
Qed.

(** The ancestors of an entry: one at each height below its own. *)
Lemma walk_total p b n :
  m !! p = Some b → Z.of_nat n <= nHeight b →
  ∃ q c, walk m p n = Some q ∧ m !! q = Some c ∧ nHeight c = nHeight b - Z.of_nat n.
Proof.
  revert p b. induction n as [|n IH]; intros p b Hp Hn.
  { exists p, b. rewrite Z.sub_0_r. done. }
  destruct (Hok p b Hp) as [_ H]. cbn [walk]. rewrite Hp. cbn.
  destruct (pprev b) as [q|]; [|lia]. destruct H as (c & s & Hq & Hc & Eh & _).
  destruct (IH q c Hq) as (r & d & Hw & Hr & Er); [lia|]. exists r, d. repeat split; (done || lia).
Qed.

Lemma walk_root p b n : m !! p = Some b → nHeight b < Z.of_nat n → walk m p n = None.
Proof.
  revert p b. induction n as [|n IH]; intros p b Hp Hn; [pose proof (height_nonneg p b Hp); lia|].
  destruct (Hok p b Hp) as [_ H]. cbn [walk]. rewrite Hp. cbn.
  destruct (pprev b) as [q|]; [|done]. destruct H as (c & s & Hq & Hc & Eh & _).
  apply (IH q c Hq). lia.
Qed.

(** The skip pointer leads to the ancestor at the skip height. *)
Lemma skip_walk p b :
  m !! p = Some b → nHeight b ≠ 0 →
  ∃ s, pskip b = Some s ∧ walk m p (Z.to_nat (nHeight b - GetSkipHeight (nHeight b))) = Some s.
Proof.
  intros Hp Hh. destruct (Hok p b Hp) as [_ H]. destruct (pprev b) as [q|] eqn:Eq; [|lia].
  destruct H as (c & s & Hq & Hc & Eh & Es & Hw & _). exists s. split; [done|].
  pose proof (GetSkipHeight_bound (nHeight b) ltac:(lia)).
  replace (Z.to_nat (nHeight b - GetSkipHeight (nHeight b)))
    with (S (Z.to_nat (nHeight c - GetSkipHeight (nHeight b)))) by lia.
  cbn [walk]. rewrite Hp. cbn. rewrite Eq. done.
Qed.

Lemma ancestor_loop_walk fuel p b height :
  m !! p = Some b → 0 <= height <= nHeight b → nHeight b - height <= Z.of_nat fuel →
  ancestor_loop fuel m p (nHeight b) height = walk m p (Z.to_nat (nHeight b - height)).
Proof.
  revert p b. induction fuel as [|fuel IH]; intros p b Hp Hh Hf; cbn [ancestor_loop];
    destruct (Z.ltb_spec height (nHeight b)); try lia;
    try (by replace (Z.to_nat (nHeight b - height)) with 0%nat by lia).
  rewrite Hp. cbn [mbind option_bind]. destruct (skip_walk p b Hp ltac:(lia)) as (s & Es & Hs). rewrite Es.
  cbn [mbind option_bind]. pose proof (GetSkipHeight_bound (nHeight b) ltac:(lia)) as Hk.
  set (k := GetSkipHeight (nHeight b)) in *. clearbody k.
  destruct (_ || _) eqn:C.
  - assert (height <= k) by (apply orb_true_iff in C as [C|C]; [apply Z.eqb_eq in C; lia|];
      apply andb_true_iff in C as [C _]; apply Z.ltb_lt in C; lia).
    destruct (walk_total p b (Z.to_nat (nHeight b - k)) Hp ltac:(lia)) as (s' & c & Hs' & Hc & Ec).
    assert (s' = s) as -> by congruence. replace k with (nHeight c) by lia. rewrite IH by (done || lia).
    replace (Z.to_nat (nHeight b - height)) with (Z.to_nat (nHeight b - k) + Z.to_nat (nHeight c - height))%nat by lia.
    by rewrite walk_add, Hs.
  - replace (Z.to_nat (nHeight b - height)) with (S (Z.to_nat (nHeight b - 1 - height))) by lia. cbn [walk].
    rewrite Hp. cbn [mbind option_bind]. destruct (Hok p b Hp) as [_ H']. destruct (pprev b) as [q|]; [|lia].
    destruct H' as (c & _ & Hq & Hc & Eh & _). cbn [mbind option_bind].
    replace (nHeight b - 1) with (nHeight c) by lia. apply IH; (done || lia).
Qed.

Lemma GetAncestor_walk p b height :
  m !! p = Some b →
  GetAncestor m p height =
  Some (if (0 <=? height) && (height <=? nHeight b) then walk m p (Z.to_nat (nHeight b - height)) else None).
Proof.
  intros Hp. unfold GetAncestor. rewrite Hp. cbn [mbind option_bind].
  destruct (Z.leb_spec 0 height), (Z.leb_spec height (nHeight b)), (Z.ltb_spec (nHeight b) height), (Z.ltb_spec height 0);
    cbn [orb andb]; try done; try lia.
  rewrite ancestor_loop_walk by (done || lia).
  destruct (walk_total p b (Z.to_nat (nHeight b - height)) Hp ltac:(lia)) as (q & c & -> & _). done.
Qed.
End Tree.

(** ** Work *)

(** A target is never 2^256 - 1, so adding one does not wrap to a division by zero. *)
Lemma decode_compact_max c : word 32 c → decode_compact c < 2 ^ 256 → 0 <= decode_compact c < 2 ^ 256 - 1.
Proof.
  intros Hc Hlt. destruct (compact_fields c Hc) as (He & Hm & _). unfold decode_compact, compact_value in *.
  set (e := c / 2 ^ 24) in *. set (k := c mod 2 ^ 23) in *. clearbody e k. unfold word in *.
  destruct (Z.leb_spec e 3).
  - pose proof (pow256_pos (3 - e) ltac:(lia)). split; [apply Z.div_pos; lia|].
    assert (k / 256 ^ (3 - e) <= k) by (apply Z.div_le_upper_bound; nia). lia.
  - replace (e - 3) with (1 + (e - 4)) in * by lia. rewrite Z.pow_add_r, Z.pow_1_r in * by lia.
    pose proof (pow256_pos (e - 4) ltac:(lia)). split; [nia|].
    replace (k * (256 * 256 ^ (e - 4))) with (256 * (k * 256 ^ (e - 4))) in * by lia. lia.
Qed.

Lemma GetBlockProof_spec c :
  word 32 c → ∃ w, GetBlockProof c = Some w ∧ computes w (block_work c).
Proof.
  intros Hc. unfold GetBlockProof, block_work. destruct (SetCompact_spec c Hc) as (r & -> & Hr & Ev).
  set (t := decode_compact c) in *. rewrite EqualTo_spec, Ev by (done || by vm_compute).
  assert (E : negb (t =? 0) && Z.testbit c 23 || (2 ^ 256 <=? t) || (t mod 2 ^ 256 =? 0)
              = Z.testbit c 23 || (2 ^ 256 <=? t) || (t =? 0)).
  { destruct (Z.eqb_spec t 0) as [->|]; [by destruct (Z.testbit c 23)|]. cbn [negb andb].
    destruct (Z.leb_spec (2 ^ 256) t); [by rewrite !orb_true_r|].
    pose proof (decode_compact_max c Hc ltac:(fold t; lia)) as Hmx. fold t in Hmx.
    rewrite Z.mod_small by lia. rewrite (proj2 (Z.eqb_neq t 0)) by done. done. }
  rewrite E. clear E. destruct (_ || _) eqn:C; [eexists; split; [done|by apply base_uint_of_spec]|].
  rewrite !orb_false_iff, Z.leb_gt, Z.eqb_neq in C. destruct C as [[_ Hlt] Hne].
  pose proof (decode_compact_max c Hc Hlt) as Hmx. fold t in Hmx. rewrite Z.mod_small in Ev by lia.
  destruct (base_uint_of_spec 1 ltac:(by vm_compute)) as [H1 E1].
  destruct (add_spec r _ Hr H1) as [Ha Ea]. rewrite Ev, E1, Z.mod_small in Ea by lia.
  destruct (increments_spec r Hr) as (_ & _ & Hn & En).
  pose proof (div_spec _ _ Hn Ha) as Hd. rewrite Ea, (proj2 (Z.eqb_neq _ _)) in Hd by lia.
  destruct Hd as (q & -> & Hq & Eq). cbn [mbind option_bind]. eexists. split; [done|].
  destruct (add_spec q _ Hq H1) as [Hw Ew]. split; [done|]. rewrite Ew, E1, Eq, En, Ev.
  replace (2 ^ 256 - 1 - t) with (2 ^ 256 + (-1) * (t + 1)) by lia. rewrite Z.div_add by lia.
  assert (0 <= 2 ^ 256 / (t + 1) <= 2 ^ 255).
  { split; [apply Z.div_pos; lia|]. apply Z.div_le_upper_bound; lia. }
  rewrite Z.mod_small; lia.
Qed.

(** The equivalent time is the difference in work times the spacing, divided by
    the work of the tip, with the sign of the difference and saturated at 63 bits. *)
Lemma GetBlockProofEquivalentTime_spec to from tip spacing :
  limbs (nChainWork to) → limbs (nChainWork from) → word 32 (nBits tip) → block_work (nBits tip) ≠ 0 →
  0 < spacing < 2 ^ 63 →
  let d := val (nChainWork to) - val (nChainWork from) in
  Z.abs d * spacing < 2 ^ 256 →
  GetBlockProofEquivalentTime to from tip spacing =
  Some ((if 0 <? d then 1 else -1) * Z.min (2 ^ 63 - 1) (Z.abs d * spacing / block_work (nBits tip))).
Proof.
  intros Ht Hf Hb Hw Hs d Hd. unfold GetBlockProofEquivalentTime. rewrite compare_gt by done.
  destruct (GetBlockProof_spec _ Hb) as (w & -> & Lw & Ew).
  rewrite SPH_T64_id by (unfold word; lia). destruct (base_uint_of_spec spacing ltac:(unfold word; lia)) as [Ls Es].
  pose proof (limbs_bound _ Ht) as Bt. pose proof (limbs_bound _ Hf) as Bf. pose proof (limbs_bound _ Lw) as Bw.
  unfold word in Bt, Bf, Bw. rewrite Ew in Bw.
  assert (Hr : ∃ r, (if val (nChainWork from) <? val (nChainWork to)
      then (sub (nChainWork to) (nChainWork from), 1) else (sub (nChainWork from) (nChainWork to), -1))
      = (r, if 0 <? d then 1 else -1) ∧ computes r (Z.abs d)).
  { destruct (Z.ltb_spec (val (nChainWork from)) (val (nChainWork to))); destruct (Z.ltb_spec 0 d); try lia;
      (eexists; split; [done|]); [destruct (sub_spec _ _ Ht Hf) as [L E]|destruct (sub_spec _ _ Hf Ht) as [L E]];
      (split; [done|]; rewrite E, Z.mod_small; lia). }
  destruct Hr as (r & -> & Lr & Er). cbn [mbind option_bind].
  destruct (mul_spec r _ Lr Ls) as [Lm Em]. rewrite Er, Es, Z.mod_small in Em by (split; [apply Z.mul_nonneg_nonneg; lia|done]).
  pose proof (div_spec _ _ Lm Lw) as H. rewrite Ew, Em, (proj2 (Z.eqb_neq _ _)) in H by done.
  destruct H as (q & -> & Lq & Eq). cbn [mbind option_bind]. f_equal. rewrite bits_spec, GetLow64_spec, Eq by done.
  set (x := Z.abs d * spacing / block_work (nBits tip)) in *.
  assert (Hx : 0 <= x) by (apply Z.div_pos; [apply Z.mul_nonneg_nonneg|]; lia). destruct (bitlen_bound x Hx) as [U L].
  destruct (Z.ltb_spec 63 (bitlen x)) as [Hbig|Hsmall].
  - assert (x ≠ 0) by (intros E0; rewrite E0 in Hbig; cbn in Hbig; lia).
    assert (2 ^ 63 <= x) by (etransitivity; [|by apply L]; apply Z.pow_le_mono_r; lia). rewrite Z.min_l by lia. done.
  - assert (x < 2 ^ 63) by (eapply Z.lt_le_trans; [exact U|]; apply Z.pow_le_mono_r; lia).
    rewrite Z.min_r, Z.mod_small, SPH_T64_mod by lia. apply to_signed_mod; [lia|]. destruct (0 <? d); lia.
Qed.

(** ** Adding an entry *)

(** The entry [AddToBlockIndex] makes, from the entry of the predecessor, the
    ancestor at the skip height, the work and the status. *)
Definition new_entry (block : CBlockHeader) (prev : option CBlockIndex) (skip : option ptr)
    (work : list Z) (status : Z) : CBlockIndex :=
  mk_index (match prev with Some _ => Some (hashPrevBlock block) | None => None end) skip
    (match prev with Some e => nHeight e + 1 | None => 0 end) work status
    (Block.nVersion block) (Block.hashMerkleRoot block) (Block.nTime block) (Block.nBits block) (Block.nNonce block) 0
    (match prev with Some e => Z.max (nTimeMax e) (Block.nTime block) | None => Block.nTime block end).

Definition prev_entry (m : BlockMap) (block : CBlockHeader) : option CBlockIndex := m !! hashPrevBlock block.

(** The statuses that the callers pass: a validity level alone, or flags without one. *)
Definition status_ok (status : Z) : Prop :=
  Z.land status BLOCK_FAILED_MASK = 0 ∧
  (Z.land status BLOCK_VALID_MASK ≠ 0 → Z.land status (Z.lnot BLOCK_VALID_MASK) = 0).

Lemma index_ok_insert m h e :
  index_ok m → m !! h = None → entry_ok (<[h := e]> m) e → index_ok (<[h := e]> m).
Proof.
  intros Hok Hh He p b Hp. destruct (decide (p = h)) as [->|Hne].
  { rewrite lookup_insert_eq in Hp. by injection Hp as <-. }
  rewrite lookup_insert_ne in Hp by done. destruct (Hok p b Hp) as [Hb H]. split; [done|].
  destruct (pprev b) as [q|]; [|done]. destruct H as (c & s & Hq & Hc & Eh & Es & Hw & Hr).
  exists c, s. rewrite lookup_insert_ne by congruence. repeat (split; [done|]).
  split; [by apply walk_fresh|done].
Qed.

Lemma ancestor_loop_fresh m h e fuel p hw height q :
  m !! h = None → ancestor_loop fuel m p hw height = Some q →
  ancestor_loop fuel (<[h := e]> m) p hw height = Some q.
Proof.
  intros Hh. revert p hw. induction fuel as [|fuel IH]; intros p hw; cbn [ancestor_loop];
    destruct (height <? hw); try done.
  destruct (m !! p) as [b|] eqn:Ep; [|done]. rewrite lookup_insert_ne, Ep by congruence. cbn [mbind option_bind].
  destruct (s ← pskip b; _) as [s|]; [apply IH|]. destruct (pprev b) as [r|]; [|done]. cbn [mbind option_bind]. apply IH.
Qed.

Lemma GetAncestor_fresh m h e p height r :
  m !! h = None → GetAncestor m p height = Some r → GetAncestor (<[h := e]> m) p height = Some r.
Proof.
  intros Hh. unfold GetAncestor. destruct (m !! p) as [b|] eqn:Ep; [|done].
  rewrite lookup_insert_ne, Ep by congruence. cbn [mbind option_bind]. destruct (_ || _); [done|].
  destruct (ancestor_loop _ m _ _ _) as [q|] eqn:E; [|done]. by rewrite (ancestor_loop_fresh m h e _ _ _ _ q Hh E).
Qed.

Definition skip_of (m : BlockMap) (block : CBlockHeader) : option ptr :=
  c ← prev_entry m block; walk m (hashPrevBlock block) (Z.to_nat (nHeight c - GetSkipHeight (nHeight c + 1))).

Definition work_of (m : BlockMap) (block : CBlockHeader) (w : list Z) : list Z :=
  add (match prev_entry m block with Some c => nChainWork c | None => base_uint_of 0 end) w.

Section Add.
Context (m : BlockMap) (Hok : index_ok m) (block : CBlockHeader) (hash : list Z).
Context (Hfresh : m !! hash = None) (Hne : hashPrevBlock block ≠ hash) (Hb : word 32 (Block.nBits block)).

Lemma skip_found c e :
  prev_entry m block = Some c →
  GetAncestor (<[hash := e]> m) (hashPrevBlock block) (GetSkipHeight (nHeight c + 1)) = Some (skip_of m block).
Proof.
  intros Hc. apply GetAncestor_fresh; [done|]. unfold skip_of. rewrite Hc. cbn [mbind option_bind].
  pose proof (height_nonneg m Hok _ _ Hc). pose proof (GetSkipHeight_bound (nHeight c + 1) ltac:(lia)).
  rewrite (GetAncestor_walk m Hok _ c) by done.
  rewrite (proj2 (Z.leb_le _ _)), (proj2 (Z.leb_le _ _)) by lia. done.
Qed.

Lemma new_entry_ok w status :
  computes w (block_work (Block.nBits block)) →
  index_ok (<[hash := new_entry block (prev_entry m block) (skip_of m block) (work_of m block w) status]> m).
Proof.
  intros [Hw Ew]. apply index_ok_insert; [done|done|]. split; [done|]. unfold skip_of, work_of.
  destruct (prev_entry m block) as [c|] eqn:Hc; cbn [new_entry pprev nHeight pskip nTimeMax nTime nChainWork nBits mbind option_bind].
  - pose proof (height_nonneg m Hok _ _ Hc). pose proof (GetSkipHeight_bound (nHeight c + 1) ltac:(lia)).
    destruct (walk_total m Hok _ _ (Z.to_nat (nHeight c - GetSkipHeight (nHeight c + 1))) Hc) as (s & d & Hs & _); [lia|].
    exists c, s. rewrite lookup_insert_ne by done. rewrite <-Ew. destruct (Hok _ _ Hc) as [_ Hcw].
    assert (limbs (nChainWork c)) by (destruct (pprev c); [destruct Hcw as (? & ? & ? & ? & ? & ? & ? & ? & [? _])|
      destruct Hcw as (? & ? & ? & [? _])]; done).
    repeat (split; [done|]). split; [by apply walk_fresh|]. split; [done|]. by apply add_spec.
  - repeat (split; [done|]). rewrite <-Ew. pose proof (limbs_bound w Hw) as Hv.
    destruct (base_uint_of_spec 0 ltac:(by vm_compute)) as [H0 E0].
    destruct (add_spec _ w H0 Hw) as [Ha Ea]. split; [done|]. rewrite Ea, E0. apply Z.mod_small. done.
Qed.
End Add.

Lemma RaiseValidity_total st up : Z.land up (Z.lnot BLOCK_VALID_MASK) = 0 → is_Some (RaiseValidity st up).
Proof. intros E. unfold RaiseValidity. rewrite E. cbn [Z.eqb negb]. destruct (negb _); [eauto|]. destruct (_ <? _); eauto. Qed.

Definition children_of (bm : BlockManager) (block : CBlockHeader) (hash : list Z) : list (list Z * ptr) :=
  match prev_entry (m_block_index bm) block with
  | Some _ => m_prev_block_index bm ++ [(hashPrevBlock block, hash)]
  | None => m_prev_block_index bm
  end.

(** The first lines: [pprev], [nHeight] and [pskip] of the new entry. *)
Lemma link_entry m block hash :
  index_ok m → m !! hash = None → hashPrevBlock block ≠ hash →
  (match m !! hashPrevBlock block with
   | Some prev => BuildSkip (alter (set_prev (hashPrevBlock block) (nHeight prev + 1)) hash
                               (<[hash := set_sequence 0 (CBlockIndex_of block)]> m)) hash
   | None => Some (<[hash := set_sequence 0 (CBlockIndex_of block)]> m)
   end) = Some (<[hash := set_time_max 0 (new_entry block (prev_entry m block) (skip_of m block) (base_uint_of 0) 0)]> m).
Proof.
  intros Hok Hfresh Hne. destruct (m !! hashPrevBlock block) as [c|] eqn:Hc.
  - rewrite alter_insert_eq. unfold BuildSkip. rewrite lookup_insert_eq. cbn [mbind option_bind pprev set_prev nHeight].
    rewrite (skip_found m Hok block hash Hfresh c) by done. cbn [mbind option_bind]. rewrite insert_insert_eq.
    unfold prev_entry. by rewrite Hc.
  - unfold skip_of, prev_entry. by rewrite Hc.
Qed.

(** What [AddToBlockIndex] does to a tree without the block. *)
Lemma AddToBlockIndex_new bm block hash best status :
  index_ok (m_block_index bm) → m_block_index bm !! hash = None → hashPrevBlock block ≠ hash →
  word 32 (Block.nBits block) → status_ok status →
  (∀ p, best = Some p → is_Some (m_block_index bm !! p)) →
  ∃ w st best', GetBlockProof (Block.nBits block) = Some w ∧ computes w (block_work (Block.nBits block)) ∧
  let m := m_block_index bm in
  let m' := <[hash := new_entry block (prev_entry m block) (skip_of m block) (work_of m block w) st]> m in
  AddToBlockIndex bm block hash best status =
    Some (hash, mk_manager m' ({[ hash ]} ∪ m_dirty_blockindex bm) (children_of bm block hash), best')
  ∧ ∀ p, best' = Some p → is_Some (m' !! p).
Proof.
  intros Hok Hfresh Hne Hb [Hst Hst'] Hbest. destruct bm as [m dirty prevs]. cbn [m_block_index] in *.
  destruct (GetBlockProof_spec _ Hb) as (w & Ew & Hw). exists w. cbv zeta.
  unfold AddToBlockIndex. rewrite Hst. cbn [Z.eqb negb m_block_index m_dirty_blockindex m_prev_block_index].
  rewrite Hfresh, lookup_insert_ne, link_entry by done. cbn [mbind option_bind].
  rewrite lookup_insert_eq. cbn [mbind option_bind].
  replace (match pprev _ with Some q => _ | None => _ end) with (Some (prev_entry m block)); cycle 1.
  { cbn. unfold prev_entry. destruct (m !! hashPrevBlock block) as [c|] eqn:Hc; [|done].
    by rewrite lookup_insert_ne, Hc by congruence. }
  cbn [mbind option_bind nBits set_time_max new_entry]. rewrite Ew. cbn [mbind option_bind].
  assert (Hc : match pprev (set_time_max 0 (new_entry block (prev_entry m block) (skip_of m block) (base_uint_of 0) 0)) with
     | Some q => prevs ++ [(q, hash)] | None => prevs end = children_of (mk_manager m dirty prevs) block hash)
    by (unfold children_of; cbn; by destruct (prev_entry m block)).
  rewrite Hc. clear Hc. change (nStatus (set_time_max 0 _)) with 0.
  destruct (Z.eqb_spec (Z.land status BLOCK_VALID_MASK) 0) as [Ez|Ez]; cbn [negb].
  - destruct (RaiseValidity_total 0 BLOCK_VALID_TREE) as [[st ch] Est]; [done|].
    rewrite Est. cbn [mbind option_bind]. rewrite !alter_insert_eq. exists (Z.lor st status), best.
    do 3 (split; [done|]). intros p Hp. rewrite lookup_insert_is_Some'. right. by apply Hbest.
  - destruct (RaiseValidity_total 0 status) as [[st ch] Est]; [auto|]. rewrite Est. cbn [mbind option_bind].
    destruct best as [bh|].
    + rewrite !alter_insert_eq. destruct (Hbest bh eq_refl) as [e He].
      rewrite lookup_insert_ne, He by congruence. cbn [mbind option_bind]. exists st. eexists.
      do 3 (split; [done|]). intros p Hp. rewrite lookup_insert_is_Some'.
      destruct (_ <? 0); injection Hp as <-; [by left|right; eauto].
    + rewrite !alter_insert_eq. exists st, (Some hash). do 3 (split; [done|]).
      intros p Hp. injection Hp as <-. rewrite lookup_insert_is_Some'. by left.
Qed.

(** *** The trees that can arise *)

Inductive reachable : BlockManager → option ptr → Prop :=
  | reachable_empty : reachable (mk_manager ∅ ∅ []) None
  | reachable_add bm best block hash status p bm' best' :
      reachable bm best → word 32 (Block.nBits block) → hashPrevBlock block ≠ hash → status_ok status →
      AddToBlockIndex bm block hash best status = Some (p, bm', best') → reachable bm' best'.

Lemma reachable_ok bm best :
  reachable bm best → index_ok (m_block_index bm) ∧ ∀ p, best = Some p → is_Some (m_block_index bm !! p).
Proof.
  induction 1 as [|bm best block hash status p bm' best' _ [Hok Hbest] Hb Hne Hst E].
  { split; [intros p b Hp; cbn [m_block_index] in Hp; rewrite lookup_empty in Hp|]; done. }
  destruct (m_block_index bm !! hash) as [e|] eqn:Hh.
  - unfold AddToBlockIndex in E. rewrite (proj1 Hst), Hh in E. cbn [Z.eqb negb] in E. by injection E as <- <- <-.
  - destruct (AddToBlockIndex_new bm block hash best status) as (w & st & best'' & _ & Hw & E' & Hbest'); try done.
    cbv zeta in *. rewrite E' in E. injection E as <- <- <-. split; [by apply new_entry_ok|done].
Qed.

(** The entries from [p] back, at most [n + 1] of them. *)
Fixpoint branch (m : BlockMap) (n : nat) (p : ptr) : list CBlockIndex :=
  match m !! p with
  | Some b => b :: match n, pprev b with S n, Some q => branch m n q | _, _ => [] end
  | None => []
  end.

Definition sum_work (l : list CBlockIndex) : Z := foldr (λ b s, block_work (nBits b) + s) 0 l.

Lemma branch_spec m n p b :
  index_ok m → m !! p = Some b → n = Z.to_nat (nHeight b) →
  length (branch m n p) = S n ∧ (∃ r, last (branch m n p) = Some r ∧ pprev r = None)
  ∧ Forall (λ e, nTime e <= nTimeMax b) (branch m n p) ∧ Exists (λ e, nTime e = nTimeMax b) (branch m n p)
  ∧ computes (nChainWork b) (sum_work (branch m n p) mod 2 ^ 256).
Proof.
  intros Hok. revert p b. induction n as [|n IH]; intros p b Hp Hn; cbn [branch]; rewrite Hp;
    pose proof (height_nonneg m Hok p b Hp); destruct (Hok p b Hp) as [_ H'];
    destruct (pprev b) as [q|] eqn:Eq.
  - destruct H' as (c & s & _ & ? & ? & _). lia.
  - destruct H' as (_ & _ & Et & Hl & Ew). split; [done|]. split; [by exists b|].
    split; [constructor; [lia|constructor]|]. split; [by constructor|]. split; [done|]. cbn [sum_work foldr].
    rewrite Z.add_0_r, <-Ew, Z.mod_small; [done|]. by apply limbs_bound.
  - destruct H' as (c & s & Hq & Hc & Eh & _ & _ & Et & Hl & Ew).
    destruct (IH q c Hq ltac:(lia)) as (L & (r & Er & Hr) & F & X & Hcl & Ec).
    split; [cbn [length]; lia|]. split; [exists r; split; [|done]|].
    { destruct (branch m n q); [done|]. done. }
    split; [constructor; [lia|]; eapply Forall_impl; [exact F|]; cbn; lia|]. split.
    { destruct (Z.le_ge_cases (nTimeMax c) (nTime b)); [left; lia|right].
      eapply Exists_impl; [exact X|]. cbn. lia. }
    split; [done|]. rewrite Ew, Ec. cbn [sum_work foldr].
    rewrite Z.add_mod_idemp_l by lia. f_equal. unfold sum_work. lia.
  - lia.
Qed.

Lemma past_times_branch m n p b :
  index_ok m → m !! p = Some b → past_times (S n) m (Some p) = Some (nTime <$> branch m n p).
Proof.
  intros Hok. revert p b. induction n as [|n IH]; intros p b Hp.
  - cbn. by rewrite Hp.
  - change (past_times (S (S n)) m (Some p)) with (b ← m !! p; l ← past_times (S n) m (pprev b); Some (nTime b :: l)).
    rewrite Hp. cbn [mbind option_bind branch]. rewrite Hp. destruct (Hok p b Hp) as [_ Hb].
    destruct (pprev b) as [q|]; [|done]. destruct Hb as (c & _ & Hq & _). by rewrite (IH q c Hq).
Qed.

(** The median of the times of the last eleven blocks, or of all when there are
    fewer. *)
Lemma GetMedianTimePast_spec m p b :
  index_ok m → m !! p = Some b →
  let l := nTime <$> branch m 10 p in
  ∃ s, s ≡ₚ l ∧ StronglySorted Z.le s ∧ GetMedianTimePast m p = Some (s @@ (length l / 2)).
Proof.
  intros Hok Hp l. exists (merge_sort Z.le l). split; [apply merge_sort_Permutation|].
  split; [apply (StronglySorted_merge_sort Z.le)|].
  unfold GetMedianTimePast. change nMedianTimeSpan with (S 10). by rewrite (past_times_branch m 10 p b Hok Hp).
Qed.

(** C6: The tree of headers, in every state that a sequence of
    [AddToBlockIndex] calls reaches: each entry's predecessors lead down to a
    block without one in as many steps as its height, [nTimeMax] is the
    greatest time on that branch, [nChainWork] the sum of 2^256 / (target + 1)
    over it modulo 2^256, and [pskip] the ancestor at the skip height; adding
    a header that does not name its own hash as its predecessor, with a status
    that the assertions on [nStatus] accept ([status_ok]), never fails an
    assertion, makes it findable and changes no other entry. *)
Theorem block_index_invariant bm best :
  reachable bm best →
  (∀ p b, m_block_index bm !! p = Some b →
     let l := branch (m_block_index bm) (Z.to_nat (nHeight b)) p in
     Z.of_nat (length l) = nHeight b + 1 ∧ (∃ g, last l = Some g ∧ pprev g = None)
     ∧ Forall (λ e, nTime e <= nTimeMax b) l ∧ Exists (λ e, nTime e = nTimeMax b) l
     ∧ computes (nChainWork b) (sum_work l mod 2 ^ 256)
     ∧ (nHeight b ≠ 0 → ∃ s, pskip b = Some s
          ∧ walk (m_block_index bm) p (Z.to_nat (nHeight b - GetSkipHeight (nHeight b))) = Some s))
  ∧ (∀ block hash status, word 32 (Block.nBits block) → hashPrevBlock block ≠ hash → status_ok status →
     ∃ bm' best', AddToBlockIndex bm block hash best status = Some (hash, bm', best')
     ∧ LookupBlockIndex bm' hash = Some hash
     ∧ ∀ p b, m_block_index bm !! p = Some b → m_block_index bm' !! p = Some b).
Proof.
  intros Hr. destruct (reachable_ok bm best Hr) as [Hok Hbest]. split.
  - intros p b Hp l. pose proof (height_nonneg _ Hok p b Hp).
    destruct (branch_spec _ _ p b Hok Hp eq_refl) as (L & G & F & X & W). fold l in L, G, F, X, W.
    split; [lia|]. do 4 (split; [done|]). by apply skip_walk.
  - intros block hash status Hb Hne Hst. destruct (m_block_index bm !! hash) as [e|] eqn:Hh.
    + exists bm, best. unfold AddToBlockIndex, LookupBlockIndex. rewrite (proj1 Hst), Hh. done.
    + destruct (AddToBlockIndex_new bm block hash best status) as (w & st & best' & _ & _ & E & _); try done.
      cbv zeta in E. rewrite E. do 2 eexists. split; [done|]. unfold LookupBlockIndex. cbn [m_block_index].
      rewrite lookup_insert_eq. split; [done|]. intros p b Hp. by rewrite lookup_insert_ne by congruence.
Qed.

(** ** Ancestors on the trees that arise *)

Definition ancestor (m : BlockMap) (p q : ptr) : Prop := ∃ n, walk m p n = Some q.

Section Common.
Context (m : BlockMap) (Hok : index_ok m).

Lemma common_loop_spec fuel pa pb a b :
  m !! pa = Some a → m !! pb = Some b → nHeight a = nHeight b → nHeight a < Z.of_nat fuel →
  ∃ r, common_loop fuel m (Some pa) (Some pb) = Some r ∧
  match r with
  | Some q => ∃ n, walk m pa n = Some q ∧ walk m pb n = Some q ∧ ∀ k, (k < n)%nat → walk m pa k ≠ walk m pb k
  | None => ∀ k x, walk m pa k = Some x → walk m pb k ≠ Some x
  end.
Proof.
  revert pa pb a b. induction fuel as [|fuel IH]; intros pa pb a b Ha Hb E Hf;
    pose proof (height_nonneg m Hok pa a Ha); [lia|]. cbn [common_loop].
  destruct (decide (pa = pb)) as [->|Hne].
  { exists (Some pb). split; [done|]. exists 0%nat. split; [done|]. split; [done|]. lia. }
  rewrite Ha, Hb. cbn [mbind option_bind]. destruct (Hok pa a Ha) as [_ A]. destruct (Hok pb b Hb) as [_ B].
  assert (W : ∀ k, walk m pa (S k) = (q ← pprev a; walk m q k) ∧ walk m pb (S k) = (q ← pprev b; walk m q k))
    by (intros k; cbn [walk]; by rewrite Ha, Hb).
  destruct (pprev a) as [qa|], (pprev b) as [qb|];
    [|destruct A as (? & ? & ? & ? & ? & _); lia|destruct B as (? & ? & ? & ? & ? & _); lia|].
  - destruct A as (ca & _ & Ca & HA & EA & _), B as (cb & _ & Cb & HB & EB & _).
    destruct (IH qa qb ca cb Ca Cb) as (r & -> & Hr); [lia|lia|]. exists r. split; [done|].
    destruct r as [q|].
    + destruct Hr as (n & W1 & W2 & Hmin). exists (S n). destruct (W n) as [-> ->]. do 2 (split; [done|]).
      intros [|k] Hk; [cbn [walk]; congruence|]. destruct (W k) as [-> ->]. cbn [mbind option_bind]. apply Hmin. lia.
    + intros [|k] x; [cbn [walk]; congruence|]. destruct (W k) as [-> ->]. cbn [mbind option_bind]. apply Hr.
  - exists None. destruct fuel; (split; [done|]); intros [|k] x; [cbn [walk]; congruence| |cbn [walk]; congruence|];
      by destruct (W k) as [-> ->].
Qed.

(** Two walks that meet do so at the same height. *)
Lemma walk_meet pa pb a b i j x :
  m !! pa = Some a → m !! pb = Some b → walk m pa i = Some x → walk m pb j = Some x →
  nHeight a - Z.of_nat i = nHeight b - Z.of_nat j ∧ 0 <= nHeight a - Z.of_nat i.
Proof.
  intros Ha Hb Hi Hj.
  destruct (Z.lt_ge_cases (nHeight a) (Z.of_nat i)); [by rewrite (walk_root m Hok pa a i) in Hi|].
  destruct (Z.lt_ge_cases (nHeight b) (Z.of_nat j)); [by rewrite (walk_root m Hok pb b j) in Hj|].
  destruct (walk_total m Hok pa a i Ha) as (x1 & c1 & H1 & C1 & E1); [lia|].
  destruct (walk_total m Hok pb b j Hb) as (x2 & c2 & H2 & C2 & E2); [lia|].
  assert (x1 = x2) as -> by congruence. assert (c1 = c2) as -> by congruence. lia.
Qed.
End Common.

Lemma walk_split m p n k x : (n <= k)%nat → walk m p k = Some x → ∃ q, walk m p n = Some q ∧ walk m q (k - n) = Some x.
Proof.
  intros Hn. replace k with (n + (k - n))%nat at 1 by lia. rewrite walk_add.
  destruct (walk m p n) as [q|]; [|done]. cbn [mbind option_bind]. eauto.
Qed.

(** The two sides brought to the same height. *)
Lemma aligned_sides m pa pb a b :
  index_ok m → m !! pa = Some a → m !! pb = Some b →
  ∃ qa qb ca cb i j,
    (if nHeight b <? nHeight a then GetAncestor m pa (nHeight b) else Some (Some pa)) = Some (Some qa)
    ∧ (if nHeight b <? nHeight a then Some (Some pb)
       else if nHeight a <? nHeight b then GetAncestor m pb (nHeight a) else Some (Some pb)) = Some (Some qb)
    ∧ walk m pa i = Some qa ∧ walk m pb j = Some qb ∧ m !! qa = Some ca ∧ m !! qb = Some cb
    ∧ nHeight ca = nHeight cb ∧ nHeight ca <= nHeight a
    ∧ nHeight ca = nHeight a - Z.of_nat i ∧ nHeight cb = nHeight b - Z.of_nat j ∧ (i = 0 ∨ j = 0)%nat.
Proof.
  intros Hok Ha Hb. pose proof (height_nonneg m Hok pa a Ha). pose proof (height_nonneg m Hok pb b Hb).
  destruct (Z.ltb_spec (nHeight b) (nHeight a)).
  - destruct (walk_total m Hok pa a (Z.to_nat (nHeight a - nHeight b)) Ha) as (q & c & Hw & Hc & Ec); [lia|].
    rewrite (GetAncestor_walk m Hok pa a) by done. rewrite (proj2 (Z.leb_le _ _)), (proj2 (Z.leb_le _ _)), Hw by lia.
    exists q, pb, c, b, (Z.to_nat (nHeight a - nHeight b)), 0%nat. repeat (split; [done || lia|]). lia.
  - destruct (Z.ltb_spec (nHeight a) (nHeight b)).
    + destruct (walk_total m Hok pb b (Z.to_nat (nHeight b - nHeight a)) Hb) as (q & c & Hw & Hc & Ec); [lia|].
      rewrite (GetAncestor_walk m Hok pb b) by done. rewrite (proj2 (Z.leb_le _ _)), (proj2 (Z.leb_le _ _)), Hw by lia.
      exists pa, q, a, c, 0%nat, (Z.to_nat (nHeight b - nHeight a)). repeat (split; [done || lia|]). lia.
    + exists pa, pb, a, b, 0%nat, 0%nat. repeat (split; [done || lia|]). lia.
Qed.

(** The last common ancestor, or null when there is none; the assertion holds. *)
Lemma LastCommonAncestor_spec m pa pb a b :
  index_ok m → m !! pa = Some a → m !! pb = Some b →
  ∃ r, LastCommonAncestor m pa pb = Some r ∧
  match r with
  | Some q => ancestor m pa q ∧ ancestor m pb q ∧
      ∀ x ex, ancestor m pa x → ancestor m pb x → m !! x = Some ex → ∃ eq, m !! q = Some eq ∧ nHeight ex <= nHeight eq
  | None => ∀ x, ancestor m pa x → ¬ ancestor m pb x
  end.
Proof.
  intros Hok Ha Hb. destruct (aligned_sides m pa pb a b Hok Ha Hb)
    as (qa & qb & ca & cb & i & j & Ea & Eb & Wa & Wb & Ca & Cb & Eh & Hle & Hi & Hj & Hz).
  unfold LastCommonAncestor. rewrite Ha, Hb. cbn [mbind option_bind]. rewrite Ea. cbn [mbind option_bind].
  rewrite Eb. cbn [mbind option_bind]. pose proof (height_nonneg m Hok pa a Ha).
  destruct (common_loop_spec m Hok (S (Z.to_nat (nHeight a))) qa qb ca cb Ca Cb Eh ltac:(lia)) as (r & -> & Hr).
  exists r. split; [done|].
  assert (Hcommon : ∀ x, ancestor m pa x → ancestor m pb x → ∃ k, walk m qa k = Some x ∧ walk m qb k = Some x).
  { intros x [n1 H1] [n2 H2]. destruct (walk_meet m Hok pa pb a b n1 n2 x Ha Hb H1 H2) as [Em Hnn].
    destruct (walk_split m pa i n1 x ltac:(lia) H1) as (q1 & Q1 & K1).
    destruct (walk_split m pb j n2 x ltac:(lia) H2) as (q2 & Q2 & K2).
    assert (q1 = qa) as -> by congruence. assert (q2 = qb) as -> by congruence.
    exists (n1 - i)%nat. split; [done|]. by replace (n1 - i)%nat with (n2 - j)%nat by lia. }
  destruct r as [q|].
  - destruct Hr as (n & W1 & W2 & Hmin). split; [exists (i + n)%nat; by rewrite walk_add, Wa|].
    split; [exists (j + n)%nat; by rewrite walk_add, Wb|]. intros x ex Xa Xb Hx.
    destruct (Hcommon x Xa Xb) as (k & K1 & K2).
    destruct (walk_meet m Hok qa qa ca ca n n q Ca Ca W1 W1) as [_ Hn].
    destruct (walk_meet m Hok qa qa ca ca k k x Ca Ca K1 K1) as [_ Hk].
    destruct (walk_total m Hok qa ca n Ca) as (q' & eq & Q & Hq & Eq); [lia|]. assert (q' = q) as -> by congruence.
    destruct (walk_total m Hok qa ca k Ca) as (x' & ex' & X & Hx' & Ex); [lia|]. assert (x' = x) as -> by congruence.
    exists eq. split; [done|]. assert (ex' = ex) as -> by congruence.
    destruct (decide (k < n)%nat) as [Hlt|]; [|lia]. destruct (Hmin k Hlt). congruence.
  - intros x Xa Xb. destruct (Hcommon x Xa Xb) as (k & K1 & K2). by apply (Hr k x K1).
Qed.

(** C7: On every tree that arises, [GetAncestor] returns for every height:
    through the skip list it finds the entry that walking back block by block
    finds, at the height asked for, and the null pointer for a height out of
    range; [LastCommonAncestor] passes its assertion and returns the common
    ancestor of greatest height, or the null pointer when there is none. *)
Theorem ancestors_correct bm best :
  reachable bm best →
  let m := m_block_index bm in
  (∀ p b height, m !! p = Some b →
     ∃ r, GetAncestor m p height = Some r ∧
     (0 <= height <= nHeight b →
        ∃ q c, r = Some q ∧ walk m p (Z.to_nat (nHeight b - height)) = Some q ∧ m !! q = Some c ∧ nHeight c = height)
     ∧ (height < 0 ∨ nHeight b < height → r = None))
  ∧ (∀ pa pb a b, m !! pa = Some a → m !! pb = Some b →
     ∃ r, LastCommonAncestor m pa pb = Some r ∧
     match r with
     | Some q => ancestor m pa q ∧ ancestor m pb q ∧
         ∀ x ex, ancestor m pa x → ancestor m pb x → m !! x = Some ex → ∃ eq, m !! q = Some eq ∧ nHeight ex <= nHeight eq
     | None => ∀ x, ancestor m pa x → ¬ ancestor m pb x
     end).
Proof.
  intros Hr m. destruct (reachable_ok bm best Hr) as [Hok _]. fold m in Hok.
  split; [|intros; by eapply LastCommonAncestor_spec].
  intros p b height Hp. rewrite (GetAncestor_walk m Hok p b) by done. eexists. split; [done|]. split.
  - intros Hh. rewrite (proj2 (Z.leb_le _ _)), (proj2 (Z.leb_le _ _)) by lia. cbn [andb].
    destruct (walk_total m Hok p b (Z.to_nat (nHeight b - height)) Hp) as (q & c & Hw & Hc & Ec); [lia|].
    exists q, c. repeat split; (done || lia).
  - intros [Hh|Hh]; [rewrite (proj2 (Z.leb_gt 0 height)) by lia|rewrite (proj2 (Z.leb_gt height _)), andb_false_r by lia]; done.
Qed.

(** *** A sample tree: a chain of [n] blocks, 150 seconds apart *)

Definition sample_header (i : nat) : CBlockHeader :=
  mk_header 1 [Z.of_nat i - 1] [] (1400000000 + 150 * Z.of_nat i) 0x1e0ffff0 7.

Fixpoint sample (n : nat) : option (BlockManager * option ptr) :=
  match n with
  | O => Some (mk_manager ∅ ∅ [], None)
  | S n =>
      '(bm, best) ← sample n;
      '(_, bm, best) ← AddToBlockIndex bm (sample_header n) [Z.of_nat n] best BLOCK_VALID_TREE;
      Some (bm, best)
  end.

Definition sample_tree (n : nat) : BlockManager := match sample n with Some (bm, _) => bm | None => mk_manager ∅ ∅ [] end.
Definition sample_best (n : nat) : option ptr := match sample n with Some (_, best) => best | None => None end.

Lemma sample_reachable n : reachable (sample_tree n) (sample_best n).
Proof.
  unfold sample_tree, sample_best.
  assert (H : ∀ bm best, sample n = Some (bm, best) → reachable bm best).
  { induction n as [|n IH]; intros bm best; cbn [sample]; [intros [= <- <-]; constructor|].
    destruct (sample n) as [[bm0 best0]|]; [|done]. cbn [mbind option_bind].
    destruct (AddToBlockIndex _ _ _ _ _) as [[[p bm1] best1]|] eqn:E; [|done]. intros [= <- <-].
    refine (reachable_add bm0 best0 _ _ _ p bm1 best1 (IH _ _ eq_refl) _ _ _ E);
      [by vm_compute|cbn; intros [= Hn]; lia|by vm_compute]. }
  destruct (sample n) as [[bm best]|]; [by apply H|constructor].
Qed.

Lemma block_index_invariant_witness :
  let m := m_block_index (sample_tree 3) in
  ∃ b, m !! [2] = Some b ∧ Z.of_nat (length (branch m (Z.to_nat (nHeight b)) [2])) = nHeight b + 1.
Proof.
  intros m. destruct (block_index_invariant (sample_tree 3) (sample_best 3) (sample_reachable 3)) as [H _].
  assert (E : ∃ b, m !! [2] = Some b) by (eexists; vm_compute; reflexivity). destruct E as [b Hb].
  exists b. split; [exact Hb|]. exact (proj1 (H [2] b Hb)).
Defined.

Lemma ancestors_correct_witness :
  let m := m_block_index (sample_tree 12) in
  ∃ r, GetAncestor m [11] 3 = Some r ∧ (11 < 3 ∨ 11 < 3 → r = None).
Proof.
  intros m. destruct (ancestors_correct (sample_tree 12) (sample_best 12) (sample_reachable 12)) as [H _].
  assert (E : ∃ b, m !! [11] = Some b) by (eexists; vm_compute; reflexivity). destruct E as [b Hb].
  destruct (H [11] b 3 Hb) as (r & E & _). exists r. split; [exact E|]. intros [F|F]; lia.
Defined.
