(* ===== verification/Versionbits.v ===== *)
(** * Deployment of soft forks by version bits: versionbits.cpp, versionbits.h

    The state machine of BIP 9 with the masternode signals and the falling
    thresholds of this code.  A checker is a record of the virtual methods of
    [AbstractThresholdConditionChecker]; the cache is a map from pointers, the
    null pointer included, to states.  A failed assertion, a null dereference
    or a division by zero is [None].  The abstract machine walks a branch
    period by period from the genesis block; the theorems are that the cached
    computation gives its state, whatever was computed before, keeps the
    invariant of the cache and never fails, that the states only move forward
    and settle, and what follows for the height of the last change, the
    statistics and the version of new blocks. *)
From S2P Require Import Prelude SphTypes Serialize Uint256 Block Arith256 BlockIndex.
From stdpp Require Import list gmap fin_sets sorting.
#[local] Open Scope Z_scope.

Module Versionbits.

Definition INT_MAX : Z := 2 ^ 31 - 1.

(** Conversion to [int].  Arithmetic in [int] that overflows is undefined in C++; it is modelled by the same
    reduction, and the theorem about the thresholds assumes that it does not happen. *)
Definition int32 (x : Z) : Z := (x + 2 ^ 31) mod 2 ^ 32 - 2 ^ 31.

Definition VERSIONBITS_TOP_BITS : Z := 0x20000000.
Definition VERSIONBITS_TOP_MASK : Z := 0xE0000000.
Definition VERSIONBITS_NUM_BITS : Z := 29.

Inductive ThresholdState := DEFINED | STARTED | LOCKED_IN | ACTIVE | FAILED.

#[export] Instance ThresholdState_eq_dec : EqDecision ThresholdState.
Proof. solve_decision. Defined.

Abbreviation ThresholdConditionCache := (gmap (option ptr) ThresholdState).

Definition ALWAYS_ACTIVE : Z := -1.
Definition NEVER_ACTIVE : Z := -2.

(** The virtual methods, for given consensus parameters. *)
Record Checker := mk_checker {
  Condition : CBlockIndex → bool;
  BeginTime : Z;
  SignalHeight : option ptr → Z;
  EndTime : Z;
  MinActivationHeight : Z;
  Period : Z;
  Threshold : Z → Z }.

(** ** The checker *)

Section Checker.
Context (c : Checker) (m : BlockMap).

(** More than the number of periods below [p]. *)
Definition walk_fuel (p : option ptr) : nat :=
  match p with
  | Some q => match m !! q with Some b => S (S (Z.to_nat (nHeight b))) | None => 1 end
  | None => 1
  end.

Fixpoint start_height_loop (fuel : nat) (pindexPrev : option ptr) (state : ThresholdState)
    (nStartHeight : Z) (cache : ThresholdConditionCache) : option Z :=
  if bool_decide (state = STARTED) then
    match fuel with
    | O => None
    | S fuel =>
        q ← pindexPrev; b ← m !! q;
        let nStartHeight := Z.min (nHeight b + 1) nStartHeight in
        pindexPrev ← GetAncestor m q (nHeight b - Period c);
        state ← cache !! pindexPrev;
        start_height_loop fuel pindexPrev state nStartHeight cache
    end
  else Some nStartHeight.
Definition calculateStartHeight (pindexPrev : option ptr) (state : ThresholdState)
    (cache : ThresholdConditionCache) : option Z :=
  start_height_loop (walk_fuel pindexPrev) pindexPrev state INT_MAX cache.

(** The last block of the period before the one that holds [pindex]'s child. *)
Definition period_start (q : ptr) : option (option ptr) :=
  if Period c =? 0 then None
  else b ← m !! q; GetAncestor m q (nHeight b - Z.rem (nHeight b + 1) (Period c)).

(** Walk backwards; the vector [vToCompute] has its back at the head of the list. *)
Fixpoint back_loop (fuel : nat) (masternodeStartHeight : Z) (cache : ThresholdConditionCache)
    (pindexPrev : option ptr) (vToCompute : list ptr)
    : option (ThresholdConditionCache * option ptr * list ptr) :=
  match cache !! pindexPrev with
  | Some _ => Some (cache, pindexPrev, vToCompute)
  | None =>
      match pindexPrev with
      | None => Some (<[None := DEFINED]> cache, None, vToCompute)
      | Some q =>
          b ← m !! q; mtp ← GetMedianTimePast m q;
          if (mtp <? BeginTime c) || (nHeight b <? masternodeStartHeight)
          then Some (<[Some q := DEFINED]> cache, Some q, vToCompute)
          else
            match fuel with
            | O => None
            | S fuel =>
                p ← GetAncestor m q (nHeight b - Period c);
                back_loop fuel masternodeStartHeight cache p (q :: vToCompute)
            end
      end
  end.

(** [n] blocks from [pindexCount] back: where the walk ends and how many meet the condition. *)
Fixpoint count_loop (n : nat) (pindexCount : option ptr) (count : Z) : option (option ptr * Z) :=
  match n with
  | O => Some (pindexCount, count)
  | S n =>
      q ← pindexCount; b ← m !! q;
      count_loop n (pprev b) (if Condition c b then count + 1 else count)
  end.

(** The body of the switch: the next state and start height. *)
Definition next_state (masternodeStartHeight : Z) (q : ptr) (state : ThresholdState) (nStartHeight : Z)
    : option (ThresholdState * Z) :=
  b ← m !! q;
  match state with
  | DEFINED =>
      mtp ← GetMedianTimePast m q;
      Some (if (BeginTime c <=? mtp) && (masternodeStartHeight <=? nHeight b)
            then (STARTED, nHeight b + 1) else (DEFINED, nStartHeight))
  | STARTED =>
      '(pindexCount, count) ← count_loop (Z.to_nat (Period c)) (Some q) 0;
      if negb ((0 <? nStartHeight) && (nStartHeight <? INT_MAX)) then None else
      qc ← pindexCount; bc ← m !! qc;
      let nAttempt := Z.quot (nHeight bc + 1 - nStartHeight) (Period c) in
      if Threshold c nAttempt <=? count then Some (LOCKED_IN, nStartHeight)
      else
        mtp ← GetMedianTimePast m q;
        Some (if EndTime c <=? mtp then FAILED else STARTED, nStartHeight)
  | LOCKED_IN =>
      Some (if MinActivationHeight c <=? nHeight b + 1 then ACTIVE else LOCKED_IN, nStartHeight)
  | FAILED | ACTIVE => Some (state, nStartHeight)
  end.

Fixpoint forward_loop (masternodeStartHeight : Z) (vToCompute : list ptr) (state : ThresholdState)
    (nStartHeight : Z) (cache : ThresholdConditionCache) : option (ThresholdState * ThresholdConditionCache) :=
  match vToCompute with
  | [] => Some (state, cache)
  | q :: vToCompute =>
      '(stateNext, nStartHeight) ← next_state masternodeStartHeight q state nStartHeight;
      forward_loop masternodeStartHeight vToCompute stateNext nStartHeight (<[Some q := stateNext]> cache)
  end.

(** The state and the cache after the call. *)
Definition GetStateFor (pindexPrev : option ptr) (cache : ThresholdConditionCache)
    : option (ThresholdState * ThresholdConditionCache) :=
  let masternodeStartHeight := SignalHeight c pindexPrev in
  if BeginTime c =? ALWAYS_ACTIVE then Some (ACTIVE, cache)
  else if BeginTime c =? NEVER_ACTIVE then Some (FAILED, cache)
  else
    pindexPrev ← (match pindexPrev with Some q => period_start q | None => Some None end);
    '(cache, pindexPrev, vToCompute) ←
      back_loop (walk_fuel pindexPrev) masternodeStartHeight cache pindexPrev [];
    state ← cache !! pindexPrev;
    nStartHeight ← calculateStartHeight pindexPrev state cache;
    forward_loop masternodeStartHeight vToCompute state nStartHeight cache.

(** ** The height of the last change *)

Fixpoint since_loop (fuel : nat) (initialState : ThresholdState) (pindexPrev : ptr)
    (previousPeriodParent : option ptr) (cache : ThresholdConditionCache)
    : option (ptr * ThresholdConditionCache) :=
  match previousPeriodParent with
  | None => Some (pindexPrev, cache)
  | Some q =>
      '(state, cache) ← GetStateFor (Some q) cache;
      if bool_decide (state = initialState) then
        match fuel with
        | O => None
        | S fuel =>
            b ← m !! q;
            p ← GetAncestor m q (nHeight b - Period c);
            since_loop fuel initialState q p cache
        end
      else Some (pindexPrev, cache)
  end.

Definition GetStateSinceHeightFor (pindexPrev : option ptr) (cache : ThresholdConditionCache)
    : option (Z * ThresholdConditionCache) :=
  if (BeginTime c =? ALWAYS_ACTIVE) || (BeginTime c =? NEVER_ACTIVE) then Some (0, cache)
  else
    '(initialState, cache) ← GetStateFor pindexPrev cache;
    if bool_decide (initialState = DEFINED) then Some (0, cache)
    else
      q ← pindexPrev; p ← period_start q; q ← p; b ← m !! q;
      previousPeriodParent ← GetAncestor m q (nHeight b - Period c);
      '(q, cache) ← since_loop (walk_fuel (Some q)) initialState q previousPeriodParent cache;
      b ← m !! q;
      Some (nHeight b + 1, cache).

(** ** Statistics *)

Record BIP9Stats := mk_stats { period : Z; threshold : Z; elapsed : Z; count : Z; possible : bool }.

Fixpoint stats_loop (fuel : nat) (endHeight : Z) (currentIndex : option ptr) (count : Z) : option Z :=
  q ← currentIndex; b ← m !! q;
  if endHeight =? nHeight b then Some count
  else
    match fuel with
    | O => None
    | S fuel => stats_loop fuel endHeight (pprev b) (if Condition c b then count + 1 else count)
    end.

Definition GetStateStatisticsFor (pindex : option ptr) (cache : ThresholdConditionCache)
    : option (BIP9Stats * ThresholdConditionCache) :=
  match pindex with
  | None => Some (mk_stats (Period c) (Threshold c 0) 0 0 false, cache)
  | Some q =>
      b ← m !! q;
      pe ← period_start q;
      e ← pe; be ← m !! e;
      let elapsed := nHeight b - nHeight be in
      '(state, cache) ← GetStateFor (Some e) cache;
      '(nAttempt, cache) ←
        (if bool_decide (state = STARTED) then
           '(nStartHeight, cache) ← GetStateSinceHeightFor (Some e) cache;
           Some (Z.quot (nHeight be + 1 - nStartHeight) (Period c), cache)
         else Some (0, cache));
      let threshold := Threshold c nAttempt in
      count ← stats_loop (walk_fuel (Some q)) (nHeight be) (Some q) 0;
      Some (mk_stats (Period c) threshold elapsed count
              (elapsed - count <=? Period c - threshold), cache)
  end.
End Checker.

(** ** The deployments *)

Record BIP9Deployment := mk_deployment {
  bit : Z; nStartTime : Z; nTimeout : Z; min_activation_height : Z; nWindowSize : Z;
  nThresholdStart : Z; nThresholdMin : Z; nFalloffCoeff : Z; useEHF : bool }.

Record Params := mk_params {
  nRuleChangeActivationThreshold : Z; nMinerConfirmationWindow : Z; vDeployments : list BIP9Deployment }.

Definition MAX_VERSION_BITS_DEPLOYMENTS : nat := 2.

Section VersionBits.
(** [AbstractEHFManager::GetSignalsStage]: the mined signals, by bit. *)
Context (GetSignalsStage : option ptr → gmap Z Z) (params : Params).

(** The [int64_t] or [uint32_t] parameter is returned as an [int]. *)
Definition deployment_period (d : BIP9Deployment) : Z :=
  int32 (if negb (nWindowSize d =? 0) then nWindowSize d else nMinerConfirmationWindow params).

Definition deployment_signal (d : BIP9Deployment) (pindexPrev : option ptr) : Z :=
  if negb (useEHF d) then 0 else default INT_MAX (GetSignalsStage pindexPrev !! bit d).

(** The two products are computed in [int] before the division by the [int64_t] coefficient widens the rest; the
    result is returned as an [int]. *)
Definition deployment_threshold (d : BIP9Deployment) (nAttempt : Z) : Z :=
  if nThresholdStart d =? 0 then int32 (nRuleChangeActivationThreshold params)
  else if (nThresholdMin d =? 0) || (nFalloffCoeff d =? 0) then int32 (nThresholdStart d)
  else
    let product := int32 (int32 (nAttempt * nAttempt) * deployment_period d) in
    let nThresholdCalc := nThresholdStart d - Z.quot (Z.quot product 100) (nFalloffCoeff d) in
    int32 (Z.max (nThresholdMin d) nThresholdCalc).

Definition Mask (d : BIP9Deployment) : Z := SPH_T32 (1 ≪ bit d).

Definition deployment_condition (d : BIP9Deployment) (b : CBlockIndex) : bool :=
  (Z.land (SPH_T32 (nVersion b)) VERSIONBITS_TOP_MASK =? VERSIONBITS_TOP_BITS) &&
  negb (Z.land (SPH_T32 (nVersion b)) (Mask d) =? 0).

Definition VersionBitsConditionChecker (d : BIP9Deployment) : Checker :=
  mk_checker (deployment_condition d) (nStartTime d) (deployment_signal d) (nTimeout d)
    (min_activation_height d) (deployment_period d) (deployment_threshold d).

(** [VersionBitsCache]: one cache per deployment. *)
Abbreviation VersionBitsCache := (list ThresholdConditionCache).

(** Calls an operation of the checker of deployment [pos] on its cache. *)
Definition with_cache {A : Type} (pos : nat) (m_caches : VersionBitsCache)
    (f : Checker → ThresholdConditionCache → option (A * ThresholdConditionCache))
    : option (A * VersionBitsCache) :=
  d ← vDeployments params !! pos; cache ← m_caches !! pos;
  '(a, cache) ← f (VersionBitsConditionChecker d) cache;
  Some (a, <[pos := cache]> m_caches).

Definition State (m : BlockMap) (pindexPrev : option ptr) (pos : nat) (m_caches : VersionBitsCache) :=
  with_cache pos m_caches (λ c, GetStateFor c m pindexPrev).
Definition Statistics (m : BlockMap) (pindexPrev : option ptr) (pos : nat) (m_caches : VersionBitsCache) :=
  with_cache pos m_caches (λ c, GetStateStatisticsFor c m pindexPrev).
Definition StateSinceHeight (m : BlockMap) (pindexPrev : option ptr) (pos : nat) (m_caches : VersionBitsCache) :=
  with_cache pos m_caches (λ c, GetStateSinceHeightFor c m pindexPrev).

Fixpoint version_loop (m : BlockMap) (pindexPrev : option ptr) (positions : list nat) (nVersion : Z)
    (m_caches : VersionBitsCache) : option (Z * VersionBitsCache) :=
  match positions with
  | [] => Some (nVersion, m_caches)
  | pos :: positions =>
      '(state, m_caches) ← State m pindexPrev pos m_caches;
      d ← vDeployments params !! pos;
      let nVersion := if bool_decide (state = LOCKED_IN) || bool_decide (state = STARTED)
                      then Z.lor nVersion (Mask d) else nVersion in
      version_loop m pindexPrev positions nVersion m_caches
  end.
Definition ComputeBlockVersion (m : BlockMap) (pindexPrev : option ptr) (m_caches : VersionBitsCache)
    : option (Z * VersionBitsCache) :=
  version_loop m pindexPrev (seq 0 MAX_VERSION_BITS_DEPLOYMENTS) VERSIONBITS_TOP_BITS m_caches.

Definition Clear (m_caches : VersionBitsCache) : VersionBitsCache :=
  fold_left (λ cs d, <[d := ∅]> cs) (seq 0 MAX_VERSION_BITS_DEPLOYMENTS) m_caches.
End VersionBits.

(** ** The median time of a branch does not decrease *)

Definition count_ge (x : Z) (l : list Z) : nat := length (filter (λ y, x <= y) l).

Lemma count_ge_cons x y l : count_ge x (y :: l) = ((if bool_decide (x <= y)%Z then 1 else 0) + count_ge x l)%nat.
Proof. unfold count_ge. rewrite filter_cons. case_decide as H; [rewrite bool_decide_true by done|rewrite bool_decide_false by done]; done. Qed.

Lemma count_ge_perm x l k : l ≡ₚ k → count_ge x l = count_ge x k.
Proof. intros E. unfold count_ge. by rewrite E. Qed.

Lemma count_ge_all x l : Forall (λ y, x <= y) l → count_ge x l = length l.
Proof. induction 1 as [|y l Hy _ IH]; [done|]. rewrite count_ge_cons, bool_decide_true by done. cbn. lia. Qed.

Lemma count_ge_le x l : (count_ge x l <= length l)%nat.
Proof. apply length_filter. Qed.

(** The element at [k] of a sorted list, by how many are at least as great. *)
Lemma sorted_at_ge s k x :
  StronglySorted Z.le s → (k < length s)%nat →
  (length s - k <= count_ge (s @@ k) s)%nat ∧ ((length s - k <= count_ge x s)%nat → x <= s @@ k).
Proof.
  intros Hs. revert k. induction Hs as [|y s Hs IH Hy]; intros k Hk; cbn [length] in *; [lia|].
  destruct k as [|k].
  - change ((y :: s) @@ 0) with y. split.
    + rewrite count_ge_cons, bool_decide_true, count_ge_all by (done || lia). lia.
    + rewrite count_ge_cons. pose proof (count_ge_le x s). case_bool_decide; [done|lia].
  - change ((y :: s) @@ S k) with (s @@ k). destruct (IH k ltac:(lia)) as [H1 H2].
    rewrite !count_ge_cons. split; [case_bool_decide; lia|].
    case_bool_decide as E; intros Hc; [|apply H2; lia].
    rewrite Forall_forall in Hy. etrans; [exact E|]. apply Hy. eapply list_elem_of_lookup_2. apply lookup_at. lia.
Qed.

(** One more time above the median, the oldest of a full window dropped. *)
Lemma median_step s s' l l' t :
  StronglySorted Z.le s → StronglySorted Z.le s' → s ≡ₚ l → s' ≡ₚ l' → (1 <= length l)%nat →
  (l' = t :: l ∨ (length l = 11%nat ∧ ∃ o, l ++ [] = take 10 l ++ [o] ∧ l' = t :: take 10 l)) →
  s @@ (length l / 2) < t → s @@ (length l / 2) <= s' @@ (length l' / 2).
Proof.
  intros Hs Hs' E E' Hl Hw Ht. set (md := s @@ (length l / 2)) in *.
  pose proof (Permutation_length E) as El. pose proof (Permutation_length E') as El'.
  assert (Hd : ∀ n, (1 <= n → n / 2 < n)%nat) by (intros; apply Nat.div_lt; lia).
  destruct (sorted_at_ge s (length l / 2) md Hs) as [Hc _]; [rewrite El; by apply Hd|]. fold md in Hc.
  rewrite (count_ge_perm md _ _ E), El in Hc.
  assert (Hl' : (1 <= length l')%nat) by (destruct Hw as [->|[_ (o & _ & ->)]]; cbn; lia).
  apply (sorted_at_ge s' (length l' / 2) md Hs'); [rewrite El'; by apply Hd|].
  rewrite (count_ge_perm md _ _ E'), El'. destruct Hw as [->|(L & o & Eo & ->)].
  - rewrite count_ge_cons, bool_decide_true by lia. cbn [length].
    pose proof (Nat.div_mod_eq (length l) 2). pose proof (Nat.mod_upper_bound (length l) 2 ltac:(lia)).
    pose proof (Nat.Div0.div_le_mono (length l) (S (length l)) 2 ltac:(lia)). lia.
  - rewrite count_ge_cons, bool_decide_true by lia. rewrite app_nil_r in Eo.
    assert (Hlt : length (take 10 l) = 10%nat) by (rewrite length_take; lia).
    cbn [length]. rewrite Hlt. rewrite L in Hc. change (11 / 2)%nat with 5%nat in *.
    assert (count_ge md l <= count_ge md (take 10 l) + 1)%nat; [|lia].
    rewrite Eo at 1. unfold count_ge. rewrite filter_app, length_app.
    pose proof (count_ge_le md [o]) as Hone. unfold count_ge in Hone. cbn [length] in Hone. lia.
Qed.

Section Median.
Context (m : BlockMap) (Hok : index_ok m).

Definition mtp (q : ptr) : Z := default 0 (GetMedianTimePast m q).

Lemma GetMedianTimePast_mtp q b : m !! q = Some b → GetMedianTimePast m q = Some (mtp q).
Proof. intros Hq. unfold mtp. by destruct (GetMedianTimePast_spec m q b Hok Hq) as (s & _ & _ & ->). Qed.

(** The windows of a block and of its predecessor. *)
Lemma branch_window n p b q :
  m !! p = Some b → pprev b = Some q →
  branch m (S n) p = b :: branch m n q ∧
  (branch m (S n) q = branch m n q ∨ ∃ o, branch m (S n) q = branch m n q ++ [o]) ∧
  (length (branch m n q) <= S n)%nat ∧ (branch m (S n) q ≠ branch m n q → length (branch m n q) = S n).
Proof.
  intros Hp Hb. split; [cbn [branch]; by rewrite Hp, Hb|]. destruct (Hok p b Hp) as [_ H]. rewrite Hb in H.
  destruct H as (d & _ & Hq & _). clear Hp Hb. revert q d Hq. induction n as [|n IH]; intros q d Hq.
  - cbn [branch]. rewrite Hq. destruct (Hok q d Hq) as [_ H]. destruct (pprev d) as [r|] eqn:Ed.
    + destruct H as (e & _ & Hr & _). rewrite Hr. cbn. split; [right; by exists e|]. split; [lia|done].
    + split; [by left|]. cbn. split; [lia|done].
  - change (branch m (S (S n)) q) with (match m !! q with Some b => b :: match pprev b with
      Some q => branch m (S n) q | _ => [] end | None => [] end).
    change (branch m (S n) q) with (match m !! q with Some b => b :: match pprev b with
      Some q => branch m n q | _ => [] end | None => [] end).
    rewrite Hq. destruct (Hok q d Hq) as [_ H]. destruct (pprev d) as [r|] eqn:Ed.
    + destruct H as (e & _ & Hr & _). destruct (IH r e Hr) as (Hc & Hl & Hf). cbn [length].
      split; [|split; [lia|]].
      * destruct Hc as [->|(o & ->)]; [by left|right; by exists o].
      * intros Hne. rewrite Hf; [done|]. intros E. apply Hne. by rewrite E.
    + split; [by left|]. cbn. split; [lia|done].
Qed.

Context (Htime : ∀ p b q, m !! p = Some b → pprev b = Some q → mtp q < nTime b).

Lemma mtp_step p b q : m !! p = Some b → pprev b = Some q → mtp q <= mtp p.
Proof.
  intros Hp Hb. pose proof (Htime p b q Hp Hb) as Ht.
  destruct (Hok p b Hp) as [_ H]. rewrite Hb in H. destruct H as (d & _ & Hq & _).
  destruct (GetMedianTimePast_spec m q d Hok Hq) as (s & Es & Ss & Ms).
  destruct (GetMedianTimePast_spec m p b Hok Hp) as (s' & Es' & Ss' & Ms').
  unfold mtp in *. rewrite Ms in *. rewrite Ms'. cbn [default] in *.
  destruct (branch_window 9 p b q Hp Hb) as (Ew & Hc & Hl & Hf).
  apply (median_step s s' _ _ (nTime b) Ss Ss' Es Es'); [|rewrite Ew|done].
  - rewrite length_fmap. cbn [branch]. rewrite Hq. cbn. lia.
  - destruct Hc as [Hc|(o & Hc)]; [left; by rewrite Hc|].
    right. assert (Hl10 : length (branch m 9 q) = 10%nat).
    { apply Hf. rewrite Hc. intros E. apply (f_equal length) in E. rewrite length_app in E. cbn in E. lia. }
    rewrite Hc, length_fmap, length_app, Hl10. split; [done|]. exists (nTime o).
    rewrite fmap_app, app_nil_r, take_app_length' by (by rewrite length_fmap). done.
Qed.

Lemma mtp_mono p q : ancestor m p q → is_Some (m !! p) → mtp q <= mtp p.
Proof.
  intros [n Hn]. revert p Hn. induction n as [|n IH]; intros p Hn [b Hp]; cbn [walk] in Hn.
  { by injection Hn as ->. }
  rewrite Hp in Hn. cbn [mbind option_bind] in Hn. destruct (pprev b) as [r|] eqn:Eb; [|done].
  cbn [mbind option_bind] in Hn. destruct (Hok p b Hp) as [_ H]. rewrite Eb in H.
  destruct H as (d & _ & Hr & _). etrans; [apply (IH r Hn); by exists d|]. by apply (mtp_step p b).
Qed.
End Median.

(** ** The abstract machine *)

Section Machine.
Context (c : Checker) (m : BlockMap).

Definition period_length : nat := Z.to_nat (Period c).
Definition height (q : ptr) : Z := from_option nHeight (-1) (m !! q).

(** The last block of a period. *)
Definition boundary (b : CBlockIndex) : Prop := (nHeight b + 1) mod Period c = 0.

Definition started (q : ptr) : bool :=
  (BeginTime c <=? mtp m q) && (SignalHeight c (Some q) <=? height q).

(** How many blocks of the period that ends with [q] meet the condition. *)
Definition signalling (q : ptr) : Z :=
  Z.of_nat (length (filter (λ b, Condition c b = true) (branch m (period_length - 1) q))).

(** The state after the period that ends with [q], and the height at which
    signalling started. *)
Definition transition (q : ptr) (s : ThresholdState * Z) : ThresholdState * Z :=
  let '(state, since) := s in
  match state with
  | DEFINED => if started q then (STARTED, height q + 1) else (DEFINED, since)
  | STARTED =>
      if Threshold c ((height q + 1 - Period c - since) / Period c) <=? signalling q then (LOCKED_IN, since)
      else (if EndTime c <=? mtp m q then FAILED else STARTED, since)
  | LOCKED_IN => (if MinActivationHeight c <=? height q + 1 then ACTIVE else LOCKED_IN, since)
  | ACTIVE | FAILED => (state, since)
  end.

Fixpoint bip9 (n : nat) (p : option ptr) : ThresholdState * Z :=
  match n, p with
  | S n, Some q => transition q (bip9 n (walk m q period_length))
  | _, _ => (DEFINED, INT_MAX)
  end.

(** The machine at the last block of a period, or before the genesis block. *)
Definition periods (p : option ptr) : nat :=
  match p with Some q => Z.to_nat ((height q + 1) / Period c) | None => 0 end.
Definition bip9_at (p : option ptr) : ThresholdState * Z := bip9 (periods p) p.
Definition state_at (p : option ptr) : ThresholdState := fst (bip9_at p).

(** The last block of the period before the one of the child of [p]. *)
Definition period_end (p : option ptr) : option ptr :=
  q ← p; walk m q (Z.to_nat ((height q + 1) mod Period c)).

(** The state of the child of [p]. *)
Definition bip9_state (p : option ptr) : ThresholdState :=
  if BeginTime c =? ALWAYS_ACTIVE then ACTIVE
  else if BeginTime c =? NEVER_ACTIVE then FAILED
  else state_at (period_end p).

(** What the code relies on: a tree of headers, heights that fit an [int],
    block times above the median of the blocks before, and signals that stay
    once they are mined. *)
Record chain_ok : Prop := {
  chain_index : index_ok m;
  chain_period : 0 < Period c;
  chain_height p b : m !! p = Some b → nHeight b + 1 < INT_MAX;
  chain_time p b q : m !! p = Some b → pprev b = Some q → mtp m q < nTime b;
  chain_signal p q : is_Some (m !! p) → ancestor m p q →
    (SignalHeight c (Some p) <= height q ↔ SignalHeight c (Some q) <= height q) }.

Context (Hc : chain_ok).
Let Hok := chain_index Hc.
Let HP := chain_period Hc.

Lemma height_lookup q b : m !! q = Some b → height q = nHeight b.
Proof. intros Hq. unfold height. by rewrite Hq. Qed.

(** A key of the cache: the null pointer or the last block of a period. *)
Definition node (p : option ptr) : Prop :=
  match p with None => True | Some q => ∃ b, m !! q = Some b ∧ boundary b end.

(** The previous period. *)
Lemma prev_boundary q b :
  m !! q = Some b → boundary b →
  let p := walk m q period_length in
  GetAncestor m q (nHeight b - Period c) = Some p ∧ node p ∧
  periods (Some q) = S (periods p) ∧
  match p with Some r => height r = nHeight b - Period c | None => nHeight b = Period c - 1 end.
Proof.
  intros Hq Hb p. unfold boundary in Hb. pose proof (height_nonneg m Hok q b Hq) as H0.
  pose proof (Z.div_mod (nHeight b + 1) (Period c) ltac:(lia)) as Hdm. rewrite Hb in Hdm.
  set (k := (nHeight b + 1) / Period c) in *.
  assert (Hk : 1 <= k) by nia.
  rewrite (GetAncestor_walk m Hok q b) by done.
  replace (nHeight b - (nHeight b - Period c)) with (Period c) by lia. fold period_length.
  unfold p. destruct (decide (Period c <= nHeight b)) as [Hle|Hgt].
  - destruct (walk_total m Hok q b period_length Hq) as (r & d & Hw & Hr & Hh); [unfold period_length; lia|].
    rewrite Hw. replace (_ && _) with true by (symmetry; apply andb_true_iff; lia).
    unfold period_length in Hh. rewrite Z2Nat.id in Hh by lia.
    split; [done|]. split; [|split; [|by rewrite (height_lookup r d)]].
    + exists d. split; [done|]. unfold boundary. rewrite Hh.
      replace (nHeight b - Period c + 1) with ((k - 1) * Period c) by lia. apply Z.mod_mul. lia.
    + cbn [periods]. rewrite (height_lookup q b), (height_lookup r d) by done. rewrite Hh.
      replace (nHeight b - Period c + 1) with ((k - 1) * Period c) by lia. rewrite Z.div_mul by lia.
      fold k. lia.
  - rewrite (walk_root m Hok q b) by (done || unfold period_length; lia).
    replace (_ && _) with false by (symmetry; apply andb_false_iff; lia).
    assert (k = 1) by nia. cbn [periods node]. rewrite (height_lookup q b) by done. fold k.
    repeat split; lia.
Qed.

(** One period of the machine. *)
Lemma bip9_at_step q b :
  m !! q = Some b → boundary b → bip9_at (Some q) = transition q (bip9_at (walk m q period_length)).
Proof.
  intros Hq Hb. destruct (prev_boundary q b Hq Hb) as (_ & _ & E & _).
  unfold bip9_at at 1. rewrite E. reflexivity.
Qed.

Lemma bip9_at_null : bip9_at None = (DEFINED, INT_MAX).
Proof. reflexivity. Qed.

(** Induction over the periods of a branch. *)
Lemma node_ind (Q : option ptr → Prop) :
  Q None → (∀ q b, m !! q = Some b → boundary b → node (walk m q period_length) →
    Q (walk m q period_length) → Q (Some q)) → ∀ p, node p → Q p.
Proof.
  intros H0 HS p. remember (periods p) as n eqn:En. revert p En.
  induction n as [|n IH]; intros [q|] En Hp; try done; destruct Hp as (b & Hq & Hb);
    destruct (prev_boundary q b Hq Hb) as (_ & Hn & E & _); [lia|].
  apply (HS q b Hq Hb Hn). apply IH; [lia|done].
Qed.

(** Not started now, not started before. *)
Lemma started_back q b r d :
  m !! q = Some b → m !! r = Some d → ancestor m q r → started q = false → started r = false.
Proof.
  intros Hq Hr Ha Hs. destruct (started r) eqn:E; [|done]. exfalso.
  apply andb_true_iff in E as [E1%Z.leb_le E2%Z.leb_le].
  assert (mtp m r <= mtp m q) by (apply (mtp_mono m Hok (chain_time Hc)); eauto).
  assert (height r <= height q).
  { rewrite (height_lookup q b), (height_lookup r d) by done. destruct Ha as [n Hw].
    destruct (decide (Z.of_nat n <= nHeight b)).
    - destruct (walk_total m Hok q b n Hq) as (r' & d' & Hw' & Hr' & Hh); [done|].
      assert (r' = r) as -> by congruence. assert (d' = d) as -> by congruence. lia.
    - rewrite (walk_root m Hok q b n) in Hw by (done || lia). done. }
  apply (chain_signal Hc q r) in E2; [|by eauto|done].
  unfold started in Hs. apply andb_false_iff in Hs as [Hs%Z.leb_gt|Hs%Z.leb_gt]; lia.
Qed.

Lemma not_started_defined q b :
  m !! q = Some b → boundary b → started q = false → state_at (Some q) = DEFINED.
Proof.
  intros Hq Hb Hs. unfold state_at.
  assert (G : ∀ p, node p → (∀ r, p = Some r → started r = false) → fst (bip9_at p) = DEFINED).
  { apply (node_ind (λ p, (∀ r, p = Some r → started r = false) → fst (bip9_at p) = DEFINED)); [done|].
    intros r d Hr Hd Hn IH Hst. rewrite (bip9_at_step r d) by done.
    destruct (bip9_at (walk m r period_length)) as [st since] eqn:E. cbn [fst] in IH.
    rewrite IH; [cbn [transition]; by rewrite (Hst r)|].
    intros s Es. rewrite Es in Hn. destruct Hn as (e & He & _).
    apply (started_back r d s e); try done; [by exists period_length|by apply Hst]. }
  apply G; [by exists b|]. intros r [= <-]. done.
Qed.

Lemma transition_since q st since : st ≠ DEFINED → snd (transition q (st, since)) = since.
Proof. intros Hst. destruct st; cbn [transition]; try done. by case_match. Qed.

Lemma defined_since p : node p → state_at p = DEFINED → snd (bip9_at p) = INT_MAX.
Proof.
  revert p. apply (node_ind (λ p, state_at p = DEFINED → _)); [done|].
  intros q b Hq Hb Hn IH. unfold state_at in *. rewrite (bip9_at_step q b Hq Hb).
  destruct (bip9_at (walk m q period_length)) as [st since]. cbn [fst snd] in IH.
  destruct st; cbn [transition]; repeat case_match; try done; auto.
Qed.

(** The height at which signalling started. *)
Lemma since_bound p : node p → state_at p = STARTED →
  ∃ q, p = Some q ∧ 0 < snd (bip9_at p) <= height q + 1 ∧ (height q + 1 - snd (bip9_at p)) mod Period c = 0.
Proof.
  revert p. apply (node_ind (λ p, state_at p = STARTED → _)); [done|].
  intros q b Hq Hb Hn IH. unfold state_at in *. rewrite (bip9_at_step q b Hq Hb).
  destruct (prev_boundary q b Hq Hb) as (_ & _ & _ & Hh).
  pose proof (height_nonneg m Hok q b Hq). pose proof (height_lookup q b Hq) as Eh.
  destruct (bip9_at (walk m q period_length)) as [st since]. cbn [fst snd] in IH.
  intros Hst. exists q. split; [done|]. destruct st; cbn [transition fst snd] in *.
  - destruct (started q); [|done]. cbn [snd]. rewrite Z.sub_diag, Z.mod_0_l by lia. lia.
  - destruct IH as (r & Er & Hr & Hm); [done|]. rewrite Er in Hh.
    assert (Es : snd (if Threshold c ((height q + 1 - Period c - since) / Period c) <=? signalling q
      then (LOCKED_IN, since) else (if EndTime c <=? mtp m q then FAILED else STARTED, since)) = since)
      by (by case_match). rewrite Es. split; [lia|].
    replace (height q + 1 - since) with (height r + 1 - since + 1 * Period c) by lia.
    rewrite Z.mod_add by lia. done.
  - destruct (MinActivationHeight c <=? _); done.
  - done.
  - done.
Qed.
End Machine.

(** ** The cached computation *)

Section Cached.
Context (c : Checker) (m : BlockMap) (Hc : chain_ok c m).
Let Hok := chain_index c m Hc.
Let HP := chain_period c m Hc.

(** Every entry is the state of the machine; the period before one that is
    past [DEFINED] is there too. *)
Definition cache_ok (cache : ThresholdConditionCache) : Prop :=
  ∀ p st, cache !! p = Some st → node c m p ∧ st = state_at c m p ∧
    match p with
    | Some q => st ≠ DEFINED → is_Some (cache !! walk m q (period_length c))
    | None => True
    end.

Lemma cache_ok_empty : cache_ok ∅.
Proof. intros p st H. by rewrite lookup_empty in H. Qed.

(** An entry for [p] may be added when its state is right and the one before is known. *)
Lemma cache_ok_insert cache p :
  cache_ok cache → node c m p →
  match p with
  | Some q => state_at c m p ≠ DEFINED → is_Some (cache !! walk m q (period_length c))
  | None => True
  end → cache_ok (<[p := state_at c m p]> cache) ∧ (cache !! p = None → cache ⊆ <[p := state_at c m p]> cache).
Proof.
  intros Hcache Hp Hprev. split; [|by apply insert_subseteq].
  assert (Hkeep : ∀ k, is_Some (cache !! k) → is_Some (<[p := state_at c m p]> cache !! k)).
  { intros k Hk. destruct (decide (k = p)) as [->|Hne]; [rewrite lookup_insert_eq; eauto|].
    by rewrite lookup_insert_ne by done. }
  intros k st Hk. destruct (decide (k = p)) as [->|Hne].
  - rewrite lookup_insert_eq in Hk. injection Hk as <-. split; [done|]. split; [done|].
    destruct p as [q|]; [|done]. intros Hd. apply Hkeep, Hprev, Hd.
  - rewrite lookup_insert_ne in Hk by done. destruct (Hcache k st Hk) as (H1 & H2 & H3).
    split; [done|]. split; [done|]. destruct k as [q|]; [|done]. intros Hd. apply Hkeep, H3, Hd.
Qed.

(** [todo] leads from [p'] up to [p], one period at a time. *)
Fixpoint chain (p' : option ptr) (todo : list ptr) (p : option ptr) : Prop :=
  match todo with
  | [] => p' = p
  | q :: todo => walk m q (period_length c) = p' ∧ (∃ b, m !! q = Some b ∧ boundary c b) ∧ chain (Some q) todo p
  end.

(** The machine looks at the signals known at [q], the code at those of its argument. *)
Definition signal_known (p : option ptr) (S : Z) : Prop :=
  ∀ n q, (∃ r, p = Some r ∧ walk m r n = Some q) → (S <= height m q ↔ SignalHeight c (Some q) <= height m q).

Lemma signal_known_prev q n S : signal_known (Some q) S → signal_known (walk m q n) S.
Proof.
  intros H k r (s & Es & Hw). apply (H (n + k)%nat). exists q. split; [done|].
  by rewrite walk_add, Es.
Qed.

Lemma started_spec q b S :
  m !! q = Some b → signal_known (Some q) S →
  (mtp m q <? BeginTime c) || (nHeight b <? S) = negb (started c m q).
Proof.
  intros Hq HS. specialize (HS 0%nat q (ex_intro _ q (conj eq_refl eq_refl))).
  unfold started. rewrite (height_lookup m q b Hq) in *.
  destruct (Z.ltb_spec (mtp m q) (BeginTime c)), (Z.ltb_spec (nHeight b) S), (Z.leb_spec (BeginTime c) (mtp m q)),
    (Z.leb_spec (SignalHeight c (Some q)) (nHeight b)); try lia; done.
Qed.

Lemma back_loop_spec fuel S cache p todo p0 :
  node c m p → signal_known p S → cache_ok cache → chain p todo p0 → (periods c m p <= fuel)%nat →
  ∃ cache' p' todo', back_loop c m fuel S cache p todo = Some (cache', p', todo') ∧
    cache_ok cache' ∧ cache ⊆ cache' ∧ chain p' todo' p0 ∧ node c m p' ∧ cache' !! p' = Some (state_at c m p') ∧
    (∀ q, In q todo' → In q todo ∨ signal_known (Some q) S).
Proof.
  revert cache p todo. induction fuel as [|fuel IH]; intros cache p todo Hp HS Hcache Hch Hf;
    cbn [back_loop]; destruct (cache !! p) as [st|] eqn:E.
  all: try (exists cache, p, todo; destruct (Hcache p st E) as (_ & <- & _); repeat (split; [done|]); by left).
  all: destruct p as [q|].
  all: try (destruct (cache_ok_insert cache None Hcache I I) as [H1 H2];
    eexists _, None, todo; split; [reflexivity|]; change DEFINED with (state_at c m None);
    split; [done|]; split; [by apply H2|]; split; [done|]; split; [done|];
    split; [by rewrite lookup_insert_eq|by left]).
  all: destruct Hp as (b & Hq & Hb); rewrite Hq; cbn [mbind option_bind];
    rewrite (GetMedianTimePast_mtp m Hok q b Hq); cbn [mbind option_bind];
    rewrite (started_spec q b S Hq HS);
    destruct (prev_boundary c m Hc q b Hq Hb) as (Ea & Hn & En & _);
    destruct (started c m q) eqn:Es; cbn [negb].
  - lia.
  - pose proof (not_started_defined c m Hc q b Hq Hb Es) as Ed.
    destruct (cache_ok_insert cache (Some q) Hcache) as [H1 H2]; [by exists b|by rewrite Ed|].
    exists (<[Some q := DEFINED]> cache), (Some q), todo. rewrite <-Ed.
    split; [done|]. split; [done|]. split; [by apply H2|]. split; [done|]. split; [by exists b|].
    split; [by rewrite lookup_insert_eq|by left].
  - rewrite Ea. cbn [mbind option_bind].
    destruct (IH cache (walk m q (period_length c)) (q :: todo)) as (cache' & p' & todo' & H1 & H2 & H3 & H4 & H5 & H6 & H7);
      [done|by apply signal_known_prev|done| |lia|].
    { split; [done|]. split; [by exists b|done]. }
    exists cache', p', todo'. do 6 (split; [done|]).
    intros r Hr. destruct (H7 r Hr) as [[<-|?]|?]; auto.
  - pose proof (not_started_defined c m Hc q b Hq Hb Es) as Ed.
    destruct (cache_ok_insert cache (Some q) Hcache) as [H1 H2]; [by exists b|by rewrite Ed|].
    exists (<[Some q := DEFINED]> cache), (Some q), todo. rewrite <-Ed.
    split; [done|]. split; [done|]. split; [by apply H2|]. split; [done|]. split; [by exists b|].
    split; [by rewrite lookup_insert_eq|by left].
Qed.

(** The walk back over the periods that were started. *)
Lemma start_height_spec fuel cache p n :
  cache_ok cache → is_Some (cache !! p) → (periods c m p < fuel)%nat →
  start_height_loop c m fuel p (state_at c m p) n cache =
  Some (if bool_decide (state_at c m p = STARTED) then Z.min (snd (bip9_at c m p)) n else n).
Proof.
  intros Hcache. revert p n. induction fuel as [|fuel IH]; intros p n [st Hst] Hf; [lia|].
  destruct (Hcache p st Hst) as (Hp & -> & Hprev). cbn [start_height_loop].
  case_bool_decide as E; [|done].
  destruct p as [q|]; [|done]. destruct Hp as (b & Hq & Hb). cbn [mbind option_bind]. rewrite Hq.
  cbn [mbind option_bind]. destruct (prev_boundary c m Hc q b Hq Hb) as (-> & Hn & En & Hh).
  cbn [mbind option_bind]. destruct Hprev as [st' Hst']; [by rewrite E|].
  destruct (Hcache _ _ Hst') as (_ & E' & _). rewrite Hst', E'. cbn [mbind option_bind].
  rewrite IH by (eauto || lia). f_equal.
  pose proof (height_lookup m q b Hq) as Eh. pose proof (since_bound c m Hc _ Hn) as Hs.
  unfold state_at in E, Hs |- *. rewrite (bip9_at_step c m Hc q b Hq Hb) in E |- *.
  destruct (bip9_at c m (walk m q (period_length c))) as [st0 since]. cbn [fst snd] in *.
  destruct st0; cbn [transition fst snd] in *; try done.
  - destruct (started c m q); [|done]. cbn [snd]. rewrite bool_decide_false by done. lia.
  - rewrite bool_decide_true by done. destruct Hs as (r & Er & Hr & _); [done|]. rewrite Er in Hh.
    destruct (_ <=? _); [done|]. cbn [snd]. lia.
  - by destruct (_ <=? _).
Qed.

(** Counting over a window of the branch. *)
Lemma count_loop_spec n q b k :
  m !! q = Some b → Z.of_nat n <= nHeight b →
  count_loop c m (S n) (Some q) k =
  Some (walk m q (S n), k + Z.of_nat (length (filter (λ b, Condition c b = true) (branch m n q)))).
Proof.
  revert q b k. induction n as [|n IH]; intros q b k Hq Hn.
  - cbn [count_loop walk branch mbind option_bind]. rewrite Hq. cbn [mbind option_bind].
    replace (pprev b ≫= Some) with (pprev b) by (by destruct (pprev b)).
    rewrite filter_cons. f_equal. f_equal.
    destruct (Condition c b); [rewrite decide_True by done|rewrite decide_False by done]; cbn; lia.
  - change (count_loop c m (S (S n)) (Some q) k) with
      (b ← m !! q; count_loop c m (S n) (pprev b) (if Condition c b then k + 1 else k)).
    change (walk m q (S (S n))) with (b ← m !! q; r ← pprev b; walk m r (S n)).
    cbn [branch]. rewrite Hq. cbn [mbind option_bind].
    destruct (Hok q b Hq) as [_ H]. destruct (pprev b) as [r|]; [|lia].
    destruct H as (d & _ & Hr & _ & Hh & _). rewrite (IH r d) by (done || lia). cbn [mbind option_bind].
    rewrite filter_cons. f_equal. f_equal.
    destruct (Condition c b); [rewrite decide_True by done|rewrite decide_False by done]; cbn [length]; lia.
Qed.

Lemma next_state_spec S q b sh :
  m !! q = Some b → boundary c b → signal_known (Some q) S →
  let p := walk m q (period_length c) in
  (state_at c m p = STARTED → sh = snd (bip9_at c m p)) →
  ∃ sh', next_state c m S q (state_at c m p) sh = Some (state_at c m (Some q), sh') ∧
    (state_at c m (Some q) = STARTED → sh' = snd (bip9_at c m (Some q))).
Proof.
  intros Hq Hb HS p Hsh. unfold next_state. rewrite Hq. cbn [mbind option_bind].
  pose proof (started_spec q b S Hq HS) as Est. pose proof (height_lookup m q b Hq) as Eh.
  destruct (prev_boundary c m Hc q b Hq Hb) as (_ & Hn & _ & Hh). fold p in Hn, Hh.
  pose proof (since_bound c m Hc p Hn) as Hs.
  unfold state_at in *. rewrite (bip9_at_step c m Hc q b Hq Hb). fold p.
  destruct (bip9_at c m p) as [st since]. cbn [fst snd] in *.
  destruct st; cbn [transition fst snd].
  - rewrite (GetMedianTimePast_mtp m Hok q b Hq). cbn [mbind option_bind].
    replace ((BeginTime c <=? mtp m q) && (S <=? nHeight b)) with (started c m q).
    { rewrite Eh. destruct (started c m q); eexists; done. }
    rewrite (negb_sym _ _ Est), negb_orb, !Z.leb_antisym. done.
  - destruct Hs as (r & Er & Hr & Hm); [done|]. rewrite Er in Hh.
    rewrite Hsh in * by done. clear Hsh.
    unfold period_length in *. destruct (Z.to_nat (Period c)) as [|n] eqn:En; [lia|].
    pose proof (chain_height c m Hc q b Hq). pose proof (height_nonneg m Hok q b Hq).
    assert (Hr0 : is_Some (m !! r)) by (rewrite Er in Hn; destruct Hn as (d & ? & _); eauto).
    destruct Hr0 as [d Hd]. pose proof (height_lookup m r d Hd) as Ehd.
    pose proof (height_nonneg m Hok r d Hd).
    rewrite (count_loop_spec n q b) by (done || lia). cbn [mbind option_bind].
    replace (negb _) with false by (symmetry; apply negb_false_iff, andb_true_iff; split; apply Z.ltb_lt; lia).
    fold p. rewrite Er. cbn [mbind option_bind]. rewrite Hd. cbn [mbind option_bind].
    rewrite Z.quot_div_nonneg by lia. rewrite <-Ehd, Hh. unfold signalling, period_length. rewrite En.
    replace (Datatypes.S n - 1)%nat with n by lia. rewrite Z.add_0_l, Eh.
    replace (nHeight b + 1 - Period c - since) with (nHeight b - Period c + 1 - since) by lia.
    destruct (_ <=? Z.of_nat _); [eexists; done|].
    rewrite (GetMedianTimePast_mtp m Hok q b Hq). cbn [mbind option_bind]. eexists; done.
  - rewrite Eh. eexists. split; [done|]. by destruct (_ <=? _).
  - eexists. done.
  - eexists. done.
Qed.

Lemma forward_loop_spec S todo p p0 sh cache :
  chain p todo p0 → (∀ q, In q todo → signal_known (Some q) S) → cache_ok cache → is_Some (cache !! p) →
  (state_at c m p = STARTED → sh = snd (bip9_at c m p)) →
  ∃ cache', forward_loop c m S todo (state_at c m p) sh cache = Some (state_at c m p0, cache') ∧
    cache_ok cache' ∧ dom cache ⊆ dom cache' ∧ is_Some (cache' !! p0).
Proof.
  revert p sh cache. induction todo as [|q todo IH]; intros p sh cache Hch HS Hcache Hp Hsh.
  { cbn in Hch. subst p0. exists cache. cbn. done. }
  destruct Hch as (<- & (b & Hq & Hb) & Hch). cbn [forward_loop].
  destruct (next_state_spec S q b sh Hq Hb) as (sh' & -> & Hsh'); [apply HS; by left|done|].
  cbn [mbind option_bind].
  destruct (cache_ok_insert cache (Some q) Hcache) as [H1 _]; [by exists b|done|].
  destruct (IH (Some q) sh' (<[Some q := state_at c m (Some q)]> cache)) as (cache' & E & H2 & H3 & H4);
    [done|by intros; apply HS; right|done|by rewrite lookup_insert_eq|done|].
  exists cache'. split; [done|]. split; [done|]. split; [|done]. etrans; [|exact H3]. set_solver.
Qed.

(** The last block of the previous period, by the code and by the machine. *)
Lemma period_start_spec q b :
  m !! q = Some b →
  period_start c m q = Some (period_end c m (Some q)) ∧ node c m (period_end c m (Some q)) ∧
  (∀ r, period_end c m (Some q) = Some r → ancestor m q r).
Proof.
  intros Hq. unfold period_start. destruct (Z.eqb_spec (Period c) 0); [lia|]. rewrite Hq.
  cbn [mbind option_bind]. pose proof (height_nonneg m Hok q b Hq) as H0.
  rewrite Z.rem_mod_nonneg by lia. unfold period_end. cbn [mbind option_bind].
  rewrite (height_lookup m q b Hq). set (k := (nHeight b + 1) mod Period c).
  pose proof (Z.mod_pos_bound (nHeight b + 1) (Period c) HP) as Hk. fold k in Hk.
  rewrite (GetAncestor_walk m Hok q b) by done.
  replace (nHeight b - (nHeight b - k)) with k by lia.
  split; [|split; [|intros r Hr; by exists (Z.to_nat k)]].
  - destruct (Z.leb_spec 0 (nHeight b - k)), (Z.leb_spec (nHeight b - k) (nHeight b)); cbn [andb]; try lia; [done|].
    by rewrite (walk_root m Hok q b) by (done || lia).
  - destruct (decide (k <= nHeight b)).
    + destruct (walk_total m Hok q b (Z.to_nat k) Hq) as (r & d & -> & Hr & Hh); [lia|].
      exists d. split; [done|]. unfold boundary. rewrite Hh, Z2Nat.id by lia.
      replace (nHeight b - k + 1) with ((nHeight b + 1) / Period c * Period c); [apply Z.mod_mul; lia|].
      pose proof (Z.div_mod (nHeight b + 1) (Period c) ltac:(lia)). fold k in H. lia.
    + by rewrite (walk_root m Hok q b) by (done || lia).
Qed.

Lemma periods_fuel p : node c m p → (periods c m p < walk_fuel m p)%nat.
Proof.
  destruct p as [q|]; [|cbn; lia]. intros (b & Hq & _). cbn [periods walk_fuel].
  rewrite Hq, (height_lookup m q b Hq). pose proof (height_nonneg m Hok q b Hq).
  pose proof (Z.div_le_upper_bound (nHeight b + 1) (Period c) (nHeight b + 1) HP ltac:(nia)). lia.
Qed.

Lemma GetStateFor_spec p cache :
  (∀ q, p = Some q → is_Some (m !! q)) → cache_ok cache →
  ∃ cache', GetStateFor c m p cache = Some (bip9_state c m p, cache') ∧ cache_ok cache' ∧ dom cache ⊆ dom cache'.
Proof.
  intros Hp Hcache. unfold GetStateFor, bip9_state.
  destruct (BeginTime c =? ALWAYS_ACTIVE); [by eauto|]. destruct (BeginTime c =? NEVER_ACTIVE); [by eauto|].
  assert (Hs : match p with Some q => period_start c m q | None => Some None end = Some (period_end c m p) ∧
    node c m (period_end c m p) ∧ signal_known (period_end c m p) (SignalHeight c p)).
  { destruct p as [q|]; [|split; [done|]; split; [done|]; by intros n q (r & ? & _)].
    destruct (Hp q eq_refl) as [b Hq]. destruct (period_start_spec q b Hq) as (-> & Hn & Ha).
    split; [done|]. split; [done|]. intros n r (s & Es & Hw). apply (chain_signal c m Hc); [by exists b|].
    destruct (Ha s Es) as [k Hk]. exists (k + n)%nat. by rewrite walk_add, Hk. }
  destruct Hs as (-> & Hn & HS). cbn [mbind option_bind].
  destruct (back_loop_spec (walk_fuel m (period_end c m p)) (SignalHeight c p) cache (period_end c m p) []
    (period_end c m p)) as (cache1 & p1 & todo & -> & Hok1 & Hsub & Hch & Hn1 & Hl1 & Hin);
    [done..|pose proof (periods_fuel _ Hn); lia|].
  cbn [mbind option_bind]. rewrite Hl1. cbn [mbind option_bind]. unfold calculateStartHeight.
  rewrite start_height_spec by (eauto using periods_fuel). cbn [mbind option_bind].
  destruct (forward_loop_spec (SignalHeight c p) todo p1 (period_end c m p)
    (if bool_decide (state_at c m p1 = STARTED) then Z.min (snd (bip9_at c m p1)) INT_MAX else INT_MAX) cache1)
    as (cache2 & E & Hok2 & Hsub2 & _); [done| |done|by eauto| |].
  - intros q Hq. by destruct (Hin q Hq) as [[]|].
  - intros Est. rewrite bool_decide_true by done. destruct (since_bound c m Hc p1 Hn1 Est) as (q & -> & Hb & _).
    destruct Hn1 as (b & Hq & _). pose proof (chain_height c m Hc q b Hq). rewrite (height_lookup m q b Hq) in Hb. lia.
  - exists cache2. split; [done|]. split; [done|]. etrans; [|exact Hsub2]. by apply subseteq_dom.
Qed.
End Cached.

(** ** The states of a branch move forward and settle *)

Inductive bip9_step : ThresholdState → ThresholdState → Prop :=
  | step_stay s : bip9_step s s
  | step_start : bip9_step DEFINED STARTED
  | step_lock_in : bip9_step STARTED LOCKED_IN
  | step_fail : bip9_step STARTED FAILED
  | step_activate : bip9_step LOCKED_IN ACTIVE.

Definition terminal (s : ThresholdState) : Prop := s = ACTIVE ∨ s = FAILED.

Lemma terminal_step s s' : terminal s → rtc bip9_step s s' → s' = s.
Proof.
  intros Ht H. induction H as [|x y z Hxy _ IH]; [done|].
  assert (y = x) as -> by (destruct Hxy; destruct Ht; done). by apply IH.
Qed.

Section States.
Context (c : Checker) (m : BlockMap) (Hc : chain_ok c m).
Let Hok := chain_index c m Hc.
Let HP := chain_period c m Hc.

(** The last block of the period [n] periods before. *)
Fixpoint back (n : nat) (p : option ptr) : option ptr :=
  match n with
  | O => p
  | S n => q ← p; back n (walk m q (period_length c))
  end.

Lemma node_prev q : node c m (Some q) → node c m (walk m q (period_length c)).
Proof. intros (b & Hq & Hb). by destruct (prev_boundary c m Hc q b Hq Hb) as (_ & Hn & _). Qed.

Lemma state_step q : node c m (Some q) →
  bip9_step (state_at c m (walk m q (period_length c))) (state_at c m (Some q)).
Proof.
  intros (b & Hq & Hb). unfold state_at. rewrite (bip9_at_step c m Hc q b Hq Hb).
  destruct (bip9_at c m (walk m q (period_length c))) as [[] since]; cbn [transition fst].
  - destruct (started c m q); constructor.
  - repeat case_match; constructor.
  - case_match; constructor.
  - constructor.
  - constructor.
Qed.

Lemma back_node n p : node c m p → node c m (back n p).
Proof.
  revert p. induction n as [|n IH]; intros [q|] Hp; try done. cbn [back mbind option_bind].
  apply IH, node_prev, Hp.
Qed.

Lemma back_steps n p : node c m p → rtc bip9_step (state_at c m (back n p)) (state_at c m p).
Proof.
  revert p. induction n as [|n IH]; intros [q|] Hp; try done.
  cbn [back mbind option_bind]. etrans; [apply IH, node_prev, Hp|]. apply rtc_once, state_step, Hp.
Qed.

(** Three periods: past the start time, past the timeout, past the activation height. *)
Lemma settles q2 q1 q0 :
  node c m (Some q2) → walk m q2 (period_length c) = Some q1 → walk m q1 (period_length c) = Some q0 →
  started c m q0 = true → EndTime c <= mtp m q1 → MinActivationHeight c <= height m q2 + 1 →
  terminal (state_at c m (Some q2)).
Proof.
  intros H2 E1 E0 Hs He Hm.
  assert (H1 : node c m (Some q1)) by (rewrite <-E1; by apply node_prev).
  assert (H0 : node c m (Some q0)) by (rewrite <-E0; by apply node_prev).
  destruct H2 as (b2 & Hq2 & Hb2), H1 as (b1 & Hq1 & Hb1), H0 as (b0 & Hq0 & Hb0).
  unfold state_at, terminal. rewrite (bip9_at_step c m Hc q2 b2), E1, (bip9_at_step c m Hc q1 b1), E0,
    (bip9_at_step c m Hc q0 b0) by done.
  apply Z.leb_le in Hm, He.
  destruct (bip9_at c m (walk m q0 (period_length c))) as [st since].
  destruct st; cbn [transition]; rewrite ?Hs; repeat (cbn [transition]; rewrite ?He, ?Hm; cbn [fst];
    try (by left); try (by right); case_match).
Qed.

Lemma period_end_boundary q : node c m (Some q) → period_end c m (Some q) = Some q.
Proof.
  intros (b & Hq & Hb). unfold period_end. cbn [mbind option_bind]. rewrite (height_lookup m q b Hq).
  unfold boundary in Hb. by rewrite Hb.
Qed.

Context (Hreal : BeginTime c ≠ ALWAYS_ACTIVE ∧ BeginTime c ≠ NEVER_ACTIVE).

Lemma bip9_state_real p : bip9_state c m p = state_at c m (period_end c m p).
Proof.
  unfold bip9_state. destruct Hreal as [H1%Z.eqb_neq H2%Z.eqb_neq]. by rewrite H1, H2.
Qed.

(** The first of the consecutive periods with state [st] that end with [q]. *)
Definition first_with (st : ThresholdState) (q r : ptr) : Prop :=
  ∃ n, back n (Some q) = Some r ∧ (∀ k, (k <= n)%nat → state_at c m (back k (Some q)) = st) ∧
    state_at c m (back (S n) (Some q)) ≠ st.

Lemma since_loop_spec fuel st q cache :
  node c m (Some q) → state_at c m (Some q) = st → st ≠ DEFINED → cache_ok c m cache →
  (periods c m (Some q) <= fuel)%nat →
  ∃ r cache', since_loop c m fuel st q (walk m q (period_length c)) cache = Some (r, cache') ∧
    cache_ok c m cache' ∧ node c m (Some r) ∧ first_with st q r.
Proof.
  revert q cache. induction fuel as [|fuel IH]; intros q cache Hq Est Hst Hcache Hf;
    pose proof Hq as (b & Hl & Hb); destruct (prev_boundary c m Hc q b Hl Hb) as (_ & Hn & En & _); [lia|].
  cbn [since_loop]. destruct (walk m q (period_length c)) as [r|] eqn:Er.
  - destruct (GetStateFor_spec c m Hc (Some r) cache) as (cache' & E & Hok' & _); [|done|].
    { intros s [= <-]. destruct Hn as (d & ? & _). eauto. }
    rewrite E. cbn [mbind option_bind]. rewrite bip9_state_real, period_end_boundary by done.
    case_bool_decide as Es.
    + destruct Hn as (d & Hr & Hd). rewrite Hr. cbn [mbind option_bind].
      destruct (prev_boundary c m Hc r d Hr Hd) as (-> & _). cbn [mbind option_bind].
      destruct (IH r cache') as (s & cache'' & -> & Hc'' & Hns & n & Hb1 & Hb2 & Hb3); [by exists d|done..|lia|].
      exists s, cache''. split; [done|]. split; [done|]. split; [done|]. exists (S n).
      cbn [back mbind option_bind] in Hb3 |- *. rewrite Er. split; [done|]. split; [|done].
      intros [|k] Hk; [done|]. cbn [back mbind option_bind]. rewrite Er. apply Hb2. lia.
    + exists q, cache'. split; [done|]. split; [done|]. split; [done|]. exists 0%nat. split; [done|].
      split; [by intros [|k] Hk; [|lia]|]. cbn [back mbind option_bind]. by rewrite Er.
  - exists q, cache. split; [done|]. split; [done|]. split; [done|]. exists 0%nat. split; [done|].
    split; [by intros [|k] Hk; [|lia]|]. cbn [back mbind option_bind]. rewrite Er. done.
Qed.

Lemma GetStateSinceHeightFor_spec p cache :
  (∀ q, p = Some q → is_Some (m !! q)) → cache_ok c m cache →
  ∃ h cache', GetStateSinceHeightFor c m p cache = Some (h, cache') ∧ cache_ok c m cache' ∧
    match period_end c m p with
    | Some q => if bool_decide (bip9_state c m p = DEFINED) then h = 0
                else ∃ r, first_with (bip9_state c m p) q r ∧ h = height m r + 1
    | None => h = 0
    end.
Proof.
  intros Hp Hcache. unfold GetStateSinceHeightFor.
  destruct Hreal as [H1%Z.eqb_neq H2%Z.eqb_neq]. rewrite H1, H2. cbn [orb].
  destruct (GetStateFor_spec c m Hc p cache Hp Hcache) as (cache1 & -> & Hok1 & _). cbn [mbind option_bind].
  case_bool_decide as Ed; [exists 0, cache1; split; [done|]; split; [done|]; by destruct (period_end c m p)|].
  destruct p as [q|]; [|by rewrite bip9_state_real in Ed]. cbn [mbind option_bind].
  destruct (Hp q eq_refl) as [b Hq]. destruct (period_start_spec c m Hc q b Hq) as (-> & Hn & _).
  cbn [mbind option_bind]. rewrite bip9_state_real in Ed |- *.
  destruct (period_end c m (Some q)) as [e|]; [|done]. cbn [mbind option_bind].
  pose proof Hn as (d & He & Hd). rewrite He. cbn [mbind option_bind].
  destruct (prev_boundary c m Hc e d He Hd) as (-> & _). cbn [mbind option_bind].
  destruct (since_loop_spec (walk_fuel m (Some e)) (state_at c m (Some e)) e cache1)
    as (r & cache2 & -> & Hok2 & (dr & Hr & _) & Hf); [done..|pose proof (periods_fuel c m Hc _ Hn); lia|].
  cbn [mbind option_bind]. rewrite Hr. cbn [mbind option_bind].
  exists (nHeight dr + 1), cache2. split; [done|]. split; [done|]. exists r. by rewrite (height_lookup m r dr).
Qed.
End States.

(** ** Statistics *)

Section Stats.
Context (c : Checker) (m : BlockMap) (Hc : chain_ok c m).
Let Hok := chain_index c m Hc.
Let HP := chain_period c m Hc.
Context (Hreal : BeginTime c ≠ ALWAYS_ACTIVE ∧ BeginTime c ≠ NEVER_ACTIVE).

(** How many of the last [k] blocks up to [q] meet the condition. *)
Definition signalled (q : ptr) (k : nat) : Z :=
  Z.of_nat (length (filter (λ b, Condition c b = true) (take k (branch m k q)))).

Lemma stats_loop_spec k fuel q b n :
  m !! q = Some b → Z.of_nat k <= nHeight b → (k <= fuel)%nat →
  stats_loop c m fuel (nHeight b - Z.of_nat k) (Some q) n = Some (n + signalled q k).
Proof.
  revert fuel q b n. induction k as [|k IH]; intros fuel q b n Hq Hk Hf.
  - unfold signalled. rewrite take_0. destruct fuel; cbn [stats_loop mbind option_bind]; rewrite Hq;
      cbn [mbind option_bind]; rewrite Z.sub_0_r, Z.eqb_refl; f_equal; cbn; lia.
  - destruct fuel as [|fuel]; [lia|]. cbn [stats_loop mbind option_bind]. rewrite Hq. cbn [mbind option_bind].
    destruct (Z.eqb_spec (nHeight b - Z.of_nat (S k)) (nHeight b)); [lia|].
    unfold signalled. cbn [branch]. rewrite Hq. destruct (Hok q b Hq) as [_ H]. destruct (pprev b) as [r|]; [|lia].
    destruct H as (d & _ & Hr & _ & Hh & _).
    replace (nHeight b - Z.of_nat (S k)) with (nHeight d - Z.of_nat k) by lia.
    rewrite (IH fuel r d) by (done || lia). f_equal. unfold signalled. cbn [take]. rewrite filter_cons.
    destruct (Condition c b); [rewrite decide_True by done|rewrite decide_False by done]; cbn [length]; lia.
Qed.

(** The height at which the machine started is that of the first started period. *)
Lemma since_first e r : node c m (Some e) → first_with c m STARTED e r → snd (bip9_at c m (Some e)) = height m r + 1.
Proof.
  intros He (n & Hb & Hall & Hlast). revert e He Hb Hall Hlast.
  induction n as [|n IH]; intros e He Hb Hall Hlast; pose proof He as (b & Hq & Hbd);
    pose proof (Hall 0%nat ltac:(lia)) as H0; cbn [back] in H0.
  - injection Hb as ->. cbn [back mbind option_bind] in Hlast. unfold state_at in *.
    rewrite (bip9_at_step c m Hc r b Hq Hbd) in *.
    destruct (bip9_at c m (walk m r (period_length c))) as [[] since]; cbn [transition fst snd] in *; try done.
    + by destruct (started c m r).
    + by destruct (_ <=? _).
  - cbn [back mbind option_bind] in Hb. destruct (walk m e (period_length c)) as [e'|] eqn:Ee; [|by destruct n].
    assert (He' : node c m (Some e')) by (rewrite <-Ee; by apply node_prev).
    rewrite <-(IH e'); [|done..| |].
    + pose proof (Hall 1%nat ltac:(lia)) as H1. cbn [back mbind option_bind] in H1. rewrite Ee in H1.
      unfold state_at in *. rewrite (bip9_at_step c m Hc e b Hq Hbd), Ee in *.
      destruct (bip9_at c m (Some e')) as [st since]. cbn [fst snd] in *. subst st. cbn [transition] in *.
      by destruct (_ <=? _).
    + intros k Hk. pose proof (Hall (S k) ltac:(lia)) as H1. cbn [back mbind option_bind] in H1. by rewrite Ee in H1.
    + cbn [back mbind option_bind] in Hlast |- *. by rewrite Ee in Hlast.
Qed.

(** The blocks since the end of the last period; there is none before the first. *)
Lemma period_end_height q b :
  m !! q = Some b →
  match period_end c m (Some q) with
  | None => nHeight b + 1 < Period c
  | Some e => ∃ d, m !! e = Some d ∧ nHeight b - nHeight d = (nHeight b + 1) mod Period c ∧ 0 <= nHeight d
  end.
Proof.
  intros Hq. pose proof (height_nonneg m Hok q b Hq) as H0.
  pose proof (Z.mod_pos_bound (nHeight b + 1) (Period c) HP) as Hm.
  unfold period_end. cbn [mbind option_bind]. rewrite (height_lookup m q b Hq).
  destruct (Z.lt_ge_cases (nHeight b) (Z.of_nat (Z.to_nat ((nHeight b + 1) mod Period c)))) as [Hlt|Hge].
  - rewrite (walk_root m Hok q b _ Hq Hlt).
    destruct (Z.lt_ge_cases (nHeight b + 1) (Period c)) as [|Hge]; [done|].
    assert (nHeight b + 1 = (nHeight b + 1) mod Period c); [|lia].
    pose proof (Z.mod_le (nHeight b + 1) (Period c) ltac:(lia) HP). lia.
  - destruct (walk_total m Hok q b _ Hq Hge) as (e & d & -> & Hd & Hh). exists d. split; [done|]. lia.
Qed.

(** The number of periods for which signalling has failed so far. *)
Lemma attempt_spec e d cache :
  node c m (Some e) → m !! e = Some d → cache_ok c m cache →
  ∃ a cache', (if bool_decide (bip9_state c m (Some e) = STARTED) then
      '(nStartHeight, cache) ← GetStateSinceHeightFor c m (Some e) cache;
      Some (Z.quot (nHeight d + 1 - nStartHeight) (Period c), cache) else Some (0, cache)) = Some (a, cache') ∧
    cache_ok c m cache' ∧ a = if bool_decide (bip9_state c m (Some e) = STARTED)
      then (height m e + 1 - snd (bip9_at c m (Some e))) / Period c else 0.
Proof.
  intros Hn He Hcache. case_bool_decide as Es; [|by eauto].
  destruct (GetStateSinceHeightFor_spec c m Hc Hreal (Some e) cache) as (h & cache2 & -> & Hok2 & Hh);
    [intros ? [= <-]; eauto|done|]. cbn [mbind option_bind].
  rewrite (period_end_boundary c m e Hn), bool_decide_false in Hh by (by rewrite Es).
  rewrite Es in Hh. destruct Hh as (r & Hf & ->). rewrite <-(since_first e r Hn Hf), (height_lookup m e d He).
  do 2 eexists. split; [done|]. split; [done|].
  rewrite bip9_state_real, (period_end_boundary c m e Hn) in Es by done.
  destruct (since_bound c m Hc (Some e) Hn Es) as (e' & [= <-] & Hb & _). rewrite (height_lookup m e d He) in Hb.
  by rewrite Z.quot_div_nonneg by lia.
Qed.

Lemma GetStateStatisticsFor_spec q b cache :
  m !! q = Some b → cache_ok c m cache →
  match period_end c m (Some q) with
  | None => nHeight b + 1 < Period c ∧ GetStateStatisticsFor c m (Some q) cache = None
  | Some e => ∃ s cache', GetStateStatisticsFor c m (Some q) cache = Some (s, cache') ∧ cache_ok c m cache' ∧
      period s = Period c ∧ elapsed s = (nHeight b + 1) mod Period c ∧
      count s = signalled q (Z.to_nat (elapsed s)) ∧
      threshold s = Threshold c (if bool_decide (bip9_state c m (Some e) = STARTED)
        then (height m e + 1 - snd (bip9_at c m (Some e))) / Period c else 0) ∧
      possible s = (threshold s <=? count s + (Period c - elapsed s))
  end.
Proof.
  intros Hq Hcache. destruct (period_start_spec c m Hc q b Hq) as (Eps & Hn & Ha).
  pose proof (period_end_height q b Hq) as Hh. pose proof (Z.mod_pos_bound (nHeight b + 1) (Period c) HP) as Hm.
  unfold GetStateStatisticsFor. rewrite Hq, Eps. cbn [mbind option_bind].
  destruct (period_end c m (Some q)) as [e|] eqn:Ee; cbn [mbind option_bind]; [|done].
  destruct Hh as (d & He & Eel & Hd). rewrite He. cbn [mbind option_bind]. rewrite Eel.
  destruct (GetStateFor_spec c m Hc (Some e) cache) as (cache1 & -> & Hok1 & _); [intros ? [= <-]; eauto|done|].
  cbn [mbind option_bind].
  destruct (attempt_spec e d cache1 Hn He Hok1) as (a & cache2 & -> & Hok2 & Ea). cbn [mbind option_bind].
  replace (nHeight d) with (nHeight b - Z.of_nat (Z.to_nat ((nHeight b + 1) mod Period c))) by lia.
  rewrite (stats_loop_spec _ _ q b) by (done || (cbn [walk_fuel]; rewrite ?Hq; lia) || lia).
  cbn [mbind option_bind]. do 2 eexists. split; [reflexivity|]. cbn [period threshold elapsed count possible].
  rewrite Ea, Z.add_0_l. do 5 (split; [done|]).
  match goal with |- (?x <=? ?y) = (?z <=? ?w) => destruct (Z.leb_spec x y), (Z.leb_spec z w); done || lia end.
Qed.
End Stats.

(** ** Thresholds without overflow *)

Section Thresholds.
Context (GetSignalsStage : option ptr → gmap Z Z) (params : Params).

(** The period and the threshold of an attempt as the parameters mean them, in unbounded integers. *)
Definition exact_period (d : BIP9Deployment) : Z :=
  if nWindowSize d =? 0 then nMinerConfirmationWindow params else nWindowSize d.

Definition falls (d : BIP9Deployment) : bool :=
  negb (nThresholdStart d =? 0) && negb (nThresholdMin d =? 0) && negb (nFalloffCoeff d =? 0).

Definition exact_threshold (d : BIP9Deployment) (n : Z) : Z :=
  if falls d then Z.max (nThresholdMin d) (nThresholdStart d - n ^ 2 * exact_period d / 100 / nFalloffCoeff d)
  else if nThresholdStart d =? 0 then nRuleChangeActivationThreshold params else nThresholdStart d.

Definition exact_checker (d : BIP9Deployment) : Checker :=
  mk_checker (deployment_condition d) (nStartTime d) (deployment_signal GetSignalsStage d) (nTimeout d)
    (min_activation_height d) (exact_period d) (exact_threshold d).

(** The parameters fit an [int]. *)
Definition fits_int (x : Z) : Prop := 0 <= x <= INT_MAX.
Definition deployment_fits (d : BIP9Deployment) : Prop :=
  fits_int (exact_period d) ∧ fits_int (nRuleChangeActivationThreshold params) ∧
  fits_int (nThresholdStart d) ∧ fits_int (nThresholdMin d) ∧ 0 <= nFalloffCoeff d.

(** The product of attempt [n] fits an [int], where it is computed. *)
Definition attempt_fits (d : BIP9Deployment) (n : Z) : Prop := falls d = true → n ^ 2 * exact_period d <= INT_MAX.

Lemma int32_fits x : fits_int x → int32 x = x.
Proof. unfold fits_int, INT_MAX, int32. intros. rewrite Z.mod_small; lia. Qed.

Lemma deployment_period_exact d : deployment_fits d → deployment_period params d = exact_period d.
Proof.
  intros (HP & _). unfold deployment_period, exact_period in *. destruct (nWindowSize d =? 0); by apply int32_fits.
Qed.

Lemma attempt_fits_mono d n k : deployment_fits d → 0 <= k <= n → attempt_fits d n → attempt_fits d k.
Proof.
  intros (HP & _) Hk H Hf. specialize (H Hf). unfold fits_int in HP.
  pose proof (Z.pow_le_mono_l k n 2 Hk). nia.
Qed.

Lemma deployment_threshold_exact d n :
  deployment_fits d → 0 <= n → 0 < exact_period d → attempt_fits d n →
  deployment_threshold params d n = exact_threshold d n.
Proof.
  intros Hd Hn HP Hf. pose proof (deployment_period_exact d Hd) as EP. destruct Hd as (Hp & Hr & Hs & Hm & Hco).
  unfold deployment_threshold, exact_threshold, attempt_fits, falls in *.
  destruct (Z.eqb_spec (nThresholdStart d) 0); [by apply int32_fits|].
  destruct (Z.eqb_spec (nThresholdMin d) 0), (Z.eqb_spec (nFalloffCoeff d) 0); cbn [negb andb orb] in *;
    try (by apply int32_fits). specialize (Hf eq_refl). rewrite Z.pow_2_r in *. unfold fits_int in *.
  rewrite (int32_fits (n * n)), EP, (int32_fits (n * n * _)) by (unfold fits_int; nia). cbv zeta.
  assert (0 <= n * n * exact_period d) by nia.
  rewrite (Z.quot_div_nonneg _ 100) by lia. pose proof (Z.div_pos (n * n * exact_period d) 100 ltac:(lia) ltac:(lia)).
  rewrite Z.quot_div_nonneg by lia. pose proof (Z.div_pos (n * n * exact_period d / 100) (nFalloffCoeff d) ltac:(lia) ltac:(lia)).
  apply int32_fits. unfold fits_int. lia.
Qed.

Context (m : BlockMap).

(** The attempts to lock in before the end of the period of the child of [p]. *)
Definition attempts_at (d : BIP9Deployment) (p : option ptr) : Z :=
  match p with
  | Some e => Z.max 0 ((height m e + 1 - snd (bip9_at (exact_checker d) m p)) / exact_period d)
  | None => 0
  end.
Definition attempts (d : BIP9Deployment) (p : option ptr) : Z := attempts_at d (period_end (exact_checker d) m p).

Abbreviation checker := (VersionBitsConditionChecker GetSignalsStage params).

Lemma exact_chain_ok d : deployment_fits d → chain_ok (checker d) m → chain_ok (exact_checker d) m.
Proof.
  intros Hd [H1 H2 H3 H4 H5]. cbn [VersionBitsConditionChecker Period] in H2. rewrite deployment_period_exact in H2 by done.
  by split.
Qed.

(** The machines of the two checkers agree on a branch where the products fit. *)
Lemma bip9_exact d p :
  deployment_fits d → chain_ok (checker d) m → node (exact_checker d) m p → attempt_fits d (attempts_at d p) →
  bip9_at (checker d) m p = bip9_at (exact_checker d) m p.
Proof.
  intros Hd Hc. pose proof (exact_chain_ok d Hd Hc) as He. pose proof (deployment_period_exact d Hd) as EP.
  pose proof (chain_period _ _ He) as HP. cbn [Period exact_checker] in HP. revert p.
  assert (EL : period_length (checker d) = period_length (exact_checker d)) by (unfold period_length; cbn; by rewrite EP).
  apply (node_ind _ m He (λ p, attempt_fits d (attempts_at d p) → _)); [done|].
  intros q b Hq Hb Hn IH Hf. rewrite (bip9_at_step _ m He q b Hq Hb).
  assert (Hb' : boundary (checker d) b) by (unfold boundary in *; cbn [Period VersionBitsConditionChecker]; by rewrite EP).
  rewrite (bip9_at_step _ m Hc q b Hq Hb'), EL. pose proof (since_bound _ m He _ Hn) as Hs.
  destruct (prev_boundary _ m He q b Hq Hb) as (_ & _ & _ & Hh). cbn [Period exact_checker] in Hh.
  pose proof (height_lookup m q b Hq) as Eh. set (p := walk m q _) in *.
  unfold attempts_at in Hf. rewrite (bip9_at_step _ m He q b Hq Hb) in Hf. fold p in Hf.
  pose proof (defined_since _ m He p Hn) as Hdef.
  unfold attempts_at in IH. unfold state_at in Hs, Hdef. destruct (bip9_at (exact_checker d) m p) as [st since] eqn:E.
  clearbody p. cbn [fst snd] in *. rewrite IH; cycle 1.
  { destruct p as [e|]; [|by (eapply (attempt_fits_mono d _ 0 Hd); [|exact Hf]; lia)].
    destruct Hn as (be & Hbe & _). pose proof (chain_height _ _ He e be Hbe). pose proof (height_lookup m e be Hbe).
    destruct (decide (st = DEFINED)) as [->|Hst].
    - rewrite (Hdef eq_refl), Z.max_l by (apply Z.div_le_upper_bound; lia). eapply (attempt_fits_mono d _ 0 Hd); [|exact Hf]; lia.
    - eapply (attempt_fits_mono d); [done| |exact Hf]. rewrite (transition_since _ m q st since Hst).
      pose proof (Z.div_le_mono (height m e + 1 - since) (height m q + 1 - since) (exact_period d) HP ltac:(lia)). lia. }
  destruct st; cbn [transition]; try done. destruct (Hs eq_refl) as (e & -> & Hr & _).
  rewrite transition_since in Hf by done. cbn [Period Threshold exact_checker VersionBitsConditionChecker]. rewrite EP.
  replace (deployment_threshold _ _ _) with (exact_threshold d ((height m q + 1 - exact_period d - since) / exact_period d)).
  { unfold signalling. cbn [Condition exact_checker VersionBitsConditionChecker]. by rewrite EL. }
  symmetry. apply deployment_threshold_exact; [done|apply Z.div_pos; lia|done|].
  eapply (attempt_fits_mono d); [done| |exact Hf]. split; [apply Z.div_pos; lia|].
  pose proof (Z.div_le_mono (height m q + 1 - exact_period d - since) (height m q + 1 - since) (exact_period d) HP ltac:(lia)). lia.
Qed.

Lemma period_end_exact d p : deployment_fits d → period_end (checker d) m p = period_end (exact_checker d) m p.
Proof.
  intros Hd. unfold period_end. cbn [Period VersionBitsConditionChecker exact_checker].
  by rewrite deployment_period_exact by done.
Qed.

Lemma bip9_state_exact d p :
  (∀ q, p = Some q → is_Some (m !! q)) → deployment_fits d → chain_ok (checker d) m → attempt_fits d (attempts d p) →
  bip9_state (checker d) m p = bip9_state (exact_checker d) m p.
Proof.
  intros Hp Hd Hc Hf. unfold bip9_state. cbn [BeginTime VersionBitsConditionChecker exact_checker].
  destruct (_ =? _); [done|]. destruct (_ =? _); [done|]. unfold state_at. rewrite period_end_exact by done.
  rewrite bip9_exact; [done..| |done]. destruct p as [q|]; [|done]. destruct (Hp q eq_refl) as [b Hq].
  by destruct (period_start_spec _ m (exact_chain_ok d Hd Hc) q b Hq) as (_ & ? & _).
Qed.
End Thresholds.

(** The deployments of the main and the test network. *)
Definition NO_TIMEOUT : Z := 2 ^ 63 - 1.
Definition main_deployments : Params := mk_params 1815 2016
  [mk_deployment 28 NEVER_ACTIVE NO_TIMEOUT 0 0 0 0 0 false;
   mk_deployment 11 1728864000 1760400000 0 4032 3226 2420 5 true].
Definition test_deployments : Params := mk_params 1512 2016
  [mk_deployment 28 NEVER_ACTIVE NO_TIMEOUT 0 0 0 0 0 false;
   mk_deployment 11 1728864000 NO_TIMEOUT 0 100 80 60 5 true].

(** Their thresholds are exact for 729 and 4634 attempts.  With one more the product overflows: reduced to 32 bits it
    gives thresholds that no window can meet. *)
Example network_thresholds :
  (∀ d n, In d (vDeployments main_deployments) → 0 <= n <= 729 →
     deployment_threshold main_deployments d n = exact_threshold main_deployments d n)
  ∧ (∀ d n, In d (vDeployments test_deployments) → 0 <= n <= 4634 →
     deployment_threshold test_deployments d n = exact_threshold test_deployments d n)
  ∧ (λ d, deployment_threshold main_deployments d 730) <$> vDeployments main_deployments !! 1%nat = Some 4295854
  ∧ (λ d, deployment_threshold test_deployments d 4635) <$> vDeployments test_deployments !! 1%nat = Some 4293369.
Proof.
  assert (H : ∀ params d k n, deployment_fits params d → 0 < exact_period params d → attempt_fits params d k → 0 <= n <= k →
    deployment_threshold params d n = exact_threshold params d n).
  { intros params d k n Hd HP Hk Hn. apply deployment_threshold_exact; [done|lia|done|].
    by apply (attempt_fits_mono params d k). }
  split; [|split; [|by vm_compute]]; intros d n [<-|[<-|[]]] Hn; (eapply H; [| | |exact Hn]);
    by (repeat split; vm_compute).
Qed.

(** ** The deployments and their caches *)

Section Deployments.
Context (GetSignalsStage : option ptr → gmap Z Z) (params : Params) (m : BlockMap).

Abbreviation checker := (VersionBitsConditionChecker GetSignalsStage params).

(** What the code relies on, for every deployment. *)
Definition deployments_ok : Prop :=
  length (vDeployments params) = MAX_VERSION_BITS_DEPLOYMENTS ∧
  ∀ d, In d (vDeployments params) → chain_ok (checker d) m ∧ 0 <= bit d < VERSIONBITS_NUM_BITS.

Definition caches_ok (m_caches : list ThresholdConditionCache) : Prop :=
  length m_caches = MAX_VERSION_BITS_DEPLOYMENTS ∧
  ∀ pos d cache, vDeployments params !! pos = Some d → m_caches !! pos = Some cache →
    cache_ok (checker d) m cache.

Context (Hd : deployments_ok).

Lemma Clear_ok m_caches : length m_caches = MAX_VERSION_BITS_DEPLOYMENTS → caches_ok (Clear m_caches).
Proof.
  intros Hl. destruct m_caches as [|c0 [|c1 [|]]]; try done. split; [done|].
  intros pos d cache _ Hc. assert (cache = ∅) as ->; [|apply cache_ok_empty].
  change (Clear [c0; c1]) with [∅; ∅ : ThresholdConditionCache] in Hc.
  apply list_elem_of_lookup_2 in Hc. by apply elem_of_cons in Hc as [?|[?|?%not_elem_of_nil]%elem_of_cons].
Qed.

(** An operation on the cache of a deployment that keeps its invariant. *)
Lemma with_cache_spec {A : Type} (pos : nat) (d : BIP9Deployment) (m_caches : list ThresholdConditionCache)
    (f : Checker → ThresholdConditionCache → option (A * ThresholdConditionCache)) (Q : A → Prop) :
  vDeployments params !! pos = Some d → caches_ok m_caches →
  (∀ cache, cache_ok (checker d) m cache → ∃ a cache', f (checker d) cache = Some (a, cache') ∧
    cache_ok (checker d) m cache' ∧ Q a) →
  ∃ a m_caches', with_cache GetSignalsStage params pos m_caches f = Some (a, m_caches') ∧ caches_ok m_caches' ∧ Q a.
Proof.
  intros Hpos [Hl Hok] Hf. unfold with_cache. rewrite Hpos. cbn [mbind option_bind].
  assert (Hlt : (pos < length m_caches)%nat).
  { rewrite Hl, <-(proj1 Hd). by eapply lookup_lt_Some. }
  destruct (lookup_lt_is_Some_2 _ _ Hlt) as [cache Hcache]. rewrite Hcache. cbn [mbind option_bind].
  destruct (Hf cache (Hok pos d cache Hpos Hcache)) as (a & cache' & -> & Hc' & HQ). cbn [mbind option_bind].
  do 2 eexists. split; [done|]. split; [|done]. split; [by rewrite length_insert|].
  intros pos' d' k Hd' Hk. destruct (decide (pos' = pos)) as [->|Hne].
  - rewrite list_lookup_insert_eq in Hk by done. by simplify_eq.
  - rewrite list_lookup_insert_ne in Hk by done. by eapply Hok.
Qed.

Lemma State_spec p pos d m_caches :
  (∀ q, p = Some q → is_Some (m !! q)) → vDeployments params !! pos = Some d → caches_ok m_caches →
  ∃ m_caches', State GetSignalsStage params m p pos m_caches = Some (bip9_state (checker d) m p, m_caches') ∧
    caches_ok m_caches'.
Proof.
  intros Hp Hpos Hok. unfold State.
  destruct (with_cache_spec pos d m_caches (λ c, GetStateFor c m p) (λ a, a = bip9_state (checker d) m p) Hpos Hok)
    as (a & cs & E & Hcs & ->); [|by eauto].
  intros cache Hcache. destruct (proj2 Hd d) as [Hc _].
  { apply list_elem_of_In. by eapply list_elem_of_lookup_2. }
  destruct (GetStateFor_spec (checker d) m Hc p cache Hp Hcache) as (cache' & E & H' & _). eauto.
Qed.

(** The deployments a new block signals for. *)
Definition signals_bit (p : option ptr) (i : Z) (d : BIP9Deployment) : Prop :=
  bit d = i ∧ (bip9_state (checker d) m p = LOCKED_IN ∨ bip9_state (checker d) m p = STARTED).

Lemma Mask_bit d i : 0 <= bit d < VERSIONBITS_NUM_BITS → 0 <= i → Z.testbit (Mask d) i = bool_decide (bit d = i).
Proof.
  unfold VERSIONBITS_NUM_BITS. intros Hb Hi. unfold Mask. rewrite Z.shiftl_1_l. rewrite SPH_T32_id.
  - rewrite Z.pow2_bits_eqb by lia. case_bool_decide; [by apply Z.eqb_eq|by apply Z.eqb_neq].
  - split; [lia|]. apply Z.pow_lt_mono_r; lia.
Qed.

Lemma version_loop_spec p positions v m_caches :
  (∀ q, p = Some q → is_Some (m !! q)) → caches_ok m_caches → (∀ i, In i positions → i < MAX_VERSION_BITS_DEPLOYMENTS)%nat →
  ∃ v' m_caches', version_loop GetSignalsStage params m p positions v m_caches = Some (v', m_caches') ∧
    caches_ok m_caches' ∧
    ∀ i, 0 <= i → (Z.testbit v' i = true ↔ Z.testbit v i = true ∨
      ∃ pos d, In pos positions ∧ vDeployments params !! pos = Some d ∧ signals_bit p i d).
Proof.
  intros Hp. revert v m_caches. induction positions as [|pos l IH]; intros v m_caches Hok Hl.
  { exists v, m_caches. split; [done|]. split; [done|]. intros i Hi. split; [by left|]. by intros [|(? & ? & [] & _)]. }
  assert (Hlt : (pos < length (vDeployments params))%nat) by (rewrite (proj1 Hd); apply Hl; by left).
  destruct (lookup_lt_is_Some_2 _ _ Hlt) as [d Hpos]. cbn [version_loop].
  destruct (State_spec p pos d m_caches Hp Hpos Hok) as (cs & -> & Hcs). cbn [mbind option_bind].
  rewrite Hpos. cbn [mbind option_bind].
  set (v1 := if bool_decide _ || bool_decide _ then _ else _).
  destruct (IH v1 cs Hcs) as (v' & cs' & E & Hcs' & Hbits); [intros; apply Hl; by right|].
  exists v', cs'. split; [done|]. split; [done|]. intros i Hi. rewrite Hbits by done.
  assert (Hmask : 0 <= bit d < VERSIONBITS_NUM_BITS).
  { apply (proj2 Hd). apply list_elem_of_In. by eapply list_elem_of_lookup_2. }
  assert (Hv1 : Z.testbit v1 i = true ↔ Z.testbit v i = true ∨ signals_bit p i d).
  { unfold v1, signals_bit. destruct (bool_decide _ || bool_decide _) eqn:Eb.
    - rewrite Z.lor_spec, orb_true_iff, (Mask_bit d i), bool_decide_eq_true by done.
      rewrite orb_true_iff, !bool_decide_eq_true in Eb. tauto.
    - rewrite orb_false_iff, !bool_decide_eq_false in Eb. tauto. }
  rewrite Hv1. split.
  - intros [[?|?]|(pos' & d' & Hin & ?)]; [by left| |].
    + right. exists pos, d. split; [by left|done].
    + right. exists pos', d'. split; [by right|done].
  - intros [?|(pos' & d' & [<-|Hin] & Hd' & ?)]; [by left; left| |].
    + left. right. by assert (d' = d) as -> by congruence.
    + right. by exists pos', d'.
Qed.

(** The top three bits say 001; the others signal. *)
Lemma ComputeBlockVersion_spec p m_caches :
  (∀ q, p = Some q → is_Some (m !! q)) → caches_ok m_caches →
  ∃ v m_caches', ComputeBlockVersion GetSignalsStage params m p m_caches = Some (v, m_caches') ∧
    caches_ok m_caches' ∧
    ∀ i, 0 <= i → (Z.testbit v i = true ↔ i = 29 ∨ ∃ d, In d (vDeployments params) ∧ signals_bit p i d).
Proof.
  intros Hp Hok. unfold ComputeBlockVersion.
  destruct (version_loop_spec p (seq 0 MAX_VERSION_BITS_DEPLOYMENTS) VERSIONBITS_TOP_BITS m_caches Hp Hok)
    as (v & cs & E & Hcs & Hb); [intros i Hi; apply in_seq in Hi; lia|].
  exists v, cs. split; [done|]. split; [done|]. intros i Hi. rewrite Hb by done.
  assert (Ht : Z.testbit VERSIONBITS_TOP_BITS i = true ↔ i = 29).
  { change VERSIONBITS_TOP_BITS with (2 ^ 29). rewrite Z.pow2_bits_eqb, Z.eqb_eq by lia. lia. }
  rewrite Ht. split; (intros [?|Hs]; [by left|right]).
  - destruct Hs as (pos & d & _ & Hl & Hs). exists d. split; [|done].
    apply list_elem_of_In. by eapply list_elem_of_lookup_2.
  - destruct Hs as (d & Hin & Hs). apply list_elem_of_In, list_elem_of_lookup in Hin as [pos Hpos].
    exists pos, d. split; [|done]. apply in_seq. apply lookup_lt_Some in Hpos. rewrite (proj1 Hd) in Hpos. lia.
Qed.
End Deployments.

(** ** Branches and periods *)

Section Branch.
Context (c : Checker) (m : BlockMap) (Hc : chain_ok c m).
Let Hok := chain_index c m Hc.
Let HP := chain_period c m Hc.

Lemma back_walk n e : back c m n (Some e) = walk m e (n * period_length c).
Proof.
  revert e. induction n as [|n IH]; intros e; [done|]. cbn [back mbind option_bind].
  rewrite Nat.mul_succ_l, (Nat.add_comm (n * _)), walk_add.
  destruct (walk m e (period_length c)) as [r|]; cbn [mbind option_bind]; [apply IH|].
  clear. by induction n.
Qed.

(** The end of the period of an ancestor is some periods back. *)
Lemma period_end_ancestor p q b :
  m !! p = Some b → ancestor m p q → ∃ n, period_end c m (Some q) = back c m n (period_end c m (Some p)).
Proof.
  intros Hp [k Hk]. assert (Hle : Z.of_nat k <= nHeight b).
  { destruct (Z.lt_ge_cases (nHeight b) (Z.of_nat k)) as [H|]; [|lia].
    by rewrite (walk_root m Hok p b k Hp H) in Hk. }
  destruct (walk_total m Hok p b k Hp Hle) as (q' & d & Hk' & Hq & Hh). assert (q' = q) as -> by congruence.
  unfold period_end. cbn [mbind option_bind]. rewrite (height_lookup m p b Hp), (height_lookup m q d Hq), Hh.
  set (h := nHeight b) in *. set (x := (h + 1) mod Period c). set (y := (h - Z.of_nat k + 1) mod Period c).
  pose proof (Z.div_mod (h + 1) (Period c) ltac:(lia)) as Ex. pose proof (Z.div_mod (h - Z.of_nat k + 1) (Period c) ltac:(lia)) as Ey.
  fold x in Ex. fold y in Ey. pose proof (Z.mod_pos_bound (h + 1) (Period c) HP). pose proof (Z.mod_pos_bound (h - Z.of_nat k + 1) (Period c) HP).
  pose proof (Z.div_le_mono (h - Z.of_nat k + 1) (h + 1) (Period c) HP ltac:(lia)) as Hn.
  set (n := (h + 1) / Period c - (h - Z.of_nat k + 1) / Period c) in *.
  exists (Z.to_nat n).
  assert (E : walk m p (Z.to_nat x + Z.to_nat n * period_length c) = walk m q (Z.to_nat y)).
  { replace (Z.to_nat x + Z.to_nat n * period_length c)%nat with (k + Z.to_nat y)%nat
      by (unfold period_length, n; nia). by rewrite walk_add, Hk. }
  rewrite <-E, walk_add. destruct (walk m p (Z.to_nat x)) as [e|]; cbn [mbind option_bind]; [by rewrite back_walk|].
  clear. by induction (Z.to_nat n).
Qed.

Lemma GetStateFor_result p b cache s cache' :
  m !! p = Some b → cache_ok c m cache → GetStateFor c m (Some p) cache = Some (s, cache') →
  s = bip9_state c m (Some p).
Proof.
  intros Hp Hcache E. destruct (GetStateFor_spec c m Hc (Some p) cache) as (k & E' & _); [intros ? [= <-]; eauto|done|].
  congruence.
Qed.
End Branch.

(** ** A sample: a chain of signalling blocks and a deployment with a period of four *)

Definition signal_header (i : nat) : CBlockHeader :=
  mk_header 0x20000001 [Z.of_nat i - 1] [] (1400000000 + 150 * Z.of_nat i) 0x1e0ffff0 7.

Fixpoint signal_chain (n : nat) : option (BlockManager * option ptr) :=
  match n with
  | O => Some (mk_manager ∅ ∅ [], None)
  | S n =>
      '(bm, best) ← signal_chain n;
      '(_, bm, best) ← AddToBlockIndex bm (signal_header n) [Z.of_nat n] best BLOCK_VALID_TREE;
      Some (bm, best)
  end.
Definition sample_map : BlockMap :=
  match signal_chain 20 with Some (bm, _) => m_block_index bm | None => ∅ end.

(** Four blocks a period, three of them must signal at first, later two. *)
Definition sample_deployment (bit : Z) (useEHF : bool) : BIP9Deployment :=
  mk_deployment bit 1400000300 1400001100 0 4 3 2 1 useEHF.
(** Masternodes signal bit 5 at height 3. *)
Definition sample_signals (p : option ptr) : gmap Z Z :=
  match p with Some [i] => if 2 <=? i then {[5 := 3]} else ∅ | _ => ∅ end.
Definition sample_params : Params := mk_params 3 4 [sample_deployment 0 false; sample_deployment 5 true].
Definition sample_checker : Checker :=
  VersionBitsConditionChecker sample_signals sample_params (sample_deployment 0 false).

Lemma sample_map_ok : index_ok sample_map.
Proof.
  assert (H : ∀ n bm best, signal_chain n = Some (bm, best) → reachable bm best).
  { induction n as [|n IH]; intros bm best; cbn [signal_chain]; [intros [= <- <-]; constructor|].
    destruct (signal_chain n) as [[bm0 best0]|]; [|done]. cbn [mbind option_bind].
    destruct (AddToBlockIndex _ _ _ _ _) as [[[p bm1] best1]|] eqn:E; [|done]. intros [= <- <-].
    refine (reachable_add bm0 best0 _ _ _ p bm1 best1 (IH _ _ eq_refl) _ _ _ E);
      [by vm_compute|cbn; intros [= Hn]; lia|by vm_compute]. }
  unfold sample_map. destruct (signal_chain 20) as [[bm best]|] eqn:E.
  - exact (proj1 (reachable_ok bm best (H _ _ _ E))).
  - intros p b Hp. by rewrite lookup_empty in Hp.
Qed.

(** A signal that is mined stays. *)
Lemma sample_signal_stays d p q :
  In d (vDeployments sample_params) → is_Some (sample_map !! p) → ancestor sample_map p q →
  let sh p := deployment_signal sample_signals d (Some p) in
  sh p <= height sample_map q ↔ sh q <= height sample_map q.
Proof.
  assert (F : map_Forall (λ p b, p = [nHeight b]) sample_map) by (apply (bool_decide_unpack _); vm_compute; exact I).
  intros [<-|[<-|[]]] [b Hp] [n Hn] sh; subst sh; unfold deployment_signal; cbn [useEHF negb sample_deployment]; [done|].
  destruct (walk_total sample_map sample_map_ok p b n Hp) as (q' & e & Hw & He & Hh).
  { destruct (Z.lt_ge_cases (nHeight b) (Z.of_nat n)) as [Hlt|]; [|lia].
    pose proof (walk_root sample_map sample_map_ok p b n Hp Hlt) as Hr. congruence. }
  replace q' with q in He by congruence. unfold height. rewrite He. cbn [from_option].
  rewrite (F p b Hp), (F q e He). unfold sample_signals.
  assert (Hge : nHeight e <= nHeight b) by lia.
  destruct (Z.leb_spec 2 (nHeight b)), (Z.leb_spec 2 (nHeight e)); vm_compute (default _ _); unfold INT_MAX; lia.
Qed.

Lemma sample_chain_ok d :
  In d (vDeployments sample_params) → chain_ok (VersionBitsConditionChecker sample_signals sample_params d) sample_map.
Proof.
  intros Hd. split.
  - exact sample_map_ok.
  - by destruct Hd as [<-|[<-|[]]].
  - assert (F : map_Forall (λ _ b, nHeight b + 1 < INT_MAX) sample_map)
      by (apply (bool_decide_unpack _); vm_compute; exact I).
    intros p b Hp. exact (F p b Hp).
  - assert (F : map_Forall (λ _ b, match pprev b with
      Some q => mtp sample_map q <? nTime b | None => true end = true) sample_map)
      by (apply (bool_decide_unpack _); vm_compute; exact I).
    intros p b q Hp Hq. specialize (F p b Hp). cbn beta in F. rewrite Hq in F. by apply Z.ltb_lt.
  - intros p q. exact (sample_signal_stays d p q Hd).
Qed.

Lemma sample_checker_ok : chain_ok sample_checker sample_map.
Proof. apply sample_chain_ok. by left. Qed.

(** ** The theorems about the code *)

(** C9: The cached computation of a deployment's state refines the machine of
    BIP 9: on every tree of headers that satisfies [chain_ok] (a positive
    period, heights that fit an int, block times above the median of the
    blocks before, signals that stay once mined), for every block or the null
    pointer, and from every cache whose entries are right, as earlier calls
    leave it ([cache_ok]), [GetStateFor] passes its assertions, dereferences
    no null pointer and returns the state that walking the branch period by
    period from the genesis block gives; the cache it leaves is again correct
    and only grows. *)
Theorem GetStateFor_correct c m p cache :
  chain_ok c m → (∀ q, p = Some q → is_Some (m !! q)) → cache_ok c m cache →
  ∃ cache', GetStateFor c m p cache = Some (bip9_state c m p, cache') ∧
    cache_ok c m cache' ∧ dom cache ⊆ dom cache'.
Proof. intros. by apply GetStateFor_spec. Qed.

Lemma GetStateFor_correct_witness :
  ∃ cache, GetStateFor sample_checker sample_map (Some [12]) ∅ = Some (ACTIVE, cache).
Proof.
  destruct (GetStateFor_correct sample_checker sample_map (Some [12]) ∅ sample_checker_ok) as (k & E & _).
  - intros q [= <-]. eexists. vm_compute. reflexivity.
  - apply cache_ok_empty.
  - exists k. rewrite E. vm_compute (bip9_state _ _ _). reflexivity.
Defined.

(** C10: Along a branch the state of a deployment only moves forward, from
    defined to started, to locked in or failed, to active, and active and
    failed are final: the states are those that two calls return on a tree
    that satisfies [chain_ok], each from any cache whose entries are right, as
    earlier calls leave it ([cache_ok]); the two caches need not be the same.
    *)
Theorem states_progress c m p q b cache1 cache2 s1 s2 cache1' cache2' :
  chain_ok c m → m !! p = Some b → ancestor m p q → is_Some (m !! q) →
  cache_ok c m cache1 → cache_ok c m cache2 →
  GetStateFor c m (Some q) cache1 = Some (s1, cache1') →
  GetStateFor c m (Some p) cache2 = Some (s2, cache2') →
  rtc bip9_step s1 s2 ∧ (terminal s1 → s2 = s1).
Proof.
  intros Hc Hp Ha [d Hq] H1 H2 E1 E2.
  apply (GetStateFor_result c m Hc q d) in E1 as ->; [|done..].
  apply (GetStateFor_result c m Hc p b) in E2 as ->; [|done..].
  enough (H : rtc bip9_step (bip9_state c m (Some q)) (bip9_state c m (Some p)))
    by (split; [done|intros Ht; by apply terminal_step]).
  unfold bip9_state. destruct (BeginTime c =? ALWAYS_ACTIVE); [done|]. destruct (BeginTime c =? NEVER_ACTIVE); [done|].
  destruct (period_end_ancestor c m Hc p q b Hp Ha) as [n ->].
  apply back_steps; [done|]. by destruct (period_start_spec c m Hc p b Hp) as (_ & ? & _).
Qed.

Lemma states_progress_witness :
  ∃ s1 s2 cache1 cache2,
  GetStateFor sample_checker sample_map (Some [8]) ∅ = Some (s1, cache1) ∧
  GetStateFor sample_checker sample_map (Some [12]) ∅ = Some (s2, cache2) ∧
  s1 = LOCKED_IN ∧ s2 = ACTIVE ∧ rtc bip9_step s1 s2.
Proof.
  assert (E : ∀ i s, fst <$> GetStateFor sample_checker sample_map (Some [i]) ∅ = Some s →
    ∃ k, GetStateFor sample_checker sample_map (Some [i]) ∅ = Some (s, k)).
  { intros i s. destruct (GetStateFor _ _ _ _) as [[s' k]|]; intros [= <-]. exists k. reflexivity. }
  destruct (E 8 LOCKED_IN ltac:(vm_compute; reflexivity)) as [k1 E1].
  destruct (E 12 ACTIVE ltac:(vm_compute; reflexivity)) as [k2 E2].
  assert (P : ∃ b, sample_map !! [12] = Some b) by (eexists; vm_compute; reflexivity). destruct P as [b Hb].
  exists LOCKED_IN, ACTIVE, k1, k2. split; [exact E1|]. split; [exact E2|].
  split; [reflexivity|]. split; [reflexivity|].
  refine (proj1 (states_progress sample_checker sample_map [12] [8] b ∅ ∅ LOCKED_IN ACTIVE k1 k2
    sample_checker_ok Hb _ _ _ _ E1 E2)).
  - exists 4%nat. vm_compute. reflexivity.
  - eexists. vm_compute. reflexivity.
  - apply cache_ok_empty.
  - apply cache_ok_empty.
Defined.

(** C11: On a tree that satisfies [chain_ok] and from a cache that satisfies
    [cache_ok] a deployment settles: when the third last period boundary
    before a block is past the start time and the masternode signal, the
    second last one past the timeout, and the last one at the minimum
    activation height, the state is active or failed. *)
Theorem deployment_settles c m p b cache q2 q1 q0 :
  chain_ok c m → m !! p = Some b → cache_ok c m cache →
  period_end c m (Some p) = Some q2 →
  walk m q2 (period_length c) = Some q1 → walk m q1 (period_length c) = Some q0 →
  BeginTime c <= mtp m q0 → SignalHeight c (Some q0) <= height m q0 →
  EndTime c <= mtp m q1 → MinActivationHeight c <= height m q2 + 1 →
  ∃ s cache', GetStateFor c m (Some p) cache = Some (s, cache') ∧ terminal s.
Proof.
  intros Hc Hp Hcache E2 E1 E0 Hb Hs He Hm.
  destruct (GetStateFor_spec c m Hc (Some p) cache) as (cache' & -> & _); [intros ? [= <-]; eauto|done|].
  do 2 eexists. split; [done|]. unfold bip9_state.
  destruct (BeginTime c =? ALWAYS_ACTIVE); [by left|]. destruct (BeginTime c =? NEVER_ACTIVE); [by right|].
  rewrite E2. apply (settles c m Hc q2 q1 q0); try done.
  - rewrite <-E2. by destruct (period_start_spec c m Hc p b Hp) as (_ & ? & _).
  - unfold started. by apply andb_true_iff; split; apply Z.leb_le.
Qed.

Lemma deployment_settles_witness :
  ∃ s cache', GetStateFor sample_checker sample_map (Some [19]) ∅ = Some (s, cache') ∧ terminal s.
Proof.
  assert (P : ∃ b, sample_map !! [19] = Some b) by (eexists; vm_compute; reflexivity). destruct P as [b Hb].
  apply (deployment_settles sample_checker sample_map [19] b ∅ [19] [15] [11] sample_checker_ok Hb
    (cache_ok_empty _ _)); vm_compute; (reflexivity || discriminate).
Defined.

(** C12: For a deployment that is neither always nor never active, on a tree
    that satisfies [chain_ok] and from a cache that satisfies [cache_ok]:
    [GetStateSinceHeightFor] returns the height of the first block of the
    period in which the branch took its present state, and 0 while it is
    defined; [GetStateStatisticsFor] returns the blocks elapsed in the period,
    how many of them signal, the threshold of the present attempt and whether
    it can still be reached, except for a block of the first period, where it
    dereferences a null pointer. *)
Theorem since_height_statistics c m q b cache :
  chain_ok c m → BeginTime c ≠ ALWAYS_ACTIVE ∧ BeginTime c ≠ NEVER_ACTIVE → m !! q = Some b → cache_ok c m cache →
  (∃ h cache', GetStateSinceHeightFor c m (Some q) cache = Some (h, cache') ∧ cache_ok c m cache' ∧
     match period_end c m (Some q) with
     | Some e => if bool_decide (bip9_state c m (Some q) = DEFINED) then h = 0
                 else ∃ r, first_with c m (bip9_state c m (Some q)) e r ∧ h = height m r + 1
     | None => h = 0
     end) ∧
  match period_end c m (Some q) with
  | None => nHeight b + 1 < Period c ∧ GetStateStatisticsFor c m (Some q) cache = None
  | Some e => ∃ s cache', GetStateStatisticsFor c m (Some q) cache = Some (s, cache') ∧ cache_ok c m cache' ∧
      period s = Period c ∧ elapsed s = (nHeight b + 1) mod Period c ∧
      count s = signalled c m q (Z.to_nat (elapsed s)) ∧
      threshold s = Threshold c (if bool_decide (bip9_state c m (Some e) = STARTED)
        then (height m e + 1 - snd (bip9_at c m (Some e))) / Period c else 0) ∧
      possible s = (threshold s <=? count s + (Period c - elapsed s))
  end.
Proof.
  intros Hc Hr Hq Hcache. split; [|by apply GetStateStatisticsFor_spec].
  apply (GetStateSinceHeightFor_spec c m Hc Hr); [intros ? [= <-]; eauto|done].
Qed.

Lemma since_height_statistics_witness :
  (∃ h cache', GetStateSinceHeightFor sample_checker sample_map (Some [8]) ∅ = Some (h, cache') ∧
     ∃ r, first_with sample_checker sample_map LOCKED_IN [7] r ∧ h = height sample_map r + 1) ∧
  GetStateStatisticsFor sample_checker sample_map (Some [2]) ∅ = None.
Proof.
  assert (P : ∀ i, bool_decide (is_Some (sample_map !! [i])) = true → ∃ b, sample_map !! [i] = Some b).
  { intros i H. apply bool_decide_eq_true in H. exact H. }
  destruct (P 8 ltac:(vm_compute; reflexivity)) as [b8 H8].
  destruct (P 2 ltac:(vm_compute; reflexivity)) as [b2 H2].
  assert (R : BeginTime sample_checker ≠ ALWAYS_ACTIVE ∧ BeginTime sample_checker ≠ NEVER_ACTIVE)
    by (split; vm_compute; discriminate).
  assert (E8 : period_end sample_checker sample_map (Some [8]) = Some [7]) by (vm_compute; reflexivity).
  assert (E2 : period_end sample_checker sample_map (Some [2]) = None) by (vm_compute; reflexivity).
  assert (S8 : bip9_state sample_checker sample_map (Some [8]) = LOCKED_IN) by (vm_compute; reflexivity).
  split.
  - destruct (since_height_statistics sample_checker sample_map [8] b8 ∅ sample_checker_ok R H8 (cache_ok_empty _ _))
      as [(h & k & E & _ & H) _].
    rewrite E8, S8 in H. exists h, k. exact (conj E H).
  - destruct (since_height_statistics sample_checker sample_map [2] b2 ∅ sample_checker_ok R H2 (cache_ok_empty _ _))
      as [_ H].
    rewrite E2 in H. exact (proj2 H).
Defined.

(** C13: The version of a new block has bit 29 and the bits of the deployments
    that are started or locked in, and no other, where the states are those of
    the machine with the thresholds computed in unbounded integers; computing
    it fails no assertion and keeps the caches of all deployments correct.
    This holds on trees and caches that satisfy [chain_ok] and [cache_ok] for
    each of the two deployments, whose bits are below 29, when the parameters
    are not negative and fit an int, and as long as the product of the period
    with the square of the number of attempts since the deployment started on
    the branch fits an int, in which the code computes it. *)
Theorem ComputeBlockVersion_correct signals params m p m_caches :
  deployments_ok signals params m → (∀ q, p = Some q → is_Some (m !! q)) →
  caches_ok signals params m m_caches →
  (∀ d, In d (vDeployments params) → deployment_fits params d ∧ attempt_fits params d (attempts signals params m d p)) →
  ∃ v m_caches', ComputeBlockVersion signals params m p m_caches = Some (v, m_caches') ∧
    caches_ok signals params m m_caches' ∧
    ∀ i, 0 <= i → (Z.testbit v i = true ↔ i = 29 ∨
      ∃ d, In d (vDeployments params) ∧ bit d = i ∧
        (bip9_state (exact_checker signals params d) m p = LOCKED_IN ∨
         bip9_state (exact_checker signals params d) m p = STARTED)).
Proof.
  intros Hd Hp Hcs Hfit. destruct (ComputeBlockVersion_spec signals params m Hd p m_caches Hp Hcs) as (v & cs & E & H & Hb).
  exists v, cs. split; [done|]. split; [done|]. intros i Hi. rewrite (Hb i Hi). unfold signals_bit.
  f_equiv. f_equiv. intros d. split; intros (Hin & Hbit & Hst); destruct (Hfit d Hin) as [Hdf Ha];
    rewrite (bip9_state_exact signals params m d p Hp Hdf (proj1 (proj2 Hd d Hin)) Ha) in *; done.
Qed.

Lemma ComputeBlockVersion_correct_witness :
  ∃ v m_caches', ComputeBlockVersion sample_signals sample_params sample_map (Some [8]) [∅; ∅] = Some (v, m_caches') ∧
    Z.testbit v 5 = true.
Proof.
  destruct (ComputeBlockVersion_correct sample_signals sample_params sample_map (Some [8]) [∅; ∅]) as (v & k & E & _ & B).
  - split; [reflexivity|]. intros d Hd. split; [exact (sample_chain_ok d Hd)|].
    destruct Hd as [<-|[<-|[]]]; (split; vm_compute; (reflexivity || discriminate)).
  - intros q [= <-]. eexists. vm_compute. reflexivity.
  - exact (Clear_ok sample_signals sample_params sample_map [∅; ∅] eq_refl).
  - intros d [<-|[<-|[]]]; (split; [repeat split; vm_compute; discriminate|intros _; vm_compute; discriminate]).
  - exists v, k. split; [exact E|]. apply B; [lia|]. right. exists (sample_deployment 5 true).
    split; [right; left; reflexivity|]. split; [reflexivity|]. right. vm_compute. reflexivity.
Defined.

End Versionbits.
