(* ===== verification/Chain.v ===== *)
(** The active chain: [CChain] of [src/chain.h] and [src/chain.cpp].

    [vChain] maps a height to the entry at that height.  [chain_of m tip] is the
    chain it stands for: the ancestors of the tip, by height.  [SetTip] always
    arrives at it, although it stops at the first entry that is already in
    place; [FindFork] finds the last common ancestor with the tip; the locator
    runs over ancestors from the entry down to the genesis block; the binary
    search of [FindEarliestAtLeast] finds the first block that qualifies. *)
From S2P Require Import Prelude SphTypes Uint256 Block Arith256 BlockIndex.
From stdpp Require Import list gmap sorting.
#[local] Open Scope Z_scope.

(** ** The code *)

Abbreviation CChain := (list (option ptr)).

Definition Genesis (vChain : CChain) : option ptr :=
  if (0 <? length vChain)%nat then default None (vChain !! 0%nat) else None.
Definition Tip (vChain : CChain) : option ptr :=
  if (0 <? length vChain)%nat then default None (vChain !! (length vChain - 1)%nat) else None.

(** [operator[]]. *)
Definition at_height (vChain : CChain) (nHeight : Z) : option ptr :=
  if (nHeight <? 0) || (Z.of_nat (length vChain) <=? nHeight) then None
  else default None (vChain !! Z.to_nat nHeight).

Definition Contains (m : BlockMap) (vChain : CChain) (pindex : ptr) : option bool :=
  b ← m !! pindex; Some (bool_decide (at_height vChain (nHeight b) = Some pindex)).

Definition Next (m : BlockMap) (vChain : CChain) (pindex : ptr) : option (option ptr) :=
  c ← Contains m vChain pindex;
  b ← m !! pindex;
  Some (if c : bool then at_height vChain (nHeight b + 1) else None).

Definition Height (vChain : CChain) : Z := Z.of_nat (length vChain) - 1.

(** The loop of [SetTip]: it goes down one height at a turn. *)
Fixpoint set_tip_loop (fuel : nat) (m : BlockMap) (vChain : CChain) (pindex : option ptr) : option CChain :=
  match pindex with
  | None => Some vChain
  | Some p =>
      b ← m !! p;
      x ← vChain !! Z.to_nat (nHeight b);
      if decide (x = Some p) then Some vChain
      else match fuel with
           | O => None
           | S fuel => set_tip_loop fuel m (<[Z.to_nat (nHeight b) := Some p]> vChain) (pprev b)
           end
  end.

Definition SetTip (m : BlockMap) (vChain : CChain) (pindex : option ptr) : option CChain :=
  match pindex with
  | None => Some []
  | Some p => b ← m !! p; set_tip_loop (S (Z.to_nat (nHeight b))) m (resize (S (Z.to_nat (nHeight b))) None vChain) pindex
  end.

Fixpoint fork_loop (fuel : nat) (m : BlockMap) (vChain : CChain) (pindex : option ptr) : option (option ptr) :=
  match pindex with
  | None => Some None
  | Some p =>
      c ← Contains m vChain p;
      if c : bool then Some pindex
      else match fuel with O => None | S fuel => b ← m !! p; fork_loop fuel m vChain (pprev b) end
  end.

Definition FindFork (m : BlockMap) (vChain : CChain) (pindex : option ptr) : option (option ptr) :=
  match pindex with
  | None => Some None
  | Some p =>
      b ← m !! p;
      pindex ← (if Height vChain <? nHeight b then GetAncestor m p (Height vChain) else Some pindex);
      fork_loop (S (Z.to_nat (nHeight b))) m vChain pindex
  end.

(** The loop of [GetLocator]; the height goes down at every turn.  A block's
    hash is its key. *)
Fixpoint locator_loop (fuel : nat) (m : BlockMap) (vChain : CChain) (pindex : option ptr) (nStep : Z)
    (vHave : list ptr) : option (list ptr) :=
  match pindex with
  | None => Some vHave
  | Some p =>
      b ← m !! p;
      let vHave := vHave ++ [p] in
      if nHeight b =? 0 then Some vHave
      else
        let h := Z.max (nHeight b - nStep) 0 in
        c ← Contains m vChain p;
        pindex ← (if c : bool then Some (at_height vChain h) else GetAncestor m p h);
        let nStep := if (10 <? length vHave)%nat then nStep * 2 else nStep in
        match fuel with O => None | S fuel => locator_loop fuel m vChain pindex nStep vHave end
  end.

Definition GetLocator (m : BlockMap) (vChain : CChain) (pindex : option ptr) : option (list ptr) :=
  let pindex := match pindex with None => Tip vChain | Some p => Some p end in
  match pindex with
  | None => Some []
  | Some p => b ← m !! p; locator_loop (Z.to_nat (nHeight b)) m vChain pindex 1 []
  end.

(** [std::lower_bound]: halve the range until it is empty. *)
Fixpoint lower_bound (fuel : nat) (comp : nat → option bool) (first len : nat) : option nat :=
  match len with
  | O => Some first
  | _ =>
      match fuel with
      | O => None
      | S fuel =>
          let half := (len / 2)%nat in
          c ← comp (first + half)%nat;
          if c : bool then lower_bound fuel comp (first + half + 1) (len - half - 1)
          else lower_bound fuel comp first half
      end
  end.

Definition FindEarliestAtLeast (m : BlockMap) (vChain : CChain) (time height : Z) : option (option ptr) :=
  let comp i := x ← vChain !! i; p ← x; b ← m !! p; Some ((nTimeMax b <? time) || (nHeight b <? height)) in
  lower ← lower_bound (length vChain) comp 0 (length vChain);
  Some (if (lower =? length vChain)%nat then None else default None (vChain !! lower)).

(** ** The chain of a tip *)

Definition chain_of (m : BlockMap) (tip : option ptr) : CChain :=
  match tip with
  | None => []
  | Some p => match m !! p with
              | Some b => (λ i, walk m p (Z.to_nat (nHeight b) - i)) <$> seq 0 (S (Z.to_nat (nHeight b)))
              | None => []
              end
  end.

Definition valid_tip (m : BlockMap) (tip : option ptr) : Prop := ∀ p, tip = Some p → is_Some (m !! p).

Section ActiveChain.
Context (m : BlockMap) (Hok : index_ok m).

Lemma chain_lookup p b i :
  m !! p = Some b →
  chain_of m (Some p) !! i = if (i <=? Z.to_nat (nHeight b))%nat then Some (walk m p (Z.to_nat (nHeight b) - i)) else None.
Proof.
  intros Hp. unfold chain_of. rewrite Hp, list_lookup_fmap. destruct (Nat.leb_spec i (Z.to_nat (nHeight b))).
  - rewrite lookup_seq_lt by lia. done.
  - rewrite lookup_seq_ge by lia. done.
Qed.

Lemma length_chain p b : m !! p = Some b → length (chain_of m (Some p)) = S (Z.to_nat (nHeight b)).
Proof. intros Hp. unfold chain_of. by rewrite Hp, length_fmap, length_seq. Qed.

(** Below an entry of the chain come its ancestors. *)
Definition closed_below (v : CChain) (n : nat) : Prop :=
  ∀ h p c, (h < n)%nat → v !! h = Some (Some p) → m !! p = Some c → nHeight c = Z.of_nat h →
  ∀ i, (i <= h)%nat → v !! i = Some (walk m p (h - i)).

Lemma chain_closed tip n : valid_tip m tip → closed_below (chain_of m tip) n.
Proof.
  intros Ht h p c Hn Hv Hp Hh i Hi. destruct tip as [t|]; [|done]. destruct (Ht t eq_refl) as [b Hb].
  rewrite (chain_lookup t b) in * by done. destruct (Nat.leb_spec h (Z.to_nat (nHeight b))); [|done].
  rewrite (proj2 (Nat.leb_le i _)) by lia. injection Hv as Hv. f_equal.
  replace (Z.to_nat (nHeight b) - i)%nat with ((Z.to_nat (nHeight b) - h) + (h - i))%nat by lia.
  by rewrite walk_add, Hv.
Qed.

Lemma closed_insert v n h x : closed_below v n → (h = n - 1)%nat → closed_below (<[h := x]> v) h.
Proof.
  intros Hc -> k p c Hk Hv Hp Hh i Hi. rewrite list_lookup_insert_ne in * by lia.
  apply (Hc k p c); (done || lia).
Qed.

Lemma closed_resize v n k : closed_below v k → (k = length v) → closed_below (resize n None v) n.
Proof.
  intros Hc -> h p c Hn Hv Hp Hh i Hi.
  destruct (decide (h < length v)%nat); [|by rewrite lookup_resize_new in Hv by lia].
  rewrite lookup_resize in * by lia. by apply (Hc h p c).
Qed.

(** The entry at height [n - 1] on the way down from [p]. *)
Definition descent (p : ptr) (H n : nat) : option ptr := match n with O => None | S h => walk m p (H - h) end.

Lemma set_tip_loop_spec p b n fuel v :
  m !! p = Some b → let H := Z.to_nat (nHeight b) in
  (n <= S H)%nat → (n <= fuel)%nat → length v = S H →
  (∀ i, (n <= i <= H)%nat → v !! i = Some (walk m p (H - i))) → closed_below v n →
  set_tip_loop fuel m v (descent p H n) = Some (chain_of m (Some p)).
Proof.
  intros Hp H. revert fuel v. induction n as [|n IH]; intros fuel v Hn Hf Hl Hv Hc.
  { cbn [descent]. destruct fuel; cbn [set_tip_loop]; f_equal; apply list_eq; intros i; rewrite (chain_lookup p b) by done;
      (destruct (Nat.leb_spec i (Z.to_nat (nHeight b))); [apply Hv; unfold H; lia|by apply lookup_ge_None_2; unfold H in Hl; lia]). }
  pose proof (height_nonneg m Hok p b Hp). cbn [descent].
  destruct (walk_total m Hok p b (H - n) Hp) as (q & c & Hw & Hq & Eq); [unfold H; lia|]. rewrite Hw.
  assert (En : Z.to_nat (nHeight c) = n) by (unfold H in *; lia).
  destruct fuel as [|fuel]; [lia|]. cbn [set_tip_loop]. rewrite Hq. cbn [mbind option_bind]. rewrite En.
  destruct (lookup_lt_is_Some_2 v n) as [x Hx]; [lia|]. rewrite Hx. cbn [mbind option_bind].
  destruct (decide (x = Some q)) as [->|Hne].
  - f_equal. apply list_eq. intros i. rewrite (chain_lookup p b) by done. fold H.
    destruct (Nat.leb_spec i H); [|by apply lookup_ge_None_2; lia].
    destruct (decide (S n <= i)%nat); [apply Hv; lia|]. rewrite (Hc n q c) by (done || lia). f_equal.
    replace (H - i)%nat with ((H - n) + (n - i))%nat by lia. by rewrite walk_add, Hw.
  - replace (pprev c) with (descent p H n).
    + apply IH; [lia|lia|by rewrite length_insert| |].
      * intros i Hi. destruct (decide (i = n)) as [->|]; [rewrite list_lookup_insert_eq by lia; by rewrite Hw|].
        rewrite list_lookup_insert_ne by lia. apply Hv. lia.
      * apply (closed_insert v (S n)); [done|lia].
    + destruct n as [|n]; cbn [descent].
      * destruct (Hok q c Hq) as [_ Hcx]. destruct (pprev c); [|done]. destruct Hcx as (? & ? & ? & ? & ? & _). lia.
      * replace (H - n)%nat with (H - S n + 1)%nat by lia. rewrite walk_add, Hw. cbn [mbind option_bind walk].
        rewrite Hq. cbn [mbind option_bind]. by destruct (pprev c).
Qed.

Lemma SetTip_spec old new :
  valid_tip m old → valid_tip m new → SetTip m (chain_of m old) new = Some (chain_of m new).
Proof.
  intros Ho Hn. destruct new as [p|]; [|done]. destruct (Hn p eq_refl) as [b Hb]. unfold SetTip. rewrite Hb.
  cbn [mbind option_bind]. set (H := Z.to_nat (nHeight b)).
  replace (Some p) with (descent p H (S H)) at 1 by (cbn [descent]; by rewrite Nat.sub_diag).
  apply (set_tip_loop_spec p b (S H)); [done|done|done|by rewrite length_resize|unfold H; lia|].
  eapply closed_resize; [by apply chain_closed|done].
Qed.

(** ** Membership and forks *)

Lemma Contains_spec tip q c :
  valid_tip m tip → m !! q = Some c →
  ∃ r, Contains m (chain_of m tip) q = Some r ∧ (r = true ↔ ∃ p, tip = Some p ∧ ancestor m p q).
Proof.
  intros Ht Hq. unfold Contains. rewrite Hq. cbn [mbind option_bind]. eexists. split; [done|].
  rewrite bool_decide_eq_true. unfold at_height. pose proof (height_nonneg m Hok q c Hq).
  destruct tip as [p|]; cycle 1.
  { cbn. split; [by destruct (_ || _)|]. intros (? & ? & _). done. }
  destruct (Ht p eq_refl) as [b Hb]. pose proof (height_nonneg m Hok p b Hb). rewrite (length_chain p b) by done.
  destruct (Z.ltb_spec (nHeight c) 0); [lia|]. cbn [orb]. destruct (Z.leb_spec (Z.of_nat (S (Z.to_nat (nHeight b)))) (nHeight c)).
  - split; [done|]. intros (p' & [= <-] & [n Hn]).
    destruct (walk_meet m Hok p q b c n 0 q Hb Hq Hn eq_refl). lia.
  - rewrite (chain_lookup p b), (proj2 (Nat.leb_le _ _)) by (done || lia). cbn [default]. split.
    + intros Hw. exists p. split; [done|]. by eexists.
    + intros (p' & [= <-] & [n Hn]). destruct (walk_meet m Hok p q b c n 0 q Hb Hq Hn eq_refl).
      by replace (Z.to_nat (nHeight b) - Z.to_nat (nHeight c))%nat with n by lia.
Qed.

Lemma fork_loop_spec tip fuel p b :
  valid_tip m tip → m !! p = Some b → nHeight b < Z.of_nat fuel →
  ∃ r, fork_loop fuel m (chain_of m tip) (Some p) = Some r ∧
  match r with
  | Some q => ∃ n t, walk m p n = Some q ∧ tip = Some t ∧ ancestor m t q ∧
      ∀ k x, (k < n)%nat → walk m p k = Some x → ∀ t, tip = Some t → ¬ ancestor m t x
  | None => ∀ k x, walk m p k = Some x → ∀ t, tip = Some t → ¬ ancestor m t x
  end.
Proof.
  intros Ht. revert p b. induction fuel as [|fuel IH]; intros p b Hp Hf; pose proof (height_nonneg m Hok p b Hp); [lia|].
  cbn [fork_loop]. destruct (Contains_spec tip p b Ht Hp) as ([] & -> & Hc); cbn [mbind option_bind].
  { exists (Some p). split; [done|]. destruct (proj1 Hc eq_refl) as (t & Et & Ha). exists 0%nat, t.
    do 3 (split; [done|]). lia. }
  assert (Hno : ∀ t, tip = Some t → ¬ ancestor m t p) by (intros t Et Ha; discriminate (proj2 Hc (ex_intro _ t (conj Et Ha)))).
  rewrite Hp. cbn [mbind option_bind]. destruct (Hok p b Hp) as [_ Hb].
  assert (W : ∀ k, walk m p (S k) = (q ← pprev b; walk m q k)) by (intros k; cbn [walk]; by rewrite Hp).
  destruct (pprev b) as [q|].
  - destruct Hb as (c & _ & Hq & Hc0 & Eh & _). destruct (IH q c Hq ltac:(lia)) as (r & -> & Hr).
    exists r. split; [done|]. destruct r as [r|].
    + destruct Hr as (n & t & Wn & Et & Ha & Hmin). exists (S n), t. rewrite W. do 3 (split; [done|]).
      intros [|k] x Hk; [cbn [walk]; intros [= <-]; done|]. rewrite W. apply Hmin. lia.
    + intros [|k] x; [cbn [walk]; intros [= <-]; done|]. rewrite W. apply Hr.
  - exists None. destruct fuel; (split; [done|]); (intros [|k] x; [cbn [walk]; intros [= <-]; done|by rewrite W]).
Qed.

(** The highest common ancestor with the tip. *)
Definition fork_point (t p : ptr) (r : option ptr) : Prop :=
  match r with
  | Some q => ancestor m t q ∧ ancestor m p q ∧
      ∀ x ex, ancestor m t x → ancestor m p x → m !! x = Some ex → ∃ eq, m !! q = Some eq ∧ nHeight ex <= nHeight eq
  | None => ∀ x, ancestor m t x → ¬ ancestor m p x
  end.

Lemma ancestor_entry p b q : m !! p = Some b → ancestor m p q → ∃ n c, walk m p n = Some q ∧ m !! q = Some c ∧ nHeight c = nHeight b - Z.of_nat n.
Proof.
  intros Hp [n Hn]. destruct (Z.lt_ge_cases (nHeight b) (Z.of_nat n)); [by rewrite (walk_root m Hok p b) in Hn|].
  destruct (walk_total m Hok p b n Hp) as (q' & c & Hq & Hc & Ec); [lia|]. exists n, c.
  assert (q' = q) as -> by congruence. done.
Qed.

Lemma fork_point_unique t p r1 r2 bt :
  m !! t = Some bt → fork_point t p r1 → fork_point t p r2 → r1 = r2.
Proof.
  intros Ht H1 H2. destruct r1 as [q1|], r2 as [q2|]; cbn in *; [| | |done].
  - destruct H1 as (A1 & B1 & M1), H2 as (A2 & B2 & M2).
    destruct (ancestor_entry t bt q1 Ht A1) as (n1 & c1 & W1 & C1 & E1).
    destruct (ancestor_entry t bt q2 Ht A2) as (n2 & c2 & W2 & C2 & E2).
    destruct (M1 q2 c2 A2 B2 C2) as (d1 & D1 & L1). destruct (M2 q1 c1 A1 B1 C1) as (d2 & D2 & L2).
    assert (d1 = c1) as -> by congruence. assert (d2 = c2) as -> by congruence.
    assert (n1 = n2) as -> by lia. congruence.
  - destruct H1 as (A1 & B1 & _). by destruct (H2 q1 A1).
  - destruct H2 as (A2 & B2 & _). by destruct (H1 q2 A2).
Qed.

Lemma FindFork_spec t p bt b :
  m !! t = Some bt → m !! p = Some b →
  ∃ r, FindFork m (chain_of m (Some t)) (Some p) = Some r ∧ fork_point t p r.
Proof.
  intros Ht Hp. assert (Hv : valid_tip m (Some t)) by (intros ? [= <-]; eauto).
  pose proof (height_nonneg m Hok p b Hp). pose proof (height_nonneg m Hok t bt Ht).
  assert (EH : Height (chain_of m (Some t)) = nHeight bt) by (unfold Height; rewrite (length_chain t bt) by done; lia).
  assert (Hstart : ∃ i s c, (if Height (chain_of m (Some t)) <? nHeight b then GetAncestor m p (Height (chain_of m (Some t)))
                    else Some (Some p)) = Some (Some s) ∧ walk m p i = Some s ∧ m !! s = Some c ∧ nHeight c <= nHeight b
                    ∧ Z.of_nat i <= Z.max 0 (nHeight b - nHeight bt)).
  { rewrite EH. destruct (Z.ltb_spec (nHeight bt) (nHeight b)).
    - rewrite (GetAncestor_walk m Hok p b) by done. rewrite (proj2 (Z.leb_le _ _)), (proj2 (Z.leb_le _ _)) by lia.
      destruct (walk_total m Hok p b (Z.to_nat (nHeight b - nHeight bt)) Hp) as (s & c & Hs & Hc & Ec); [lia|].
      cbn [andb]. rewrite Hs. exists (Z.to_nat (nHeight b - nHeight bt)), s, c. repeat split; (done || lia).
    - exists 0%nat, p, b. repeat split; (done || lia). }
  destruct Hstart as (i & s & c & Es & Ws & Hs & Hle & Hi). unfold FindFork. rewrite Hp. cbn [mbind option_bind].
  rewrite Es. cbn [mbind option_bind].
  destruct (fork_loop_spec (Some t) (S (Z.to_nat (nHeight b))) s c Hv Hs ltac:(lia)) as (r & -> & Hr).
  exists r. split; [done|].
  assert (Hcommon : ∀ x, ancestor m t x → ancestor m p x → ∃ k, walk m s k = Some x).
  { intros x [n1 H1] [n2 H2]. destruct (walk_meet m Hok t p bt b n1 n2 x Ht Hp H1 H2) as [Em Hnn].
    destruct (walk_split m p i n2 x ltac:(lia) H2) as (s' & S1 & S2). assert (s' = s) as -> by congruence. eauto. }
  destruct r as [q|]; cbn.
  - destruct Hr as (n & t' & Wn & [= <-] & Ha & Hmin). split; [done|].
    split; [exists (i + n)%nat; by rewrite walk_add, Ws|]. intros x ex Xa Xb Hx.
    destruct (Hcommon x Xa Xb) as (k & Hk).
    destruct (walk_meet m Hok s s c c n n q Hs Hs Wn Wn) as [_ Hn]. destruct (walk_meet m Hok s s c c k k x Hs Hs Hk Hk) as [_ Hkk].
    destruct (walk_total m Hok s c n Hs) as (q' & eq & Q & Hq & Eq); [lia|]. assert (q' = q) as -> by congruence.
    destruct (walk_total m Hok s c k Hs) as (x' & ex' & X & Hx' & Ex); [lia|]. assert (x' = x) as -> by congruence.
    exists eq. split; [done|]. assert (ex' = ex) as -> by congruence.
    destruct (decide (k < n)%nat) as [Hlt|]; [|lia]. by destruct (Hmin k x Hlt Hk t eq_refl).
  - intros x Xa Xb. destruct (Hcommon x Xa Xb) as (k & Hk). by apply (Hr k x Hk t eq_refl).
Qed.

Lemma FindFork_common t p bt b :
  m !! t = Some bt → m !! p = Some b → FindFork m (chain_of m (Some t)) (Some p) = LastCommonAncestor m t p.
Proof.
  intros Ht Hp. destruct (FindFork_spec t p bt b Ht Hp) as (r1 & -> & H1).
  destruct (LastCommonAncestor_spec m t p bt b Hok Ht Hp) as (r2 & -> & H2).
  f_equal. by apply (fork_point_unique t p r1 r2 bt).
Qed.

(** ** Locators *)

Definition higher (x y : ptr) : Prop :=
  ∃ ex ey, m !! x = Some ex ∧ m !! y = Some ey ∧ nHeight ey < nHeight ex.

(** Both ways of stepping back lead to the same ancestor. *)
Lemma next_ancestor tip p b h :
  valid_tip m tip → m !! p = Some b → 0 <= h <= nHeight b →
  ∃ c, Contains m (chain_of m tip) p = Some c ∧
  (if c : bool then Some (at_height (chain_of m tip) h) else GetAncestor m p h) = Some (walk m p (Z.to_nat (nHeight b - h))).
Proof.
  intros Ht Hp Hh. destruct (Contains_spec tip p b Ht Hp) as (c & Ec & Hc). exists c. split; [done|].
  destruct c; [|rewrite (GetAncestor_walk m Hok p b) by done;
    by rewrite (proj2 (Z.leb_le _ _)), (proj2 (Z.leb_le _ _)) by lia].
  destruct (proj1 Hc eq_refl) as (t & -> & [n Hn]). destruct (Ht t eq_refl) as [bt Hbt].
  destruct (walk_meet m Hok t p bt b n 0 p Hbt Hp Hn eq_refl). unfold at_height. rewrite (length_chain t bt) by done.
  rewrite (proj2 (Z.ltb_ge h 0)), (proj2 (Z.leb_gt _ h)) by lia. cbn [orb].
  rewrite (chain_lookup t bt), (proj2 (Nat.leb_le _ _)) by (done || lia). cbn [default]. f_equal.
  replace (Z.to_nat (nHeight bt) - Z.to_nat h)%nat with (n + Z.to_nat (nHeight b - h))%nat by lia.
  by rewrite walk_add, Hn.
Qed.

Lemma ancestor_trans p q r : ancestor m p q → ancestor m q r → ancestor m p r.
Proof. intros [i Hi] [j Hj]. exists (i + j)%nat. by rewrite walk_add, Hi. Qed.

Lemma locator_loop_spec tip fuel p b step have (k : nat) :
  valid_tip m tip → m !! p = Some b → nHeight b <= Z.of_nat fuel → 1 <= step →
  nHeight b <= step * (2 ^ Z.of_nat k - 1) →
  ∃ l, locator_loop fuel m (chain_of m tip) (Some p) step have = Some (have ++ p :: l)
  ∧ Forall (ancestor m p) l ∧ Sorted higher (p :: l)
  ∧ (∃ g, last (p :: l) = Some g ∧ has_height m g = Some 0)
  ∧ (length l <= (10 - length have) + k)%nat.
Proof.
  intros Ht. revert p b step have k. induction fuel as [|fuel IH]; intros p b step have k Hp Hf Hs Hk;
    pose proof (height_nonneg m Hok p b Hp); cbn [locator_loop]; rewrite Hp; cbn [mbind option_bind];
    destruct (Z.eqb_spec (nHeight b) 0) as [E0|E0];
    try (exists []; split; [done|]; split; [constructor|]; split; [by repeat constructor|];
         split; [exists p; split; [done|]; unfold has_height; rewrite Hp; cbn; by rewrite E0|cbn; lia]); [lia|].
  set (h := Z.max (nHeight b - step) 0).
  destruct (next_ancestor tip p b h Ht Hp ltac:(lia)) as (c & -> & Hn). cbn [mbind option_bind]. rewrite Hn. cbn [mbind option_bind].
  destruct (walk_total m Hok p b (Z.to_nat (nHeight b - h)) Hp ltac:(lia)) as (q & cq & Hq & Cq & Eq). rewrite Hq.
  rewrite length_app. cbn [length].
  destruct k as [|k]; [change (2 ^ Z.of_nat 0 - 1) with 0 in Hk; lia|].
  assert (Hpow : 2 ^ Z.of_nat (S k) = 2 * 2 ^ Z.of_nat k) by (rewrite Nat2Z.inj_succ, Z.pow_succ_r; lia).
  assert (0 < 2 ^ Z.of_nat k) by (apply Z.pow_pos_nonneg; lia).
  assert (Hrest : ∃ step' k', (if (10 <? length have + 1)%nat then step * 2 else step) = step' ∧ 1 <= step'
      ∧ nHeight cq <= step' * (2 ^ Z.of_nat k' - 1) ∧ (1 + (10 - (length have + 1)) + k' <= (10 - length have) + S k)%nat).
  { destruct (Nat.ltb_spec 10 (length have + 1)); [exists (step * 2), k|exists step, (S k)];
      (split; [done|]; split; [lia|]; split; [|lia]); rewrite ?Hpow in *; nia. }
  destruct Hrest as (step' & k' & -> & Hs' & Hk' & Hlen).
  destruct (IH q cq step' (have ++ [p]) k' Cq ltac:(lia) Hs' Hk') as (l & -> & Hanc & Hsort & Hlast & Hl).
  exists (q :: l). rewrite <-app_assoc. split; [done|]. assert (Hpq : ancestor m p q) by by eexists.
  split; [constructor; [done|]; eapply Forall_impl; [exact Hanc|]; intros x; by apply ancestor_trans|].
  split; [constructor; [done|]; constructor; exists b, cq; repeat split; (done || lia)|].
  split; [done|]. rewrite length_app in Hl. cbn [length] in *. lia.
Qed.

(** ** The earliest block *)

Lemma lower_bound_spec (comp : nat → option bool) (f : nat → bool) fuel first len :
  (len <= fuel)%nat → (∀ i, (first <= i < first + len)%nat → comp i = Some (f i)) →
  (∀ i j, (first <= i <= j)%nat → (j < first + len)%nat → f i = false → f j = false) →
  ∃ r, lower_bound fuel comp first len = Some r ∧ (first <= r <= first + len)%nat
  ∧ (∀ i, (first <= i < r)%nat → f i = true) ∧ (∀ i, (r <= i < first + len)%nat → f i = false).
Proof.
  revert first len. induction fuel as [|fuel IH]; intros first len Hf Hc Hm.
  { destruct len; [|lia]. exists first. repeat split; (done || lia). }
  destruct len as [|n]; [exists first; repeat split; (done || lia)|]. cbn [lower_bound].
  set (len := S n) in *. pose proof (Nat.div_lt len 2 ltac:(lia) ltac:(lia)) as Hh. set (half := (len / 2)%nat) in *.
  rewrite Hc by lia. cbn [mbind option_bind]. destruct (f (first + half)%nat) eqn:Ef.
  - destruct (IH (first + half + 1)%nat (len - half - 1)%nat) as (r & -> & Hr & Ht & Hfa); [lia|intros; apply Hc; lia| |].
    { intros i j Hi Hj. apply Hm; lia. }
    exists r. split; [done|]. split; [lia|]. split; [|intros; apply Hfa; lia].
    intros i Hi. destruct (decide (first + half + 1 <= i)%nat); [apply Ht; lia|].
    destruct (f i) eqn:Ei; [done|]. rewrite (Hm i (first + half)%nat) in Ef by (done || lia). done.
  - destruct (IH first half) as (r & -> & Hr & Ht & Hfa); [lia|intros; apply Hc; lia| |].
    { intros i j Hi Hj. apply Hm; lia. }
    exists r. split; [done|]. split; [lia|]. split; [done|].
    intros i Hi. destruct (decide (i < first + half)%nat); [apply Hfa; lia|]. apply (Hm (first + half)%nat); (done || lia).
Qed.

Lemma time_max_mono p b n q c : m !! p = Some b → walk m p n = Some q → m !! q = Some c → nTimeMax c <= nTimeMax b.
Proof.
  revert p b. induction n as [|n IH]; intros p b Hp Hw Hq; cbn [walk] in Hw.
  { injection Hw as <-. assert (b = c) as -> by congruence. lia. }
  rewrite Hp in Hw. cbn [mbind option_bind] in Hw. destruct (Hok p b Hp) as [_ Hb].
  destruct (pprev b) as [r|]; [|done]. destruct Hb as (d & _ & Hr & _ & _ & _ & _ & Et & _).
  pose proof (IH r d Hr Hw Hq). lia.
Qed.

(** The entry at a height of the chain. *)
Lemma chain_entry t bt i :
  m !! t = Some bt → (i <= Z.to_nat (nHeight bt))%nat →
  ∃ p b, chain_of m (Some t) !! i = Some (Some p) ∧ m !! p = Some b ∧ nHeight b = Z.of_nat i
  ∧ walk m t (Z.to_nat (nHeight bt) - i) = Some p.
Proof.
  intros Ht Hi. pose proof (height_nonneg m Hok t bt Ht).
  destruct (walk_total m Hok t bt (Z.to_nat (nHeight bt) - i) Ht ltac:(lia)) as (p & b & Hw & Hb & Eb).
  exists p, b. rewrite (chain_lookup t bt), (proj2 (Nat.leb_le _ _)), Hw by (done || lia). repeat split; (done || lia).
Qed.

(** The comparison of the binary search, on an entry. *)
Definition early (time height : Z) (b : CBlockIndex) : bool := (nTimeMax b <? time) || (nHeight b <? height).

Lemma lower_bound_found tip time height :
  valid_tip m tip →
  ∃ r, FindEarliestAtLeast m (chain_of m tip) time height = Some r ∧
  match r with
  | Some q => ∃ b, m !! q = Some b ∧ chain_of m tip !! Z.to_nat (nHeight b) = Some (Some q) ∧ early time height b = false
      ∧ ∀ p e, Contains m (chain_of m tip) p = Some true → m !! p = Some e → nHeight e < nHeight b → early time height e = true
  | None => ∀ p e, Contains m (chain_of m tip) p = Some true → m !! p = Some e → early time height e = true
  end.
Proof.
  intros Hv. destruct tip as [t|]; cycle 1.
  { exists None. split; [done|]. intros p e Hc He. destruct (Contains_spec None p e Hv He) as (r & Er & Hr).
    assert (r = true) as -> by congruence. by destruct (proj1 Hr eq_refl) as (? & ? & _). }
  destruct (Hv t eq_refl) as [bt Ht]. set (f := λ i, default false (x ← chain_of m (Some t) !! i; p ← x; early time height <$> m !! p)).
  assert (Hf : ∀ i p b, chain_of m (Some t) !! i = Some (Some p) → m !! p = Some b → f i = early time height b).
  { intros i p b Hi Hp. unfold f. by rewrite Hi; cbn; rewrite Hp. }
  assert (Hin : ∀ p e, Contains m (chain_of m (Some t)) p = Some true → m !! p = Some e →
     chain_of m (Some t) !! Z.to_nat (nHeight e) = Some (Some p) ∧ (Z.to_nat (nHeight e) <= Z.to_nat (nHeight bt))%nat).
  { intros p e Hc He. destruct (Contains_spec (Some t) p e Hv He) as (r & Er & Hr). assert (r = true) as -> by congruence.
    destruct (proj1 Hr eq_refl) as (t' & [= <-] & [n Hn]). destruct (walk_meet m Hok t p bt e n 0 p Ht He Hn eq_refl).
    pose proof (height_nonneg m Hok p e He).
    rewrite (chain_lookup t bt), (proj2 (Nat.leb_le _ _)) by (done || lia). split; [|lia]. f_equal.
    by replace (Z.to_nat (nHeight bt) - Z.to_nat (nHeight e))%nat with n by lia. }
  unfold FindEarliestAtLeast. rewrite (length_chain t bt) by done.
  destruct (lower_bound_spec (λ i, x ← chain_of m (Some t) !! i; p ← x; b ← m !! p; Some ((nTimeMax b <? time) || (nHeight b <? height)))
    f (S (Z.to_nat (nHeight bt))) 0 (S (Z.to_nat (nHeight bt)))) as (r & -> & Hr & Hlt & Hge); [done| | |].
  - intros i Hi. destruct (chain_entry t bt i Ht ltac:(lia)) as (p & b & Ei & Hb & _).
    rewrite (Hf i p b), Ei by done. cbn [mbind option_bind]. by rewrite Hb.
  - intros i j Hi Hj. destruct (chain_entry t bt i Ht ltac:(lia)) as (p & b & Ei & Hb & Ebi & Wi).
    destruct (chain_entry t bt j Ht ltac:(lia)) as (p' & b' & Ej & Hb' & Ebj & Wj).
    rewrite (Hf i p b), (Hf j p' b') by done. unfold early. rewrite !orb_false_iff, !Z.ltb_ge.
    assert (nTimeMax b <= nTimeMax b'); [|lia]. apply (time_max_mono p' b' (j - i) p b); [done| |done].
    rewrite <-Wi. replace (Z.to_nat (nHeight bt) - i)%nat with (Z.to_nat (nHeight bt) - j + (j - i))%nat by lia.
    by rewrite walk_add, Wj.
  - cbn [mbind option_bind]. eexists. split; [done|]. destruct (Nat.eqb_spec r (S (Z.to_nat (nHeight bt)))) as [->|Hne].
    + intros p e Hc He. destruct (Hin p e Hc He) as [Hi Hl]. rewrite <-(Hf _ p e Hi He). apply Hlt. lia.
    + destruct (chain_entry t bt r Ht ltac:(lia)) as (q & b & Er & Hb & Ebr & _). rewrite Er. cbn [default].
      exists b. split; [done|]. rewrite Ebr, Nat2Z.id. split; [done|].
      split; [rewrite <-(Hf r q b Er Hb); apply Hge; lia|]. intros p e Hc He Hlt'.
      destruct (Hin p e Hc He) as [Hi Hl]. rewrite <-(Hf _ p e Hi He). apply Hlt.
      pose proof (height_nonneg m Hok p e He). lia.
Qed.

(** What the search is about, by the timestamps alone: some block of the branch that ends in [q] has the time. *)
Definition time_reached (time : Z) (q : ptr) : Prop := ∃ p e, ancestor m q p ∧ m !! p = Some e ∧ time <= nTime e.

(** [nTimeMax] is the greatest timestamp of the branch. *)
Lemma time_max_reached time q b : m !! q = Some b → (time <= nTimeMax b ↔ time_reached time q).
Proof.
  intros Hq. split.
  - intros Ht. pose proof (height_nonneg m Hok q b Hq) as Hh. remember (Z.to_nat (nHeight b)) as n eqn:En.
    revert q b Hq Ht Hh En. induction n as [|n IH]; intros q b Hq Ht Hh En;
      (destruct (Z.le_gt_cases time (nTime b)); [exists q, b; split; [by exists O|done]|]); destruct (Hok q b Hq) as [_ Hb];
      (destruct (pprev b) as [r|] eqn:Er; [destruct Hb as (d & s & Hd & Hd0 & Ed & _ & _ & Et & _)|
        destruct Hb as (_ & _ & Et & _); lia]); [lia|].
    destruct (IH r d Hd ltac:(lia) Hd0 ltac:(lia)) as (p & e & [k Hk] & He & Hte).
    exists p, e. split; [|done]. exists (S k). cbn [walk]. rewrite Hq. cbn [mbind option_bind]. by rewrite Er.
  - intros (p & e & [n Hn] & He & Ht). pose proof (time_max_mono q b n p e Hq Hn He).
    enough (nTime e <= nTimeMax e) by lia. destruct (Hok p e He) as [_ Hb].
    destruct (pprev e); [destruct Hb as (d & s & _ & _ & _ & _ & _ & Et & _)|destruct Hb as (_ & _ & Et & _)]; lia.
Qed.

Lemma early_false time height q b :
  m !! q = Some b → early time height b = false ↔ height <= nHeight b ∧ time_reached time q.
Proof.
  intros Hq. unfold early. rewrite orb_false_iff, !Z.ltb_ge, <-(time_max_reached time q b Hq). tauto.
Qed.

(** The answer to a search: the lowest block of the chain, from the height on, by which the time has been reached.
    It has the time itself unless a block below the height has it. *)
Definition earliest (vChain : list (option ptr)) (time height : Z) (r : option ptr) : Prop :=
  match r with
  | Some q => ∃ b, m !! q = Some b ∧ vChain !! Z.to_nat (nHeight b) = Some (Some q)
      ∧ height <= nHeight b ∧ time_reached time q
      ∧ (∀ p e, Contains m vChain p = Some true → m !! p = Some e →
           height <= nHeight e → time_reached time p → nHeight b <= nHeight e)
      ∧ (time <= nTime b ∨ ∃ p e, ancestor m q p ∧ m !! p = Some e ∧ 0 <= nHeight e < height ∧ time <= nTime e)
  | None => ∀ p e, Contains m vChain p = Some true → m !! p = Some e → height <= nHeight e → ¬ time_reached time p
  end.

Lemma Contains_ancestor tip p q b e :
  valid_tip m tip → m !! q = Some b → m !! p = Some e →
  Contains m (chain_of m tip) q = Some true → ancestor m q p → Contains m (chain_of m tip) p = Some true.
Proof.
  intros Hv Hq Hp Hc Ha. destruct (Contains_spec tip q b Hv Hq) as (r & Er & Hr). assert (r = true) as -> by congruence.
  destruct (proj1 Hr eq_refl) as (t & -> & Ht). destruct (Contains_spec (Some t) p e Hv Hp) as (r & -> & Hr').
  f_equal. apply Hr'. exists t. split; [done|]. by eapply ancestor_trans.
Qed.

Lemma FindEarliestAtLeast_spec tip time height :
  valid_tip m tip →
  ∃ r, FindEarliestAtLeast m (chain_of m tip) time height = Some r ∧ earliest (chain_of m tip) time height r.
Proof.
  intros Hv. destruct (lower_bound_found tip time height Hv) as (r & -> & Hr). exists r. split; [done|].
  destruct r as [q|]; cbn [earliest]; cycle 1.
  { intros p e Hc He Hh Ht. enough (early time height e = false) by (rewrite (Hr p e Hc He) in *; done).
    by apply (early_false time height p e He). }
  destruct Hr as (b & Hq & Hl & Hb & Hmin). destruct (proj1 (early_false time height q b Hq) Hb) as [Hh Ht].
  assert (Hc : Contains m (chain_of m tip) q = Some true).
  { unfold Contains, at_height. rewrite Hq. cbn [mbind option_bind]. pose proof (height_nonneg m Hok q b Hq).
    pose proof (lookup_lt_Some _ _ _ Hl). rewrite (proj2 (Z.ltb_ge _ 0)), (proj2 (Z.leb_gt _ _)) by lia. cbn [orb].
    rewrite Hl. cbn [default]. by rewrite bool_decide_true. }
  assert (Hleast : ∀ p e, Contains m (chain_of m tip) p = Some true → m !! p = Some e →
    height <= nHeight e → time_reached time p → nHeight b <= nHeight e).
  { intros p e Hp He Hhe Hte. destruct (Z.le_gt_cases (nHeight b) (nHeight e)) as [|Hlt]; [done|].
    pose proof (proj2 (early_false time height p e He) (conj Hhe Hte)). rewrite (Hmin p e Hp He Hlt) in *. done. }
  exists b. do 3 (split; [done|]). split; [done|]. split; [done|]. destruct Ht as (p & e & Ha & He & Hte).
  destruct (Z.lt_ge_cases (nHeight e) height).
  { right. exists p, e. pose proof (height_nonneg m Hok p e He). repeat split; (done || lia). }
  left. assert (nHeight b <= nHeight e).
  { apply (Hleast p e); [by apply (Contains_ancestor tip p q b e)|done|lia|]. exists p, e. repeat split; [by exists O|done|done]. }
  destruct Ha as [n Hn]. destruct (walk_meet m Hok q p b e n 0 p Hq He Hn eq_refl).
  assert (n = O) as -> by lia. cbn [walk] in Hn. by simplify_eq.
Qed.

Lemma GetLocator_spec tip p b :
  valid_tip m tip → m !! p = Some b →
  ∃ l, GetLocator m (chain_of m tip) (Some p) = Some (p :: l) ∧ Forall (ancestor m p) l ∧ Sorted higher (p :: l)
  ∧ (∃ g, last (p :: l) = Some g ∧ has_height m g = Some 0) ∧ Z.of_nat (length (p :: l)) <= 12 + Z.log2 (nHeight b).
Proof.
  intros Hv Hp. pose proof (height_nonneg m Hok p b Hp). pose proof (Z.log2_nonneg (nHeight b)).
  destruct (locator_loop_spec tip (Z.to_nat (nHeight b)) p b 1 [] (Z.to_nat (Z.log2 (nHeight b) + 1)))
    as (l & E & Ha & Hs & Hg & Hl); [done|done|lia|lia| |].
  { rewrite Z2Nat.id by lia. destruct (Z.eq_dec (nHeight b) 0) as [->|]; [by vm_compute|].
    pose proof (Z.log2_spec (nHeight b) ltac:(lia)). rewrite Z.add_1_r. lia. }
  exists l. unfold GetLocator. rewrite Hp. cbn [mbind option_bind]. split; [exact E|]. do 3 (split; [done|]).
  cbn [length] in *. lia.
Qed.
End ActiveChain.

(** The block found may be earlier than the time asked for: with the times 100 and 90, the search for time 95 from
    height 1 on finds the block of time 90, because its predecessor has the time. *)
Example earliest_below_time :
  ('(_, bm, best) ← AddToBlockIndex (mk_manager ∅ ∅ []) (mk_header 1 [] [] 100 0x1e0ffff0 7) [0] None BLOCK_VALID_TREE;
   '(_, bm, _) ← AddToBlockIndex bm (mk_header 1 [0] [] 90 0x1e0ffff0 7) [1] best BLOCK_VALID_TREE;
   let m := m_block_index bm in
   r ← FindEarliestAtLeast m (chain_of m (Some [1])) 95 1; q ← r; b ← m !! q; Some (q, nTime b)) = Some ([1], 90).
Proof. by vm_compute. Qed.

(** C8: The active chain: when [vChain] holds the ancestors of the old tip by
    height, [SetTip] makes it hold those of the new one, although it stops at
    the first entry that is in place; [FindFork] finds the last common
    ancestor with the tip; [GetLocator] lists ancestors at falling heights
    from the block to the genesis block, at most 12 plus the binary logarithm
    of the height; the binary search of [FindEarliestAtLeast] finds the lowest
    block of the chain, at the height or above, by which some block of the
    chain has a timestamp of at least the time, and no block when there is
    none; the block found has such a timestamp itself unless a block below the
    height has it, so always when the height is at most zero. *)
Theorem active_chain_correct bm best tip :
  reachable bm best → let m := m_block_index bm in valid_tip m tip → let vChain := chain_of m tip in
  (∀ new, valid_tip m new → SetTip m vChain new = Some (chain_of m new))
  ∧ (∀ t p e, tip = Some t → m !! p = Some e → FindFork m vChain (Some p) = LastCommonAncestor m t p)
  ∧ (∀ p e, m !! p = Some e →
       ∃ l, GetLocator m vChain (Some p) = Some (p :: l) ∧ Forall (ancestor m p) l ∧ Sorted (higher m) (p :: l)
       ∧ (∃ g, last (p :: l) = Some g ∧ has_height m g = Some 0) ∧ Z.of_nat (length (p :: l)) <= 12 + Z.log2 (nHeight e))
  ∧ (∀ time height, ∃ r, FindEarliestAtLeast m vChain time height = Some r ∧ earliest m vChain time height r).
Proof.
  intros Hr m Hv vChain. destruct (reachable_ok bm best Hr) as [Hok _]. fold m in Hok.
  split; [intros; by apply SetTip_spec|]. split.
  { intros t p e -> Hp. destruct (Hv t eq_refl) as [bt Ht]. by apply (FindFork_common m Hok t p bt e). }
  split; [intros; by eapply GetLocator_spec|]. intros. by apply FindEarliestAtLeast_spec.
Qed.

Lemma active_chain_correct_witness :
  let m := m_block_index (sample_tree 5) in
  SetTip m (chain_of m (Some [2])) (Some [4]) = Some (chain_of m (Some [4])) ∧
  FindFork m (chain_of m (Some [2])) (Some [4]) = LastCommonAncestor m [2] [4].
Proof.
  intros m. assert (V : ∀ i, i = 2 ∨ i = 4 → valid_tip m (Some [i])).
  { intros i Hi q [= <-]. destruct Hi as [->| ->]; vm_compute; eauto. }
  destruct (active_chain_correct (sample_tree 5) (sample_best 5) (Some [2]) (sample_reachable 5) (V 2 ltac:(lia)))
    as (S & F & _). split; [apply S, V; lia|].
  assert (E : ∃ e, m !! [4] = Some e) by (eexists; vm_compute; reflexivity). destruct E as [e He].
  exact (F [2] [4] e eq_refl He).
Defined.
