(* ===== verification/Pow.v ===== *)
(** Proof of work: [src/pow.cpp], with the parameters of
    [src/consensus/params.h] that it reads.

    [CheckProofOfWork] accepts exactly the hashes at or below the target, for
    targets in range; the three genesis blocks pass it.  [DarkGravityWave]
    computes the weighted mean of the last 24 targets, scaled by the clamped
    time they took and capped by the limit.  [GetNextWorkRequired] always
    returns, and keeps the targets of a tree in range.

    A multiplication [bnNew *= nActualTimespan] by a 64-bit integer selects the
    overload on [uint32_t] and cuts the factor to 32 bits; a division converts
    its operand to [base_uint] through [uint64_t].  The doubles of
    [KimotoGravityWell] are IEEE binary64 numbers; the mathematical library's
    [pow] is an argument. *)
From S2P Require Import Prelude SphTypes Uint256 HashX11 Block Arith256 BlockIndex.
From Stdlib Require Import SpecFloat String.
From stdpp Require Import list gmap.
#[local] Open Scope Z_scope.

(** ** Parameters *)

Record Params := mk_params {
  powLimit : list Z; fPowAllowMinDifficultyBlocks : bool; fPowNoRetargeting : bool;
  nPowTargetSpacing : Z; nPowTargetTimespan : Z; nPowKGWHeight : Z; nPowDGWHeight : Z;
  nMinimumDifficultyBlocks : Z }.

Definition DifficultyAdjustmentInterval (params : Params) : Z :=
  Z.quot (nPowTargetTimespan params) (nPowTargetSpacing params).

(** The networks' values. *)
Definition main_params : Params :=
  mk_params (uint256S "00000fffffffffffffffffffffffffffffffffffffffffffffffffffffffffff") false false
    150 86400 15200 34140 0.
Definition test_params : Params :=
  mk_params (uint256S "00000fffffffffffffffffffffffffffffffffffffffffffffffffffffffffff") true false
    150 86400 4002 4002 0.
Definition reg_params : Params :=
  mk_params (uint256S "7fffffffffffffffffffffffffffffffffffffffffffffffffffffffffffffff") true true
    150 86400 15200 34140 0.

(** ** The check *)

Definition CheckProofOfWork (hash : list Z) (nBits : Z) (params : Params) : bool :=
  let '(bnTarget, fNegative, fOverflow) := SetCompact nBits in
  if fNegative || EqualTo bnTarget 0 || fOverflow || (0 <? CompareTo bnTarget (UintToArith256 (powLimit params)))
  then false
  else if 0 <? CompareTo (UintToArith256 hash) bnTarget then false else true.

(** ** Dark Gravity Wave *)

Definition target_of (nBits : Z) : list Z := fst (fst (SetCompact nBits)).

(** The loop over the last [nPastBlocks] blocks, from [nCountBlocks] on: the
    mean and the last entry it looked at. *)
Fixpoint dgw_loop (turns : nat) (m : BlockMap) (nCountBlocks : Z) (pindex : ptr) (bnPastTargetAvg : list Z)
    : option (list Z * ptr) :=
  match turns with
  | O => Some (bnPastTargetAvg, pindex)
  | S turns =>
      b ← m !! pindex;
      let bnTarget := target_of (nBits b) in
      avg ← (if nCountBlocks =? 1 then Some bnTarget
             else div (add (mul32 bnPastTargetAvg nCountBlocks) bnTarget) (base_uint_of (nCountBlocks + 1)));
      match turns with
      | O => Some (avg, pindex)
      | S _ => p ← pprev b; dgw_loop turns m (nCountBlocks + 1) p avg
      end
  end.

(** The last lines of the retargeting routines: scale, cap, encode. *)
Definition retarget (bnNew : list Z) (actual target : Z) (bnPowLimit : list Z) : option Z :=
  bnNew ← div (mul32 bnNew actual) (base_uint_of (SPH_T64 target));
  GetCompact (if 0 <? CompareTo bnNew bnPowLimit then bnPowLimit else bnNew) false.

Definition DarkGravityWave (m : BlockMap) (pindexLast : ptr) (params : Params) : option Z :=
  let bnPowLimit := UintToArith256 (powLimit params) in
  let nPastBlocks := 24 in
  last ← m !! pindexLast;
  if nHeight last <? nPastBlocks then GetCompact bnPowLimit false
  else
    '(bnPastTargetAvg, pindex) ← dgw_loop (Z.to_nat nPastBlocks) m 1 pindexLast (base_uint_of 0);
    first ← m !! pindex;
    let nActualTimespan := nTime last - nTime first in
    let nTargetTimespan := nPastBlocks * nPowTargetSpacing params in
    let nActualTimespan := if nActualTimespan <? Z.quot nTargetTimespan 3 then Z.quot nTargetTimespan 3 else nActualTimespan in
    let nActualTimespan := if nTargetTimespan * 3 <? nActualTimespan then nTargetTimespan * 3 else nActualTimespan in
    retarget bnPastTargetAvg nActualTimespan nTargetTimespan bnPowLimit.

(** ** The first algorithm *)

Definition CalculateNextWorkRequired (m : BlockMap) (pindexLast : ptr) (nFirstBlockTime : Z) (params : Params)
    : option Z :=
  last ← m !! pindexLast;
  if fPowNoRetargeting params then Some (nBits last)
  else
    let span := nPowTargetTimespan params in
    let nActualTimespan := nTime last - nFirstBlockTime in
    let nActualTimespan := if nActualTimespan <? Z.quot span 4 then Z.quot span 4 else nActualTimespan in
    let nActualTimespan := if span * 4 <? nActualTimespan then span * 4 else nActualTimespan in
    retarget (target_of (nBits last)) nActualTimespan span (UintToArith256 (powLimit params)).

(** The walk back to the last block without the minimum difficulty. *)
Fixpoint last_special (fuel : nat) (m : BlockMap) (pindex : ptr) (interval limit : Z) : option Z :=
  b ← m !! pindex;
  match pprev b with
  | Some p =>
      if negb (Z.rem (nHeight b) interval =? 0) && (nBits b =? limit) then
        match fuel with O => None | S fuel => last_special fuel m p interval limit end
      else Some (nBits b)
  | None => Some (nBits b)
  end.

Definition GetNextWorkRequiredBTC (m : BlockMap) (pindexLast : ptr) (pblock : CBlockHeader) (params : Params)
    : option Z :=
  last ← m !! pindexLast;
  nProofOfWorkLimit ← GetCompact (UintToArith256 (powLimit params)) false;
  let interval := DifficultyAdjustmentInterval params in
  if negb (Z.rem (nHeight last + 1) interval =? 0) then
    if fPowAllowMinDifficultyBlocks params then
      if nTime last + nPowTargetSpacing params * 2 <? Block.nTime pblock then Some nProofOfWorkLimit
      else last_special (Z.to_nat (nHeight last)) m pindexLast interval nProofOfWorkLimit
    else Some (nBits last)
  else
    let nHeightFirst := nHeight last - (interval - 1) in
    if nHeightFirst <? 0 then None
    else
      pindexFirst ← GetAncestor m pindexLast nHeightFirst;
      p ← pindexFirst;
      first ← m !! p;
      CalculateNextWorkRequired m pindexLast (nTime first) params.

(** ** Kimoto Gravity Well *)

(** IEEE binary64. *)
Definition dbl (z : Z) : spec_float := binary_normalize 53 1024 z 0 false.
Definition dadd := SFadd 53 1024.
Definition dmul := SFmul 53 1024.
Definition ddiv := SFdiv 53 1024.

(** The literals 0.025, 0.7084, 28.2 and 1.228. *)
Definition d0_025 : spec_float := S754_finite false 7205759403792794 (-58).
Definition d0_7084 : spec_float := S754_finite false 6380699952058519 (-53).
Definition d28_2 : spec_float := S754_finite false 7937594343240499 (-48).
Definition d1_228 : spec_float := S754_finite false 5530420342410969 (-52).

(** The conversion of a double to [uint64_t], for values in range. *)
Definition dbl_to_u64 (x : spec_float) : Z :=
  match x with S754_finite false mx e => SPH_T64 (Z.pos mx ≪ e) | _ => 0 end.

Section Kimoto.
Context (pow : spec_float → spec_float → spec_float).

Record kgw_state := mk_kgw { PastDifficultyAverage : list Z; PastRateActualSeconds : Z; PastRateTargetSeconds : Z }.

(** The mean of the targets, updated with the target of one more block. *)
Definition kgw_average (i : Z) (prev cur : list Z) : option (list Z) :=
  if 1 <? i then
    if 0 <=? CompareTo cur prev
    then q ← div (sub cur prev) (base_uint_of i); Some (add q prev)
    else q ← div (sub prev cur) (base_uint_of i); Some (sub prev q)
  else Some cur.

(** The test that ends the loop: the rate is off by more than the horizon. *)
Definition kgw_outside (PastBlocksMass actual target : Z) : bool :=
  let ratio := if negb (actual =? 0) && negb (target =? 0) then ddiv (dbl target) (dbl actual) else dbl 1 in
  let deviation := dadd (dbl 1) (dmul d0_7084 (pow (ddiv (dbl PastBlocksMass) d28_2) (SFopp d1_228))) in
  SFleb ratio (ddiv (dbl 1) deviation) || SFleb deviation ratio.

Fixpoint kgw_loop (fuel : nat) (m : BlockMap) (params : Params) (lastTime PastBlocksMin PastBlocksMax : Z)
    (i PastBlocksMass : Z) (BlockReading : ptr) (PastDifficultyAveragePrev : list Z) (st : kgw_state) : option kgw_state :=
  b ← m !! BlockReading;
  if negb (0 <? nHeight b) then Some st
  else if (0 <? PastBlocksMax) && (PastBlocksMax <? i) then Some st
  else
    let PastBlocksMass := PastBlocksMass + 1 in
    avg ← kgw_average i PastDifficultyAveragePrev (target_of (nBits b));
    let actual := Z.max 0 (lastTime - nTime b) in
    let target := nPowTargetSpacing params * PastBlocksMass in
    let st := mk_kgw avg actual target in
    if (PastBlocksMin <=? PastBlocksMass) && kgw_outside PastBlocksMass actual target then Some st
    else
      match pprev b, fuel with
      | None, _ => Some st
      | Some p, S fuel => kgw_loop fuel m params lastTime PastBlocksMin PastBlocksMax (i + 1) PastBlocksMass p avg st
      | Some _, O => None
      end.

Definition KimotoGravityWell (m : BlockMap) (pindexLast : ptr) (params : Params) : option Z :=
  let pastSecondsMin := dbl_to_u64 (dmul (dbl (nPowTargetTimespan params)) d0_025) in
  let pastSecondsMax := SPH_T64 (nPowTargetTimespan params * 7) in
  let PastBlocksMin := pastSecondsMin / SPH_T64 (nPowTargetSpacing params) in
  let PastBlocksMax := pastSecondsMax / SPH_T64 (nPowTargetSpacing params) in
  let bnPowLimit := UintToArith256 (powLimit params) in
  last ← m !! pindexLast;
  if (nHeight last =? 0) || (nHeight last <? PastBlocksMin) then GetCompact bnPowLimit false
  else
    st ← kgw_loop (Z.to_nat (nHeight last)) m params (nTime last) PastBlocksMin PastBlocksMax 1 0 pindexLast
           (base_uint_of 0) (mk_kgw (base_uint_of 0) 0 0);
    if negb (PastRateActualSeconds st =? 0) && negb (PastRateTargetSeconds st =? 0)
    then retarget (PastDifficultyAverage st) (PastRateActualSeconds st) (PastRateTargetSeconds st) bnPowLimit
    else GetCompact (if 0 <? CompareTo (PastDifficultyAverage st) bnPowLimit then bnPowLimit else PastDifficultyAverage st) false.

(** ** The choice of algorithm *)

Definition GetNextWorkRequired (m : BlockMap) (pindexLast : ptr) (pblock : CBlockHeader) (params : Params) : option Z :=
  last ← m !! pindexLast;
  let bnPowLimit := UintToArith256 (powLimit params) in
  if nHeight last <? nMinimumDifficultyBlocks params then GetCompact bnPowLimit false
  else if nHeight last + 1 <? nPowKGWHeight params then GetNextWorkRequiredBTC m pindexLast pblock params
  else if fPowNoRetargeting params then GetCompact bnPowLimit false
  else if fPowAllowMinDifficultyBlocks params && (nTime last + 2 * 60 * 60 <? Block.nTime pblock)
  then GetCompact bnPowLimit false
  else if fPowAllowMinDifficultyBlocks params && (nTime last + nPowTargetSpacing params * 4 <? Block.nTime pblock)
  then
    let bnNew := mul32 (target_of (nBits last)) 10 in
    if 0 <? CompareTo bnNew bnPowLimit then GetCompact bnPowLimit false else GetCompact bnNew false
  else if nHeight last + 1 <? nPowDGWHeight params then KimotoGravityWell m pindexLast params
  else DarkGravityWave m pindexLast params.
End Kimoto.

(** ** The check *)

(** A 32-byte parameter or hash. *)
Definition blob (u : list Z) : Prop := length u = WIDTH ∧ bytes u.

Lemma blob_limbs u : blob u → limbs (UintToArith256 u) ∧ val (UintToArith256 u) = le_join u ∧ word 256 (le_join u).
Proof.
  intros [Hl Hb]. destruct (UintToArith256_spec u Hl Hb) as [Hu Ev]. split; [done|]. split; [done|].
  rewrite <-Ev. by apply limbs_bound.
Qed.

Lemma decode_nonneg c : word 32 c → 0 <= decode_compact c.
Proof.
  intros Hc. destruct (compact_fields c Hc) as (He & Hm & _). unfold word in *. unfold decode_compact, compact_value.
  destruct (Z.leb_spec (c / 2 ^ 24) 3); [apply Z.div_pos; [lia|apply pow256_pos; lia]|].
  apply Z.mul_nonneg_nonneg; [lia|]. pose proof (pow256_pos (c / 2 ^ 24 - 3)). lia.
Qed.


Lemma CheckProofOfWork_spec hash nBits params :
  blob hash → word 32 nBits → blob (powLimit params) →
  CheckProofOfWork hash nBits params = true ↔
  Z.testbit nBits 23 = false ∧ 0 < decode_compact nBits <= le_join (powLimit params)
  ∧ le_join hash <= decode_compact nBits.
Proof.
  intros Hh Hn Hp. destruct (blob_limbs _ Hh) as (Lh & Eh & Wh). destruct (blob_limbs _ Hp) as (Lp & Ep & Wp).
  unfold CheckProofOfWork. destruct (SetCompact_spec nBits Hn) as (r & -> & Lr & Er).
  set (t := decode_compact nBits) in *. unfold word in Wh, Wp.
  rewrite EqualTo_spec, !compare_gt, Er, Eh, Ep by (done || by vm_compute).
  pose proof (decode_nonneg nBits Hn) as Ht. fold t in Ht.
  destruct (Z.leb_spec (2 ^ 256) t).
  { rewrite orb_true_r, orb_true_l. split; [done|]. lia. }
  rewrite Z.mod_small by lia. rewrite orb_false_r.
  destruct (Z.eqb_spec t 0), (Z.testbit nBits 23), (Z.ltb_spec (le_join (powLimit params)) t),
    (Z.ltb_spec t (le_join hash)); cbn [negb andb orb]; (split; [intros ?|intros (? & ? & ?)]); (done || (repeat split; lia) || lia).
Qed.

Lemma genesis_work stk :
  stack_ok stk →
  CheckProofOfWork (GetHash stk genesis_main) (Block.nBits genesis_main) main_params = true
  ∧ CheckProofOfWork (GetHash stk genesis_testnet) (Block.nBits genesis_testnet) test_params = true
  ∧ CheckProofOfWork (GetHash stk genesis_regtest) (Block.nBits genesis_regtest) reg_params = true.
Proof. intros Hs. destruct (genesis_hashes stk Hs) as (-> & -> & ->). split; [|split]; vm_compute; reflexivity. Qed.

(** C3: [CheckProofOfWork] accepts a hash exactly when the claimed target is
    not negative, not zero and at most the limit, and the hash, read as a
    little-endian number, is at most the target; in particular the genesis
    blocks of the main, test and regression-test networks pass it with their
    own X11 hashes. *)
Theorem CheckProofOfWork_correct :
  (∀ hash nBits params, blob hash → word 32 nBits → blob (powLimit params) →
     CheckProofOfWork hash nBits params = true ↔
     Z.testbit nBits 23 = false ∧ 0 < decode_compact nBits <= le_join (powLimit params)
     ∧ le_join hash <= decode_compact nBits)
  ∧ ∀ stk, stack_ok stk →
     CheckProofOfWork (GetHash stk genesis_main) (Block.nBits genesis_main) main_params = true
     ∧ CheckProofOfWork (GetHash stk genesis_testnet) (Block.nBits genesis_testnet) test_params = true
     ∧ CheckProofOfWork (GetHash stk genesis_regtest) (Block.nBits genesis_regtest) reg_params = true.
Proof. split; [apply CheckProofOfWork_spec|apply genesis_work]. Qed.

Lemma CheckProofOfWork_correct_witness :
  (CheckProofOfWork (uint256S "1") 0x1e0ffff0 main_params = true ↔
   Z.testbit 0x1e0ffff0 23 = false ∧ 0 < decode_compact 0x1e0ffff0 <= le_join (powLimit main_params)
   ∧ le_join (uint256S "1") <= decode_compact 0x1e0ffff0)
  ∧ CheckProofOfWork (GetHash zero_stack genesis_main) (Block.nBits genesis_main) main_params = true.
Proof.
  destruct CheckProofOfWork_correct as [C G]. split; [|exact (proj1 (G zero_stack zero_stack_ok))].
  apply C; [split; [reflexivity|]|unfold word; lia|split; [reflexivity|]];
    apply (bool_decide_unpack _); vm_compute; exact I.
Defined.

(** ** Retargeting *)

Lemma target_of_spec c : word 32 c → computes (target_of c) (decode_compact c mod 2 ^ 256).
Proof. intros Hc. unfold target_of. by destruct (SetCompact_spec c Hc) as (r & -> & Hr). Qed.

Lemma capped a lim :
  limbs a → limbs lim → computes (if 0 <? CompareTo a lim then lim else a) (Z.min (val lim) (val a)).
Proof.
  intros Ha Hl. rewrite compare_gt by done. destruct (Z.ltb_spec (val lim) (val a)); (split; [done|]); lia.
Qed.

(** Scaling wraps at 256 bits; the rest is exact. *)
Lemma retarget_spec bn actual target lim :
  limbs bn → limbs lim → 0 < target < 2 ^ 64 →
  retarget bn actual target lim =
  Some (encode_compact (Z.min (val lim) ((val bn * (actual mod 2 ^ 32)) mod 2 ^ 256 / target)) false).
Proof.
  intros Hb Hl Ht. unfold retarget. rewrite SPH_T64_id by (unfold word; lia).
  destruct (mul32_spec bn actual Hb) as [Hm Em].
  destruct (base_uint_of_spec target ltac:(unfold word; lia)) as [Hd Ed].
  pose proof (div_spec _ _ Hm Hd) as H. rewrite Ed, Em, (proj2 (Z.eqb_neq target 0)) in H by lia.
  destruct H as (q & -> & Hq & Eq). cbn [mbind option_bind].
  destruct (capped q lim Hq Hl) as [Hc Ec]. by rewrite GetCompact_spec, Ec, Eq.
Qed.

(** ** Dark Gravity Wave *)

(** The targets of a list of entries, the first counted twice. *)
Definition sum_targets (l : list CBlockIndex) : Z := foldr (λ b s, decode_compact (nBits b) + s) 0 l.
Definition weighted_targets (l : list CBlockIndex) : Z :=
  match l with b :: _ => decode_compact (nBits b) + sum_targets l | [] => 0 end.

(** One step of the mean. *)
Lemma mean_step avg t n L :
  limbs avg → limbs t → 1 <= n < 2 ^ 32 → 0 <= val avg <= L → 0 <= val t <= L → L * (n + 1) < 2 ^ 256 →
  ∃ r, div (add (mul32 avg n) t) (base_uint_of (n + 1)) = Some r ∧ limbs r ∧ 0 <= val r <= L
  ∧ 0 <= val avg * n + val t - (n + 1) * val r <= n.
Proof.
  intros Ha Ht Hn Hva Hvt HL. destruct (mul32_spec avg n Ha) as [Hm Em].
  rewrite (Z.mod_small n), Z.mod_small in Em by nia.
  destruct (add_spec _ t Hm Ht) as [Hs Es]. rewrite Em, Z.mod_small in Es by nia.
  destruct (base_uint_of_spec (n + 1) ltac:(unfold word; lia)) as [Hd Ed].
  pose proof (div_spec _ _ Hs Hd) as H. rewrite Ed, Es, (proj2 (Z.eqb_neq (n + 1) 0)) in H by lia.
  destruct H as (q & -> & Hq & Eq). exists q. split; [done|]. split; [done|]. rewrite Eq.
  pose proof (Z.div_mod (val avg * n + val t) (n + 1) ltac:(lia)).
  pose proof (Z.mod_pos_bound (val avg * n + val t) (n + 1) ltac:(lia)).
  split; [split; [apply Z.div_pos; nia|apply Z.div_le_upper_bound; nia]|lia].
Qed.

Lemma branch_S m p b q n : m !! p = Some b → pprev b = Some q → branch m (S n) p = b :: branch m n q.
Proof. intros Hp Hq. cbn [branch]. by rewrite Hp, Hq. Qed.
Lemma branch_0 m p b : m !! p = Some b → branch m 0 p = [b].
Proof. intros Hp. cbn [branch]. by rewrite Hp. Qed.

Definition bits_ok (L : Z) (b : CBlockIndex) : Prop := decode_compact (nBits b) <= L.

(** What the divisions of [k + 1] turns from count [n] on can drop. *)
Fixpoint dropped_sum (k : nat) (n : Z) : Z := match k with O => n | S k => n + dropped_sum k (n + 1) end.

(** The turns after the first: the mean stays below the limit, and falls short
    of the exact one by what the divisions drop. *)
Lemma dgw_loop_spec m L k n p b avg :
  index_ok m → m !! p = Some b → Z.of_nat k <= nHeight b → 2 <= n → n + Z.of_nat k < 2 ^ 32 →
  L * (n + Z.of_nat k + 1) < 2 ^ 256 → limbs avg → val avg <= L → Forall (bits_ok L) (branch m k p) →
  ∃ r q first, dgw_loop (S k) m n p avg = Some (r, q) ∧ limbs r ∧ val r <= L
  ∧ m !! q = Some first ∧ last (branch m k p) = Some first
  ∧ 0 <= val avg * n + sum_targets (branch m k p) - (n + Z.of_nat k + 1) * val r <= dropped_sum k n.
Proof.
  intros Hok. revert n p b avg. induction k as [|k IH]; intros n p b avg Hp Hh Hn Hn32 HL Ha Hva Hbits;
    pose proof (limbs_bound avg Ha) as Wa; unfold word in Wa; destruct (Hok p b Hp) as [Hw Hb];
    pose proof (decode_nonneg _ Hw) as Hd; destruct (target_of_spec _ Hw) as [Ht Et].
  - rewrite (branch_0 m p b Hp) in *. apply Forall_cons_1 in Hbits as [Hbb _]. unfold bits_ok in Hbb.
    rewrite Z.mod_small in Et by nia.
    destruct (mean_step avg (target_of (nBits b)) n L) as (r & Er & Hr & Vr & Mr); [done|done|lia|lia|lia|nia|].
    exists r, p, b. cbn [dgw_loop]. rewrite Hp. cbn [mbind option_bind]. rewrite (proj2 (Z.eqb_neq n 1)), Er by lia.
    cbn [mbind option_bind]. do 2 (split; [done|]). split; [lia|]. do 2 (split; [done|]).
    cbn [sum_targets foldr dropped_sum]. lia.
  - destruct (pprev b) as [q|] eqn:Eq; [|lia]. rewrite (branch_S m p b q k Hp Eq) in *.
    destruct Hb as (c & _ & Hq & _ & Ehc & _). apply Forall_cons_1 in Hbits as [Hbb Hbits]. unfold bits_ok in Hbb.
    rewrite Z.mod_small in Et by nia.
    destruct (mean_step avg (target_of (nBits b)) n L) as (r & Er & Hr & Vr & Mr); [done|done|lia|lia|lia|nia|].
    destruct (IH (n + 1) q c r) as (r' & q' & first & E' & Hr' & Vr' & Hf & Hl & M'); [done|lia|lia|lia| |done|lia|done|].
    { replace (n + 1 + Z.of_nat k + 1) with (n + Z.of_nat (S k) + 1) by lia. done. }
    exists r', q', first.
    assert (El : dgw_loop (S (S k)) m n p avg = dgw_loop (S k) m (n + 1) q r).
    { set (K := S k) in *. cbn [dgw_loop]. rewrite Hp. cbn [mbind option_bind].
      rewrite (proj2 (Z.eqb_neq n 1)), Er by lia. cbn [mbind option_bind]. rewrite Eq. done. }
    rewrite El. do 4 (split; [done|]). split; [by destruct (branch m k q)|].
    cbn [sum_targets foldr dropped_sum]. fold (sum_targets (branch m k q)).
    replace (n + Z.of_nat (S k) + 1) with (n + 1 + Z.of_nat k + 1) by lia. lia.
Qed.

Definition clamp (lo hi x : Z) : Z := Z.max lo (Z.min hi x).

Lemma clamp_code lo hi x : lo <= hi →
  (if hi <? (if x <? lo then lo else x) then hi else if x <? lo then lo else x) = clamp lo hi x.
Proof.
  intros H. unfold clamp. destruct (Z.ltb_spec x lo); [destruct (Z.ltb_spec hi lo)|destruct (Z.ltb_spec hi x)]; lia.
Qed.

(** What the parameters must satisfy for the 256-bit product not to wrap. *)
Definition dgw_fits (params : Params) : Prop :=
  1 <= nPowTargetSpacing params ∧ 72 * nPowTargetSpacing params < 2 ^ 32
  ∧ le_join (powLimit params) * (72 * nPowTargetSpacing params) < 2 ^ 256.

Lemma DarkGravityWave_spec m params p b :
  index_ok m → m !! p = Some b → 24 <= nHeight b → blob (powLimit params) → dgw_fits params →
  Forall (bits_ok (le_join (powLimit params))) (branch m 23 p) →
  ∃ avg first, last (branch m 23 p) = Some first ∧ 0 <= avg <= le_join (powLimit params)
  ∧ 0 <= weighted_targets (branch m 23 p) - 25 * avg <= 299
  ∧ let T := 24 * nPowTargetSpacing params in
    DarkGravityWave m p params =
    Some (encode_compact (Z.min (le_join (powLimit params)) (avg * clamp (T / 3) (T * 3) (nTime b - nTime first) / T)) false).
Proof.
  intros Hok Hp Hh Hblob (Hs1 & Hs2 & Hs3) Hbits. destruct (blob_limbs _ Hblob) as (Ll & El & Wl).
  set (L := le_join (powLimit params)) in *. destruct (Hok p b Hp) as [Hw Hb]. destruct (pprev b) as [q|] eqn:Eq; [|lia].
  destruct Hb as (c & _ & Hq & _ & Ehc & _). change 23%nat with (S 22) in *. rewrite (branch_S m p b q 22 Hp Eq) in *.
  apply Forall_cons_1 in Hbits as [Hbb Hbits]. unfold bits_ok in Hbb. pose proof (decode_nonneg _ Hw) as Hd.
  destruct (target_of_spec _ Hw) as [Ht Et]. rewrite Z.mod_small in Et by (unfold word in Wl; lia).
  destruct (dgw_loop_spec m L 22 2 q c (target_of (nBits b))) as (r & q' & first & E & Hr & Vr & Hf & Hl & M);
    [done|done|lia|lia|lia|lia|done|lia|done|].
  exists (val r), first. split; [by destruct (branch m 22 q)|]. pose proof (limbs_bound r Hr) as Wr. unfold word in Wr.
  split; [lia|]. split.
  { cbn [weighted_targets sum_targets foldr]. fold (sum_targets (branch m 22 q)).
    change (dropped_sum 22 2) with 299 in M. lia. }
  cbv zeta. unfold DarkGravityWave. rewrite Hp. cbn [mbind option_bind]. rewrite (proj2 (Z.ltb_ge _ _)) by lia.
  assert (E24 : dgw_loop (Z.to_nat 24) m 1 p (base_uint_of 0) = Some (r, q')).
  { change (Z.to_nat 24) with (S (S 22)). rewrite <-E. set (K := S 22). cbn [dgw_loop]. rewrite Hp. cbn [mbind option_bind].
    cbn [Z.eqb Pos.eqb]. cbn [mbind option_bind]. rewrite Eq. done. }
  rewrite E24. cbn [mbind option_bind]. rewrite Hf. cbn [mbind option_bind].
  rewrite Z.quot_div_nonneg by lia. set (T := 24 * nPowTargetSpacing params).
  assert (HT : T / 3 = 8 * nPowTargetSpacing params)
    by (unfold T; replace (24 * nPowTargetSpacing params) with (8 * nPowTargetSpacing params * 3) by lia; by apply Z.div_mul).
  rewrite clamp_code by lia. set (A := clamp (T / 3) (T * 3) (nTime b - nTime first)).
  assert (HA : 0 <= A <= 72 * nPowTargetSpacing params) by (unfold A, clamp; lia).
  rewrite retarget_spec by (done || lia). rewrite El. rewrite (Z.mod_small A), (Z.mod_small (val r * A)) by nia. done.
Qed.

(** C4: Dark Gravity Wave on every tree that arises, with parameters for which
    the 256-bit product does not wrap and on a branch whose last 24 targets
    are not negative and at most the limit: with fewer than 24 predecessors it
    returns the limit; otherwise it returns the encoding of the mean of the
    last 24 targets, in which the newest counts twice and the divisions drop
    at most 299/25, times the time between the first and the last of those
    blocks clamped to a third and three times the 24 spacings, divided by the
    24 spacings and capped by the limit. *)
Theorem DarkGravityWave_correct bm best params p b :
  reachable bm best → let m := m_block_index bm in
  m !! p = Some b → blob (powLimit params) → dgw_fits params →
  Forall (bits_ok (le_join (powLimit params))) (branch m 23 p) →
  (nHeight b < 24 → DarkGravityWave m p params = Some (encode_compact (le_join (powLimit params)) false))
  ∧ (24 <= nHeight b →
     ∃ avg first, last (branch m 23 p) = Some first ∧ 0 <= avg <= le_join (powLimit params)
     ∧ 0 <= weighted_targets (branch m 23 p) - 25 * avg <= 299
     ∧ let T := 24 * nPowTargetSpacing params in
       DarkGravityWave m p params =
       Some (encode_compact (Z.min (le_join (powLimit params)) (avg * clamp (T / 3) (T * 3) (nTime b - nTime first) / T)) false)).
Proof.
  intros Hr m Hp Hblob Hfits Hbits. destruct (reachable_ok bm best Hr) as [Hok _]. fold m in Hok.
  split; [|intros; by apply DarkGravityWave_spec]. intros Hh. unfold DarkGravityWave. rewrite Hp. cbn [mbind option_bind].
  rewrite (proj2 (Z.ltb_lt _ _)) by lia. destruct (blob_limbs _ Hblob) as (Ll & El & _). by rewrite GetCompact_spec, El.
Qed.

(** With a limit of 2^255 - 1, as devnets have it, the hypothesis of
    [DarkGravityWave_spec] fails and the mean does wrap: two equal targets near
    the limit give a mean below a third of it. *)
Lemma mean_wraps_at_devnet_limit :
  let t := target_of 0x207fffff in
  (r ← div (add (mul32 t 2) t) (base_uint_of 3); Some (3 * val r <? val t)) = Some true.
Proof. vm_compute. reflexivity. Qed.

(** ** Every next target is in range *)

Definition good_bits (L c : Z) : Prop := word 32 c ∧ Z.testbit c 23 = false ∧ decode_compact c <= L.

Definition params_ok (params : Params) : Prop :=
  blob (powLimit params) ∧ 1 <= nPowTargetSpacing params <= nPowTargetTimespan params
  ∧ nPowTargetTimespan params < 2 ^ 31.

Lemma encode_good L v : 0 <= L < 2 ^ 256 → 0 <= v <= L → good_bits L (encode_compact v false).
Proof.
  intros HL Hv. destruct (encode_compact_fields v false ltac:(unfold word; lia)) as (Hw & _ & _ & Hs).
  destruct (decode_encode_compact v false ltac:(unfold word; lia)) as (Ht & _). split; [done|]. split; [done|lia].
Qed.

Section Next.
Context (m : BlockMap) (Hok : index_ok m) (params : Params) (Hpar : params_ok params).
Context (Hgood : ∀ p b, m !! p = Some b → good_bits (le_join (powLimit params)) (nBits b)).
Let L := le_join (powLimit params).
Let lim := UintToArith256 (powLimit params).

(** An outcome: the code returns, with a target in range. *)
Definition next_ok (r : option Z) : Prop := ∃ c, r = Some c ∧ good_bits L c.

Lemma limit_limbs : limbs lim ∧ val lim = L ∧ 0 <= L < 2 ^ 256.
Proof. destruct Hpar as [Hb _]. destruct (blob_limbs _ Hb) as (H1 & H2 & H3). done. Qed.

Lemma next_encoded a : limbs a → val a <= L → next_ok (GetCompact a false).
Proof.
  intros Ha Hv. destruct limit_limbs as (_ & _ & HL). pose proof (limbs_bound a Ha) as Hb. unfold word in Hb.
  rewrite GetCompact_spec by done. eexists. split; [done|]. apply encode_good; lia.
Qed.

Lemma next_limit : next_ok (GetCompact lim false).
Proof. destruct limit_limbs as (H1 & H2 & _). apply next_encoded; [done|lia]. Qed.

Lemma next_capped a : limbs a → next_ok (GetCompact (if 0 <? CompareTo a lim then lim else a) false).
Proof.
  intros Ha. destruct limit_limbs as (H1 & H2 & _). destruct (capped a lim Ha H1) as [Hc Ec].
  apply next_encoded; [done|]. lia.
Qed.

Lemma next_retarget a actual target : limbs a → 0 < target < 2 ^ 64 → next_ok (retarget a actual target lim).
Proof.
  intros Ha Ht. destruct limit_limbs as (H1 & H2 & HL). rewrite retarget_spec by done. eexists. split; [done|].
  apply encode_good; [done|]. rewrite H2. split; [|lia]. apply Z.min_glb; [lia|].
  apply Z.div_pos; [|lia]. apply Z.mod_pos_bound. lia.
Qed.

Lemma target_limbs p b : m !! p = Some b → limbs (target_of (nBits b)).
Proof. intros Hp. destruct (Hgood p b Hp) as [Hw _]. by destruct (target_of_spec _ Hw). Qed.

(** Division by a small positive number always returns. *)
Lemma div_small a n : limbs a → 0 < n < 2 ^ 64 → ∃ q, div a (base_uint_of n) = Some q ∧ limbs q.
Proof.
  intros Ha Hn. destruct (base_uint_of_spec n ltac:(unfold word; lia)) as [Hd Ed].
  pose proof (div_spec a _ Ha Hd) as H. rewrite Ed, (proj2 (Z.eqb_neq n 0)) in H by lia.
  destruct H as (q & Hq & Hl & _). eauto.
Qed.

Lemma dgw_loop_total k n p b avg :
  m !! p = Some b → Z.of_nat k <= nHeight b → 1 <= n → n + Z.of_nat k < 2 ^ 32 → limbs avg →
  ∃ r q first, dgw_loop (S k) m n p avg = Some (r, q) ∧ limbs r ∧ m !! q = Some first.
Proof.
  revert n p b avg. induction k as [|k IH]; intros n p b avg Hp Hh Hn Hn32 Ha; pose proof (target_limbs p b Hp) as Ht;
    (assert (Hs : ∃ r, (if n =? 1 then Some (target_of (nBits b))
        else div (add (mul32 avg n) (target_of (nBits b))) (base_uint_of (n + 1))) = Some r ∧ limbs r);
     [destruct (n =? 1); [eauto|]; apply div_small; [|lia];
      destruct (mul32_spec avg n Ha) as [Hm _]; by destruct (add_spec _ _ Hm Ht)|]);
    destruct Hs as (r & Er & Hr).
  - exists r, p, b. cbn [dgw_loop]. rewrite Hp. cbn [mbind option_bind]. by rewrite Er.
  - destruct (Hok p b Hp) as [_ Hb]. destruct (pprev b) as [q|] eqn:Eq; [|lia]. destruct Hb as (c & _ & Hq & _ & Ehc & _).
    destruct (IH (n + 1) q c r Hq ltac:(lia) ltac:(lia) ltac:(lia) Hr) as (r' & q' & first & E' & Hr' & Hf).
    exists r', q', first. split; [|done]. rewrite <-E'. set (K := S k). cbn [dgw_loop]. rewrite Hp. cbn [mbind option_bind].
    rewrite Er. cbn [mbind option_bind]. by rewrite Eq.
Qed.

Lemma next_DarkGravityWave p b : m !! p = Some b → next_ok (DarkGravityWave m p params).
Proof.
  intros Hp. unfold DarkGravityWave. rewrite Hp. cbn [mbind option_bind]. fold lim.
  destruct (Z.ltb_spec (nHeight b) 24); [apply next_limit|].
  destruct (dgw_loop_total 23 1 p b (base_uint_of 0) Hp) as (r & q & first & E & Hr & Hf);
    [lia|lia|lia|by apply base_uint_of_spec|].
  change (Z.to_nat 24) with 24%nat. rewrite E. cbn [mbind option_bind]. rewrite Hf. cbn [mbind option_bind].
  destruct Hpar as (_ & Hs & Hs'). apply next_retarget; [done|lia].
Qed.

Lemma last_special_total fuel p b interval limit :
  m !! p = Some b → nHeight b <= Z.of_nat fuel → next_ok (last_special fuel m p interval limit).
Proof.
  revert p b. induction fuel as [|fuel IH]; intros p b Hp Hf; cbn [last_special]; rewrite Hp; cbn [mbind option_bind];
    destruct (Hok p b Hp) as [_ Hb]; pose proof (Hgood p b Hp) as G; destruct (pprev b) as [q|];
    try (by eexists); destruct Hb as (c & _ & Hq & Hc & Ehc & _); (destruct (_ && _); [|by eexists]).
  - lia.
  - apply (IH q c); [done|lia].
Qed.

Lemma next_BTC p b pblock : m !! p = Some b → next_ok (GetNextWorkRequiredBTC m p pblock params).
Proof.
  intros Hp. unfold GetNextWorkRequiredBTC. rewrite Hp. cbn [mbind option_bind]. fold lim.
  destruct next_limit as (c & Ec & Gc). rewrite Ec. cbn [mbind option_bind]. pose proof (height_nonneg m Hok p b Hp).
  destruct Hpar as (_ & Hs & Hs'). set (I := DifficultyAdjustmentInterval params).
  assert (HI : 1 <= I).
  { unfold I, DifficultyAdjustmentInterval. rewrite Z.quot_div_nonneg by lia. apply Z.div_le_lower_bound; lia. }
  destruct (Z.eqb_spec (Z.rem (nHeight b + 1) I) 0) as [E|E]; cbn [negb].
  - rewrite Z.rem_mod_nonneg in E by lia. pose proof (Z.div_mod (nHeight b + 1) I ltac:(lia)).
    assert (1 <= (nHeight b + 1) / I) by (destruct (Z.lt_ge_cases ((nHeight b + 1) / I) 1); [nia|lia]).
    assert (I <= nHeight b + 1) by nia. rewrite (proj2 (Z.ltb_ge _ _)) by lia.
    rewrite (GetAncestor_walk m Hok p b) by done. rewrite (proj2 (Z.leb_le _ _)), (proj2 (Z.leb_le _ _)) by lia.
    destruct (walk_total m Hok p b (Z.to_nat (nHeight b - (nHeight b - (I - 1)))) Hp) as (q & f & Hw & Hf & _); [lia|].
    cbn [andb]. rewrite Hw. cbn [mbind option_bind]. rewrite Hf. cbn [mbind option_bind].
    unfold CalculateNextWorkRequired. rewrite Hp. cbn [mbind option_bind].
    destruct (fPowNoRetargeting params); [eexists; split; [done|by apply (Hgood p)]|].
    apply next_retarget; [by apply (target_limbs p)|lia].
  - destruct (fPowAllowMinDifficultyBlocks params); [|eexists; split; [done|by apply (Hgood p)]].
    destruct (_ <? _); [by eexists|]. apply (last_special_total _ p b); [done|lia].
Qed.

Lemma kgw_average_total i prev cur :
  limbs prev → limbs cur → 1 <= i < 2 ^ 64 → ∃ r, kgw_average i prev cur = Some r ∧ limbs r.
Proof.
  intros Hp Hc Hi. unfold kgw_average. destruct (1 <? i); [|eauto]. destruct (0 <=? CompareTo cur prev).
  - destruct (sub_spec cur prev Hc Hp) as [Hs _]. destruct (div_small _ i Hs ltac:(lia)) as (q & -> & Hq).
    cbn [mbind option_bind]. eexists. split; [done|]. by destruct (add_spec q prev Hq Hp).
  - destruct (sub_spec prev cur Hp Hc) as [Hs _]. destruct (div_small _ i Hs ltac:(lia)) as (q & -> & Hq).
    cbn [mbind option_bind]. eexists. split; [done|]. by destruct (sub_spec prev q Hp Hq).
Qed.

Definition kgw_ok (st : kgw_state) : Prop :=
  limbs (PastDifficultyAverage st) ∧ 0 <= PastRateTargetSeconds st < 2 ^ 64.

Lemma kgw_loop_total pow fuel lastTime pmin pmax i p b prev st :
  m !! p = Some b → nHeight b <= Z.of_nat fuel → 1 <= i → i + Z.of_nat fuel < 2 ^ 32 → limbs prev → kgw_ok st →
  ∃ st', kgw_loop pow fuel m params lastTime pmin pmax i (i - 1) p prev st = Some st' ∧ kgw_ok st'.
Proof.
  destruct Hpar as (_ & Hs & Hs').
  revert i p b prev st. induction fuel as [|fuel IH]; intros i p b prev st Hp Hf Hi Hi32 Hprev Hst; cbn [kgw_loop];
    rewrite Hp; cbn [mbind option_bind]; (destruct (negb (0 <? nHeight b)) eqn:Eh; [by eexists|]);
    apply negb_false_iff, Z.ltb_lt in Eh; [lia|].
  destruct (_ && _); [by eexists|].
  destruct (kgw_average_total i prev (target_of (nBits b))) as (r & -> & Hr); [done|by apply (target_limbs p)|lia|].
  cbn [mbind option_bind]. replace (i - 1 + 1) with i by lia.
  set (st' := mk_kgw _ _ _). assert (Hst' : kgw_ok st') by (split; [done|]; cbn; nia). clearbody st'.
  destruct (_ && _); [by eexists|]. destruct (Hok p b Hp) as [_ Hb]. destruct (pprev b) as [q|]; [|by eexists].
  destruct Hb as (c & _ & Hq & _ & Ehc & _).
  destruct (IH (i + 1) q c r st' Hq) as (s' & E' & Hs1); [lia|lia|lia|done|done|].
  exists s'. by replace i with (i + 1 - 1) at 2 by lia.
Qed.

Lemma next_Kimoto pow p b : m !! p = Some b → nHeight b < 2 ^ 31 → next_ok (KimotoGravityWell pow m p params).
Proof.
  intros Hp Hh. unfold KimotoGravityWell. rewrite Hp. cbn [mbind option_bind]. fold lim. set (pmin := _ / _). set (pmax := _ / _).
  clearbody pmin pmax. destruct (_ || _); [apply next_limit|].
  destruct (base_uint_of_spec 0 ltac:(by vm_compute)) as [H0 _].
  destruct (kgw_loop_total pow (Z.to_nat (nHeight b)) (nTime b) pmin pmax 1 p b (base_uint_of 0) (mk_kgw (base_uint_of 0) 0 0))
    as (st & E & Hl & Ht); [done|lia|lia|lia|done|done|]. change (1 - 1) with 0 in E. rewrite E. cbn [mbind option_bind].
  destruct (Z.eqb_spec (PastRateActualSeconds st) 0); [by apply next_capped|].
  destruct (Z.eqb_spec (PastRateTargetSeconds st) 0); [by apply next_capped|].
  apply next_retarget; [done|lia].
Qed.

Lemma next_work pow p b pblock :
  m !! p = Some b → nHeight b < 2 ^ 31 → next_ok (GetNextWorkRequired pow m p pblock params).
Proof.
  intros Hp Hh. unfold GetNextWorkRequired. rewrite Hp. cbn [mbind option_bind]. fold lim. pose proof next_limit as HL.
  destruct (_ <? _); [done|]. destruct (_ <? _); [by apply (next_BTC p b)|]. destruct (fPowNoRetargeting params); [done|].
  destruct (_ && _); [done|]. destruct (_ && _).
  - destruct (mul32_spec (target_of (nBits b)) 10 (target_limbs p b Hp)) as [Hm _].
    pose proof (next_capped _ Hm) as H. by destruct (0 <? _).
  - destruct (_ <? _); [by apply (next_Kimoto pow p b)|by apply (next_DarkGravityWave p b)].
Qed.
End Next.


Lemma DarkGravityWave_correct_witness :
  let m := m_block_index (sample_tree 25) in
  ∃ b, m !! [24] = Some b ∧
  ∃ avg first, last (branch m 23 [24]) = Some first ∧ 0 <= avg <= le_join (powLimit main_params)
  ∧ 0 <= weighted_targets (branch m 23 [24]) - 25 * avg <= 299
  ∧ let T := 24 * nPowTargetSpacing main_params in
    DarkGravityWave m [24] main_params =
    Some (encode_compact (Z.min (le_join (powLimit main_params)) (avg * clamp (T / 3) (T * 3) (nTime b - nTime first) / T)) false).
Proof.
  intros m. assert (E : ∃ b, m !! [24] = Some b ∧ 24 <= nHeight b)
    by (eexists; split; [vm_compute; reflexivity|vm_compute; discriminate]).
  destruct E as (b & Hb & Hh). exists b. split; [exact Hb|].
  destruct (DarkGravityWave_correct (sample_tree 25) (sample_best 25) main_params [24] b (sample_reachable 25) Hb) as [_ H].
  - split; [reflexivity|]. apply (bool_decide_unpack _). vm_compute. exact I.
  - repeat split; vm_compute; (reflexivity || discriminate).
  - unfold bits_ok. apply (bool_decide_unpack _). vm_compute. exact I.
  - exact (H Hh).
Defined.

